(* ===== verification/_CoqProject ===== *)
-Q . S2P
Prelude.v
Keyed.v
Text.v
Primitives.v
LiveError.v
Disk.v
StateM.v
Framing.v
Session.v
Pacing.v
Transfer.v
Bundle.v
Pinned.v
Net.v
Ticket.v
Slots.v
Pairing.v
PqAuth.v
Stun.v
AddressRecord.v
Discovery.v
Reach.v
Link.v
Blind.v
ConfigFile.v
PeerBook.v
Live.v
Sync.v
AtomLink.v
VaultCrypto.v
Vfs.v
Storage.v
ToyVault.v
VaultOps.v
Paths.v
VaultSpec.v
Vault.v
VaultSafety.v
Sandbox.v
Container.v
Display.v
View.v
Launch.v
Staging.v
Shell.v
Friends.v
Noise.v
Pumps.v
Proposal.v
LivePanel.v
Terminal.v
Explorer.v
Screens.v
Window.v
SyncPanel.v
Consent.v
Prompt.v
Program.v
