(* ===== verification/Prelude.v ===== *)
(** * Atom Vault: a verification library

    Atom Vault keeps files in one encrypted file (a vault) and moves vaults between two
    people who know each other.  This library models its command core
    ([atom/src/commands], [crypto], [storage], [vfs]), its live transfer library
    ([p2p-live]) and its block-level synchronisation ([p2p-sync]), and proves what makes
    each correct.  Paths below are under [src/].

    ** How the program is put together

    A vault is opened by [create] or [enter], which derive the keys from a password and
    start a shell; the shell runs [import], [export], [cat], [view], [rm], [vacuum] on the
    open file.  To move it, two people pair once: a spoken code runs SPAKE2, tickets are
    exchanged sealed, and each stores the other's identity and a common secret in the
    sealed peer book.  From then on [live send] and [live receive] reach the peer by its
    last address, by a record published in slots that only the pair can compute, or over
    Tor; prove both identities to each other, post-quantum too; and run the resumable,
    padded transfer over frames.  The older route is the daemon: friends exchange
    [atom://] links, and a friend may propose a vault, or both ends synchronise chunks.

    ** Files of the library

    Foundations.  [Prelude]: bytes, slices, integers as bytes, outcomes ([Ok], [Err],
    [Panic]) and random generators.  [Keyed]: lists searched and updated by a key.
    [Text]: strings as UTF-8 bytes, with the functions of the Rust standard library that
    the code uses.  [Primitives]: the interfaces of the cryptographic libraries with
    their laws, and toy instances of each.  [LiveError]: the error type of [p2p-live]
    and its cursor.  [StateM]: the state and outcome monad, triples, invariants.
    [Disk]: files as bytes with a cursor.  [Paths]: file names of [std::path].

    Live transfer.
    - [Framing] ([framing.rs]), [Session] ([session.rs], [tls.rs]), [Pacing]
      ([pacing.rs]), [Transfer] ([transfer.rs]): length-prefixed frames over a stream in
      segments, sessions with their hello and key ratchet, the shape of the traffic,
      and both ends of the transfer as functions of an endpoint (channel, partial file,
      destination, clock, faults).  [Pinned] ([pinned.rs], the configurations of
      [lib.rs]): what a completed TLS handshake says of the peer.
    - [Bundle] ([bundle.rs], [identity.rs]), [Net] ([tor.rs] and socket addresses),
      [Ticket] ([ticket.rs]): identities and tickets with their encodings.
    - [Slots] ([discovery/secret.rs]), [AddressRecord] ([discovery/record.rs]),
      [Discovery] ([discovery/mod.rs]), [Link] ([discovery/link.rs]), [Blind]
      ([discovery/blind.rs]), [Stun] ([stun.rs]): publishing and finding addresses.
    - [Pairing] ([pairing.rs]), [PqAuth] ([pq_auth.rs]), [Reach] ([reach.rs],
      [rendezvous.rs], the dial of [tor.rs]): pairing, mutual authentication, and the
      ladder of ways to reach a peer, over a [Transport] interface.
    - [ConfigFile] ([config_crypto.rs]), [PeerBook] and [Live] ([commands/live.rs]): the
      sealed files, the commands on the book, and a transfer from end to end, where the
      components above meet; [Terminal] (its handlers): the same commands as they are
      typed, with what they ask and print.

    Synchronisation and friends.  [Sync] ([p2p-sync/src/sync.rs]): both ends as a step
    relation on a vault and any number of concurrent tasks.  [AtomLink]
    ([p2p_utils.rs], [p2p-sync/src/address.rs]): links and daily addresses.  [Friends]
    ([p2p_utils.rs], [friend.rs], [vault_registry.rs], [id.rs], and in [daemon.rs] the
    identity and the answer to a proposal).  [Noise] ([p2p-sync/src/handshake.rs]): the
    handshake of that route, over the [Noise] interface of the library.  [Pumps]
    ([transport.rs]): the encrypted tunnel as a step relation.  [Proposal]
    ([commands/sync.rs], [p2p-sync/src/lib.rs], the loop of [daemon.rs]): a vault handed
    to a friend, both ends.

    The vault.  [VaultCrypto] ([crypto/mod.rs]), [Vfs] ([vfs/mod.rs]), [Storage]
    ([storage.rs]), [VaultOps] (the command handlers): keys, the file table, the layout
    of the file, and the commands, every system call able to fail; the [machine] they run
    on says what a staged name leads to (a link may lead to the vault itself) and whether
    a file may be made beside the vault.  [VaultSpec] and
    [Vault] relate them to a list of named files; [VaultSafety] is what holds whatever
    fails; [Display] ([ls.rs], [cat.rs]), [View] ([view.rs]) and [Shell] ([shell.rs])
    are what the user sees, in the sandbox of [enter.rs], which refuses the [vacuum] of a
    vault outside the staging folder; [ToyVault] is a vault small enough to run.

    Confinement.  [Sandbox] ([sandbox.rs], the ruleset of [enter.rs], reading and writing
    in [gui/broker.rs]): what a Landlock ruleset grants, and what runs under it.
    [Container] ([sandbox.rs]): the bubblewrap arguments, read back as options, and the
    processes they start.  [Launch] ([gui/broker.rs]): from a file's type to the command
    of its viewer.  [Staging] ([gui/broker.rs]): a decrypted document from its staging
    to its wiping.

    The window.  [LivePanel] ([gui/live.rs]): pairing and transfers by clicks, a frame
    at a time, with the transfer threads between the frames.  [Explorer]
    ([gui/explorer.rs], the polling of [gui/mod.rs]): the files of an open vault, over an
    interface that [VaultOps] and a plain list of files both have, and what a frame means
    on such a list, said apart from the code ([Explorer.desk_step]).  [Screens]
    ([gui/login.rs], the vaults of [gui/home.rs], the frame of [gui/mod.rs]): vaults
    chosen, created, unlocked and left, where the explorer, the registry, the sandbox and
    the vault's file meet, and between the frames the broker's threads write what they
    were asked to ([Screens.events]); [Window]: whole runs of it.  [SyncPanel] ([gui/p2p.rs], the
    friends of [gui/home.rs]): the same window with its friends, and the threads that hand
    the open vault to one.  [Consent]
    ([gui/p2p.rs], [daemon.rs], [gui/mod.rs]): the question whether a vault is wanted.

    The program.  [Prompt] ([secure_input.rs], and the commands of [create.rs] and
    [enter.rs] that ask): passwords typed at the terminal.  [Program] ([main.rs],
    [cli.rs]): from the command line to the handler, through the key of the configuration
    files, the restart in the container and the staging folder.

    ** How state and operations correspond

    A Rust function that returns [Result] and may panic is a function to [outcome]; one
    that also changes something is in [M error state], where an error keeps what was
    already done.  A [match], early return or [?] of the source is a branch, a [fails]
    or a bind of the definition, in the order of the source.  Integers are [Z] with
    their range or wrap-around written out ([wadd64], [sat_add64], [parse_uint u16_max]).
    Error values carry the identifying phrase of the message, not its formatting.
    Threads and tasks ([Sync], [View], [Pumps], [SyncPanel]) are step relations; a statement about them holds
    in every interleaving.  A frame of the window is a function of what was clicked and
    typed in it; a field of the window edited by one screen only is in that screen's
    state.

    ** What is proved

    Refinement and equivalence: the vault under any commands and sessions is a list of
    files ([Vault.vault_refines_files]) and so is what the shell shows
    ([Shell.shell_refines_files]), and what the explorer does is what its frames mean on
    such a list ([Explorer.explorer_refines_files]), from the creation of a vault in the window
    through any number of visits ([Window.window_keeps_files]); the sealed peer book is a plain list
    ([PeerBook.peer_book_refines]); a QUIC session is a message channel
    ([Session.quic_refines_chan]); a synchronised vault is the sum of its deliveries
    ([Sync.sync_refines_deliveries]); the tunnel is a pair of reliable streams
    ([Pumps.tunnel_is_reliable]).

    Completion and termination: honest transfers finish, resumed ones too
    ([Transfer.transfer_completes]); a published peer is found
    ([Discovery.published_peer_is_found]); synchronisation converges
    ([Sync.sync_converges]); pairing gives both ends one secret
    ([PeerBook.pairing_stores_the_same_secret]), from two windows as well
    ([LivePanel.two_windows_pair]) and from a terminal and a window
    ([Terminal.terminal_pairs_with_window]), and the Noise handshake one session
    ([Noise.friends_get_one_session]); STUN, the ladder and the reading of responses end
    within their budgets; the program restarts itself in its container at most once
    ([Container.self_sandbox_once]), and what then starts there, on whatever files and key
    ring it finds, runs the command that was given or, without a key, nothing
    ([Program.restart_runs_the_command]); the line that made a vault opens it
    ([Prompt.typed_password_opens]); waiting for a viewer ends
    ([Staging.wait_ends_when_released]).

    Safety against anyone: only verified payloads reach the destination
    ([Transfer.recv_only_delivers_verified]); a session is with the pinned identity or
    with nobody ([Pinned.tls_peer_is_pinned], [Reach.connect_pins_the_peer],
    [PqAuth.pq_authentication],
    [Live.live_transfer_pins_and_keeps], [Noise.handshake_pins]); records, tickets and chunks that open are
    authentic; nicknames stay pinned ([Friends.friend_book_pins]); a stranger makes the
    daemon write nothing and a friend only what was agreed
    ([Proposal.strangers_write_nothing]), and nothing of a vault is sent without consent
    ([Proposal.sync_sends_after_consent]); it is stored where the book and the answer say
    ([Proposal.vault_handed_over]), and consent in the window is a click in the dialog of
    the request ([Consent.consent_is_a_click]); the window runs one transfer at a time
    ([LivePanel.one_transfer_at_a_time]) and one synchronisation, of the open vault
    ([SyncPanel.one_sync_of_the_open_vault]), and has a vault open only inside the one sandbox
    it entered ([Screens.vaults_open_sandboxed]); an export writes the one file that a name
    in the staging folder leads to ([VaultSafety.export_confined]); removed files are zeroed; a failing [vacuum] leaves the vault; terminal
    output carries no control bytes.

    Confinement: a sandbox holds what was asked for, whole, or the program stops
    ([Sandbox.sandbox_confines], [Sandbox.gui_sandbox_opens_one_vault]); the broker
    touches one file; a viewer runs in its container, without network, on one document
    ([Container.viewer_confined], [Launch.flatpak_viewer_confined]); viewers are shredded
    once ([View.viewers_torn_down_once]) and leave nothing of a staged document
    ([Staging.viewer_closed_leaves_nothing]); [Staging.staged_or_taken_back] is every way
    opening one can fail.

    Round trips and bounds: every encoding is inverted by its parser on every
    well-formed value, and no input makes a parser panic except where a lemma names
    the input that does.

    ** Fuel and bounds

    A loop that reads takes at least one byte a turn, so [S] of the bytes wanted is
    enough ([Framing.read_exact], [Blind.read_body]; [RESPONSE_BYTES] bounds a whole
    response).  Rendezvous loops advance the clock every turn, so any fuel above the
    budget in nanoseconds is enough ([Reach.enough]).  The receiver of a transfer turns
    once per message received, and rejection sampling takes the draws given in the
    environment; [Pacing.random_below_uniform] shows a draw is always found.  Waiting for
    a viewer is given enough fuel by the look that finds the file released.  Hypotheses
    on size are the limits of the format: 2^64 bytes of payload, and 2^37 bytes for what
    the cipher can seal at once.

    ** What is not modelled

    The drawing of the graphical interface ([atom/src/gui]), the channel that carries the
    broker's requests (their writes happen between any two frames), two names of one file
    in the documents of the window (each name is a file of its own there), the parsing of arguments (clap): calls
    into the toolkit and the libraries. [Program] has the handlers as an interface:
    each is modelled on its own state in its file. The kernel, bubblewrap and flatpak
    are what their manuals say. The start of the Tor service in [daemon.rs], the
    handing out of yamux streams in [transport.rs]: drivers of libraries over asynchronous
    streams. Of what is printed,
    fixed footers and the text of sizes. Libraries (the ciphers, hashes, signatures,
    SPAKE2, serde, bincode, FastCDC, QUIC, TLS, the keyring, Noise) are interfaces
    with their documented laws as classes, each with a concrete instance that the
    examples run on. *)

From Stdlib Require Export ZArith Lia.
From Stdlib Require Import Strings.Byte String.
From stdpp Require Export base list numbers option countable.

#[export] Set Default Goal Selector "!".

Declare Scope rust_scope.
Delimit Scope rust_scope with rust.
Open Scope Z_scope.

(** ** Bytes

    [u8] is the Standard Library's [Byte.byte]: a value is in range by
    construction.  [b2z] reads it, [z2b] is the [as u8] truncation. *)

Abbreviation byte := Byte.byte.
Abbreviation bytes := (list byte).

#[export] Instance byte_eq_dec : EqDecision byte.
Proof. intros x y. destruct (Byte.byte_eq_dec x y); [by left | by right]. Defined.

Definition b2z (b : byte) : Z := Z.of_N (Byte.to_N b).

Definition z2b (z : Z) : byte :=
  match Byte.of_N (Z.to_N (z mod 256)) with
  | Some b => b
  | None => Byte.x00
  end.

Lemma b2z_range b : 0 <= b2z b < 256.
Proof. unfold b2z. pose proof (Byte.to_N_bounded b). lia. Qed.

Lemma b2z_z2b z : b2z (z2b z) = z mod 256.
Proof.
  unfold b2z, z2b. pose proof (Z.mod_pos_bound z 256 eq_refl).
  destruct (Byte.of_N (Z.to_N (z mod 256))) as [b|] eqn:E.
  - apply Byte.to_of_N in E. rewrite E. rewrite Z2N.id; lia.
  - apply Byte.of_N_None_iff in E. lia.
Qed.

Lemma b2z_inj b1 b2 : b2z b1 = b2z b2 -> b1 = b2.
Proof.
  unfold b2z. intros H. apply N2Z.inj in H.
  pose proof (Byte.of_to_N b1) as H1. pose proof (Byte.of_to_N b2) as H2.
  rewrite H in H1. congruence.
Qed.

Lemma z2b_b2z b : z2b (b2z b) = b.
Proof. apply b2z_inj. rewrite b2z_z2b. apply Z.mod_small, b2z_range. Qed.

#[export] Instance byte_countable : Countable byte.
Proof.
  refine (inj_countable' (fun b => Byte.to_N b)
            (fun n => default Byte.x00 (Byte.of_N n)) _).
  intros b. by rewrite Byte.of_to_N.
Defined.

(** [b"..."] literals. *)
Abbreviation string := String.string.
Definition lit (s : string) : bytes := String.list_byte_of_string s.
#[global] Arguments lit s%_string_scope.
Export String.StringSyntax.

(** ** Lengths and slices

    Lengths and offsets are [Z], as the [usize]/[u64] values they model; only
    [Z.to_nat] reaches the list functions. *)

Definition zlen {A} (l : list A) : Z := Z.of_nat (length l).
Definition ztake {A} (n : Z) (l : list A) : list A := take (Z.to_nat n) l.
Definition zdrop {A} (n : Z) (l : list A) : list A := drop (Z.to_nat n) l.
Definition zrep {A} (n : Z) (x : A) : list A := replicate (Z.to_nat n) x.

(** [l.get(a..b)]: [None] exactly where the indexing form panics. *)
Definition slice {A} (a b : Z) (l : list A) : option (list A) :=
  if bool_decide (0 <= a <= b /\ b <= zlen l) then Some (ztake (b - a) (zdrop a l))
  else None.

Section lengths.
Context {A : Type}.
Implicit Types l k : list A.

Lemma zlen_nonneg l : 0 <= zlen l.
Proof. unfold zlen. lia. Qed.
Lemma zlen_nil : zlen (@nil A) = 0.
Proof. done. Qed.
Lemma zlen_cons x l : zlen (x :: l) = 1 + zlen l.
Proof. unfold zlen. simpl. lia. Qed.
Lemma zlen_app l k : zlen (l ++ k) = zlen l + zlen k.
Proof. unfold zlen. rewrite length_app. lia. Qed.
Lemma zlen_rep n (x : A) : zlen (zrep n x) = Z.max 0 n.
Proof. unfold zlen, zrep. rewrite length_replicate. lia. Qed.
Lemma zlen_take n l : zlen (ztake n l) = Z.max 0 (Z.min n (zlen l)).
Proof. unfold zlen, ztake. rewrite length_take. lia. Qed.
Lemma zlen_drop n l : zlen (zdrop n l) = Z.max 0 (zlen l - Z.max 0 n).
Proof. unfold zlen, zdrop. rewrite length_drop. lia. Qed.
Lemma zlen_0_nil l : zlen l = 0 -> l = [].
Proof. destruct l; [done|]. rewrite zlen_cons. pose proof (zlen_nonneg l). lia. Qed.

Lemma ztake_app_l n l k : n = zlen l -> ztake n (l ++ k) = l.
Proof. intros ->. unfold ztake, zlen. rewrite Nat2Z.id. apply take_app_length. Qed.
Lemma zdrop_app_l n l k : n = zlen l -> zdrop n (l ++ k) = k.
Proof. intros ->. unfold zdrop, zlen. rewrite Nat2Z.id. apply drop_app_length. Qed.
Lemma ztake_all n l : zlen l <= n -> ztake n l = l.
Proof. intros H. unfold ztake, zlen in *. apply take_ge. lia. Qed.
Lemma zdrop_0 l : zdrop 0 l = l.
Proof. done. Qed.
Lemma zdrop_all n l : zlen l <= n -> zdrop n l = [].
Proof. intros H. unfold zdrop, zlen in *. apply drop_ge. lia. Qed.
Lemma ztake_0 l : ztake 0 l = [].
Proof. done. Qed.
Lemma ztake_zdrop n l : ztake n l ++ zdrop n l = l.
Proof. apply take_drop. Qed.
Lemma zdrop_zdrop a b l : 0 <= a -> 0 <= b -> zdrop a (zdrop b l) = zdrop (b + a) l.
Proof. intros. unfold zdrop. rewrite drop_drop. f_equal. lia. Qed.

Lemma ztake_app_le n l k : n <= zlen l -> ztake n (l ++ k) = ztake n l.
Proof. intros H. unfold ztake, zlen in *. rewrite take_app_le; [done|lia]. Qed.
Lemma zdrop_app_le n l k : n <= zlen l -> zdrop n (l ++ k) = zdrop n l ++ k.
Proof. intros H. unfold zdrop, zlen in *. rewrite drop_app_le; [done|lia]. Qed.
Lemma zdrop_app_ge n l k : zlen l <= n -> zdrop n (l ++ k) = zdrop (n - zlen l) k.
Proof.
  intros H. unfold zdrop, zlen in *. rewrite drop_app_ge; [f_equal; lia|lia].
Qed.

Lemma ztake_app_ge n l k : zlen l <= n -> ztake n (l ++ k) = l ++ ztake (n - zlen l) k.
Proof.
  intros H. unfold ztake, zlen in *. rewrite take_app_ge; [do 2 f_equal; lia|lia].
Qed.
Lemma ztake_ztake a b l : a <= b -> ztake a (ztake b l) = ztake a l.
Proof. intros. unfold ztake. rewrite take_take. f_equal. lia. Qed.

Lemma slice_Some a b l r :
  slice a b l = Some r <-> 0 <= a <= b /\ b <= zlen l /\ r = ztake (b - a) (zdrop a l).
Proof.
  unfold slice. case_bool_decide as Hc; split.
  - intros [= <-]. tauto.
  - by intros (? & ? & ->).
  - done.
  - tauto.
Qed.

Lemma slice_None a b l : slice a b l = None <-> ~ (0 <= a <= b /\ b <= zlen l).
Proof. unfold slice. by case_bool_decide. Qed.

Lemma slice_length a b l r : slice a b l = Some r -> zlen r = b - a.
Proof.
  rewrite slice_Some. intros (? & ? & ->). rewrite zlen_take, zlen_drop. lia.
Qed.

Lemma slice_app_mid a b (l1 l2 l3 : list A) :
  a = zlen l1 -> b = zlen l1 + zlen l2 -> slice a b (l1 ++ l2 ++ l3) = Some l2.
Proof.
  intros -> ->. apply slice_Some. rewrite !zlen_app.
  pose proof (zlen_nonneg l1). pose proof (zlen_nonneg l2). pose proof (zlen_nonneg l3).
  repeat split; [lia..|]. rewrite zdrop_app_l by done. rewrite ztake_app_l; [done|lia].
Qed.

Lemma slice_prefix b l k : b = zlen l -> slice 0 b (l ++ k) = Some l.
Proof. intros ->. by apply (slice_app_mid 0 (zlen l) [] l k). Qed.

Lemma slice_all l : slice 0 (zlen l) l = Some l.
Proof. rewrite <- (app_nil_r l) at 2. by apply slice_prefix. Qed.

(** A slice only depends on the bytes below its end. *)
Lemma slice_app_le a b l k : b <= zlen l -> slice a b (l ++ k) = slice a b l.
Proof.
  intros Hb. unfold slice. rewrite zlen_app. pose proof (zlen_nonneg k).
  repeat case_bool_decide; try lia; [|done]. f_equal.
  rewrite zdrop_app_le by lia. rewrite ztake_app_le; [done|]. rewrite zlen_drop. lia.
Qed.

(** A slice past a prefix is the slice of the rest. *)
Lemma slice_app_ge a b l k :
  zlen l <= a -> slice a b (l ++ k) = slice (a - zlen l) (b - zlen l) k.
Proof.
  intros Ha. unfold slice. rewrite zlen_app. pose proof (zlen_nonneg l).
  repeat case_bool_decide; try lia; [|done]. f_equal.
  rewrite zdrop_app_ge by lia. f_equal; lia.
Qed.

(** Reading on from a prefix: the slice extends it. *)
Lemma slice_step a b l r :
  slice a b l = Some r -> ztake b l = ztake a l ++ r.
Proof.
  rewrite slice_Some. intros (Ha & Hb & ->).
  rewrite <- (take_drop (Z.to_nat a) (ztake b l)). f_equal.
  - unfold ztake. rewrite take_take. f_equal. lia.
  - unfold ztake, zdrop. rewrite take_drop_commute. do 2 f_equal. lia.
Qed.
End lengths.

Lemma forallb_Forall {A} (f : A -> bool) (l : list A) :
  forallb f l = true <-> Forall (fun x => f x = true) l.
Proof.
  induction l as [|x l IH]; simpl; [by split|].
  rewrite andb_true_iff, IH. split; [by intros []; constructor|by inversion 1].
Qed.

Lemma zlen_map {A B} (f : A -> B) (l : list A) : zlen (map f l) = zlen l.
Proof. unfold zlen. by rewrite length_map. Qed.

#[global] Arguments zlen : simpl never.
#[global] Arguments ztake : simpl never.
#[global] Arguments zdrop : simpl never.
#[global] Arguments zrep : simpl never.
#[global] Arguments slice : simpl never.

Create Rewrite HintDb zlen.
#[export] Hint Rewrite @zlen_nil @zlen_cons @zlen_app @zlen_rep @zlen_take @zlen_drop
  @zlen_map : zlen.

(** Length arithmetic: normalise the lengths of a goal and its hypotheses,
    record that lengths are non-negative, and finish with [lia]. *)
Ltac pose_zlens :=
  repeat match goal with
  | |- context [zlen ?l] =>
      lazymatch goal with
      | H : 0 <= zlen l |- _ => fail
      | _ => pose proof (zlen_nonneg l)
      end
  | _ : context [zlen ?l] |- _ =>
      lazymatch goal with
      | H : 0 <= zlen l |- _ => fail
      | _ => pose proof (zlen_nonneg l)
      end
  end.
Ltac zl := autorewrite with zlen in *; pose_zlens; try lia.

(** ** Fixed-width integers

    [to_be_bytes]/[from_be_bytes] and the little-endian forms, for any width
    in bytes; a value wider than the field is truncated, as [as u16] does. *)

Fixpoint le_bytes (n : nat) (z : Z) : bytes :=
  match n with
  | O => []
  | S n => z2b z :: le_bytes n (z / 256)
  end.

Fixpoint le_val (l : bytes) : Z :=
  match l with
  | [] => 0
  | b :: l => b2z b + 256 * le_val l
  end.

Definition be_bytes (n : nat) (z : Z) : bytes := reverse (le_bytes n z).
Definition be_val (l : bytes) : Z := le_val (reverse l).

Section endian.
Lemma le_bytes_length n z : length (le_bytes n z) = n.
Proof. revert z; induction n; intros; simpl; by rewrite ?IHn. Qed.

Lemma le_val_bytes n z : le_val (le_bytes n z) = z mod 256 ^ Z.of_nat n.
Proof.
  revert z. induction n as [|n IH]; intros z; [by rewrite Z.mod_1_r|].
  simpl le_bytes. simpl le_val. rewrite IH, b2z_z2b.
  rewrite Nat2Z.inj_succ, Z.pow_succ_r by lia.
  rewrite Z.rem_mul_r by lia. done.
Qed.

Lemma le_bytes_val l : le_bytes (length l) (le_val l) = l.
Proof.
  induction l as [|b l IH]; [done|]. simpl. pose proof (b2z_range b).
  f_equal.
  - apply b2z_inj. rewrite b2z_z2b, Z.mul_comm, Z.mod_add by lia.
    apply Z.mod_small. lia.
  - replace ((b2z b + 256 * le_val l) / 256) with (le_val l); [done|].
    rewrite Z.mul_comm, Z.div_add by lia. rewrite Z.div_small; lia.
Qed.

Lemma le_val_range l : 0 <= le_val l < 256 ^ zlen l.
Proof.
  induction l as [|b l IH]; [done|]. rewrite zlen_cons. simpl.
  pose proof (b2z_range b). pose proof (zlen_nonneg l).
  rewrite Z.pow_add_r by lia. lia.
Qed.

Lemma be_bytes_length n z : length (be_bytes n z) = n.
Proof. unfold be_bytes. by rewrite length_reverse, le_bytes_length. Qed.

Lemma zlen_be_bytes n z : zlen (be_bytes n z) = Z.of_nat n.
Proof. unfold zlen. by rewrite be_bytes_length. Qed.

Lemma zlen_le_bytes n z : zlen (le_bytes n z) = Z.of_nat n.
Proof. unfold zlen. by rewrite le_bytes_length. Qed.

Lemma be_val_bytes n z : be_val (be_bytes n z) = z mod 256 ^ Z.of_nat n.
Proof. unfold be_val, be_bytes. by rewrite reverse_involutive, le_val_bytes. Qed.

Lemma be_bytes_val l : be_bytes (length l) (be_val l) = l.
Proof.
  unfold be_val, be_bytes. rewrite <- (length_reverse l), le_bytes_val.
  apply reverse_involutive.
Qed.

Lemma be_bytes_val' n l : zlen l = Z.of_nat n -> be_bytes n (be_val l) = l.
Proof.
  unfold zlen. intros H. apply Nat2Z.inj in H. subst. apply be_bytes_val.
Qed.

Lemma be_val_range l : 0 <= be_val l < 256 ^ zlen l.
Proof.
  unfold be_val. replace (zlen l) with (zlen (reverse l)) by
    (unfold zlen; by rewrite length_reverse). apply le_val_range.
Qed.

Lemma le_bytes_val' n l : zlen l = Z.of_nat n -> le_bytes n (le_val l) = l.
Proof.
  unfold zlen. intros H. apply Nat2Z.inj in H. subst. apply le_bytes_val.
Qed.

Lemma be_val_small n z : 0 <= z < 256 ^ Z.of_nat n -> be_val (be_bytes n z) = z.
Proof. intros. rewrite be_val_bytes. by apply Z.mod_small. Qed.

Lemma le_val_small n z : 0 <= z < 256 ^ Z.of_nat n -> le_val (le_bytes n z) = z.
Proof. intros. rewrite le_val_bytes. by apply Z.mod_small. Qed.
End endian.

#[export] Hint Rewrite zlen_be_bytes zlen_le_bytes : zlen.
#[global] Arguments be_bytes : simpl never.
#[global] Arguments be_val : simpl never.

Definition u8_max : Z := 2 ^ 8 - 1.
Definition u16_max : Z := 2 ^ 16 - 1.
Definition u32_max : Z := 2 ^ 32 - 1.
Definition u64_max : Z := 2 ^ 64 - 1.

Definition is_u16 (z : Z) : Prop := 0 <= z < 2 ^ 16.
Definition is_u32 (z : Z) : Prop := 0 <= z < 2 ^ 32.
Definition is_u64 (z : Z) : Prop := 0 <= z < 2 ^ 64.

(** [u64] addition: [saturating_add], and the wrapping [+] of a release build. *)
Definition sat_add64 (a b : Z) : Z := Z.min u64_max (a + b).
Definition wadd64 (a b : Z) : Z := (a + b) mod 2 ^ 64.

(** The order of byte arrays and slices: lexicographic, unsigned. *)
Fixpoint bytes_lt (a b : bytes) : bool :=
  match a, b with
  | [], [] => false
  | [], _ :: _ => true
  | _ :: _, [] => false
  | x :: a, y :: b =>
      if b2z x <? b2z y then true else if b2z y <? b2z x then false else bytes_lt a b
  end.

Lemma bytes_lt_total a b : a <> b -> bytes_lt a b = negb (bytes_lt b a).
Proof.
  revert b. induction a as [|x a IH]; intros [|y b] Hab; try done. simpl.
  destruct (b2z x <? b2z y) eqn:H1, (b2z y <? b2z x) eqn:H2; try done.
  - apply Z.ltb_lt in H1, H2. lia.
  - apply Z.ltb_ge in H1, H2. apply IH. intros ->. apply Hab. f_equal. apply b2z_inj. lia.
Qed.

Lemma bytes_lt_irrefl a : bytes_lt a a = false.
Proof. induction a as [|x a IH]; [done|]. simpl. by rewrite Z.ltb_irrefl. Qed.

(** ** Outcomes

    [Result<A, E>], with a third case for the code's panics (an out-of-range
    index, a failed [expect]): "never panics" is then a theorem. *)

Inductive outcome (E A : Type) : Type :=
| Ok (a : A)
| Err (e : E)
| Panic.
Arguments Ok {E A} a.
Arguments Err {E A} e.
Arguments Panic {E A}.

Definition obind {E A B} (m : outcome E A) (f : A -> outcome E B) : outcome E B :=
  match m with
  | Ok a => f a
  | Err e => Err e
  | Panic => Panic
  end.

Definition map_err {E F A} (f : E -> F) (m : outcome E A) : outcome F A :=
  match m with
  | Ok a => Ok a
  | Err e => Err (f e)
  | Panic => Panic
  end.

Definition ok_or {E A} (o : option A) (e : E) : outcome E A :=
  match o with Some a => Ok a | None => Err e end.

(** [expect]/[unwrap]/indexing. *)
Definition or_panic {E A} (o : option A) : outcome E A :=
  match o with Some a => Ok a | None => Panic end.

Notation "'let?' x := m 'in' k" := (obind m (fun x => k))
  (at level 10, x pattern, m at level 100, k at level 200,
   format "'[v' 'let?'  x  :=  m  'in' '/' k ']'") : rust_scope.
Open Scope rust_scope.

Definition is_ok {E A} (m : outcome E A) : bool :=
  match m with Ok _ => true | _ => false end.

Section outcome.
Context {E A B : Type}.

Lemma obind_Ok (m : outcome E A) (f : A -> outcome E B) b :
  obind m f = Ok b <-> exists a, m = Ok a /\ f a = Ok b.
Proof.
  destruct m; simpl; [|by split; [done|intros (? & [=] & _)]..].
  split; [by eexists|]. by intros (? & [= <-] & ?).
Qed.

Lemma obind_no_panic (m : outcome E A) (f : A -> outcome E B) :
  m <> Panic -> (forall a, m = Ok a -> f a <> Panic) -> obind m f <> Panic.
Proof. destruct m; simpl; naive_solver. Qed.

Lemma map_err_Ok {F} (f : E -> F) (m : outcome E A) a : map_err f m = Ok a <-> m = Ok a.
Proof. destruct m; simpl; naive_solver. Qed.

Lemma map_err_no_panic {F} (f : E -> F) (m : outcome E A) :
  m <> Panic -> map_err f m <> Panic.
Proof. destruct m; simpl; naive_solver. Qed.

Lemma ok_or_Ok (o : option A) (e : E) a : ok_or o e = Ok a <-> o = Some a.
Proof. destruct o; simpl; naive_solver. Qed.

Lemma ok_or_no_panic (o : option A) (e : E) : ok_or o e <> Panic.
Proof. by destruct o. Qed.

Lemma or_panic_Ok (o : option A) a : or_panic (E := E) o = Ok a <-> o = Some a.
Proof. destruct o; simpl; naive_solver. Qed.
End outcome.

Create HintDb nopanic discriminated.
#[export] Hint Resolve map_err_no_panic ok_or_no_panic : nopanic.
#[export] Hint Extern 1 (Ok _ <> Panic) => discriminate : nopanic.
#[export] Hint Extern 1 (Err _ <> Panic) => discriminate : nopanic.

(** Take an [Ok] hypothesis apart, one [let?] at a time. *)
Ltac ok_inv H :=
  repeat match type of H with
  | obind _ _ = Ok _ =>
      let x := fresh "x" in let Hx := fresh "Hx" in
      apply obind_Ok in H; destruct H as (x & Hx & H); cbv beta in H; ok_inv Hx
  | map_err _ _ = Ok _ => apply map_err_Ok in H
  | ok_or _ _ = Ok _ => apply ok_or_Ok in H
  | or_panic _ = Ok _ => apply or_panic_Ok in H
  | Err _ = Ok _ => discriminate H
  | Panic = Ok _ => discriminate H
  | (let (_, _) := ?x in _) = Ok _ =>
      let a := fresh "a" in let b := fresh "b" in destruct x as [a b]
  | (if decide ?P then _ else _) = Ok _ => destruct (decide P); try discriminate H
  | (if ?c then _ else _) = Ok _ =>
      let Hc := fresh "Hc" in destruct c eqn:Hc; try discriminate H
  end.

(** Close a no-panic goal by following the [let?]s and the branches. *)
Ltac no_panic :=
  repeat match goal with
  | |- obind _ _ <> Panic => apply obind_no_panic; [|intros ? ?]
  | |- (if ?c then _ else _) <> Panic => destruct c eqn:?
  | |- match ?x with _ => _ end <> Panic => destruct x eqn:?
  end; simplify_eq/=; auto with nopanic.

(** Turn the boolean comparisons of guards into propositions. *)
Ltac bools :=
  repeat match goal with
  | H : (_ <? _) = true |- _ => apply Z.ltb_lt in H
  | H : (_ <? _) = false |- _ => apply Z.ltb_ge in H
  | H : (_ <=? _) = true |- _ => apply Z.leb_le in H
  | H : (_ <=? _) = false |- _ => apply Z.leb_gt in H
  | H : (_ =? _) = true |- _ => apply Z.eqb_eq in H
  | H : (_ =? _) = false |- _ => apply Z.eqb_neq in H
  | H : negb _ = true |- _ => apply negb_true_iff in H
  | H : negb _ = false |- _ => apply negb_false_iff in H
  | H : (_ && _) = true |- _ => apply andb_true_iff in H as [? ?]
  | H : (_ || _) = false |- _ => apply orb_false_iff in H as [? ?]
  | H : ~ (_ <> _) |- _ => apply dec_stable in H
  | H : bool_decide _ = true |- _ => apply bool_decide_eq_true in H
  | H : bool_decide _ = false |- _ => apply bool_decide_eq_false in H
  end.

(** Decide the comparisons of the goal that the context settles. *)
Ltac zdec_with tac :=
  repeat match goal with
  | |- context [?a =? ?b] =>
      first [ replace (a =? b) with true by (symmetry; apply Z.eqb_eq; tac)
            | replace (a =? b) with false by (symmetry; apply Z.eqb_neq; tac) ]
  | |- context [?a <? ?b] =>
      first [ replace (a <? b) with true by (symmetry; apply Z.ltb_lt; tac)
            | replace (a <? b) with false by (symmetry; apply Z.ltb_ge; tac) ]
  | |- context [?a <=? ?b] =>
      first [ replace (a <=? b) with true by (symmetry; apply Z.leb_le; tac)
            | replace (a <=? b) with false by (symmetry; apply Z.leb_gt; tac) ]
  end.
Ltac zdec := zdec_with lia.

(** ** The operating system's random generator

    A tape of bytes read front to back.  [None] at a position is a failed draw:
    [getrandom::fill] reports it, [OsRng.fill_bytes] panics. *)

Record rng := Rng { rng_tape : nat -> option byte; rng_pos : nat }.

Definition rng_draw (n : nat) (r : rng) : option bytes :=
  mapM (fun i => rng_tape r (rng_pos r + i)%nat) (seq 0 n).

Definition rng_skip (n : nat) (r : rng) : rng := Rng (rng_tape r) (rng_pos r + n)%nat.

Definition rng_total (r : rng) : Prop := forall i, is_Some (rng_tape r i).

(** [getrandom::fill(&mut buf)], with the caller's error. *)
Definition getrandom_fill {E} (n : Z) (e : E) (r : rng) : outcome E (bytes * rng) :=
  match rng_draw (Z.to_nat n) r with
  | Some b => Ok (b, rng_skip (Z.to_nat n) r)
  | None => Err e
  end.

(** [OsRng.fill_bytes(&mut buf)]. *)
Definition os_fill {E} (n : Z) (r : rng) : outcome E (bytes * rng) :=
  match rng_draw (Z.to_nat n) r with
  | Some b => Ok (b, rng_skip (Z.to_nat n) r)
  | None => Panic
  end.

Section rng.
Lemma rng_draw_length n r b : rng_draw n r = Some b -> length b = n.
Proof.
  unfold rng_draw. intros H. apply length_mapM in H. by rewrite length_seq in H.
Qed.

Lemma rng_draw_total n r : rng_total r -> is_Some (rng_draw n r).
Proof. intros H. apply mapM_is_Some, Forall_forall. intros. apply H. Qed.

Lemma rng_total_skip n r : rng_total r -> rng_total (rng_skip n r).
Proof. done. Qed.

Lemma os_fill_total {E} n r :
  rng_total r -> 0 <= n ->
  exists b, os_fill (E := E) n r = Ok (b, rng_skip (Z.to_nat n) r) /\ zlen b = n.
Proof.
  intros Hr Hn. unfold os_fill. destruct (rng_draw_total (Z.to_nat n) r Hr) as [b Hb].
  rewrite Hb. exists b. split; [done|]. apply rng_draw_length in Hb.
  unfold zlen. lia.
Qed.

Lemma getrandom_fill_total {E} n (e : E) r :
  rng_total r -> 0 <= n ->
  exists b, getrandom_fill n e r = Ok (b, rng_skip (Z.to_nat n) r) /\ zlen b = n.
Proof.
  intros Hr Hn. unfold getrandom_fill.
  destruct (rng_draw_total (Z.to_nat n) r Hr) as [b Hb].
  rewrite Hb. exists b. split; [done|]. apply rng_draw_length in Hb.
  unfold zlen. lia.
Qed.

Lemma getrandom_fill_Ok {E} n (e : E) r b r' :
  0 <= n -> getrandom_fill n e r = Ok (b, r') -> zlen b = n /\ r' = rng_skip (Z.to_nat n) r.
Proof.
  intros Hn. unfold getrandom_fill. destruct (rng_draw _ _) eqn:Hb; [|done].
  intros [= <- <-]. apply rng_draw_length in Hb. unfold zlen. split; [lia|done].
Qed.

Lemma os_fill_Ok {E} n r b r' :
  0 <= n -> os_fill (E := E) n r = Ok (b, r') -> zlen b = n /\ r' = rng_skip (Z.to_nat n) r.
Proof.
  intros Hn. unfold os_fill. destruct (rng_draw _ _) eqn:Hb; [|done].
  intros [= <- <-]. apply rng_draw_length in Hb. unfold zlen. split; [lia|done].
Qed.
End rng.

#[export] Hint Resolve rng_total_skip : core.

(** A tape that repeats one byte: the generator the concrete examples run on. *)
Definition rng_const (b : byte) : rng := Rng (fun _ => Some b) 0.

Lemma rng_const_total b : rng_total (rng_const b).
Proof. intros i. by eexists. Qed.
