(* ===== verification/Keyed.v ===== *)
(** * Lists searched by a key

    The code keeps its peers, friends, vaults and file tables as vectors and looks
    an entry up with [iter().find] or updates it with [iter_mut().find]: the first
    entry with the key is the one that counts. *)

From S2P Require Import Prelude.

(** [if let Some(x) = l.iter_mut().find(p) { f(x) }] *)
Fixpoint update_first {A} (p : A -> bool) (f : A -> A) (l : list A) : list A :=
  match l with
  | [] => []
  | x :: l => if p x then f x :: l else x :: update_first p f l
  end.

Lemma update_first_Forall {A} (P : A -> Prop) p f l :
  Forall P l -> (forall x, P x -> p x = true -> P (f x)) -> Forall P (update_first p f l).
Proof.
  intros Hl Hf. induction Hl as [|x l Hx Hl IH]; cbn; [constructor|].
  destruct (p x) eqn:Hp; constructor; auto.
Qed.

Lemma map_update_first {A B} (g : A -> B) p f p' f' l :
  (forall x, p' (g x) = p x) -> (forall x, p x = true -> g (f x) = f' (g x)) ->
  map g (update_first p f l) = update_first p' f' (map g l).
Proof.
  intros Hp Hf. induction l as [|x l IH]; [done|]. cbn. rewrite Hp.
  destruct (p x) eqn:Hx; cbn; [by rewrite Hf|by rewrite IH].
Qed.

Section keyed.
Context {K A : Type} `{EqDecision K} (key : A -> K).
Implicit Types (k : K) (f : A -> A) (l : list A).

Definition is_key k (x : A) : bool := bool_decide (key x = k).
Definition find_key k l : option A := List.find (is_key k) l.

Lemma find_key_Some k l x : find_key k l = Some x -> key x = k /\ x ∈ l.
Proof.
  intros Hf. apply List.find_some in Hf as [Hin Hk]. split; [by apply bool_decide_eq_true in Hk|].
  by apply list_elem_of_In.
Qed.

Lemma find_key_None k l : find_key k l = None <-> k ∉ map key l.
Proof.
  split.
  - intros Hf (x & Hx & Hin)%list_elem_of_fmap. apply list_elem_of_In in Hin.
    eapply List.find_none in Hf; [|exact Hin]. apply bool_decide_eq_false in Hf. by apply Hf.
  - intros Hn. destruct (find_key k l) as [x|] eqn:Hf; [|done]. destruct (find_key_Some _ _ _ Hf) as [<- Hin].
    contradict Hn. by apply list_elem_of_fmap_2.
Qed.

Lemma find_key_elem l x : NoDup (map key l) -> x ∈ l -> find_key (key x) l = Some x.
Proof.
  induction l as [|y l IH]; [by intros _ ?%elem_of_nil|]. cbn [map]. intros [Hy Hl]%list.NoDup_cons.
  rewrite elem_of_cons. unfold find_key, is_key. cbn [List.find]. intros [->|Hin].
  - by rewrite bool_decide_eq_true_2.
  - rewrite bool_decide_eq_false_2; [by apply IH|]. intros Heq. apply Hy. rewrite Heq. by apply list_elem_of_fmap_2.
Qed.

Lemma update_keys k f l :
  (forall x, key x = k -> key (f x) = k) -> map key (update_first (is_key k) f l) = map key l.
Proof.
  intros Hf. induction l as [|x l IH]; [done|]. cbn. unfold is_key at 1. case_bool_decide as Hx; cbn.
  - by rewrite Hf, Hx.
  - by rewrite IH.
Qed.

Lemma update_absent k f l : k ∉ map key l -> update_first (is_key k) f l = l.
Proof.
  induction l as [|x l IH]; [done|]. cbn [map update_first]. rewrite elem_of_cons. intros Hn.
  unfold is_key at 1. rewrite bool_decide_eq_false_2 by (intros Heq; apply Hn; by left).
  f_equal. apply IH. intros Hin. apply Hn. by right.
Qed.

Lemma find_update k f l x :
  (forall y, key y = k -> key (f y) = k) -> find_key k l = Some x ->
  find_key k (update_first (is_key k) f l) = Some (f x).
Proof.
  intros Hf. unfold find_key. induction l as [|y l IH]; [done|]. cbn. destruct (is_key k y) eqn:Hy; cbn [List.find].
  - intros [= ->]. unfold is_key in *. apply bool_decide_eq_true in Hy. by rewrite bool_decide_eq_true_2 by auto.
  - rewrite Hy. apply IH.
Qed.

Lemma find_update_other k k' f l :
  k' <> k -> (forall y, key y = k -> key (f y) = k) ->
  find_key k' (update_first (is_key k) f l) = find_key k' l.
Proof.
  intros Hne Hf. unfold find_key. induction l as [|y l IH]; [done|]. cbn. destruct (is_key k y) eqn:Hy; cbn [List.find].
  - apply bool_decide_eq_true in Hy. unfold is_key. rewrite !bool_decide_eq_false_2; rewrite ?Hf by done; congruence.
  - by rewrite IH.
Qed.

Lemma find_append k l x : find_key k l = None -> key x = k -> find_key k (l ++ [x]) = Some x.
Proof.
  unfold find_key. intros Hl Hx. induction l as [|y l IH]; cbn in *.
  - unfold is_key. by rewrite bool_decide_eq_true_2.
  - destruct (is_key k y); [done|by apply IH].
Qed.

Lemma find_append_other k l x : key x <> k -> find_key k (l ++ [x]) = find_key k l.
Proof.
  unfold find_key. intros Hx. induction l as [|y l IH]; cbn.
  - unfold is_key. by rewrite bool_decide_eq_false_2.
  - by rewrite IH.
Qed.

Lemma append_keys l x : NoDup (map key l) -> find_key (key x) l = None -> NoDup (map key (l ++ [x])).
Proof.
  intros Hl Hx%find_key_None. rewrite map_app. apply list.NoDup_app. split_and!; [done| |apply list.NoDup_singleton].
  intros k Hk Hk'. cbn [map] in Hk'. apply list_elem_of_singleton in Hk' as ->. by apply Hx.
Qed.
End keyed.

Lemma find_key_map {K A B} `{EqDecision K} (key : A -> K) (key' : B -> K) (g : A -> B) k l :
  (forall x, key' (g x) = key x) -> find_key key' k (map g l) = g <$> find_key key k l.
Proof.
  intros Hg. unfold find_key. induction l as [|x l IH]; [done|]. cbn. unfold is_key at 1 3. rewrite Hg.
  case_bool_decide; [done|exact IH].
Qed.

Lemma find_key_app {K A} `{EqDecision K} (key : A -> K) k l l' :
  find_key key k (l ++ l') = match find_key key k l with Some x => Some x | None => find_key key k l' end.
Proof. unfold find_key. induction l as [|x l IH]; [done|]. cbn. destruct (is_key key k x); [done|exact IH]. Qed.
