(* ===== verification/Text.v ===== *)
(** * Rust strings

    [String]/[&str] as the bytes of their UTF-8 encoding, with the standard
    library operations the parsers use: validation, iteration over [char]s,
    [trim], prefixes and suffixes, byte-indexed slicing and hexadecimal.  A
    [char] is the list of its UTF-8 bytes.  Unicode case mapping is a class
    with its documented behaviour on ASCII text. *)

From Stdlib Require Import Strings.Byte.
From S2P Require Import Prelude.

Abbreviation str := bytes (only parsing).

(** ** UTF-8 *)

Definition in_range (lo hi : Z) (b : byte) : bool := (lo <=? b2z b) && (b2z b <=? hi).
Definition is_cont (b : byte) : bool := in_range 0x80 0xBF b.

(** The well-formed sequences of the Unicode standard, table 3-7: overlong
    forms, surrogates and code points past U+10FFFF are refused. *)
Fixpoint utf8_valid (l : bytes) : bool :=
  match l with
  | [] => true
  | b0 :: l1 =>
      if in_range 0 0x7F b0 then utf8_valid l1
      else match l1 with
      | [] => false
      | b1 :: l2 =>
          if in_range 0xC2 0xDF b0 then is_cont b1 && utf8_valid l2
          else match l2 with
          | [] => false
          | b2 :: l3 =>
              if (in_range 0xE0 0xE0 b0 && in_range 0xA0 0xBF b1)
                 || (in_range 0xE1 0xEC b0 && is_cont b1)
                 || (in_range 0xED 0xED b0 && in_range 0x80 0x9F b1)
                 || (in_range 0xEE 0xEF b0 && is_cont b1)
              then is_cont b2 && utf8_valid l3
              else match l3 with
              | [] => false
              | b3 :: l4 =>
                  if (in_range 0xF0 0xF0 b0 && in_range 0x90 0xBF b1)
                     || (in_range 0xF1 0xF3 b0 && is_cont b1)
                     || (in_range 0xF4 0xF4 b0 && in_range 0x80 0x8F b1)
                  then is_cont b2 && is_cont b3 && utf8_valid l4
                  else false
              end
          end
      end
  end.

(** [std::str::from_utf8]. *)
Definition from_utf8 (b : bytes) : option str := if utf8_valid b then Some b else None.

(** [str::chars], each [char] as its encoding. *)
Fixpoint chars (l : str) : list str :=
  match l with
  | [] => []
  | b0 :: l1 =>
      if b2z b0 <? 0x80 then [b0] :: chars l1
      else match l1 with
      | [] => [[b0]]
      | b1 :: l2 =>
          if b2z b0 <? 0xE0 then [b0; b1] :: chars l2
          else match l2 with
          | [] => [[b0; b1]]
          | b2 :: l3 =>
              if b2z b0 <? 0xF0 then [b0; b1; b2] :: chars l3
              else match l3 with
              | [] => [[b0; b1; b2]]
              | b3 :: l4 => [b0; b1; b2; b3] :: chars l4
              end
          end
      end
  end.

(** [char::is_whitespace]: the White_Space property (25 code points). *)
Definition ascii_whitespace : list byte :=
  [Byte.x09; Byte.x0a; Byte.x0b; Byte.x0c; Byte.x0d; Byte.x20].

Definition wide_whitespace : list str :=
  [ [Byte.xc2; Byte.x85]; [Byte.xc2; Byte.xa0]; [Byte.xe1; Byte.x9a; Byte.x80];
    [Byte.xe2; Byte.x80; Byte.x80]; [Byte.xe2; Byte.x80; Byte.x81];
    [Byte.xe2; Byte.x80; Byte.x82]; [Byte.xe2; Byte.x80; Byte.x83];
    [Byte.xe2; Byte.x80; Byte.x84]; [Byte.xe2; Byte.x80; Byte.x85];
    [Byte.xe2; Byte.x80; Byte.x86]; [Byte.xe2; Byte.x80; Byte.x87];
    [Byte.xe2; Byte.x80; Byte.x88]; [Byte.xe2; Byte.x80; Byte.x89];
    [Byte.xe2; Byte.x80; Byte.x8a]; [Byte.xe2; Byte.x80; Byte.xa8];
    [Byte.xe2; Byte.x80; Byte.xa9]; [Byte.xe2; Byte.x80; Byte.xaf];
    [Byte.xe2; Byte.x81; Byte.x9f]; [Byte.xe3; Byte.x80; Byte.x80] ].

Definition is_whitespace (c : str) : bool :=
  match c with
  | [b] => bool_decide (b ∈ ascii_whitespace)
  | _ => bool_decide (c ∈ wide_whitespace)
  end.

Fixpoint drop_while {A} (p : A -> bool) (l : list A) : list A :=
  match l with
  | [] => []
  | x :: l' => if p x then drop_while p l' else l
  end.

(** [str::trim]. *)
Definition trim (s : str) : str :=
  concat (reverse (drop_while is_whitespace (reverse (drop_while is_whitespace (chars s))))).

(** [str::strip_prefix], [str::strip_suffix]. *)
Fixpoint strip_prefix (p s : bytes) : option bytes :=
  match p, s with
  | [], _ => Some s
  | x :: p', y :: s' => if decide (x = y) then strip_prefix p' s' else None
  | _, [] => None
  end.

Definition strip_suffix (p s : bytes) : option bytes :=
  reverse <$> strip_prefix (reverse p) (reverse s).

Definition starts_with (p s : bytes) : bool := bool_decide (is_Some (strip_prefix p s)).

(** [s.is_char_boundary(i)], and [&s[a..b]], which panics off a boundary. *)
Definition is_char_boundary (s : str) (i : Z) : bool :=
  (i =? 0) || (i =? zlen s)
  || match s !! Z.to_nat i with
     | Some b => (0 <=? i) && negb (is_cont b)
     | None => false
     end.

Definition str_slice {E} (a b : Z) (s : str) : outcome E str :=
  if is_char_boundary s a && is_char_boundary s b then or_panic (slice a b s) else Panic.

(** ** ASCII *)

Definition is_ascii (b : byte) : bool := b2z b <? 128.
Definition ascii (s : bytes) : Prop := Forall (fun b => is_ascii b = true) s.

Definition ascii_lower (b : byte) : byte :=
  if in_range 65 90 b then z2b (b2z b + 32) else b.
Definition ascii_upper (b : byte) : byte :=
  if in_range 97 122 b then z2b (b2z b - 32) else b.

(** Text with no whitespace, in ASCII: what every encoder here emits. *)
Definition plain_byte (b : byte) : bool :=
  is_ascii b && negb (bool_decide (b ∈ ascii_whitespace)).
Definition plain (s : bytes) : Prop := Forall (fun b => plain_byte b = true) s.

(** [str::to_lowercase]/[to_uppercase]: the Unicode mappings, of which the code
    relies on the ASCII part (the standard library documents that ASCII letters
    map to their ASCII counterparts and other ASCII characters to themselves). *)
Class UnicodeCase := {
  to_lowercase : str -> str;
  to_uppercase : str -> str;
}.
Class UnicodeCaseLaws (U : UnicodeCase) := {
  to_lowercase_ascii : forall s, ascii s -> to_lowercase s = map ascii_lower s;
  to_uppercase_ascii : forall s, ascii s -> to_uppercase s = map ascii_upper s;
}.

(** ** Hexadecimal *)

Definition hex_digit (n : Z) : byte := if n <? 10 then z2b (48 + n) else z2b (87 + n).

(** [format!("{b:02x}")]. *)
Definition hex_byte (b : byte) : str := [hex_digit (b2z b / 16); hex_digit (b2z b mod 16)].
Definition hex (l : bytes) : str := concat (map hex_byte l).

(** [char::to_digit(16)]. *)
Definition hex_val (b : byte) : option Z :=
  if in_range 48 57 b then Some (b2z b - 48)
  else if in_range 97 102 b then Some (b2z b - 87)
  else if in_range 65 70 b then Some (b2z b - 55)
  else None.

Fixpoint hex_digits (acc : Z) (l : str) : option Z :=
  match l with
  | [] => Some acc
  | c :: l' =>
      d ← hex_val c;
      if acc * 16 + d <=? u8_max then hex_digits (acc * 16 + d) l' else None
  end.

(** [u8::from_str_radix(s, 16)]: a leading ['+'] is accepted, an empty number
    and a lone sign are not. *)
Definition u8_from_hex (s : str) : option Z :=
  match s with
  | [] => None
  | [b] => if bool_decide (b = Byte.x2b \/ b = Byte.x2d) then None else hex_digits 0 s
  | b :: s' => if decide (b = Byte.x2b) then hex_digits 0 s' else hex_digits 0 s
  end.

(** ** Splitting and numbers *)

(** [haystack.windows(needle.len()).position(..)], from index [i]. *)
Fixpoint find_from (needle h : bytes) (i : Z) : option Z :=
  match h with
  | [] => None
  | _ :: h' => if starts_with needle h then Some i else find_from needle h' (i + 1)
  end.

(** [str::split] at a two-byte separator. *)
Fixpoint split2 (a b : byte) (s : str) : list str :=
  match s with
  | [] => [[]]
  | x :: s1 =>
      match s1 with
      | y :: s2 =>
          if decide (x = a /\ y = b) then [] :: split2 a b s2 else
          match split2 a b s1 with
          | l :: ls => (x :: l) :: ls
          | [] => [[x]]
          end
      | [] => [[x]]
      end
  end.

(** [str::split_once] at one byte. *)
Fixpoint split_once (c : byte) (s : str) : option (str * str) :=
  match s with
  | [] => None
  | x :: s' => if decide (x = c) then Some ([], s') else
      match split_once c s' with
      | Some (l, r) => Some (x :: l, r)
      | None => None
      end
  end.

(** [str::rsplit_once]. *)
Definition rsplit_once (c : byte) (s : str) : option (str * str) :=
  match split_once c (reverse s) with
  | Some (a, b) => Some (reverse b, reverse a)
  | None => None
  end.

(** [str::split_whitespace]: the maximal runs of characters that are not spaces. *)
Fixpoint words (cs : list str) (word : str) : list str :=
  match cs with
  | [] => if bool_decide (word = []) then [] else [word]
  | c :: cs' =>
      if is_whitespace c
      then (if bool_decide (word = []) then [] else [word]) ++ words cs' []
      else words cs' (word ++ c)
  end.
Definition split_whitespace (s : str) : list str := words (chars s) [].

(** [str::parse] to an unsigned integer of at most [max]: as for [from_str_radix]. *)
Fixpoint dec_digits (max acc : Z) (l : str) : option Z :=
  match l with
  | [] => Some acc
  | c :: l' =>
      if in_range 48 57 c then
        if acc * 10 + (b2z c - 48) <=? max then dec_digits max (acc * 10 + (b2z c - 48)) l' else None
      else None
  end.
Definition parse_uint (max : Z) (s : str) : option Z :=
  match s with
  | [] => None
  | [b] => if bool_decide (b = Byte.x2b \/ b = Byte.x2d) then None else dec_digits max 0 s
  | b :: s' => if decide (b = Byte.x2b) then dec_digits max 0 s' else dec_digits max 0 s
  end.

(** [Display] of an unsigned integer: decimal, no leading zeros.  The fuel is the
    number of digits of [u64::MAX]. *)
Definition dec_digit (z : Z) : byte := z2b (48 + z).
Fixpoint decimal_of (fuel : nat) (z : Z) : str :=
  match fuel with
  | O => []
  | S fuel => if z <? 10 then [dec_digit z] else decimal_of fuel (z / 10) ++ [dec_digit (z mod 10)]
  end.
Definition decimal (z : Z) : str := decimal_of 20 z.

(** [String::from_utf8_lossy]: each maximal ill-formed part becomes U+FFFD. *)
Definition replacement : str := [Byte.xef; Byte.xbf; Byte.xbd].

(** The length of the ill-formed part at the head of a string that has no
    well-formed character there: the longest prefix some character starts with. *)
Definition ill_formed_len (s : bytes) : nat :=
  match s with
  | b0 :: b1 :: s2 =>
      let second_ok :=
        if in_range 0xE0 0xE0 b0 then in_range 0xA0 0xBF b1
        else if in_range 0xED 0xED b0 then in_range 0x80 0x9F b1
        else if in_range 0xE1 0xEF b0 then is_cont b1
        else if in_range 0xF0 0xF0 b0 then in_range 0x90 0xBF b1
        else if in_range 0xF4 0xF4 b0 then in_range 0x80 0x8F b1
        else if in_range 0xF1 0xF3 b0 then is_cont b1
        else false in
      if negb second_ok then 1%nat
      else if in_range 0xF0 0xF4 b0
           then match s2 with b2 :: _ => if is_cont b2 then 3%nat else 2%nat | [] => 2%nat end
           else 2%nat
  | _ => 1%nat
  end.

Fixpoint lossy (fuel : nat) (s : bytes) : str :=
  match fuel, s with
  | O, _ | _, [] => []
  | S fuel, b0 :: s1 =>
      match chars s with
      | c :: _ =>
          if utf8_valid c then c ++ lossy fuel (drop (length c) s)
          else replacement ++ lossy fuel (drop (ill_formed_len s) s)
      | [] => []
      end
  end.
Definition from_utf8_lossy (s : bytes) : str := lossy (length s) s.

(** ** Lemmas *)

Lemma byte_forall (P : byte -> bool) :
  forallb (fun n => match Byte.of_N (N.of_nat n) with Some b => P b | None => true end)
    (seq 0 256) = true ->
  forall b, P b = true.
Proof.
  intros H b. rewrite forallb_forall in H. pose proof (Byte.to_N_bounded b).
  specialize (H (N.to_nat (Byte.to_N b))). rewrite N2Nat.id, Byte.of_to_N in H.
  apply H, in_seq. lia.
Qed.

Lemma byte_forall_dec (P : byte -> Prop) `{!forall b, Decision (P b)} :
  forallb (fun n => match Byte.of_N (N.of_nat n) with
                    | Some b => bool_decide (P b) | None => true end) (seq 0 256) = true ->
  forall b, P b.
Proof.
  intros Hall b. pose proof (byte_forall (fun b => bool_decide (P b)) Hall b) as Hb.
  by apply bool_decide_eq_true in Hb.
Qed.

(** A decidable fact about every byte, by running its test on the 256 of them. *)
Ltac all_bytes b :=
  cbv beta; pattern b;
  match goal with |- ?P b => refine (byte_forall_dec P _ b) end; vm_compute; reflexivity.

Lemma plain_ascii s : plain s -> ascii s.
Proof.
  apply Forall_impl. intros b H. unfold plain_byte in H. by apply andb_true_iff in H as [? _].
Qed.

Lemma ascii_app s t : ascii (s ++ t) <-> ascii s /\ ascii t.
Proof. apply Forall_app. Qed.

Lemma utf8_valid_ascii s : ascii s -> utf8_valid s = true.
Proof.
  induction 1 as [|b s Hb _ IH]; [done|]. simpl.
  unfold is_ascii in Hb. pose proof (b2z_range b). unfold in_range. bools.
  replace (0 <=? b2z b) with true by (symmetry; by apply Z.leb_le; lia).
  replace (b2z b <=? 127) with true by (symmetry; apply Z.leb_le; lia). done.
Qed.

Lemma from_utf8_ascii s : ascii s -> from_utf8 s = Some s.
Proof. intros H. unfold from_utf8. by rewrite utf8_valid_ascii. Qed.

Lemma from_utf8_Some b s : from_utf8 b = Some s <-> s = b /\ utf8_valid b = true.
Proof.
  unfold from_utf8. destruct (utf8_valid b); split; [by intros [= <-]|by intros [-> _]|done|].
  by intros [_ [=]].
Qed.

Lemma chars_ascii s t : ascii s -> chars (s ++ t) = map (fun b => [b]) s ++ chars t.
Proof.
  induction 1 as [|b s Hb _ IH]; [done|]. simpl. unfold is_ascii in Hb.
  by rewrite Hb, IH.
Qed.

Lemma chars_ascii' s : ascii s -> chars s = map (fun b => [b]) s.
Proof. intros H. by rewrite <- (app_nil_r s), chars_ascii, !app_nil_r. Qed.

Lemma concat_map_singleton {A} (l : list A) : concat (map (fun b => [b]) l) = l.
Proof. induction l; simpl; congruence. Qed.

(** Iterating over the characters loses no byte. *)
Lemma concat_chars s : concat (chars s) = s.
Proof.
  remember (length s) as n eqn:Hn. assert (Hle : (length s <= n)%nat) by lia. clear Hn.
  revert s Hle. induction n as [|n IH]; intros s Hle.
  { destruct s; [done|simpl in Hle; lia]. }
  destruct s as [|b0 l1]; [done|]. simpl in *.
  destruct (b2z b0 <? 128); [simpl; by rewrite IH by lia|].
  destruct l1 as [|b1 l2]; [done|].
  destruct (b2z b0 <? 224); [simpl in *; by rewrite IH by lia|].
  destruct l2 as [|b2 l3]; [done|].
  destruct (b2z b0 <? 240); [simpl in *; by rewrite IH by lia|].
  destruct l3 as [|b3 l4]; [done|]. simpl in *. by rewrite IH by lia.
Qed.

Lemma drop_while_app {A} p (l k : list A) :
  Forall (fun x => p x = true) l -> drop_while p (l ++ k) = drop_while p k.
Proof. induction 1 as [|x l Hx _ IH]; [done|]. simpl. by rewrite Hx. Qed.

Lemma drop_while_Forall {A} (P : A -> Prop) (p : A -> bool) l : Forall P l -> Forall P (drop_while p l).
Proof. induction 1 as [|x l Hx Hl IH]; [constructor|]. cbn. destruct (p x); [done|by constructor]. Qed.

Lemma drop_while_stop {A} p (l : list A) :
  match l with [] => True | x :: _ => p x = false end -> drop_while p l = l.
Proof. destruct l as [|x l]; [done|]. simpl. by intros ->. Qed.

Lemma plain_not_space b : plain_byte b = true -> is_whitespace [b] = false.
Proof.
  unfold plain_byte. intros H. apply andb_true_iff in H as [_ H].
  by apply negb_true_iff in H.
Qed.

(** [trim] removes surrounding ASCII whitespace from plain text, whatever its
    amount, and nothing else. *)
Lemma trim_surrounded w1 w2 s :
  plain s ->
  Forall (fun b => b ∈ ascii_whitespace) w1 -> Forall (fun b => b ∈ ascii_whitespace) w2 ->
  trim (w1 ++ s ++ w2) = s.
Proof.
  intros Hs H1 H2.
  assert (Hw : forall w, Forall (fun b => b ∈ ascii_whitespace) w ->
    ascii w /\ Forall (fun c => is_whitespace c = true) (map (fun b => [b]) w)).
  { intros w Hw. split.
    - eapply Forall_impl; [|exact Hw]. intros b Hb. clear -Hb. revert Hb.
      unfold ascii_whitespace, is_ascii. rewrite !elem_of_cons, elem_of_nil.
      by intros [->|[->|[->|[->|[->|[->|[]]]]]]].
    - apply Forall_map. eapply Forall_impl; [|exact Hw]. intros b Hb. simpl.
      by apply bool_decide_eq_true. }
  destruct (Hw _ H1) as [A1 W1], (Hw _ H2) as [A2 W2]. clear Hw.
  pose proof (plain_ascii _ Hs) as As.
  assert (Hstop : forall r, plain r -> drop_while is_whitespace (map (fun b => [b]) r)
                                   = map (fun b => [b]) r).
  { intros r Hr. apply drop_while_stop. destruct Hr; simpl; [done|].
    by apply plain_not_space. }
  unfold trim. rewrite !chars_ascii, (chars_ascii' w2) by done.
  rewrite drop_while_app by done.
  destruct s as [|b s].
  { simpl. rewrite <- (app_nil_r (map _ w2)), drop_while_app by done. done. }
  rewrite (drop_while_stop _ (map (fun b => [b]) (b :: s) ++ _)).
  2: { simpl. apply plain_not_space. by inversion Hs. }
  rewrite reverse_app, drop_while_app.
  2: { by apply Forall_reverse. }
  replace (reverse (map (fun b0 => [b0]) (b :: s)))
    with (map (fun b0 : byte => [b0]) (reverse (b :: s))).
  2: { apply fmap_reverse. }
  rewrite Hstop by (by apply Forall_reverse).
  rewrite <- (concat_map_singleton (b :: s)) at 2. f_equal.
  change (map ?f ?l) with (f <$> l). by rewrite <- fmap_reverse, reverse_involutive.
Qed.

(** Trimming keeps a first character that is no space. *)
Lemma trim_head b s : plain_byte b = true -> is_ascii b = true -> exists r, trim (b :: s) = b :: r.
Proof.
  intros Hp Ha. unfold trim. change (b :: s) with ([b] ++ s). rewrite chars_ascii by (by constructor). cbn [map app].
  pose proof (plain_not_space b Hp) as Hb. rewrite (drop_while_stop is_whitespace ([b] :: chars s)) by exact Hb. rewrite reverse_cons.
  assert (Hd : forall l, exists l', drop_while is_whitespace (l ++ [[b]]) = l' ++ [[b]]).
  { induction l as [|c l IH]; cbn [app]; [rewrite drop_while_stop by exact Hb; by exists []|]. cbn [drop_while]. destruct (is_whitespace c); [exact IH|by exists (c :: l)]. }
  destruct (Hd (reverse (chars s))) as (l' & ->). rewrite reverse_app. cbn. by eexists.
Qed.

Lemma trim_plain s : plain s -> trim s = s.
Proof.
  intros H. rewrite <- (app_nil_r s) at 1.
  by apply (trim_surrounded [] []); [|constructor|constructor].
Qed.

Lemma strip_prefix_app p s : strip_prefix p (p ++ s) = Some s.
Proof. induction p; simpl; [done|]. by rewrite decide_True. Qed.

Lemma strip_prefix_Some p s r : strip_prefix p s = Some r <-> s = p ++ r.
Proof.
  split; [|intros ->; apply strip_prefix_app].
  revert s. induction p as [|x p IH]; intros s; simpl; [congruence|].
  destruct s as [|y s]; [done|]. case_decide as Hxy; [|done]. intros H%IH. by subst.
Qed.

Lemma strip_suffix_Some p s r : strip_suffix p s = Some r <-> s = r ++ p.
Proof.
  unfold strip_suffix. rewrite fmap_Some. split.
  - intros (x & Hx & ->). apply strip_prefix_Some in Hx.
    apply (f_equal reverse) in Hx. by rewrite reverse_app, !reverse_involutive in Hx.
  - intros ->. exists (reverse r). rewrite strip_prefix_Some, reverse_app, reverse_involutive.
    done.
Qed.

(** Text that differs from a plain one in the case of its letters only. *)
Lemma plain_of_lower s : ascii s -> plain (map ascii_lower s) -> plain s.
Proof.
  intros Ha Hp. apply Forall_map in Hp. unfold ascii, plain in *.
  rewrite Forall_forall in *. intros b Hb. specialize (Hp b Hb). revert Hp. all_bytes b.
Qed.

Lemma ascii_boundary s i : ascii s -> 0 <= i <= zlen s -> is_char_boundary s i = true.
Proof.
  intros Ha Hi. unfold is_char_boundary. destruct (i =? 0) eqn:E0; [done|].
  destruct (i =? zlen s) eqn:E1; [done|]. bools. cbn [orb].
  destruct (s !! Z.to_nat i) as [b|] eqn:Hb.
  - unfold ascii in Ha. rewrite list.Forall_lookup in Ha. specialize (Ha _ _ Hb).
    unfold is_ascii in Ha. bools. zdec. unfold is_cont, in_range. by zdec.
  - apply lookup_ge_None in Hb. unfold zlen in *. lia.
Qed.

Lemma str_slice_ascii {E} s a b :
  ascii s -> 0 <= a <= b -> b <= zlen s -> str_slice (E := E) a b s = or_panic (slice a b s).
Proof. intros Ha Hab Hb. unfold str_slice. by rewrite !ascii_boundary by (done || lia). Qed.

Lemma ascii_lower_id s :
  Forall (fun b => in_range 65 90 b = false) s -> map ascii_lower s = s.
Proof.
  induction 1 as [|b s Hb _ IH]; [done|]. simpl. rewrite IH. unfold ascii_lower. by rewrite Hb.
Qed.

Lemma ascii_lower_ascii s : ascii s -> ascii (map ascii_lower s).
Proof.
  intros H. apply Forall_map. eapply Forall_impl; [|exact H]. intros b.
  all_bytes b.
Qed.

Lemma ascii_upper_ascii s : ascii s -> ascii (map ascii_upper s).
Proof.
  intros H. apply Forall_map. eapply Forall_impl; [|exact H]. intros b.
  all_bytes b.
Qed.

(** Upper case undoes lower case on text with no lower-case letter. *)
Lemma ascii_upper_lower s :
  Forall (fun b => in_range 97 122 b = false) s -> map ascii_upper (map ascii_lower s) = s.
Proof.
  induction 1 as [|b s Hb _ IH]; [done|]. simpl. rewrite IH. f_equal.
  revert Hb. all_bytes b.
Qed.

Lemma plain_lower s : plain s -> plain (map ascii_lower s).
Proof.
  intros H. apply Forall_map. eapply Forall_impl; [|exact H]. intros b.
  all_bytes b.
Qed.

Lemma hex_length l : zlen (hex l) = 2 * zlen l.
Proof.
  induction l as [|b l IH]; [done|]. unfold hex in *. simpl. rewrite !zlen_cons, IH. lia.
Qed.

Lemma hex_inj l k : hex l = hex k -> l = k.
Proof.
  revert k. induction l as [|b l IH]; intros [|c k]; unfold hex; simpl; try done.
  intros Heq. injection Heq as H1 H2 H3. f_equal; [|by apply IH].
  apply b2z_inj. assert (Hb : u8_from_hex (hex_byte b) = u8_from_hex (hex_byte c)).
  { unfold hex_byte. by rewrite H1, H2. }
  assert (Hx : forall x, u8_from_hex (hex_byte x) = Some (b2z x)) by (intros x; all_bytes x).
  rewrite !Hx in Hb. congruence.
Qed.

Lemma hex_plain l : plain (hex l).
Proof.
  induction l as [|b l IH]; [constructor|]. unfold hex in *. simpl.
  assert (H : plain_byte (hex_digit (b2z b / 16)) && plain_byte (hex_digit (b2z b mod 16)) = true).
  { all_bytes b. }
  apply andb_true_iff in H as [H1 H2]. by repeat constructor.
Qed.

(** The parser reads back what the formatter writes. *)
Lemma u8_from_hex_byte b : u8_from_hex (hex_byte b) = Some (b2z b).
Proof. all_bytes b. Qed.

(** ** Lemmas: splitting and numbers *)

Lemma starts_with_app p s : starts_with p (p ++ s) = true.
Proof. unfold starts_with. rewrite strip_prefix_app. by apply bool_decide_true. Qed.

Lemma starts_with_true p s : starts_with p s = true <-> exists r, s = p ++ r.
Proof.
  unfold starts_with. rewrite bool_decide_eq_true. unfold is_Some.
  split; intros [r Hr]; exists r; by apply strip_prefix_Some.
Qed.

Lemma find_from_bounds n h i j : find_from n h i = Some j -> i <= j < i + zlen h.
Proof.
  revert i. induction h as [|b h IH]; intros i; cbn [find_from]; [done|].
  rewrite zlen_cons. pose proof (zlen_nonneg h).
  destruct (starts_with _ _); [intros [= ->]; lia|]. intros Hf%IH. lia.
Qed.

(** What is found is there. *)
Lemma find_from_at n h i j :
  find_from n h i = Some j -> exists a r, h = a ++ n ++ r /\ j = i + zlen a.
Proof.
  revert i. induction h as [|b h IH]; intros i; cbn [find_from]; [done|].
  destruct (starts_with _ _) eqn:Hs.
  - intros [= <-]. apply starts_with_true in Hs as [r ->]. exists [], r. split; [done|].
    rewrite zlen_nil. lia.
  - intros Hf. apply IH in Hf as (a & r & -> & ->). exists (b :: a), r. split; [done|].
    rewrite zlen_cons. lia.
Qed.

(** Searching the front of a text: found when the front holds all of the match. *)
Lemma find_from_front n p q i j :
  0 < zlen n -> find_from n (p ++ q) i = Some j ->
  find_from n p i = if j + zlen n <=? i + zlen p then Some j else None.
Proof.
  intros Hn. revert i. induction p as [|b p IH]; intros i; cbn [find_from app].
  - intros Hf. apply find_from_bounds in Hf. rewrite zlen_nil.
    destruct (_ <=? _) eqn:Hc; [|done]. apply Z.leb_le in Hc. lia.
  - destruct (starts_with n (b :: p ++ q)) eqn:Hs.
    + intros [= <-]. apply starts_with_true in Hs as [r Hr].
      change (b :: p ++ q) with ((b :: p) ++ q) in Hr.
      destruct (i + zlen n <=? i + zlen (b :: p)) eqn:Hc.
      * apply Z.leb_le in Hc.
        assert (Hp : b :: p = n ++ zdrop (zlen n) (b :: p)).
        { rewrite <- (ztake_zdrop (zlen n) (b :: p)) at 1. f_equal.
          apply (f_equal (ztake (zlen n))) in Hr. rewrite ztake_app_le in Hr by lia.
          by rewrite ztake_app_l in Hr. }
        rewrite Hp. by rewrite starts_with_app.
      * apply Z.leb_gt in Hc. destruct (starts_with n (b :: p)) eqn:Hs2.
        { apply starts_with_true in Hs2 as [r2 Hr2]. rewrite Hr2, zlen_app in Hc.
          pose proof (zlen_nonneg r2). lia. }
        destruct (find_from n p (i + 1)) as [j|] eqn:Hf; [|done].
        apply find_from_at in Hf as (a & r2 & Hp & _). rewrite Hp, zlen_cons, !zlen_app in Hc.
        pose proof (zlen_nonneg a). pose proof (zlen_nonneg r2). lia.
    + intros Hf. destruct (starts_with n (b :: p)) eqn:Hs2.
      { apply starts_with_true in Hs2 as [r2 Hr2].
        assert (starts_with n (b :: p ++ q) = true); [|congruence].
        apply starts_with_true. exists (r2 ++ q). change (b :: p ++ q) with ((b :: p) ++ q).
        by rewrite Hr2, <- app_assoc. }
      rewrite (IH _ Hf), zlen_cons. by replace (i + 1 + zlen p) with (i + (1 + zlen p)) by lia.
Qed.

(** A byte the pattern starts with and a text does not contain. *)
Lemma find_from_skip c n l k i :
  Forall (fun b => b <> c) l -> find_from (c :: n) (l ++ k) i = find_from (c :: n) k (i + zlen l).
Proof.
  intros Hl. revert i. induction Hl as [|b l Hb _ IH]; intros i; cbn [find_from app].
  { rewrite zlen_nil. f_equal. lia. }
  unfold starts_with. cbn [strip_prefix]. rewrite decide_False by done.
  rewrite bool_decide_false by (by intros []). rewrite IH, zlen_cons. f_equal. lia.
Qed.

Lemma split2_line a b l k :
  Forall (fun x => x <> a) l -> split2 a b (l ++ a :: b :: k) = l :: split2 a b k.
Proof.
  intros Hl. induction Hl as [|x l Hx _ IH].
  - cbn [split2 app]. by rewrite decide_True.
  - change ((x :: l) ++ a :: b :: k) with (x :: (l ++ a :: b :: k)). cbn [split2].
    rewrite IH. destruct (l ++ a :: b :: k) as [|y r] eqn:Hr; [by destruct l|].
    rewrite decide_False by (by intros []). done.
Qed.

Lemma split_once_join c s a b : split_once c s = Some (a, b) -> s = a ++ c :: b.
Proof.
  revert a b. induction s as [|x s IH]; [done|]. cbn. intros a b. destruct (decide (x = c)) as [->|].
  - by intros [= <- <-].
  - destruct (split_once c s) as [[u v]|]; [|done]. intros [= <- <-]. cbn. f_equal. by apply IH.
Qed.

Lemma rsplit_once_join c s a b : rsplit_once c s = Some (a, b) -> s = a ++ c :: b.
Proof.
  unfold rsplit_once. destruct (split_once c (reverse s)) as [[x y]|] eqn:Hs; [|done]. intros [= <- <-].
  apply split_once_join in Hs. rewrite <- (reverse_involutive s), Hs, reverse_app, reverse_cons. by rewrite <- app_assoc.
Qed.

Lemma split_once_at c l k :
  Forall (fun x => x <> c) l -> split_once c (l ++ c :: k) = Some (l, k).
Proof.
  intros Hl. induction Hl as [|x l Hx _ IH]; cbn [split_once app].
  - by rewrite decide_True.
  - rewrite decide_False by done. by rewrite IH.
Qed.

Lemma dec_digits_app max acc l k :
  dec_digits max acc (l ++ k)
  = match dec_digits max acc l with Some a => dec_digits max a k | None => None end.
Proof.
  revert acc. induction l as [|c l IH]; intros acc; cbn [dec_digits app]; [done|].
  destruct (in_range 48 57 c); [|done]. destruct (_ <=? max); [apply IH|done].
Qed.

Lemma dec_digit_facts d :
  0 <= d < 10 -> b2z (dec_digit d) = 48 + d /\ in_range 48 57 (dec_digit d) = true /\
    plain_byte (dec_digit d) = true.
Proof.
  intros Hd. unfold dec_digit, in_range. rewrite b2z_z2b, Z.mod_small by lia. split_and!; [done| |].
  - apply andb_true_iff. split; apply Z.leb_le; lia.
  - assert (d = 0 \/ d = 1 \/ d = 2 \/ d = 3 \/ d = 4 \/ d = 5 \/ d = 6 \/ d = 7 \/ d = 8 \/ d = 9)
      as Hc by lia.
    by repeat destruct Hc as [->|Hc]; [..|subst].
Qed.

Lemma dec_digits_decimal_of fuel z max :
  0 <= z <= max -> z < 10 ^ Z.of_nat fuel -> dec_digits max 0 (decimal_of fuel z) = Some z.
Proof.
  revert z. induction fuel as [|fuel IH]; intros z Hz Hf.
  { change (10 ^ Z.of_nat 0) with 1 in Hf. assert (z = 0) as -> by lia. done. }
  rewrite Nat2Z.inj_succ, Z.pow_succ_r in Hf by lia. cbn [decimal_of].
  destruct (z <? 10) eqn:Hc.
  - apply Z.ltb_lt in Hc. cbn [dec_digits]. destruct (dec_digit_facts z) as (-> & -> & _); [lia|].
    replace (0 * 10 + (48 + z - 48)) with z by lia.
    by replace (z <=? max) with true by (symmetry; apply Z.leb_le; lia).
  - apply Z.ltb_ge in Hc. pose proof (Z.div_mod z 10 ltac:(lia)).
    pose proof (Z.mod_pos_bound z 10 ltac:(lia)). rewrite dec_digits_app, IH by lia.
    cbn [dec_digits]. destruct (dec_digit_facts (z mod 10)) as (-> & -> & _); [lia|].
    replace (z / 10 * 10 + (48 + z mod 10 - 48)) with z by lia.
    by replace (z <=? max) with true by (symmetry; apply Z.leb_le; lia).
Qed.

Lemma decimal_of_digits fuel z :
  0 <= z -> Forall (fun b => in_range 48 57 b = true /\ plain_byte b = true) (decimal_of fuel z).
Proof.
  revert z. induction fuel as [|fuel IH]; intros z Hz; cbn [decimal_of]; [constructor|].
  destruct (z <? 10) eqn:Hc.
  - apply Z.ltb_lt in Hc. repeat constructor; apply dec_digit_facts; lia.
  - apply Forall_app. split; [apply IH, Z.div_pos; lia|].
    pose proof (Z.mod_pos_bound z 10 ltac:(lia)). repeat constructor; by apply dec_digit_facts.
Qed.

Lemma decimal_plain z : 0 <= z -> plain (decimal z).
Proof.
  intros Hz. eapply Forall_impl; [|by apply (decimal_of_digits 20)]. by intros b [].
Qed.

Lemma decimal_nonempty z : decimal z <> [].
Proof.
  change (decimal z) with (if z <? 10 then [dec_digit z] else decimal_of 19 (z / 10) ++ [dec_digit (z mod 10)]).
  destruct (z <? 10); [done|]. by destruct (decimal_of 19 (z / 10)).
Qed.

Lemma decimal_length z : zlen (decimal z) <= 20.
Proof.
  assert (Hl : forall fuel z, zlen (decimal_of fuel z) <= Z.of_nat fuel); [|apply (Hl 20%nat)].
  clear. induction fuel as [|fuel IH]; intros z; cbn [decimal_of]; [done|].
  destruct (_ <? _); [rewrite zlen_cons, zlen_nil; lia|].
  rewrite zlen_app, zlen_cons, zlen_nil. specialize (IH (z / 10)). lia.
Qed.

(** Printing, then parsing. *)
Lemma parse_uint_decimal z max : 0 <= z <= max -> z < 10 ^ 20 -> parse_uint max (decimal z) = Some z.
Proof.
  intros Hz Hb. pose proof (dec_digits_decimal_of 20 z max Hz Hb) as Hd.
  pose proof (decimal_of_digits 20 z ltac:(lia)) as Hp. pose proof (decimal_nonempty z) as Hne.
  unfold decimal in *. destruct (decimal_of 20 z) as [|b [|b' l]]; [done| |]; cbn [parse_uint].
  - apply Forall_inv in Hp as [Hr _]. rewrite bool_decide_false; [done|].
    intros [-> | ->]; done.
  - apply Forall_inv in Hp as [Hr _]. rewrite decide_False; [done|]. by intros ->.
Qed.

Lemma parse_uint_range max s z : parse_uint max s = Some z -> 0 <= z <= max.
Proof.
  assert (Hd : forall l acc, 0 <= acc <= max -> dec_digits max acc l = Some z -> 0 <= z <= max).
  { induction l as [|c l IH]; intros acc Ha; cbn [dec_digits]; [by intros [= <-]|].
    unfold in_range. destruct (_ && _) eqn:Hc; [|done]. apply andb_true_iff in Hc as [Hc _].
    apply Z.leb_le in Hc. destruct (_ <=? max) eqn:Hm; [|done]. apply Z.leb_le in Hm.
    apply IH. lia. }
  assert (Hneg : forall l, dec_digits max 0 l = Some z -> l <> [] -> 0 <= z <= max).
  { intros [|c l]; [done|]. cbn [dec_digits]. unfold in_range. destruct (_ && _) eqn:Hc; [|done].
    apply andb_true_iff in Hc as [Hc _]. apply Z.leb_le in Hc.
    destruct (_ <=? max) eqn:Hm; [|done]. apply Z.leb_le in Hm. intros Hz _. eapply Hd; [|exact Hz]. lia. }
  unfold parse_uint. destruct s as [|b [|b' l]]; [done| |].
  - case_bool_decide; [done|]. intros Hz. by apply Hneg in Hz.
  - case_decide; intros Hz; by apply Hneg in Hz.
Qed.

Lemma lossy_ascii fuel s : ascii s -> (length s <= fuel)%nat -> lossy fuel s = s.
Proof.
  revert fuel. induction s as [|b s IH]; intros fuel Ha Hf; [by destruct fuel|].
  destruct fuel as [|fuel]; [simpl in Hf; lia|]. apply Forall_cons_1 in Ha as [Hb Ha].
  pose proof Hb as Hb'. unfold is_ascii in Hb. cbn [lossy chars].
  replace (b2z b <? 0x80) with true by (symmetry; apply Z.ltb_lt; apply Z.ltb_lt in Hb; lia).
  rewrite utf8_valid_ascii by (by constructor). simpl. rewrite drop_0. f_equal. apply IH; [done|].
  simpl in Hf. lia.
Qed.

Lemma from_utf8_lossy_ascii s : ascii s -> from_utf8_lossy s = s.
Proof. intros Ha. by apply lossy_ascii. Qed.

Lemma words_run cs l k w :
  cs = map (fun b => [b]) l -> plain l -> words (cs ++ k) w = words k (w ++ l).
Proof.
  intros -> Hl. revert w. induction Hl as [|b l Hb _ IH]; intros w; cbn [map app words];
    [by rewrite app_nil_r|].
  rewrite plain_not_space by done. rewrite IH. by rewrite <- app_assoc.
Qed.
