(* ===== verification/Primitives.v ===== *)
(** * The third-party primitives, as interfaces

    The crates the code calls for cryptography and encodings are parameters: a
    class of operations and a class of the documented facts the code relies on.
    Each interface has a small concrete instance (module [Toy]) on which the
    examples of the library run; no theorem depends on it. *)

From Stdlib Require Import Strings.Byte.
From S2P Require Import Prelude Text.

(** ** XChaCha20-Poly1305 ([chacha20poly1305])

    [aead_open] accepts exactly what [aead_seal] produces under the same key,
    nonce and associated data: the tag is a function of all of them and the
    keystream is a bijection on messages. *)
Class Aead := {
  aead_seal : bytes -> bytes -> bytes -> bytes -> option bytes;
  aead_open : bytes -> bytes -> bytes -> bytes -> option bytes;
}.
Class AeadLaws (A : Aead) := {
  aead_open_seal : forall k n a m c, aead_open k n a c = Some m <-> aead_seal k n a m = Some c;
  aead_seal_length : forall k n a m c, aead_seal k n a m = Some c -> zlen c = zlen m + 16;
  aead_seal_total : forall k n a m, zlen m <= 2 ^ 37 -> is_Some (aead_seal k n a m);
}.

(** ** BLAKE3 ([blake3])

    One-shot, incremental, and keyed extendable-output hashing.  The state of an
    incremental hasher is opaque; finalising it gives the hash of everything fed
    to it. *)
Class Blake3 := {
  blake3 : bytes -> bytes;
  blake3_keyed_xof : bytes -> bytes -> Z -> bytes;
  hasher : Type;
  hasher_new : hasher;
  hasher_update : hasher -> bytes -> hasher;
  hasher_finalize : hasher -> bytes;
}.
Class Blake3Laws (B : Blake3) := {
  blake3_length : forall m, zlen (blake3 m) = 32;
  blake3_xof_length : forall k m n, 0 <= n -> zlen (blake3_keyed_xof k m n) = n;
  hasher_spec : forall l, hasher_finalize (foldl hasher_update hasher_new l) = blake3 (concat l);
}.

(** ** SHA-256 and HKDF-SHA256 ([sha2], [hkdf])

    Expansion fails only past 255 blocks of 32 bytes. *)
Class Sha256 := {
  sha256 : bytes -> bytes;
  hkdf_expand : option bytes -> bytes -> bytes -> Z -> option bytes;
}.
Class Sha256Laws (S : Sha256) := {
  sha256_length : forall m, zlen (sha256 m) = 32;
  hkdf_expand_total : forall s k i n, 0 <= n <= 255 * 32 ->
    exists okm, hkdf_expand s k i n = Some okm /\ zlen okm = n;
}.

(** ** RFC 4648 base32 without padding ([data_encoding::BASE32_NOPAD])

    Upper-case alphabet, five bits a symbol; decoding is strict, so a text is
    the encoding of at most one byte string and of nothing else. *)
Definition base32_symbol (b : byte) : bool := in_range 65 90 b || in_range 50 55 b.

Class Base32 := {
  base32_encode : bytes -> str;
  base32_decode : bytes -> option bytes;
}.
Class Base32Laws (B : Base32) := {
  base32_decode_encode : forall b, base32_decode (base32_encode b) = Some b;
  base32_decode_Some : forall s b, base32_decode s = Some b -> s = base32_encode b;
  base32_symbols : forall b, Forall (fun c => base32_symbol c = true) (base32_encode b);
  base32_length : forall b, zlen (base32_encode b) = (8 * zlen b + 4) / 5;
}.

(** *** The two text forms the code uses: lower case on the way out, any case
    and surrounding whitespace on the way in. *)
Section base32_text.
Context `{Base32} `{UnicodeCase}.

Definition base32_lower (b : bytes) : str := to_lowercase (base32_encode b).
Definition base32_parse (s : str) : option bytes := base32_decode (to_uppercase s).

Context `{!Base32Laws _} `{!UnicodeCaseLaws _}.

Lemma base32_symbol_facts b :
  base32_symbol b = true ->
  is_ascii b = true /\ in_range 97 122 b = false /\ plain_byte b = true /\
  plain_byte (ascii_lower b) = true /\ in_range 65 90 (ascii_lower b) = false.
Proof. all_bytes b. Qed.

Lemma base32_encode_ascii b : ascii (base32_encode b).
Proof.
  eapply Forall_impl; [|apply base32_symbols]. intros c Hc. by apply base32_symbol_facts.
Qed.

Lemma base32_lower_eq b : base32_lower b = map ascii_lower (base32_encode b).
Proof. unfold base32_lower. rewrite to_lowercase_ascii; [done|apply base32_encode_ascii]. Qed.

Lemma base32_lower_plain b : plain (base32_lower b).
Proof.
  rewrite base32_lower_eq. apply Forall_map. eapply Forall_impl; [|apply base32_symbols].
  intros c Hc. by apply base32_symbol_facts.
Qed.

Lemma base32_lower_no_upper b : Forall (fun c => in_range 65 90 c = false) (base32_lower b).
Proof.
  rewrite base32_lower_eq. apply Forall_map. eapply Forall_impl; [|apply base32_symbols].
  intros c Hc. by apply base32_symbol_facts.
Qed.

Lemma base32_lower_length b : zlen (base32_lower b) = (8 * zlen b + 4) / 5.
Proof. rewrite base32_lower_eq, zlen_map. apply base32_length. Qed.

(** Lower case changes nothing to decoding. *)
Lemma base32_parse_lower b : base32_parse (base32_lower b) = Some b.
Proof.
  unfold base32_parse. rewrite to_uppercase_ascii.
  2: { apply plain_ascii, base32_lower_plain. }
  rewrite base32_lower_eq, ascii_upper_lower; [apply base32_decode_encode|].
  eapply Forall_impl; [|apply base32_symbols]. intros c Hc. by apply base32_symbol_facts.
Qed.

(** Nor does upper case, or any mixture of the two. *)
Lemma base32_parse_upper b : base32_parse (base32_encode b) = Some b.
Proof.
  unfold base32_parse. rewrite to_uppercase_ascii by apply base32_encode_ascii.
  replace (map ascii_upper (base32_encode b)) with (base32_encode b);
    [apply base32_decode_encode|].
  pose proof (base32_symbols b) as Hs. induction Hs as [|c l Hc _ IH]; [done|].
  simpl. rewrite <- IH. f_equal. apply base32_symbol_facts in Hc as (_ & Hc & _).
  unfold ascii_upper. by rewrite Hc.
Qed.
End base32_text.

(** *** Checksummed text

    A payload and a checksum of it in base32 behind a prefix: the form of a ticket
    and of a server link, which differ in the prefix, the checksum, the errors and
    the decoder [f] of the payload. *)
Section armor.
Context `{Base32} `{UnicodeCase} {E A : Type}.
Context (prefix : str) (n : Z) (ck : bytes -> bytes) (e1 e2 e3 e4 : E) (f : bytes -> outcome E A).

Definition armor (payload : bytes) : str := prefix ++ base32_lower (payload ++ ck payload).

Definition dearmor (text : str) : outcome E A :=
  let lowered := to_lowercase (trim text) in
  let? body := ok_or (strip_prefix prefix lowered) e1 in
  let? decoded := ok_or (base32_parse body) e2 in
  if zlen decoded <=? n then Err e3 else
  let at_ := zlen decoded - n in
  let payload := ztake at_ decoded in
  let tail := zdrop at_ decoded in
  if decide (tail <> ck payload) then Err e4 else f payload.

Lemma dearmor_Ok s a :
  dearmor s = Ok a ->
  exists body p, to_lowercase (trim s) = prefix ++ body /\
    base32_parse body = Some (p ++ ck p) /\ f p = Ok a.
Proof.
  unfold dearmor. intros Hk. ok_inv Hk. bools. apply strip_prefix_Some in Hx.
  eexists x, _. split_and!; [done| |exact Hk].
  match goal with H : zdrop _ _ = _ |- _ => rewrite <- H end. by rewrite ztake_zdrop.
Qed.

Lemma dearmor_no_panic s : (forall p, f p <> Panic) -> dearmor s <> Panic.
Proof.
  intros Hf. unfold dearmor. apply obind_no_panic; [apply ok_or_no_panic|intros body _].
  apply obind_no_panic; [apply ok_or_no_panic|intros d _]. repeat case_match; done.
Qed.

Context `{!Base32Laws _} `{!UnicodeCaseLaws _}.
Context (Hprefix : plain prefix) (Hlower : Forall (fun b => in_range 65 90 b = false) prefix)
  (Hck : forall p, zlen (ck p) = n).

Lemma armor_facts p : plain (armor p) /\ Forall (fun b => in_range 65 90 b = false) (armor p).
Proof.
  unfold armor. split; apply Forall_app; (split; [done|]).
  - apply base32_lower_plain.
  - apply base32_lower_no_upper.
Qed.

Lemma dearmor_any p w1 s w2 :
  p <> [] -> Forall (fun b => b ∈ ascii_whitespace) w1 -> Forall (fun b => b ∈ ascii_whitespace) w2 ->
  ascii s -> map ascii_lower s = armor p -> dearmor (w1 ++ s ++ w2) = f p.
Proof.
  intros Hne Hw1 Hw2 Hs Hlow. destruct (armor_facts p) as [Hp _].
  unfold dearmor. rewrite trim_surrounded; [|by apply plain_of_lower; rewrite ?Hlow|done|done].
  rewrite to_lowercase_ascii by done. rewrite Hlow. unfold armor.
  rewrite strip_prefix_app. cbn [obind ok_or]. rewrite base32_parse_lower. cbn [obind ok_or].
  assert (0 < zlen p).
  { destruct p; [done|]. rewrite zlen_cons. pose proof (zlen_nonneg p). lia. }
  rewrite zlen_app, Hck. zdec.
  rewrite ztake_app_l, zdrop_app_l by lia. by rewrite decide_False by (intros Hn; by apply Hn).
Qed.
End armor.

(** ** Concrete instances

    Base32 in full; a keyed polynomial in place of the hashes and of the
    Poly1305 tag, with the identity as keystream; ASCII case mapping.  They
    satisfy the laws above, which are therefore consistent, and evaluate. *)
Module Toy.

Definition digest (n : nat) (l : bytes) : bytes :=
  let mask := 256 ^ Z.of_nat n - 1 in
  let acc := foldl (fun acc b => Z.land (acc * 65599 + b2z b + 1) mask) 7 l in
  be_bytes n (acc * (2 * (256 ^ Z.of_nat n / 5) + 1)).

(** Length-prefixed concatenation, so that the digest separates its inputs. *)
Definition framed (ls : list bytes) : bytes :=
  concat (map (fun l => be_bytes 8 (zlen l) ++ l) ls).

Definition tag (k n a m : bytes) : bytes := digest 16 (framed [k; n; a; m]).

#[export] Instance aead : Aead := {
  aead_seal k n a m := Some (m ++ tag k n a m);
  aead_open k n a c :=
    let m := ztake (zlen c - 16) c in
    if decide (c = m ++ tag k n a m) then Some m else None;
}.

Lemma zlen_digest n l : zlen (digest n l) = Z.of_nat n.
Proof. apply zlen_be_bytes. Qed.

#[export] Instance aead_laws : AeadLaws aead.
Proof.
  split; simpl.
  - intros k n a m c. split.
    + case_decide as Hc; [|done]. intros [= Hm]. rewrite Hm in Hc. by rewrite <- Hc.
    + intros [= <-].
      rewrite ztake_app_l by (unfold tag; rewrite zlen_app, zlen_digest; lia).
      by rewrite decide_True.
  - intros k n a m c [= <-]. unfold tag. by rewrite zlen_app, zlen_digest.
  - by eexists.
Qed.

#[export] Instance b3 : Blake3 := {
  blake3 m := digest 32 m;
  blake3_keyed_xof k m n := digest (Z.to_nat n) (framed [k; m]);
  hasher := bytes;
  hasher_new := [];
  hasher_update h m := h ++ m;
  hasher_finalize h := digest 32 h;
}.

Lemma foldl_app_concat {A} (l : list (list A)) k : foldl app k l = k ++ concat l.
Proof.
  revert k. induction l as [|x l IH]; intros k; simpl; [by rewrite app_nil_r|].
  by rewrite IH, app_assoc.
Qed.

#[export] Instance b3_laws : Blake3Laws b3.
Proof.
  split; simpl.
  - intros m. apply zlen_digest.
  - intros k m n Hn. rewrite zlen_digest. lia.
  - intros l. by rewrite foldl_app_concat.
Qed.

#[export] Instance sha : Sha256 := {
  sha256 m := digest 32 m;
  hkdf_expand s k i n :=
    if 255 * 32 <? n then None
    else Some (digest (Z.to_nat n) (framed [default [] s; k; i]));
}.

#[export] Instance sha_laws : Sha256Laws sha.
Proof.
  split; simpl.
  - intros m. apply zlen_digest.
  - intros s k i n Hn. replace (255 * 32 <? n) with false by (symmetry; apply Z.ltb_ge; lia).
    eexists. split; [done|]. rewrite zlen_digest. lia.
Qed.

#[export] Instance case : UnicodeCase := {
  to_lowercase := map ascii_lower;
  to_uppercase := map ascii_upper;
}.
#[export] Instance case_laws : UnicodeCaseLaws case.
Proof. by split. Qed.

(** *** Base32, bit by bit *)

Definition bits (width : nat) (n : Z) : list bool :=
  reverse (map (fun i => Z.testbit n (Z.of_nat i)) (seq 0 width)).
Definition bits_val (l : list bool) : Z := foldl (fun acc (b : bool) => 2 * acc + Z.b2z b) 0 l.

Definition symbol (l : list bool) : byte :=
  let n := bits_val l in if n <? 26 then z2b (65 + n) else z2b (24 + n).
Definition symbol_bits (c : byte) : option (list bool) :=
  if in_range 65 90 c then Some (bits 5 (b2z c - 65))
  else if in_range 50 55 c then Some (bits 5 (b2z c - 24))
  else None.

Fixpoint symbols (l : list bool) : str :=
  match l with
  | [] => []
  | [b0] => [symbol [b0; false; false; false; false]]
  | [b0; b1] => [symbol [b0; b1; false; false; false]]
  | [b0; b1; b2] => [symbol [b0; b1; b2; false; false]]
  | [b0; b1; b2; b3] => [symbol [b0; b1; b2; b3; false]]
  | b0 :: b1 :: b2 :: b3 :: b4 :: r => symbol [b0; b1; b2; b3; b4] :: symbols r
  end.

Fixpoint octets (l : list bool) : bytes :=
  match l with
  | b0 :: b1 :: b2 :: b3 :: b4 :: b5 :: b6 :: b7 :: r =>
      z2b (bits_val [b0; b1; b2; b3; b4; b5; b6; b7]) :: octets r
  | _ => []
  end.

Definition all_bits (b : bytes) : list bool := concat (map (fun x => bits 8 (b2z x)) b).
Definition encode (b : bytes) : str := symbols (all_bits b).
Definition decode (s : str) : option bytes :=
  l ← mapM symbol_bits s;
  let b := octets (concat l) in
  if decide (encode b = s) then Some b else None.

Lemma symbol_bits_symbol b0 b1 b2 b3 b4 :
  symbol_bits (symbol [b0; b1; b2; b3; b4]) = Some [b0; b1; b2; b3; b4].
Proof. by destruct b0, b1, b2, b3, b4. Qed.

Lemma symbol_in_alphabet b0 b1 b2 b3 b4 : base32_symbol (symbol [b0; b1; b2; b3; b4]) = true.
Proof. by destruct b0, b1, b2, b3, b4. Qed.

(** Induction five bits at a time. *)
Lemma ind5 (P : list bool -> Prop) :
  (forall l, (length l < 5)%nat -> P l) ->
  (forall b0 b1 b2 b3 b4 l, P l -> P (b0 :: b1 :: b2 :: b3 :: b4 :: l)) ->
  forall l, P l.
Proof.
  intros Hs Hc l. remember (length l) as n eqn:Hn. assert (Hle : (length l <= n)%nat) by lia.
  clear Hn. revert l Hle. induction n as [|n IH]; intros l Hle; [apply Hs; lia|].
  destruct l as [|b0 [|b1 [|b2 [|b3 [|b4 l]]]]]; try (apply Hs; simpl; lia).
  apply Hc, IH. simpl in Hle. lia.
Qed.

Lemma symbols_bits l :
  exists ls pad, mapM symbol_bits (symbols l) = Some ls /\
    concat ls = l ++ pad /\ (length pad < 5)%nat.
Proof.
  induction l as [l Hl|b0 b1 b2 b3 b4 l (ls & pad & H1 & H2 & H3)] using ind5.
  - destruct l as [|b0 [|b1 [|b2 [|b3 [|b4 l]]]]]; [..|simpl in Hl; lia];
      [exists [], []; split_and!; [done|done|simpl; lia]|..];
      simpl symbols; simpl mapM; rewrite symbol_bits_symbol; simpl.
    all: eexists _, _; split; [done|]; simpl; split; [|shelve].
    all: [> apply (f_equal (fun x => b0 :: x) (eq_refl [false; false; false; false]))
          | apply (f_equal (fun x => b0 :: b1 :: x) (eq_refl [false; false; false]))
          | apply (f_equal (fun x => b0 :: b1 :: b2 :: x) (eq_refl [false; false]))
          | apply (f_equal (fun x => b0 :: b1 :: b2 :: b3 :: x) (eq_refl [false])) ].
    Unshelve. all: simpl; lia.
  - exists ([b0; b1; b2; b3; b4] :: ls), pad. simpl symbols. simpl mapM.
    rewrite symbol_bits_symbol. simpl. rewrite H1. simpl. rewrite H2. by split_and!.
Qed.

Lemma symbols_alphabet l : Forall (fun c => base32_symbol c = true) (symbols l).
Proof.
  induction l as [l Hl|b0 b1 b2 b3 b4 l IH] using ind5.
  - destruct l as [|b0 [|b1 [|b2 [|b3 [|b4 l]]]]]; [..|simpl in Hl; lia];
      simpl; repeat constructor; apply symbol_in_alphabet.
  - simpl. constructor; [apply symbol_in_alphabet|done].
Qed.

Lemma symbols_length l : zlen (symbols l) = (zlen l + 4) / 5.
Proof.
  induction l as [l Hl|b0 b1 b2 b3 b4 l IH] using ind5.
  - by destruct l as [|b0 [|b1 [|b2 [|b3 [|b4 l]]]]]; [..|simpl in Hl; lia].
  - simpl. rewrite !zlen_cons, IH.
    replace (1 + (1 + (1 + (1 + (1 + zlen l)))) + 4) with (zlen l + 4 + 1 * 5) by lia.
    rewrite Z.div_add by lia. lia.
Qed.

Lemma octets_bits b pad : (length pad < 8)%nat -> octets (all_bits b ++ pad) = b.
Proof.
  intros Hp. induction b as [|x b IH].
  { by do 8 (destruct pad as [|? pad]; [done|]); simpl in Hp; lia. }
  unfold all_bits in *. cbn [map concat]. rewrite <- app_assoc.
  assert (H : z2b (bits_val (bits 8 (b2z x))) = x) by all_bytes x.
  change (octets (bits 8 (b2z x) ++ concat (map (fun x => bits 8 (b2z x)) b) ++ pad))
    with (z2b (bits_val (bits 8 (b2z x)))
          :: octets (concat (map (fun x => bits 8 (b2z x)) b) ++ pad)).
  by rewrite H, IH.
Qed.

#[export] Instance b32 : Base32 := {
  base32_encode := encode;
  base32_decode := decode;
}.

#[export] Instance b32_laws : Base32Laws b32.
Proof.
  split; simpl.
  - intros b. unfold decode, encode.
    destruct (symbols_bits (all_bits b)) as (ls & pad & -> & H2 & H3). simpl.
    rewrite H2, octets_bits by lia. by rewrite decide_True.
  - intros s b. unfold decode. destruct (mapM symbol_bits s); simpl; [|done].
    case_decide; [|done]. by intros [= <-].
  - intros b. apply symbols_alphabet.
  - intros b. unfold encode. rewrite symbols_length. f_equal. f_equal.
    induction b as [|x b IH]; [done|]. unfold all_bits in *. cbn [map concat].
    rewrite zlen_app, IH, zlen_cons. change (zlen (bits 8 (b2z x))) with 8. lia.
Qed.
End Toy.

Example base32_foobar : Toy.encode (lit "foobar") = lit "MZXW6YTBOI".
Proof. by vm_compute. Qed.

(** Any countable data as bytes: the binary digits of its number.  The bytes are
    ASCII. *)
Module ToyBits.
Fixpoint bits_of (p : positive) : bytes :=
  match p with xH => [] | xO p => Byte.x00 :: bits_of p | xI p => Byte.x01 :: bits_of p end.
Fixpoint of_bits (l : bytes) : positive :=
  match l with [] => xH | b :: l => if decide (b = Byte.x00) then xO (of_bits l) else xI (of_bits l) end.

Lemma of_bits_of p : of_bits (bits_of p) = p.
Proof. induction p as [p IH|p IH|]; cbn; by rewrite ?IH. Qed.

Lemma bits_ascii p : ascii (bits_of p).
Proof. induction p; cbn; by constructor. Qed.

Definition to_bits {A} `{Countable A} (a : A) : bytes := bits_of (stdpp.countable.encode a).
Definition from_bits {A} `{Countable A} (b : bytes) : option A := stdpp.countable.decode (of_bits b).

Lemma from_to_bits {A} `{Countable A} (a : A) : from_bits (to_bits a) = Some a.
Proof. unfold from_bits, to_bits. by rewrite of_bits_of, stdpp.countable.decode_encode. Qed.
End ToyBits.
