(* ===== verification/LiveError.v ===== *)
(** * Errors and cursors of the live-transfer crate

    [p2p-live/src/lib.rs]'s error type, and the bounds-checked cursor every
    parser of the crate is written with. *)

From Stdlib Require Import Strings.Byte.
From stdpp Require Import strings.
From S2P Require Import Prelude.

(** [enum Error].  A message is kept as an identifying phrase; the values
    formatted into it for a human are left out. *)
Module Error.
Inductive t :=
| Identity (s : string)
| Tls (s : string)
| QuicConfig (s : string)
| Connect (s : string)
| Session (s : string)
| Transfer (s : string)
| Integrity (s : string)
| Cancelled
| Ticket (s : string)
| Pairing (s : string)
| Discovery (s : string)
| Io (s : string).

#[global] Arguments Identity s%_string_scope.
#[global] Arguments Tls s%_string_scope.
#[global] Arguments QuicConfig s%_string_scope.
#[global] Arguments Connect s%_string_scope.
#[global] Arguments Session s%_string_scope.
#[global] Arguments Transfer s%_string_scope.
#[global] Arguments Integrity s%_string_scope.
#[global] Arguments Ticket s%_string_scope.
#[global] Arguments Pairing s%_string_scope.
#[global] Arguments Discovery s%_string_scope.
#[global] Arguments Io s%_string_scope.

#[export] Instance eq_dec : EqDecision t.
Proof. solve_decision. Defined.
End Error.

Abbreviation result := (outcome Error.t).

(** Lengths a buffer in memory can have. *)
Definition in_memory {A} (l : list A) : Prop := zlen l <= u64_max.

(** ** The cursor

    One read of [n] bytes at [pos]: the end is computed with [checked_add], and
    nothing is indexed before both checks have passed. *)
Definition cursor_take {E} (overflow short : E) (buf : bytes) (pos n : Z)
    : outcome E (bytes * Z) :=
  let stop := pos + n in
  if u64_max <? stop then Err overflow
  else if zlen buf <? stop then Err short
  else let? x := or_panic (slice pos stop buf) in Ok (x, stop).

Section cursor.
Context {E : Type} (e1 e2 : E).

Lemma cursor_take_app pre x suf pos n :
  pos = zlen pre -> n = zlen x -> in_memory (pre ++ x ++ suf) ->
  cursor_take e1 e2 (pre ++ x ++ suf) pos n = Ok (x, pos + n).
Proof.
  intros -> -> Hm. unfold in_memory, cursor_take in *. zl.
  replace (u64_max <? _) with false by (symmetry; apply Z.ltb_ge; lia).
  replace (_ <? _) with false by (symmetry; apply Z.ltb_ge; lia).
  by rewrite (slice_app_mid _ _ pre x suf).
Qed.

Lemma cursor_take_Ok buf pos n x p :
  0 <= pos -> cursor_take e1 e2 buf pos n = Ok (x, p) ->
  p = pos + n /\ 0 <= n /\ p <= zlen buf /\ zlen x = n /\ ztake p buf = ztake pos buf ++ x.
Proof.
  intros Hp H. unfold cursor_take in H. ok_inv H. bools.
  injection H as <- <-. pose proof (slice_length _ _ _ _ Hx).
  pose proof (slice_step _ _ _ _ Hx). apply slice_Some in Hx as (? & ? & _).
  by split_and!; try lia.
Qed.

Lemma cursor_take_no_panic buf pos n :
  0 <= pos -> 0 <= n -> cursor_take e1 e2 buf pos n <> Panic.
Proof.
  intros Hp Hn. unfold cursor_take.
  destruct (u64_max <? pos + n) eqn:?; [done|].
  destruct (zlen buf <? pos + n) eqn:?; [done|]. bools.
  destruct (slice pos (pos + n) buf) eqn:Hs; [done|].
  apply slice_None in Hs. lia.
Qed.

Lemma cursor_take_short buf pos n :
  0 <= pos -> in_memory buf -> zlen buf < pos + n ->
  exists e, cursor_take e1 e2 buf pos n = Err e /\ (e = e1 \/ e = e2).
Proof.
  intros Hp Hm Hn. unfold cursor_take. destruct (u64_max <? pos + n); [by eauto|].
  replace (zlen buf <? pos + n) with true by (symmetry; apply Z.ltb_lt; lia). eauto.
Qed.
End cursor.

(** *** Parsing what was printed

    [at_rest buf pos rest]: the cursor stands at [pos] with [rest] ahead. *)
Definition at_rest (buf : bytes) (pos : Z) (rest : bytes) : Prop :=
  0 <= pos /\ zdrop pos buf = rest /\ zlen buf = pos + zlen rest.

Lemma at_rest_start buf : at_rest buf 0 buf.
Proof. unfold at_rest. by rewrite zdrop_0. Qed.

Lemma at_rest_pre pre buf : at_rest (pre ++ buf) (zlen pre) buf.
Proof. unfold at_rest. rewrite zdrop_app_l by done. zl. done. Qed.

Lemma at_rest_end buf pos : at_rest buf pos [] -> pos = zlen buf.
Proof. intros (_ & _ & H). rewrite zlen_nil in H. lia. Qed.

Lemma cursor_take_rest {E} (e1 e2 : E) buf pos n x rest :
  at_rest buf pos (x ++ rest) -> in_memory buf -> n = zlen x ->
  cursor_take e1 e2 buf pos n = Ok (x, pos + n) /\ at_rest buf (pos + n) rest.
Proof.
  intros (Hp & Hd & Hl) Hm ->. zl.
  assert (Hs : buf = ztake pos buf ++ x ++ rest) by (by rewrite <- Hd, ztake_zdrop).
  assert (Hpre : zlen (ztake pos buf) = pos) by (zl).
  split.
  - rewrite Hs at 1. apply cursor_take_app; [done|done|by rewrite <- Hs].
  - split_and!; [lia| |lia]. rewrite <- zdrop_zdrop by lia. rewrite Hd.
    by apply zdrop_app_l.
Qed.

(** One step of a parser over printed bytes; [H : at_rest buf pos (x ++ rest)],
    [Hm : in_memory buf]. *)
Ltac cursor_step H Hm :=
  match type of H with
  | at_rest ?buf ?pos (?x ++ ?rest) =>
      match goal with
      | |- context [cursor_take ?e1 ?e2 buf ?p ?n] =>
          let Eq := fresh "Eq" in let H' := fresh "H'" in
          destruct (cursor_take_rest e1 e2 buf p n x rest H Hm) as [Eq H'];
          [try zl|rewrite Eq; clear Eq H; rename H' into H; cbn [obind or_panic head]]
      end
  end.

(** The converse: what a successful parse consumed.  [H] is the equation of one
    [cursor_take]; the bytes read so far grow by what it returned. *)
Ltac cursor_inv H :=
  let Hp := fresh "Hp" in let Hn := fresh "Hn" in let Hb := fresh "Hb" in
  let Hl := fresh "Hl" in let Ht := fresh "Ht" in
  apply cursor_take_Ok in H as (Hp & Hn & Hb & Hl & Ht); [|lia].

Ltac cursor_invs :=
  repeat match goal with H : cursor_take _ _ _ _ _ = Ok _ |- _ => cursor_inv H end.

(** A whole buffer, from the prefixes its reads extended: for a goal [_ = x]. *)
Ltac cursor_whole x :=
  transitivity (ztake (zlen x) x); [|apply ztake_all; lia];
  repeat match goal with Ht : ztake ?p x = ztake ?q x ++ _ |- context [ztake ?p x] =>
    rewrite Ht end;
  rewrite ztake_0, <- ?app_assoc; cbn [app].

Lemma head_singleton {A} (v : list A) x : head v = Some x -> zlen v = 1 -> v = [x].
Proof.
  destruct v as [|y [|z v]]; intros [= ->] H; [done|].
  rewrite !zlen_cons in H. pose proof (zlen_nonneg v). lia.
Qed.

Lemma head_one_no_panic {E A} (v : list A) : zlen v = 1 -> or_panic (E := E) (head v) <> Panic.
Proof. by destruct v. Qed.

Lemma two_byte_range l : zlen l = 2 -> 0 <= be_val l <= u16_max.
Proof. intros H. pose proof (be_val_range l) as Hr. rewrite H in Hr. unfold u16_max. lia. Qed.

(** Parsers do not panic: every read is checked, every [head] is of one byte. *)
Ltac cursor_no_panic_step :=
  match goal with
  | |- obind (cursor_take _ _ _ _ ?n) _ <> Panic =>
      match n with context [be_val ?l] => pose proof (be_val_range l) | _ => idtac end;
      apply obind_no_panic;
      [ apply cursor_take_no_panic; lia
      | let H := fresh "H" in intros [? ?] H; cursor_inv H; cbv beta iota ]
  | |- obind (or_panic (head _)) _ <> Panic =>
      apply obind_no_panic; [apply head_one_no_panic; lia | intros ? _]
  | |- obind (ok_or _ _) _ <> Panic =>
      apply obind_no_panic; [apply ok_or_no_panic | intros ? _]
  | |- obind _ _ <> Panic => apply obind_no_panic; [|intros ? _]
  | |- (if ?c then _ else _) <> Panic => destruct c
  | |- (let (_, _) := ?x in _) <> Panic => destruct x
  | |- Ok _ <> Panic => discriminate
  | |- Err _ <> Panic => discriminate
  end.
Ltac cursor_no_panic := repeat cursor_no_panic_step; auto with nopanic.
