(* ===== verification/Disk.v ===== *)
(** * Files

    An open file as its bytes and the position of its cursor, with the operations
    of [std::fs::File] and [tokio::fs::File] the code uses.  Reading short is
    [None] ([UnexpectedEof]); whether the system fails an operation is the
    caller's concern. *)

From Stdlib Require Import Strings.Byte.
From S2P Require Import Prelude.

Record file := File { content : bytes; cursor : Z }.

(** Writing [b] at [p]: a gap past the end reads as zeros. *)
Definition splice (p : Z) (b c : bytes) : bytes :=
  ztake p c ++ zrep (p - zlen c) Byte.x00 ++ b ++ zdrop (p + zlen b) c.

(** [set_len]. *)
Definition resize (n : Z) (c : bytes) : bytes := ztake n c ++ zrep (n - zlen c) Byte.x00.

Definition f_len (f : file) : Z := zlen (content f).
Definition f_seek (p : Z) (f : file) : file := File (content f) p.
Definition f_write (b : bytes) (f : file) : file :=
  File (splice (cursor f) b (content f)) (cursor f + zlen b).
Definition f_set_len (n : Z) (f : file) : file := File (resize n (content f)) (cursor f).
Definition f_read_exact (n : Z) (f : file) : option (bytes * file) :=
  b ← slice (cursor f) (cursor f + n) (content f);
  Some (b, File (content f) (cursor f + n)).

(** ** Lemmas *)

Lemma splice_end c b : splice (zlen c) b c = c ++ b.
Proof.
  unfold splice. rewrite ztake_all, zdrop_all by (pose_zlens; lia).
  replace (zlen c - zlen c) with 0 by lia. by rewrite app_nil_r.
Qed.

Lemma splice_length p b c : 0 <= p -> zlen (splice p b c) = Z.max (zlen c) (p + zlen b).
Proof. intros. unfold splice. zl. Qed.

(** Bytes outside the written range do not change. *)
Lemma slice_splice_before p b c x y :
  0 <= p -> y <= p -> y <= zlen c -> slice x y (splice p b c) = slice x y c.
Proof.
  intros Hp Hy Hc. unfold splice.
  rewrite slice_app_le by zl. rewrite <- (ztake_zdrop p c) at 2.
  by rewrite slice_app_le by zl.
Qed.

Lemma slice_splice_at p b c : 0 <= p -> slice p (p + zlen b) (splice p b c) = Some b.
Proof.
  intros Hp. unfold splice. rewrite app_assoc. apply slice_app_mid; zl.
Qed.

Lemma slice_splice_after p b c x y :
  0 <= p -> p + zlen b <= x -> y <= zlen c -> slice x y (splice p b c) = slice x y c.
Proof.
  intros Hp Hx Hy. pose proof (zlen_nonneg b).
  destruct (decide (p + zlen b <= zlen c)).
  - unfold splice. replace (zrep (p - zlen c) Byte.x00) with (@nil byte).
    2: { unfold zrep. by replace (Z.to_nat (p - zlen c)) with 0%nat by lia. }
    cbn [app]. rewrite app_assoc. rewrite <- (ztake_zdrop (p + zlen b) c) at 3.
    rewrite !slice_app_ge by zl. f_equal; zl.
  - transitivity (@None bytes); [|symmetry]; apply slice_None; lia.
Qed.

Lemma resize_short n c : 0 <= n <= zlen c -> resize n c = ztake n c.
Proof.
  intros H. unfold resize, zrep. replace (Z.to_nat (n - zlen c)) with 0%nat by lia.
  apply app_nil_r.
Qed.

Lemma resize_length n c : 0 <= n -> zlen (resize n c) = n.
Proof. intros. unfold resize. zl. Qed.

(** Ending the file after what was just written. *)
Lemma resize_splice off b c :
  0 <= off <= zlen c -> resize (off + zlen b) (splice off b c) = ztake off c ++ b.
Proof.
  intros Ho. pose proof (zlen_nonneg b). rewrite resize_short by (rewrite splice_length; lia).
  unfold splice. replace (zrep (off - zlen c) Byte.x00) with (@nil byte).
  2: { unfold zrep. by replace (Z.to_nat (off - zlen c)) with 0%nat by lia. }
  cbn [app]. rewrite app_assoc. apply ztake_app_l. zl.
Qed.

Lemma splice_0 b c : zlen b <= zlen c -> splice 0 b c = b ++ zdrop (zlen b) c.
Proof.
  intros Hb. unfold splice. rewrite ztake_0. unfold zrep. pose proof (zlen_nonneg c).
  by replace (Z.to_nat (0 - zlen c)) with 0%nat by lia.
Qed.

Lemma slice_ztake x y n (c : bytes) : y <= n -> n <= zlen c -> slice x y (ztake n c) = slice x y c.
Proof.
  intros Hy Hn. rewrite <- (ztake_zdrop n c) at 2. symmetry. apply slice_app_le.
  destruct (decide (0 <= n)); [zl|]. rewrite zlen_take. lia.
Qed.

Lemma resize_same c : resize (zlen c) c = c.
Proof. rewrite resize_short by (pose_zlens; lia). apply ztake_all. lia. Qed.

Lemma f_read_exact_Some n f b f' :
  f_read_exact n f = Some (b, f') <->
  slice (cursor f) (cursor f + n) (content f) = Some b /\ f' = File (content f) (cursor f + n).
Proof.
  unfold f_read_exact. destruct (slice _ _ _) as [x|]; simpl.
  - split; [by intros [= <- <-]|by intros [[= ->] ->]].
  - split; [done|by intros [[=] _]].
Qed.

(** Zeros over a prefix of [data], and a page more. *)
Definition wiped (data : bytes) (n : Z) : file := File (zrep n Byte.x00 ++ zdrop n data) n.

Lemma wiped_all data : wiped data (zlen data) = File (zrep (zlen data) Byte.x00) (zlen data).
Proof. unfold wiped. by rewrite zdrop_all, app_nil_r by lia. Qed.

Lemma wiped_more data w n :
  0 <= w -> 0 <= n -> w + n <= zlen data -> f_write (zrep n Byte.x00) (wiped data w) = wiped data (w + n).
Proof.
  intros Hw Hn Hl. unfold wiped, f_write. cbn [content cursor]. f_equal; [|rewrite zlen_rep; lia].
  unfold splice. rewrite ztake_app_l by (rewrite zlen_rep; lia).
  assert (Hz : forall k, k <= 0 -> zrep k Byte.x00 = []).
  { intros k Hk. unfold zrep. by replace (Z.to_nat k) with 0%nat by lia. }
  rewrite (Hz (w - _)) by zl. cbn [app]. rewrite zlen_rep.
  rewrite zdrop_app_ge by (rewrite zlen_rep; lia). rewrite zlen_rep, zdrop_zdrop by lia.
  rewrite app_assoc. unfold zrep. rewrite <- replicate_add. f_equal; f_equal; lia.
Qed.
