(* ===== verification/StateM.v ===== *)
(** * Stateful code

    A function that threads [&mut self], a file or a session is a function of a
    state that returns an outcome {e and} the state it leaves: an error does not
    undo what was already done.  [triple] is a Hoare triple over such functions
    with a postcondition for each way of returning; a function with a triple does
    not panic. *)

From S2P Require Import Prelude.

Definition M (E S A : Type) : Type := S -> outcome E A * S.

Definition mret {E S A} (a : A) : M E S A := fun s => (Ok a, s).
Definition lift {E S A} (m : outcome E A) : M E S A := fun s => (m, s).
Definition fails {E S A} (e : E) : M E S A := fun s => (Err e, s).
Definition gets {E S A} (f : S -> A) : M E S A := fun s => (Ok (f s), s).
Definition modify {E S} (f : S -> S) : M E S unit := fun s => (Ok tt, f s).

Definition mbind {E S A B} (m : M E S A) (f : A -> M E S B) : M E S B :=
  fun s => match m s with
           | (Ok a, s') => f a s'
           | (Err e, s') => (Err e, s')
           | (Panic, s') => (Panic, s')
           end.

Notation "'let!' x := m 'in' k" := (mbind m (fun x => k))
  (at level 10, x pattern, m at level 100, k at level 200,
   format "'[v' 'let!'  x  :=  m  'in' '/' k ']'") : rust_scope.

(** A function of the state that may fail without changing it. *)
Definition with_state {E S A} (f : S -> outcome E A) : M E S A := fun s => (f s, s).

(** [m] with its errors rewritten ([map_err]). *)
Definition mmap_err {E F S A} (f : E -> F) (m : M E S A) : M F S A :=
  fun s => let (r, s') := m s in (map_err f r, s').

(** ** Triples *)

Section triple.
Context {E S : Type}.
Implicit Types (P : S -> Prop) (X : E -> S -> Prop).

Definition triple {A} (P : S -> Prop) (m : M E S A) (Q : A -> S -> Prop) (X : E -> S -> Prop) : Prop :=
  forall s, P s -> match m s with
                   | (Ok a, s') => Q a s'
                   | (Err e, s') => X e s'
                   | (Panic, _) => False
                   end.

Lemma triple_ret {A} (a : A) P X : triple P (mret a) (fun b s => b = a /\ P s) X.
Proof. intros s Hs. by split. Qed.

Lemma triple_fails {A} (e : E) P (Q : A -> S -> Prop) (X : E -> S -> Prop) :
  (forall s, P s -> X e s) -> triple P (fails e) Q X.
Proof. intros H s Hs. by apply H. Qed.

Lemma triple_gets {A} (f : S -> A) P X : triple P (gets f) (fun b s => b = f s /\ P s) X.
Proof. intros s Hs. by split. Qed.

Lemma triple_modify f P (Q : unit -> S -> Prop) X :
  (forall s, P s -> Q tt (f s)) -> triple P (modify f) Q X.
Proof. intros H s Hs. by apply H. Qed.

Lemma triple_lift {A} (m : outcome E A) P (Q : A -> S -> Prop) (X : E -> S -> Prop) :
  m <> Panic -> (forall a s, m = Ok a -> P s -> Q a s) -> (forall e s, m = Err e -> P s -> X e s) ->
  triple P (lift m) Q X.
Proof. intros Hm HQ HX s Hs. simpl. destruct m; auto. Qed.

Lemma triple_bind {A B} (m : M E S A) (f : A -> M E S B) P Q R X :
  triple P m Q X -> (forall a, triple (Q a) (f a) R X) -> triple P (mbind m f) R X.
Proof.
  intros Hm Hf s Hs. specialize (Hm s Hs). unfold mbind.
  destruct (m s) as [[a|e|] s']; [by apply Hf|done|done].
Qed.

Lemma triple_conseq {A} (m : M E S A) P P' (Q Q' : A -> S -> Prop) (X X' : E -> S -> Prop) :
  triple P' m Q' X' -> (forall s, P s -> P' s) -> (forall a s, Q' a s -> Q a s) ->
  (forall e s, X' e s -> X e s) -> triple P m Q X.
Proof.
  intros Hm HP HQ HX s Hs. specialize (Hm s (HP s Hs)). destruct (m s) as [[]]; auto.
Qed.

Lemma triple_if {A} (b : bool) (m1 m2 : M E S A) P Q X :
  (b = true -> triple P m1 Q X) -> (b = false -> triple P m2 Q X) ->
  triple P (if b then m1 else m2) Q X.
Proof. destruct b; auto. Qed.

Lemma triple_weaken {A} (m : M E S A) P P' Q X :
  triple P' m Q X -> (forall s, P s -> P' s) -> triple P m Q X.
Proof. intros H HP s Hs. apply H, HP, Hs. Qed.

(** Two steps whose result is used together. *)
Lemma triple_regroup {A B} (m : M E S A) (n : M E S unit) (k : A -> M E S B) P Q R X :
  triple P (mbind m (fun a => mbind n (fun _ => mret a))) Q X -> (forall a, triple (Q a) (k a) R X) ->
  triple P (mbind m (fun a => mbind n (fun _ => k a))) R X.
Proof.
  intros Hm Hk s Hs. specialize (Hm s Hs). unfold mbind, mret in *.
  destruct (m s) as [[a|e|] s1]; [|done|done]. destruct (n s1) as [[u|e|] s2]; [|done|done].
  by apply Hk.
Qed.

(** A fact about the values in scope, out of the precondition. *)
Lemma triple_pure {A} (m : M E S A) (H : Prop) P Q X :
  (H -> triple P m Q X) -> triple (fun s => H /\ P s) m Q X.
Proof. intros Hm s [Hh Hs]. by apply Hm. Qed.
End triple.

(** ** Running *)

Section run.
Context {E S : Type}.

Lemma mbind_Ok {A B} (m : M E S A) (f : A -> M E S B) s a s' :
  m s = (Ok a, s') -> mbind m f s = f a s'.
Proof. unfold mbind. by intros ->. Qed.

Lemma mbind_Err {A B} (m : M E S A) (f : A -> M E S B) s e s' :
  m s = (Err e, s') -> mbind m f s = (Err e, s').
Proof. unfold mbind. by intros ->. Qed.

Lemma mbind_inv {A B} (m : M E S A) (f : A -> M E S B) s b s' :
  mbind m f s = (Ok b, s') -> exists a s1, m s = (Ok a, s1) /\ f a s1 = (Ok b, s').
Proof.
  unfold mbind. destruct (m s) as [[a|e|] s1]; intros H; [by exists a, s1|done|done].
Qed.

Lemma mbind_assoc {A B C} (m : M E S A) (f : A -> M E S B) (g : B -> M E S C) s :
  mbind (mbind m f) g s = mbind m (fun a => mbind (f a) g) s.
Proof. unfold mbind. by destruct (m s) as [[] ?]. Qed.
End run.

(** Take a successful run apart. *)
Ltac run_inv H :=
  repeat lazymatch type of H with
  | mbind _ _ _ = (Ok _, _) =>
      let x := fresh "x" in let s := fresh "s" in let Hx := fresh "Hx" in
      apply mbind_inv in H; destruct H as (x & s & Hx & H); cbv beta in H; run_inv Hx
  | lift ?m ?s = (Ok _, _) => unfold lift in H; apply pair_equal_spec in H; destruct H as [H ?]; subst
  | gets _ _ = (Ok _, _) => unfold gets in H; injection H as <- <-
  | modify _ _ = (Ok _, _) => unfold modify in H; injection H as <- <-
  | mret _ _ = (Ok _, _) => unfold mret in H; injection H as <- <-
  | fails _ _ = (Ok _, _) => discriminate H
  | (if decide ?P then _ else _) _ = (Ok _, _) => destruct (decide P); try discriminate H
  | (if ?c then _ else _) _ = (Ok _, _) =>
      let Hc := fresh "Hc" in destruct c eqn:Hc; try discriminate H
  | (let (_, _) := ?x in _) _ = (Ok _, _) =>
      let a := fresh "a" in let b := fresh "b" in destruct x as [a b]
  end.

#[global] Arguments mbind : simpl never.
#[global] Arguments lift : simpl never.
#[global] Arguments fails : simpl never.
#[global] Arguments gets : simpl never.
#[global] Arguments modify : simpl never.
#[global] Arguments mret : simpl never.

(** ** Two-state invariants

    [keeps R m]: however [m] returns, the state it leaves is related to the one it
    started from; [R] is reflexive and transitive. *)
Section keeps.
Context {E S : Type} (R : S -> S -> Prop) `{!PreOrder R}.

Definition keeps {A} (m : M E S A) : Prop := forall s, R s (snd (m s)).

Lemma keeps_ret {A} (a : A) : keeps (mret a).
Proof. intros s. cbn. reflexivity. Qed.

Lemma keeps_fails {A} (e : E) : keeps (@fails E S A e).
Proof. intros s. cbn. reflexivity. Qed.

Lemma keeps_gets {A} (f : S -> A) : keeps (gets f).
Proof. intros s. cbn. reflexivity. Qed.

Lemma keeps_with_state {A} (f : S -> outcome E A) : keeps (with_state f).
Proof. intros s. cbn. reflexivity. Qed.

Lemma keeps_bind {A B} (m : M E S A) (f : A -> M E S B) :
  keeps m -> (forall a, keeps (f a)) -> keeps (mbind m f).
Proof.
  intros Hm Hf s. specialize (Hm s). unfold mbind. destruct (m s) as [[a|e|] s']; cbn in *; [|done..].
  etrans; [exact Hm|apply Hf].
Qed.
End keeps.

(** A function of the state that never panics. *)
Section panics.
Context {E S : Type}.

Definition total {A} (m : M E S A) : Prop := forall s, fst (m s) <> Panic.

Lemma total_ret {A} (a : A) : total (mret a).
Proof. done. Qed.

Lemma total_fails {A} (e : E) : total (@fails E S A e).
Proof. done. Qed.

Lemma total_gets {A} (f : S -> A) : total (gets f).
Proof. done. Qed.

Lemma total_modify (f : S -> S) : total (@modify E S f).
Proof. done. Qed.

Lemma total_with_state {A} (f : S -> outcome E A) : (forall s, f s <> Panic) -> total (with_state f).
Proof. intros Hf s. apply Hf. Qed.

Lemma total_lift {A} (o : outcome E A) : o <> Panic -> total (@lift E S A o).
Proof. intros Ho s. exact Ho. Qed.

Lemma total_bind {A B} (m : M E S A) (f : A -> M E S B) :
  total m -> (forall a, total (f a)) -> total (mbind m f).
Proof.
  intros Hm Hf s. specialize (Hm s). unfold mbind. destruct (m s) as [[a|e|] s']; cbn in *; [apply Hf|done|done].
Qed.
End panics.

Create HintDb total discriminated.
#[export] Hint Resolve total_ret total_fails total_gets total_modify total_bind : total.
