(* ===== verification/Framing.v ===== *)
(** * Message framing

    [p2p-live/src/framing.rs]: length-prefixed frames over a byte stream.  A
    stream arrives in segments of the network's choosing; reading is refined to a
    specification on the bytes alone. *)

From Stdlib Require Import Strings.Byte.
From S2P Require Import Prelude LiveError StateM.

Definition MAX_FRAME_LEN : Z := 16 * 1024 * 1024.

(** ** Streams

    What is left to read: the segments in which it will arrive, then the end of
    the stream or an I/O error.  An empty segment cannot be told from the end. *)
Record stream := { segments : list bytes; broken : bool }.

(** [AsyncRead::read] into a buffer of [n] bytes; [Ok []] is the end. *)
Definition read {E} (e : E) (n : Z) : M E stream bytes := fun s =>
  match segments s with
  | [] => (if broken s then Err e else Ok [], s)
  | seg :: rest =>
      (Ok (ztake n seg),
       {| segments := if zlen seg <=? n then rest else zdrop n seg :: rest;
          broken := broken s |})
  end.

(** The bytes a sink has taken, and how many more it will take before it fails. *)
Record sink := { written : bytes; room : option Z }.

(** [AsyncWriteExt::write_all]. *)
Definition write_all {E} (e : E) (b : bytes) : M E sink unit := fun s =>
  match room s with
  | None => (Ok tt, {| written := written s ++ b; room := None |})
  | Some k =>
      if zlen b <=? k then (Ok tt, {| written := written s ++ b; room := Some (k - zlen b) |})
      else (Err e, {| written := written s ++ ztake k b; room := Some 0 |})
  end.

(** ** The code *)

(** [write_frame]. *)
Definition write_frame (msg : bytes) : M Error.t sink Z :=
  if MAX_FRAME_LEN <? zlen msg then fails (Error.Session "outbound frame too large") else
  let len := be_bytes 4 (zlen msg) in
  let! _ := write_all (Error.Session "write length") len in
  let! _ := write_all (Error.Session "write payload") msg in
  mret (zlen len + zlen msg).

(** The loop that fills the length prefix: [got] is what it has read so far. *)
Fixpoint read_len (fuel : nat) (got : bytes) : M Error.t stream (option bytes) :=
  match fuel with
  | O => lift Panic
  | S fuel =>
      if 4 <=? zlen got then mret (Some got) else
      let! b := read (Error.Session "read length") (4 - zlen got) in
      if zlen b =? 0 then
        if zlen got =? 0 then mret None
        else fails (Error.Session "stream ended part-way through a length prefix")
      else read_len fuel (got ++ b)
  end.

(** [AsyncReadExt::read_exact]: reads until [n] bytes are there; the end of the
    stream before that is an error. *)
Fixpoint read_exact (fuel : nat) (n : Z) (got : bytes) : M Error.t stream bytes :=
  match fuel with
  | O => lift Panic
  | S fuel =>
      if n <=? zlen got then mret got else
      let! b := read (Error.Session "read payload") (n - zlen got) in
      if zlen b =? 0 then fails (Error.Session "read payload")
      else read_exact fuel n (got ++ b)
  end.

(** [read_frame_opt].  Every turn of a loop reads a byte at least, so the number
    of bytes to read bounds its turns. *)
Definition read_frame_opt : M Error.t stream (option bytes) :=
  let! p := read_len 5 [] in
  match p with
  | None => mret None
  | Some len_buf =>
      let len := be_val len_buf in
      if MAX_FRAME_LEN <? len then fails (Error.Session "inbound frame too large") else
      let! buf := read_exact (S (Z.to_nat len)) len [] in
      mret (Some buf)
  end.

(** ** The specification: framing on bytes *)

Definition stream_bytes (s : stream) : bytes := concat (segments s).
Definition stream_wf (s : stream) : Prop := Forall (fun b => b <> []) (segments s).

(** What the next frame of [b] is, and the bytes after it; [ends] says the stream
    breaks after [b] instead of ending. *)
Definition frame_spec (ends_broken : bool) (b : bytes) : outcome unit (option bytes * bytes) :=
  if zlen b =? 0 then if ends_broken then Err tt else Ok (None, []) else
  if zlen b <? 4 then Err tt else
  let len := be_val (ztake 4 b) in
  if MAX_FRAME_LEN <? len then Err tt else
  if zlen b <? 4 + len then Err tt else
  Ok (Some (ztake len (zdrop 4 b)), zdrop (4 + len) b).

(** ** Lemmas *)

Lemma read_spec {E} (e : E) n s :
  stream_wf s -> 0 < n ->
  (segments s = [] /\ read e n s = (if broken s then Err e else Ok [], s)) \/
  exists b s', read e n s = (Ok b, s') /\ 0 < zlen b <= n /\ stream_wf s' /\
    broken s' = broken s /\ stream_bytes s = b ++ stream_bytes s' /\
    (stream_bytes s' = [] \/ zlen b <= n).
Proof.
  intros Hs Hn. destruct s as [[|seg rest] br]; [by left|right].
  apply Forall_cons_1 in Hs as [Hseg Hrest]. simpl in *.
  assert (0 < zlen seg).
  { destruct seg; [done|]. rewrite zlen_cons. pose proof (zlen_nonneg seg). lia. }
  unfold read, stream_bytes. cbn [segments broken].
  eexists _, _. split; [done|]. cbn [segments broken]. split; [zl|].
  destruct (zlen seg <=? n) eqn:Hc; bools.
  - rewrite ztake_all by lia. split_and!; try done. right. lia.
  - split_and!; try done.
    + apply Forall_cons_2; [|done]. intros Hd. apply (f_equal zlen) in Hd. zl.
    + simpl. by rewrite app_assoc, ztake_zdrop.
    + right. zl.
Qed.

(** Reading towards a target: the bytes read are the front of what was there. *)
Lemma read_exact_spec fuel n got s :
  stream_wf s -> 0 <= n -> zlen got <= n -> n - zlen got < Z.of_nat fuel ->
  (n - zlen got <= zlen (stream_bytes s) /\
   exists s', read_exact fuel n got s
     = (Ok (got ++ ztake (n - zlen got) (stream_bytes s)), s') /\
     stream_wf s' /\ broken s' = broken s /\
     stream_bytes s' = zdrop (n - zlen got) (stream_bytes s)) \/
  (zlen (stream_bytes s) < n - zlen got /\ exists e s', read_exact fuel n got s = (Err e, s')).
Proof.
  revert got s. induction fuel as [|fuel IH]; intros got s Hs Hn Hg Hf; [lia|].
  cbn [read_exact]. destruct (n <=? zlen got) eqn:Hc; bools.
  { left. split; [zl|]. replace (n - zlen got) with 0 by lia. rewrite ztake_0, app_nil_r.
    exists s. by split_and!. }
  destruct (read_spec (Error.Session "read payload") (n - zlen got) s Hs ltac:(lia))
    as [[Hnil Hr]|(b & s' & Hr & Hb & Hs' & Hbr & Hcat & _)].
  - right. unfold stream_bytes. rewrite Hnil. split; [by cbn; zl|].
    destruct (broken s); [erewrite mbind_Err by exact Hr|erewrite mbind_Ok by exact Hr]; by eauto.
  - erewrite mbind_Ok by exact Hr. zdec. rewrite Hcat, !zlen_app.
    destruct (IH (got ++ b) s') as [(Hle & s2 & Hr2 & Hw2 & Hb2 & Hc2)|(Hlt & e & s2 & Hr2)];
      [done|done|rewrite zlen_app; lia|rewrite zlen_app; lia| |].
    + rewrite zlen_app in *. left. split; [lia|]. exists s2. rewrite Hr2. split_and!; [|done|congruence|].
      * rewrite <- app_assoc, (ztake_app_ge _ b) by lia. by do 5 f_equal; lia.
      * rewrite Hc2, zdrop_app_ge by lia. f_equal. lia.
    + rewrite zlen_app in *. right. split; [lia|]. eauto.
Qed.

Lemma read_len_spec fuel got s :
  stream_wf s -> zlen got <= 4 -> 4 - zlen got < Z.of_nat fuel ->
  (4 - zlen got <= zlen (stream_bytes s) /\
   exists s', read_len fuel got s
     = (Ok (Some (got ++ ztake (4 - zlen got) (stream_bytes s))), s') /\
     stream_wf s' /\ broken s' = broken s /\
     stream_bytes s' = zdrop (4 - zlen got) (stream_bytes s)) \/
  (zlen (stream_bytes s) < 4 - zlen got /\
   if (zlen (stream_bytes s) =? 0) && (zlen got =? 0) && negb (broken s)
   then read_len fuel got s = (Ok None, s) else exists e s', read_len fuel got s = (Err e, s')).
Proof.
  revert got s. induction fuel as [|fuel IH]; intros got s Hs Hg Hf; [pose_zlens; lia|].
  cbn [read_len]. destruct (4 <=? zlen got) eqn:Hc; bools.
  { left. split; [zl|]. replace (4 - zlen got) with 0 by lia. rewrite ztake_0, app_nil_r.
    exists s. by split_and!. }
  destruct (read_spec (Error.Session "read length") (4 - zlen got) s Hs ltac:(lia))
    as [[Hnil Hr]|(b & s' & Hr & Hb & Hs' & Hbr & Hcat & _)].
  - right. unfold stream_bytes. rewrite Hnil. split; [by cbn; zl|]. cbn [concat].
    change (zlen (@nil byte) =? 0) with true. cbn [andb]. unfold mbind. rewrite Hr.
    destruct (broken s), (zlen got =? 0); cbn; by eauto.
  - erewrite mbind_Ok by exact Hr. pose proof (zlen_nonneg got). zdec.
    rewrite Hcat, !zlen_app. pose proof (zlen_nonneg (stream_bytes s')). zdec. cbn [andb].
    destruct (IH (got ++ b) s') as [(Hle & s2 & Hr2 & Hw2 & Hb2 & Hc2)|[Hlt Hr2]];
      [done|rewrite zlen_app; lia|rewrite zlen_app; lia| |].
    + rewrite zlen_app in *. left. split; [lia|]. exists s2. rewrite Hr2. split_and!; [|done|congruence|].
      * rewrite <- app_assoc, (ztake_app_ge _ b) by lia. by do 6 f_equal; lia.
      * rewrite Hc2, zdrop_app_ge by lia. f_equal. lia.
    + rewrite zlen_app in *. right. split; [lia|]. revert Hr2. zdec.
      by rewrite andb_false_r.
Qed.

(** [read_frame_opt] computes [frame_spec] of the bytes, however they arrive. *)
Lemma read_frame_refines s :
  stream_wf s ->
  match frame_spec (broken s) (stream_bytes s) with
  | Ok (m, rest) =>
      exists s', read_frame_opt s = (Ok m, s') /\ stream_wf s' /\ broken s' = broken s /\
        stream_bytes s' = rest
  | _ => exists e s', read_frame_opt s = (Err e, s')
  end.
Proof.
  intros Hs. unfold frame_spec, read_frame_opt.
  pose proof (zlen_nonneg (stream_bytes s)).
  destruct (read_len_spec 5 [] s Hs ltac:(done) ltac:(done))
    as [(Hle & s1 & Hr & Hw & Hb & Hcat)|[Hlt Hr]]; rewrite zlen_nil, ?Z.sub_0_r in *.
  - zdec. erewrite mbind_Ok by exact Hr. cbn [app].
    set (len := be_val (ztake 4 (stream_bytes s))).
    pose proof (be_val_range (ztake 4 (stream_bytes s))) as Hlen. fold len in Hlen.
    destruct (MAX_FRAME_LEN <? len) eqn:Hc; [by eauto|]. bools.
    destruct (read_exact_spec (S (Z.to_nat len)) len [] s1) as
      [(Hle2 & s2 & Hr2 & Hw2 & Hb2 & Hc2)|(Hlt2 & e & s2 & Hr2)];
      [done|lia|zl|zl| |]; rewrite zlen_nil, Z.sub_0_r in *.
    + replace (zlen (stream_bytes s) <? 4 + len) with false
        by (symmetry; apply Z.ltb_ge; rewrite Hcat in Hle2; zl).
      erewrite mbind_Ok by exact Hr2. eexists. split; [by rewrite Hcat|].
      split_and!; [done|congruence|]. rewrite Hc2, Hcat, zdrop_zdrop by lia. done.
    + replace (zlen (stream_bytes s) <? 4 + len) with true
        by (symmetry; apply Z.ltb_lt; rewrite Hcat in Hlt2; zl).
      erewrite mbind_Err by exact Hr2. by eauto.
  - cbn [andb] in Hr. change (0 =? 0) with true in Hr. rewrite andb_true_r in Hr.
    destruct (zlen (stream_bytes s) =? 0) eqn:Hz; cbn [andb] in Hr.
    + destruct (broken s) eqn:Hbr; cbn [negb] in Hr.
      * destruct Hr as (e & s' & Hr). erewrite mbind_Err by exact Hr. by eauto.
      * erewrite mbind_Ok by exact Hr. exists s. bools. split_and!; [done..|].
        by apply zlen_0_nil.
    + zdec. destruct Hr as (e & s' & Hr). erewrite mbind_Err by exact Hr. by eauto.
Qed.

(** The bytes of a sequence of messages. *)
Definition wire (msgs : list bytes) : bytes :=
  concat (map (fun m => be_bytes 4 (zlen m) ++ m) msgs).

(** Sending one message after another, and reading until the end or an error. *)
Fixpoint write_frames (msgs : list bytes) : M Error.t sink Z :=
  match msgs with
  | [] => mret 0
  | m :: msgs => let! n := write_frame m in let! k := write_frames msgs in mret (n + k)
  end.

Fixpoint drain (fuel : nat) (s : stream) : list bytes * outcome Error.t unit :=
  match fuel with
  | O => ([], Panic)
  | S fuel =>
      match read_frame_opt s with
      | (Ok (Some m), s') => let (l, o) := drain fuel s' in (m :: l, o)
      | (Ok None, _) => ([], Ok tt)
      | (Err e, _) => ([], Err e)
      | (Panic, _) => ([], Panic)
      end
  end.

Lemma write_frame_ok m s :
  zlen m <= MAX_FRAME_LEN -> room s = None ->
  write_frame m s = (Ok (4 + zlen m), {| written := written s ++ be_bytes 4 (zlen m) ++ m; room := None |}).
Proof.
  intros Hm Hr. unfold write_frame. zdec. unfold mbind, write_all. rewrite Hr. cbn.
  rewrite zlen_be_bytes. by rewrite app_assoc.
Qed.

Lemma write_frames_ok msgs s :
  Forall (fun m => zlen m <= MAX_FRAME_LEN) msgs -> room s = None ->
  write_frames msgs s = (Ok (zlen (wire msgs)), {| written := written s ++ wire msgs; room := None |}).
Proof.
  intros Hall. revert s. induction Hall as [|m msgs Hm _ IH]; intros s Hr; cbn [write_frames].
  { cbn. rewrite app_nil_r. destruct s; simpl in *. by subst. }
  erewrite mbind_Ok by by apply write_frame_ok. erewrite mbind_Ok by by apply IH.
  unfold mret, wire. cbn. rewrite !zlen_app, zlen_be_bytes, <- !app_assoc. done.
Qed.

Lemma frame_spec_first m rest b :
  zlen m <= MAX_FRAME_LEN ->
  frame_spec b (be_bytes 4 (zlen m) ++ m ++ rest) = Ok (Some m, rest).
Proof.
  intros Hm. unfold frame_spec, MAX_FRAME_LEN in *. pose proof (zlen_nonneg m).
  rewrite ztake_app_l, zdrop_app_l by (by rewrite zlen_be_bytes).
  rewrite be_val_small by lia. rewrite !zlen_app, zlen_be_bytes. pose proof (zlen_nonneg rest).
  zdec. rewrite ztake_app_l by done. do 3 f_equal.
  rewrite app_assoc. apply zdrop_app_l. zl.
Qed.

(** A proper front of a frame is an error, never a frame and never an end. *)
Lemma frame_spec_cut m p q b :
  zlen m <= MAX_FRAME_LEN -> be_bytes 4 (zlen m) ++ m = p ++ q -> p <> [] -> q <> [] ->
  frame_spec b p = Err tt.
Proof.
  intros Hm Hpq Hp Hq. unfold frame_spec, MAX_FRAME_LEN in *.
  assert (0 < zlen p) by (destruct p; [done|zl]). assert (0 < zlen q) by (destruct q; [done|zl]).
  pose proof (f_equal zlen Hpq) as Hl. rewrite !zlen_app, zlen_be_bytes in Hl.
  pose proof (zlen_nonneg m). zdec.
  destruct (zlen p <? 4) eqn:Hc; [done|]. bools.
  replace (ztake 4 p) with (be_bytes 4 (zlen m)).
  2: { rewrite <- (ztake_app_le 4 p q) by lia. rewrite <- Hpq, ztake_app_l; [done|].
       by rewrite zlen_be_bytes. }
  rewrite be_val_small by lia. by zdec.
Qed.

Lemma wire_cons m msgs : wire (m :: msgs) = be_bytes 4 (zlen m) ++ m ++ wire msgs.
Proof. unfold wire. cbn. by rewrite <- app_assoc. Qed.

Lemma app_split_cases {A} (a b p q : list A) :
  a ++ b = p ++ q -> (exists r, p = a ++ r /\ b = r ++ q) \/ (exists r, r <> [] /\ a = p ++ r /\ q = r ++ b).
Proof.
  revert p. induction a as [|x a IH]; intros p Hpq; simpl in *.
  { left. by exists p. }
  destruct p as [|y p]; simpl in *.
  { right. by exists (x :: a). }
  injection Hpq as -> Hpq. destruct (IH p Hpq) as [(r & -> & ->)|(r & ? & -> & ->)].
  - left. by exists r.
  - right. by exists r.
Qed.

Lemma drain_prefix msgs p q s :
  Forall (fun m => zlen m <= MAX_FRAME_LEN) msgs -> wire msgs = p ++ q ->
  stream_wf s -> broken s = false -> stream_bytes s = p ->
  exists k o, drain (S (length msgs)) s = (take k msgs, o) /\ o <> Panic /\
    (exists cut, p = wire (take k msgs) ++ cut /\ (o = Ok tt <-> cut = [])) /\
    (q = [] -> k = length msgs /\ o = Ok tt).
Proof.
  intros Hall. revert p q s. induction Hall as [|m msgs Hm _ IH]; intros p q s Hpq Hs Hbr Hp.
  - destruct p; [|done]. pose proof (read_frame_refines s Hs) as Hr. rewrite Hp, Hbr in Hr.
    cbn in Hr. destruct Hr as (s' & Hr & _). exists 0%nat, (Ok tt). cbn [drain]. rewrite Hr.
    split_and!; [done|done|by exists []|done].
  - rewrite wire_cons, app_assoc in Hpq.
    apply app_split_cases in Hpq as [(r & -> & Hq)|(r & Hr0 & Hcut & Hqr)].
    + pose proof (read_frame_refines s Hs) as Hr. rewrite Hp, <- app_assoc in Hr.
      rewrite frame_spec_first in Hr by done. destruct Hr as (s' & Hr & Hs' & Hbr' & Hb).
      destruct (IH r q s' Hq Hs' ltac:(congruence) Hb) as (k & o & Hd & Ho & (cut & Hc & Hiff) & Hend).
      exists (S k), o. cbn [length]. remember (S (length msgs)) as n. cbn [drain].
      rewrite Hr, Hd. split_and!; [done|done| |].
      * exists cut. split; [|done]. cbn [firstn]. rewrite wire_cons, Hc, <- !app_assoc. done.
      * intros Hq0. by destruct (Hend Hq0) as [-> ->].
    + pose proof (read_frame_refines s Hs) as Hr. rewrite Hp, Hbr in Hr.
      assert (Hq0 : q <> []) by (rewrite Hqr; by destruct r).
      destruct p as [|x p].
      * destruct Hr as (s' & Hr & _). exists 0%nat, (Ok tt). cbn [drain length]. rewrite Hr.
        split_and!; [done|done|by exists []|done].
      * rewrite (frame_spec_cut m _ r) in Hr by done. destruct Hr as (e & s' & Hr).
        exists 0%nat, (Err e). cbn [drain length]. rewrite Hr.
        split_and!; [done|done|by exists (x :: p)|done].
Qed.

(** ** Theorems *)

(** C10: Frames survive any segmentation and no truncation goes unnoticed.  Frames
    within the cap, written one after another, put exactly their prefixes and
    payloads on the wire.  A reader given those bytes cut off at any point, and
    split into segments in any way, gets exactly the frames that arrived whole,
    in order, and then a clean end if and only if the cut is at a frame boundary;
    cut inside a length prefix or a payload, it gets an error.  Given all the
    bytes it gets all the frames. *)
Theorem framing_delivers msgs p q s s0 :
  Forall (fun m => zlen m <= MAX_FRAME_LEN) msgs -> room s0 = None ->
  wire msgs = p ++ q -> stream_wf s -> broken s = false -> stream_bytes s = p ->
  write_frames msgs s0
    = (Ok (zlen (wire msgs)), {| written := written s0 ++ wire msgs; room := None |}) /\
  exists k o, drain (S (length msgs)) s = (take k msgs, o) /\ o <> Panic /\
    (exists cut, p = wire (take k msgs) ++ cut /\ (o = Ok tt <-> cut = [])) /\
    (q = [] -> k = length msgs /\ o = Ok tt).
Proof.
  intros Hall Hroom Hw Hs Hbr Hp. split; [by apply write_frames_ok|by eapply drain_prefix].
Qed.

(** One length prefix cannot make the reader allocate more than the cap: on
    any stream, read in any segments, a frame that is returned has at most
    [MAX_FRAME_LEN] bytes; a prefix naming more is refused whatever follows it;
    reading always terminates without a panic, and the writer refuses to send such
    a frame without putting a byte on the wire. *)
Theorem framing_cap s m :
  stream_wf s ->
  (forall b s', read_frame_opt s = (Ok (Some b), s') -> zlen b <= MAX_FRAME_LEN) /\
  (4 <= zlen (stream_bytes s) -> MAX_FRAME_LEN < be_val (ztake 4 (stream_bytes s)) ->
     exists e s', read_frame_opt s = (Err e, s')) /\
  fst (read_frame_opt s) <> Panic /\
  (forall s0, MAX_FRAME_LEN < zlen m ->
     write_frame m s0 = (Err (Error.Session "outbound frame too large"), s0)).
Proof.
  intros Hs. pose proof (read_frame_refines s Hs) as Hr. split_and!.
  - intros b s' Hb. rewrite Hb in Hr. unfold frame_spec in Hr.
    pose proof (be_val_range (ztake 4 (stream_bytes s))).
    repeat match type of Hr with context [if ?c then _ else _] => destruct c eqn:? end; bools;
      destruct Hr as (? & Hr); try (destruct Hr as (? & Hr)); simplify_eq; zl.
  - intros Hl Hbig. unfold frame_spec in Hr. revert Hr. zdec. done.
  - destruct (frame_spec _ _) as [[o rest]|e|].
    + destruct Hr as (s' & -> & _). done.
    + by destruct Hr as (e' & s' & ->).
    + by destruct Hr as (e' & s' & ->).
  - intros s0 Hm. unfold write_frame. by zdec.
Qed.

Lemma framing_delivers_witness :
  let msgs := [lit "hello"; []; lit "vault"] in
  let s := {| segments := [[Byte.x00]; [Byte.x00; Byte.x00]; [Byte.x05] ++ lit "hell"];
              broken := false |} in
  write_frames msgs {| written := []; room := None |}
    = (Ok (zlen (wire msgs)), {| written := wire msgs; room := None |}) /\
  exists k o, drain 4 s = (take k msgs, o) /\ o <> Panic /\
    (exists cut, stream_bytes s = wire (take k msgs) ++ cut /\ (o = Ok tt <-> cut = [])) /\
    (lit "o" ++ wire [[]; lit "vault"] = [] -> k = 3%nat /\ o = Ok tt).
Proof.
  intros msgs s. apply (framing_delivers msgs (stream_bytes s) (lit "o" ++ wire [[]; lit "vault"]) s
    {| written := []; room := None |}); try reflexivity; by repeat constructor; vm_compute.
Defined.

Lemma framing_cap_witness :
  let s := {| segments := [[Byte.xff]; [Byte.xff; Byte.xff; Byte.xff]]; broken := false |} in
  exists e s', read_frame_opt s = (Err e, s').
Proof.
  intros s. apply (framing_cap s []); [|done|done]. by repeat constructor; vm_compute.
Defined.

#[global] Arguments wire : simpl never.
