(* ===== verification/Session.v ===== *)
(** * Sessions

    [p2p-live/src/session.rs] and [tls.rs]: the message channel the protocols are
    written against, and its two implementations over framed byte streams with
    the intra-session key ratchet and the hello exchange. *)

From Stdlib Require Import Strings.Byte.
From S2P Require Import Prelude LiveError StateM Framing.

Definition DEFAULT_KEY_UPDATE_BYTES : Z := 256 * 1024 * 1024.
Definition ALPN : bytes := lit "atom-vault/live/1".

(** ** The interface *)

(** [trait SecureSession]: discrete messages, in order. *)
Class SecureSession (S : Type) := {
  session_send : bytes -> M Error.t S unit;
  session_recv : M Error.t S bytes;
}.

(** The specification of a session: the messages the peer will still deliver
    before the channel closes, and the messages sent so far. *)
Record Chan := { inbox : list bytes; outbox : list bytes }.

Definition closed_by_peer : Error.t := Error.Session "channel closed by peer".
Definition too_large : Error.t := Error.Session "outbound frame too large".

Definition chan_send (msg : bytes) : M Error.t Chan unit := fun c =>
  if MAX_FRAME_LEN <? zlen msg then (Err too_large, c)
  else (Ok tt, {| inbox := inbox c; outbox := outbox c ++ [msg] |}).

Definition chan_recv : M Error.t Chan bytes := fun c =>
  match inbox c with
  | [] => (Err closed_by_peer, c)
  | m :: rest => (Ok m, {| inbox := rest; outbox := outbox c |})
  end.

#[export] Instance Chan_session : SecureSession Chan :=
  {| session_send := chan_send; session_recv := chan_recv |}.

(** ** QUIC *)

(** The ratchet's counters, shared by both transports. *)
Record Ratchet := { key_update_bytes : Z; bytes_since_update : Z; key_updates : Z }.

Definition ratchet_new : Ratchet :=
  {| key_update_bytes := DEFAULT_KEY_UPDATE_BYTES; bytes_since_update := 0; key_updates := 0 |}.

Definition set_key_update_interval (n : Z) (r : Ratchet) : Ratchet :=
  {| key_update_bytes := Z.max n 1; bytes_since_update := bytes_since_update r;
     key_updates := key_updates r |}.

(** [QuicSession::account_sent]; the connection's key update is the increment. *)
Definition account_sent (n : Z) (r : Ratchet) : Ratchet :=
  let since := sat_add64 (bytes_since_update r) n in
  if key_update_bytes r <=? since
  then {| key_update_bytes := key_update_bytes r; bytes_since_update := 0;
          key_updates := wadd64 (key_updates r) 1 |}
  else {| key_update_bytes := key_update_bytes r; bytes_since_update := since;
          key_updates := key_updates r |}.

(** [QuicSession]: its two streams, the ratchet, and whether it has finished its
    send stream and closed the connection. *)
Record QuicSession := {
  q_send : sink;
  q_recv : stream;
  q_ratchet : Ratchet;
  q_finished : bool;
  q_closed : bool;
}.

Definition quic_new (k : sink) (s : stream) : QuicSession :=
  {| q_send := k; q_recv := s; q_ratchet := ratchet_new; q_finished := false; q_closed := false |}.

Definition on_send {A} (m : M Error.t sink A) : M Error.t QuicSession A := fun q =>
  let (r, k) := m (q_send q) in
  (r, {| q_send := k; q_recv := q_recv q; q_ratchet := q_ratchet q;
         q_finished := q_finished q; q_closed := q_closed q |}).

Definition on_recv {A} (m : M Error.t stream A) : M Error.t QuicSession A := fun q =>
  let (r, s) := m (q_recv q) in
  (r, {| q_send := q_send q; q_recv := s; q_ratchet := q_ratchet q;
         q_finished := q_finished q; q_closed := q_closed q |}).

Definition on_ratchet (f : Ratchet -> Ratchet) : M Error.t QuicSession unit :=
  modify (fun q => {| q_send := q_send q; q_recv := q_recv q; q_ratchet := f (q_ratchet q);
                      q_finished := q_finished q; q_closed := q_closed q |}).

(** [send_frame]. *)
Definition send_frame (msg : bytes) : M Error.t QuicSession unit :=
  let! n := on_send (write_frame msg) in
  on_ratchet (account_sent n).

(** [recv_frame_opt] and the trait's [recv]. *)
Definition recv_frame_opt : M Error.t QuicSession (option bytes) := on_recv read_frame_opt.

Definition quic_recv : M Error.t QuicSession bytes :=
  let! m := recv_frame_opt in
  lift (ok_or m closed_by_peer).

#[export] Instance Quic_session : SecureSession QuicSession :=
  {| session_send := send_frame; session_recv := quic_recv |}.

(** [expect_hello]. *)
Definition expect_hello : M Error.t QuicSession unit :=
  let! m := recv_frame_opt in
  let! hello := lift (ok_or m (Error.Session "peer closed before sending a hello")) in
  if decide (hello <> ALPN) then fails (Error.Session "peer sent an unexpected application hello")
  else mret tt.

(** [client_session] and [server_session], on the streams of a connection. *)
Definition client_session : M Error.t QuicSession unit :=
  let! _ := send_frame ALPN in expect_hello.

Definition server_session : M Error.t QuicSession unit :=
  let! _ := expect_hello in send_frame ALPN.

(** [close]: finish, drain the peer's frames to its end, then close. *)
Fixpoint drain_close (fuel : nat) (q : QuicSession) : QuicSession :=
  match fuel with
  | O => q
  | S fuel =>
      match recv_frame_opt q with
      | (Ok (Some _), q') => drain_close fuel q'
      | (_, q') => q'
      end
  end.

Definition quic_close (fuel : nat) (q : QuicSession) : QuicSession :=
  let q := {| q_send := q_send q; q_recv := q_recv q; q_ratchet := q_ratchet q;
              q_finished := true; q_closed := q_closed q |} in
  let q := drain_close fuel q in
  {| q_send := q_send q; q_recv := q_recv q; q_ratchet := q_ratchet q;
     q_finished := q_finished q; q_closed := true |}.

(** ** TLS over a byte stream *)

(** What a completed handshake reports, and [TlsSession::wrap]'s check of it. *)
Inductive Group := X25519MLKEM768 | OtherGroup.
Inductive ProtocolVersion := TLSv1_3 | OtherVersion.

#[export] Instance Group_eq_dec : EqDecision Group.
Proof. solve_decision. Defined.
#[export] Instance ProtocolVersion_eq_dec : EqDecision ProtocolVersion.
Proof. solve_decision. Defined.

Record Negotiated := {
  kx_group : option Group;
  version : option ProtocolVersion;
  alpn : option bytes;
}.

(** [refreshes] is how many more key updates the library will perform; [None] is
    no limit. *)
Record TlsSession := { t_send : sink; t_recv : stream; t_ratchet : Ratchet; refreshes : option nat }.

Definition wrap (n : Negotiated) (k : sink) (s : stream) (limit : option nat) : result TlsSession :=
  if decide (kx_group n <> Some X25519MLKEM768)
  then Err (Error.Connect "not the hybrid post-quantum group") else
  if decide (version n <> Some TLSv1_3) then Err (Error.Connect "not TLS 1.3") else
  if decide (alpn n <> Some ALPN) then Err (Error.Connect "peer negotiated ALPN, not this protocol") else
  Ok {| t_send := k; t_recv := s; t_ratchet := ratchet_new; refreshes := limit |}.

(** [TlsSession::account_sent]. *)
Definition tls_account_sent (n : Z) : M Error.t TlsSession unit := fun t =>
  let r := t_ratchet t in
  let since := sat_add64 (bytes_since_update r) n in
  let r1 := {| key_update_bytes := key_update_bytes r; bytes_since_update := since;
               key_updates := key_updates r |} in
  if since <? key_update_bytes r
  then (Ok tt, {| t_send := t_send t; t_recv := t_recv t; t_ratchet := r1; refreshes := refreshes t |})
  else match refreshes t with
  | Some O =>
      (Err (Error.Session "key update refused"),
       {| t_send := t_send t; t_recv := t_recv t; t_ratchet := r1; refreshes := refreshes t |})
  | l =>
      (Ok tt,
       {| t_send := t_send t; t_recv := t_recv t;
          t_ratchet := {| key_update_bytes := key_update_bytes r; bytes_since_update := 0;
                          key_updates := wadd64 (key_updates r) 1 |};
          refreshes := option_map pred l |})
  end.

Section tls.
(** Whether flushing a sink fails. *)
Variable flush_fails : sink -> bool.

Definition tls_send (msg : bytes) : M Error.t TlsSession unit := fun t =>
  match write_frame msg (t_send t) with
  | (Ok n, k) =>
      let t := {| t_send := k; t_recv := t_recv t; t_ratchet := t_ratchet t; refreshes := refreshes t |} in
      if flush_fails k then (Err (Error.Session "flush"), t) else tls_account_sent n t
  | (Err e, k) =>
      (Err e, {| t_send := k; t_recv := t_recv t; t_ratchet := t_ratchet t; refreshes := refreshes t |})
  | (Panic, k) =>
      (Panic, {| t_send := k; t_recv := t_recv t; t_ratchet := t_ratchet t; refreshes := refreshes t |})
  end.

Definition tls_read : M Error.t TlsSession (option bytes) := fun t =>
  let (r, s) := read_frame_opt (t_recv t) in
  (r, {| t_send := t_send t; t_recv := s; t_ratchet := t_ratchet t; refreshes := refreshes t |}).

Definition tls_recv : M Error.t TlsSession bytes :=
  let! m := tls_read in lift (ok_or m closed_by_peer).

#[export] Instance Tls_session : SecureSession TlsSession :=
  {| session_send := tls_send; session_recv := tls_recv |}.

Definition tls_expect_hello : M Error.t TlsSession unit :=
  let! m := tls_read in
  let! hello := lift (ok_or m (Error.Session "peer closed before sending a hello")) in
  if decide (hello <> ALPN) then fails (Error.Session "peer sent an unexpected application hello")
  else mret tt.
End tls.

(** ** Lemmas *)

Lemma wire_app a b : wire (a ++ b) = wire a ++ wire b.
Proof. unfold wire. by rewrite map_app, concat_app. Qed.

Lemma wire_singleton m : wire [m] = be_bytes 4 (zlen m) ++ m.
Proof. unfold wire. cbn. by rewrite app_nil_r. Qed.

Lemma zlen_ALPN : zlen ALPN <= MAX_FRAME_LEN.
Proof. by vm_compute. Qed.

(** A QUIC session stands for a channel when its receive stream carries the
    channel's inbox, and its send stream the outbox. *)
Definition quic_sim (q : QuicSession) (c : Chan) : Prop :=
  broken (q_recv q) = false /\ stream_wf (q_recv q) /\ stream_bytes (q_recv q) = wire (inbox c) /\
  Forall (fun m => zlen m <= MAX_FRAME_LEN) (inbox c) /\
  room (q_send q) = None /\ written (q_send q) = wire (outbox c).

Lemma sim_send q c m :
  quic_sim q c ->
  fst (send_frame m q) = fst (chan_send m c) /\ quic_sim (snd (send_frame m q)) (snd (chan_send m c)).
Proof.
  intros (Hb & Hw & Hs & Hi & Hr & Ho). unfold chan_send, send_frame, on_send, mbind.
  destruct (MAX_FRAME_LEN <? zlen m) eqn:Hc; bools.
  - assert (Hf : write_frame m (q_send q) = (Err too_large, q_send q)).
    { unfold write_frame. by zdec. }
    rewrite Hf. split; [done|]. by split_and!.
  - rewrite write_frame_ok by done. split; [done|]. cbn. split_and!; try done. cbn.
    by rewrite wire_app, wire_singleton, Ho.
Qed.

Lemma sim_recv_opt q c :
  quic_sim q c ->
  match inbox c with
  | [] => exists q', recv_frame_opt q = (Ok None, q') /\ quic_sim q' c /\
            written (q_send q') = written (q_send q)
  | m :: rest => exists q', recv_frame_opt q = (Ok (Some m), q') /\
            quic_sim q' {| inbox := rest; outbox := outbox c |} /\
            written (q_send q') = written (q_send q)
  end.
Proof.
  intros (Hb & Hw & Hs & Hi & Hr & Ho). unfold recv_frame_opt, on_recv.
  pose proof (read_frame_refines _ Hw) as Href. rewrite Hb, Hs in Href.
  destruct (inbox c) as [|m rest] eqn:Hin.
  - cbn in Href. destruct Href as (s' & -> & Hw' & Hb' & Hs').
    eexists. split; [done|]. split; [|done]. unfold quic_sim. cbn. rewrite Hin. by split_and!.
  - inversion Hi as [|? ? Hm Hrest]; subst. rewrite wire_cons, frame_spec_first in Href by done.
    destruct Href as (s' & -> & Hw' & Hb' & Hs').
    eexists. split; [done|]. split; [|done]. unfold quic_sim. cbn. by split_and!.
Qed.

Lemma sim_recv q c :
  quic_sim q c ->
  fst (quic_recv q) = fst (chan_recv c) /\ quic_sim (snd (quic_recv q)) (snd (chan_recv c)).
Proof.
  intros Hsim. pose proof (sim_recv_opt q c Hsim) as Hr. unfold quic_recv, chan_recv, mbind.
  destruct (inbox c) as [|m rest]; destruct Hr as (q' & -> & Hs & _); by split.
Qed.

Lemma sim_hello q c :
  quic_sim q c ->
  match inbox c with
  | m :: rest =>
      if decide (m = ALPN)
      then exists q', expect_hello q = (Ok tt, q') /\ quic_sim q' {| inbox := rest; outbox := outbox c |}
      else exists e q', expect_hello q = (Err e, q') /\ written (q_send q') = written (q_send q)
  | [] => exists e q', expect_hello q = (Err e, q') /\ written (q_send q') = written (q_send q)
  end.
Proof.
  intros Hsim. pose proof (sim_recv_opt q c Hsim) as Hr. unfold expect_hello, mbind.
  destruct (inbox c) as [|m rest]; destruct Hr as (q' & -> & Hs & Hwr); cbn [lift ok_or].
  - unfold lift. by eauto.
  - unfold lift. destruct (decide (m = ALPN)) as [->|Hm].
    + rewrite decide_False by (intros Hn; by apply Hn). unfold mret. by eauto.
    + rewrite decide_True by done. unfold fails. by eauto.
Qed.

(** Programs over a session, as the sequence of their calls. *)
Inductive session_op := OpSend (m : bytes) | OpRecv.

Definition run_op {S} `{SecureSession S} (o : session_op) (s : S) : outcome Error.t (option bytes) * S :=
  match o with
  | OpSend m => let (r, s) := session_send m s in (let? _ := r in Ok None, s)
  | OpRecv => let (r, s) := session_recv s in (let? m := r in Ok (Some m), s)
  end.

Fixpoint run_ops {S} `{SecureSession S} (l : list session_op) (s : S)
    : list (outcome Error.t (option bytes)) * S :=
  match l with
  | [] => ([], s)
  | o :: l => let (r, s) := run_op o s in let (rs, s) := run_ops l s in (r :: rs, s)
  end.

(** The bytes a list of frames puts under the ratchet. *)
Definition total_sent (l : list Z) : Z := foldr Z.add 0 l.

Definition account_all (l : list Z) (r : Ratchet) : Ratchet :=
  foldl (fun r n => account_sent n r) r l.

Lemma account_sent_cases n r :
  account_sent n r =
  if decide (key_update_bytes r <= sat_add64 (bytes_since_update r) n)
  then {| key_update_bytes := key_update_bytes r; bytes_since_update := 0;
          key_updates := wadd64 (key_updates r) 1 |}
  else {| key_update_bytes := key_update_bytes r;
          bytes_since_update := sat_add64 (bytes_since_update r) n;
          key_updates := key_updates r |}.
Proof. unfold account_sent. by case_decide; zdec. Qed.

Lemma account_all_spec mx l r :
  0 <= bytes_since_update r < key_update_bytes r -> key_update_bytes r <= u64_max ->
  Forall (fun n => 0 <= n <= mx) l ->
  0 <= key_updates r -> key_updates r + zlen l < 2 ^ 64 ->
  let r' := account_all l r in
  let u := key_updates r' - key_updates r in
  key_update_bytes r' = key_update_bytes r /\
  0 <= bytes_since_update r' < key_update_bytes r /\ 0 <= u <= zlen l /\
  u * key_update_bytes r <= bytes_since_update r + total_sent l - bytes_since_update r' /\
  bytes_since_update r + total_sent l - bytes_since_update r' <= u * (key_update_bytes r - 1 + mx).
Proof.
  intros Hs Hk Hl. revert r Hs Hk. induction Hl as [|n l Hn _ IH]; intros r Hs Hk Hu Hw.
  { cbn zeta. unfold account_all, total_sent. cbn [foldl foldr]. rewrite zlen_nil in *.
    replace (key_updates r - key_updates r) with 0 by lia. split_and!; (apply zlen_nonneg || lia). }
  cbn zeta. unfold account_all. cbn [foldl]. fold (account_all l (account_sent n r)).
  rewrite zlen_cons in *. pose proof (zlen_nonneg l). cbn [total_sent foldr].
  fold (total_sent l).
  pose proof (account_sent_cases n r) as Hr. revert Hr. generalize (account_sent n r) as r1.
  intros r1. unfold sat_add64. case_decide as Hc; intros ->.
  - destruct (IH {| key_update_bytes := key_update_bytes r; bytes_since_update := 0;
                    key_updates := wadd64 (key_updates r) 1 |}) as (H1 & H2 & H3 & H4 & H5);
      unfold wadd64 in *; rewrite ?(Z.mod_small (key_updates r + 1)) in * by lia;
      cbn [key_update_bytes bytes_since_update key_updates] in *; lia.
  - destruct (IH {| key_update_bytes := key_update_bytes r;
                    bytes_since_update := Z.min u64_max (bytes_since_update r + n);
                    key_updates := key_updates r |}) as (H1 & H2 & H3 & H4 & H5);
      cbn [key_update_bytes bytes_since_update key_updates] in *; lia.
Qed.

(** ** Theorems *)

(** C13: A QUIC session is a reliable message channel.  Whatever sequence of sends
    and receives a protocol makes, and whatever segments the network delivers the
    bytes in, every call returns exactly what it returns on the abstract channel
    (messages in order and unaltered, oversized ones refused, the channel's end
    reported as such), and the bytes on the wire are the frames of the messages
    sent.  This is what lets the protocols be verified against [Chan]. *)
Theorem quic_refines_chan l q c :
  quic_sim q c ->
  fst (run_ops l q) = fst (run_ops l c) /\ quic_sim (snd (run_ops l q)) (snd (run_ops l c)).
Proof.
  revert q c. induction l as [|o l IH]; intros q c Hsim; [by split|]. cbn [run_ops].
  assert (Ho : fst (run_op o q) = fst (run_op o c) /\ quic_sim (snd (run_op o q)) (snd (run_op o c))).
  { destruct o as [m|]; cbn [run_op session_send session_recv Quic_session Chan_session].
    - destruct (sim_send q c m Hsim) as [Hr Hs].
      destruct (send_frame m q), (chan_send m c). simpl in *. by rewrite Hr.
    - destruct (sim_recv q c Hsim) as [Hr Hs].
      destruct (quic_recv q), (chan_recv c). simpl in *. by rewrite Hr. }
  destruct (run_op o q) as [r1 q1], (run_op o c) as [r2 c1]. simpl in Ho. destruct Ho as [-> Hs].
  destruct (IH q1 c1 Hs) as [Hr Hs'].
  destruct (run_ops l q1) as [rs1 q2], (run_ops l c1) as [rs2 c2]. simpl in *. by rewrite Hr.
Qed.

(** The ratchet bounds what one key protects.  Over any run of sent frames,
    each at most [mx] bytes on the wire, the number of forced key updates is
    determined by the bytes to within one frame: no epoch is shorter than the
    interval, none is longer than the interval plus one frame, and what the
    current key has protected stays below the interval. *)
Theorem ratchet_bounds_epochs mx l r :
  0 <= bytes_since_update r < key_update_bytes r -> key_update_bytes r <= u64_max ->
  Forall (fun n => 0 <= n <= mx) l ->
  0 <= key_updates r -> key_updates r + zlen l < 2 ^ 64 ->
  let r' := account_all l r in
  let updates := key_updates r' - key_updates r in
  0 <= bytes_since_update r' < key_update_bytes r' /\
  updates * key_update_bytes r <= bytes_since_update r + total_sent l - bytes_since_update r'
    <= updates * (key_update_bytes r - 1 + mx).
Proof.
  intros Hs Hk Hl Hu Hw. destruct (account_all_spec mx l r Hs Hk Hl Hu Hw) as (H1 & H2 & H3 & H4 & H5).
  cbn zeta. rewrite H1. split_and!; lia.
Qed.

(** A returned session is one both sides accepted.  The dialer returns only
    after it has read the peer's hello, and the listener answers only after it has
    read the dialer's: with the hello in the inbox both succeed and have sent
    exactly their own hello; with anything else, or a closed channel, the
    establishment fails and the listener has written nothing. *)
Theorem hello_round_trip q c :
  quic_sim q c ->
  match inbox c with
  | m :: rest =>
      if decide (m = ALPN) then
        (exists q', client_session q = (Ok tt, q') /\
           quic_sim q' {| inbox := rest; outbox := outbox c ++ [ALPN] |}) /\
        (exists q', server_session q = (Ok tt, q') /\
           quic_sim q' {| inbox := rest; outbox := outbox c ++ [ALPN] |})
      else (exists e q', client_session q = (Err e, q')) /\
           (exists e q', server_session q = (Err e, q') /\
              written (q_send q') = written (q_send q))
  | [] => (exists e q', client_session q = (Err e, q')) /\
          (exists e q', server_session q = (Err e, q') /\ written (q_send q') = written (q_send q))
  end.
Proof.
  intros Hsim.
  assert (Hsend : forall q c, quic_sim q c -> exists q', send_frame ALPN q = (Ok tt, q') /\
            quic_sim q' {| inbox := inbox c; outbox := outbox c ++ [ALPN] |}).
  { intros q0 c0 H0. destruct (sim_send q0 c0 ALPN H0) as [Hr Hs].
    unfold chan_send in Hr, Hs. pose proof zlen_ALPN.
    replace (MAX_FRAME_LEN <? zlen ALPN) with false in Hr, Hs by (symmetry; apply Z.ltb_ge; lia).
    destruct (send_frame ALPN q0) as [r q']. simpl in Hr, Hs. subst. by exists q'. }
  destruct (Hsend q c Hsim) as (q1 & H1 & Hsim1).
  pose proof (sim_hello q1 _ Hsim1) as Hc. pose proof (sim_hello q c Hsim) as Hs. simpl in Hc.
  unfold client_session, server_session.
  destruct (inbox c) as [|m rest].
  - destruct Hc as (e & q2 & Hc & _), Hs as (e' & q3 & Hs & Hw). split.
    + erewrite mbind_Ok by exact H1. by eauto.
    + erewrite mbind_Err by exact Hs. by eauto.
  - case_decide as Hm.
    + destruct Hc as (q2 & Hc & Hq2), Hs as (q3 & Hs & Hq3). split.
      * erewrite mbind_Ok by exact H1. by eauto.
      * erewrite mbind_Ok by exact Hs. by apply (Hsend q3 {| inbox := rest; outbox := outbox c |}).
    + destruct Hc as (e & q2 & Hc & _), Hs as (e' & q3 & Hs & Hw). split.
      * erewrite mbind_Ok by exact H1. by eauto.
      * erewrite mbind_Err by exact Hs. by eauto.
Qed.

(** *** Examples *)

Definition example_quic : QuicSession :=
  quic_new {| written := []; room := None |}
    {| segments := [[Byte.x00; Byte.x00]; [Byte.x00; Byte.x11] ++ ALPN]; broken := false |}.

Lemma example_quic_sim : quic_sim example_quic {| inbox := [ALPN]; outbox := [] |}.
Proof. split_and!; try done; repeat constructor; by vm_compute. Qed.

Lemma quic_refines_chan_witness :
  fst (run_ops [OpRecv; OpSend (lit "x"); OpRecv] example_quic)
  = [Ok (Some ALPN); Ok None; Err closed_by_peer].
Proof.
  transitivity (fst (run_ops [OpRecv; OpSend (lit "x"); OpRecv] {| inbox := [ALPN]; outbox := [] |})).
  - apply quic_refines_chan, example_quic_sim.
  - by vm_compute.
Defined.

Lemma ratchet_bounds_epochs_witness :
  let r := set_key_update_interval 100 ratchet_new in
  let r' := account_all [60; 60; 60; 60] r in
  0 <= bytes_since_update r' < key_update_bytes r' /\
  (key_updates r' - key_updates r) * 100 <= 0 + 240 - bytes_since_update r'
    <= (key_updates r' - key_updates r) * (100 - 1 + 60).
Proof.
  intros r r'. apply (ratchet_bounds_epochs 60 [60; 60; 60; 60] r); try (by vm_compute; split).
  - by vm_compute.
  - repeat constructor; by vm_compute.
  - by vm_compute.
Defined.

Lemma hello_round_trip_witness :
  (exists q', client_session example_quic = (Ok tt, q') /\
     quic_sim q' {| inbox := []; outbox := [] ++ [ALPN] |}) /\
  (exists q', server_session example_quic = (Ok tt, q') /\
     quic_sim q' {| inbox := []; outbox := [] ++ [ALPN] |}).
Proof. exact (hello_round_trip example_quic {| inbox := [ALPN]; outbox := [] |} example_quic_sim). Defined.
