(* ===== verification/Pacing.v ===== *)
(** * Traffic shaping

    [p2p-live/src/pacing.rs]: the quantised frame count, the rejection-sampled
    tail, and the scheduler that releases one frame per slot.  Instants and
    durations are nanoseconds. *)

From Stdlib Require Import Strings.Byte.
From S2P Require Import Prelude LiveError.

Definition DEFAULT_RATE_BYTES_PER_SEC : Z := 4 * 1024 * 1024.
Definition DEFAULT_MIN_FRAMES : Z := 16.
Definition DEFAULT_JITTER_FRAMES : Z := 64.

Inductive Ladder :=
| PowerOfTwo
| Multiple (n : Z)
| NoLadder.

#[export] Instance Ladder_eq_dec : EqDecision Ladder.
Proof. solve_decision. Defined.

Record Pacing := {
  rate_bytes_per_sec : option Z;
  ladder : Ladder;
  min_frames : Z;
  jitter_frames : Z;
}.

Definition pacing_default : Pacing :=
  {| rate_bytes_per_sec := Some DEFAULT_RATE_BYTES_PER_SEC; ladder := PowerOfTwo;
     min_frames := DEFAULT_MIN_FRAMES; jitter_frames := DEFAULT_JITTER_FRAMES |}.

Definition disabled : Pacing :=
  {| rate_bytes_per_sec := None; ladder := NoLadder; min_frames := 0; jitter_frames := 0 |}.

Definition at_rate (p : Pacing) (bytes_per_sec : Z) : Pacing :=
  {| rate_bytes_per_sec := Some (Z.max bytes_per_sec 1); ladder := ladder p;
     min_frames := min_frames p; jitter_frames := jitter_frames p |}.

Definition with_ladder (p : Pacing) (l : Ladder) : Pacing :=
  {| rate_bytes_per_sec := rate_bytes_per_sec p; ladder := l;
     min_frames := min_frames p; jitter_frames := jitter_frames p |}.

Definition with_bounds (p : Pacing) (min_frames jitter_frames : Z) : Pacing :=
  {| rate_bytes_per_sec := rate_bytes_per_sec p; ladder := ladder p;
     min_frames := min_frames; jitter_frames := jitter_frames |}.

Definition is_shaped (p : Pacing) : bool :=
  bool_decide (is_Some (rate_bytes_per_sec p)) || bool_decide (ladder p <> NoLadder)
  || (0 <? min_frames p) || (0 <? jitter_frames p).

(** ** Integer helpers of the standard library *)

(** [u64::checked_next_power_of_two]. *)
Definition next_power_of_two (n : Z) : option Z :=
  let p := if n <=? 1 then 1 else 2 ^ Z.log2_up n in
  if p <=? u64_max then Some p else None.

(** [u64::div_ceil], for a positive divisor. *)
Definition div_ceil (a b : Z) : Z := if a mod b =? 0 then a / b else a / b + 1.

Definition checked_mul64 (a b : Z) : option Z :=
  if a * b <=? u64_max then Some (a * b) else None.

(** ** The frame count *)

(** [random_below]: the loop runs until a draw falls in the zone; [fuel] bounds
    its turns. *)
Fixpoint random_loop (fuel : nat) (bound zone : Z) (r : rng) : result (Z * rng) :=
  match fuel with
  | O => Panic
  | S fuel =>
      let? (buf, r) := getrandom_fill 8
        (Error.Transfer "OS random number generator unavailable") r in
      let v := be_val buf in
      if v <? zone then Ok (v mod bound, r) else random_loop fuel bound zone r
  end.

Definition zone_of (bound : Z) : Z := u64_max - u64_max mod bound.

Definition random_below (fuel : nat) (bound : Z) (r : rng) : result (Z * rng) :=
  if bound <=? 1 then Ok (0, r) else random_loop fuel bound (zone_of bound) r.

(** The first step of [Pacing::plan]. *)
Definition quantised (l : Ladder) (real_frames : Z) : Z :=
  match l with
  | PowerOfTwo => default real_frames (next_power_of_two real_frames)
  | Multiple n =>
      if 0 <? n then default real_frames (checked_mul64 (div_ceil real_frames n) n)
      else real_frames
  | NoLadder => real_frames
  end.

(** [Pacing::plan]; [jitter_frames + 1] wraps in a release build. *)
Definition plan (fuel : nat) (p : Pacing) (real_frames : Z) (r : rng) : result (Z * rng) :=
  let floored := Z.max (quantised (ladder p) real_frames) (min_frames p) in
  let? (jitter, r) :=
    (if 0 <? jitter_frames p then random_below fuel (wadd64 (jitter_frames p) 1) r
     else Ok (0, r)) in
  Ok (Z.max (sat_add64 floored jitter) real_frames, r).

(** ** The scheduler *)

Record Pacer := { interval : option Z; next : Z }.

(** [Pacing::pacer]; the product is a [u128] and cannot saturate. *)
Definition pacer (p : Pacing) (now frame_len : Z) : Pacer :=
  {| interval := option_map (fun rate =>
       let nanos := if rate =? 0 then 0 else frame_len * 1000000000 / rate in
       Z.min nanos u64_max) (rate_bytes_per_sec p);
     next := now |}.

(** [Pacer::tick] at [now]; a sleeper wakes at [wake], no earlier than asked.  It
    returns the instant at which the frame may leave. *)
Definition tick (now wake : Z) (p : Pacer) : Z * Pacer :=
  match interval p with
  | None => (now, p)
  | Some i =>
      if now <? next p then (Z.max wake (next p), {| interval := interval p; next := next p + i |})
      else (now, {| interval := interval p; next := now + i |})
  end.

(** A run of ticks: [(now, wake)] of each, and the instants of the frames. *)
Fixpoint ticks (l : list (Z * Z)) (p : Pacer) : list Z :=
  match l with
  | [] => []
  | (now, wake) :: l => let (at_, p) := tick now wake p in at_ :: ticks l p
  end.

(** ** Lemmas *)

Lemma next_power_of_two_spec n p :
  0 <= n -> next_power_of_two n = Some p ->
  n <= p /\ p < 2 * Z.max n 1 /\ exists k, 0 <= k /\ p = 2 ^ k.
Proof.
  intros Hn. unfold next_power_of_two. destruct (n <=? 1) eqn:Hc; bools.
  - intros [= <-]. split_and!; [lia|lia|]. by exists 0.
  - destruct (_ <=? u64_max); [|done]. intros [= <-].
    pose proof (Z.log2_up_spec n ltac:(lia)) as [H1 H2].
    assert (0 < Z.log2_up n) by (apply Z.log2_up_pos; lia).
    split_and!; [lia| |by exists (Z.log2_up n); split; [lia|]].
    replace (Z.log2_up n) with (Z.pred (Z.log2_up n) + 1) by lia.
    rewrite Z.pow_add_r by lia. lia.
Qed.

Lemma div_ceil_spec a b : 0 <= a -> 0 < b -> a <= div_ceil a b * b < a + b /\ 0 <= div_ceil a b.
Proof.
  intros Ha Hb. unfold div_ceil. pose proof (Z.div_mod a b ltac:(lia)).
  pose proof (Z.mod_pos_bound a b Hb). pose proof (Z.div_pos a b Ha Hb).
  destruct (a mod b =? 0) eqn:Hc; bools; nia.
Qed.

Lemma quantised_ge l n : 0 <= n -> n <= quantised l n.
Proof.
  intros Hn. unfold quantised. destruct l as [|m|]; [| |lia].
  - destruct (next_power_of_two n) eqn:Hp; simpl; [|lia].
    by apply next_power_of_two_spec in Hp as [? _].
  - destruct (0 <? m) eqn:Hc; [|lia]. bools. unfold checked_mul64.
    destruct (_ <=? u64_max); simpl; [|lia]. by destruct (div_ceil_spec n m) as [[? _] _]; lia.
Qed.

Lemma quantised_le_u64 l n : 0 <= n <= u64_max -> quantised l n <= u64_max.
Proof.
  intros Hn. unfold quantised, next_power_of_two, checked_mul64.
  destruct l as [|m|]; [| |lia].
  - destruct (_ <=? u64_max) eqn:Hc; simpl; [|lia]. by bools.
  - destruct (0 <? m); [|lia]. destruct (_ <=? u64_max) eqn:Hc; simpl; [|lia]. by bools.
Qed.

Lemma zone_spec bound :
  1 < bound <= u64_max -> zone_of bound mod bound = 0 /\ 0 < zone_of bound <= u64_max /\
    u64_max < 2 * zone_of bound.
Proof.
  intros Hb. unfold zone_of. pose proof (Z.mod_pos_bound u64_max bound ltac:(lia)).
  pose proof (Z.div_mod u64_max bound ltac:(lia)) as Hd.
  assert (1 <= u64_max / bound) by (apply Z.div_le_lower_bound; lia).
  replace (u64_max - u64_max mod bound) with (u64_max / bound * bound) by lia.
  split_and!; [by rewrite Z.mod_mul by lia|nia|nia|nia].
Qed.

(** The word the [i]-th draw reads. *)
Definition word (r : rng) (i : nat) : option Z := be_val <$> rng_draw 8 (rng_skip (8 * i) r).

Lemma rng_skip_skip a b r : rng_skip a (rng_skip b r) = rng_skip (a + b) r.
Proof. unfold rng_skip. simpl. f_equal. lia. Qed.

Lemma word_skip r i : word (rng_skip 8 r) i = word r (S i).
Proof. unfold word. rewrite rng_skip_skip. do 3 f_equal. lia. Qed.

(** The draw that decides is the first one in the zone. *)
Lemma random_loop_spec fuel bound zone r k v :
  (k < fuel)%nat -> word r k = Some v -> v < zone ->
  (forall i, (i < k)%nat -> exists w, word r i = Some w /\ zone <= w) ->
  random_loop fuel bound zone r = Ok (v mod bound, rng_skip (8 * S k) r).
Proof.
  revert r k. induction fuel as [|fuel IH]; intros r k Hf Hv Hz Hbelow; [lia|].
  cbn [random_loop]. unfold getrandom_fill. change (Z.to_nat 8) with 8%nat.
  assert (Hw : forall i, word r i = Some v \/ (exists w, word r i = Some w /\ zone <= w) ->
    is_Some (rng_draw 8 (rng_skip (8 * i) r))).
  { intros i Hi. unfold word in Hi. destruct (rng_draw 8 _); [done|]. by destruct Hi as [?|(? & ? & _)]. }
  assert (H0 : rng_skip (8 * 0) r = r) by (by destruct r; unfold rng_skip; simpl; rewrite Nat.add_0_r).
  destruct k as [|k].
  - unfold word in Hv. rewrite H0 in Hv. destruct (rng_draw 8 r) as [b|]; [|done].
    injection Hv as <-. cbn [obind]. by zdec.
  - destruct (Hbelow 0%nat ltac:(lia)) as (w & Hw0 & Hwz). unfold word in Hw0. rewrite H0 in Hw0.
    destruct (rng_draw 8 r) as [b|]; [|done]. injection Hw0 as <-. cbn [obind]. zdec.
    rewrite (IH (rng_skip 8 r) k); [|lia|by rewrite word_skip|done|].
    + rewrite rng_skip_skip. do 3 f_equal. lia.
    + intros i Hi. rewrite word_skip. apply Hbelow. lia.
Qed.

Lemma random_loop_range fuel bound zone r v r' :
  0 < bound -> random_loop fuel bound zone r = Ok (v, r') -> 0 <= v < bound.
Proof.
  intros Hb. revert r. induction fuel as [|fuel IH]; intros r; cbn [random_loop]; [done|].
  intros H. ok_inv H; [|by eapply IH]. simplify_eq. by apply Z.mod_pos_bound.
Qed.

Lemma random_below_range fuel bound r v r' :
  0 <= bound -> random_below fuel bound r = Ok (v, r') -> 0 <= v < Z.max bound 1.
Proof.
  unfold random_below. intros Hb H. destruct (bound <=? 1) eqn:Hc; bools.
  - injection H as <- <-. lia.
  - apply random_loop_range in H; lia.
Qed.

(** The tail [plan] draws. *)
Lemma jitter_range fuel j r a r' :
  is_u64 j ->
  (if 0 <? j then random_below fuel (wadd64 j 1) r else Ok (0, r)) = Ok (a, r') -> 0 <= a <= j.
Proof.
  unfold is_u64, wadd64. intros Hj Hx. destruct (0 <? j) eqn:Hc; bools; [|injection Hx as <- _; lia].
  apply random_below_range in Hx; [|by apply Z.mod_pos_bound].
  destruct (decide (j + 1 = 2 ^ 64)) as [Hw|Hw].
  - rewrite Hw, Z.mod_same in Hx by lia. lia.
  - rewrite Z.mod_small in Hx by lia. lia.
Qed.

(** ** Theorems *)

(** The plan only ever adds cover.  Whatever the configuration and the draws,
    a plan is at least the number of real frames and the configured minimum, and
    at most the quantised count (or the minimum) plus the configured jitter; on
    the default ladder the quantised count is a power of two less than twice the
    real count; and when two payloads quantise to the same rung, the same draws
    give the same plan, so the emitted count says nothing more about either. *)
Theorem plan_covers fuel p n r total r' :
  is_u64 n -> is_u64 (min_frames p) -> is_u64 (jitter_frames p) ->
  plan fuel p n r = Ok (total, r') ->
  n <= total <= u64_max /\ min_frames p <= total /\
  total <= Z.max (quantised (ladder p) n) (min_frames p) + jitter_frames p /\
  (ladder p = PowerOfTwo -> n <= 2 ^ 63 ->
     quantised (ladder p) n < 2 * Z.max n 1 /\ exists k, 0 <= k /\ quantised (ladder p) n = 2 ^ k) /\
  (forall n', is_u64 n' -> quantised (ladder p) n' = quantised (ladder p) n ->
     plan fuel p n' r = Ok (total, r')).
Proof.
  intros Hn Hm Hj. unfold plan. intros H. apply obind_Ok in H as ([a r1] & Hx & H).
  injection H as <- <-. pose proof (jitter_range _ _ _ _ _ Hj Hx) as Ha. unfold is_u64 in *.
  pose proof (quantised_ge (ladder p) n ltac:(lia)) as Hge.
  pose proof (quantised_le_u64 (ladder p) n ltac:(unfold u64_max; lia)) as Hle.
  unfold sat_add64, u64_max in *. split_and!; try lia.
  - intros -> Hsmall. unfold quantised. unfold next_power_of_two.
    assert (Hp : exists q, next_power_of_two n = Some q).
    { unfold next_power_of_two, u64_max. destruct (n <=? 1) eqn:Hc; bools; [by eexists|].
      assert (Z.log2_up n <= 63) by (apply Z.log2_up_le_pow2; lia).
      assert (2 ^ Z.log2_up n <= 2 ^ 63) by (apply Z.pow_le_mono_r; lia). zdec. by eexists. }
    destruct Hp as [q Hq]. pose proof Hq as Hq'. unfold next_power_of_two in Hq'. rewrite Hq'.
    apply next_power_of_two_spec in Hq; [|lia]. simpl. tauto.
  - intros n' Hn' Hsame. pose proof (quantised_ge (ladder p) n' ltac:(lia)).
    rewrite Hx. cbn [obind]. rewrite Hsame. unfold sat_add64, u64_max. do 2 f_equal. lia.
Qed.

(** The random tail is unbiased and always found.  The zone is a multiple of
    the bound and holds more than half of the words, so every residue has equally
    many accepted words and a draw is accepted more often than not; the result is
    the first accepted word modulo the bound, for any fuel beyond its position; and
    an accepted result is always below the bound. *)
Theorem random_below_uniform bound :
  1 < bound <= u64_max ->
  (forall v, 0 <= v < bound -> forall w, (0 <= w < zone_of bound /\ w mod bound = v) <->
     exists q, 0 <= q < zone_of bound / bound /\ w = q * bound + v) /\
  u64_max < 2 * zone_of bound /\
  (forall fuel r k w, (k < fuel)%nat -> word r k = Some w -> w < zone_of bound ->
     (forall i, (i < k)%nat -> exists x, word r i = Some x /\ zone_of bound <= x) ->
     random_below fuel bound r = Ok (w mod bound, rng_skip (8 * S k) r)) /\
  (forall fuel r v r', random_below fuel bound r = Ok (v, r') -> 0 <= v < bound).
Proof.
  intros Hb. destruct (zone_spec bound Hb) as (Hz & Hzr & Hhalf).
  pose proof (Z.div_mod (zone_of bound) bound ltac:(lia)) as Hd. rewrite Hz in Hd.
  split_and!; [|done| |].
  - intros v Hv w. split.
    + intros [Hw <-]. pose proof (Z.div_mod w bound ltac:(lia)).
      exists (w / bound). split; [|lia]. split; [apply Z.div_pos; lia|nia].
    + intros (q & Hq & ->). split; [nia|].
      rewrite Z.add_comm, Z.mod_add by lia. apply Z.mod_small. lia.
  - intros fuel r k w Hk Hw Hwz Hbelow. unfold random_below. zdec. by apply random_loop_spec.
  - intros fuel r v r' H. apply random_below_range in H; lia.
Qed.

Fixpoint nondecreasing (t : Z) (l : list (Z * Z)) : Prop :=
  match l with
  | [] => True
  | (now, wake) :: l => t <= now /\ nondecreasing now l
  end.

Lemma ticks_slots l p i :
  interval p = Some i -> 0 <= i ->
  forall k t, ticks l p !! k = Some t -> next p + Z.of_nat k * i <= t.
Proof.
  revert p. induction l as [|[now wake] l IH]; intros p Hi Hpos k t Hk; [done|].
  cbn [ticks] in Hk. unfold tick in Hk. rewrite Hi in Hk.
  destruct (now <? next p) eqn:Hc; bools.
  - destruct k as [|k]; simpl in Hk; [injection Hk as <-; lia|].
    apply IH in Hk; simpl in *; [lia|done|done].
  - destruct k as [|k]; simpl in Hk; [injection Hk as <-; lia|].
    apply IH in Hk; simpl in *; [lia|done|done].
Qed.

(** The scheduler never bursts.  With a rate set, whatever the clock readings
    and however late a sleeper wakes, the [k]-th frame after any point leaves no
    earlier than [k] intervals after the slot that was due there: falling behind
    moves the schedule, it is never made up for.  The interval of a frame is the
    time the configured rate takes to send it. *)
Theorem pacer_never_bursts p now frame_len rate l :
  rate_bytes_per_sec p = Some rate -> 0 < rate -> 0 <= frame_len <= u32_max ->
  let i := frame_len * 1000000000 / rate in
  let q := pacer p now frame_len in
  interval q = Some (Z.min i u64_max) /\
  (forall k t, ticks l q !! k = Some t -> now + Z.of_nat k * Z.min i u64_max <= t) /\
  (forall n w t1 q1 k t, tick n w q = (t1, q1) -> ticks l q1 !! k = Some t ->
     Z.max n now + (Z.of_nat k + 1) * Z.min i u64_max <= t).
Proof.
  intros Hr Hpos Hlen i q.
  assert (Hi : interval q = Some (Z.min i u64_max)).
  { unfold q, pacer. rewrite Hr. simpl. by zdec. }
  assert (0 <= i) by (apply Z.div_pos; lia).
  assert (0 <= Z.min i u64_max) by (unfold u64_max; lia).
  split_and!; [done| |].
  - intros k t Hk. by apply (ticks_slots l q _ Hi) in Hk.
  - intros n w t1 q1 k t Ht Hk. unfold tick in Ht. rewrite Hi in Ht.
    assert (Hn : next q = now) by done. rewrite Hn in Ht.
    destruct (n <? now) eqn:Hc; bools; injection Ht as <- <-;
      apply (ticks_slots l _ (Z.min i u64_max)) in Hk; simpl in *; lia || done.
Qed.

(** *** Examples *)

Example power_of_two_rungs : map (quantised PowerOfTwo) [0; 1; 3; 5; 1025] = [1; 1; 4; 8; 2048].
Proof. done. Qed.

(** A jitter of [u64::MAX] wraps to a bound of zero and adds no tail at all. *)
Lemma full_jitter_is_no_jitter fuel p n r :
  jitter_frames p = u64_max ->
  plan fuel p n r = Ok (Z.max (sat_add64 (Z.max (quantised (ladder p) n) (min_frames p)) 0) n, r).
Proof. intros Hj. unfold plan. by rewrite Hj. Qed.

Lemma plan_covers_witness :
  let r := rng_const Byte.x01 in
  exists total r', plan 1 pacing_default 5 r = Ok (total, r') /\
    (5 <= total <= u64_max /\ min_frames pacing_default <= total /\
     total <= Z.max (quantised (ladder pacing_default) 5) (min_frames pacing_default)
              + jitter_frames pacing_default /\
     (ladder pacing_default = PowerOfTwo -> 5 <= 2 ^ 63 ->
        quantised (ladder pacing_default) 5 < 2 * Z.max 5 1 /\
        exists k, 0 <= k /\ quantised (ladder pacing_default) 5 = 2 ^ k) /\
     (forall n', is_u64 n' -> quantised (ladder pacing_default) n' = quantised (ladder pacing_default) 5 ->
        plan 1 pacing_default n' r = Ok (total, r'))).
Proof.
  intros r. eexists _, _. split; [vm_compute; reflexivity|].
  apply (plan_covers 1 pacing_default 5 r); [done|done|done|vm_compute; reflexivity].
Defined.

Lemma random_below_uniform_witness :
  1 < 65 <= u64_max /\ u64_max < 2 * zone_of 65.
Proof. split; [done|]. apply random_below_uniform. done. Defined.

Lemma pacer_never_bursts_witness :
  interval (pacer pacing_default 1000 (2 ^ 20)) = Some 250000000.
Proof.
  refine (eq_trans (proj1 (pacer_never_bursts pacing_default 1000 (2 ^ 20)
    DEFAULT_RATE_BYTES_PER_SEC [] _ _ _)) _); done.
Defined.
