(* ===== verification/Transfer.v ===== *)
(** * Live transfer

    [p2p-live/src/transfer.rs]: the frame format, the sender, the resumable
    receiver and its rename into place, over the session interface. *)

From Stdlib Require Import Strings.Byte.
From S2P Require Import Prelude Text Primitives LiveError StateM Disk Framing Session Pacing.

Definition DEFAULT_CHUNK_LEN : Z := Z.shiftl 1 20.
Definition DEFAULT_CHECKPOINT_LEN : Z := 16 * DEFAULT_CHUNK_LEN.
Definition HEADER_LEN : Z := 5.

(** ** The frame format *)

Definition OFFER : byte := Byte.x01.
Definition RESUME : byte := Byte.x02.
Definition START : byte := Byte.x03.
Definition DATA : byte := Byte.x04.
Definition DONE : byte := Byte.x05.
Definition ACK : byte := Byte.x06.
Definition COVER : byte := Byte.x07.
Definition FINISH : byte := Byte.x08.

(** [frame]: a content too long for the frame grows it (the debug assertion that
    forbids this is not compiled into a release). *)
Definition frame (tag : byte) (c : bytes) (frame_len : Z) : bytes :=
  let n := Z.max frame_len (zlen c + HEADER_LEN) in
  [tag] ++ be_bytes 4 (zlen c) ++ c ++ zrep (n - HEADER_LEN - zlen c) Byte.x00.

(** [parse]. *)
Definition parse (raw : bytes) : result (byte * bytes) :=
  if zlen raw <? HEADER_LEN then Err (Error.Transfer "frame is too short to hold a header") else
  let? tag := or_panic (raw !! 0%nat) in
  let? l := or_panic (slice 1 5 raw) in
  let len := be_val l in
  let? c := ok_or (slice HEADER_LEN (HEADER_LEN + len) raw)
              (Error.Transfer "frame claims content bytes it lacks") in
  Ok (tag, c).

Definition fixed (c : bytes) (len : Z) (what : Error.t) : result unit :=
  if negb (zlen c =? len) then Err what else Ok tt.

(** [copy_from_slice] panics when the lengths differ. *)
Definition be64 (b : bytes) : result Z := if zlen b =? 8 then Ok (be_val b) else Panic.

Definition decode_offer (raw : bytes) : result Z :=
  let? (tag, c) := parse raw in
  if decide (tag <> OFFER) then Err (Error.Transfer "expected OFFER") else
  let? _ := fixed c 8 (Error.Transfer "malformed OFFER") in
  be64 c.

Definition decode_resume (c : bytes) : result (Z * bytes) :=
  let? _ := fixed c 40 (Error.Transfer "malformed RESUME") in
  let? hash := or_panic (slice 8 40 c) in
  let? h := or_panic (slice 0 8 c) in
  let? have := be64 h in
  Ok (have, hash).

Definition decode_start (c : bytes) : result Z :=
  let? _ := fixed c 8 (Error.Transfer "malformed START") in
  be64 c.

Definition decode_done (c : bytes) : result bytes :=
  let? _ := fixed c 32 (Error.Transfer "malformed DONE") in
  Ok c.

(** ** Configuration *)

Record Transfer := {
  chunk_len : Z;
  checkpoint_len : Z;
  max_total_len : option Z;
  pacing : Pacing;
}.

Definition transfer_new : Transfer :=
  {| chunk_len := DEFAULT_CHUNK_LEN; checkpoint_len := DEFAULT_CHECKPOINT_LEN;
     max_total_len := None; pacing := pacing_default |}.

Definition with_chunk_len (t : Transfer) (n : Z) : Transfer :=
  {| chunk_len := Z.max 1 (Z.min n (MAX_FRAME_LEN - HEADER_LEN));
     checkpoint_len := checkpoint_len t; max_total_len := max_total_len t; pacing := pacing t |}.

Definition with_checkpoint_len (t : Transfer) (n : Z) : Transfer :=
  {| chunk_len := chunk_len t; checkpoint_len := Z.max n 1;
     max_total_len := max_total_len t; pacing := pacing t |}.

Definition with_pacing (t : Transfer) (p : Pacing) : Transfer :=
  {| chunk_len := chunk_len t; checkpoint_len := checkpoint_len t;
     max_total_len := max_total_len t; pacing := p |}.

Definition with_max_total_len (t : Transfer) (n : Z) : Transfer :=
  {| chunk_len := chunk_len t; checkpoint_len := checkpoint_len t;
     max_total_len := Some n; pacing := pacing t |}.

Definition frame_len (t : Transfer) : Z := chunk_len t + HEADER_LEN.

(** What the builder functions can produce. *)
Definition transfer_wf (t : Transfer) : Prop :=
  1 <= chunk_len t <= MAX_FRAME_LEN - HEADER_LEN /\ 1 <= checkpoint_len t <= u64_max.

Record Progress := { transferred : Z; p_total : Z; p_resumed_from : Z }.
Record Summary := { total : Z; resumed_from : Z; hash : bytes; cover_frames : Z }.

(** ** An endpoint

    The session; the file the transfer holds open (the sender's source, the
    receiver's [.part]; [None] when there is none) and how many of its leading
    bytes are durable; the receiver's destination; the sender's generator and
    pacer; the progress reported; and counters by which the environment decides
    whether an I/O operation fails, whether a check sees a cancellation, and what
    the clock reads at a tick. *)
Record endpoint := {
  chan : Chan;
  part : option file;
  synced : Z;
  dest : option bytes;
  gen : rng;
  pacer_ : option Pacer;
  log : list Progress;
  ios : nat;
  checks : nat;
  ticks_ : nat;
}.

Definition set_chan (c : Chan) (e : endpoint) : endpoint :=
  {| chan := c; part := part e; synced := synced e; dest := dest e; gen := gen e;
     pacer_ := pacer_ e; log := log e; ios := ios e; checks := checks e; ticks_ := ticks_ e |}.
Definition set_part (f : option file) (s : Z) (e : endpoint) : endpoint :=
  {| chan := chan e; part := f; synced := s; dest := dest e; gen := gen e;
     pacer_ := pacer_ e; log := log e; ios := ios e; checks := checks e; ticks_ := ticks_ e |}.
Definition set_dest (d : option bytes) (e : endpoint) : endpoint :=
  {| chan := chan e; part := part e; synced := synced e; dest := d; gen := gen e;
     pacer_ := pacer_ e; log := log e; ios := ios e; checks := checks e; ticks_ := ticks_ e |}.
Definition set_gen (r : rng) (e : endpoint) : endpoint :=
  {| chan := chan e; part := part e; synced := synced e; dest := dest e; gen := r;
     pacer_ := pacer_ e; log := log e; ios := ios e; checks := checks e; ticks_ := ticks_ e |}.
Definition set_pacer (p : Pacer) (e : endpoint) : endpoint :=
  {| chan := chan e; part := part e; synced := synced e; dest := dest e; gen := gen e;
     pacer_ := Some p; log := log e; ios := ios e; checks := checks e; ticks_ := S (ticks_ e) |}.
Definition set_log (l : list Progress) (e : endpoint) : endpoint :=
  {| chan := chan e; part := part e; synced := synced e; dest := dest e; gen := gen e;
     pacer_ := pacer_ e; log := l; ios := ios e; checks := checks e; ticks_ := ticks_ e |}.
Definition bump_ios (e : endpoint) : endpoint :=
  {| chan := chan e; part := part e; synced := synced e; dest := dest e; gen := gen e;
     pacer_ := pacer_ e; log := log e; ios := S (ios e); checks := checks e; ticks_ := ticks_ e |}.
Definition bump_checks (e : endpoint) : endpoint :=
  {| chan := chan e; part := part e; synced := synced e; dest := dest e; gen := gen e;
     pacer_ := pacer_ e; log := log e; ios := ios e; checks := S (checks e); ticks_ := ticks_ e |}.

Abbreviation T := (M Error.t endpoint).

(** The environment of a run. *)
Record environment := {
  io_fault : nat -> option Z;   (** a failing operation, and the bytes a write had put down *)
  cancelled : nat -> bool;
  clock : nat -> Z * Z;         (** the reading, and when a sleeper would wake *)
  draws : nat;                  (** the fuel of the random tail *)
}.

Section code.
Context `{Blake3}.
Variable env : environment.

(** [Cancel::is_cancelled] and [Cancel::check]. *)
Definition is_cancelled : T bool := fun e => (Ok (cancelled env (checks e)), bump_checks e).
Definition check : T unit :=
  let! c := is_cancelled in if c : bool then fails Error.Cancelled else mret tt.

Definition t_send (msg : bytes) : T unit := fun e =>
  let (r, c) := chan_send msg (chan e) in (r, set_chan c e).
Definition t_recv : T bytes := fun e =>
  let (r, c) := chan_recv (chan e) in (r, set_chan c e).

Definition progress (p : Progress) : T unit := modify (fun e => set_log (log e ++ [p]) e).

(** One file operation: it fails, or applies [f] to the open file. *)
Definition io {A} (err : Error.t) (f : file -> outcome Error.t (A * file)) : T A := fun e =>
  let e' := bump_ios e in
  match io_fault env (ios e), part e with
  | None, Some h =>
      match f h with
      | Ok (a, h') => (Ok a, set_part (Some h') (Z.min (synced e) (f_len h')) e')
      | Err x => (Err x, e')
      | Panic => (Panic, e')
      end
  | _, _ => (Err err, e')
  end.

Definition file_len (err : Error.t) : T Z := io err (fun h => Ok (f_len h, h)).
Definition seek (p : Z) : T unit := io (Error.Transfer "seek") (fun h => Ok (tt, f_seek p h)).
Definition set_len (n : Z) : T unit :=
  io (Error.Transfer "truncate") (fun h => Ok (tt, f_set_len n h)).
Definition read_exact (err : Error.t) (n : Z) : T bytes :=
  io err (fun h => ok_or (f_read_exact n h) err).
(** A failing write may have put down some of its bytes. *)
Definition write_all (b : bytes) : T unit := fun e =>
  match io_fault env (ios e), part e with
  | Some k, Some h =>
      (Err (Error.Transfer "write"),
       set_part (Some (f_write (ztake k b) h)) (Z.min (synced e) (cursor h)) (bump_ios e))
  | _, _ => io (Error.Transfer "write") (fun h => Ok (tt, f_write b h)) e
  end.
(** [sync_data] and [sync_all]: all the bytes become durable. *)
Definition sync (err : Error.t) : T unit := fun e =>
  match io err (fun h => Ok (tt, h)) e with
  | (Ok _, e') => (Ok tt, set_part (part e') (from_option f_len 0 (part e')) e')
  | r => r
  end.

(** [File::open], and the receiver's [OpenOptions]: create, do not truncate. *)
Definition open_source : T unit := fun e =>
  let e' := bump_ios e in
  match io_fault env (ios e), part e with
  | None, Some h => (Ok tt, set_part (Some (File (content h) 0)) (synced e) e')
  | _, _ => (Err (Error.Transfer "open"), e')
  end.
Definition open_partial : T unit := fun e =>
  let e' := bump_ios e in
  match io_fault env (ios e) with
  | None => (Ok tt, set_part (Some (File (from_option content [] (part e)) 0)) (synced e) e')
  | Some _ => (Err (Error.Transfer "open"), e')
  end.

(** [tokio::fs::rename]. *)
Definition rename : T unit := fun e =>
  let e' := bump_ios e in
  match io_fault env (ios e) with
  | None => (Ok tt, set_dest (content <$> part e) (set_part None 0 e'))
  | Some _ => (Err (Error.Transfer "rename"), e')
  end.

(** [sync_parent_dir] is best effort and changes no content. *)
Definition sync_parent_dir : T unit := modify bump_ios.

(** [hash_prefix]: every turn reads at least a byte of the [len]. *)
Fixpoint hash_loop (fuel : nat) (buf_len len read : Z) (h : hasher) : T hasher :=
  if read <? len then
    match fuel with
    | O => lift Panic
    | S fuel =>
        let want := Z.min (len - read) buf_len in
        let! b := read_exact (Error.Transfer "read prefix") want in
        hash_loop fuel buf_len len (read + want) (hasher_update h b)
    end
  else mret h.

Definition hash_prefix (buf_len len : Z) : T hasher :=
  let! _ := seek 0 in hash_loop (Z.to_nat len) buf_len len 0 hasher_new.

(** [expect]. *)
Definition expect (want : byte) : T bytes :=
  let! raw := t_recv in
  let! (tag, c) := lift (parse raw) in
  if decide (tag <> want) then fails (Error.Transfer "unexpected frame tag") else mret c.

Definition tick_ : T unit := fun e =>
  match pacer_ e with
  | Some p => let (now, wake) := clock env (ticks_ e) in
              (Ok tt, set_pacer (snd (tick now wake p)) e)
  | None => (Ok tt, e)
  end.

Definition start_pacer (t : Transfer) : T unit := fun e =>
  (Ok tt, set_pacer (pacer (pacing t) (fst (clock env (ticks_ e))) (frame_len t)) e).

Definition draw_plan (t : Transfer) (real_frames : Z) : T Z := fun e =>
  match plan (draws env) (pacing t) real_frames (gen e) with
  | Ok (n, r) => (Ok n, set_gen r e)
  | Err x => (Err x, e)
  | Panic => (Panic, e)
  end.

(** ** The sender *)

(** [while sent < total]. *)
Fixpoint data_loop (fuel : nat) (t : Transfer) (tot offset sent emitted : Z) (h : hasher)
    : T (Z * hasher) :=
  if sent <? tot then
    match fuel with
    | O => lift Panic
    | S fuel =>
        let! _ := check in
        let! _ := tick_ in
        let want := Z.min (tot - sent) (chunk_len t) in
        let! b := read_exact (Error.Transfer "read") want in
        let h := hasher_update h b in
        let! _ := t_send (frame DATA b (frame_len t)) in
        let sent := sent + want in
        let! _ := progress {| transferred := sent; p_total := tot; p_resumed_from := offset |} in
        data_loop fuel t tot offset sent (emitted + 1) h
    end
  else mret (emitted, h).

(** [while emitted < planned_frames]. *)
Fixpoint cover_loop (fuel : nat) (t : Transfer) (planned emitted covers : Z) : T Z :=
  if emitted <? planned then
    match fuel with
    | O => lift Panic
    | S fuel =>
        let! c := is_cancelled in
        if c : bool then mret covers else
        let! _ := tick_ in
        let! _ := t_send (frame COVER [] (frame_len t)) in
        cover_loop fuel t planned (emitted + 1) (covers + 1)
    end
  else mret covers.

(** The seam check: where to start, and the hash of what precedes it. *)
Definition choose_offset (t : Transfer) (tot have : Z) (prefix_hash : bytes) : T (Z * hasher) :=
  if (0 <? have) && (have <=? tot) then
    let! h := hash_prefix (chunk_len t) have in
    if decide (hasher_finalize h = prefix_hash) then mret (have, h) else mret (0, hasher_new)
  else mret (0, hasher_new).

(** [Transfer::send]. *)
Definition send (t : Transfer) : T Summary :=
  let fl := frame_len t in
  let! _ := open_source in
  let! tot := file_len (Error.Transfer "stat") in
  let! _ := t_send (frame OFFER (be_bytes 8 tot) fl) in
  let! c := expect RESUME in
  let! (have, prefix_hash) := lift (decode_resume c) in
  let! (offset, h) := choose_offset t tot have prefix_hash in
  let! _ := t_send (frame START (be_bytes 8 offset) fl) in
  let! _ := seek offset in
  let real_frames := div_ceil (tot - offset) (chunk_len t) in
  let! planned := draw_plan t real_frames in
  let! _ := start_pacer t in
  let! _ := progress {| transferred := offset; p_total := tot; p_resumed_from := offset |} in
  let! (emitted, h) := data_loop (Z.to_nat (tot - offset)) t tot offset offset 0 h in
  let hash := hasher_finalize h in
  let! _ := tick_ in
  let! _ := t_send (frame DONE hash fl) in
  let! covers := cover_loop (Z.to_nat (planned - emitted)) t planned emitted 0 in
  let! _ := tick_ in
  let! _ := t_send (frame FINISH [] fl) in
  let! _ := expect ACK in
  mret {| total := tot; resumed_from := offset; hash := hash; cover_frames := covers |}.

(** ** The receiver *)

(** [finish_payload]. *)
Definition finish_payload (received tot : Z) (h : hasher) (claimed : bytes) : T bytes :=
  if negb (received =? tot) then fails (Error.Transfer "sender finished early") else
  let hash := hasher_finalize h in
  if decide (hash <> claimed) then fails (Error.Integrity "payload hash mismatch") else
  let! _ := sync (Error.Transfer "final fsync") in
  let! _ := rename in
  let! _ := sync_parent_dir in
  mret hash.

(** The variables of [recv]'s loop. *)
Record progress_state := {
  received : Z;
  last_checkpoint : Z;
  covers_seen : Z;
  verified : option bytes;
  running : hasher;
}.

(** One turn of the loop; [inr] returns from the function. *)
Definition recv_turn (t : Transfer) (fl tot offset : Z) (s : progress_state)
    : T (progress_state + Summary) :=
  let! _ := check in
  let! raw := t_recv in
  if negb (zlen raw =? fl) then fails (Error.Transfer "peer changed frame size mid-stream") else
  let! (tag, c) := lift (parse raw) in
  if decide (tag = DATA) then
    if bool_decide (is_Some (verified s)) then fails (Error.Transfer "data frame after DONE") else
    if tot <? wadd64 (received s) (zlen c)
    then fails (Error.Transfer "sender sent more data than it offered") else
    let! _ := write_all c in
    let rcv := wadd64 (received s) (zlen c) in
    let! lc := (if checkpoint_len t <=? rcv - last_checkpoint s
                then let! _ := sync (Error.Transfer "fsync") in mret rcv
                else mret (last_checkpoint s)) in
    let! _ := progress {| transferred := rcv; p_total := tot; p_resumed_from := offset |} in
    mret (inl {| received := rcv; last_checkpoint := lc; covers_seen := covers_seen s;
                 verified := verified s; running := hasher_update (running s) c |})
  else if decide (tag = COVER) then
    mret (inl {| received := received s; last_checkpoint := last_checkpoint s;
                 covers_seen := covers_seen s + 1; verified := verified s; running := running s |})
  else if decide (tag = DONE) then
    if bool_decide (is_Some (verified s)) then fails (Error.Transfer "duplicate DONE frame") else
    let! claimed := lift (decode_done c) in
    let! h := finish_payload (received s) tot (running s) claimed in
    mret (inl {| received := received s; last_checkpoint := last_checkpoint s;
                 covers_seen := covers_seen s; verified := Some h; running := running s |})
  else if decide (tag = FINISH) then
    match verified s with
    | Some h =>
        let! _ := t_send (frame ACK [] fl) in
        mret (inr {| total := tot; resumed_from := offset; hash := h; cover_frames := covers_seen s |})
    | None => fails (Error.Transfer "stream ended early")
    end
  else fails (Error.Transfer "unexpected frame tag during transfer").

Fixpoint recv_loop (fuel : nat) (t : Transfer) (fl tot offset : Z) (s : progress_state) : T Summary :=
  match fuel with
  | O => lift Panic
  | S fuel =>
      let! r := recv_turn t fl tot offset s in
      match r with
      | inl s' => recv_loop fuel t fl tot offset s'
      | inr summary => mret summary
      end
  end.

(** The offset the receiver reports: its length rounded down to a checkpoint. *)
Definition resume_offset (t : Transfer) (on_disk tot : Z) : Z :=
  Z.min (on_disk / checkpoint_len t * checkpoint_len t) tot.

(** What [recv] does before its loop. *)
Definition recv_setup (t : Transfer) : T (Z * Z * Z * hasher) :=
  let! offer := t_recv in
  let fl := zlen offer in
  if negb ((HEADER_LEN <=? fl) && (fl <=? MAX_FRAME_LEN))
  then fails (Error.Transfer "peer's frame size is out of range") else
  let! tot := lift (decode_offer offer) in
  if match max_total_len t with Some m => m <? tot | None => false end
  then fails (Error.Transfer "offered payload exceeds the limit") else
  let! _ := open_partial in
  let! on_disk := file_len (Error.Transfer "stat") in
  let have := resume_offset t on_disk tot in
  let! _ := set_len have in
  let! h := hash_prefix (chunk_len t) have in
  let! _ := t_send (frame RESUME (be_bytes 8 have ++ hasher_finalize h) fl) in
  let! c := expect START in
  let! offset := lift (decode_start c) in
  if have <? offset then fails (Error.Transfer "sender asked to start beyond what we have") else
  let! h := (if negb (offset =? have)
             then let! _ := set_len offset in hash_prefix (chunk_len t) offset
             else mret h) in
  let! _ := seek offset in
  let! _ := progress {| transferred := offset; p_total := tot; p_resumed_from := offset |} in
  mret (fl, tot, offset, h).

(** [Transfer::recv]; every turn of the loop takes a message, so one more turn
    than there are messages is enough. *)
Definition recv (t : Transfer) : T Summary := fun e =>
  (let! (fl, tot, offset, h) := recv_setup t in
   recv_loop (S (length (inbox (chan e)))) t fl tot offset
     {| received := offset; last_checkpoint := offset; covers_seen := 0;
        verified := None; running := h |}) e.
End code.

(** ** Lemmas: frames *)

Lemma zlen_frame tag c n : zlen (frame tag c n) = Z.max n (zlen c + HEADER_LEN).
Proof. unfold frame, HEADER_LEN. zl. Qed.

Lemma frame_fits tag c n : zlen c + HEADER_LEN <= n -> zlen (frame tag c n) = n.
Proof. intros. rewrite zlen_frame. lia. Qed.

Lemma parse_frame tag c n : zlen c <= u32_max -> parse (frame tag c n) = Ok (tag, c).
Proof.
  intros Hc. unfold u32_max in Hc. pose proof (zlen_nonneg c).
  unfold parse. rewrite zlen_frame. unfold HEADER_LEN. zdec.
  unfold frame, HEADER_LEN. cbn [app]. change ((tag :: ?l) !! 0%nat) with (Some tag).
  cbn [or_panic obind].
  assert (Hl : slice 1 5 (tag :: be_bytes 4 (zlen c) ++ c ++
             zrep (Z.max n (zlen c + 5) - 5 - zlen c) Byte.x00) = Some (be_bytes 4 (zlen c))).
  { change (tag :: ?l) with ([tag] ++ l). apply slice_app_mid; zl. }
  rewrite Hl. cbn [or_panic obind]. rewrite be_val_small by lia.
  assert (Hs : slice 5 (5 + zlen c) (tag :: be_bytes 4 (zlen c) ++ c ++
             zrep (Z.max n (zlen c + 5) - 5 - zlen c) Byte.x00) = Some c).
  { change (tag :: ?l) with ([tag] ++ l). rewrite app_assoc. apply slice_app_mid; zl. }
  by rewrite Hs.
Qed.

Lemma parse_no_panic raw : parse raw <> Panic.
Proof.
  unfold parse, HEADER_LEN. destruct (zlen raw <? 5) eqn:Hc; [done|]. bools.
  destruct raw as [|b raw]; [by rewrite zlen_nil in Hc|]. cbn [lookup list_lookup or_panic obind].
  destruct (slice 1 5 (b :: raw)) eqn:Hs; [|apply slice_None in Hs; lia].
  cbn [or_panic obind]. no_panic.
Qed.

Lemma parse_content_le raw tag c : parse raw = Ok (tag, c) -> zlen c + HEADER_LEN <= zlen raw.
Proof.
  unfold parse. intros H. ok_inv H. bools. injection H as <- <-.
  match goal with Hs : slice HEADER_LEN _ _ = Some _ |- _ =>
    pose proof (slice_length _ _ _ _ Hs); apply slice_Some in Hs as (? & ? & _) end.
  lia.
Qed.

Lemma fixed_Ok c n w : fixed c n w = Ok tt <-> zlen c = n.
Proof. unfold fixed. destruct (zlen c =? n) eqn:Hc; bools; simpl; split; try done; lia. Qed.

Lemma be64_fixed c : zlen c = 8 -> be64 c = Ok (be_val c).
Proof. intros Hc. unfold be64. by zdec. Qed.

Lemma fixed_obind {A} c n w (k : outcome Error.t A) :
  obind (fixed c n w) (fun _ => k) = if zlen c =? n then k else Err w.
Proof. unfold fixed. by destruct (zlen c =? n). Qed.

Lemma decode_offer_no_panic raw : decode_offer raw <> Panic.
Proof.
  unfold decode_offer. apply obind_no_panic; [apply parse_no_panic|]. intros [tag c] _.
  case_decide; [done|]. rewrite fixed_obind. destruct (zlen c =? 8) eqn:Hc; [|done].
  bools. by rewrite be64_fixed.
Qed.

Lemma decode_start_no_panic c : decode_start c <> Panic.
Proof.
  unfold decode_start. rewrite fixed_obind. destruct (zlen c =? 8) eqn:Hc; [|done].
  bools. by rewrite be64_fixed.
Qed.

Lemma decode_done_no_panic c : decode_done c <> Panic.
Proof. unfold decode_done. rewrite fixed_obind. by destruct (zlen c =? 32). Qed.

Lemma decode_done_Ok c h : decode_done c = Ok h -> h = c.
Proof. unfold decode_done. rewrite fixed_obind. destruct (_ =? _); congruence. Qed.

Lemma decode_offer_frame n fl : is_u64 n -> decode_offer (frame OFFER (be_bytes 8 n) fl) = Ok n.
Proof.
  intros Hn. unfold decode_offer. rewrite parse_frame by (by rewrite zlen_be_bytes).
  cbn [obind]. rewrite decide_False by (intros Hx; by apply Hx).
  rewrite fixed_obind, zlen_be_bytes. cbn. rewrite be64_fixed by (by rewrite zlen_be_bytes).
  by rewrite be_val_small.
Qed.

Lemma decode_start_bytes n : is_u64 n -> decode_start (be_bytes 8 n) = Ok n.
Proof.
  intros Hn. unfold decode_start. rewrite fixed_obind, zlen_be_bytes. cbn.
  rewrite be64_fixed by (by rewrite zlen_be_bytes). by rewrite be_val_small.
Qed.

Lemma decode_start_range c n : decode_start c = Ok n -> is_u64 n.
Proof.
  unfold decode_start. rewrite fixed_obind. destruct (zlen c =? 8) eqn:Hc; [|done]. bools.
  rewrite be64_fixed by done. intros [= <-]. pose proof (be_val_range c) as Hr.
  by rewrite Hc in Hr.
Qed.

Lemma decode_offer_range raw n : decode_offer raw = Ok n -> is_u64 n.
Proof.
  unfold decode_offer. intros H. apply obind_Ok in H as ([tag c] & _ & H).
  case_decide; [done|]. rewrite fixed_obind in H. destruct (zlen c =? 8) eqn:Hc; [|done]. bools.
  rewrite be64_fixed in H by done. injection H as <-. pose proof (be_val_range c) as Hr.
  by rewrite Hc in Hr.
Qed.

Lemma decode_resume_bytes n h :
  is_u64 n -> zlen h = 32 -> decode_resume (be_bytes 8 n ++ h) = Ok (n, h).
Proof.
  intros Hn Hh. unfold decode_resume. rewrite fixed_obind, zlen_app, zlen_be_bytes, Hh. cbn.
  assert (H1 : slice 8 40 (be_bytes 8 n ++ h) = Some h).
  { rewrite <- (app_nil_r h) at 1. apply slice_app_mid; zl. }
  assert (H2 : slice 0 8 (be_bytes 8 n ++ h) = Some (be_bytes 8 n)) by (apply slice_prefix; zl).
  rewrite H1, H2. cbn. rewrite be64_fixed by (by rewrite zlen_be_bytes). cbn.
  by rewrite be_val_small.
Qed.

(** ** Lemmas: hashing *)

Section hashed.
Context `{Blake3} `{!Blake3Laws _}.

(** A hasher that has been fed [b]. *)
Definition hashed (h : hasher) (b : bytes) : Prop :=
  exists l, h = foldl hasher_update hasher_new l /\ concat l = b.

Lemma hashed_new : hashed hasher_new [].
Proof. by exists []. Qed.

Lemma hashed_update h b x : hashed h b -> hashed (hasher_update h x) (b ++ x).
Proof.
  intros (l & -> & <-). exists (l ++ [x]). rewrite foldl_app, concat_app. simpl.
  by rewrite app_nil_r.
Qed.

Lemma hashed_finalize h b : hashed h b -> hasher_finalize h = blake3 b.
Proof. intros (l & -> & <-). apply hasher_spec. Qed.
End hashed.

(** ** The receiver is safe *)

Definition inbox_size (l : list bytes) : Z := foldr (fun m n => zlen m + n) 0 l.

Section safety.
Context `{Blake3} `{!Blake3Laws _}.
Variable env : environment.
Variable t : Transfer.
Hypothesis Hwf : transfer_wf t.

(** What the receiver's world looks like: destination, partial file, and the
    messages still to come. *)
Definition world (d : option bytes) (f : option file) (ib : list bytes) (e : endpoint) : Prop :=
  dest e = d /\ part e = f /\ inbox (chan e) = ib.

Definition dest_is (d : option bytes) (_ : Error.t) (e : endpoint) : Prop := dest e = d.

Lemma io_triple {A} d h ib err (f : file -> outcome Error.t (A * file)) (Q : A -> endpoint -> Prop) :
  f h <> Panic ->
  (forall a h' e, f h = Ok (a, h') -> world d (Some h') ib e -> Q a e) ->
  triple (world d (Some h) ib) (io env err f) Q (dest_is d).
Proof.
  intros Hp HQ e (Hd & Hf & Hi). unfold io. rewrite Hf.
  destruct (io_fault env (ios e)); [done|]. destruct (f h) as [[a h']|x|] eqn:Hfh; [|done|done].
  by apply (HQ _ _ _ eq_refl).
Qed.

Lemma seek_triple d c cu ib p :
  triple (world d (Some (File c cu)) ib) (seek env p) (fun _ => world d (Some (File c p)) ib) (dest_is d).
Proof. apply io_triple; [done|]. by intros [] h' e [= <-]. Qed.

Lemma file_len_triple d c cu ib err :
  triple (world d (Some (File c cu)) ib) (file_len env err)
    (fun n e => n = zlen c /\ world d (Some (File c cu)) ib e) (dest_is d).
Proof. apply io_triple; [done|]. by intros n h' e [= <- <-]. Qed.

Lemma set_len_triple d c cu ib n :
  triple (world d (Some (File c cu)) ib) (set_len env n)
    (fun _ => world d (Some (File (resize n c) cu)) ib) (dest_is d).
Proof. apply io_triple; [done|]. by intros [] h' e [= <-]. Qed.

Lemma read_exact_triple d c cu ib err n b :
  slice cu (cu + n) c = Some b ->
  triple (world d (Some (File c cu)) ib) (read_exact env err n)
    (fun x e => x = b /\ world d (Some (File c (cu + n))) ib e) (dest_is d).
Proof.
  intros Hs. apply io_triple; [apply ok_or_no_panic|].
  intros x h' e Hx. apply ok_or_Ok, f_read_exact_Some in Hx as [Hx ->]. simpl in *.
  by simplify_eq.
Qed.

Lemma hash_loop_triple d c ib bl n fuel : forall read h,
  1 <= bl -> 0 <= read <= n -> n <= zlen c -> n - read <= Z.of_nat fuel ->
  hashed h (ztake read c) ->
  triple (world d (Some (File c read)) ib) (hash_loop env fuel bl n read h)
    (fun h e => hashed h (ztake n c) /\ world d (Some (File c n)) ib e) (dest_is d).
Proof.
  induction fuel as [|fuel IH]; intros read h Hbl Hr Hn Hf Hh; cbn [hash_loop];
    (destruct (read <? n) eqn:Hc; bools; [|intros e He; replace n with read by lia; by split]).
  { lia. }
  destruct (slice read (read + Z.min (n - read) bl) c) as [b|] eqn:Hs.
  2: { apply slice_None in Hs. lia. }
  eapply triple_bind; [by apply read_exact_triple|]. intros x. apply triple_pure. intros ->.
  apply IH; try lia. rewrite (slice_step _ _ _ _ Hs). by apply hashed_update.
Qed.

Lemma hash_prefix_triple d c cu ib n :
  0 <= n <= zlen c ->
  triple (world d (Some (File c cu)) ib) (hash_prefix env (chunk_len t) n)
    (fun h e => hashed h (ztake n c) /\ world d (Some (File c n)) ib e) (dest_is d).
Proof.
  intros Hn. destruct Hwf as [Hc _]. unfold hash_prefix.
  eapply triple_bind; [apply seek_triple|]. intros []. apply hash_loop_triple; try lia.
  apply hashed_new.
Qed.

Lemma t_recv_triple d f ib :
  triple (world d f ib) t_recv (fun m e => exists rest, ib = m :: rest /\ world d f rest e) (dest_is d).
Proof.
  intros e (Hd & Hf & Hi). unfold t_recv, chan_recv. rewrite Hi. destruct ib as [|m rest]; [done|].
  exists rest. by split_and!.
Qed.

Lemma t_send_triple d f ib m :
  triple (world d f ib) (t_send m) (fun _ => world d f ib) (dest_is d).
Proof.
  intros e (Hd & Hf & Hi). unfold t_send, chan_send. by destruct (MAX_FRAME_LEN <? zlen m).
Qed.

Lemma check_triple d f ib : triple (world d f ib) (check env) (fun _ => world d f ib) (dest_is d).
Proof.
  intros e He. unfold check, mbind, is_cancelled. destruct (cancelled env (checks e)); [|done].
  by destruct He.
Qed.

Lemma progress_triple d f ib p : triple (world d f ib) (progress p) (fun _ => world d f ib) (dest_is d).
Proof. by intros e He. Qed.

Lemma write_all_triple d c ib b :
  triple (world d (Some (File c (zlen c))) ib) (write_all env b)
    (fun _ => world d (Some (File (c ++ b) (zlen c + zlen b))) ib) (dest_is d).
Proof.
  intros e (Hd & Hf & Hi). unfold write_all, io. rewrite Hf.
  destruct (io_fault env (ios e)) eqn:Hio; [done|].
  unfold f_write. simpl. by rewrite splice_end.
Qed.

Lemma sync_triple d h ib err :
  triple (world d (Some h) ib) (sync env err) (fun _ => world d (Some h) ib) (dest_is d).
Proof.
  intros e (Hd & Hf & Hi). unfold sync, io. rewrite Hf.
  by destruct (io_fault env (ios e)).
Qed.

Lemma lift_triple {A} d f ib (m : outcome Error.t A) :
  m <> Panic ->
  triple (world d f ib) (lift m) (fun a e => m = Ok a /\ world d f ib e) (dest_is d).
Proof. intros Hm e He. unfold lift. destruct m; [by split|by destruct He|done]. Qed.

(** A verified destination: as many bytes as were offered, with a hash a DONE
    frame of the conversation carried. *)
Definition delivered (inbox0 : list bytes) (fl tot : Z) (payload : bytes) : Prop :=
  zlen payload = tot /\ exists f, f ∈ inbox0 /\ zlen f = fl /\ parse f = Ok (DONE, blake3 payload).

Definition outcome_post (inbox0 : list bytes) (fl tot : Z) (d0 : option bytes) (_ : Error.t) (e : endpoint) : Prop :=
  dest e = d0 \/ exists payload, dest e = Some payload /\ delivered inbox0 fl tot payload.

(** The loop's invariant, for a world with destination [d] and file [f]. *)
Definition loop_pure (inbox0 : list bytes) (fl tot : Z) (d0 : option bytes) (ib : list bytes)
    (s : progress_state) (d : option bytes) (f : option file) : Prop :=
  match verified s with
  | None => d = d0 /\ exists c, f = Some (File c (zlen c)) /\ hashed (running s) c /\
              received s = zlen c /\ zlen c + inbox_size ib < 2 ^ 64
  | Some h => exists payload, d = Some payload /\ f = None /\ h = blake3 payload /\
              delivered inbox0 fl tot payload
  end.

Definition loop_inv (inbox0 : list bytes) (fl tot : Z) (d0 : option bytes) (ib : list bytes)
    (s : progress_state) (e : endpoint) : Prop :=
  exists d f, loop_pure inbox0 fl tot d0 ib s d f /\ world d f ib e.

Lemma finish_payload_triple inbox0 fl tot d0 c ib h claimed raw :
  hashed h c -> raw ∈ inbox0 -> zlen raw = fl -> parse raw = Ok (DONE, claimed) ->
  triple (world d0 (Some (File c (zlen c))) ib) (finish_payload env (zlen c) tot h claimed)
    (fun x e => x = blake3 c /\ delivered inbox0 fl tot c /\ world (Some c) None ib e)
    (outcome_post inbox0 fl tot d0).
Proof.
  intros Hh Hraw Hfl Hp. unfold finish_payload. apply triple_if; intros Hc; bools.
  { intros e (Hd & _). by left. }
  destruct (decide _) as [Hne|Heq]; [intros e (Hd & _); by left|].
  apply dec_stable in Heq. rewrite (hashed_finalize _ _ Hh) in *. subst claimed.
  intros e He. unfold mbind.
  pose proof (sync_triple d0 (File c (zlen c)) ib (Error.Transfer "final fsync") e He) as Hs.
  destruct (sync env (Error.Transfer "final fsync") e) as [[[]|x|] e1]; [|by left|done].
  destruct Hs as (Hd & Hf & Hi). unfold rename. destruct (io_fault env (ios e1)); [by left|].
  unfold sync_parent_dir, modify, mret. split; [done|]. split; [by split; [|exists raw]|].
  rewrite Hf. by split_and!.
Qed.

Lemma weaken_dest {A} inbox0 fl tot d0 P (m : M Error.t endpoint A) Q :
  triple P m Q (dest_is d0) -> triple P m Q (outcome_post inbox0 fl tot d0).
Proof. intros Hm. eapply triple_conseq; [exact Hm|done|done|]. intros x e Hd. by left. Qed.

Lemma loop_pure_dest inbox0 fl tot d0 ib s d f e :
  loop_pure inbox0 fl tot d0 ib s d f -> dest e = d -> forall x, outcome_post inbox0 fl tot d0 x e.
Proof.
  unfold loop_pure, outcome_post. intros Hl Hd x. destruct (verified s).
  - destruct Hl as (p & -> & _ & _ & Hdel). right. by exists p.
  - destruct Hl as (-> & _). by left.
Qed.

Lemma inbox_size_nonneg l : 0 <= inbox_size l.
Proof. induction l as [|m l IH]; simpl; [lia|]. pose proof (zlen_nonneg m). lia. Qed.

(** A step that leaves the destination as it is when it fails. *)
Lemma dest_bind {A B} d P (m : T A) (f : A -> T B) Q R X :
  triple P m Q (dest_is d) -> (forall x e, dest_is d x e -> X x e) ->
  (forall a, triple (Q a) (f a) R X) -> triple P (mbind m f) R X.
Proof.
  intros Hm HX Hf. eapply triple_bind; [|exact Hf].
  eapply triple_conseq; [exact Hm|done|done|exact HX].
Qed.

(** The checkpoint: whatever it decides, the world is the same. *)
Lemma checkpoint_triple d h ib (c : bool) rcv lc :
  triple (world d (Some h) ib)
    (if c then let! _ := sync env (Error.Transfer "fsync") in mret rcv else mret lc)
    (fun (_ : Z) => world d (Some h) ib) (dest_is d).
Proof.
  apply triple_if; intros _; [|by intros e He].
  eapply triple_bind; [apply sync_triple|]. by intros [] e He.
Qed.

Lemma recv_turn_triple inbox0 tot d0 ib fl offset s :
  (forall m, m ∈ ib -> m ∈ inbox0) ->
  triple (loop_inv inbox0 fl tot d0 ib s) (recv_turn env t fl tot offset s)
    (fun r e => exists m rest, ib = m :: rest /\
       match r with
       | inl s' => loop_inv inbox0 fl tot d0 rest s' e
       | inr sm => exists payload, dest e = Some payload /\ delivered inbox0 fl tot payload /\
                     total sm = tot /\ hash sm = blake3 payload
       end) (outcome_post inbox0 fl tot d0).
Proof.
  intros Hsub e (d & f & Hl & He). revert e He.
  assert (Hx : forall x e, dest_is d x e -> outcome_post inbox0 fl tot d0 x e).
  { intros x e He. by eapply loop_pure_dest. }
  assert (Hfail : forall A (x : Error.t) (Q : A -> endpoint -> Prop) ib',
    triple (world d f ib') (fails x) Q (outcome_post inbox0 fl tot d0)).
  { intros A x Q ib'. apply triple_fails. intros e' (He & _). by apply Hx. }
  unfold recv_turn. apply (triple_weaken _ _ (world d f ib)); [|done].
  eapply dest_bind; [apply check_triple|exact Hx|intros []].
  eapply dest_bind; [apply t_recv_triple|exact Hx|].
  intros raw e (rest & -> & He). revert e He.
  assert (Hraw : raw ∈ inbox0) by (apply Hsub; left).
  apply (triple_weaken _ _ (world d f rest)); [|done].
  apply triple_if; intros Hfl; [by apply Hfail|]. bools.
  eapply dest_bind; [apply lift_triple, parse_no_panic|exact Hx|].
  intros [tag c]. apply triple_pure. intros Hparse.
  pose proof (parse_content_le _ _ _ Hparse) as Hc. unfold HEADER_LEN in Hc.
  destruct (decide (tag = DATA)) as [->|_]; [|destruct (decide (tag = COVER)) as [->|_];
    [|destruct (decide (tag = DONE)) as [->|_]; [|destruct (decide (tag = FINISH)) as [->|_]]]].
  - (* DATA *)
    unfold loop_pure in Hl. destruct (verified s) eqn:Hv; cbn [bool_decide]; rewrite bool_decide_decide.
    { rewrite decide_True by done. by apply Hfail. }
    rewrite decide_False by (by intros []). destruct Hl as (-> & k & -> & Hh & Hrec & Hsz).
    cbn [inbox_size foldr] in Hsz. fold (inbox_size rest) in Hsz.
    pose proof (inbox_size_nonneg rest). pose proof (zlen_nonneg k). pose proof (zlen_nonneg c).
    assert (Hw : wadd64 (received s) (zlen c) = zlen (k ++ c)).
    { unfold wadd64. rewrite Hrec, zlen_app. apply Z.mod_small. lia. }
    rewrite Hw. apply triple_if; intros Hbig; [by apply Hfail|].
    eapply dest_bind; [apply write_all_triple|exact Hx|intros []].
    eapply dest_bind; [apply checkpoint_triple|exact Hx|intros lc].
    eapply dest_bind; [apply progress_triple|exact Hx|intros []].
    intros e He. exists raw, rest. split; [done|]. eexists _, _. split; [|exact He].
    unfold loop_pure. cbn [verified running received]. rewrite <- zlen_app. split; [done|].
    exists (k ++ c). split_and!; [done|by apply hashed_update|done|]. rewrite zlen_app. lia.
  - intros e He. exists raw, rest. split; [done|]. exists d, f. split; [|done].
    unfold loop_pure in *. cbn [verified running received]. destruct (verified s); [done|].
    destruct Hl as (-> & k & -> & Hh & Hrec & Hsz). cbn [inbox_size foldr] in Hsz.
    fold (inbox_size rest) in Hsz. pose proof (zlen_nonneg raw). split; [done|]. exists k.
    split_and!; try done. lia.
  - unfold loop_pure in Hl. destruct (verified s) eqn:Hv; cbn [bool_decide]; rewrite bool_decide_decide.
    { rewrite decide_True by done. by apply Hfail. }
    rewrite decide_False by (by intros []). destruct Hl as (-> & k & -> & Hh & Hrec & Hsz).
    eapply dest_bind; [apply lift_triple, decode_done_no_panic|exact Hx|].
    intros claimed. apply triple_pure. intros ->%decode_done_Ok. rewrite Hrec.
    eapply triple_bind; [by eapply finish_payload_triple|].
    intros x e (-> & Hdel & He). exists raw, rest. split; [done|]. exists (Some k), None.
    split; [|done]. unfold loop_pure. cbn [verified]. by exists k.
  - unfold loop_pure in Hl. destruct (verified s) eqn:Hv; [|by apply Hfail].
    destruct Hl as (p & -> & -> & -> & Hdel).
    eapply dest_bind; [apply t_send_triple|exact Hx|].
    intros [] e (Hd & _). exists raw, rest. split; [done|]. by exists p.
  - by apply Hfail.
Qed.

Lemma recv_loop_triple inbox0 tot d0 fl offset fuel : forall ib s,
  (forall m, m ∈ ib -> m ∈ inbox0) -> (length ib < fuel)%nat ->
  triple (loop_inv inbox0 fl tot d0 ib s) (recv_loop env fuel t fl tot offset s)
    (fun sm e => exists payload, dest e = Some payload /\ delivered inbox0 fl tot payload /\
       total sm = tot /\ hash sm = blake3 payload) (outcome_post inbox0 fl tot d0).
Proof.
  induction fuel as [|fuel IH]; intros ib s Hsub Hf; [lia|]. cbn [recv_loop].
  eapply triple_bind; [by apply recv_turn_triple|].
  intros [s'|sm] e (m & rest & -> & Hr).
  - eapply (IH rest s'); [|simpl in Hf; lia|done]. intros x Hx. apply Hsub. by right.
  - unfold mret. done.
Qed.

Lemma expect_triple d f ib want :
  triple (world d f ib) (expect want)
    (fun c e => exists m rest, ib = m :: rest /\ parse m = Ok (want, c) /\ world d f rest e) (dest_is d).
Proof.
  unfold expect. eapply triple_bind; [apply t_recv_triple|].
  intros raw e (rest & -> & He). revert e He. apply (triple_weaken _ _ (world d f rest)); [|done].
  eapply triple_bind; [apply lift_triple, parse_no_panic|]. intros [tag c]. apply triple_pure. intros Hp.
  destruct (decide _) as [Hn|Hn].
  - by intros e (Hd & _).
  - apply dec_stable in Hn as ->. intros e He. by exists raw, rest.
Qed.

(** The checkpoint interval rounds the length down. *)
Lemma resume_offset_range on_disk tot :
  0 <= on_disk -> 0 <= tot -> 0 <= resume_offset t on_disk tot <= Z.min on_disk tot.
Proof.
  intros Ho Ht. unfold resume_offset. destruct Hwf as [_ Hc].
  pose proof (Z.mul_div_le on_disk (checkpoint_len t) ltac:(lia)).
  pose proof (Z.div_pos on_disk (checkpoint_len t) Ho ltac:(lia)). lia.
Qed.

Lemma open_partial_triple d f ib :
  triple (world d f ib) (open_partial env)
    (fun _ => world d (Some (File (from_option content [] f) 0)) ib) (dest_is d).
Proof.
  intros e (Hd & Hf & Hi). unfold open_partial. destruct (io_fault env (ios e)); [done|].
  split_and!; try done. simpl. by rewrite Hf.
Qed.

(** Rewinding to the offset the sender chose. *)
Lemma rewind_triple d c cu ib offset h :
  hashed h c -> 0 <= offset <= zlen c ->
  triple (world d (Some (File c cu)) ib)
    (let! h := (if negb (offset =? zlen c)
                then let! _ := set_len env offset in hash_prefix env (chunk_len t) offset
                else mret h) in
     let! _ := seek env offset in mret h)
    (fun h e => hashed h (ztake offset c) /\ world d (Some (File (ztake offset c) offset)) ib e)
    (dest_is d).
Proof.
  intros Hh Ho.
  apply (triple_bind _ _ _ (fun h e => hashed h (ztake offset c) /\
    exists cu, world d (Some (File (ztake offset c) cu)) ib e)).
  - apply triple_if; intros Hc; bools.
    + eapply triple_bind; [apply set_len_triple|]. intros []. rewrite resize_short by lia.
      eapply triple_conseq.
      * apply (hash_prefix_triple d (ztake offset c) cu ib offset). rewrite zlen_take. lia.
      * done.
      * intros h' e [Hh' He]. rewrite ztake_ztake in Hh' by lia. eauto.
      * done.
    + subst offset. rewrite ztake_all by lia. intros e He. unfold mret. eauto.
  - intros h'. apply triple_pure. intros Hh'. intros e (cu' & He).
    pose proof (seek_triple d (ztake offset c) cu' ib offset e He) as Hs. unfold mbind.
    destruct (seek env offset e) as [[[]|x|] e']; [by split|done|done].
Qed.

(** What [recv_setup] establishes. *)
Definition set_up (inbox0 : list bytes) (d0 : option bytes) (f0 : option file)
    (r : Z * Z * Z * hasher) (e : endpoint) : Prop :=
  let '(fl, tot, offset, h) := r in
  exists offer start rest c, inbox0 = offer :: start :: rest /\ decode_offer offer = Ok tot /\ fl = zlen offer /\
    world d0 (Some (File c offset)) rest e /\ hashed h c /\ zlen c = offset /\
    offset <= zlen (from_option content [] f0).

Lemma setup_file_triple d0 f ib tot fl offer :
  is_u64 tot ->
  triple (world d0 f ib)
    (let! _ := open_partial env in
     let! on_disk := file_len env (Error.Transfer "stat") in
     let have := resume_offset t on_disk tot in
     let! _ := set_len env have in
     let! h := hash_prefix env (chunk_len t) have in
     let! _ := t_send (frame RESUME (be_bytes 8 have ++ hasher_finalize h) fl) in
     let! c := expect START in
     let! offset := lift (decode_start c) in
     if have <? offset then fails (Error.Transfer "sender asked to start beyond what we have") else
     let! h := (if negb (offset =? have)
                then let! _ := set_len env offset in hash_prefix env (chunk_len t) offset
                else mret h) in
     let! _ := seek env offset in
     let! _ := progress {| transferred := offset; p_total := tot; p_resumed_from := offset |} in
     mret (fl, tot, offset, h))
    (fun r e => decode_offer offer = Ok tot -> fl = zlen offer -> set_up (offer :: ib) d0 f r e) (dest_is d0).
Proof.
  intros Htot.
  set (c0 := from_option content [] f).
  eapply triple_bind; [apply open_partial_triple|intros []]. fold c0.
  eapply triple_bind; [apply file_len_triple|intros n]. apply triple_pure. intros ->.
  cbv zeta. set (have := resume_offset t (zlen c0) tot).
  assert (Hhave : 0 <= have <= Z.min (zlen c0) tot).
  { apply resume_offset_range; [apply zlen_nonneg|]. by destruct Htot. }
  eapply triple_bind; [apply set_len_triple|intros []]. rewrite resize_short by lia.
  set (c := ztake have c0). assert (Hc : zlen c = have) by (unfold c; zl).
  eapply triple_bind.
  { apply hash_prefix_triple. lia. }
  intros h. apply triple_pure. intros Hh. rewrite ztake_all in Hh by lia.
  eapply triple_bind; [apply t_send_triple|intros []].
  eapply triple_bind; [apply expect_triple|]. intros sc e (start & rest & -> & _ & He). revert e He.
  apply (triple_weaken _ _ (world d0 (Some (File c have)) rest)); [|done].
  eapply triple_bind; [apply lift_triple, decode_start_no_panic|]. intros offset.
  apply triple_pure. intros Ho%decode_start_range. destruct Ho.
  apply triple_if; intros Hlt; [by intros e (Hd & _)|]. bools.
  pose proof (rewind_triple d0 c have rest offset h Hh ltac:(lia)) as Hrew. rewrite Hc in Hrew.
  eapply triple_regroup; [exact Hrew|]. intros h'. apply triple_pure. intros Hh'.
  eapply triple_bind; [apply progress_triple|]. intros [] e He Hoffer Hflo.
  exists offer, start, rest, (ztake offset c). fold c0. split_and!; try done; [zl|lia].
Qed.

Lemma recv_setup_triple d0 f ib :
  triple (world d0 f ib) (recv_setup env t) (set_up ib d0 f) (dest_is d0).
Proof.
  unfold recv_setup. eapply triple_bind; [apply t_recv_triple|].
  intros offer e (rest & -> & He). revert e He. apply (triple_weaken _ _ (world d0 f rest)); [|done].
  apply triple_if; intros _; [by intros e (Hd & _)|].
  eapply triple_bind; [apply lift_triple, decode_offer_no_panic|]. intros tot.
  apply triple_pure. intros Htot.
  apply triple_if; intros _; [by intros e (Hd & _)|].
  pose proof (decode_offer_range _ _ Htot).
  eapply triple_conseq; [by apply (setup_file_triple d0 f rest tot (zlen offer) offer)|done| |done].
  intros r e Hr. by apply Hr.
Qed.

(** The whole receiver, from any state and against any peer. *)
Definition verified_payload (ib : list bytes) (payload : bytes) : Prop :=
  exists offer rest f, ib = offer :: rest /\ decode_offer offer = Ok (zlen payload) /\
    f ∈ rest /\ zlen f = zlen offer /\ parse f = Ok (DONE, blake3 payload).

Lemma recv_triple e0 :
  zlen (from_option content [] (part e0)) + inbox_size (inbox (chan e0)) < 2 ^ 64 ->
  let (r, e1) := recv env t e0 in
  r <> Panic /\
  (dest e1 = dest e0 \/
   exists payload, dest e1 = Some payload /\ verified_payload (inbox (chan e0)) payload) /\
  (forall sm, r = Ok sm -> exists payload, dest e1 = Some payload /\
     verified_payload (inbox (chan e0)) payload /\
     total sm = zlen payload /\ hash sm = blake3 payload).
Proof.
  intros Hsz. unfold recv, mbind.
  pose proof (recv_setup_triple (dest e0) (part e0) (inbox (chan e0)) e0 ltac:(by split_and!)) as Hs.
  destruct (recv_setup env t e0) as [[[[[fl tot] offset] h]|x|] e1]; [| |done].
  2: { split_and!; [done|by left|done]. }
  destruct Hs as (offer & start & rest & c & Hib & Hoffer & Hflo & Hw & Hh & Hc & Hle).
  rewrite Hib in *. cbn [inbox_size foldr] in Hsz. fold (inbox_size rest) in Hsz.
  pose proof (zlen_nonneg offer). pose proof (zlen_nonneg start).
  assert (Hinv : loop_inv (start :: rest) fl tot (dest e0) rest
    {| received := offset; last_checkpoint := offset; covers_seen := 0;
       verified := None; running := h |} e1).
  { exists (dest e0), (Some (File c offset)). split; [|done]. split; [done|].
    exists c. subst offset. split_and!; try done. lia. }
  assert (Hdel : forall payload, delivered (start :: rest) fl tot payload ->
    verified_payload (offer :: start :: rest) payload).
  { intros payload [Hlen (f & Hf & Hfl & Hp)]. exists offer, (start :: rest), f.
    rewrite Hlen. split_and!; try done. by rewrite Hfl. }
  pose proof (recv_loop_triple (start :: rest) tot (dest e0) fl offset
    (S (length (offer :: start :: rest))) rest _ ltac:(by right) ltac:(simpl; lia) e1 Hinv) as Hl.
  destruct (recv_loop _ _ _ _ _ _ _ e1) as [[sm|x|] e2]; [| |done].
  - destruct Hl as (payload & Hd & Hdl & Htot & Hhash). split_and!; [done| |].
    + right. eauto.
    + intros sm' [= <-]. exists payload. destruct Hdl as [Hlen ?] eqn:Hq. rewrite Htot.
      split_and!; [done|by apply Hdel|done|done].
  - split_and!; [done| |done]. destruct Hl as [Hd|(payload & Hd & Hdl)]; [by left|].
    right. eauto.
Qed.
End safety.

(** ** Completing a transfer

    Without faults or cancellation every step succeeds: triples whose error
    postcondition is false. *)

Definition never {S} (_ : Error.t) (_ : S) : Prop := False.

Definition ideal (env : environment) : Prop :=
  (forall n, io_fault env n = None) /\ (forall n, cancelled env n = false).

(** The chunks a sender cuts the payload into. *)
Fixpoint chunks (fuel : nat) (n : Z) (l : bytes) : list bytes :=
  match fuel with
  | O => []
  | S fuel => if zlen l =? 0 then [] else ztake n l :: chunks fuel n (zdrop n l)
  end.

Definition data_chunks (n : Z) (l : bytes) : list bytes := chunks (length l) n l.

Lemma chunks_spec n fuel l :
  1 <= n -> zlen l <= Z.of_nat fuel ->
  concat (chunks fuel n l) = l /\ Forall (fun b => 1 <= zlen b <= n) (chunks fuel n l) /\
  zlen (chunks fuel n l) = div_ceil (zlen l) n.
Proof.
  intros Hn. revert l. induction fuel as [|fuel IH]; intros l Hl; cbn [chunks].
  { assert (l = []) as -> by (apply zlen_0_nil; pose_zlens; lia).
    rewrite zlen_nil. unfold div_ceil. rewrite Z.mod_0_l by lia. done. }
  destruct (zlen l =? 0) eqn:Hc; bools.
  { apply zlen_0_nil in Hc as ->. rewrite zlen_nil. unfold div_ceil. rewrite Z.mod_0_l by lia. done. }
  pose proof (zlen_nonneg l).
  destruct (IH (zdrop n l)) as (H1 & H2 & H3); [rewrite zlen_drop; lia|].
  cbn [concat]. rewrite H1, ztake_zdrop, zlen_cons, H3, zlen_drop. split_and!; [done| |].
  - constructor; [|done]. rewrite zlen_take. lia.
  - destruct (decide (zlen l <= n)).
    + replace (Z.max 0 (zlen l - Z.max 0 n)) with 0 by lia. unfold div_ceil.
      rewrite Z.mod_0_l by lia. cbn [Z.eqb]. rewrite Z.div_0_l by lia.
      destruct (decide (zlen l = n)) as [->|].
      * by rewrite Z.mod_same, Z.div_same by lia.
      * rewrite Z.mod_small, Z.div_small by lia. by zdec.
    + replace (Z.max 0 (zlen l - Z.max 0 n)) with (zlen l + (-1) * n) by lia. unfold div_ceil.
      rewrite Z.mod_add, Z.div_add by lia. destruct (zlen l mod n =? 0); lia.
Qed.

Lemma data_chunks_spec n l :
  1 <= n ->
  concat (data_chunks n l) = l /\ Forall (fun b => 1 <= zlen b <= n) (data_chunks n l) /\
  zlen (data_chunks n l) = div_ceil (zlen l) n.
Proof. intros Hn. by apply chunks_spec. Qed.

Section ideal.
Context `{Blake3} `{!Blake3Laws _}.
Variable env : environment.
Hypothesis Henv : ideal env.

(** Channel, file, destination and generator. *)
Definition at_ (ib ob : list bytes) (f : option file) (d : option bytes) (g : rng) (e : endpoint) : Prop :=
  inbox (chan e) = ib /\ outbox (chan e) = ob /\ part e = f /\ dest e = d /\ gen e = g.

Lemma at_io {A} ib ob h d g err (f : file -> outcome Error.t (A * file)) a h' :
  f h = Ok (a, h') ->
  triple (at_ ib ob (Some h) d g) (io env err f)
    (fun x e => x = a /\ at_ ib ob (Some h') d g e) never.
Proof.
  intros Hf e (Hi & Ho & Hp & Hd & Hg). unfold io. rewrite (proj1 Henv), Hp, Hf.
  split; [done|]. by split_and!.
Qed.

Lemma at_seek ib ob c cu d g p :
  triple (at_ ib ob (Some (File c cu)) d g) (seek env p) (fun _ => at_ ib ob (Some (File c p)) d g) never.
Proof. eapply triple_conseq; [by eapply at_io|done|by intros [] e [_ ?]|done]. Qed.

Lemma at_set_len ib ob c cu d g n :
  triple (at_ ib ob (Some (File c cu)) d g) (set_len env n)
    (fun _ => at_ ib ob (Some (File (resize n c) cu)) d g) never.
Proof. eapply triple_conseq; [by eapply at_io|done|by intros [] e [_ ?]|done]. Qed.

Lemma at_file_len ib ob c cu d g err :
  triple (at_ ib ob (Some (File c cu)) d g) (file_len env err)
    (fun n e => n = zlen c /\ at_ ib ob (Some (File c cu)) d g e) never.
Proof. by apply at_io. Qed.

Lemma at_read ib ob c cu d g err n b :
  slice cu (cu + n) c = Some b ->
  triple (at_ ib ob (Some (File c cu)) d g) (read_exact env err n)
    (fun x e => x = b /\ at_ ib ob (Some (File c (cu + n))) d g e) never.
Proof. intros Hs. apply at_io. unfold f_read_exact. simpl. by rewrite Hs. Qed.

Lemma at_write ib ob c d g b :
  triple (at_ ib ob (Some (File c (zlen c))) d g) (write_all env b)
    (fun _ => at_ ib ob (Some (File (c ++ b) (zlen (c ++ b)))) d g) never.
Proof.
  intros e (Hi & Ho & Hp & Hd & Hg). unfold write_all, io. rewrite (proj1 Henv), Hp.
  unfold f_write. simpl. rewrite splice_end, zlen_app. by split_and!.
Qed.

Lemma at_sync ib ob h d g err :
  triple (at_ ib ob (Some h) d g) (sync env err) (fun _ => at_ ib ob (Some h) d g) never.
Proof.
  intros e (Hi & Ho & Hp & Hd & Hg). unfold sync, io. rewrite (proj1 Henv), Hp. by split_and!.
Qed.

Lemma at_check ib ob f d g : triple (at_ ib ob f d g) (check env) (fun _ => at_ ib ob f d g) never.
Proof.
  intros e He. unfold check, mbind, is_cancelled. by rewrite (proj2 Henv).
Qed.

Lemma at_is_cancelled ib ob f d g :
  triple (at_ ib ob f d g) (is_cancelled env) (fun c e => c = false /\ at_ ib ob f d g e) never.
Proof. intros e He. unfold is_cancelled. by rewrite (proj2 Henv). Qed.

Lemma at_send ib ob f d g m :
  zlen m <= MAX_FRAME_LEN ->
  triple (at_ ib ob f d g) (t_send m) (fun _ => at_ ib (ob ++ [m]) f d g) never.
Proof.
  intros Hm e (Hi & Ho & Hp & Hd & Hg). unfold t_send, chan_send. zdec. simpl.
  split_and!; try done. simpl. by rewrite Ho.
Qed.

Lemma at_recv ib ob f d g m :
  triple (at_ (m :: ib) ob f d g) t_recv (fun x e => x = m /\ at_ ib ob f d g e) never.
Proof.
  intros e (Hi & Ho & Hp & Hd & Hg). unfold t_recv, chan_recv. rewrite Hi. by split_and!.
Qed.

Lemma at_expect ib ob f d g m want c :
  parse m = Ok (want, c) ->
  triple (at_ (m :: ib) ob f d g) (expect want) (fun x e => x = c /\ at_ ib ob f d g e) never.
Proof.
  intros Hp. unfold expect. eapply triple_bind; [apply at_recv|]. intros x.
  apply triple_pure. intros ->. rewrite Hp. intros e He. unfold mbind, lift.
  rewrite decide_False by (intros Hn; by apply Hn). by split.
Qed.

Lemma at_progress ib ob f d g p : triple (at_ ib ob f d g) (progress p) (fun _ => at_ ib ob f d g) never.
Proof. by intros e He. Qed.

Lemma at_tick ib ob f d g : triple (at_ ib ob f d g) (tick_ env) (fun _ => at_ ib ob f d g) never.
Proof.
  intros e He. unfold tick_. destruct (pacer_ e); [|done]. by destruct (clock env (ticks_ e)).
Qed.

Lemma at_hash_loop ib ob d g c bl n fuel : forall read h,
  1 <= bl -> 0 <= read <= n -> n <= zlen c -> n - read <= Z.of_nat fuel -> hashed h (ztake read c) ->
  triple (at_ ib ob (Some (File c read)) d g) (hash_loop env fuel bl n read h)
    (fun h e => hashed h (ztake n c) /\ at_ ib ob (Some (File c n)) d g e) never.
Proof.
  induction fuel as [|fuel IH]; intros read h Hbl Hr Hn Hf Hh; cbn [hash_loop];
    (destruct (read <? n) eqn:Hc; bools; [|intros e He; replace n with read by lia; by split]).
  { lia. }
  destruct (slice read (read + Z.min (n - read) bl) c) as [b|] eqn:Hs.
  2: { apply slice_None in Hs. lia. }
  eapply triple_bind; [by apply at_read|]. intros x. apply triple_pure. intros ->.
  apply IH; try lia. rewrite (slice_step _ _ _ _ Hs). by apply hashed_update.
Qed.

Lemma at_hash_prefix ib ob d g c cu bl n :
  1 <= bl -> 0 <= n <= zlen c ->
  triple (at_ ib ob (Some (File c cu)) d g) (hash_prefix env bl n)
    (fun h e => hashed h (ztake n c) /\ at_ ib ob (Some (File c n)) d g e) never.
Proof.
  intros Hb Hn. unfold hash_prefix. eapply triple_bind; [apply at_seek|]. intros [].
  apply at_hash_loop; try lia. apply hashed_new.
Qed.

(** *** The sender *)

Definition data_frame (t : Transfer) (b : bytes) : bytes := frame DATA b (frame_len t).

Lemma zlen_frame_le t tag c :
  transfer_wf t -> zlen c <= chunk_len t \/ zlen c <= 40 -> zlen (frame tag c (frame_len t)) <= MAX_FRAME_LEN.
Proof.
  intros [Hc _] Hl. rewrite zlen_frame. unfold frame_len, HEADER_LEN, MAX_FRAME_LEN in *. lia.
Qed.

Lemma at_data_loop t ib d g src offset fuel : forall ob sent em h,
  transfer_wf t -> 0 <= sent <= zlen src -> zlen src - sent <= Z.of_nat fuel ->
  hashed h (ztake sent src) ->
  triple (at_ ib ob (Some (File src sent)) d g)
    (data_loop env fuel t (zlen src) offset sent em h)
    (fun r e => fst r = em + zlen (chunks fuel (chunk_len t) (zdrop sent src)) /\
       hashed (snd r) src /\
       at_ ib (ob ++ map (data_frame t) (chunks fuel (chunk_len t) (zdrop sent src)))
         (Some (File src (zlen src))) d g e) never.
Proof.
  induction fuel as [|fuel IH]; intros ob sent em h Ht Hs Hf Hh; cbn [data_loop chunks].
  { destruct (sent <? zlen src) eqn:Hc; bools; [lia|]. intros e He. unfold mret. simpl.
    replace sent with (zlen src) in * by lia. rewrite ztake_all in Hh by lia.
    rewrite zlen_nil, app_nil_r. split_and!; [lia|done|done]. }
  rewrite zlen_drop. destruct (sent <? zlen src) eqn:Hc; bools.
  2: { zdec. intros e He. unfold mret. simpl.
       replace sent with (zlen src) in * by lia. rewrite ztake_all in Hh by lia.
       rewrite zlen_nil, app_nil_r. split_and!; [lia|done|done]. }
  zdec. destruct Ht as [Hcl Hck]. set (want := Z.min (zlen src - sent) (chunk_len t)).
  eapply triple_bind; [apply at_check|intros []]. eapply triple_bind; [apply at_tick|intros []].
  destruct (slice sent (sent + want) src) as [b|] eqn:Hsl.
  2: { apply slice_None in Hsl. lia. }
  eapply triple_bind; [by apply at_read|]. intros x. apply triple_pure. intros ->.
  pose proof (slice_length _ _ _ _ Hsl) as Hbl.
  eapply triple_bind; [apply at_send, zlen_frame_le; [by split|lia]|intros []].
  eapply triple_bind; [apply at_progress|intros []].
  assert (Hb : ztake (chunk_len t) (zdrop sent src) = b).
  { apply slice_Some in Hsl as (_ & _ & ->). replace (sent + want - sent) with want by lia.
    unfold want. destruct (decide (zlen src - sent <= chunk_len t)).
    - rewrite !ztake_all; [done|rewrite zlen_drop; lia|rewrite zlen_drop; lia].
    - by rewrite Z.min_r by lia. }
  assert (Hd : zdrop (chunk_len t) (zdrop sent src) = zdrop (sent + want) src).
  { rewrite zdrop_zdrop by lia. unfold want. destruct (decide (zlen src - sent <= chunk_len t)).
    - rewrite !zdrop_all by lia. done.
    - by rewrite Z.min_r by lia. }
  rewrite Hb, Hd. eapply triple_conseq.
  { apply (IH (ob ++ [data_frame t b]) (sent + want) (em + 1) (hasher_update h b)); try lia; [by split|].
    rewrite (slice_step _ _ _ _ Hsl). by apply hashed_update. }
  - done.
  - intros [em' h'] e (Hem & Hh' & He). cbn [fst snd map] in *. rewrite zlen_cons.
    rewrite <- app_assoc in He. split_and!; [lia|done|done].
  - done.
Qed.

Lemma at_cover_loop t ib f d g planned fuel : forall ob em cov,
  transfer_wf t -> planned - em <= Z.of_nat fuel ->
  triple (at_ ib ob f d g) (cover_loop env fuel t planned em cov)
    (fun n e => n = cov + Z.max 0 (planned - em) /\
       at_ ib (ob ++ zrep (planned - em) (frame COVER [] (frame_len t))) f d g e) never.
Proof.
  induction fuel as [|fuel IH]; intros ob em cov Ht Hf; cbn [cover_loop];
    (destruct (em <? planned) eqn:Hc; bools).
  - lia.
  - intros e He. unfold mret, zrep. replace (Z.to_nat (planned - em)) with 0%nat by lia.
    simpl. rewrite app_nil_r. split; [lia|done].
  - eapply triple_bind; [apply at_is_cancelled|]. intros c. apply triple_pure. intros ->.
    eapply triple_bind; [apply at_tick|intros []].
    eapply triple_bind; [apply at_send, zlen_frame_le; [done|right; by rewrite zlen_nil]|intros []].
    eapply triple_conseq; [apply (IH (ob ++ [frame COVER [] (frame_len t)]) (em + 1) (cov + 1)); [done|lia]|done| |done].
    intros n e [-> He]. split; [lia|]. rewrite <- app_assoc in He.
    replace (zrep (planned - em) (frame COVER [] (frame_len t)))
      with (frame COVER [] (frame_len t) :: zrep (planned - (em + 1)) (frame COVER [] (frame_len t))).
    + done.
    + unfold zrep. by replace (Z.to_nat (planned - em)) with (S (Z.to_nat (planned - (em + 1)))) by lia.
  - intros e He. unfold mret, zrep. replace (Z.to_nat (planned - em)) with 0%nat by lia.
    simpl. rewrite app_nil_r. split; [lia|done].
Qed.

(** Where a sender starts, given what a receiver reported. *)
Definition seam (src : bytes) (have : Z) (prefix_hash : bytes) : Z :=
  if decide (0 < have <= zlen src /\ blake3 (ztake have src) = prefix_hash) then have else 0.

Lemma seam_range src have ph : 0 <= seam src have ph <= zlen src.
Proof. unfold seam. pose proof (zlen_nonneg src). case_decide; lia. Qed.

Lemma at_choose_offset t ib ob d g src cu have ph :
  transfer_wf t ->
  triple (at_ ib ob (Some (File src cu)) d g) (choose_offset env t (zlen src) have ph)
    (fun r e => fst r = seam src have ph /\ hashed (snd r) (ztake (seam src have ph) src) /\
       exists cu, at_ ib ob (Some (File src cu)) d g e) never.
Proof.
  intros [Hc _]. unfold choose_offset, seam.
  destruct (0 <? have) eqn:H1; cbn [andb]; bools.
  2: { rewrite decide_False by lia. intros e He. unfold mret. split_and!; [done|apply hashed_new|eauto]. }
  destruct (have <=? zlen src) eqn:H2; bools.
  2: { rewrite decide_False by lia. intros e He. unfold mret. split_and!; [done|apply hashed_new|eauto]. }
  eapply triple_bind; [apply at_hash_prefix; lia|]. intros h. apply triple_pure. intros Hh.
  rewrite (hashed_finalize _ _ Hh). destruct (decide (blake3 _ = ph)) as [Hph|Hph].
  - rewrite decide_True by done. intros e He. unfold mret. eauto.
  - rewrite decide_False by tauto. intros e He. unfold mret. split_and!; [done|apply hashed_new|eauto].
Qed.

Definition sender_frames (t : Transfer) (src : bytes) (offset planned : Z) : list bytes :=
  let fl := frame_len t in
  [frame START (be_bytes 8 offset) fl]
  ++ map (data_frame t) (data_chunks (chunk_len t) (zdrop offset src))
  ++ [frame DONE (blake3 src) fl]
  ++ zrep (planned - div_ceil (zlen src - offset) (chunk_len t)) (frame COVER [] fl)
  ++ [frame FINISH [] fl].

Definition offer_frame (t : Transfer) (src : bytes) : bytes :=
  frame OFFER (be_bytes 8 (zlen src)) (frame_len t).

Definition sender_summary (t : Transfer) (src : bytes) (offset planned : Z) : Summary :=
  {| total := zlen src; resumed_from := offset; hash := blake3 src;
     cover_frames := Z.max 0 (planned - div_ceil (zlen src - offset) (chunk_len t)) |}.

Lemma at_open_source ib ob src cu d g :
  triple (at_ ib ob (Some (File src cu)) d g) (open_source env)
    (fun _ => at_ ib ob (Some (File src 0)) d g) never.
Proof.
  intros e (Hi & Ho & Hp & Hd & Hg). unfold open_source. rewrite (proj1 Henv), Hp. by split_and!.
Qed.

Lemma at_draw_plan t ib ob f d g n k g' :
  plan (draws env) (pacing t) n g = Ok (k, g') ->
  triple (at_ ib ob f d g) (draw_plan env t n) (fun x e => x = k /\ at_ ib ob f d g' e) never.
Proof.
  intros Hp e (Hi & Ho & Hpt & Hd & Hg). unfold draw_plan. rewrite Hg, Hp. by split_and!.
Qed.

Lemma at_start_pacer t ib ob f d g :
  triple (at_ ib ob f d g) (start_pacer env t) (fun _ => at_ ib ob f d g) never.
Proof. by intros e He. Qed.

Lemma sender_runs t src cu d g have ph flr fla offset planned g' :
  transfer_wf t -> is_u64 (zlen src) -> is_u64 have -> zlen ph = 32 -> offset = seam src have ph ->
  plan (draws env) (pacing t) (div_ceil (zlen src - offset) (chunk_len t)) g = Ok (planned, g') ->
  triple (at_ [frame RESUME (be_bytes 8 have ++ ph) flr; frame ACK [] fla] [] (Some (File src cu)) d g)
    (send env t)
    (fun sm e => sm = sender_summary t src offset planned /\
       at_ [] (offer_frame t src :: sender_frames t src offset planned)
         (Some (File src (zlen src))) d g' e) never.
Proof.
  intros Ht Hsrc Hhave Hph Hoff Hplan. pose proof Ht as [Hcl _].
  pose proof (seam_range src have ph) as Hr. rewrite <- Hoff in Hr.
  unfold send. eapply triple_bind; [apply at_open_source|intros []].
  eapply triple_bind; [apply at_file_len|intros n]. apply triple_pure. intros ->.
  eapply triple_bind; [apply at_send, zlen_frame_le; [done|rewrite zlen_be_bytes; lia]|intros []].
  eapply triple_bind.
  { eapply at_expect, parse_frame. rewrite zlen_app, zlen_be_bytes, Hph. done. }
  intros c. apply triple_pure. intros ->. rewrite decode_resume_bytes by done.
  eapply (triple_bind _ _ _ (fun r e => r = (have, ph) /\ _ e)); [by intros e He|].
  intros r. apply triple_pure. intros ->.
  eapply triple_bind; [by apply at_choose_offset|]. rewrite <- Hoff. intros [off h].
  cbn [fst snd]. apply triple_pure. intros ->. apply triple_pure. intros Hh e (cu' & He). revert e He.
  match goal with |- forall e, at_ ?a ?b ?c ?d ?g e -> _ =>
    apply (triple_weaken _ _ (at_ a b c d g)); [|done] end.
  eapply triple_bind; [apply at_send, zlen_frame_le; [done|rewrite zlen_be_bytes; lia]|intros []].
  eapply triple_bind; [apply at_seek|intros []].
  eapply triple_bind; [by apply at_draw_plan|]. intros k. apply triple_pure. intros ->.
  eapply triple_bind; [apply at_start_pacer|intros []].
  eapply triple_bind; [apply at_progress|intros []].
  eapply triple_bind; [apply at_data_loop; try done; lia|].
  assert (Hchunks : chunks (Z.to_nat (zlen src - offset)) (chunk_len t) (zdrop offset src)
                    = data_chunks (chunk_len t) (zdrop offset src)).
  { unfold data_chunks. f_equal. unfold zdrop, zlen. rewrite length_drop. lia. }
  rewrite Hchunks. destruct (data_chunks_spec (chunk_len t) (zdrop offset src)) as (_ & _ & Hcount); [lia|].
  rewrite Hcount, zlen_drop. replace (Z.max 0 (zlen src - Z.max 0 offset)) with (zlen src - offset) by lia.
  intros [em h']. cbn [fst snd]. apply triple_pure. intros ->. apply triple_pure. intros Hh'.
  rewrite (hashed_finalize _ _ Hh').
  eapply triple_bind; [apply at_tick|intros []].
  eapply triple_bind; [apply at_send, zlen_frame_le; [done|rewrite blake3_length; lia]|intros []].
  eapply triple_bind; [apply at_cover_loop; [done|lia]|]. intros cov. apply triple_pure. intros ->.
  eapply triple_bind; [apply at_tick|intros []].
  eapply triple_bind; [apply at_send, zlen_frame_le; [done|rewrite zlen_nil; lia]|intros []].
  eapply triple_bind; [eapply at_expect, parse_frame; by rewrite zlen_nil|].
  intros c. apply triple_pure. intros ->. intros e He. unfold mret, sender_summary.
  split; [by rewrite Z.add_0_l|]. revert He. unfold sender_frames, offer_frame.
  by rewrite !Z.add_0_l, <- !app_assoc.
Qed.

(** *** The receiver *)

(** One turn of the loop on each kind of frame. *)
Definition loop_state (c : bytes) (cov : Z) (v : option bytes) (s : progress_state) : Prop :=
  received s = zlen c /\ covers_seen s = cov /\ verified s = v /\ hashed (running s) c.

Lemma at_checkpoint ib ob h d g (c : bool) rcv lc :
  triple (at_ ib ob (Some h) d g)
    (if c then let! _ := sync env (Error.Transfer "fsync") in mret rcv else mret lc)
    (fun (_ : Z) => at_ ib ob (Some h) d g) never.
Proof.
  apply triple_if; intros _; [|by intros e He].
  eapply triple_bind; [apply at_sync|]. by intros [] e He.
Qed.

Lemma turn_data t fl tot offset ib ob d g b c cov s :
  zlen (frame DATA b fl) = fl -> zlen b <= u32_max -> zlen c + zlen b <= tot -> is_u64 tot ->
  loop_state c cov None s ->
  triple (at_ (frame DATA b fl :: ib) ob (Some (File c (zlen c))) d g) (recv_turn env t fl tot offset s)
    (fun r e => exists s', r = inl s' /\ loop_state (c ++ b) cov None s' /\
       at_ ib ob (Some (File (c ++ b) (zlen (c ++ b)))) d g e) never.
Proof.
  intros Hfl Hb Htot Hu (Hr & Hcv & Hv & Hh). destruct Hu. unfold recv_turn.
  eapply triple_bind; [apply at_check|intros []].
  eapply triple_bind; [apply at_recv|]. intros raw. apply triple_pure. intros ->. rewrite Hfl.
  rewrite Z.eqb_refl. cbn [negb]. rewrite parse_frame by done.
  eapply (triple_bind _ _ _ (fun r e => r = (DATA, b) /\ _ e)); [by intros e He|].
  intros r. apply triple_pure. intros ->. rewrite decide_True by done. rewrite Hv.
  rewrite bool_decide_false by (by intros []). pose proof (zlen_nonneg c). pose proof (zlen_nonneg b).
  assert (Hw : wadd64 (received s) (zlen b) = zlen (c ++ b)).
  { unfold wadd64. rewrite Hr, zlen_app. apply Z.mod_small. lia. }
  rewrite Hw. rewrite zlen_app. zdec. rewrite <- zlen_app.
  eapply triple_bind; [apply at_write|intros []].
  eapply triple_bind; [apply at_checkpoint|intros lc].
  eapply triple_bind; [apply at_progress|intros []].
  intros e He. eexists. split; [done|]. split; [|done]. split_and!; try done.
  by apply hashed_update.
Qed.

Lemma turn_cover t fl tot offset ib ob f d g c cov v s :
  zlen (frame COVER [] fl) = fl -> loop_state c cov v s ->
  triple (at_ (frame COVER [] fl :: ib) ob f d g) (recv_turn env t fl tot offset s)
    (fun r e => exists s', r = inl s' /\ loop_state c (cov + 1) v s' /\ at_ ib ob f d g e) never.
Proof.
  intros Hfl (Hr & Hcv & Hv & Hh). unfold recv_turn.
  eapply triple_bind; [apply at_check|intros []].
  eapply triple_bind; [apply at_recv|]. intros raw. apply triple_pure. intros ->. rewrite Hfl.
  rewrite Z.eqb_refl. cbn [negb]. rewrite parse_frame by (by rewrite zlen_nil).
  eapply (triple_bind _ _ _ (fun r e => r = (COVER, []) /\ _ e)); [by intros e He|].
  intros r. apply triple_pure. intros ->. rewrite decide_False, decide_True by done.
  intros e He. eexists. split; [done|]. split; [|done]. split_and!; simpl; try done. lia.
Qed.

Lemma turn_done t fl offset ib ob d g c cov s :
  zlen (frame DONE (blake3 c) fl) = fl -> loop_state c cov None s ->
  triple (at_ (frame DONE (blake3 c) fl :: ib) ob (Some (File c (zlen c))) d g)
    (recv_turn env t fl (zlen c) offset s)
    (fun r e => exists s', r = inl s' /\ loop_state c cov (Some (blake3 c)) s' /\
       at_ ib ob None (Some c) g e) never.
Proof.
  intros Hfl (Hr & Hcv & Hv & Hh). unfold recv_turn.
  eapply triple_bind; [apply at_check|intros []].
  eapply triple_bind; [apply at_recv|]. intros raw. apply triple_pure. intros ->. rewrite Hfl.
  rewrite Z.eqb_refl. cbn [negb]. rewrite parse_frame by (by rewrite blake3_length).
  eapply (triple_bind _ _ _ (fun r e => r = (DONE, blake3 c) /\ _ e)); [by intros e He|].
  intros r. apply triple_pure. intros ->. rewrite !(decide_False (P := DONE = _)) by done.
  rewrite decide_True by done. rewrite Hv, bool_decide_false by (by intros []).
  assert (Hd : decode_done (blake3 c) = Ok (blake3 c)).
  { unfold decode_done. by rewrite fixed_obind, blake3_length. }
  rewrite Hd. eapply (triple_bind _ _ _ (fun r e => r = blake3 c /\ _ e)); [by intros e He|].
  intros r. apply triple_pure. intros ->. unfold finish_payload. rewrite Hr, Z.eqb_refl. cbn [negb].
  rewrite (hashed_finalize _ _ Hh). rewrite decide_False by (intros Hn; by apply Hn).
  intros e He. rewrite mbind_assoc.
  pose proof (at_sync ib ob (File c (zlen c)) d g (Error.Transfer "final fsync") e He) as Hs.
  unfold mbind at 1. destruct (sync _ _ e) as [[[]|x|] e1]; [|done|done].
  destruct Hs as (Hi & Ho & Hp & Hd' & Hg).
  unfold mbind, rename, sync_parent_dir, modify, mret. rewrite (proj1 Henv).
  eexists. split; [done|]. split; [by split_and!|]. rewrite Hp. by split_and!.
Qed.

Lemma turn_finish t fl tot offset ib ob f d g c cov h s :
  zlen (frame FINISH [] fl) = fl -> zlen (frame ACK [] fl) <= MAX_FRAME_LEN ->
  loop_state c cov (Some h) s ->
  triple (at_ (frame FINISH [] fl :: ib) ob f d g) (recv_turn env t fl tot offset s)
    (fun r e => r = inr {| total := tot; resumed_from := offset; hash := h; cover_frames := cov |} /\
       at_ ib (ob ++ [frame ACK [] fl]) f d g e) never.
Proof.
  intros Hfl Hack (Hr & Hcv & Hv & Hh). unfold recv_turn.
  eapply triple_bind; [apply at_check|intros []].
  eapply triple_bind; [apply at_recv|]. intros raw. apply triple_pure. intros ->. rewrite Hfl.
  rewrite Z.eqb_refl. cbn [negb]. rewrite parse_frame by (by rewrite zlen_nil).
  eapply (triple_bind _ _ _ (fun r e => r = (FINISH, []) /\ _ e)); [by intros e He|].
  intros r. apply triple_pure. intros ->. rewrite !(decide_False (P := FINISH = _)) by done.
  rewrite decide_True by done. rewrite Hv.
  eapply triple_bind; [by apply at_send|intros []]. intros e He. unfold mret. by rewrite Hcv.
Qed.

(** The loop over the frames of each phase, in front of what follows. *)
Lemma loop_step t fl tot offset fuel s P Q (R : progress_state -> endpoint -> Prop) X :
  triple P (recv_turn env t fl tot offset s) (fun r e => exists s', r = inl s' /\ R s' e) X ->
  (forall s', triple (R s') (recv_loop env fuel t fl tot offset s') Q X) ->
  triple P (recv_loop env (S fuel) t fl tot offset s) Q X.
Proof.
  intros H1 H2. cbn [recv_loop]. eapply triple_bind; [exact H1|].
  intros r e (s' & -> & He). by apply (H2 s').
Qed.

Lemma loop_data t fl tot offset ob d g fuel cov Q : forall bs rest c s,
  Forall (fun b => zlen (frame DATA b fl) = fl /\ zlen b <= u32_max) bs ->
  zlen c + zlen (concat bs) <= tot -> is_u64 tot -> loop_state c cov None s ->
  (forall s', loop_state (c ++ concat bs) cov None s' ->
     triple (at_ rest ob (Some (File (c ++ concat bs) (zlen (c ++ concat bs)))) d g)
       (recv_loop env fuel t fl tot offset s') Q never) ->
  triple (at_ (map (fun b => frame DATA b fl) bs ++ rest) ob (Some (File c (zlen c))) d g)
    (recv_loop env (length bs + fuel) t fl tot offset s) Q never.
Proof.
  induction bs as [|b bs IH]; intros rest c s Hbs Htot Hu Hs Hk.
  { simpl in *. rewrite app_nil_r in Hk. by apply Hk. }
  inversion Hbs as [|? ? [Hb1 Hb2] Hbs']; subst. cbn [map app length Nat.add concat] in *.
  rewrite zlen_app in Htot. pose proof (zlen_nonneg (concat bs)).
  eapply (loop_step _ _ _ _ _ _ _ _ (fun s' e => loop_state (c ++ b) cov None s' /\
    at_ (map (fun b => frame DATA b fl) bs ++ rest) ob (Some (File (c ++ b) (zlen (c ++ b)))) d g e)).
  - apply turn_data; try done. lia.
  - intros s'. apply triple_pure. intros Hs'. apply IH; try done.
    + rewrite zlen_app. lia.
    + intros s'' Hs''. rewrite <- app_assoc in *. by apply Hk.
Qed.

Lemma loop_cover t fl tot offset ob f d g v c fuel Q : forall n rest cov s,
  zlen (frame COVER [] fl) = fl -> loop_state c cov v s ->
  (forall s', loop_state c (cov + Z.of_nat n) v s' ->
     triple (at_ rest ob f d g) (recv_loop env fuel t fl tot offset s') Q never) ->
  triple (at_ (replicate n (frame COVER [] fl) ++ rest) ob f d g)
    (recv_loop env (n + fuel) t fl tot offset s) Q never.
Proof.
  induction n as [|n IH]; intros rest cov s Hfl Hs Hk.
  { simpl. apply Hk. by rewrite Z.add_0_r. }
  cbn [replicate app Nat.add].
  eapply (loop_step _ _ _ _ _ _ _ _ (fun s' e => loop_state c (cov + 1) v s' /\
    at_ (replicate n (frame COVER [] fl) ++ rest) ob f d g e)).
  - by apply turn_cover.
  - intros s'. apply triple_pure. intros Hs'. apply (IH rest (cov + 1)); [done|done|].
    intros s'' Hs''. apply Hk. by replace (cov + Z.of_nat (S n)) with (cov + 1 + Z.of_nat n) by lia.
Qed.

Lemma at_open_partial ib ob f d g :
  triple (at_ ib ob f d g) (open_partial env)
    (fun _ => at_ ib ob (Some (File (from_option content [] f) 0)) d g) never.
Proof.
  intros e (Hi & Ho & Hp & Hd & Hg). unfold open_partial. rewrite (proj1 Henv), Hp. by split_and!.
Qed.

(** The frames of [ts] all have its frame length when its chunks are not tiny. *)
Lemma sender_frame_len ts tag c :
  zlen c <= chunk_len ts -> zlen (frame tag c (frame_len ts)) = frame_len ts.
Proof. intros Hc. apply frame_fits. unfold frame_len. lia. Qed.

(** The loop, from the first data frame to the end. *)
Lemma receiver_loop tr ts ob d g src offset planned s k :
  transfer_wf ts -> 32 <= chunk_len ts -> is_u64 (zlen src) -> 0 <= offset <= zlen src ->
  loop_state (ztake offset src) 0 None s ->
  triple (at_ (tail (sender_frames ts src offset planned)) ob (Some (File (ztake offset src) offset)) d g)
    (recv_loop env (length (tail (sender_frames ts src offset planned)) + k) tr (frame_len ts)
       (zlen src) offset s)
    (fun sm e => sm = sender_summary ts src offset planned /\
       at_ [] (ob ++ [frame ACK [] (frame_len ts)]) None (Some src) g e) never.
Proof.
  intros Hts Hc Hsrc Ho Hs. pose proof Hts as [Hcl _]. unfold sender_frames. cbn [tail app].
  destruct (data_chunks_spec (chunk_len ts) (zdrop offset src)) as (Hcat & Hlens & _); [lia|].
  set (bs := data_chunks (chunk_len ts) (zdrop offset src)) in *.
  set (n := planned - div_ceil (zlen src - offset) (chunk_len ts)).
  rewrite !length_app, length_map. unfold zrep. cbn [length].
  rewrite length_app, length_replicate. cbn [length].
  rewrite <- Nat.add_assoc. cbn [Nat.add]. rewrite <- Nat.add_assoc. cbn [Nat.add].
  assert (Hoff : zlen (ztake offset src) = offset) by (rewrite zlen_take; lia).
  replace (File (ztake offset src) offset) with (File (ztake offset src) (zlen (ztake offset src)))
    by (by rewrite Hoff).
  apply (loop_data _ _ _ _ _ _ _ _ 0); [|rewrite Hcat, Hoff, zlen_drop; lia|done|exact Hs|].
  { eapply Forall_impl; [|exact Hlens]. intros b Hb. cbv beta in Hb.
    split; [apply sender_frame_len; lia|].
    unfold u32_max, MAX_FRAME_LEN, HEADER_LEN in *. lia. }
  rewrite Hcat, ztake_zdrop. intros s1 Hs1. cbn [Nat.add app].
  eapply (loop_step _ _ _ _ _ _ _ _ (fun s' e => loop_state src 0 (Some (blake3 src)) s' /\
    at_ (replicate (Z.to_nat n) (frame COVER [] (frame_len ts)) ++ [frame FINISH [] (frame_len ts)])
      ob None (Some src) g e)).
  { eapply triple_conseq; [apply turn_done; [|exact Hs1]|done|done|done].
    apply sender_frame_len. rewrite blake3_length. lia. }
  intros s2. apply triple_pure. intros Hs2.
  apply (loop_cover _ _ _ _ _ _ _ _ (Some (blake3 src)) src (S k) _ _ _ 0); [|exact Hs2|].
  { apply sender_frame_len. rewrite zlen_nil. lia. }
  intros s3 Hs3. cbn [recv_loop].
  eapply triple_bind.
  { eapply turn_finish; [| |exact Hs3].
    - apply sender_frame_len. rewrite zlen_nil. lia.
    - apply zlen_frame_le; [done|]. rewrite zlen_nil. lia. }
  intros r. apply triple_pure. intros -> e He. unfold mret, sender_summary. split; [|done].
  f_equal. lia.
Qed.

Lemma at_rewind ib ob d g tr c cu offset h :
  transfer_wf tr -> hashed h c -> 0 <= offset <= zlen c ->
  triple (at_ ib ob (Some (File c cu)) d g)
    (let! h := (if negb (offset =? zlen c)
                then let! _ := set_len env offset in hash_prefix env (chunk_len tr) offset
                else mret h) in
     let! _ := seek env offset in mret h)
    (fun h e => hashed h (ztake offset c) /\ at_ ib ob (Some (File (ztake offset c) offset)) d g e) never.
Proof.
  intros [Hcl _] Hh Ho.
  apply (triple_bind _ _ _ (fun h e => hashed h (ztake offset c) /\
    exists cu, at_ ib ob (Some (File (ztake offset c) cu)) d g e)).
  - apply triple_if; intros Hc; bools.
    + eapply triple_bind; [apply at_set_len|]. intros []. rewrite resize_short by lia.
      eapply triple_conseq.
      * apply (at_hash_prefix ib ob d g (ztake offset c) cu (chunk_len tr) offset); [lia|].
        rewrite zlen_take. lia.
      * done.
      * intros h' e [Hh' He]. rewrite ztake_ztake in Hh' by lia. eauto.
      * done.
    + subst offset. rewrite ztake_all by lia. intros e He. unfold mret. eauto.
  - intros h'. apply triple_pure. intros Hh' e (cu' & He). revert e He.
    apply (triple_weaken _ _ (at_ ib ob (Some (File (ztake offset c) cu')) d g)); [|done].
    eapply triple_bind; [apply at_seek|]. by intros [] e He.
Qed.

(** The receiver's setup against an honest sender. *)
Lemma receiver_setup tr ts f d g src offset planned :
  transfer_wf tr -> transfer_wf ts -> 32 <= chunk_len ts -> is_u64 (zlen src) ->
  match max_total_len tr with Some m => zlen src <= m | None => True end ->
  let p := from_option content [] f in
  let have := resume_offset tr (zlen p) (zlen src) in
  (offset = have /\ ztake have p = ztake have src) \/ offset = 0 ->
  triple (at_ (offer_frame ts src :: sender_frames ts src offset planned) [] f d g) (recv_setup env tr)
    (fun r e => exists h, r = (frame_len ts, zlen src, offset, h) /\ hashed h (ztake offset src) /\
       at_ (tail (sender_frames ts src offset planned))
         [frame RESUME (be_bytes 8 have ++ blake3 (ztake have p)) (frame_len ts)]
         (Some (File (ztake offset src) offset)) d g e) never.
Proof.
  intros Htr Hts Hc Hsrc Hmax p have Hoff. pose proof Hts as [Hcl _]. pose proof Htr as [Hcr _].
  pose proof (resume_offset_range tr Htr (zlen p) (zlen src) (zlen_nonneg p) (zlen_nonneg src)) as Hhave.
  fold have in Hhave. unfold recv_setup, offer_frame.
  assert (Hfl : zlen (frame OFFER (be_bytes 8 (zlen src)) (frame_len ts)) = frame_len ts).
  { apply sender_frame_len. rewrite zlen_be_bytes. lia. }
  eapply triple_bind; [apply at_recv|]. intros offer. apply triple_pure. intros ->. rewrite Hfl.
  assert (Hrange : (HEADER_LEN <=? frame_len ts) && (frame_len ts <=? MAX_FRAME_LEN) = true).
  { unfold frame_len, HEADER_LEN, MAX_FRAME_LEN in *. zdec. done. }
  rewrite Hrange. cbn [negb]. rewrite decode_offer_frame by done.
  eapply (triple_bind _ _ _ (fun r e => r = zlen src /\ _ e)); [by intros e He|].
  intros r. apply triple_pure. intros ->.
  replace (match max_total_len tr with Some m => m <? zlen src | None => false end) with false.
  2: { destruct (max_total_len tr); [by zdec|done]. }
  eapply triple_bind; [apply at_open_partial|intros []]. fold p.
  eapply triple_bind; [apply at_file_len|intros n]. apply triple_pure. intros ->. fold have.
  eapply triple_bind; [apply at_set_len|intros []]. rewrite resize_short by lia.
  eapply triple_bind; [apply at_hash_prefix; rewrite ?zlen_take; lia|]. intros h.
  apply triple_pure. intros Hh. rewrite ztake_ztake in Hh by lia. rewrite (hashed_finalize _ _ Hh).
  eapply triple_bind; [apply at_send|intros []].
  { rewrite zlen_frame, zlen_app, zlen_be_bytes, blake3_length.
    unfold frame_len, HEADER_LEN, MAX_FRAME_LEN in *. lia. }
  destruct Hsrc as [Hs0 Hs1].
  assert (Ho : is_u64 offset /\ offset <= have) by (unfold is_u64; lia).
  eapply triple_bind.
  { unfold sender_frames. cbn [app]. eapply at_expect, parse_frame. by rewrite zlen_be_bytes. }
  intros c. apply triple_pure. intros ->. rewrite decode_start_bytes by tauto.
  eapply (triple_bind _ _ _ (fun r e => r = offset /\ _ e)); [by intros e He|].
  intros r. apply triple_pure. intros ->. destruct Ho as [[Ho0 _] Ho]. zdec.
  assert (Hpl : zlen (ztake have p) = have) by (rewrite zlen_take; lia).
  pose proof (fun ib ob cu => at_rewind ib ob d g tr (ztake have p) cu offset h Htr Hh) as Hrew.
  rewrite Hpl, ztake_ztake in Hrew by lia.
  eapply triple_regroup; [apply Hrew; lia|]. intros h'. apply triple_pure. intros Hh'.
  assert (Hpre : ztake offset p = ztake offset src) by (destruct Hoff as [[-> ?]| ->]; done).
  rewrite Hpre in *.
  eapply triple_bind; [apply at_progress|intros []].
  intros e He. unfold mret. eexists. split; [done|]. by split.
Qed.

Lemma receiver_runs tr ts f d g src offset planned e :
  transfer_wf tr -> transfer_wf ts -> 32 <= chunk_len ts -> is_u64 (zlen src) ->
  match max_total_len tr with Some m => zlen src <= m | None => True end ->
  let p := from_option content [] f in
  let have := resume_offset tr (zlen p) (zlen src) in
  (offset = have /\ ztake have p = ztake have src) \/ offset = 0 ->
  at_ (offer_frame ts src :: sender_frames ts src offset planned) [] f d g e ->
  exists e', recv env tr e = (Ok (sender_summary ts src offset planned), e') /\
    at_ [] [frame RESUME (be_bytes 8 have ++ blake3 (ztake have p)) (frame_len ts);
            frame ACK [] (frame_len ts)] None (Some src) g e'.
Proof.
  intros Htr Hts Hc Hsrc Hmax p have Hoff He.
  pose proof (receiver_setup tr ts f d g src offset planned Htr Hts Hc Hsrc Hmax Hoff e He) as Hs.
  pose proof (resume_offset_range tr Htr (zlen p) (zlen src) (zlen_nonneg p) (zlen_nonneg src)) as Hhave.
  fold p in Hs. fold have in Hs, Hhave.
  unfold recv, mbind. destruct (recv_setup env tr e) as [[r|x|] e1]; [|done|done].
  destruct Hs as (h & -> & Hh & He1). rewrite (proj1 He).
  assert (Ho : 0 <= offset <= zlen src) by lia.
  pose proof (receiver_loop tr ts
    [frame RESUME (be_bytes 8 have ++ blake3 (ztake have p)) (frame_len ts)] d g src offset planned
    {| received := offset; last_checkpoint := offset; covers_seen := 0; verified := None; running := h |}
    3 Hts Hc Hsrc Ho) as Hl.
  cbn [length]. replace (S (S (length (sender_frames ts src offset planned)))) with
    (length (tail (sender_frames ts src offset planned)) + 3)%nat.
  2: { unfold sender_frames. cbn [tail app length]. lia. }
  specialize (Hl ltac:(split_and!; simpl; [rewrite zlen_take; lia|done|done|done]) e1 He1).
  destruct (recv_loop _ _ _ _ _ _ _ e1) as [[sm|x|] e2]; [|done|done].
  destruct Hl as [-> He2]. by exists e2.
Qed.
End ideal.

(** ** Theorems *)

Section theorems.
Context `{Blake3} `{!Blake3Laws _}.

(** C2: Nothing unverified ever reaches the destination.  From any state of the
    disk, against any peer (any sequence of messages), with any I/O failing at any
    point and cancelled at any check, the receiver never panics and the
    destination is either untouched or holds a payload of exactly the offered
    length whose hash a DONE frame of this conversation carried, in a frame of the
    offer's size; and success is reported only with such a payload in place. *)
Theorem recv_only_delivers_verified env t e0 :
  transfer_wf t ->
  zlen (from_option content [] (part e0)) + inbox_size (inbox (chan e0)) < 2 ^ 64 ->
  let (r, e1) := recv env t e0 in
  r <> Panic /\
  (dest e1 = dest e0 \/
   exists payload, dest e1 = Some payload /\ verified_payload (inbox (chan e0)) payload) /\
  (forall sm, r = Ok sm -> exists payload, dest e1 = Some payload /\
     verified_payload (inbox (chan e0)) payload /\
     total sm = zlen payload /\ hash sm = blake3 payload).
Proof. intros Hwf Hsz. by apply recv_triple. Qed.

(** A session of its own for an endpoint, with the peer's messages. *)
Definition connect (ib : list bytes) (e : endpoint) : endpoint :=
  set_chan {| inbox := ib; outbox := [] |} e.

(** C1: A transfer completes, resumed or not.  With no faults, chunks of at least
    32 bytes, an offer within the receiver's limit and a generator that works,
    there is a conversation in which the sender's messages are what the receiver
    reads and the receiver's what the sender reads, both sides return the same
    summary, and the destination then holds exactly the source: whatever was left
    in the partial file, unless its checkpointed prefix differs from the source's
    but has the same hash.  It resumes from the checkpointed prefix exactly when
    that is a prefix of the source, and from 0 otherwise.  Every frame the sender
    put on the wire has one and the same length. *)
Theorem transfer_completes envS envR ts tr eS eR src cu :
  ideal envS -> ideal envR -> transfer_wf ts -> transfer_wf tr -> 32 <= chunk_len ts ->
  part eS = Some (File src cu) -> is_u64 (zlen src) ->
  match max_total_len tr with Some m => zlen src <= m | None => True end ->
  (forall n, exists k g, plan (draws envS) (pacing ts) n (gen eS) = Ok (k, g)) ->
  let p := from_option content [] (part eR) in
  let have := resume_offset tr (zlen p) (zlen src) in
  (blake3 (ztake have p) = blake3 (ztake have src) -> ztake have p = ztake have src) ->
  exists to_r to_s sm eS' eR',
    send envS ts (connect to_s eS) = (Ok sm, eS') /\ outbox (chan eS') = to_r /\
    recv envR tr (connect to_r eR) = (Ok sm, eR') /\ outbox (chan eR') = to_s /\
    dest eR' = Some src /\ part eR' = None /\ total sm = zlen src /\ hash sm = blake3 src /\
    resumed_from sm = (if decide (ztake have p = ztake have src) then have else 0) /\
    Forall (fun m => zlen m = frame_len ts) to_r.
Proof.
  intros HS HR Hts Htr Hc Hsrc Hlen Hmax Hplan p have Hcol.
  pose proof (resume_offset_range tr Htr (zlen p) (zlen src) (zlen_nonneg p) (zlen_nonneg src)) as Hhave.
  fold have in Hhave. pose proof Hts as [Hcl _].
  set (ph := blake3 (ztake have p)). set (offset := seam src have ph).
  destruct (Hplan (div_ceil (zlen src - offset) (chunk_len ts))) as (planned & g' & Hpl).
  set (toR := offer_frame ts src :: sender_frames ts src offset planned).
  set (toS := [frame RESUME (be_bytes 8 have ++ ph) (frame_len ts); frame ACK [] (frame_len ts)]).
  exists toR, toS, (sender_summary ts src offset planned).
  assert (Hoff : (offset = have /\ ztake have p = ztake have src) \/ offset = 0).
  { unfold offset, seam, ph. case_decide as Hd; [|by right].
    left. split; [done|]. apply Hcol. by rewrite (proj2 Hd). }
  pose proof (sender_runs envS HS ts src cu (dest eS) (gen eS) have ph (frame_len ts) (frame_len ts)
    offset planned g' Hts Hlen) as Hs.
  destruct Hlen as [Hl0 Hl1].
  specialize (Hs ltac:(unfold is_u64; lia) ltac:(apply blake3_length) eq_refl Hpl (connect toS eS)
    ltac:(by split_and!)).
  destruct (send envS ts (connect toS eS)) as [[sm|x|] eS']; [|done|done].
  destruct Hs as [-> (_ & Ho & _)].
  destruct (receiver_runs envR HR tr ts (part eR) (dest eR) (gen eR) src offset planned
    (connect toR eR) Htr Hts Hc ltac:(done) Hmax Hoff ltac:(by split_and!)) as (eR' & Hr & He').
  destruct He' as (_ & Ho' & Hp' & Hd' & _).
  exists eS', eR'. split_and!; try done.
  - unfold sender_summary. simpl. unfold offset, seam, ph. case_decide as Hd.
    + rewrite decide_True; [done|]. apply Hcol. by rewrite (proj2 Hd).
    + case_decide as Heq; [|done]. rewrite Heq in Hd.
      destruct (decide (0 < have <= zlen src)); [tauto|lia].
  - unfold toR, offer_frame, sender_frames.
    assert (Hf : forall tag c, zlen c <= 32 -> zlen (frame tag c (frame_len ts)) = frame_len ts).
    { intros tag c Hcc. apply sender_frame_len. lia. }
    assert (0 <= zlen (@nil byte) <= 32) by done.
    repeat first [apply Forall_cons_2 | apply Forall_app_2 | apply Forall_nil_2].
    + apply Hf. by rewrite zlen_be_bytes.
    + apply Hf. by rewrite zlen_be_bytes.
    + apply Forall_map. eapply Forall_impl; [|apply data_chunks_spec; lia].
      intros b Hb. apply sender_frame_len. cbv beta in Hb. lia.
    + apply Hf. by rewrite blake3_length.
    + unfold zrep. apply Forall_replicate, Hf. lia.
    + apply Hf. lia.
Qed.

(** A sender configured with chunks under 32 bytes can never complete a
    transfer, although [chunk_len] accepts any size from one byte: its DONE frame
    is longer than its offer, so a receiver that succeeds has not been talking to
    it.  Whatever the peer and the faults, a receiver returns success only if the
    offer it read was at least 37 bytes long, the length of a DONE frame; a sender
    with smaller chunks emits a shorter one. *)
Theorem small_chunks_never_complete env t ts src e0 sm e1 :
  transfer_wf t ->
  zlen (from_option content [] (part e0)) + inbox_size (inbox (chan e0)) < 2 ^ 64 ->
  recv env t e0 = (Ok sm, e1) -> chunk_len ts < 32 ->
  head (inbox (chan e0)) <> Some (offer_frame ts src).
Proof.
  intros Hwf Hsz Hrun Hc Hhead.
  pose proof (recv_triple env t Hwf e0 Hsz) as Hr. rewrite Hrun in Hr.
  destruct Hr as (_ & _ & Hok). destruct (Hok sm eq_refl) as (payload & _ & Hv & _).
  destruct Hv as (offer & rest & f & Hib & _ & _ & Hlen & Hp).
  rewrite Hib in Hhead. injection Hhead as ->. apply parse_content_le in Hp.
  rewrite blake3_length in Hp. rewrite Hlen in Hp. unfold offer_frame in Hp.
  rewrite zlen_frame, zlen_be_bytes in Hp. unfold frame_len, HEADER_LEN in *. lia.
Qed.
End theorems.

(** *** Examples *)

Import Toy.

Definition calm : environment :=
  {| io_fault := fun _ => None; cancelled := fun _ => false; clock := fun _ => (0, 0); draws := 1 |}.

Lemma calm_ideal : ideal calm.
Proof. by split. Qed.

Definition idle (f : option file) : endpoint :=
  {| chan := {| inbox := []; outbox := [] |}; part := f; synced := 0; dest := None;
     gen := rng_const Byte.x00; pacer_ := None; log := []; ios := 0; checks := 0; ticks_ := 0 |}.

Definition example_source : bytes := zrep 100 Byte.x61.
Definition example_transfer : Transfer := with_checkpoint_len (with_chunk_len transfer_new 40) 16.

Lemma example_transfer_wf : transfer_wf example_transfer.
Proof. split; vm_compute; by split. Qed.

Lemma recv_only_delivers_verified_witness :
  let e0 := connect [frame OFFER (be_bytes 8 3) 45; frame START (be_bytes 8 0) 45;
                     frame DATA (lit "xyz") 45; frame DONE (zrep 32 Byte.x00) 45] (idle None) in
  fst (recv calm example_transfer e0) <> Panic.
Proof.
  intros e0.
  pose proof (recv_only_delivers_verified calm example_transfer e0 example_transfer_wf
    ltac:(vm_compute; reflexivity)) as Hr.
  destruct (recv calm example_transfer e0) as [r e1]. exact (proj1 Hr).
Defined.

(** A resumed transfer: 50 bytes are on disk, 48 of them checkpointed. *)
Lemma transfer_completes_witness :
  exists to_r to_s sm eS' eR',
    send calm example_transfer (connect to_s (idle (Some (File example_source 0)))) = (Ok sm, eS') /\
    outbox (chan eS') = to_r /\
    recv calm example_transfer (connect to_r (idle (Some (File (zrep 50 Byte.x61) 0)))) = (Ok sm, eR') /\
    outbox (chan eR') = to_s /\
    dest eR' = Some example_source /\ part eR' = None /\ total sm = 100 /\
    hash sm = blake3 example_source /\
    resumed_from sm = (if decide (ztake 48 (zrep 50 Byte.x61) = ztake 48 example_source) then 48 else 0) /\
    Forall (fun m => zlen m = 45) to_r.
Proof.
  apply (transfer_completes calm calm example_transfer example_transfer
    (idle (Some (File example_source 0))) (idle (Some (File (zrep 50 Byte.x61) 0))) example_source 0).
  - apply calm_ideal.
  - apply calm_ideal.
  - apply example_transfer_wf.
  - apply example_transfer_wf.
  - by vm_compute.
  - reflexivity.
  - by vm_compute.
  - exact I.
  - intros n. eexists _, _. unfold plan. simpl. reflexivity.
  - intros _. by vm_compute.
Defined.

Lemma small_chunks_never_complete_witness :
  let e0 := connect ([offer_frame example_transfer []; frame START (be_bytes 8 0) 45;
                      frame DONE (blake3 []) 45; frame FINISH [] 45]) (idle None) in
  exists sm e1, recv calm example_transfer e0 = (Ok sm, e1) /\
    head (inbox (chan e0)) <> Some (offer_frame (with_chunk_len transfer_new 16) []).
Proof.
  intros e0. eexists _, _. split; [vm_compute; reflexivity|].
  eapply (small_chunks_never_complete calm example_transfer (with_chunk_len transfer_new 16) [] e0).
  - apply example_transfer_wf.
  - vm_compute; reflexivity.
  - vm_compute; reflexivity.
  - vm_compute; reflexivity.
Defined.
