(* ===== verification/Bundle.v ===== *)
(** * Identities

    [p2p-live/src/identity.rs] and [bundle.rs]: a peer's public identity (an
    Ed25519 key and, for a hybrid peer, an ML-DSA-65 key), its canonical
    encoding and identifier, and the serialised private identity. *)

From Stdlib Require Import Strings.Byte.
From S2P Require Import Prelude Text Primitives LiveError.

(** ** The signature libraries ([rcgen], [aws-lc-rs])

    Loading a PKCS#8 private key yields its public half; signing and verifying
    agree for a key pair. *)
Class SignatureLib := {
  ed25519_spki : bytes -> option bytes;
  mldsa_public : bytes -> option bytes;
  mldsa_sign : bytes -> bytes -> option bytes;
  mldsa_verify : bytes -> bytes -> bytes -> bool;
}.
Class SignatureLibLaws (S : SignatureLib) := {
  mldsa_sign_verify : forall key pub m s,
    mldsa_public key = Some pub -> mldsa_sign key m = Some s -> mldsa_verify pub m s = true;
  mldsa_sign_total : forall key pub m, mldsa_public key = Some pub -> is_Some (mldsa_sign key m);
}.

(** ** Public keys *)

Record PeerPublicKey := { as_der : bytes }.

#[export] Instance PeerPublicKey_eq_dec : EqDecision PeerPublicKey.
Proof. solve_decision. Defined.

Definition ML_DSA_65_PUBLIC_KEY_LEN : Z := 1952.

Record PqPublicKey := { as_bytes : bytes }.

#[export] Instance PqPublicKey_eq_dec : EqDecision PqPublicKey.
Proof. solve_decision. Defined.

Definition PqPublicKey_from_bytes (b : bytes) : result PqPublicKey :=
  if zlen b =? ML_DSA_65_PUBLIC_KEY_LEN then Ok {| as_bytes := b |}
  else Err (Error.Identity "ML-DSA-65 public key has the wrong length").

(** ** The bundle *)

Definition BUNDLE_VERSION : byte := Byte.x01.

Record IdentityBundle := { classical : PeerPublicKey; pq : option PqPublicKey }.

#[export] Instance IdentityBundle_eq_dec : EqDecision IdentityBundle.
Proof. solve_decision. Defined.

Definition is_hybrid (b : IdentityBundle) : bool := bool_decide (is_Some (pq b)).

(** [IdentityBundle::to_bytes]: the two lengths are [as u16] truncations. *)
Definition bundle_to_bytes (b : IdentityBundle) : bytes :=
  let der := as_der (classical b) in
  let pqb := match pq b with Some k => as_bytes k | None => [] end in
  [BUNDLE_VERSION] ++ be_bytes 2 (zlen der) ++ der ++ be_bytes 2 (zlen pqb) ++ pqb.

Definition bundle_truncated : Error.t := Error.Identity "identity bundle is truncated".

(** [IdentityBundle::from_bytes]. *)
Definition bundle_from_bytes (b : bytes) : result IdentityBundle :=
  let take := cursor_take bundle_truncated bundle_truncated b in
  let? (v, pos) := take 0 1 in
  let? version := or_panic (head v) in
  if decide (version <> BUNDLE_VERSION) then Err (Error.Identity "identity bundle version") else
  let? (l, pos) := take pos 2 in
  let classical_len := be_val l in
  if classical_len =? 0 then Err (Error.Identity "identity bundle has no classical key") else
  let? (der, pos) := take pos classical_len in
  let? (l, pos) := take pos 2 in
  let pq_len := be_val l in
  let? (k, pos) :=
    (if pq_len =? 0 then Ok (None, pos)
     else let? (kb, pos) := take pos pq_len in
          let? k := PqPublicKey_from_bytes kb in Ok (Some k, pos)) in
  if pos =? zlen b then Ok {| classical := {| as_der := der |}; pq := k |}
  else Err (Error.Identity "trailing bytes after identity bundle").

(** The bundles the encoding represents. *)
Definition bundle_wf (b : IdentityBundle) : Prop :=
  1 <= zlen (as_der (classical b)) <= u16_max /\
  match pq b with
  | Some k => zlen (as_bytes k) = ML_DSA_65_PUBLIC_KEY_LEN
  | None => True
  end.

(** ** Identifiers *)

Definition BUNDLE_ID_DOMAIN : bytes := lit "atom-live-identity-bundle-v1".

(** [BundleId]: 32 bytes. *)
Abbreviation BundleId := bytes (only parsing).

Section ids.
Context `{Blake3}.

(** [IdentityBundle::id]. *)
Definition bundle_id (b : IdentityBundle) : BundleId :=
  hasher_finalize (hasher_update (hasher_update hasher_new BUNDLE_ID_DOMAIN)
                                 (bundle_to_bytes b)).

(** [PeerPublicKey::fingerprint]: eight bytes of the hash of the whole key. *)
Definition peer_fingerprint (k : PeerPublicKey) : str :=
  hex (ztake 8 (blake3 (as_der k))).
End ids.

(** [BundleId::fingerprint]. *)
Definition id_fingerprint (i : BundleId) : str := hex (ztake 8 i).

Section base32_ids.
Context `{Base32} `{UnicodeCase}.

Definition id_to_base32 (i : BundleId) : str := base32_lower i.

Definition id_from_base32 (s : str) : result BundleId :=
  let? raw := ok_or (base32_parse (trim s))
                (Error.Identity "bundle id is not valid base32") in
  if zlen raw =? 32 then Ok raw else Err (Error.Identity "bundle id must be 32 bytes").
End base32_ids.

(** ** The private identity *)

Definition SECRET_VERSION : byte := Byte.x01.

(** [LocalIdentity]. *)
Record LocalIdentity := { public : PeerPublicKey; pkcs8 : bytes }.

(** [LocalBundle]. *)
Record LocalBundle := {
  local_classical : LocalIdentity;
  pq_pkcs8 : option bytes;
  pq_public : option PqPublicKey;
}.

Definition local_bundle (l : LocalBundle) : IdentityBundle :=
  {| classical := public (local_classical l); pq := pq_public l |}.

Definition classical_only (c : LocalIdentity) : LocalBundle :=
  {| local_classical := c; pq_pkcs8 := None; pq_public := None |}.

Section secret.
Context `{SignatureLib}.

(** [LocalIdentity::from_pkcs8]: the public half is re-derived. *)
Definition identity_from_pkcs8 (der : bytes) : result LocalIdentity :=
  let? spki := ok_or (ed25519_spki der)
                 (Error.Identity "stored identity is not a valid Ed25519 key") in
  Ok {| public := {| as_der := spki |}; pkcs8 := der |}.

(** [LocalBundle::to_secret_bytes]. *)
Definition to_secret_bytes (l : LocalBundle) : bytes :=
  let ed := pkcs8 (local_classical l) in
  let pqb := default [] (pq_pkcs8 l) in
  [SECRET_VERSION] ++ be_bytes 4 (zlen ed) ++ ed ++ be_bytes 4 (zlen pqb) ++ pqb.

Definition secret_truncated : Error.t := Error.Identity "stored identity is truncated".

(** [LocalBundle::from_secret_bytes]. *)
Definition from_secret_bytes (b : bytes) : result LocalBundle :=
  let take := cursor_take secret_truncated secret_truncated b in
  let? (v, pos) := take 0 1 in
  let? version := or_panic (head v) in
  if decide (version <> SECRET_VERSION) then Err (Error.Identity "stored identity version") else
  let? (l, pos) := take pos 4 in
  let? (ed, pos) := take pos (be_val l) in
  let? cl := identity_from_pkcs8 ed in
  let? (l, pos) := take pos 4 in
  let pq_len := be_val l in
  let? (k, pos) :=
    (if pq_len =? 0 then Ok ((None, None), pos)
     else let? (der, pos) := take pos pq_len in
          let? pub := ok_or (mldsa_public der)
                        (Error.Identity "stored ML-DSA key is not valid") in
          let? pub := PqPublicKey_from_bytes pub in
          Ok ((Some der, Some pub), pos)) in
  if pos =? zlen b
  then Ok {| local_classical := cl; pq_pkcs8 := fst k; pq_public := snd k |}
  else Err (Error.Identity "trailing bytes after stored identity").

(** [LocalBundle::sign_pq]. *)
Definition sign_pq (l : LocalBundle) (message : bytes) : result bytes :=
  let? key := ok_or (pq_pkcs8 l) (Error.Identity "this identity has no post-quantum key") in
  let? _ := ok_or (mldsa_public key) (Error.Identity "could not load the ML-DSA key") in
  ok_or (mldsa_sign key message) (Error.Identity "ML-DSA signing failed").

(** [PqPublicKey::verify]. *)
Definition pq_verify (k : PqPublicKey) (message signature : bytes) : result unit :=
  if mldsa_verify (as_bytes k) message signature then Ok tt
  else Err (Error.Identity "ML-DSA signature did not verify").

(** An identity as [generate], [classical_only] and [from_secret_bytes] make
    it: the public halves are those of the private keys. *)
Definition local_wf (l : LocalBundle) : Prop :=
  let ed := local_classical l in
  ed25519_spki (pkcs8 ed) = Some (as_der (public ed)) /\ zlen (pkcs8 ed) <= u32_max /\
  match pq_pkcs8 l, pq_public l with
  | Some key, Some pub =>
      mldsa_public key = Some (as_bytes pub) /\ 1 <= zlen key <= u32_max /\
      zlen (as_bytes pub) = ML_DSA_65_PUBLIC_KEY_LEN
  | None, None => True
  | _, _ => False
  end.
End secret.

(** ** Theorems *)

Lemma bundle_to_bytes_length b :
  zlen (bundle_to_bytes b)
  = 5 + zlen (as_der (classical b)) + match pq b with Some k => zlen (as_bytes k) | None => 0 end.
Proof. unfold bundle_to_bytes. destruct (pq b); zl. Qed.

Lemma bundle_in_memory b : bundle_wf b -> zlen (bundle_to_bytes b) <= u16_max + 1957.
Proof.
  intros [H1 H2]. rewrite bundle_to_bytes_length.
  destruct (pq b); unfold ML_DSA_65_PUBLIC_KEY_LEN in *; lia.
Qed.

Lemma bundle_decode_encode b :
  bundle_wf b -> bundle_from_bytes (bundle_to_bytes b) = Ok b.
Proof.
  intros Hwf. pose proof (bundle_in_memory b Hwf) as Hlen.
  destruct Hwf as [Hder Hpq]. pose proof (at_rest_start (bundle_to_bytes b)) as H.
  assert (Hm : in_memory (bundle_to_bytes b)) by (unfold in_memory, u64_max, u16_max in *; lia).
  unfold bundle_to_bytes in H at 2. unfold bundle_from_bytes.
  set (buf := bundle_to_bytes b) in *. clearbody buf.
  destruct b as [[der] k]. cbn [classical as_der pq] in *.
  cursor_step H Hm. rewrite decide_False by (intros Hn; by apply Hn).
  cursor_step H Hm. rewrite be_val_small by (unfold u16_max in *; lia).
  replace (zlen der =? 0) with false by (symmetry; apply Z.eqb_neq; lia).
  cursor_step H Hm. cursor_step H Hm.
  destruct k as [[kb]|]; cbn [as_bytes] in *.
  - rewrite be_val_small by (unfold ML_DSA_65_PUBLIC_KEY_LEN in *; lia).
    unfold ML_DSA_65_PUBLIC_KEY_LEN in *. rewrite Hpq. cbn [Z.eqb].
    rewrite <- (app_nil_r kb) in H at 1. cursor_step H Hm.
    unfold PqPublicKey_from_bytes, ML_DSA_65_PUBLIC_KEY_LEN. rewrite Hpq, Z.eqb_refl. cbn [obind].
    apply at_rest_end in H. by zdec.
  - apply at_rest_end in H. rewrite be_val_small by done. rewrite zlen_nil. cbn. by zdec.
Qed.

Lemma prefix_whole (x : bytes) p : p = zlen x -> ztake p x = x.
Proof. intros ->. apply ztake_all. lia. Qed.

Lemma bundle_encode_decode x b :
  bundle_from_bytes x = Ok b -> bundle_wf b /\ bundle_to_bytes b = x.
Proof.
  unfold bundle_from_bytes. intros H. ok_inv H; bools.
  all: simplify_eq; unfold PqPublicKey_from_bytes in *.
  all: try match goal with Hk : (if _ then _ else _) = Ok _ |- _ => ok_inv Hk; bools; simplify_eq end.
  all: cursor_invs; apply head_singleton in Hx0 as ->; [|lia].
  all: pose proof (two_byte_range a0 ltac:(lia)).
  all: pose proof (zlen_nonneg a1).
  all: split; [split; cbn [classical as_der pq as_bytes]; [lia|done]|].
  all: unfold bundle_to_bytes; cbn [classical as_der pq as_bytes]; cursor_whole x.
  all: rewrite ?Hl1, ?Hl3, ?zlen_nil, <- ?Hc0, !be_bytes_val' by (cbn; lia).
  all: by rewrite ?app_nil_r.
Qed.

Lemma bundle_from_bytes_no_panic x : bundle_from_bytes x <> Panic.
Proof. unfold bundle_from_bytes, PqPublicKey_from_bytes. cursor_no_panic. Qed.

Section secret_theorems.
Context `{SignatureLib}.

Lemma secret_decode_encode l :
  local_wf l -> from_secret_bytes (to_secret_bytes l) = Ok l.
Proof.
  destruct l as [[[spki] ed] key pub]. unfold local_wf. cbn [local_classical pkcs8 public as_der].
  intros (Hed & Hlen & Hpq).
  pose proof (at_rest_start (to_secret_bytes {| local_classical := {| public := {| as_der := spki |};
    pkcs8 := ed |}; pq_pkcs8 := key; pq_public := pub |})) as Hr.
  assert (Hkey : zlen (default [] key) <= u32_max).
  { destruct key as [key|], pub; simpl in *; [lia|done|done|]. by rewrite zlen_nil. }
  unfold to_secret_bytes in Hr at 2. unfold from_secret_bytes.
  cbn [local_classical pkcs8 pq_pkcs8] in *.
  assert (Hm : in_memory (to_secret_bytes {| local_classical := {| public := {| as_der := spki |};
    pkcs8 := ed |}; pq_pkcs8 := key; pq_public := pub |})).
  { unfold in_memory, to_secret_bytes. cbn. zl. unfold u32_max, u64_max in *. lia. }
  set (buf := to_secret_bytes _) in *. clearbody buf.
  cursor_step Hr Hm. rewrite decide_False by (intros Hn; by apply Hn).
  cursor_step Hr Hm. rewrite be_val_small by (pose_zlens; unfold u32_max in *; lia).
  cursor_step Hr Hm. unfold identity_from_pkcs8. rewrite Hed. cbn [obind ok_or].
  cursor_step Hr Hm. rewrite be_val_small by (pose_zlens; unfold u32_max in *; lia).
  destruct key as [key|], pub as [[pub]|]; try done; cbn [default from_option id as_bytes] in *.
  - destruct Hpq as (Hpub & Hkl & Hpl). zdec. rewrite <- (app_nil_r key) in Hr at 1.
    cursor_step Hr Hm. rewrite Hpub. unfold PqPublicKey_from_bytes. cbn [obind ok_or].
    rewrite Hpl, Z.eqb_refl. cbn [obind]. apply at_rest_end in Hr. by zdec.
  - rewrite zlen_nil in *. cbn. apply at_rest_end in Hr. by zdec.
Qed.

Lemma secret_encode_decode x l :
  from_secret_bytes x = Ok l -> local_wf l /\ to_secret_bytes l = x.
Proof.
  unfold from_secret_bytes, identity_from_pkcs8, PqPublicKey_from_bytes. intros Hl.
  ok_inv Hl; bools; simplify_eq.
  all: repeat match goal with Hk : obind _ _ = Ok _ |- _ => ok_inv Hk; bools; simplify_eq end.
  all: cursor_invs; apply head_singleton in Hx0 as ->; [|lia].
  all: repeat match goal with Hk : zlen ?b = 4 |- _ =>
    lazymatch goal with _ : 0 <= be_val b < _ |- _ => fail | _ =>
      pose proof (be_val_range b); rewrite Hk in * end end.
  all: cbn [fst snd]; split; [unfold local_wf; cbn [local_classical public pkcs8 as_der pq_pkcs8 pq_public
                 as_bytes] in *; unfold u32_max in *; split_and?; try (done || lia)|].
  all: unfold to_secret_bytes; cbn [local_classical pkcs8 pq_pkcs8 default from_option id];
    cursor_whole x.
  all: repeat match goal with Hk : zlen ?b = be_val ?l |- context [be_bytes 4 (zlen ?b)] =>
    rewrite Hk end.
  all: rewrite ?zlen_nil, ?app_nil_r.
  all: try match goal with Hk : be_val ?l = 0 |- _ => rewrite <- Hk end.
  all: by rewrite !be_bytes_val' by done.
Qed.

Lemma from_secret_bytes_no_panic x : from_secret_bytes x <> Panic.
Proof.
  unfold from_secret_bytes, identity_from_pkcs8, PqPublicKey_from_bytes. cursor_no_panic.
Qed.

(** The stored private identity is canonical.  Every identity the program
    can hold is read back exactly from its serialisation; conversely a byte
    string that parses is the serialisation of the identity it gives, whose
    public halves are the ones of its private keys (never trusted from the
    file); and no input makes the parser panic. *)
Theorem stored_identity_canonical :
  (forall l, local_wf l -> from_secret_bytes (to_secret_bytes l) = Ok l) /\
  (forall x l, from_secret_bytes x = Ok l -> local_wf l /\ to_secret_bytes l = x) /\
  (forall x, from_secret_bytes x <> Panic).
Proof.
  split_and!; [apply secret_decode_encode|apply secret_encode_decode
              |apply from_secret_bytes_no_panic].
Qed.
End secret_theorems.

(** The identity bundle has one encoding.  Parsing inverts serialising on
    every bundle whose key lengths fit their fields, an accepted input is the
    serialisation of the bundle it parses to (so no two byte strings name one
    identity, and its hash is an identifier), and no input makes the parser panic. *)
Theorem bundle_canonical :
  (forall b, bundle_wf b -> bundle_from_bytes (bundle_to_bytes b) = Ok b) /\
  (forall x b, bundle_from_bytes x = Ok b -> bundle_wf b /\ bundle_to_bytes b = x) /\
  (forall x, bundle_from_bytes x <> Panic).
Proof.
  split_and!; [apply bundle_decode_encode|apply bundle_encode_decode
              |apply bundle_from_bytes_no_panic].
Qed.

(** *** A concrete signature library *)
Module ToySig.
Definition pub_of (key : bytes) : bytes := zrep 1952 (z2b (foldl (fun a b => a + b2z b) 0 key)).

#[export] Instance sig : SignatureLib := {
  ed25519_spki der := if zlen der =? 0 then None else Some (Toy.digest 44 der);
  mldsa_public key := if zlen key =? 0 then None else Some (pub_of key);
  mldsa_sign key m :=
    if zlen key =? 0 then None else Some (Toy.tag (pub_of key) [] [] m);
  mldsa_verify pub m s := bool_decide (s = Toy.tag pub [] [] m);
}.

#[export] Instance sig_laws : SignatureLibLaws sig.
Proof.
  split; simpl.
  - intros key pub m s. destruct (zlen key =? 0); [done|]. intros [= <-] [= <-].
    by apply bool_decide_eq_true.
  - intros key pub m. destruct (zlen key =? 0); [done|]. by eexists.
Qed.
End ToySig.

(** *** Examples *)

Import Toy ToySig.

(** The identities the examples of the library use. *)
Definition example_local (seed : byte) : LocalBundle :=
  let ed := [seed; Byte.x01] in
  let key := [seed; Byte.x02; Byte.x03] in
  {| local_classical := {| public := {| as_der := default [] (ed25519_spki ed) |}; pkcs8 := ed |};
     pq_pkcs8 := Some key; pq_public := Some {| as_bytes := ToySig.pub_of key |} |}.

Lemma bundle_canonical_witness :
  let b := local_bundle (example_local Byte.x07) in
  bundle_wf b /\ bundle_from_bytes (bundle_to_bytes b) = Ok b.
Proof.
  split; [split; [vm_compute; split; discriminate|vm_compute; reflexivity]|].
  apply bundle_canonical. split; [vm_compute; split; discriminate|vm_compute; reflexivity].
Defined.

Lemma stored_identity_canonical_witness :
  let l := example_local Byte.x07 in
  local_wf l /\ from_secret_bytes (to_secret_bytes l) = Ok l.
Proof.
  split; [repeat split; vm_compute; congruence|].
  apply stored_identity_canonical. repeat split; vm_compute; congruence.
Defined.
