(* ===== verification/Pinned.v ===== *)
(** * Sessions pinned to a key

    The TLS configurations ([lib.rs]) and the verifiers they carry ([pinned.rs]), over the
    TLS library as an interface: what a completed handshake says of the peer. *)

From Stdlib Require Import Strings.Byte.
From S2P Require Import Prelude Text LiveError Framing Session Bundle.

(** ** The configurations *)

Inductive Role := Client | Server.

(** What the library is told: the groups, versions and protocols offered, the key shown
    and the one pinned, whether sessions are resumed, early data, tickets, and whether a
    client must show a key. *)
Record Config := {
  role : Role; shows : bytes; pinned : PeerPublicKey;
  kx_groups : list Group; versions : list ProtocolVersion; alpn_protocols : list bytes;
  resumption : bool; early_data : Z; send_tickets : Z;
}.

(** [hybrid_pq_provider], [TLS13_ONLY]. *)
Definition hybrid_groups : list Group := [X25519MLKEM768].
Definition TLS13_ONLY : list ProtocolVersion := [TLSv1_3].

Section config.
Context `{SignatureLib}.

(** [LocalIdentity::certified_key]: the bare key stands for a certificate. *)
Definition certified_key (local : LocalIdentity) : result bytes :=
  let? _ := ok_or (ed25519_spki (pkcs8 local)) (Error.Identity "load private key") in
  Ok (as_der (public local)).

(** [client_tls_config], [server_tls_config]. *)
Definition client_tls_config (local : LocalIdentity) (expected_peer : PeerPublicKey) : result Config :=
  let? certified := certified_key local in
  Ok {| role := Client; shows := certified; pinned := expected_peer; kx_groups := hybrid_groups; versions := TLS13_ONLY;
        alpn_protocols := [ALPN]; resumption := false; early_data := 0; send_tickets := 0 |}.
Definition server_tls_config (local : LocalIdentity) (expected_peer : PeerPublicKey) : result Config :=
  let? certified := certified_key local in
  Ok {| role := Server; shows := certified; pinned := expected_peer; kx_groups := hybrid_groups; versions := TLS13_ONLY;
        alpn_protocols := [ALPN]; resumption := true; early_data := 0; send_tickets := 0 |}.
End config.

(** ** The verifiers *)

(** [verify_tls13_signature_with_raw_key]: message, key, signature. *)
Class RawKeyVerify := raw_key_verify : bytes -> bytes -> bytes -> bool.

Section verifiers.
Context `{RawKeyVerify}.

Definition matches_pin (presented : bytes) (pinned : PeerPublicKey) : bool := bool_decide (presented = as_der pinned).
Definition wrong_peer : Error.t := Error.Tls "peer identity does not match the pinned key".

(** [verify_server_cert], [verify_client_cert]. *)
Definition verify_server_cert (c : Config) (end_entity : bytes) : result unit :=
  if matches_pin end_entity (pinned c) then Ok tt else Err wrong_peer.
Definition verify_client_cert (c : Config) (end_entity : bytes) : result unit :=
  if matches_pin end_entity (pinned c) then Ok tt else Err wrong_peer.

(** [verify_tls12_signature], [verify_tls13_signature], alike on both sides. *)
Definition verify_tls12_signature (message cert dss : bytes) : result unit :=
  Err (Error.Tls "TLS 1.2 is not supported: this transport is TLS 1.3 only").
Definition verify_tls13_signature (message cert dss : bytes) : result unit :=
  if raw_key_verify message cert dss then Ok tt else Err (Error.Tls "bad signature").

(** [client_auth_mandatory]. *)
Definition client_auth_mandatory : bool := true.

(** The verifier a configuration carries, asked as the library asks it. *)
Definition verify_cert (c : Config) (cert : bytes) : result unit :=
  match role c with Client => verify_server_cert c cert | Server => verify_client_cert c cert end.
Definition verify_signature (v : ProtocolVersion) (message cert dss : bytes) : result unit :=
  match v with TLSv1_3 => verify_tls13_signature message cert dss | OtherVersion => verify_tls12_signature message cert dss end.
End verifiers.

(** ** The library

    A handshake with the other end of [Wire] completes with what was negotiated, the key
    the peer showed and its signature over the transcript. *)
Record Completed := {
  negotiated : Negotiated; presented : option bytes; transcript : bytes; signature : bytes; resumed : bool; early : bool }.

Class Rustls (Wire : Type) := completes : Config -> Wire -> option Completed.

(** Nothing is negotiated that was not offered; a session is only resumed by a client
    that keeps sessions or a server that gives out tickets; and a fresh handshake asks
    the verifier about the key and the signature, where only a server whose verifier
    allows it does without. *)
Class RustlsLaws `{RawKeyVerify} (Wire : Type) `{Rustls Wire} := {
  version_offered : forall c w d, completes c w = Some d -> exists v, version (negotiated d) = Some v /\ v ∈ versions c;
  group_offered : forall c w d, completes c w = Some d -> exists g, kx_group (negotiated d) = Some g /\ g ∈ kx_groups c;
  alpn_offered : forall c w d a, completes c w = Some d -> alpn (negotiated d) = Some a -> a ∈ alpn_protocols c;
  resumed_allowed : forall c w d, completes c w = Some d -> resumed d = true ->
    match role c with Client => resumption c = true | Server => 0 < send_tickets c end;
  early_allowed : forall c w d, completes c w = Some d -> early d = true -> 0 < early_data c;
  fresh_verified : forall c w d v, completes c w = Some d -> resumed d = false -> version (negotiated d) = Some v ->
    match presented d with
    | Some cert => verify_cert c cert = Ok tt /\ verify_signature v (transcript d) cert (signature d) = Ok tt
    | None => role c = Server /\ client_auth_mandatory = false
    end;
}.

Section pinned.
Context `{SignatureLib} `{RawKeyVerify} {Wire : Type} `{Rustls Wire} `{!RustlsLaws Wire}.

(** A configuration of either side. *)
Definition configured (local : LocalIdentity) (expected_peer : PeerPublicKey) (c : Config) : Prop :=
  client_tls_config local expected_peer = Ok c \/ server_tls_config local expected_peer = Ok c.

Lemma configured_facts local e c : configured local e c ->
  pinned c = e /\ kx_groups c = [X25519MLKEM768] /\ versions c = [TLSv1_3] /\ alpn_protocols c = [ALPN] /\ early_data c = 0 /\
  send_tickets c = 0 /\ (role c = Client -> resumption c = false).
Proof.
  unfold configured, client_tls_config, server_tls_config. destruct (certified_key local); cbn [obind]; [|by intros [?|?]..].
  by intros [[= <-]|[= <-]].
Qed.

(** Whoever is at the other end: a handshake that completes was a fresh one, by TLS 1.3
    and the hybrid group, and the peer showed the pinned key and signed the transcript
    with it.  What [wrap] reads back afterwards can only still refuse a peer that did
    not agree on the protocol. *)
Theorem tls_peer_is_pinned local e c w d : configured local e c -> completes c w = Some d ->
  presented d = Some (as_der e) /\ raw_key_verify (transcript d) (as_der e) (signature d) = true /\
  resumed d = false /\ early d = false /\ version (negotiated d) = Some TLSv1_3 /\ kx_group (negotiated d) = Some X25519MLKEM768 /\
  forall k s limit, is_ok (wrap (negotiated d) k s limit) = bool_decide (is_Some (alpn (negotiated d))).
Proof.
  intros Hc Hd. destruct (configured_facts _ _ _ Hc) as (Hp & Hg & Hv & Ha & He & Ht & Hr).
  destruct (version_offered c w d Hd) as (v & Hv1 & Hv2). rewrite Hv in Hv2. apply list_elem_of_singleton in Hv2 as ->.
  destruct (group_offered c w d Hd) as (g & Hg1 & Hg2). rewrite Hg in Hg2. apply list_elem_of_singleton in Hg2 as ->.
  assert (Hfresh : resumed d = false).
  { destruct (resumed d) eqn:Hres; [|done]. pose proof (resumed_allowed c w d Hd Hres) as Hx. destruct (role c); [by rewrite Hr in Hx|lia]. }
  assert (Hearly : early d = false).
  { destruct (early d) eqn:Hx; [|done]. pose proof (early_allowed c w d Hd Hx). lia. }
  pose proof (fresh_verified c w d TLSv1_3 Hd Hfresh Hv1) as Hf. destruct (presented d) as [cert|]; [|by destruct Hf].
  destruct Hf as [Hcert Hsig].
  assert (cert = as_der e) as ->.
  { unfold verify_cert, verify_server_cert, verify_client_cert, matches_pin in Hcert. rewrite Hp in Hcert.
    destruct (role c); by case_bool_decide. }
  split_and!; [done| |done..|].
  - cbn in Hsig. unfold verify_tls13_signature in Hsig. by destruct (raw_key_verify _ _ _).
  - intros k s limit. unfold wrap. rewrite Hv1, Hg1. rewrite !decide_False by (by intros Hx; apply Hx).
    destruct (alpn (negotiated d)) as [a|] eqn:Hal; [|done]. pose proof (alpn_offered c w d a Hd Hal) as Hin.
    rewrite Ha in Hin. apply list_elem_of_singleton in Hin as ->. done.
Qed.
End pinned.

(** ** An instance

    The other end claims anything; the library checks it as it documents. *)
Module ToyTls.
#[export] Instance verify : RawKeyVerify := fun message key sig => bool_decide (sig = message ++ key).

Definition checks (c : Config) (d : Completed) : bool :=
  match version (negotiated d), kx_group (negotiated d) with
  | Some v, Some g =>
      bool_decide (v ∈ versions c) && bool_decide (g ∈ kx_groups c) &&
      match alpn (negotiated d) with Some a => bool_decide (a ∈ alpn_protocols c) | None => true end &&
      (negb (early d) || (0 <? early_data c)) &&
      if resumed d then match role c with Client => resumption c | Server => 0 <? send_tickets c end else
      match presented d with
      | Some cert => is_ok (verify_cert c cert) && is_ok (verify_signature v (transcript d) cert (signature d))
      | None => match role c with Client => false | Server => negb client_auth_mandatory end
      end
  | _, _ => false
  end.
#[export] Instance toy : Rustls Completed := fun c d => if checks c d then Some d else None.

Lemma ok_unit (r : result unit) : is_ok r = true -> r = Ok tt.
Proof. by destruct r as [[]|e|]. Qed.

#[export] Instance toy_laws : RustlsLaws Completed.
Proof.
  assert (Hc : forall c w d, completes c w = Some d -> checks c d = true).
  { unfold completes, toy. intros c w d. destruct (checks c w) eqn:E; [|done]. by intros [= <-]. }
  split; intros c w d; intros; match goal with Hd : completes c w = Some d |- _ => apply Hc in Hd; unfold checks in Hd;
    destruct (version (negotiated d)) as [v'|] eqn:Hv, (kx_group (negotiated d)) as [g'|] eqn:Hg; try discriminate Hd;
    apply andb_true_iff in Hd as [[[[Hd1 Hd2]%andb_true_iff Hd3]%andb_true_iff Hd4]%andb_true_iff Hd5] end.
  - exists v'. by apply bool_decide_eq_true in Hd1.
  - exists g'. by apply bool_decide_eq_true in Hd2.
  - match goal with Ha : alpn _ = Some _ |- _ => rewrite Ha in Hd3 end. by apply bool_decide_eq_true in Hd3.
  - match goal with Ha : resumed d = true |- _ => rewrite Ha in Hd5 end. destruct (role c); [done|lia].
  - match goal with Ha : early d = true |- _ => rewrite Ha in Hd4 end. cbn in Hd4. lia.
  - match goal with Ha : resumed d = false |- _ => rewrite Ha in Hd5 end.
    match goal with Ha : Some _ = Some _ |- _ => injection Ha as <- end.
    destruct (presented d); [apply andb_true_iff in Hd5 as [?%ok_unit ?%ok_unit]; done|by destruct (role c)].
Qed.
End ToyTls.

Import ToySig ToyTls.

Definition me : LocalIdentity := {| public := {| as_der := lit "my key" |}; pkcs8 := lit "my key" |}.
Definition friend_key : PeerPublicKey := {| as_der := lit "friend" |}.
Definition hello (key : bytes) (v : ProtocolVersion) (a : option bytes) : Completed :=
  {| negotiated := {| kx_group := Some X25519MLKEM768; version := Some v; alpn := a |}; presented := Some key;
     transcript := lit "hello"; signature := lit "hello" ++ key; resumed := false; early := false |}.

(** The friend is let in; a stranger with a valid signature, an older version and a
    session said to be resumed are not. *)
Example who_is_let_in :
  match client_tls_config me friend_key with
  | Ok c => map (fun d => bool_decide (is_Some (completes c d)))
              [hello (lit "friend") TLSv1_3 (Some ALPN); hello (lit "stranger") TLSv1_3 (Some ALPN);
               hello (lit "friend") OtherVersion (Some ALPN);
               {| negotiated := negotiated (hello [] TLSv1_3 (Some ALPN)); presented := None; transcript := []; signature := [];
                  resumed := true; early := false |}]
  | _ => []
  end = [true; false; false; false].
Proof. by vm_compute. Qed.
