(* ===== verification/Net.v ===== *)
(** * Addresses

    The parts of [std::net] the crate uses, and the validated onion addresses of
    [p2p-live/src/tor.rs]. *)

From Stdlib Require Import Strings.Byte.
From S2P Require Import Prelude Text LiveError.

(** ** [std::net] *)

(** Addresses keep their octets in network order. *)
Inductive IpAddr :=
| V4 (octets : bytes)
| V6 (octets : bytes).

(** [SocketAddrV6] also has a flow label and a scope. *)
Inductive SocketAddr :=
| SocketV4 (octets : bytes) (port : Z)
| SocketV6 (octets : bytes) (port flowinfo scope_id : Z).

#[export] Instance IpAddr_eq_dec : EqDecision IpAddr.
Proof. solve_decision. Defined.
#[export] Instance SocketAddr_eq_dec : EqDecision SocketAddr.
Proof. solve_decision. Defined.

(** [SocketAddr::new]. *)
Definition SocketAddr_new (a : IpAddr) (port : Z) : SocketAddr :=
  match a with V4 o => SocketV4 o port | V6 o => SocketV6 o port 0 0 end.

Definition ip (a : SocketAddr) : IpAddr :=
  match a with SocketV4 o _ => V4 o | SocketV6 o _ _ _ => V6 o end.
Definition port (a : SocketAddr) : Z :=
  match a with SocketV4 _ p => p | SocketV6 _ p _ _ => p end.
Definition is_ipv6 (a : SocketAddr) : bool :=
  match a with SocketV4 _ _ => false | SocketV6 _ _ _ _ => true end.

(** 127.0.0.0/8, and ::1. *)
Definition is_loopback (a : IpAddr) : bool :=
  match a with
  | V4 o => bool_decide (head o = Some Byte.x7f)
  | V6 o => bool_decide (o = zrep 15 Byte.x00 ++ [Byte.x01])
  end.

(** The values of the Rust types, and the addresses without an IPv6 flow label
    or scope. *)
Definition ip_wf (a : IpAddr) : Prop :=
  match a with V4 o => zlen o = 4 | V6 o => zlen o = 16 end.
Definition socket_wf (a : SocketAddr) : Prop := ip_wf (ip a) /\ is_u16 (port a).
Definition plain_socket (a : SocketAddr) : Prop :=
  match a with SocketV4 _ _ => True | SocketV6 _ _ f s => f = 0 /\ s = 0 end.

Lemma socket_new_wf a p : ip_wf a -> is_u16 p -> socket_wf (SocketAddr_new a p).
Proof. by destruct a. Qed.

Lemma socket_new_plain a p : plain_socket (SocketAddr_new a p).
Proof. by destruct a. Qed.

Lemma socket_new_eta a : plain_socket a -> SocketAddr_new (ip a) (port a) = a.
Proof. by destruct a as [|? ? ? ?]; [|intros [-> ->]]. Qed.

(** ** Onion addresses *)

Definition V3_ONION_LABEL_LEN : Z := 56.
Definition onion_suffix : str := lit ".onion".

Record OnionAddress := { host : str; onion_port : Z }.

#[export] Instance OnionAddress_eq_dec : EqDecision OnionAddress.
Proof. solve_decision. Defined.

(** [b.is_ascii_lowercase() || (b'2'..=b'7').contains(&b)]. *)
Definition onion_symbol (b : byte) : bool := in_range 97 122 b || in_range 50 55 b.

(** The host names [OnionAddress] can hold. *)
Definition onion_host (h : str) : Prop :=
  exists label, h = label ++ onion_suffix /\ zlen label = V3_ONION_LABEL_LEN /\
    Forall (fun b => onion_symbol b = true) label.
Definition onion_wf (a : OnionAddress) : Prop :=
  onion_host (host a) /\ is_u16 (onion_port a) /\ onion_port a <> 0.

Section onion.
Context `{UnicodeCase}.

(** [OnionAddress::new]. *)
Definition onion_new (h : str) (p : Z) : result OnionAddress :=
  let host := to_lowercase (trim h) in
  let? label := ok_or (strip_suffix onion_suffix host)
                  (Error.Connect "not a .onion address") in
  if negb (zlen label =? V3_ONION_LABEL_LEN)
  then Err (Error.Connect "not a v3 onion address") else
  if negb (forallb onion_symbol label)
  then Err (Error.Connect "contains characters that are not valid base32") else
  if p =? 0 then Err (Error.Connect "onion port must not be zero") else
  Ok {| host := host; onion_port := p |}.

Lemma onion_new_wf h p a : is_u16 p -> onion_new h p = Ok a -> onion_wf a.
Proof.
  unfold onion_new. intros Hp Ha. ok_inv Ha; bools. injection Ha as <-.
  apply strip_suffix_Some in Hx. unfold onion_wf. cbn [host onion_port].
  split_and!; [|done|done]. exists x. split_and!; [done|done|].
  by apply forallb_Forall.
Qed.

Lemma onion_new_no_panic h p : onion_new h p <> Panic.
Proof. unfold onion_new. no_panic. Qed.

Lemma onion_symbol_facts b : onion_symbol b = true ->
  is_ascii b = true /\ plain_byte b = true /\ in_range 65 90 b = false.
Proof. all_bytes b. Qed.

Lemma onion_host_facts h :
  onion_host h -> plain h /\ Forall (fun b => in_range 65 90 b = false) h /\ zlen h = 62.
Proof.
  intros (l & -> & Hlen & Hl). split_and!.
  - apply Forall_app; split; [|by repeat constructor].
    eapply Forall_impl; [|exact Hl]. intros. by apply onion_symbol_facts.
  - apply Forall_app; split; [|by repeat constructor].
    eapply Forall_impl; [|exact Hl]. intros. by apply onion_symbol_facts.
  - rewrite zlen_app, Hlen. done.
Qed.

Context `{!UnicodeCaseLaws _}.

(** A stored host is a fixed point of the validation. *)
Lemma onion_new_host h p :
  onion_host h -> p <> 0 -> onion_new h p = Ok {| host := h; onion_port := p |}.
Proof.
  intros Hh Hp. destruct (onion_host_facts h Hh) as (Hpl & Hlow & _).
  unfold onion_new. rewrite trim_plain by done.
  rewrite to_lowercase_ascii by (by apply plain_ascii). rewrite ascii_lower_id by done.
  destruct Hh as (l & -> & Hlen & Hl).
  assert (Hs : strip_suffix onion_suffix (l ++ onion_suffix) = Some l)
    by (by apply strip_suffix_Some).
  rewrite Hs. cbn [obind ok_or]. rewrite Hlen, Z.eqb_refl. cbn [negb].
  replace (forallb onion_symbol l) with true.
  2: { symmetry. by apply forallb_Forall. }
  by zdec.
Qed.
End onion.
