(* ===== verification/Ticket.v ===== *)
(** * Connection tickets

    [p2p-live/src/ticket.rs]: the bounds-checked [Reader], the hint list shared
    with address records, the canonical binary form of a ticket and its pasteable
    text form. *)

From Stdlib Require Import Strings.Byte.
From stdpp Require Import strings.
From S2P Require Import Prelude Text Primitives LiveError Bundle Net.

Definition TICKET_PREFIX : str := lit "atom-live-1:".
Definition FORMAT_VERSION : byte := Byte.x01.
Definition CHECKSUM_LEN : Z := 4.
Definition CHECKSUM_DOMAIN : bytes := lit "atom-live-ticket-checksum-v1".
Definition ONION_LABEL_BYTES : Z := 62.
Definition MAX_HINTS : Z := 8.
Definition TAG_V4 : byte := Byte.x04.
Definition TAG_V6 : byte := Byte.x06.
Definition TAG_ONION : byte := Byte.x09.
Definition DEFAULT_TTL_SECS : Z := 24 * 60 * 60.

(** ** The reader *)

Record Reader := { buf : bytes; pos : Z; noun : string }.

Definition Reader_named (b : bytes) (n : string) : Reader := {| buf := b; pos := 0; noun := n |}.
Definition Reader_new (b : bytes) : Reader := Reader_named b "ticket".

Definition take (r : Reader) (n : Z) : result (bytes * Reader) :=
  let? (out, stop) := cursor_take (Error.Ticket (noun r +:+ " length overflow"))
                        (Error.Ticket (noun r +:+ " truncated")) (buf r) (pos r) n in
  Ok (out, {| buf := buf r; pos := stop; noun := noun r |}).

Definition read_u8 (r : Reader) : result (byte * Reader) :=
  let? (b, r) := take r 1 in
  let? x := or_panic (head b) in Ok (x, r).

Definition read_u16 (r : Reader) : result (Z * Reader) :=
  let? (b, r) := take r 2 in Ok (be_val b, r).

Definition read_u64 (r : Reader) : result (Z * Reader) :=
  let? (b, r) := take r 8 in Ok (be_val b, r).

Definition reader_is_empty (r : Reader) : bool := pos r =? zlen (buf r).

(** ** Endpoints and the hint list *)

Inductive Endpoint :=
| Direct (a : SocketAddr)
| Onion (a : OnionAddress).

#[export] Instance Endpoint_eq_dec : EqDecision Endpoint.
Proof. solve_decision. Defined.

(** One iteration of [encode_hints]. *)
Definition encode_hint (h : Endpoint) : bytes :=
  match h with
  | Direct addr =>
      match ip addr with
      | V4 o => [TAG_V4] ++ o
      | V6 o => [TAG_V6] ++ o
      end ++ be_bytes 2 (port addr)
  | Onion onion => [TAG_ONION] ++ host onion ++ be_bytes 2 (onion_port onion)
  end.

(** [encode_hints]; the count is [hints.len() as u8]. *)
Definition encode_hints (hints : list Endpoint) : bytes :=
  be_bytes 1 (zlen hints) ++ concat (map encode_hint hints).

Section codec.
Context `{UnicodeCase}.

(** One iteration of [decode_hints]. *)
Definition decode_hint (r : Reader) : result (Endpoint * Reader) :=
  let? (tag, r) := read_u8 r in
  if decide (tag = TAG_V4) then
    let? (o, r) := take r 4 in
    let? (p, r) := read_u16 r in
    Ok (Direct (SocketAddr_new (V4 o) p), r)
  else if decide (tag = TAG_V6) then
    let? (o, r) := take r 16 in
    let? (p, r) := read_u16 r in
    Ok (Direct (SocketAddr_new (V6 o) p), r)
  else if decide (tag = TAG_ONION) then
    let? (label, r) := take r ONION_LABEL_BYTES in
    let? h := ok_or (from_utf8 label) (Error.Ticket "onion hint is not valid UTF-8") in
    let? (p, r) := read_u16 r in
    let? a := map_err (fun _ => Error.Ticket "bad onion hint") (onion_new h p) in
    Ok (Onion a, r)
  else Err (Error.Ticket "unknown address family tag").

Fixpoint decode_loop (n : nat) (hints : list Endpoint) (r : Reader)
    : result (list Endpoint * Reader) :=
  match n with
  | O => Ok (hints, r)
  | S n => let? (h, r) := decode_hint r in decode_loop n (hints ++ [h]) r
  end.

(** [decode_hints]. *)
Definition decode_hints (r : Reader) : result (list Endpoint * Reader) :=
  let? (c, r) := read_u8 r in
  let hint_count := b2z c in
  if MAX_HINTS <? hint_count
  then Err (Error.Ticket "lists more address hints than allowed")
  else decode_loop (Z.to_nat hint_count) [] r.
End codec.

(** ** The ticket *)

Inductive Suite := LivePq1.

Definition Suite_to_byte (s : Suite) : byte := match s with LivePq1 => Byte.x01 end.
Definition Suite_from_byte (b : byte) : result Suite :=
  if decide (b = Byte.x01) then Ok LivePq1 else Err (Error.Ticket "unknown suite").

Record t := {
  identity : IdentityBundle;
  hints : list Endpoint;
  suite : Suite;
  not_after : Z;
}.

(** [now_secs]: the clock as seconds since the epoch, [None] when before it. *)
Definition now_secs (clock : option Z) : result Z :=
  ok_or clock (Error.Ticket "system clock is before the Unix epoch").

Definition ticket_new (clock : option Z) (i : IdentityBundle) (h : list Endpoint) : result t :=
  let? now := now_secs clock in
  Ok {| identity := i; hints := h; suite := LivePq1;
        not_after := sat_add64 now DEFAULT_TTL_SECS |}.

Definition expiring_at (x : t) (not_after : Z) : t :=
  {| identity := identity x; hints := hints x; suite := suite x; not_after := not_after |}.

Definition is_expired_at (x : t) (now : Z) : bool := not_after x <=? now.

Definition check_valid (clock : option Z) (x : t) : result unit :=
  let? now := now_secs clock in
  if is_expired_at x now then Err (Error.Ticket "ticket has expired") else Ok tt.

Definition direct_hints (x : t) : list SocketAddr :=
  omap (fun h => match h with Direct a => Some a | Onion _ => None end) (hints x).
Definition onion_hints (x : t) : list OnionAddress :=
  omap (fun h => match h with Onion a => Some a | Direct _ => None end) (hints x).

(** [Ticket::to_bytes]; the bundle's length is [as u16]. *)
Definition to_bytes (x : t) : bytes :=
  let bundle := bundle_to_bytes (identity x) in
  [FORMAT_VERSION] ++ [Suite_to_byte (suite x)] ++ be_bytes 8 (not_after x)
  ++ be_bytes 2 (zlen bundle) ++ bundle ++ encode_hints (hints x).

Section ticket.
Context `{UnicodeCase}.

(** [Ticket::from_bytes]. *)
Definition from_bytes (b : bytes) : result t :=
  let r := Reader_new b in
  let? (version, r) := read_u8 r in
  if decide (version <> FORMAT_VERSION) then Err (Error.Ticket "ticket format version") else
  let? (s, r) := read_u8 r in
  let? s := Suite_from_byte s in
  let? (not_after, r) := read_u64 r in
  let? (id_len, r) := read_u16 r in
  if id_len =? 0 then Err (Error.Ticket "ticket carries no identity") else
  let? (ib, r) := take r id_len in
  let? i := map_err (fun _ => Error.Ticket "ticket carries a bad identity")
              (bundle_from_bytes ib) in
  let? (h, r) := decode_hints r in
  if negb (reader_is_empty r) then Err (Error.Ticket "trailing bytes after ticket") else
  Ok {| identity := i; hints := h; suite := s; not_after := not_after |}.

Context `{Blake3} `{Base32}.

Definition checksum (payload : bytes) : bytes :=
  ztake CHECKSUM_LEN
    (hasher_finalize (hasher_update (hasher_update hasher_new CHECKSUM_DOMAIN) payload)).

(** [Ticket::to_text]. *)
Definition to_text (x : t) : str :=
  let payload := to_bytes x in
  TICKET_PREFIX ++ base32_lower (payload ++ checksum payload).

(** [Ticket::from_text]. *)
Definition from_text (text : str) : result t :=
  let lowered := to_lowercase (trim text) in
  let? body := ok_or (strip_prefix TICKET_PREFIX lowered)
                 (Error.Ticket "ticket must start with its prefix") in
  let? decoded := ok_or (base32_parse body) (Error.Ticket "not valid base32") in
  if zlen decoded <=? CHECKSUM_LEN
  then Err (Error.Ticket "ticket is too short to be valid") else
  let at_ := zlen decoded - CHECKSUM_LEN in
  let payload := ztake at_ decoded in
  let tail := zdrop at_ decoded in
  if decide (tail <> checksum payload)
  then Err (Error.Ticket "ticket checksum does not match") else
  from_bytes payload.

Definition ticket_id (x : t) : BundleId := bundle_id (identity x).
Definition fingerprint (x : t) : str := id_fingerprint (ticket_id x).
End ticket.

(** The endpoints and tickets the encoding represents: an IPv6 flow label or
    scope has no place in it, and the reader allows eight hints. *)
Definition endpoint_wf (e : Endpoint) : Prop :=
  match e with
  | Direct a => socket_wf a /\ plain_socket a
  | Onion a => onion_wf a
  end.

Definition hints_wf (l : list Endpoint) : Prop := zlen l <= MAX_HINTS /\ Forall endpoint_wf l.

Definition ticket_wf (x : t) : Prop :=
  bundle_wf (identity x) /\ zlen (bundle_to_bytes (identity x)) <= u16_max /\
  hints_wf (hints x) /\ is_u64 (not_after x).

(** ** Lemmas: reading what was written *)

Definition ahead (r : Reader) (k : bytes) : Prop := at_rest (buf r) (pos r) k /\ in_memory (buf r).

Definition advance (r : Reader) (n : Z) : Reader :=
  {| buf := buf r; pos := pos r + n; noun := noun r |}.

Lemma ahead_start b n : in_memory b -> ahead (Reader_named b n) b.
Proof. intros H. split; [apply at_rest_start|done]. Qed.

Lemma ahead_empty r : ahead r [] -> reader_is_empty r = true.
Proof. intros [H _]. apply at_rest_end in H. by apply Z.eqb_eq. Qed.

Lemma take_ahead r n x k :
  ahead r (x ++ k) -> n = zlen x -> take r n = Ok (x, advance r n) /\ ahead (advance r n) k.
Proof.
  intros [H Hm] Hn. unfold take.
  destruct (cursor_take_rest (Error.Ticket (noun r +:+ " length overflow"))
    (Error.Ticket (noun r +:+ " truncated")) _ _ _ _ _ H Hm Hn) as [-> H'].
  by split.
Qed.

Lemma read_u8_ahead r b k :
  ahead r (b :: k) -> read_u8 r = Ok (b, advance r 1) /\ ahead (advance r 1) k.
Proof.
  intros H. change (b :: k) with ([b] ++ k) in H. unfold read_u8.
  by destruct (take_ahead r 1 [b] k H eq_refl) as [-> ?].
Qed.

Lemma read_u16_ahead r z k :
  is_u16 z -> ahead r (be_bytes 2 z ++ k) ->
  read_u16 r = Ok (z, advance r 2) /\ ahead (advance r 2) k.
Proof.
  intros Hz H. unfold read_u16.
  destruct (take_ahead r 2 _ k H ltac:(by rewrite zlen_be_bytes)) as [-> ?].
  cbn [obind]. by rewrite be_val_small.
Qed.

Lemma read_u64_ahead r z k :
  is_u64 z -> ahead r (be_bytes 8 z ++ k) ->
  read_u64 r = Ok (z, advance r 8) /\ ahead (advance r 8) k.
Proof.
  intros Hz H. unfold read_u64.
  destruct (take_ahead r 8 _ k H ltac:(by rewrite zlen_be_bytes)) as [-> ?].
  cbn [obind]. by rewrite be_val_small.
Qed.

(** One read of printed bytes: [H : ahead r (x ++ k)]. *)
Ltac reads H lem :=
  let Eq := fresh "Eq" in let H' := fresh "H'" in
  edestruct lem as [Eq H'];
  lazymatch goal with |- ahead _ _ => exact H | _ => idtac end;
  [try done ..|rewrite Eq; clear Eq H; rename H' into H; cbn [obind or_panic]].

(** What a successful read says, whatever was in the buffer. *)
Definition live (r : Reader) : Prop := 0 <= pos r.

Lemma take_Ok r n x r' :
  live r -> take r n = Ok (x, r') -> zlen x = n /\ 0 <= n /\ live r' /\
    pos r' <= zlen (buf r') /\ buf r' = buf r.
Proof.
  unfold live, take. intros Hp H. ok_inv H. injection H as <- <-. cursor_inv Hx. simpl.
  split_and!; done || lia.
Qed.

Lemma read_u8_Ok r b r' : live r -> read_u8 r = Ok (b, r') -> live r'.
Proof.
  unfold read_u8. intros Hp H. ok_inv H. simplify_eq. apply take_Ok in Hx; [tauto|done].
Qed.

Lemma read_u16_Ok r z r' : live r -> read_u16 r = Ok (z, r') -> live r' /\ is_u16 z.
Proof.
  unfold read_u16. intros Hp H. ok_inv H. simplify_eq. apply take_Ok in Hx; [|done].
  destruct Hx as (Hl & _ & Hr & _). split; [done|]. pose proof (be_val_range a) as Hv.
  rewrite Hl in Hv. done.
Qed.

Lemma read_u64_Ok r z r' : live r -> read_u64 r = Ok (z, r') -> live r' /\ is_u64 z.
Proof.
  unfold read_u64. intros Hp H. ok_inv H. simplify_eq. apply take_Ok in Hx; [|done].
  destruct Hx as (Hl & _ & Hr & _). split; [done|]. pose proof (be_val_range a) as Hv.
  rewrite Hl in Hv. done.
Qed.

Lemma take_no_panic r n : live r -> 0 <= n -> take r n <> Panic.
Proof.
  intros. unfold take. apply obind_no_panic; [by apply cursor_take_no_panic|]. by intros [].
Qed.

Lemma read_u8_no_panic r : live r -> read_u8 r <> Panic.
Proof.
  intros Hr. unfold read_u8. apply obind_no_panic; [by apply take_no_panic|].
  intros [b r'] H. apply take_Ok in H as (Hl & _); [|done].
  apply obind_no_panic; [by apply head_one_no_panic|done].
Qed.

Lemma read_u16_no_panic r : live r -> read_u16 r <> Panic.
Proof. intros Hr. apply obind_no_panic; [by apply take_no_panic|]. by intros []. Qed.

Lemma read_u64_no_panic r : live r -> read_u64 r <> Panic.
Proof. intros Hr. apply obind_no_panic; [by apply take_no_panic|]. by intros []. Qed.

(** Follow the reads of a successful parse. *)
Ltac read_inv :=
  repeat match goal with
  | Hr : live ?r, H : read_u8 ?r = Ok (_, _) |- _ => apply (read_u8_Ok _ _ _ Hr) in H
  | Hr : live ?r, H : read_u16 ?r = Ok (_, _) |- _ => apply (read_u16_Ok _ _ _ Hr) in H as [? ?]
  | Hr : live ?r, H : read_u64 ?r = Ok (_, _) |- _ => apply (read_u64_Ok _ _ _ Hr) in H as [? ?]
  | Hr : live ?r, H : take ?r _ = Ok (_, _) |- _ =>
      apply (take_Ok _ _ _ _ Hr) in H as (? & ? & ? & ? & ?)
  end.

(** Readers do not panic. *)
Ltac read_no_panic :=
  repeat match goal with
  | |- obind (read_u8 _) _ <> Panic =>
      let H := fresh in
      apply obind_no_panic; [by apply read_u8_no_panic|intros [? ?] H; read_inv; cbv beta iota]
  | |- obind (read_u16 _) _ <> Panic =>
      let H := fresh in
      apply obind_no_panic; [by apply read_u16_no_panic|intros [? ?] H; read_inv; cbv beta iota]
  | |- obind (read_u64 _) _ <> Panic =>
      let H := fresh in
      apply obind_no_panic; [by apply read_u64_no_panic|intros [? ?] H; read_inv; cbv beta iota]
  | |- obind (take _ _) _ <> Panic =>
      let H := fresh in
      apply obind_no_panic;
      [apply take_no_panic; [done|unfold is_u16 in *; lia || done]
      |intros [? ?] H; read_inv; cbv beta iota]
  | |- obind (ok_or _ _) _ <> Panic =>
      apply obind_no_panic; [apply ok_or_no_panic|intros ? _]
  | |- obind (map_err _ _) _ <> Panic =>
      apply obind_no_panic; [apply map_err_no_panic|intros ? ?]
  | |- (if ?c then _ else _) <> Panic => destruct c
  end; auto with nopanic.

Section hint_lemmas.
Context `{UnicodeCase}.

Lemma decode_hint_wf r h r' : live r -> decode_hint r = Ok (h, r') -> endpoint_wf h /\ live r'.
Proof.
  unfold decode_hint. intros Hr Hd. ok_inv Hd; simplify_eq; read_inv.
  - split; [|done]. by split.
  - split; [|done]. by split.
  - split; [|done]. simpl. by eapply onion_new_wf.
Qed.

Lemma decode_hint_no_panic r : live r -> decode_hint r <> Panic.
Proof. intros Hr. unfold decode_hint. read_no_panic. apply onion_new_no_panic. Qed.

Lemma decode_loop_wf n l r l' r' :
  live r -> Forall endpoint_wf l -> decode_loop n l r = Ok (l', r') ->
  Forall endpoint_wf l' /\ zlen l' = zlen l + Z.of_nat n /\ live r'.
Proof.
  revert l r. induction n as [|n IH]; intros l r Hr Hl; cbn [decode_loop].
  { intros [= <- <-]. split_and!; [done|lia|done]. }
  intros Hd. ok_inv Hd. apply decode_hint_wf in Hx as [Hh Hr']; [|done].
  apply IH in Hd as (? & Hlen & ?); [|done|by apply Forall_app; auto].
  rewrite zlen_app, zlen_cons, zlen_nil in Hlen. split_and!; [done|lia|done].
Qed.

Lemma decode_hints_wf r l r' : live r -> decode_hints r = Ok (l, r') -> hints_wf l /\ live r'.
Proof.
  unfold decode_hints. intros Hr Hd. ok_inv Hd; bools. read_inv.
  apply decode_loop_wf in Hd as (? & Hlen & ?); [|done|by constructor].
  pose proof (b2z_range a). rewrite zlen_nil in Hlen. split; [|done]. split; [lia|done].
Qed.

Lemma decode_hints_no_panic r : live r -> decode_hints r <> Panic.
Proof.
  intros Hr. unfold decode_hints. read_no_panic. generalize (Z.to_nat (b2z b)). intros n.
  assert (Hg : forall l r, live r -> decode_loop n l r <> Panic); [|by apply Hg].
  clear. induction n as [|n IH]; intros l r Hr; cbn [decode_loop]; [done|].
  apply obind_no_panic; [by apply decode_hint_no_panic|].
  intros [h r'] Hd. apply decode_hint_wf in Hd as [? ?]; [|done]. by apply IH.
Qed.

Context `{!UnicodeCaseLaws _}.

Lemma decode_hint_ahead r h k :
  endpoint_wf h -> ahead r (encode_hint h ++ k) ->
  exists r', decode_hint r = Ok (h, r') /\ ahead r' k.
Proof.
  intros Hwf Hr. unfold decode_hint. destruct h as [[o p|o p f s]|[hh p]]; simpl in *.
  - destruct Hwf as [[Ho Hp] _]. simpl in *. reads Hr read_u8_ahead.
    rewrite decide_True by done. rewrite <- app_assoc in Hr.
    reads Hr take_ahead. reads Hr read_u16_ahead. by eexists.
  - destruct Hwf as [[Ho Hp] [-> ->]]. simpl in *. reads Hr read_u8_ahead.
    rewrite decide_False, decide_True by done. rewrite <- app_assoc in Hr.
    reads Hr take_ahead. reads Hr read_u16_ahead. by eexists.
  - destruct Hwf as (Hh & Hp & Hp0). simpl in *. reads Hr read_u8_ahead.
    rewrite !decide_False, decide_True by done. rewrite <- app_assoc in Hr.
    destruct (onion_host_facts hh Hh) as (Hpl & _ & Hlen).
    assert (ONION_LABEL_BYTES = zlen hh) by (by rewrite Hlen).
    reads Hr take_ahead. rewrite from_utf8_ascii by (by apply plain_ascii). cbn [obind ok_or].
    reads Hr read_u16_ahead. rewrite onion_new_host by done. by eexists.
Qed.

Lemma decode_loop_ahead l acc r k :
  Forall endpoint_wf l -> ahead r (concat (map encode_hint l) ++ k) ->
  exists r', decode_loop (length l) acc r = Ok (acc ++ l, r') /\ ahead r' k.
Proof.
  intros Hl. revert acc r. induction Hl as [|h l Hh _ IH]; intros acc r Hr; simpl in *.
  { rewrite app_nil_r. by exists r. }
  rewrite <- app_assoc in Hr. destruct (decode_hint_ahead r h _ Hh Hr) as (r1 & -> & Hr1).
  cbn [obind]. destruct (IH (acc ++ [h]) r1 Hr1) as (r2 & -> & Hr2).
  rewrite <- app_assoc. by exists r2.
Qed.

Lemma decode_hints_ahead l r k :
  hints_wf l -> ahead r (encode_hints l ++ k) ->
  exists r', decode_hints r = Ok (l, r') /\ ahead r' k.
Proof.
  intros [Hn Hl] Hr. unfold decode_hints, encode_hints, MAX_HINTS in *.
  change (be_bytes 1 (zlen l)) with [z2b (zlen l)] in Hr. rewrite <- app_assoc in Hr.
  reads Hr read_u8_ahead. pose proof (zlen_nonneg l). rewrite b2z_z2b, Z.mod_small by lia.
  zdec. unfold zlen. rewrite Nat2Z.id. by apply decode_loop_ahead.
Qed.
End hint_lemmas.

Lemma encode_hints_length l : hints_wf l -> zlen (encode_hints l) <= 1 + 65 * zlen l.
Proof.
  intros [_ Hl]. unfold encode_hints. rewrite zlen_app, zlen_be_bytes.
  assert (zlen (concat (map encode_hint l)) <= 65 * zlen l); [|lia].
  induction Hl as [|h l Hh _ IH]; [done|]. cbn [map concat]. rewrite zlen_app, zlen_cons.
  assert (zlen (encode_hint h) <= 65); [|lia]. unfold encode_hint.
  destruct h as [[o p|o p ? ?]|[hh p]]; simpl in Hh; cbn [ip port host onion_port].
  - destruct Hh as [[Ho _] _]. simpl in Ho. zl.
  - destruct Hh as [[Ho _] _]. simpl in Ho. zl.
  - destruct Hh as [Ho _]. apply onion_host_facts in Ho as (_ & _ & Ho). simpl in Ho. zl.
Qed.

Lemma to_bytes_length x : ticket_wf x -> zlen (to_bytes x) <= 2 ^ 17.
Proof.
  intros (_ & Hb & Hh & _). pose proof (encode_hints_length _ Hh). destruct Hh as [Hn _].
  unfold to_bytes, u16_max, MAX_HINTS in *. zl.
Qed.

Section ticket_lemmas.
Context `{UnicodeCase}.

Lemma ticket_from_bytes_wf x k : from_bytes x = Ok k -> ticket_wf k.
Proof.
  unfold from_bytes. intros Hk. assert (live (Reader_new x)) by done.
  ok_inv Hk; bools; simplify_eq; read_inv.
  match goal with Hb : bundle_from_bytes _ = Ok _ |- _ => apply bundle_encode_decode in Hb as [? <-] end.
  match goal with Hd : decode_hints _ = Ok _ |- _ => apply decode_hints_wf in Hd as [? _]; [|done] end.
  split_and!; [done| |done|done]. simpl. unfold is_u16, u16_max in *. lia.
Qed.

Lemma ticket_from_bytes_no_panic x : from_bytes x <> Panic.
Proof.
  unfold from_bytes. assert (live (Reader_new x)) by done. read_no_panic.
  - unfold Suite_from_byte. apply obind_no_panic; [by case_decide|intros ? _]. read_no_panic.
    + apply bundle_from_bytes_no_panic.
    + apply obind_no_panic; [by apply decode_hints_no_panic|]. intros [? ?] _. read_no_panic.
Qed.

Context `{!UnicodeCaseLaws _}.

Lemma ticket_decode_encode x : ticket_wf x -> from_bytes (to_bytes x) = Ok x.
Proof.
  intros Hwf. pose proof (to_bytes_length x Hwf) as Hlen.
  destruct Hwf as (Hb & Hbl & Hh & Hna).
  assert (Hr : ahead (Reader_new (to_bytes x)) (to_bytes x)).
  { apply ahead_start. unfold in_memory, u64_max. lia. }
  unfold to_bytes in Hr at 2. unfold from_bytes.
  destruct x as [i l [] na]. cbn [identity hints suite not_after Suite_to_byte] in *.
  change ([FORMAT_VERSION] ++ [Byte.x01] ++ ?k) with (FORMAT_VERSION :: Byte.x01 :: k) in Hr.
  set (b := to_bytes _) in *. clearbody b.
  reads Hr read_u8_ahead. rewrite decide_False by (intros []; done).
  reads Hr read_u8_ahead. cbn. reads Hr read_u64_ahead. reads Hr read_u16_ahead.
  { pose proof (zlen_nonneg (bundle_to_bytes i)). unfold is_u16, u16_max in *. lia. }
  destruct Hb as [Hb1 Hb2]. pose proof (bundle_to_bytes_length i) as Hbi.
  assert (5 < zlen (bundle_to_bytes i)).
  { rewrite Hbi. destruct (pq i); pose_zlens; lia. }
  clear Hbi.
  zdec. reads Hr take_ahead. rewrite bundle_decode_encode by done. cbn [map_err obind].
  rewrite <- (app_nil_r (encode_hints l)) in Hr.
  destruct (decode_hints_ahead l _ _ Hh Hr) as (r' & -> & Hr'). cbn [obind].
  by rewrite ahead_empty.
Qed.

Context `{Blake3} `{!Blake3Laws _} `{Base32} `{!Base32Laws _}.

Lemma checksum_length p : zlen (checksum p) = CHECKSUM_LEN.
Proof.
  unfold checksum. pose proof (hasher_spec [CHECKSUM_DOMAIN; p]) as Hs. simpl in Hs.
  rewrite Hs, zlen_take, blake3_length. done.
Qed.

Lemma ticket_text_is_armor x : to_text x = armor TICKET_PREFIX checksum (to_bytes x).
Proof. done. Qed.

Lemma to_text_facts x :
  plain (to_text x) /\ Forall (fun b => in_range 65 90 b = false) (to_text x).
Proof. apply armor_facts; first [done|by repeat constructor]. Qed.

Lemma from_text_any x w1 s w2 :
  ticket_wf x ->
  Forall (fun b => b ∈ ascii_whitespace) w1 -> Forall (fun b => b ∈ ascii_whitespace) w2 ->
  ascii s -> map ascii_lower s = to_text x ->
  from_text (w1 ++ s ++ w2) = Ok x.
Proof.
  intros Hwf Hw1 Hw2 Hs Hlow. rewrite <- (ticket_decode_encode x Hwf).
  apply (dearmor_any TICKET_PREFIX CHECKSUM_LEN checksum); first [done|by repeat constructor|idtac].
  apply checksum_length.
Qed.

Lemma from_text_Ok s k :
  from_text s = Ok k ->
  exists body p, to_lowercase (trim s) = TICKET_PREFIX ++ body /\
    base32_parse body = Some (p ++ checksum p) /\ from_bytes p = Ok k.
Proof. apply dearmor_Ok. Qed.

Lemma from_text_no_panic s : from_text s <> Panic.
Proof. apply dearmor_no_panic, ticket_from_bytes_no_panic. Qed.
End ticket_lemmas.

(** ** Theorems *)

Section ticket_theorems.
Context `{UnicodeCase} `{!UnicodeCaseLaws _}.

(** C14: A ticket survives its binary form, and a hostile one is only ever an
    error.  Decoding inverts encoding on every well-formed ticket (whatever the
    number, family and order of its hints, up to the limit); whatever bytes are
    accepted, the ticket they give is well formed (validated onion hosts,
    non-zero onion ports, at most eight hints, identity of the right shape) and
    so survives being encoded again; and no input makes the decoder panic. *)
Theorem ticket_bytes_codec :
  (forall x, ticket_wf x -> from_bytes (to_bytes x) = Ok x) /\
  (forall b x, from_bytes b = Ok x -> ticket_wf x /\ from_bytes (to_bytes x) = Ok x) /\
  (forall b, from_bytes b <> Panic).
Proof.
  split_and!; [apply ticket_decode_encode| |apply ticket_from_bytes_no_panic].
  intros b x Hb%ticket_from_bytes_wf. split; [done|by apply ticket_decode_encode].
Qed.

Context `{Blake3} `{!Blake3Laws _} `{Base32} `{!Base32Laws _}.

(** A pasted ticket is read back whatever a clipboard did to its case and
    to the whitespace around it: any text that has the same letters as
    [to_text] up to case, surrounded by any ASCII whitespace, parses to the
    ticket.  Conversely an accepted text carries the prefix and a base32 body
    that is a payload followed by that payload's own checksum. *)
Theorem ticket_text_roundtrip :
  (forall x w1 s w2, ticket_wf x ->
     Forall (fun b => b ∈ ascii_whitespace) w1 -> Forall (fun b => b ∈ ascii_whitespace) w2 ->
     ascii s -> map ascii_lower s = to_text x -> from_text (w1 ++ s ++ w2) = Ok x) /\
  (forall s x, from_text s = Ok x ->
     exists body p, to_lowercase (trim s) = TICKET_PREFIX ++ body /\
       base32_parse body = Some (p ++ checksum p) /\ from_bytes p = Ok x) /\
  (forall s, from_text s <> Panic).
Proof.
  split_and!; [intros; by apply from_text_any|apply from_text_Ok|apply from_text_no_panic].
Qed.
End ticket_theorems.

(** A fresh ticket is valid for exactly a day: the check made before dialling
    passes at a clock reading if and only if it is before the expiry, which is the
    issuing time plus [DEFAULT_TTL_SECS] (saturating), and an unreadable clock
    refuses the ticket. *)
Theorem ticket_expiry clock0 i l x :
  ticket_new clock0 i l = Ok x ->
  exists t0, clock0 = Some t0 /\ not_after x = Z.min u64_max (t0 + 86400) /\
    identity x = i /\ hints x = l /\
    forall clock, check_valid clock x = Ok tt <->
      exists now, clock = Some now /\ now < Z.min u64_max (t0 + 86400).
Proof.
  unfold ticket_new, now_secs. intros Hx. ok_inv Hx. simplify_eq. exists x0.
  split_and!; [done..|]. intros clock. unfold check_valid, now_secs, is_expired_at. simpl.
  change (sat_add64 x0 DEFAULT_TTL_SECS) with (Z.min u64_max (x0 + 86400)).
  destruct clock as [now|]; cbn [ok_or obind].
  - destruct (_ <=? now) eqn:Hc; bools.
    + split; [done|]. intros (? & [= <-] & ?). lia.
    + split; [by eexists|done].
  - split; [done|]. by intros (? & [=] & _).
Qed.

(** *** Examples *)

Import Toy ToySig.

Definition example_onion : OnionAddress :=
  {| host := zrep 56 Byte.x61 ++ onion_suffix; onion_port := 9735 |}.

Definition example_ticket : t :=
  {| identity := local_bundle (example_local Byte.x07);
     hints := [Direct (SocketV4 [Byte.x0a; Byte.x00; Byte.x00; Byte.x01] 4433);
               Direct (SocketV6 (zrep 16 Byte.x20) 1 0 0); Onion example_onion];
     suite := LivePq1; not_after := 1700000000 |}.

Lemma example_ticket_wf : ticket_wf example_ticket.
Proof.
  split_and!.
  - split; [vm_compute; split; discriminate|vm_compute; reflexivity].
  - vm_compute; discriminate.
  - split; [vm_compute; discriminate|]. repeat constructor; simpl; try done.
    exists (zrep 56 Byte.x61). split_and!; [done|done|]. by repeat constructor.
  - done.
Qed.

Lemma ticket_bytes_codec_witness :
  ticket_wf example_ticket /\ from_bytes (to_bytes example_ticket) = Ok example_ticket.
Proof.
  split; [apply example_ticket_wf|]. apply ticket_bytes_codec, example_ticket_wf.
Defined.

Lemma ticket_text_roundtrip_witness :
  from_text ([Byte.x20] ++ map ascii_upper (to_text example_ticket) ++ [Byte.x0a; Byte.x09])
  = Ok example_ticket.
Proof.
  apply ticket_text_roundtrip.
  - apply example_ticket_wf.
  - by repeat constructor; vm_compute.
  - by repeat constructor; vm_compute.
  - apply ascii_upper_ascii, plain_ascii. apply to_text_facts.
  - vm_compute; reflexivity.
Defined.

Lemma ticket_expiry_witness :
  exists x, ticket_new (Some 1000) (local_bundle (example_local Byte.x07)) [] = Ok x /\
    exists t0, Some 1000 = Some t0 /\ not_after x = Z.min u64_max (t0 + 86400) /\
      identity x = local_bundle (example_local Byte.x07) /\ hints x = [] /\
      forall clock, check_valid clock x = Ok tt <->
        exists now, clock = Some now /\ now < Z.min u64_max (t0 + 86400).
Proof. eexists. split; [reflexivity|]. by apply ticket_expiry. Defined.
