(* ===== verification/Slots.v ===== *)
(** * Rendezvous slots

    [p2p-live/src/discovery/secret.rs]: the per-epoch, per-direction labels and
    keys two paired peers derive from their shared secret. *)

From Stdlib Require Import Strings.Byte.
From stdpp Require Import sets.
From S2P Require Import Prelude Text Primitives LiveError.

Definition SLOT_DOMAIN : bytes := lit "atom-live-rdv-slot-v1".
Definition EPOCH_SECS : Z := 3600.
Definition TAG_LEN : Z := 32.
Definition SLOT_KEY_LEN : Z := 32.

Inductive Direction := LowToHigh | HighToLow.

#[export] Instance Direction_eq_dec : EqDecision Direction.
Proof. solve_decision. Defined.

(** [Direction::publishing], [flip] and [to_byte]. *)
Definition publishing (local peer : bytes) : Direction :=
  if bytes_lt local peer then LowToHigh else HighToLow.
Definition flip (d : Direction) : Direction :=
  match d with LowToHigh => HighToLow | HighToLow => LowToHigh end.
Definition direction_to_byte (d : Direction) : byte :=
  match d with LowToHigh => Byte.x00 | HighToLow => Byte.x01 end.

Record Slot := { tag : bytes; key : bytes }.

(** [Slot::tag_hex]. *)
Definition tag_hex (s : Slot) : str := hex (tag s).

Definition epoch_at (now : Z) : Z := now / EPOCH_SECS.

(** [now_secs]: [None] is a clock before the epoch. *)
Definition now_secs (clock : option Z) : result Z :=
  ok_or clock (Error.Discovery "system clock is before the Unix epoch").

Section slots.
Context `{Blake3}.

(** [RendezvousSecret::slot]; [secret] is the 32 bytes of the key. *)
Definition slot (secret : bytes) (d : Direction) (epoch : Z) : Slot :=
  let out := blake3_keyed_xof secret (SLOT_DOMAIN ++ [direction_to_byte d] ++ be_bytes 8 epoch)
               (TAG_LEN + SLOT_KEY_LEN) in
  {| tag := ztake TAG_LEN out; key := zdrop TAG_LEN out |}.

Definition publish_slots (secret : bytes) (d : Direction) (now : Z) : list Slot :=
  let epoch := epoch_at now in [slot secret d epoch; slot secret d (wadd64 epoch 1)].

Definition lookup_slots (secret : bytes) (d : Direction) (now : Z) : list Slot :=
  let epoch := epoch_at now in
  [slot secret d (Z.max 0 (epoch - 1)); slot secret d epoch; slot secret d (wadd64 epoch 1)].

(** ** Lemmas *)

Lemma flip_involutive d : flip (flip d) = d.
Proof. by destruct d. Qed.

Lemma publishing_flip a b : a <> b -> publishing a b = flip (publishing b a).
Proof.
  intros Hab. unfold publishing. rewrite (bytes_lt_total a b Hab). by destruct (bytes_lt b a).
Qed.

Lemma epoch_next now : is_u64 now -> wadd64 (epoch_at now) 1 = epoch_at now + 1 /\ 0 <= epoch_at now.
Proof.
  intros Hn. destruct Hn. unfold wadd64, epoch_at, EPOCH_SECS.
  pose proof (Z.div_pos now 3600 ltac:(lia) ltac:(lia)).
  pose proof (Z.div_le_upper_bound now 3600 (2 ^ 63) ltac:(lia) ltac:(lia)).
  split; [apply Z.mod_small; lia|done].
Qed.

Context `{!Blake3Laws _}.

Lemma slot_lengths secret d epoch : zlen (tag (slot secret d epoch)) = TAG_LEN /\
  zlen (key (slot secret d epoch)) = SLOT_KEY_LEN.
Proof.
  unfold slot, TAG_LEN, SLOT_KEY_LEN. cbn [tag key].
  rewrite zlen_take, zlen_drop, blake3_xof_length by lia. done.
Qed.

(** The publisher of a direction and a reader of it share a slot while the
    reader's epoch is at most one behind and two ahead. *)
Lemma shared_slot secret d t_pub t_look :
  is_u64 t_pub -> is_u64 t_look ->
  epoch_at t_look - 2 <= epoch_at t_pub <= epoch_at t_look + 1 ->
  exists s, s ∈ publish_slots secret d t_pub /\ s ∈ lookup_slots secret d t_look.
Proof.
  intros Hp Hl He. destruct (epoch_next _ Hp) as [E1 N1], (epoch_next _ Hl) as [E2 N2].
  unfold publish_slots, lookup_slots. rewrite E1, E2.
  set (p := epoch_at t_pub) in *. set (l := epoch_at t_look) in *.
  assert (Hcase : p = l \/ p = l + 1 \/ p + 1 = l \/ (p + 2 = l)) by lia.
  destruct Hcase as [->|[->|[Hc|Hc]]].
  - exists (slot secret d l). set_solver +.
  - exists (slot secret d (l + 1)). set_solver +.
  - exists (slot secret d p). replace (Z.max 0 (l - 1)) with p by lia. set_solver +.
  - exists (slot secret d (p + 1)). replace (Z.max 0 (l - 1)) with (p + 1) by lia. set_solver +.
Qed.
End slots.

(** ** Theorems *)

Section theorems.
Context `{Blake3} `{!Blake3Laws _}.

(** Two paired peers look where the other writes.  Each reads the direction
    the other publishes under, never its own, whichever of the two identifiers is
    larger; and when their clocks (and the age of the publication) differ by up to
    an hour, or the reader is two epochs later, one of the two slots
    written is among the three read.  Every lookup asks for exactly three tags,
    every publication writes exactly two, each of 32 bytes. *)
Theorem slots_meet secret a b t_pub t_look :
  a <> b -> is_u64 t_pub -> is_u64 t_look ->
  t_pub - EPOCH_SECS <= t_look <= t_pub + EPOCH_SECS \/ epoch_at t_look = epoch_at t_pub + 2 ->
  flip (publishing b a) = publishing a b /\ publishing a b <> publishing b a /\
  (exists s, s ∈ publish_slots secret (publishing a b) t_pub /\
             s ∈ lookup_slots secret (flip (publishing b a)) t_look) /\
  length (lookup_slots secret (flip (publishing b a)) t_look) = 3%nat /\
  length (publish_slots secret (publishing a b) t_pub) = 2%nat /\
  Forall (fun s => zlen (tag s) = 32) (publish_slots secret (publishing a b) t_pub).
Proof.
  intros Hab Hp Hl Hskew. pose proof (publishing_flip a b Hab) as Hf.
  split_and!; [done| | |done|done|].
  - rewrite Hf. by destruct (publishing b a).
  - rewrite <- Hf. apply shared_slot; [done|done|]. unfold epoch_at, EPOCH_SECS in *.
    pose proof (Z.div_mod t_pub 3600 ltac:(lia)). pose proof (Z.div_mod t_look 3600 ltac:(lia)).
    pose proof (Z.mod_pos_bound t_pub 3600 ltac:(lia)).
    pose proof (Z.mod_pos_bound t_look 3600 ltac:(lia)). lia.
  - repeat constructor; by apply slot_lengths.
Qed.
End theorems.

(** *** Examples *)

Import Toy.

Lemma slots_meet_witness :
  exists s, s ∈ publish_slots (zrep 32 Byte.x07) (publishing (lit "b") (lit "a")) 7199 /\
            s ∈ lookup_slots (zrep 32 Byte.x07) (flip (publishing (lit "a") (lit "b"))) 3600.
Proof.
  apply (slots_meet (zrep 32 Byte.x07) (lit "b") (lit "a") 7199 3600); [done|done|done|].
  left. vm_compute. by split.
Defined.
