(* ===== verification/Pairing.v ===== *)
(** * Pairing

    [p2p-live/src/pairing.rs]: two people who share a short spoken code swap
    tickets over an observed channel.  A password-authenticated key exchange
    turns the code into a key; the key seals the tickets and yields the secret
    the peers later find each other with. *)

From Stdlib Require Import Strings.Byte.
From S2P Require Import Prelude Text Primitives LiveError.
From S2P Require Import Bundle Net Ticket.

(** ** SPAKE2 ([spake2], the symmetric variant)

    Starting draws from the operating system's generator ([None]: it is
    unavailable, and the library panics) and gives a state and a message;
    finishing with the peer's message gives the shared key.  Two parties that
    started with the same password and identity, and that exchange their
    messages, finish with the same key.  Messages have a fixed length, and any
    other is refused. *)
Class Spake2 := {
  spake_state : Type;
  spake_message_len : Z;
  spake_start : bytes -> bytes -> rng -> option (spake_state * bytes * rng);
  spake_finish : spake_state -> bytes -> option bytes;
}.
Class Spake2Laws (S : Spake2) := {
  spake_agree : forall pw idn g1 g2 s1 m1 g1' s2 m2 g2',
    spake_start pw idn g1 = Some (s1, m1, g1') -> spake_start pw idn g2 = Some (s2, m2, g2') ->
    exists k, spake_finish s1 m2 = Some k /\ spake_finish s2 m1 = Some k;
  spake_start_length : forall pw idn g s m g',
    spake_start pw idn g = Some (s, m, g') -> zlen m = spake_message_len;
  spake_finish_length : forall s m k, spake_finish s m = Some k -> zlen m = spake_message_len;
  spake_start_total : forall pw idn g, rng_total g ->
    exists s m g', spake_start pw idn g = Some (s, m, g') /\ rng_total g';
}.

Definition PAKE_IDENTITY : bytes := lit "atom-vault-live-pairing-v1".
Definition SEAL_LABEL : bytes := lit "atom-live-pair-seal-v1".
Definition RENDEZVOUS_SECRET_LABEL : bytes := lit "atom-live-rdv-root-v1".
Definition AAD_DOMAIN : bytes := lit "atom-live-pair-transcript-v1".
Definition NONCE_LEN : Z := 24.
Definition CODE_BITS : Z := 55.
Definition CODE_CHARS : Z := (CODE_BITS + 4) / 5.
Definition MESSAGE_PREFIX : str := lit "atom-live-pair-1:".

Definition rng_unavailable : Error.t := Error.Pairing "OS random number generator unavailable".

(** ** The code *)

Record PairingCode := { secret : str }.

#[export] Instance PairingCode_eq_dec : EqDecision PairingCode.
Proof. solve_decision. Defined.

(** [slice::chunks(5)]. *)
Fixpoint chunks5 (l : bytes) : list bytes :=
  match l with
  | [] => []
  | a :: b :: c :: d :: e :: r => [a; b; c; d; e] :: chunks5 r
  | _ => [l]
  end.

(** [join("-")]. *)
Definition hyphen : byte := Byte.x2d.
Fixpoint join (l : list str) : str :=
  match l with
  | [] => []
  | [x] => x
  | x :: r => x ++ [hyphen] ++ join r
  end.

(** The characters [parse] keeps. *)
Definition code_char (c : str) : bool := negb (is_whitespace c) && negb (bool_decide (c = [hyphen])).

(** [PairingCode::display]. *)
Definition display (c : PairingCode) : str := join (map from_utf8_lossy (chunks5 (secret c))).

(** What an AAD is made of: both messages, in order. *)
Definition sorted2 (a b : bytes) : bytes := if bytes_lt b a then b ++ a else a ++ b.

Section pairing.
Context `{Base32} `{UnicodeCase} `{Spake2} `{Aead} `{Sha256}.

(** [PairingCode::generate]. *)
Definition generate (g : rng) : result (PairingCode * rng) :=
  let? (raw, g) := getrandom_fill ((CODE_BITS + 7) / 8) rng_unavailable g in
  let encoded := base32_lower raw in
  let? code := str_slice 0 CODE_CHARS encoded in
  Ok ({| secret := code |}, g).

(** [PairingCode::parse]; characters are lowered one at a time. *)
Definition parse (input : str) : result PairingCode :=
  let normalised := concat (map to_lowercase (filter (fun c => code_char c = true) (chars input))) in
  if bool_decide (normalised = []) then Err (Error.Pairing "pairing code is empty")
  else Ok {| secret := normalised |}.

(** ** The exchange *)

Definition encode_message (msg : bytes) : str := MESSAGE_PREFIX ++ base32_lower msg.

Definition decode_message (text : str) : result bytes :=
  let lowered := to_lowercase (trim text) in
  let? body := ok_or (strip_prefix MESSAGE_PREFIX lowered)
                 (Error.Pairing "a pairing message must start with the prefix") in
  ok_or (base32_parse body) (Error.Pairing "pairing message is not valid base32").

Record PairingState := { inner : spake_state; outbound : bytes }.

Definition start (c : PairingCode) (g : rng) : result (PairingState * bytes * rng) :=
  let? (s, m, g) := or_panic (spake_start (secret c) PAKE_IDENTITY g) in
  Ok ({| inner := s; outbound := m |}, m, g).

(** [derive]. *)
Definition derive (spake_key label : bytes) : result bytes :=
  or_panic (hkdf_expand None spake_key label 32).

Record PairedChannel := { key : bytes; rendezvous : bytes; aad : bytes }.

(** [PairingState::finish]. *)
Definition finish (st : PairingState) (peer_message : bytes) : result PairedChannel :=
  let? k := ok_or (spake_finish (inner st) peer_message)
              (Error.Pairing "pairing failed: wrong code, or tampering") in
  let? key := derive k SEAL_LABEL in
  let? rdv := derive k RENDEZVOUS_SECRET_LABEL in
  Ok {| key := key; rendezvous := rdv; aad := AAD_DOMAIN ++ sorted2 (outbound st) peer_message |}.

Definition rendezvous_secret (ch : PairedChannel) : bytes := rendezvous ch.

(** [seal_ticket]; the keys a channel derives are 32 bytes, so loading one does not
    fail. *)
Definition seal_ticket (ch : PairedChannel) (x : Ticket.t) (g : rng) : result (str * rng) :=
  if negb (zlen (key ch) =? 32) then Err (Error.Pairing "bad sealing key") else
  let? (nonce, g) := getrandom_fill NONCE_LEN rng_unavailable g in
  let? ciphertext := ok_or (aead_seal (key ch) nonce (aad ch) (to_bytes x))
                       (Error.Pairing "sealing the ticket failed") in
  Ok (base32_lower (nonce ++ ciphertext), g).

Definition open_ticket (ch : PairedChannel) (sealed : str) : result Ticket.t :=
  let? raw := ok_or (base32_parse (trim sealed))
                (Error.Pairing "sealed ticket is not valid base32") in
  if zlen raw <=? NONCE_LEN then Err (Error.Pairing "sealed ticket is too short") else
  let nonce := ztake NONCE_LEN raw in
  let ciphertext := zdrop NONCE_LEN raw in
  if negb (zlen (key ch) =? 32) then Err (Error.Pairing "bad sealing key") else
  let? plaintext := ok_or (aead_open (key ch) nonce (aad ch) ciphertext)
                      (Error.Pairing "could not open the sealed ticket") in
  from_bytes plaintext.
End pairing.

(** ** Text *)

(** What a person hands over: the text with the letters of [text] up to case,
    with whitespace around it. *)
Definition pasted (text s : str) : Prop :=
  exists w1 s' w2, s = w1 ++ s' ++ w2 /\
    Forall (fun b => b ∈ ascii_whitespace) w1 /\ Forall (fun b => b ∈ ascii_whitespace) w2 /\
    ascii s' /\ map ascii_lower s' = text.

(** The bytes of a typed text that count. *)
Definition keys (s : str) : str := filter (fun b => code_char [b] = true) s.

(** A code that can be spoken: what [generate] draws, and what [parse] makes of
    ASCII input. *)
Definition spoken_byte (b : byte) : bool :=
  plain_byte b && negb (in_range 65 90 b) && negb (bool_decide (b = hyphen)).
Definition spoken (c : PairingCode) : Prop :=
  secret c <> [] /\ Forall (fun b => spoken_byte b = true) (secret c).

(** [s] is [c] as someone may type it: any case, any hyphens and spaces. *)
Definition typed (c : PairingCode) (s : str) : Prop :=
  ascii s /\ map ascii_lower (keys s) = secret c.

Section text.
Context `{UnicodeCase} `{!UnicodeCaseLaws _}.

Lemma pasted_trim text s :
  plain text -> pasted text s -> exists s', trim s = s' /\ ascii s' /\ map ascii_lower s' = text.
Proof.
  intros Hp (w1 & s' & w2 & -> & Hw1 & Hw2 & Ha & Hl). exists s'. split_and!; [|done|done].
  apply trim_surrounded; [|done|done]. apply plain_of_lower; by rewrite ?Hl.
Qed.

Lemma upper_of_lower b : ascii_upper (ascii_lower b) = ascii_upper b.
Proof. all_bytes b. Qed.

Lemma spoken_byte_facts b :
  spoken_byte b = true -> is_ascii b = true /\ code_char [b] = true /\ ascii_lower b = b.
Proof. all_bytes b. Qed.

Lemma hyphen_dropped : keys [hyphen] = [].
Proof. done. Qed.

Lemma spoken_ascii l : Forall (fun b => spoken_byte b = true) l -> ascii l.
Proof. intros Hl. eapply Forall_impl; [|exact Hl]. intros b Hb. by apply spoken_byte_facts. Qed.

Lemma spoken_keys l : Forall (fun b => spoken_byte b = true) l -> keys l = l.
Proof.
  induction 1 as [|b l Hb _ IH]; [done|]. unfold keys in *. apply spoken_byte_facts in Hb as (_ & Hc & _).
  rewrite filter_cons_True by done. by rewrite IH.
Qed.

Lemma spoken_lower l : Forall (fun b => spoken_byte b = true) l -> map ascii_lower l = l.
Proof.
  induction 1 as [|b l Hb _ IH]; [done|]. simpl. apply spoken_byte_facts in Hb as (_ & _ & Hc).
  by rewrite Hc, IH.
Qed.

Lemma keys_chars s :
  ascii s ->
  concat (map to_lowercase (filter (fun c => code_char c = true) (chars s))) = map ascii_lower (keys s).
Proof.
  intros Ha. rewrite chars_ascii' by done. unfold keys. induction Ha as [|b s Hb Hs IH]; [done|].
  cbn [map]. rewrite !filter_cons. case_decide; [|done]. cbn [map concat]. rewrite IH.
  by rewrite to_lowercase_ascii by (by repeat constructor).
Qed.

Lemma parse_typed c s : spoken c -> typed c s -> parse s = Ok c.
Proof.
  intros [Hne _] [Ha Hk]. unfold parse. rewrite keys_chars by done. rewrite Hk.
  rewrite bool_decide_eq_false_2 by done. by destruct c.
Qed.

Lemma keys_app s t : keys (s ++ t) = keys s ++ keys t.
Proof. apply list.filter_app. Qed.

Lemma keys_join l : keys (join l) = concat (map keys l).
Proof.
  induction l as [|x [|y l] IH]; [done|by cbn; rewrite app_nil_r|].
  change (join (x :: y :: l)) with (x ++ [hyphen] ++ join (y :: l)).
  by rewrite !keys_app, hyphen_dropped, IH.
Qed.

Lemma ascii_join l : Forall ascii l -> ascii (join l).
Proof.
  induction 1 as [|x [|y l] Hx Hl IH]; [constructor|done|].
  change (join (x :: y :: l)) with (x ++ [hyphen] ++ join (y :: l)).
  apply ascii_app. split; [done|]. apply ascii_app. split; [by repeat constructor|done].
Qed.

Lemma concat_chunks5 l : concat (chunks5 l) = l.
Proof.
  remember (length l) as n eqn:Hn. assert (Hle : (length l <= n)%nat) by lia. clear Hn. revert l Hle.
  induction n as [|n IH]; intros l Hle; [by destruct l; [|simpl in Hle; lia]|].
  destruct l as [|a [|b [|c [|d [|e l]]]]]; try done.
  cbn [chunks5 concat app]. rewrite IH; [done|]. simpl in Hle. lia.
Qed.

Lemma map_chunks_id (f : str -> str) l :
  (forall x, Forall (fun b => spoken_byte b = true) x -> f x = x) ->
  Forall (fun b => spoken_byte b = true) (concat l) -> map f l = l.
Proof.
  intros Hf. induction l as [|x l IH]; [done|]. cbn [concat map]. intros [Hx Hl]%Forall_app.
  by rewrite Hf, IH.
Qed.

Lemma display_typed c : spoken c -> typed c (display c).
Proof.
  intros [_ Hc]. unfold display. rewrite <- (concat_chunks5 (secret c)) in Hc.
  rewrite map_chunks_id; [| |done].
  2: { intros x Hx. by apply from_utf8_lossy_ascii, spoken_ascii. }
  split.
  - apply ascii_join. apply Forall_concat in Hc. eapply Forall_impl; [|exact Hc]. intros x Hx.
    by apply spoken_ascii.
  - rewrite keys_join, map_chunks_id by (done || apply spoken_keys).
    rewrite concat_chunks5. rewrite concat_chunks5 in Hc. by apply spoken_lower.
Qed.

Context `{Base32} `{!Base32Laws _}.

Lemma base32_parse_any b s : ascii s -> map ascii_lower s = base32_lower b -> base32_parse s = Some b.
Proof.
  intros Ha Hl. rewrite <- (base32_parse_lower b), <- Hl. unfold base32_parse.
  rewrite !to_uppercase_ascii by (done || by apply ascii_lower_ascii). f_equal.
  rewrite map_map. apply map_ext. intros x. by rewrite upper_of_lower.
Qed.

Lemma base32_lower_spoken b : Forall (fun c => spoken_byte c = true) (base32_lower b).
Proof.
  rewrite base32_lower_eq. apply Forall_map. eapply Forall_impl; [|apply base32_symbols].
  intros c. all_bytes c.
Qed.

(** A drawn code is eleven letters and digits. *)
Lemma generate_spoken g :
  rng_total g -> exists c g', generate g = Ok (c, g') /\ zlen (secret c) = CODE_CHARS /\ spoken c.
Proof.
  intros Hg. unfold generate.
  destruct (getrandom_fill_total ((CODE_BITS + 7) / 8) rng_unavailable g Hg ltac:(done)) as (raw & -> & Hraw).
  cbn [obind]. change ((CODE_BITS + 7) / 8) with 7 in *.
  pose proof (base32_lower_length raw) as Hlen. rewrite Hraw in Hlen. change ((8 * 7 + 4) / 5) with 12 in Hlen.
  pose proof (base32_lower_spoken raw) as Hs. set (e := base32_lower raw) in *. clearbody e.
  rewrite str_slice_ascii by (first [by apply spoken_ascii|rewrite ?Hlen; done]).
  destruct (slice 0 CODE_CHARS e) as [c|] eqn:Hc; [|apply slice_None in Hc; rewrite Hlen in Hc; by destruct Hc].
  cbn. eexists _, _. split; [done|]. pose proof (slice_length _ _ _ _ Hc) as Hl.
  apply slice_Some in Hc as (_ & _ & ->). split; [exact Hl|]. split; [intros Hn; cbn [secret] in Hn; by rewrite Hn in Hl|].
  cbn [secret]. by apply list.Forall_take, Forall_drop.
Qed.
End text.

(** ** The transcript *)

Lemma sorted2_comm a b : sorted2 a b = sorted2 b a.
Proof.
  unfold sorted2. destruct (decide (a = b)) as [->|Hab]; [done|].
  rewrite (bytes_lt_total a b) by done. by destruct (bytes_lt b a).
Qed.

(** Messages of one length: the transcript tells which two were exchanged. *)
Lemma sorted2_inv a b c d :
  zlen a = zlen b -> zlen b = zlen c -> zlen c = zlen d -> sorted2 a b = sorted2 c d ->
  (a = c /\ b = d) \/ (a = d /\ b = c).
Proof.
  assert (Hinj : forall x y z w : bytes, zlen x = zlen z -> x ++ y = z ++ w -> x = z /\ y = w).
  { intros x y z w Hl H. apply list.app_inj_1; [unfold zlen in Hl; lia|done]. }
  intros H1 H2 H3. unfold sorted2. destruct (bytes_lt b a), (bytes_lt d c); intros H;
    apply Hinj in H as [? ?]; try lia; auto.
Qed.

Section channel.
Context `{Base32} `{UnicodeCase} `{Spake2} `{Aead} `{Sha256}.
Context `{!Base32Laws _} `{!UnicodeCaseLaws _} `{!Spake2Laws _} `{!AeadLaws _} `{!Sha256Laws _}.

Lemma derive_total k label : exists okm, derive k label = Ok okm /\ zlen okm = 32.
Proof.
  unfold derive. destruct (hkdf_expand_total None k label 32 ltac:(lia)) as (okm & -> & Hl). by exists okm.
Qed.

Lemma finish_shape st m ch :
  finish st m = Ok ch ->
  exists k, spake_finish (inner st) m = Some k /\ derive k SEAL_LABEL = Ok (key ch) /\
    derive k RENDEZVOUS_SECRET_LABEL = Ok (rendezvous ch) /\
    aad ch = AAD_DOMAIN ++ sorted2 (outbound st) m /\ zlen (key ch) = 32 /\ zlen (rendezvous ch) = 32.
Proof.
  unfold finish. intros Hf. ok_inv Hf. injection Hf as <-.
  destruct (derive_total x SEAL_LABEL) as (k1 & Hk1 & ?), (derive_total x RENDEZVOUS_SECRET_LABEL) as (k2 & Hk2 & ?).
  rewrite Hk1 in Hx0. rewrite Hk2 in Hx1. injection Hx0 as ->. injection Hx1 as ->.
  exists x. by split_and!.
Qed.

(** Two parties that started from the same code finish with the same channel. *)
Lemma finish_agree c g1 g2 st1 m1 g1' st2 m2 g2' :
  start c g1 = Ok (st1, m1, g1') -> start c g2 = Ok (st2, m2, g2') ->
  exists ch, finish st1 m2 = Ok ch /\ finish st2 m1 = Ok ch.
Proof.
  unfold start. intros Hs1 Hs2. ok_inv Hs1. ok_inv Hs2.
  simplify_eq. destruct (spake_agree _ _ _ _ _ _ _ _ _ _ Hx Hx0) as (k & Hk1 & Hk2).
  unfold finish. cbn [inner outbound]. rewrite Hk1, Hk2. cbn [ok_or obind].
  destruct (derive_total k SEAL_LABEL) as (k1 & -> & _), (derive_total k RENDEZVOUS_SECRET_LABEL) as (k2 & -> & _).
  eexists. split; [done|]. cbn [obind]. by rewrite sorted2_comm.
Qed.

Lemma decode_encode_message m s : pasted (encode_message m) s -> decode_message s = Ok m.
Proof.
  intros Hp. apply pasted_trim in Hp as (s' & Hs & Ha & Hl).
  2: { unfold encode_message. apply Forall_app. split; [by repeat constructor|apply base32_lower_plain]. }
  unfold decode_message. rewrite Hs, to_lowercase_ascii, Hl by done. unfold encode_message.
  rewrite strip_prefix_app. cbn [ok_or obind]. by rewrite base32_parse_lower.
Qed.

Lemma seal_total ch x g :
  zlen (key ch) = 32 -> ticket_wf x -> rng_total g ->
  exists text g', seal_ticket ch x g = Ok (text, g') /\ rng_total g'.
Proof.
  intros Hk Hx Hg. unfold seal_ticket. rewrite Hk. cbn [Z.eqb Pos.eqb negb].
  destruct (getrandom_fill_total NONCE_LEN rng_unavailable g Hg ltac:(done)) as (nonce & -> & _).
  cbn [obind]. pose proof (to_bytes_length x Hx).
  destruct (aead_seal_total (key ch) nonce (aad ch) (to_bytes x)) as [c Hc]; [lia|].
  rewrite Hc. eexists _, _. split; [done|by apply rng_total_skip].
Qed.

(** What a channel seals, the same channel opens. *)
Lemma open_seal ch x g text g' s :
  ticket_wf x -> seal_ticket ch x g = Ok (text, g') -> pasted text s -> open_ticket ch s = Ok x.
Proof.
  intros Hx Hseal Hp. unfold seal_ticket in Hseal. ok_inv Hseal. injection Hseal as <- _.
  apply getrandom_fill_Ok in Hx0 as [Hn _]; [|done].
  apply pasted_trim in Hp as (s' & Hs & Ha & Hl); [|apply base32_lower_plain].
  match goal with He : aead_seal _ ?n _ _ = Some ?c |- _ =>
    pose proof (aead_seal_length _ _ _ _ _ He) as Hlen; apply aead_open_seal in He;
    unfold open_ticket; rewrite Hs, (base32_parse_any (n ++ c) s') by done
  end.
  cbn [ok_or obind]. pose proof (zlen_nonneg (to_bytes x)).
  rewrite zlen_app, Hn. zdec. cbn [negb]. rewrite ztake_app_l, zdrop_app_l by done.
  match goal with He : aead_open _ _ _ _ = _ |- _ => rewrite He end.
  cbn [ok_or obind]. by apply ticket_decode_encode.
Qed.

(** And what it opens was sealed: under its key, bound to its transcript. *)
Lemma open_sealed ch s x :
  open_ticket ch s = Ok x ->
  ticket_wf x /\ exists nonce c p, base32_parse (trim s) = Some (nonce ++ c) /\ zlen nonce = NONCE_LEN /\
    aead_seal (key ch) nonce (aad ch) p = Some c /\ from_bytes p = Ok x.
Proof.
  unfold open_ticket. intros Ho. ok_inv Ho. bools. split; [by eapply ticket_from_bytes_wf|].
  eexists _, _, _. split_and!; [by rewrite ztake_zdrop| |by apply aead_open_seal|exact Ho].
  rewrite zlen_take. unfold NONCE_LEN in *. lia.
Qed.

Lemma open_no_panic ch s : open_ticket ch s <> Panic.
Proof.
  unfold open_ticket. apply obind_no_panic; [apply ok_or_no_panic|intros raw _].
  repeat case_match; try done. apply obind_no_panic; [apply ok_or_no_panic|intros p _].
  apply ticket_from_bytes_no_panic.
Qed.
End channel.

(** ** Theorems *)

Section theorems.
Context `{Base32} `{UnicodeCase} `{Spake2} `{Aead} `{Sha256}.
Context `{!Base32Laws _} `{!UnicodeCaseLaws _} `{!Spake2Laws _} `{!AeadLaws _} `{!Sha256Laws _}.

(** The whole exchange between two people who both typed the code: the messages
    of round one arrive as pasted text, both ends finish with one channel, and
    through it either end's ticket arrives at the other. *)
Lemma pairing_delivers c t1 t2 g1 g2 st1 m1 g1' st2 m2 g2' p1 p2 :
  spoken c -> typed c t1 -> typed c t2 ->
  (let? c := parse t1 in start c g1) = Ok (st1, m1, g1') ->
  (let? c := parse t2 in start c g2) = Ok (st2, m2, g2') ->
  pasted (encode_message m1) p1 -> pasted (encode_message m2) p2 ->
  exists ch,
    (let? m := decode_message p2 in finish st1 m) = Ok ch /\
    (let? m := decode_message p1 in finish st2 m) = Ok ch /\
    zlen (rendezvous_secret ch) = 32 /\
    forall x g, ticket_wf x -> rng_total g ->
      exists text g', seal_ticket ch x g = Ok (text, g') /\ rng_total g' /\
        forall s, pasted text s -> open_ticket ch s = Ok x.
Proof.
  intros Hc Ht1 Ht2 Hs1 Hs2 Hp1 Hp2. rewrite (parse_typed c) in Hs1, Hs2 by done. cbn [obind] in *.
  destruct (finish_agree _ _ _ _ _ _ _ _ _ Hs1 Hs2) as (ch & Hf1 & Hf2). exists ch.
  rewrite (decode_encode_message m1 p1), (decode_encode_message m2 p2) by done. cbn [obind].
  destruct (finish_shape _ _ _ Hf1) as (_ & _ & _ & _ & _ & Hk & Hr).
  split_and!; [done|done|done|]. intros x g Hx Hg.
  destruct (seal_total ch x g) as (text & g' & Hseal & Hg'); [done|done|done|].
  exists text, g'. split_and!; [done|done|]. intros s Hs. by eapply open_seal.
Qed.

Lemma start_outbound c g st m g' : start c g = Ok (st, m, g') -> outbound st = m /\ zlen m = spake_message_len.
Proof.
  unfold start. intros Hs. ok_inv Hs. simplify_eq. split; [done|by eapply spake_start_length].
Qed.

(** A ticket that opens was sealed for this exchange.  Whatever text is pasted
    as the peer's sealed ticket, opening it never panics; a ticket it yields is
    well formed and its bytes were sealed, with the nonce in front of the text,
    under the key this end derived and with the transcript of this exchange as
    associated data; and that transcript is shared only by the exchanges of the
    same two messages: another exchange whose transcript is equal, by whichever of
    its two ends, sent and received exactly those.  So a sealed ticket cannot be
    carried from one pairing into another, even under the same code. *)
Theorem opened_ticket_authentic c g st m g' peer ch :
  start c g = Ok (st, m, g') -> finish st peer = Ok ch ->
  (forall s, open_ticket ch s <> Panic) /\
  (forall s x, open_ticket ch s = Ok x ->
     ticket_wf x /\ exists nonce sealed p, base32_parse (trim s) = Some (nonce ++ sealed) /\
       zlen nonce = NONCE_LEN /\ aead_seal (key ch) nonce (aad ch) p = Some sealed /\ from_bytes p = Ok x) /\
  (forall c2 g2 st2 m2 g2' peer2 ch2,
     start c2 g2 = Ok (st2, m2, g2') -> finish st2 peer2 = Ok ch2 -> aad ch2 = aad ch ->
     (m2 = m /\ peer2 = peer) \/ (m2 = peer /\ peer2 = m)).
Proof.
  intros Hs Hf. split_and!; [apply open_no_panic|intros s x; apply open_sealed|].
  intros c2 g2 st2 m2 g2' peer2 ch2 Hs2 Hf2 Haad.
  apply finish_shape in Hf as (k & Hk & _ & _ & Ha & _), Hf2 as (k2 & Hk2 & _ & _ & Ha2 & _).
  apply start_outbound in Hs as [<- Hl], Hs2 as [<- Hl2]. rewrite Ha, Ha2 in Haad.
  apply app_inv_head in Haad. apply spake_finish_length in Hk, Hk2.
  apply sorted2_inv; [lia|lia|lia|done].
Qed.
End theorems.

(** ** An example

    A key exchange that only has the laws: the password is the secret, the message
    is fresh bytes, the key is a digest of both.  It stands for nothing secure. *)
Module ToySpake.
#[export] Instance spake : Spake2 := {
  spake_state := bytes * bytes;
  spake_message_len := 4;
  spake_start pw idn g :=
    m ← rng_draw 4 g; Some ((pw ++ idn, m), m, rng_skip 4 g);
  spake_finish s m :=
    if zlen m =? 4 then Some (Toy.digest 32 (Toy.framed [fst s; sorted2 (snd s) m])) else None;
}.

Lemma drawn_length g b : rng_draw 4 g = Some b -> zlen b = 4.
Proof. intros Hb. apply rng_draw_length in Hb. unfold zlen. lia. Qed.

#[export] Instance spake_laws : Spake2Laws spake.
Proof.
  split; cbn -[rng_draw].
  - intros pw idn g1 g2 s1 m1 g1' s2 m2 g2' H1 H2.
    destruct (rng_draw 4 g1) as [b1|] eqn:E1; [|done]. destruct (rng_draw 4 g2) as [b2|] eqn:E2; [|done].
    cbn in H1, H2. injection H1 as <- <- <-. injection H2 as <- <- <-. cbn -[Z.eqb].
    rewrite (drawn_length g1 b1), (drawn_length g2 b2) by done. cbn [Z.eqb Pos.eqb].
    eexists. split; [done|]. by rewrite sorted2_comm.
  - intros pw idn g s m g' Hs. destruct (rng_draw 4 g) eqn:E; [|done]. cbn in Hs. simplify_eq.
    by eapply drawn_length.
  - intros s m k. destruct (zlen m =? 4) eqn:E; [|done]. intros _. by bools.
  - intros pw idn g Hg. destruct (rng_draw_total 4 g Hg) as [b Hb]. rewrite Hb.
    eexists _, _, _. split; [done|by apply rng_total_skip].
Qed.
End ToySpake.

Import Toy ToySig ToySpake.

(** A code read aloud and typed, with other groups and case, at the other end. *)
Definition demo_code : PairingCode := {| secret := lit "k7m2p9qf4tz" |}.

Lemma demo_code_spoken : spoken demo_code /\ typed demo_code (display demo_code) /\
  typed demo_code (lit " K7M2 P9QF-4tz").
Proof.
  assert (spoken demo_code) by (split; [done|by repeat constructor]).
  split; [done|]. split; [by apply display_typed|]. split; [by repeat constructor|by vm_compute].
Qed.

Example demo_display : display demo_code = lit "k7m2p-9qf4t-z".
Proof. by vm_compute. Qed.

Definition demo_started (b : byte) : PairingState :=
  {| inner := (secret demo_code ++ PAKE_IDENTITY, zrep 4 b); outbound := zrep 4 b |}.

Lemma opened_ticket_authentic_witness :
  exists g' ch, start demo_code (rng_const Byte.x01) = Ok (demo_started Byte.x01, zrep 4 Byte.x01, g') /\
    finish (demo_started Byte.x01) (zrep 4 Byte.x02) = Ok ch /\
    forall s, open_ticket ch s <> Panic.
Proof.
  assert (Hs : start demo_code (rng_const Byte.x01)
    = Ok (demo_started Byte.x01, zrep 4 Byte.x01, rng_skip 4 (rng_const Byte.x01))) by reflexivity.
  destruct (finish (demo_started Byte.x01) (zrep 4 Byte.x02)) as [ch| |] eqn:Hf;
    [|exfalso; revert Hf; vm_compute; discriminate|exfalso; revert Hf; vm_compute; discriminate].
  exists (rng_skip 4 (rng_const Byte.x01)), ch. split; [exact Hs|]. split; [reflexivity|].
  apply (opened_ticket_authentic _ _ _ _ _ _ _ Hs Hf).
Defined.
