(* ===== verification/PqAuth.v ===== *)
(** * Post-quantum authentication of a session

    [p2p-live/src/pq_auth.rs]: once a session is up, each end that has an ML-DSA
    key signs a value that names this channel, its own end of it and both
    identities, and each end that pinned such a key demands the other's proof. *)

From Stdlib Require Import Strings.Byte.
From S2P Require Import Prelude Text Primitives LiveError StateM.
From S2P Require Import Framing Session Bundle.

Definition EXPORTER_LABEL : bytes := lit "atom-vault/live/1 pq-auth".
Definition EXPORTER_CONTEXT : bytes := lit "atom-live-pq-auth-v1".
Definition TRANSCRIPT_DOMAIN : bytes := lit "atom-live-pq-auth-transcript-v1".
Definition EXPORTER_LEN : Z := 32.

(** ** Interfaces *)

(** The rest of [trait SecureSession]: keying material exported from the
    handshake, of a given length, under a label and a context (RFC 5705). *)
Class Exporter (S : Type) := {
  export_keying_material : Z -> bytes -> bytes -> S -> result bytes;
}.

(** An ML-DSA-65 signature is 3309 bytes. *)
Definition ML_DSA_65_SIGNATURE_LEN : Z := 3309.
Class SignatureSizes (L : SignatureLib) :=
  mldsa_sign_length : forall key m s, mldsa_sign key m = Some s -> zlen s <= ML_DSA_65_SIGNATURE_LEN.

(** ** Sides and transcripts *)

Inductive Side := Initiator | Responder.

#[export] Instance Side_eq_dec : EqDecision Side.
Proof. solve_decision. Defined.

Definition side_label (s : Side) : bytes :=
  match s with Initiator => lit "initiator" | Responder => lit "responder" end.
Definition side_peer (s : Side) : Side :=
  match s with Initiator => Responder | Responder => Initiator end.

Section transcript.
Context `{Blake3}.

(** [transcript]: the incremental hash of the five parts. *)
Definition transcript (exporter : bytes) (side : Side) (signer peer : BundleId) : bytes :=
  hasher_finalize
    (hasher_update (hasher_update (hasher_update (hasher_update (hasher_update hasher_new
       TRANSCRIPT_DOMAIN) (side_label side)) signer) peer) exporter).

Context `{SignatureLib} {S : Type} `{SecureSession S} `{Exporter S}.

(** [authenticate]: the answer tells whether the peer proved itself. *)
Definition authenticate (local : LocalBundle) (peer : IdentityBundle) (side : Side) : M Error.t S bool :=
  let required := is_hybrid peer in
  if negb required && negb (is_hybrid (local_bundle local)) then mret false else
  let! exporter := with_state (export_keying_material EXPORTER_LEN EXPORTER_LABEL EXPORTER_CONTEXT) in
  let local_id := bundle_id (local_bundle local) in
  let peer_id := bundle_id peer in
  let! _ :=
    (if is_hybrid (local_bundle local) then
       let! proof := lift (sign_pq local (transcript exporter side local_id peer_id)) in
       session_send proof
     else mret tt) in
  if negb required then mret false else
  let! proof := session_recv in
  let expected := transcript exporter (side_peer side) peer_id local_id in
  let! key := lift (or_panic (pq peer)) in
  let! _ := lift (map_err (fun _ => Error.Identity "the peer could not prove possession of its key")
                    (pq_verify key expected proof)) in
  mret true.
End transcript.

(** ** What is hashed *)

(** A channel as a proof names it: exporter, side, signer, peer. *)
Definition binding : Type := bytes * Side * BundleId * BundleId.

Definition binding_wf (b : binding) : Prop :=
  let '(e, _, i, j) := b in zlen e = EXPORTER_LEN /\ zlen i = 32 /\ zlen j = 32.

Definition hashed (b : binding) : bytes :=
  let '(e, side, i, j) := b in TRANSCRIPT_DOMAIN ++ side_label side ++ i ++ j ++ e.

(** Both labels have nine bytes and the rest is of fixed width, so the parts can
    be told apart. *)
Lemma hashed_inj b1 b2 : binding_wf b1 -> binding_wf b2 -> hashed b1 = hashed b2 -> b1 = b2.
Proof.
  destruct b1 as [[[e1 s1] i1] j1], b2 as [[[e2 s2] i2] j2]. unfold hashed, binding_wf, zlen.
  intros (H1 & H2 & H3) (H4 & H5 & H6) H. apply app_inv_head in H.
  apply list.app_inj_1 in H as [Hs H]; [|by destruct s1, s2].
  apply list.app_inj_1 in H as [-> H]; [|lia]. apply list.app_inj_1 in H as [-> ->]; [|lia].
  by destruct s1, s2.
Qed.

Section hash.
Context `{Blake3} `{!Blake3Laws _}.

Definition transcript_of (b : binding) : bytes := let '(e, s, i, j) := b in transcript e s i j.

Lemma transcript_hash b : transcript_of b = blake3 (hashed b).
Proof.
  destruct b as [[[e s] i] j].
  pose proof (hasher_spec [TRANSCRIPT_DOMAIN; side_label s; i; j; e]) as Hs.
  cbn [foldl concat] in Hs. rewrite app_nil_r in Hs. exact Hs.
Qed.

Lemma bundle_id_length b : zlen (bundle_id b) = 32.
Proof.
  unfold bundle_id. pose proof (hasher_spec [BUNDLE_ID_DOMAIN; bundle_to_bytes b]) as Hs.
  cbn [foldl] in Hs. rewrite Hs. apply blake3_length.
Qed.
End hash.

(** ** A channel with its exporter *)

Record BoundChan := { chan : Chan; exported : Z -> bytes -> bytes -> result bytes }.

Definition on_chan {A} (m : M Error.t Chan A) : M Error.t BoundChan A := fun c =>
  let (r, k) := m (chan c) in (r, {| chan := k; exported := exported c |}).

#[export] Instance BoundChan_session : SecureSession BoundChan :=
  {| session_send m := on_chan (chan_send m); session_recv := on_chan chan_recv |}.
#[export] Instance BoundChan_exporter : Exporter BoundChan :=
  {| export_keying_material n label context c := exported c n label context |}.

(** ** Lemmas *)

Section proofs.
Context `{SignatureLib} `{!SignatureLibLaws _} `{!SignatureSizes _}.

Lemma hybrid_pq b : is_hybrid b = true -> exists k, pq b = Some k.
Proof. unfold is_hybrid. intros [k Hk]%bool_decide_eq_true. by exists k. Qed.

(** A hybrid identity signs, and its public half verifies. *)
Lemma sign_verifies l m :
  local_wf l -> is_hybrid (local_bundle l) = true ->
  exists k proof, pq (local_bundle l) = Some k /\ sign_pq l m = Ok proof /\
    pq_verify k m proof = Ok tt /\ zlen proof <= MAX_FRAME_LEN.
Proof.
  intros (_ & _ & Hpq) [k Hk]%hybrid_pq. cbn in Hk. rewrite Hk in Hpq.
  destruct (pq_pkcs8 l) as [key|] eqn:Hkey; [|done]. destruct Hpq as (Hpub & _ & _).
  destruct (mldsa_sign_total key _ m Hpub) as [s Hs]. exists k, s.
  unfold sign_pq, pq_verify. rewrite Hkey. cbn [obind ok_or]. rewrite Hpub. cbn [obind ok_or]. rewrite Hs.
  rewrite (mldsa_sign_verify _ _ _ _ Hpub Hs). split_and!; [done|done|done|].
  apply mldsa_sign_length in Hs. unfold ML_DSA_65_SIGNATURE_LEN, MAX_FRAME_LEN in *. lia.
Qed.

Context `{Blake3} `{!Blake3Laws _}.

(** One end, with the other's proof waiting. *)
Lemma authenticate_runs l peer side c e k proof theirs rest :
  is_hybrid (local_bundle l) = true -> pq peer = Some k ->
  exported c EXPORTER_LEN EXPORTER_LABEL EXPORTER_CONTEXT = Ok e ->
  sign_pq l (transcript e side (bundle_id (local_bundle l)) (bundle_id peer)) = Ok proof ->
  zlen proof <= MAX_FRAME_LEN -> inbox (chan c) = theirs :: rest ->
  pq_verify k (transcript e (side_peer side) (bundle_id peer) (bundle_id (local_bundle l))) theirs = Ok tt ->
  authenticate l peer side c
  = (Ok true, {| chan := {| inbox := rest; outbox := outbox (chan c) ++ [proof] |}; exported := exported c |}).
Proof.
  intros Hl Hk He Hs Hlen Hin Hv. unfold authenticate.
  assert (Hp : is_hybrid peer = true) by (apply bool_decide_eq_true; by eexists).
  rewrite Hp, Hl, Hk. cbn [negb andb]. unfold mbind at 1, with_state. cbn [export_keying_material BoundChan_exporter].
  rewrite He. unfold mbind, lift, mret. rewrite Hs. cbn [session_send session_recv BoundChan_session].
  unfold on_chan at 1, chan_send. zdec. cbn [chan exported fst snd].
  unfold on_chan, chan_recv. cbn [chan exported inbox outbox]. rewrite Hin. cbn [or_panic]. rewrite Hv. done.
Qed.

(** What a run that answers [true] has checked, and of which message. *)
Lemma authenticate_true l peer side (c c' : BoundChan) :
  authenticate l peer side c = (Ok true, c') ->
  exists k e proof, pq peer = Some k /\ proof ∈ inbox (chan c) /\
    exported c EXPORTER_LEN EXPORTER_LABEL EXPORTER_CONTEXT = Ok e /\
    mldsa_verify (as_bytes k)
      (transcript e (side_peer side) (bundle_id peer) (bundle_id (local_bundle l))) proof = true.
Proof.
  unfold authenticate. destruct (negb (is_hybrid peer) && _); [done|]. intros Ha.
  apply mbind_inv in Ha as (e & s1 & He & Ha). unfold with_state in He.
  cbn [export_keying_material BoundChan_exporter] in He.
  destruct (exported c _ _ _) as [e'| |] eqn:Hex; [|done..]. injection He as -> <-.
  apply mbind_inv in Ha as (u & s2 & Hsend & Ha). destruct (negb (is_hybrid peer)); [done|].
  apply mbind_inv in Ha as (proof & s3 & Hr & Ha). apply mbind_inv in Ha as (k & s4 & Hk & Ha).
  apply mbind_inv in Ha as (v & s5 & Hv & _). unfold lift in Hk, Hv.
  destruct (pq peer) as [k'|] eqn:Hpq; [|done]. injection Hk as -> _.
  exists k, e, proof. split_and!; [done| |done|].
  - assert (Hin : inbox (chan s2) = inbox (chan c)).
    { destruct (is_hybrid (local_bundle l)); [|by injection Hsend as _ <-].
      apply mbind_inv in Hsend as (p & s' & Hs & Hsend). unfold lift in Hs. injection Hs as _ <-.
      cbn [session_send BoundChan_session] in Hsend. unfold on_chan, chan_send in Hsend.
      destruct (MAX_FRAME_LEN <? zlen p); [done|]. by injection Hsend as _ <-. }
    cbn [session_recv BoundChan_session] in Hr. unfold on_chan, chan_recv in Hr. rewrite Hin in Hr.
    destruct (inbox (chan c)) as [|m rest]; [done|]. injection Hr as -> _. by left.
  - unfold pq_verify in Hv. by destruct (mldsa_verify _ _ _).
Qed.

Lemma authenticate_false {S} `{SecureSession S} `{Exporter S} l peer side (s s' : S) :
  authenticate l peer side s = (Ok false, s') -> is_hybrid peer = false.
Proof.
  unfold authenticate. destruct (is_hybrid peer) eqn:Hp; [|done]. cbn [negb andb]. intros Ha.
  apply mbind_inv in Ha as (e & s1 & _ & Ha). apply mbind_inv in Ha as (u & s2 & _ & Ha).
  apply mbind_inv in Ha as (proof & s3 & _ & Ha). apply mbind_inv in Ha as (k & s4 & _ & Ha).
  by apply mbind_inv in Ha as (v & s5 & _ & [=]).
Qed.

(** ** Theorem *)

(** C33: Mutual post-quantum authentication accepts exactly the right channel.
    Complete: two hybrid identities that pinned each other and hold the two ends
    of one channel (equal exporters, opposite sides) each send one proof, and each
    accepts the other's.  No downgrade: over any session, a run never succeeds
    without a verified proof when the pinned peer is hybrid.  Sound: when it
    answers that the peer proved itself, and the messages that arrived verify under
    the pinned key only as transcripts of the channels [proved] (those its holder
    authenticated: nobody else signs), then one of those is this very channel, seen
    from the other end, by that peer, with us: not another channel (a relay), not
    our own side (a reflection), not a session with someone else.  The one way out is
    named: the text hashed for this channel, and the different one of a channel its
    holder did authenticate, have the same BLAKE3 hash. *)
Theorem pq_authentication :
  (forall la lb ca cb e ra rb,
     local_wf la -> local_wf lb ->
     is_hybrid (local_bundle la) = true -> is_hybrid (local_bundle lb) = true ->
     exported ca EXPORTER_LEN EXPORTER_LABEL EXPORTER_CONTEXT = Ok e ->
     exported cb EXPORTER_LEN EXPORTER_LABEL EXPORTER_CONTEXT = Ok e ->
     exists pa pb,
       (inbox (chan ca) = pb :: ra ->
          authenticate la (local_bundle lb) Initiator ca
          = (Ok true, {| chan := {| inbox := ra; outbox := outbox (chan ca) ++ [pa] |}; exported := exported ca |})) /\
       (inbox (chan cb) = pa :: rb ->
          authenticate lb (local_bundle la) Responder cb
          = (Ok true, {| chan := {| inbox := rb; outbox := outbox (chan cb) ++ [pb] |}; exported := exported cb |}))) /\
  (forall {S} `{SecureSession S} `{Exporter S} l peer side (s s' : S) answer,
     is_hybrid peer = true -> authenticate l peer side s = (Ok answer, s') -> answer = true) /\
  (forall l peer side (c c' : BoundChan) k (proved : list binding),
     pq peer = Some k -> authenticate l peer side c = (Ok true, c') ->
     (forall m proof, proof ∈ inbox (chan c) -> mldsa_verify (as_bytes k) m proof = true ->
        exists b, b ∈ proved /\ m = transcript_of b) ->
     (forall b, b ∈ proved -> binding_wf b) ->
     exists e, exported c EXPORTER_LEN EXPORTER_LABEL EXPORTER_CONTEXT = Ok e /\
       (zlen e = EXPORTER_LEN ->
        let mine := (e, side_peer side, bundle_id peer, bundle_id (local_bundle l)) in
        mine ∈ proved \/
        exists b, b ∈ proved /\ hashed b <> hashed mine /\ blake3 (hashed b) = blake3 (hashed mine))).
Proof.
  split_and!.
  - intros la lb ca cb e ra rb Hla Hlb Hha Hhb Hea Heb.
    destruct (sign_verifies la (transcript e Initiator (bundle_id (local_bundle la)) (bundle_id (local_bundle lb))))
      as (ka & pa & Hka & Hsa & Hva & Hna); [done..|].
    destruct (sign_verifies lb (transcript e Responder (bundle_id (local_bundle lb)) (bundle_id (local_bundle la))))
      as (kb & pb & Hkb & Hsb & Hvb & Hnb); [done..|].
    exists pa, pb. split; intros Hin; eapply authenticate_runs; done.
  - intros S ? ? l peer side s s' [|] Hp Ha; [done|]. apply authenticate_false in Ha. congruence.
  - intros l peer side c c' k proved Hk Ha Hsig Hwf.
    destruct (authenticate_true _ _ _ _ _ Ha) as (k' & e & proof & Hk' & Hin & He & Hv). simplify_eq.
    exists e. split; [done|]. intros Hel. destruct (Hsig _ _ Hin Hv) as (b & Hb & Heq).
    set (mine := (e, side_peer side, bundle_id peer, bundle_id (local_bundle l)) : binding).
    assert (Hm : binding_wf mine) by (by split_and!; try apply bundle_id_length).
    destruct (decide (hashed mine = hashed b)) as [Hh|Hh].
    + left. fold mine. by rewrite (hashed_inj mine b Hm (Hwf b Hb) Hh).
    + right. exists b. split_and!; [done|by intros Hb'|].
      rewrite <- !transcript_hash. symmetry. exact Heq.
Qed.
End proofs.

(** ** An example

    A signature with message recovery, so that one signature is for one message. *)
Module RecoverySig.
Definition signed (m : bytes) : bytes := if zlen m =? 32 then m else zrep 33 Byte.x00.

#[export] Instance sig : SignatureLib := {
  ed25519_spki der := Some (Toy.digest 44 der);
  mldsa_public key := Some (zrep 1952 Byte.x05);
  mldsa_sign key m := Some (signed m);
  mldsa_verify pub m s := bool_decide (s = signed m);
}.
#[export] Instance sig_laws : SignatureLibLaws sig.
Proof.
  split; cbn.
  - intros key pub m s _ [= <-]. by apply bool_decide_eq_true.
  - by eexists.
Qed.
#[export] Instance sig_sizes : SignatureSizes sig.
Proof.
  intros key m s. cbn. intros [= <-]. unfold signed. destruct (zlen m =? 32) eqn:E; [|done].
  bools. rewrite E. done.
Qed.
End RecoverySig.

Import Toy RecoverySig.

Definition demo_local (seed : byte) : LocalBundle :=
  {| local_classical := {| public := {| as_der := Toy.digest 44 [seed] |}; pkcs8 := [seed] |};
     pq_pkcs8 := Some [seed]; pq_public := Some {| as_bytes := zrep 1952 Byte.x05 |} |}.
Definition demo_id (seed : byte) : BundleId := bundle_id (local_bundle (demo_local seed)).
Definition demo_binding : binding := (zrep 32 Byte.x09, Responder, demo_id Byte.x02, demo_id Byte.x01).
Definition demo_chan : BoundChan :=
  {| chan := {| inbox := [transcript_of demo_binding]; outbox := [] |};
     exported := fun n _ _ => Ok (zrep n Byte.x09) |}.

Lemma demo_local_wf seed : local_wf (demo_local seed).
Proof. split_and!; cbn; try done. Qed.

Lemma demo_recovered m proof :
  proof ∈ inbox (chan demo_chan) -> mldsa_verify (zrep 1952 Byte.x05) m proof = true ->
  m = transcript_of demo_binding.
Proof.
  cbn [inbox chan demo_chan]. rewrite elem_of_cons, elem_of_nil. intros [->|[]].
  cbn. intros Hv%bool_decide_eq_true. rewrite Hv. unfold signed in *.
  destruct (zlen m =? 32); [done|]. exfalso. apply (f_equal zlen) in Hv. revert Hv. vm_compute. discriminate.
Qed.

(** The holder has authenticated this channel, and one like it with the sides changed:
    what was accepted is the proof of this one. *)
Definition demo_reflection : binding := (zrep 32 Byte.x09, Initiator, demo_id Byte.x01, demo_id Byte.x02).

Lemma pq_authentication_witness :
  exists c', authenticate (demo_local Byte.x01) (local_bundle (demo_local Byte.x02)) Initiator demo_chan
             = (Ok true, c') /\
    (demo_binding ∈ [demo_reflection; demo_binding] \/
     exists b, b ∈ [demo_reflection; demo_binding] /\ hashed b <> hashed demo_binding /\
       blake3 (hashed b) = blake3 (hashed demo_binding)).
Proof.
  destruct (authenticate (demo_local Byte.x01) (local_bundle (demo_local Byte.x02)) Initiator demo_chan)
    as [r c'] eqn:Ha.
  assert (Hr : r = Ok true).
  { apply (f_equal fst) in Ha. cbn [fst] in Ha. rewrite <- Ha. vm_compute. reflexivity. }
  subst r. exists c'. split; [reflexivity|].
  destruct pq_authentication as (_ & _ & Hsound).
  destruct (Hsound (demo_local Byte.x01) (local_bundle (demo_local Byte.x02)) Initiator demo_chan c' {| as_bytes := zrep 1952 Byte.x05 |}
    [demo_reflection; demo_binding] eq_refl Ha) as (e & He & Hc).
  - intros m proof Hin Hv. exists demo_binding. split; [by right; left|]. by eapply demo_recovered.
  - intros b. rewrite !elem_of_cons, elem_of_nil. intros [->|[->|[]]]; by split_and!.
  - injection He as <-. exact (Hc eq_refl).
Defined.
