(* ===== verification/Stun.v ===== *)
(** * External-address discovery

    [p2p-live/src/stun.rs]: one STUN binding request, and a parser of whatever
    comes back that is safe on hostile input. *)

From Stdlib Require Import Strings.Byte.
From S2P Require Import Prelude LiveError Net.

Definition BINDING_REQUEST : Z := 0x0001.
Definition BINDING_SUCCESS : Z := 0x0101.
Definition MAGIC_COOKIE : Z := 0x2112A442.
Definition ATTR_XOR_MAPPED_ADDRESS : Z := 0x0020.
Definition ATTR_MAPPED_ADDRESS : Z := 0x0001.
Definition HEADER_LEN : Z := 20.
Definition TXID_LEN : Z := 12.

Record Request := { request_bytes : bytes; txid : bytes }.

(** [build_request]. *)
Definition build_request (g : rng) : result (Request * rng) :=
  let? (t, g) := getrandom_fill TXID_LEN (Error.Connect "OS random number generator unavailable") g in
  Ok ({| request_bytes := be_bytes 2 BINDING_REQUEST ++ be_bytes 2 0 ++ be_bytes 4 MAGIC_COOKIE ++ t;
         txid := t |}, g).

(** ** Addresses *)

Definition xor_byte (a b : byte) : byte := z2b (Z.lxor (b2z a) (b2z b)).

(** [for (o, k) in out.iter_mut().zip(key.iter())]. *)
Fixpoint xor_with (out key : bytes) : bytes :=
  match out, key with
  | o :: out, k :: key => xor_byte o k :: xor_with out key
  | _, _ => out
  end.

Definition xor_key (t : bytes) : bytes := be_bytes 4 MAGIC_COOKIE ++ t.

(** [decode_address]. *)
Definition decode_address (value t : bytes) (xored : bool) : result SocketAddr :=
  if zlen value <? 4 then Err (Error.Connect "STUN address attribute is too short") else
  let? family := or_panic (value !! 1%nat) in
  let? p := or_panic (slice 2 4 value) in
  let raw_port := be_val p in
  let port := if xored then Z.lxor raw_port (MAGIC_COOKIE / 2 ^ 16) else raw_port in
  let key := xor_key t in
  let unmask (b : bytes) := if xored then xor_with b key else b in
  let? ip :=
    (if b2z family =? 1 then
       let? b := ok_or (slice 4 8 value) (Error.Connect "truncated IPv4 STUN address") in Ok (V4 (unmask b))
     else if b2z family =? 2 then
       let? b := ok_or (slice 4 20 value) (Error.Connect "truncated IPv6 STUN address") in Ok (V6 (unmask b))
     else Err (Error.Connect "STUN response has unknown address family")) in
  Ok (SocketAddr_new ip port).

(** ** Responses *)

Definition no_address : Error.t := Error.Connect "STUN response carried no mapped address".

(** [next_multiple_of(4)]. *)
Definition padded4 (n : Z) : Z := (n + 3) / 4 * 4.

(** One turn of the [while] loop of [parse_response]: it returns, or goes on from a
    position with what it found so far. *)
Definition attr_turn (body t : bytes) (pos : Z) (fallback : option (result SocketAddr))
    : result SocketAddr + Z * option (result SocketAddr) :=
  if pos + 4 <=? zlen body then
    match slice pos (pos + 2) body, slice (pos + 2) (pos + 4) body with
    | Some ty, Some ln =>
        let attr_len := be_val ln in
        let start := pos + 4 in
        if zlen body <? start + attr_len
        then inl (Err (Error.Connect "STUN attribute runs past the message")) else
        match slice start (start + attr_len) body with
        | Some value =>
            if be_val ty =? ATTR_XOR_MAPPED_ADDRESS then inl (decode_address value t true) else
            inr (start + padded4 attr_len,
                 if (be_val ty =? ATTR_MAPPED_ADDRESS) && negb (bool_decide (is_Some fallback))
                 then Some (decode_address value t false) else fallback)
        | None => inl Panic
        end
    | _, _ => inl Panic
    end
  else inl (default (Err no_address) fallback).

(** The loop; running out of [fuel] is a panic. *)
Fixpoint attr_loop (fuel : nat) (body t : bytes) (pos : Z) (fallback : option (result SocketAddr))
    : result SocketAddr :=
  match fuel with
  | O => Panic
  | S fuel =>
      match attr_turn body t pos fallback with
      | inl r => r
      | inr (pos, fallback) => attr_loop fuel body t pos fallback
      end
  end.

(** [parse_response]; a message of [n] bytes has at most [n / 4] attributes. *)
Definition parse_response (msg t : bytes) : result SocketAddr :=
  if zlen msg <? HEADER_LEN then Err (Error.Connect "STUN response is too short") else
  let? ty := or_panic (slice 0 2 msg) in
  if negb (be_val ty =? BINDING_SUCCESS) then Err (Error.Connect "STUN message type") else
  let? cookie := or_panic (slice 4 8 msg) in
  if negb (be_val cookie =? MAGIC_COOKIE) then Err (Error.Connect "STUN response has a bad magic cookie") else
  let? id := or_panic (slice 8 20 msg) in
  if decide (id <> t) then Err (Error.Connect "STUN response transaction ID does not match") else
  let? ln := or_panic (slice 2 4 msg) in
  let declared := be_val ln in
  let? body := ok_or (slice HEADER_LEN (HEADER_LEN + declared) msg)
                 (Error.Connect "STUN response is shorter than it claims") in
  attr_loop (S (length body / 4)) body t 0 None.

(** ** The exchange

    The network is what it will deliver to the socket: datagrams and receive
    errors, each with the time it takes to arrive after the one before, in
    nanoseconds. *)
Inductive arrival :=
| Datagram (from : SocketAddr) (payload : bytes)
| ReceiveFails.
Record Wire := { instant : Z; arrivals : list (Z * arrival) }.

(** [timeout(remaining, recv_from)]: [None] is a timeout. *)
Definition recv_within (remaining : Z) (w : Wire) : option arrival * Wire :=
  match arrivals w with
  | (d, a) :: rest =>
      if d <? remaining then (Some a, {| instant := instant w + d; arrivals := rest |})
      else (None, {| instant := instant w + remaining; arrivals := (d - remaining, a) :: rest |})
  | [] => (None, {| instant := instant w + remaining; arrivals := [] |})
  end.

Definition no_reply : Error.t := Error.Connect "STUN server did not reply".

(** The receive loop of [discover]; the buffer holds 1024 bytes, and a longer
    datagram is cut. *)
Fixpoint discover_loop (fuel : nat) (server : SocketAddr) (t : bytes) (deadline : Z) (w : Wire)
    : result SocketAddr * Wire :=
  match fuel with
  | O => (Panic, w)
  | S fuel =>
      let remaining := Z.max 0 (deadline - instant w) in
      if remaining =? 0 then (Err no_reply, w) else
      match recv_within remaining w with
      | (None, w) => (Err no_reply, w)
      | (Some ReceiveFails, w) => (Err (Error.Connect "STUN receive failed"), w)
      | (Some (Datagram from payload), w) =>
          if decide (from <> server) then discover_loop fuel server t deadline w else
          match parse_response (ztake 1024 payload) t with
          | Ok addr => (Ok addr, w)
          | Err e => if instant w <? deadline then discover_loop fuel server t deadline w else (Err e, w)
          | Panic => (Panic, w)
          end
      end
  end.

(** [discover]; [sent] is whether the socket took the request. *)
Definition discover (sent : bool) (server : SocketAddr) (timeout : Z) (g : rng) (w : Wire)
    : result (SocketAddr * Request) * Wire :=
  match build_request g with
  | Ok (request, _) =>
      if sent then
        let (r, w) := discover_loop (S (length (arrivals w))) server (txid request) (instant w + timeout) w in
        (let? addr := r in Ok (addr, request), w)
      else (Err (Error.Connect "sending STUN request"), w)
  | Err e => (Err e, w)
  | Panic => (Panic, w)
  end.

(** ** Lemmas: addresses *)

Lemma lxor_range n a b : 0 <= n -> 0 <= a < 2 ^ n -> 0 <= b < 2 ^ n -> 0 <= Z.lxor a b < 2 ^ n.
Proof.
  intros Hn Ha Hb. assert (H0 : 0 <= Z.lxor a b) by (apply Z.lxor_nonneg; lia). split; [done|].
  destruct (Z.eq_dec (Z.lxor a b) 0) as [->|Hx]; [by apply Z.pow_pos_nonneg|].
  rewrite <- (Z.mod_small a (2 ^ n)) by done. rewrite <- (Z.mod_small b (2 ^ n)) by done.
  rewrite <- !Z.land_ones by done.
  replace (Z.lxor (Z.land a (Z.ones n)) (Z.land b (Z.ones n))) with (Z.land (Z.lxor a b) (Z.ones n)).
  - rewrite Z.land_ones by done. by apply Z.mod_pos_bound, Z.pow_pos_nonneg.
  - apply Z.bits_inj'. intros i Hi. rewrite !Z.lxor_spec, !Z.land_spec, Z.lxor_spec.
    by destruct (Z.testbit a i), (Z.testbit b i), (Z.testbit (Z.ones n) i).
Qed.

Lemma lxor_u16 a b : is_u16 a -> is_u16 b -> is_u16 (Z.lxor a b).
Proof. by apply lxor_range. Qed.

Lemma xor_byte_involutive a k : xor_byte (xor_byte a k) k = a.
Proof.
  apply b2z_inj. unfold xor_byte. pose proof (b2z_range a). pose proof (b2z_range k).
  pose proof (lxor_range 8 (b2z a) (b2z k) ltac:(lia) ltac:(lia) ltac:(lia)).
  rewrite !b2z_z2b. rewrite (Z.mod_small (Z.lxor (b2z a) (b2z k))) by lia.
  rewrite Z.lxor_assoc, Z.lxor_nilpotent, Z.lxor_0_r. by apply Z.mod_small.
Qed.

Lemma xor_with_length b k : zlen (xor_with b k) = zlen b.
Proof.
  unfold zlen. f_equal. revert k. induction b as [|x b IH]; intros [|y k]; [done..|]. cbn. by rewrite IH.
Qed.

Lemma xor_with_involutive b k : zlen b <= zlen k -> xor_with (xor_with b k) k = b.
Proof.
  revert k. induction b as [|x b IH]; intros [|y k]; [done|done|done|]. rewrite !zlen_cons. intros Hl.
  cbn [xor_with]. by rewrite xor_byte_involutive, IH by lia.
Qed.

(** A slice in range. *)
Lemma slice_in {A} a b (l : list A) : 0 <= a <= b -> b <= zlen l -> exists x, slice a b l = Some x /\ zlen x = b - a.
Proof.
  intros Hab Hb. destruct (slice a b l) as [x|] eqn:Hs; [|apply slice_None in Hs; lia].
  exists x. split; [done|]. by eapply slice_length.
Qed.

Lemma decode_address_facts v t x :
  decode_address v t x <> Panic /\
  forall a, decode_address v t x = Ok a -> zlen t = TXID_LEN -> socket_wf a /\ plain_socket a.
Proof.
  unfold decode_address. destruct (zlen v <? 4) eqn:Hl; [done|]. bools.
  assert (Hf : exists f, v !! 1%nat = Some f).
  { apply lookup_lt_is_Some. unfold zlen in Hl. lia. }
  destruct Hf as [f ->]. destruct (slice_in 2 4 v) as (p & -> & Hp); [lia..|]. cbn [or_panic obind].
  pose proof (be_val_range p) as Hr. rewrite Hp in Hr.
  assert (Hport : is_u16 (if x then Z.lxor (be_val p) (MAGIC_COOKIE / 2 ^ 16) else be_val p)).
  { destruct x; [apply lxor_u16|]; done. }
  split.
  - apply obind_no_panic; [|done]. destruct (b2z f =? 1); [destruct (slice 4 8 v); done|].
    destruct (b2z f =? 2); [destruct (slice 4 20 v); done|done].
  - intros a Ha Ht. apply obind_Ok in Ha as (i & Hi & Ha). injection Ha as <-.
    split; [|apply socket_new_plain]. apply socket_new_wf; [|done].
    destruct (b2z f =? 1); [|destruct (b2z f =? 2); [|done]].
    all: apply obind_Ok in Hi as (b & Hb & Hi); injection Hi as <-; apply ok_or_Ok, slice_length in Hb.
    all: cbn; destruct x; rewrite ?xor_with_length; lia.
Qed.

(** ** Lemmas: the attribute loop *)

Lemma padded4_bounds n : 0 <= n -> n <= padded4 n < n + 4.
Proof. unfold padded4. intros Hn. pose proof (Z.div_mod (n + 3) 4). pose proof (Z.mod_pos_bound (n + 3) 4). lia. Qed.

(** A turn reads what is there: it does not panic, and the loop moves on by at
    least the four bytes of an attribute's header. *)
Lemma attr_turn_facts body t pos fb :
  0 <= pos -> (forall r, fb = Some r -> r <> Panic) ->
  match attr_turn body t pos fb with
  | inl r => r <> Panic
  | inr (pos', fb') => pos + 4 <= pos' /\ pos + 4 <= zlen body /\ forall r, fb' = Some r -> r <> Panic
  end.
Proof.
  intros Hpos Hfb. unfold attr_turn. destruct (pos + 4 <=? zlen body) eqn:Hc; bools.
  2: { destruct fb as [r|]; cbn; [by apply Hfb|done]. }
  destruct (slice_in pos (pos + 2) body) as (ty & -> & _); [lia..|].
  destruct (slice_in (pos + 2) (pos + 4) body) as (ln & -> & Hl); [lia..|].
  pose proof (be_val_range ln) as Hr. rewrite Hl in Hr.
  destruct (zlen body <? _) eqn:Hend; [done|]. bools.
  destruct (slice_in (pos + 4) (pos + 4 + be_val ln) body) as (v & -> & _); [lia..|].
  destruct (be_val ty =? ATTR_XOR_MAPPED_ADDRESS); [apply decode_address_facts|].
  pose proof (padded4_bounds (be_val ln)). split_and!; [lia|lia|].
  intros r. destruct (_ && _); [intros [= <-]; apply decode_address_facts|apply Hfb].
Qed.

(** The loop ends: [n / 4 + 1] turns are enough for [n] bytes, and more change
    nothing. *)
Lemma attr_loop_ends fuel body t pos fb :
  0 <= pos -> zlen body - pos < 4 * Z.of_nat fuel -> (0 < fuel)%nat ->
  (forall r, fb = Some r -> r <> Panic) ->
  attr_loop fuel body t pos fb <> Panic /\
  forall more, attr_loop (fuel + more) body t pos fb = attr_loop fuel body t pos fb.
Proof.
  revert pos fb. induction fuel as [|fuel IH]; intros pos fb Hpos Hf Hpf Hfb; [lia|].
  cbn [attr_loop Nat.add]. pose proof (attr_turn_facts body t pos fb Hpos Hfb) as Ht.
  destruct (attr_turn body t pos fb) as [r|[p fb']]; [by split|].
  destruct Ht as (? & ? & ?). apply IH; [lia|lia|lia|done].
Qed.

Lemma parse_response_no_panic msg t : parse_response msg t <> Panic.
Proof.
  unfold parse_response. destruct (zlen msg <? HEADER_LEN) eqn:Hl; [done|]. bools. unfold HEADER_LEN in *.
  destruct (slice_in 0 2 msg) as (ty & -> & _); [lia..|]. destruct (slice_in 4 8 msg) as (ck & -> & _); [lia..|].
  destruct (slice_in 8 20 msg) as (id & -> & _); [lia..|]. destruct (slice_in 2 4 msg) as (ln & -> & _); [lia..|].
  cbn [or_panic obind]. repeat case_match; try done.
  apply obind_no_panic; [apply ok_or_no_panic|intros body _].
  apply attr_loop_ends; [done| |lia|done]. unfold zlen.
  pose proof (Nat.div_mod_eq (length body) 4). pose proof (Nat.mod_upper_bound (length body) 4). lia.
Qed.

(** An accepted response is a success response to this transaction. *)
Lemma parse_response_Ok msg t a :
  parse_response msg t = Ok a ->
  slice 8 20 msg = Some t /\ (exists ty ck, slice 0 2 msg = Some ty /\ be_val ty = BINDING_SUCCESS /\
    slice 4 8 msg = Some ck /\ be_val ck = MAGIC_COOKIE).
Proof.
  unfold parse_response. intros Hp. ok_inv Hp. bools.
  simplify_eq.
  split; [done|]. by eexists _, _.
Qed.

(** *** The answer a server gives (RFC 5389), as the specification *)

Definition family_byte (i : IpAddr) : byte := match i with V4 _ => Byte.x01 | V6 _ => Byte.x02 end.
Definition octets (i : IpAddr) : bytes := match i with V4 o => o | V6 o => o end.

Definition xor_mapped (a : SocketAddr) (t : bytes) : bytes :=
  [Byte.x00; family_byte (ip a)] ++ be_bytes 2 (Z.lxor (port a) (MAGIC_COOKIE / 2 ^ 16))
  ++ xor_with (octets (ip a)) (xor_key t).

Definition attribute (x : Z * bytes) : bytes :=
  be_bytes 2 (fst x) ++ be_bytes 2 (zlen (snd x)) ++ snd x ++ zrep (padded4 (zlen (snd x)) - zlen (snd x)) Byte.x00.

Definition response (t : bytes) (attrs : bytes) : bytes :=
  be_bytes 2 BINDING_SUCCESS ++ be_bytes 2 (zlen attrs) ++ be_bytes 4 MAGIC_COOKIE ++ t ++ attrs.

Lemma decode_xor_mapped a t :
  socket_wf a -> plain_socket a -> zlen t = TXID_LEN -> decode_address (xor_mapped a t) t true = Ok a.
Proof.
  intros [Hi Hp] Hpl Ht. unfold decode_address.
  set (o := octets (ip a)). assert (Ho : zlen o = match ip a with V4 _ => 4 | V6 _ => 16 end).
  { unfold o. by destruct (ip a). }
  set (pb := be_bytes 2 (Z.lxor (port a) (MAGIC_COOKIE / 2 ^ 16))). assert (Hpb : zlen pb = 2) by by apply zlen_be_bytes.
  assert (Hx : xor_mapped a t = [Byte.x00; family_byte (ip a)] ++ pb ++ xor_with o (xor_key t)) by done.
  assert (Hlen : zlen (xor_mapped a t) = 4 + zlen o).
  { rewrite Hx, !zlen_app, xor_with_length, Hpb. change (zlen [_; _]) with 2. lia. }
  assert (0 <= zlen o) by apply zlen_nonneg. rewrite Hlen. zdec.
  assert (Hf : xor_mapped a t !! 1%nat = Some (family_byte (ip a))) by done. rewrite Hf. cbn [or_panic obind].
  assert (Hsp : slice 2 4 (xor_mapped a t) = Some pb).
  { rewrite Hx. by apply slice_app_mid; rewrite ?Hpb. }
  assert (Hso : slice 4 (4 + zlen o) (xor_mapped a t) = Some (xor_with o (xor_key t))).
  { rewrite Hx, app_assoc. rewrite <- (app_nil_r (xor_with o (xor_key t))) at 1.
    apply slice_app_mid; rewrite ?zlen_app, ?xor_with_length, ?Hpb; done. }
  rewrite Hsp. cbn [or_panic obind].
  assert (Hport : Z.lxor (be_val pb) (MAGIC_COOKIE / 2 ^ 16) = port a).
  { unfold pb. rewrite be_val_small; [by rewrite Z.lxor_assoc, Z.lxor_nilpotent, Z.lxor_0_r|].
    pose proof (lxor_u16 (port a) (MAGIC_COOKIE / 2 ^ 16) Hp ltac:(done)). done. }
  assert (Hk : zlen o <= zlen (xor_key t)).
  { unfold xor_key. rewrite zlen_app, zlen_be_bytes, Ht. change TXID_LEN with 12. destruct (ip a); lia. }
  rewrite Hport. unfold o in *. destruct (ip a) as [o4|o6] eqn:Hip; cbn [octets family_byte] in *; rewrite Ho in Hso.
  - change (4 + 4) with 8 in Hso. change (b2z Byte.x01 =? 1) with true. cbv iota.
    rewrite Hso. cbn [ok_or obind]. rewrite xor_with_involutive by done.
    rewrite <- Hip. by rewrite socket_new_eta.
  - change (4 + 16) with 20 in Hso. change (b2z Byte.x02 =? 1) with false.
    change (b2z Byte.x02 =? 2) with true. cbv iota.
    rewrite Hso. cbn [ok_or obind]. rewrite xor_with_involutive by done.
    rewrite <- Hip. by rewrite socket_new_eta.
Qed.

Lemma attribute_length x : zlen (attribute x) = 4 + padded4 (zlen (snd x)).
Proof.
  unfold attribute. pose proof (padded4_bounds (zlen (snd x)) (zlen_nonneg _)). zl.
Qed.

(** One attribute ahead of the loop. *)
Lemma attr_turn_at pre x post t fb :
  zlen (snd x) < 2 ^ 16 -> is_u16 (fst x) ->
  attr_turn (pre ++ attribute x ++ post) t (zlen pre) fb =
  if fst x =? ATTR_XOR_MAPPED_ADDRESS then inl (decode_address (snd x) t true) else
  inr (zlen (pre ++ attribute x),
       if (fst x =? ATTR_MAPPED_ADDRESS) && negb (bool_decide (is_Some fb))
       then Some (decode_address (snd x) t false) else fb).
Proof.
  intros Hx Hty. destruct x as [ty v]. cbn [fst snd] in *.
  pose proof (padded4_bounds (zlen v) (zlen_nonneg _)). pose proof (zlen_nonneg v). pose proof (zlen_nonneg post).
  unfold attr_turn. rewrite !zlen_app, attribute_length. cbn [snd]. zdec.
  unfold attribute. cbn [fst snd]. set (pad := zrep _ _).
  rewrite <- !app_assoc.
  rewrite (slice_app_mid (zlen pre) (zlen pre + 2) pre) by (by rewrite ?zlen_be_bytes).
  rewrite (app_assoc pre (be_bytes 2 ty)).
  assert (H2 : zlen (pre ++ be_bytes 2 ty) = zlen pre + 2) by (by rewrite zlen_app, zlen_be_bytes).
  rewrite (slice_app_mid (zlen pre + 2) (zlen pre + 4) (pre ++ be_bytes 2 ty)) by (rewrite ?H2, ?zlen_be_bytes; lia).
  rewrite !be_val_small by (unfold is_u16 in *; lia). zdec.
  rewrite (app_assoc (pre ++ be_bytes 2 ty)).
  assert (H4 : zlen ((pre ++ be_bytes 2 ty) ++ be_bytes 2 (zlen v)) = zlen pre + 4) by (rewrite zlen_app, H2, zlen_be_bytes; lia).
  rewrite (slice_app_mid (zlen pre + 4) (zlen pre + 4 + zlen v)) by (rewrite ?H4; done).
  by replace (zlen pre + 4 + padded4 (zlen v)) with (zlen pre + (4 + padded4 (zlen v))) by lia.
Qed.

Lemma attr_loop_more n more body t pos fb r :
  attr_loop n body t pos fb = r -> r <> Panic -> attr_loop (n + more) body t pos fb = r.
Proof.
  revert pos fb. induction n as [|n IH]; intros pos fb; cbn [attr_loop Nat.add]; [by intros <-|].
  destruct (attr_turn body t pos fb) as [?|[p fb']]; [done|apply IH].
Qed.

Definition other_attribute (x : Z * bytes) : Prop :=
  zlen (snd x) < 2 ^ 16 /\ is_u16 (fst x) /\ fst x <> ATTR_XOR_MAPPED_ADDRESS.

Definition attributes (l : list (Z * bytes)) : bytes := concat (map attribute l).

(** The loop passes the attributes before the address and stops at it. *)
Lemma attr_loop_finds l pre a t post fb :
  Forall other_attribute l -> socket_wf a -> plain_socket a -> zlen t = TXID_LEN ->
  attr_loop (S (length l)) (pre ++ attributes l ++ attribute (ATTR_XOR_MAPPED_ADDRESS, xor_mapped a t) ++ post)
    t (zlen pre) fb = Ok a.
Proof.
  intros Hl Ha Hp Ht. revert pre fb. induction Hl as [|x l (Hx1 & Hx2 & Hx3) _ IH]; intros pre fb.
  - cbn [attributes map concat app length attr_loop]. rewrite attr_turn_at; cbn [fst snd].
    + by rewrite decode_xor_mapped.
    + unfold xor_mapped. rewrite !zlen_app, xor_with_length, zlen_be_bytes.
      change (zlen [_; _]) with 2. destruct Ha as [Ha _]. unfold ip_wf in Ha. destruct (ip a); cbn in *; lia.
    + done.
  - cbn [length attr_loop]. unfold attributes. cbn [map concat]. rewrite <- (app_assoc (attribute x)).
    rewrite attr_turn_at by done. replace (fst x =? _) with false by (symmetry; by apply Z.eqb_neq).
    rewrite (app_assoc pre). apply IH.
Qed.

(** The fields of a header of fixed-width parts. *)
Lemma slice_skip {A} n a b (l k : list A) :
  zlen l = n -> n <= a -> slice a b (l ++ k) = slice (a - n) (b - n) k.
Proof. intros <- Hn. by apply slice_app_ge. Qed.

Lemma header_fields {A} (ty ln ck t attrs : list A) :
  zlen ty = 2 -> zlen ln = 2 -> zlen ck = 4 -> zlen t = 12 ->
  let m := ty ++ ln ++ ck ++ t ++ attrs in
  slice 0 2 m = Some ty /\ slice 2 4 m = Some ln /\ slice 4 8 m = Some ck /\ slice 8 20 m = Some t /\
  slice 20 (20 + zlen attrs) m = Some attrs /\ zlen m = 20 + zlen attrs.
Proof.
  intros H1 H2 H3 H4 m. unfold m. split_and!; rewrite ?(slice_skip 2 _ _ ty) by (done || lia);
    rewrite ?(slice_skip 2 _ _ ln) by (done || lia); rewrite ?(slice_skip 4 _ _ ck) by (done || lia);
    rewrite ?(slice_skip 12 _ _ t) by (done || lia); [by apply slice_prefix..| |zl].
  replace (20 + zlen attrs - 2 - 2 - 4 - 12) with (zlen attrs) by lia. apply slice_all.
Qed.

Lemma parse_answer l a t post :
  Forall other_attribute l -> socket_wf a -> plain_socket a -> zlen t = TXID_LEN ->
  let attrs := attributes l ++ attribute (ATTR_XOR_MAPPED_ADDRESS, xor_mapped a t) ++ post in
  zlen attrs < 2 ^ 16 -> parse_response (response t attrs) t = Ok a.
Proof.
  intros Hl Ha Hp Ht attrs Hn.
  pose proof (attr_loop_finds l [] a t post None Hl Ha Hp Ht) as Hf. cbn [app] in Hf. fold attrs in Hf.
  clearbody attrs. pose proof (zlen_nonneg attrs).
  destruct (header_fields (be_bytes 2 BINDING_SUCCESS) (be_bytes 2 (zlen attrs)) (be_bytes 4 MAGIC_COOKIE) t attrs)
    as (H1 & H2 & H3 & H4 & H5 & H6); [by rewrite ?zlen_be_bytes..|done|].
  unfold parse_response, response, HEADER_LEN. rewrite H6, H1, H2, H3, H4. zdec. cbn [or_panic obind].
  change (be_val (be_bytes 2 BINDING_SUCCESS) =? BINDING_SUCCESS) with true.
  change (be_val (be_bytes 4 MAGIC_COOKIE) =? MAGIC_COOKIE) with true. cbn [negb].
  rewrite decide_False by (intros Hne; by apply Hne).
  rewrite be_val_small by (cbn; lia). rewrite H5. cbn [ok_or obind].
  assert (Hfuel : zlen attrs - 0 < 4 * Z.of_nat (S (length attrs / 4))).
  { unfold zlen. pose proof (Nat.div_mod_eq (length attrs) 4). pose proof (Nat.mod_upper_bound (length attrs) 4). lia. }
  destruct (attr_loop_ends _ attrs t 0 None ltac:(done) Hfuel ltac:(lia) ltac:(done)) as [_ Hmore].
  rewrite <- (Hmore (S (length l))), Nat.add_comm. by apply attr_loop_more.
Qed.

(** ** Lemmas: the receive loop *)

Definition delays (w : Wire) : Prop := Forall (fun x => 0 <= fst x) (arrivals w).

Lemma build_request_total g :
  rng_total g -> exists q g', build_request g = Ok (q, g') /\ zlen (txid q) = TXID_LEN.
Proof.
  intros Hg. unfold build_request.
  destruct (getrandom_fill_total TXID_LEN (Error.Connect "OS random number generator unavailable") g Hg ltac:(done))
    as (t & -> & Ht). by eexists _, _.
Qed.

(** Every turn takes a datagram off the wire, or is the last. *)
Lemma discover_loop_spec fuel server t deadline w :
  (length (arrivals w) < fuel)%nat -> delays w -> zlen t = TXID_LEN -> instant w <= deadline ->
  let (r, w') := discover_loop fuel server t deadline w in
  r <> Panic /\ instant w <= instant w' <= deadline /\
  forall a, r = Ok a -> exists d p, (d, Datagram server p) ∈ arrivals w /\
    parse_response (ztake 1024 p) t = Ok a.
Proof.
  revert w. induction fuel as [|fuel IH]; intros w Hf Hd Ht Hdl; [lia|]. cbn [discover_loop].
  destruct (Z.max 0 (deadline - instant w) =? 0) eqn:Hz; bools; [by split_and!; try lia|].
  unfold recv_within. destruct w as [now l]. unfold delays in *. cbn [arrivals instant] in *.
  destruct Hd as [|[d x] l Hx Hl]; [by split_and!; cbn [instant]; try lia|]. cbn [fst] in Hx.
  destruct (d <? _) eqn:Hc; bools; [|by split_and!; cbn [instant]; try lia].
  assert (IH' := IH {| instant := now + d; arrivals := l |} ltac:(cbn in *; lia) Hl Ht ltac:(cbn; lia)).
  assert (Hnext : let (r, w') := discover_loop fuel server t deadline {| instant := now + d; arrivals := l |} in
    r <> Panic /\ now <= instant w' <= deadline /\
    forall a, r = Ok a -> exists d' p, (d', Datagram server p) ∈ (d, x) :: l /\ parse_response (ztake 1024 p) t = Ok a).
  { destruct (discover_loop _ _ _ _ _) as [r w']. cbn [instant arrivals] in IH'. destruct IH' as (? & ? & Hs).
    split_and!; [done|lia|lia|]. intros a Ha. destruct (Hs a Ha) as (d' & p & ? & ?). exists d', p. split; [by right|done]. }
  destruct x as [from p|]; [|by split_and!; cbn [instant]; try lia].
  case_decide as Hfrom; [exact Hnext|]. subst from.
  destruct (parse_response (ztake 1024 p) t) as [a|e|] eqn:Hp.
  - split_and!; cbn [instant]; try lia; [done|]. intros ? [= <-]. exists d, p. split; [by left|done].
  - destruct (_ <? deadline); [exact Hnext|]. by split_and!; cbn [instant]; try lia.
  - by apply parse_response_no_panic in Hp.
Qed.

(** What the loop passes over: datagrams from elsewhere, and forged or stale ones. *)
Definition ignored (server : SocketAddr) (t : bytes) (x : Z * arrival) : Prop :=
  0 <= fst x /\
  match snd x with
  | Datagram from p => from <> server \/ forall a, parse_response (ztake 1024 p) t <> Ok a
  | ReceiveFails => False
  end.

Definition total_delay (l : list (Z * arrival)) : Z := foldr (fun x acc => fst x + acc) 0 l.

Lemma discover_loop_finds junk fuel server t deadline now d p rest a :
  Forall (ignored server t) junk -> 0 <= d -> parse_response (ztake 1024 p) t = Ok a ->
  now + total_delay junk + d < deadline -> (length junk < fuel)%nat ->
  exists w', discover_loop fuel server t deadline
    {| instant := now; arrivals := junk ++ (d, Datagram server p) :: rest |} = (Ok a, w').
Proof.
  intros Hj Hd Hp. revert now fuel. induction Hj as [|[e x] junk [He Hx] Hj IH]; intros now [|fuel] Hn Hf;
    cbn [length] in Hf; try lia; cbn [discover_loop total_delay foldr fst] in *.
  - cbn [app instant]. zdec. unfold recv_within. cbn [arrivals]. zdec. rewrite decide_False by (intros Hne; by apply Hne).
    rewrite Hp. by eexists.
  - fold (total_delay junk) in Hn.
    assert (0 <= total_delay junk).
    { clear -Hj. induction Hj as [|x l [Hx _] _ IH]; [done|]. cbn. fold (total_delay l). lia. }
    cbn [app instant]. zdec. unfold recv_within. cbn [arrivals instant fst]. zdec.
    destruct (IH (now + e) fuel) as [w' Hw']; [lia|lia|].
    destruct x as [from q|]; [|done]. cbn [snd] in Hx. case_decide as Hfrom; [by exists w'|].
    destruct Hx as [Hx|Hx]; [done|].
    destruct (parse_response (ztake 1024 q) t) as [b|err|] eqn:Hq.
    + by exfalso; apply (Hx b).
    + cbn [instant]. zdec. by exists w'.
    + by apply parse_response_no_panic in Hq.
Qed.

(** C38: Address discovery ends, and answers with what the asked server said.
    Whatever arrives (any datagrams from anywhere, of any bytes, and receive
    errors), [discover] returns, without a panic, between its start and its
    deadline.  An address it returns was read out of a datagram that came from the
    server asked and that carries this request's transaction identifier, so a
    reply from elsewhere or to another request cannot choose it.  And a server's
    answer in the standard form, with any other attributes around the address,
    that arrives in time is found whatever noise precedes it. *)
Theorem stun_discovery server timeout g w :
  rng_total g -> 0 <= timeout -> delays w ->
  (forall sent, let (r, w') := discover sent server timeout g w in
    r <> Panic /\ instant w <= instant w' <= instant w + timeout /\
    forall a q, r = Ok (a, q) -> exists d p, (d, Datagram server p) ∈ arrivals w /\
      parse_response (ztake 1024 p) (txid q) = Ok a /\ slice 8 20 (ztake 1024 p) = Some (txid q)) /\
  exists q g', build_request g = Ok (q, g') /\ zlen (txid q) = TXID_LEN /\
    forall junk d l a post rest,
      let attrs := attributes l ++ attribute (ATTR_XOR_MAPPED_ADDRESS, xor_mapped a (txid q)) ++ post in
      arrivals w = junk ++ (d, Datagram server (response (txid q) attrs)) :: rest ->
      Forall (ignored server (txid q)) junk -> total_delay junk + d < timeout ->
      Forall other_attribute l -> socket_wf a -> plain_socket a -> zlen attrs <= 1004 ->
      exists w', discover true server timeout g w = (Ok (a, q), w').
Proof.
  intros Hg Ht Hd. destruct (build_request_total g Hg) as (q & g' & Hq & Hlen). split.
  - intros sent. unfold discover. rewrite Hq. destruct sent; [|by split_and!; try lia].
    pose proof (discover_loop_spec (S (length (arrivals w))) server (txid q) (instant w + timeout) w
      ltac:(lia) Hd Hlen ltac:(lia)) as Hs.
    destruct (discover_loop _ _ _ _ _) as [r w']. destruct Hs as (Hp & Hi & Ha).
    split_and!; [by destruct r|lia|lia|]. intros a q' Hr. apply obind_Ok in Hr as (a' & Hr & [= <- <-]).
    destruct (Ha a' Hr) as (d & p & Hin & Hparse). exists d, p. split_and!; [done|done|].
    by apply parse_response_Ok in Hparse as [? _].
  - exists q, g'. split_and!; [done|done|]. intros junk d l a post rest attrs Harr Hj Htime Hl Ha Hpl Hn.
    assert (Hd' : 0 <= d).
    { unfold delays in Hd. rewrite Harr in Hd. apply Forall_app in Hd as [_ Hd].
      by apply list.Forall_cons in Hd as [Hd _]. }
    unfold discover. rewrite Hq. destruct w as [now arr]. cbn [arrivals instant] in *. subst arr.
    assert (Hp : parse_response (ztake 1024 (response (txid q) attrs)) (txid q) = Ok a).
    { rewrite ztake_all; [apply parse_answer; try done; unfold attrs in *; lia|].
      destruct (header_fields (be_bytes 2 BINDING_SUCCESS) (be_bytes 2 (zlen attrs)) (be_bytes 4 MAGIC_COOKIE)
        (txid q) attrs) as (_ & _ & _ & _ & _ & Hm); [by rewrite ?zlen_be_bytes..|done|].
      unfold response. rewrite Hm. lia. }
    destruct (discover_loop_finds junk (S (length (junk ++ (d, Datagram server (response (txid q) attrs)) :: rest)))
      server (txid q) (now + timeout) now d _ rest a Hj Hd' Hp ltac:(lia)) as [w' ->].
    { rewrite length_app. cbn. lia. }
    by exists w'.
Qed.

(** ** An example: noise, a forged reply, then the answer *)

Definition demo_server : SocketAddr := SocketV4 [Byte.xcb; Byte.x00; Byte.x71; Byte.x01] 3478.
Definition demo_seen : SocketAddr := SocketV4 [Byte.xc0; Byte.x00; Byte.x02; Byte.x2a] 4433.
Definition demo_txid : bytes := zrep 12 Byte.x2a.
Definition demo_attrs (t : bytes) : bytes :=
  attributes [(ATTR_MAPPED_ADDRESS, lit "rewritten"); (0x8022, lit "server")]
  ++ attribute (ATTR_XOR_MAPPED_ADDRESS, xor_mapped demo_seen t) ++ [].
Definition demo_noise : list (Z * arrival) :=
  [(5, Datagram demo_seen (lit "hello")); (7, Datagram demo_server (response (zrep 12 Byte.x00) (demo_attrs demo_txid)))].
Definition demo_wire : Wire :=
  {| instant := 100;
     arrivals := demo_noise ++ (30, Datagram demo_server (response demo_txid (demo_attrs demo_txid))) :: [] |}.

Example demo_noise_ignored : Forall (ignored demo_server demo_txid) demo_noise.
Proof.
  constructor; [split; [done|by left]|]. constructor; [|constructor]. split; [done|]. right.
  intros a Ha. apply parse_response_Ok in Ha as [Ha _]. revert Ha. vm_compute. discriminate.
Qed.

Lemma stun_discovery_witness :
  exists q w', discover true demo_server 1000 (rng_const Byte.x2a) demo_wire = (Ok (demo_seen, q), w').
Proof.
  destruct (stun_discovery demo_server 1000 (rng_const Byte.x2a) demo_wire (rng_const_total _) ltac:(lia))
    as [_ (q & g' & Hq & _ & Hfind)]; [by repeat constructor|].
  assert (Ht : txid q = demo_txid).
  { revert Hq. vm_compute. by intros [= <- _]. }
  exists q. rewrite Ht in Hfind.
  apply (Hfind demo_noise 30 [(ATTR_MAPPED_ADDRESS, lit "rewritten"); (0x8022, lit "server")] demo_seen [] []).
  - reflexivity.
  - exact demo_noise_ignored.
  - vm_compute. reflexivity.
  - repeat constructor; cbn; done.
  - repeat constructor; done.
  - done.
  - vm_compute. discriminate.
Defined.
