(* ===== verification/AddressRecord.v ===== *)
(** * Address records

    [p2p-live/src/discovery/record.rs]: the fixed-width sealed record a peer
    publishes in a slot. *)

From Stdlib Require Import Strings.Byte.
From S2P Require Import Prelude Text Primitives LiveError Net Ticket Slots.

Definition AAD_DOMAIN : bytes := lit "atom-live-rdv-record-v1".
Definition RECORD_VERSION : byte := Byte.x01.
Definition NONCE_LEN : Z := 24.
Definition AEAD_TAG_LEN : Z := 16.
Definition PLAINTEXT_LEN : Z := 640.
Definition SEALED_LEN : Z := NONCE_LEN + PLAINTEXT_LEN + AEAD_TAG_LEN.
Definition MAX_TTL_SECS : Z := 6 * 3600.
Definition RECORD_TTL_SECS : Z := 2 * 3600.

Record AddressRecord := { r_hints : list Endpoint; seq_no : Z; r_not_after : Z }.

(** [AddressRecord::new]; the second clock reading is in milliseconds, truncated
    to 64 bits. *)
Definition record_new (h : list Endpoint) (now : Z) (millis : option Z) : result AddressRecord :=
  if bool_decide (h = []) then Err (Error.Discovery "refusing to publish a record with no addresses") else
  let? ms := ok_or millis (Error.Discovery "system clock is before the Unix epoch") in
  Ok {| r_hints := h; seq_no := ms mod 2 ^ 64; r_not_after := sat_add64 now RECORD_TTL_SECS |}.

Definition supersedes (r : AddressRecord) (newest_seen : option Z) : bool :=
  match newest_seen with None => true | Some seen => seen <? seq_no r end.

Definition record_expired_at (r : AddressRecord) (now : Z) : bool := r_not_after r <=? now.

Definition to_plaintext (r : AddressRecord) : bytes :=
  [RECORD_VERSION] ++ be_bytes 8 (seq_no r) ++ be_bytes 8 (r_not_after r) ++ encode_hints (r_hints r).

Definition aad_for (s : Slot) : bytes := AAD_DOMAIN ++ tag s.

Definition rng_unavailable : Error.t := Error.Discovery "OS random number generator unavailable".

Definition record_direct_hints (r : AddressRecord) : list SocketAddr :=
  omap (fun h => match h with Direct a => Some a | Onion _ => None end) (r_hints r).

Section record.
Context `{UnicodeCase} `{Aead}.

(** [AddressRecord::seal]. *)
Definition seal (r : AddressRecord) (s : Slot) (g : rng) : result (bytes * rng) :=
  let body := to_plaintext r in
  if PLAINTEXT_LEN <? zlen body + 2
  then Err (Error.Discovery "address record is past the fixed width") else
  let? (pad, g) := getrandom_fill (PLAINTEXT_LEN - (2 + zlen body)) rng_unavailable g in
  let plaintext := be_bytes 2 (zlen body) ++ body ++ pad in
  let? (nonce, g) := getrandom_fill NONCE_LEN rng_unavailable g in
  let? ciphertext := ok_or (aead_seal (key s) nonce (aad_for s) plaintext)
                       (Error.Discovery "sealing the address record failed") in
  Ok (nonce ++ ciphertext, g).

(** [AddressRecord::from_plaintext]. *)
Definition from_plaintext (plaintext : bytes) : result AddressRecord :=
  if negb (zlen plaintext =? PLAINTEXT_LEN)
  then Err (Error.Discovery "address record has the wrong width") else
  let? l := or_panic (slice 0 2 plaintext) in
  let body_len := be_val l in
  if PLAINTEXT_LEN <? body_len + 2
  then Err (Error.Discovery "address record declares a body past its own width") else
  let? body := or_panic (slice 2 (2 + body_len) plaintext) in
  let r := Reader_named body "address record" in
  let? (version, r) := read_u8 r in
  if decide (version <> RECORD_VERSION)
  then Err (Error.Discovery "address record format version") else
  let? (seq, r) := read_u64 r in
  let? (not_after, r) := read_u64 r in
  let? (h, r) := decode_hints r in
  if negb (reader_is_empty r) then Err (Error.Discovery "trailing bytes in the address record") else
  if bool_decide (h = []) then Err (Error.Discovery "address record carries no addresses") else
  Ok {| r_hints := h; seq_no := seq; r_not_after := not_after |}.

(** [AddressRecord::open], the function; [open] in the code. *)
Definition open_record (sealed : bytes) (s : Slot) (now : Z) : result AddressRecord :=
  if negb (zlen sealed =? SEALED_LEN) then Err (Error.Discovery "address record has the wrong length") else
  let nonce := ztake NONCE_LEN sealed in
  let ciphertext := zdrop NONCE_LEN sealed in
  let? plaintext := ok_or (aead_open (key s) nonce (aad_for s) ciphertext)
                      (Error.Discovery "could not open the address record") in
  let? record := from_plaintext plaintext in
  if record_expired_at record now then Err (Error.Discovery "address record has expired") else
  if sat_add64 now MAX_TTL_SECS <? r_not_after record
  then Err (Error.Discovery "address record claims a lifetime past the maximum") else
  Ok record.
End record.

(** What a record that can be published and read back is. *)
Definition record_wf (r : AddressRecord) : Prop :=
  r_hints r <> [] /\ hints_wf (r_hints r) /\ is_u64 (seq_no r) /\ is_u64 (r_not_after r).

Section lemmas.
Context `{UnicodeCase} `{Aead}.

Lemma from_plaintext_wf x r : from_plaintext x = Ok r -> record_wf r.
Proof.
  unfold from_plaintext. intros Hr.
  apply obind_Ok in Hr as (l & Hl & Hr) || (destruct (negb _); [done|]; apply obind_Ok in Hr as (l & Hl & Hr)).
  destruct (PLAINTEXT_LEN <? _); [done|]. apply obind_Ok in Hr as (body & Hb & Hr).
  assert (live (Reader_named body "address record")) by done.
  ok_inv Hr; bools; simplify_eq; read_inv.
  match goal with Hd : decode_hints _ = Ok _ |- _ => apply decode_hints_wf in Hd as [? _]; [|done] end.
  by split_and!.
Qed.

Lemma from_plaintext_no_panic x : from_plaintext x <> Panic.
Proof.
  unfold from_plaintext. destruct (negb _) eqn:Hl; [done|]. bools.
  destruct (slice 0 2 x) as [l|] eqn:E1; [|apply slice_None in E1; unfold PLAINTEXT_LEN in *; lia].
  cbn [or_panic obind]. destruct (PLAINTEXT_LEN <? _) eqn:E2; [done|]. bools.
  pose proof (be_val_range l).
  destruct (slice 2 (2 + be_val l) x) as [body|] eqn:E3; [|apply slice_None in E3; lia].
  cbn [or_panic obind]. assert (live (Reader_named body "address record")) by done.
  read_no_panic. apply obind_no_panic; [by apply decode_hints_no_panic|].
  intros [h r'] _. repeat case_match; done.
Qed.

Context `{!UnicodeCaseLaws _} `{!AeadLaws _}.

Lemma to_plaintext_length r : record_wf r -> zlen (to_plaintext r) + 2 <= PLAINTEXT_LEN.
Proof.
  intros (_ & Hh & _). pose proof (encode_hints_length _ Hh). destruct Hh as [Hn _].
  unfold to_plaintext, PLAINTEXT_LEN, MAX_HINTS in *. zl.
Qed.

Lemma from_plaintext_padded r pad :
  record_wf r -> zlen pad = PLAINTEXT_LEN - (2 + zlen (to_plaintext r)) ->
  from_plaintext (be_bytes 2 (zlen (to_plaintext r)) ++ to_plaintext r ++ pad) = Ok r.
Proof.
  intros Hwf Hpad. pose proof (to_plaintext_length r Hwf) as Hlen.
  pose proof (zlen_nonneg (to_plaintext r)). unfold from_plaintext, PLAINTEXT_LEN in *.
  rewrite !zlen_app, zlen_be_bytes, Hpad. zdec. cbn [negb].
  rewrite slice_prefix by (by rewrite zlen_be_bytes). cbn [or_panic obind].
  rewrite be_val_small by lia. zdec.
  rewrite slice_app_mid by (rewrite zlen_be_bytes; lia). cbn [or_panic obind].
  assert (Hr : ahead (Reader_named (to_plaintext r) "address record") (to_plaintext r)).
  { apply ahead_start. unfold in_memory, u64_max. lia. }
  destruct Hwf as (Hne & Hh & Hs & Hna).
  unfold to_plaintext in Hr at 2.
  change ([RECORD_VERSION] ++ ?k) with (RECORD_VERSION :: k) in Hr.
  set (b := to_plaintext r) in *. clearbody b.
  reads Hr read_u8_ahead. rewrite decide_False by (intros Hx; by apply Hx).
  reads Hr read_u64_ahead. reads Hr read_u64_ahead.
  rewrite <- (app_nil_r (encode_hints (r_hints r))) in Hr.
  destruct (decode_hints_ahead _ _ _ Hh Hr) as (r' & -> & Hr'). cbn [obind].
  rewrite ahead_empty by done. cbn [negb]. rewrite bool_decide_false by done. by destruct r.
Qed.

Lemma seal_spec r s g :
  record_wf r -> rng_total g ->
  exists sealed g', seal r s g = Ok (sealed, g') /\ zlen sealed = SEALED_LEN /\ rng_total g' /\
    forall now, open_record sealed s now =
      (if record_expired_at r now then Err (Error.Discovery "address record has expired") else
       if sat_add64 now MAX_TTL_SECS <? r_not_after r
       then Err (Error.Discovery "address record claims a lifetime past the maximum") else Ok r).
Proof.
  intros Hwf Hg. pose proof (to_plaintext_length r Hwf) as Hlen.
  pose proof (zlen_nonneg (to_plaintext r)). unfold seal. zdec.
  destruct (getrandom_fill_total (PLAINTEXT_LEN - (2 + zlen (to_plaintext r))) rng_unavailable g Hg
    ltac:(lia)) as (pad & -> & Hpad). cbn [obind].
  destruct (getrandom_fill_total NONCE_LEN rng_unavailable
    (rng_skip (Z.to_nat (PLAINTEXT_LEN - (2 + zlen (to_plaintext r)))) g)
    (rng_total_skip _ _ Hg) ltac:(done)) as (nonce & -> & Hnonce). cbn [obind].
  set (p := be_bytes 2 (zlen (to_plaintext r)) ++ to_plaintext r ++ pad).
  assert (Hp : zlen p = PLAINTEXT_LEN) by (unfold p; zl).
  destruct (aead_seal_total (key s) nonce (aad_for s) p) as [ct Hct].
  { rewrite Hp. by vm_compute. }
  rewrite Hct. cbn [ok_or obind]. eexists _, _. split; [done|].
  pose proof (aead_seal_length _ _ _ _ _ Hct) as Hcl.
  assert (Hsl : zlen (nonce ++ ct) = SEALED_LEN).
  { rewrite zlen_app, Hnonce, Hcl, Hp. done. }
  split_and!; [done|by apply rng_total_skip, rng_total_skip|]. intros now.
  unfold open_record. rewrite Hsl, Z.eqb_refl. cbn [negb].
  rewrite ztake_app_l, zdrop_app_l by done.
  apply aead_open_seal in Hct. rewrite Hct. cbn [ok_or obind].
  unfold p. by rewrite from_plaintext_padded.
Qed.

Lemma open_record_Ok sealed s now r :
  open_record sealed s now = Ok r ->
  record_wf r /\ now < r_not_after r <= sat_add64 now MAX_TTL_SECS /\ zlen sealed = SEALED_LEN /\
  exists plaintext, aead_seal (key s) (ztake NONCE_LEN sealed) (aad_for s) plaintext
                    = Some (zdrop NONCE_LEN sealed) /\ from_plaintext plaintext = Ok r.
Proof.
  unfold open_record. intros Hr. destruct (negb _) eqn:Hl; [done|]. bools.
  apply obind_Ok in Hr as (p & Hp & Hr). apply ok_or_Ok in Hp.
  apply obind_Ok in Hr as (rec & Hrec & Hr). unfold record_expired_at in Hr.
  destruct (_ <=? now) eqn:E1; [done|]. destruct (_ <? _) eqn:E2; [done|]. bools.
  injection Hr as ->. split_and!; try (done || lia).
  - by eapply from_plaintext_wf.
  - exists p. split; [|done]. by apply aead_open_seal.
Qed.

Lemma open_record_no_panic sealed s now : open_record sealed s now <> Panic.
Proof.
  unfold open_record. destruct (negb _); [done|]. apply obind_no_panic; [apply ok_or_no_panic|].
  intros p _. apply obind_no_panic; [apply from_plaintext_no_panic|]. intros r _.
  repeat case_match; done.
Qed.
End lemmas.

(** ** Theorems *)

Section theorems.
Context `{UnicodeCase} `{!UnicodeCaseLaws _} `{Aead} `{!AeadLaws _}.

(** Every record is sealed to one size and read back by the peer while it is
    alive.  Sealing any well-formed record, up to eight onion addresses, succeeds
    with exactly [SEALED_LEN] bytes whatever it contains; opening those bytes in
    the same slot gives the record exactly while it has not expired and does not
    claim more than the maximum lifetime; conversely, whatever a substrate serves,
    what opens was sealed under that slot's key and bound to its tag, is well
    formed, unexpired and within the lifetime cap; and opening never panics. *)
Theorem record_seal_open s :
  (forall r g, record_wf r -> rng_total g ->
     exists sealed g', seal r s g = Ok (sealed, g') /\ zlen sealed = SEALED_LEN /\
       forall now, open_record sealed s now = Ok r <->
         now < r_not_after r <= sat_add64 now MAX_TTL_SECS) /\
  (forall sealed now r, open_record sealed s now = Ok r ->
     record_wf r /\ now < r_not_after r <= sat_add64 now MAX_TTL_SECS /\ zlen sealed = SEALED_LEN /\
     exists plaintext, aead_seal (key s) (ztake NONCE_LEN sealed) (aad_for s) plaintext
                       = Some (zdrop NONCE_LEN sealed) /\ from_plaintext plaintext = Ok r) /\
  (forall sealed now, open_record sealed s now <> Panic).
Proof.
  split_and!; [|intros; by apply open_record_Ok|intros; apply open_record_no_panic].
  intros r g Hwf Hg. destruct (seal_spec r s g Hwf Hg) as (sealed & g' & Hs & Hl & _ & Ho).
  exists sealed, g'. split_and!; [done|done|]. intros now. rewrite Ho.
  unfold record_expired_at. destruct (_ <=? now) eqn:E1; bools; [split; [done|lia]|].
  destruct (sat_add64 now MAX_TTL_SECS <? r_not_after r) eqn:E2; bools; (split; [done || lia|done || lia]).
Qed.
End theorems.

(** *** Examples *)

Import Toy.

Definition example_record : AddressRecord :=
  {| r_hints := [Onion example_onion; Direct (SocketV4 [Byte.x0a; Byte.x00; Byte.x00; Byte.x01] 4433)];
     seq_no := 17; r_not_after := 5000 |}.

Lemma example_record_wf : record_wf example_record.
Proof.
  split_and!; try done. split; [by vm_compute|]. repeat constructor; simpl; try done.
  exists (zrep 56 Byte.x61). split_and!; [done|done|]. by repeat constructor.
Qed.

Lemma record_seal_open_witness :
  exists sealed g', seal example_record (slot (zrep 32 Byte.x01) LowToHigh 0) (rng_const Byte.x05)
                    = Ok (sealed, g') /\ zlen sealed = SEALED_LEN /\
    forall now, open_record sealed (slot (zrep 32 Byte.x01) LowToHigh 0) now = Ok example_record <->
      now < 5000 <= sat_add64 now MAX_TTL_SECS.
Proof. apply record_seal_open; [apply example_record_wf|apply rng_const_total]. Defined.
