(* ===== verification/Discovery.v ===== *)
(** * Discovery

    [p2p-live/src/discovery/mod.rs]: publishing a sealed record to every
    configured substrate and resolving a peer's current addresses. *)

From Stdlib Require Import Strings.Byte.
From Stdlib Require List.
From stdpp Require Import strings sorting gmap.
From S2P Require Import Prelude Text Primitives LiveError StateM Net Ticket Slots AddressRecord.

(** [trait Substrate], over a state [N] of the network: opaque bytes under opaque
    labels. *)
Record Substrate (N : Type) := {
  sub_name : string;
  sub_put : bytes -> bytes -> Z -> M Error.t N unit;
  sub_get : bytes -> M Error.t N (option bytes);
}.
Arguments sub_name {N} _.
Arguments sub_put {N} _ _ _ _.
Arguments sub_get {N} _ _.

Record PublishReport := { succeeded : list string; failed : list (string * Error.t) }.

Definition is_reachable (r : PublishReport) : bool := negb (bool_decide (succeeded r = [])).

(** Fisher–Yates: [swap i j]. *)
Definition swap {A} (i j : nat) (l : list A) : list A :=
  match l !! i, l !! j with
  | Some x, Some y => <[i := y]> (<[j := x]> l)
  | _, _ => l
  end.

Section discovery.
Context `{UnicodeCase} `{Aead} `{Blake3} {N : Type}.

(** The loop of [shuffled], [for i in (1..len).rev()]. *)
Fixpoint shuffle_loop {A} (i : nat) (noise : bytes) (out : list A) : result (list A) :=
  match i with
  | O => Ok out
  | S i' =>
      let? b := or_panic (slice (Z.of_nat i * 8) (Z.of_nat i * 8 + 8) noise) in
      let j := Z.to_nat (be_val b mod (Z.of_nat i + 1)) in
      shuffle_loop i' noise (swap i j out)
  end.

Definition shuffled {A} (l : list A) (g : rng) : result (list A * rng) :=
  if zlen l <? 2 then Ok (l, g) else
  let? (noise, g) := getrandom_fill (zlen l * 8) rng_unavailable g in
  let? out := shuffle_loop (length l - 1) noise l in
  Ok (out, g).

(** The sealing loop of [publish]. *)
Fixpoint seal_all (r : AddressRecord) (slots : list Slot) (g : rng)
    : result (list (bytes * bytes) * rng) :=
  match slots with
  | [] => Ok ([], g)
  | s :: slots =>
      let? (b, g) := seal r s g in
      let? (l, g) := seal_all r slots g in
      Ok ((tag_hex s, b) :: l, g)
  end.

(** Writing every slot to one substrate, up to its first refusal. *)
Fixpoint put_all (s : Substrate N) (ttl : Z) (sealed : list (bytes * bytes)) : M Error.t N (option Error.t) :=
  match sealed with
  | [] => mret None
  | (t, b) :: rest => fun n =>
      match sub_put s t b ttl n with
      | (Ok _, n') => put_all s ttl rest n'
      | (Err e, n') => (Ok (Some e), n')
      | (Panic, n') => (Panic, n')
      end
  end.

Fixpoint publish_loop (subs : list (Substrate N)) (ttl : Z) (sealed : list (bytes * bytes))
    (r : PublishReport) : M Error.t N PublishReport :=
  match subs with
  | [] => mret r
  | s :: subs =>
      let! error := put_all s ttl sealed in
      publish_loop subs ttl sealed
        match error with
        | None => {| succeeded := succeeded r ++ [sub_name s]; failed := failed r |}
        | Some e => {| succeeded := succeeded r; failed := failed r ++ [(sub_name s, e)] |}
        end
  end.

(** [Discovery::publish], at the clock reading [clock]. *)
Definition publish (subs : list (Substrate N)) (clock : option Z) (secret local peer : bytes)
    (record : AddressRecord) (g : rng) : M Error.t N PublishReport :=
  if bool_decide (length subs = 0%nat)
  then fails (Error.Discovery "no rendezvous endpoint is configured") else
  let direction := publishing local peer in
  let! now := lift (Slots.now_secs clock) in
  let slots := publish_slots secret direction now in
  let! (sealed, _) := lift (seal_all record slots g) in
  let ttl := Z.min MAX_TTL_SECS (2 * EPOCH_SECS) in
  publish_loop subs ttl sealed {| succeeded := []; failed := [] |}.

(** One slot of the inner loop of [resolve]: the best record so far, and the last
    thing that went wrong. *)
Definition try_slot (s : Substrate N) (now : Z) (newest_seen : option Z) (sl : Slot)
    (best : option AddressRecord) (last_error : string) : M Error.t N (option AddressRecord * string) :=
  fun n =>
  match sub_get s (tag_hex sl) n with
  | (Err _, n') => (Ok (best, "the substrate failed"%string), n')
  | (Panic, n') => (Panic, n')
  | (Ok None, n') => (Ok (best, last_error), n')
  | (Ok (Some b), n') =>
      match open_record b sl now with
      | Ok candidate =>
          if negb (supersedes candidate newest_seen)
          then (Ok (best, "only a stale record was served"%string), n')
          else if match best with None => true | Some b => seq_no b <? seq_no candidate end
          then (Ok (Some candidate, last_error), n')
          else (Ok (best, last_error), n')
      | Err _ => (Ok (best, last_error), n')
      | Panic => (Panic, n')
      end
  end.

Fixpoint try_slots (s : Substrate N) (now : Z) (newest_seen : option Z) (slots : list Slot)
    (best : option AddressRecord) (last_error : string) : M Error.t N (option AddressRecord * string) :=
  match slots with
  | [] => mret (best, last_error)
  | sl :: slots =>
      let! (best, last_error) := try_slot s now newest_seen sl best last_error in
      try_slots s now newest_seen slots best last_error
  end.

Fixpoint resolve_loop (subs : list (Substrate N)) (now : Z) (newest_seen : option Z)
    (slots : list Slot) (last_error : string) : M Error.t N AddressRecord :=
  match subs with
  | [] => fails (Error.Discovery ("could not find a current address for this peer: " ++ last_error)%string)
  | s :: subs =>
      let! (best, last_error) := try_slots s now newest_seen slots None last_error in
      match best with
      | Some record => mret record
      | None => resolve_loop subs now newest_seen slots last_error
      end
  end.

(** [Discovery::resolve]. *)
Definition resolve (subs : list (Substrate N)) (clock : option Z) (secret local peer : bytes)
    (newest_seen : option Z) (g : rng) : M Error.t N AddressRecord :=
  if bool_decide (length subs = 0%nat)
  then fails (Error.Discovery "no rendezvous endpoint is configured") else
  let direction := flip (publishing local peer) in
  let! now := lift (Slots.now_secs clock) in
  let slots := lookup_slots secret direction now in
  let! (order, _) := lift (shuffled subs g) in
  resolve_loop order now newest_seen slots "no substrate was reachable".

(** ** Lemmas: the shuffle *)

Lemma swap_perm {A} i j (l : list A) : swap i j l ≡ₚ l.
Proof.
  unfold swap. destruct (l !! i) as [x|] eqn:Hi, (l !! j) as [y|] eqn:Hj; try done.
  destruct (decide (i = j)) as [->|Hij].
  - rewrite Hi in Hj. injection Hj as ->. rewrite list_insert_insert_eq. by rewrite list_insert_id.
  - apply Permutation_inj. split; [by rewrite !length_insert|].
    exists (fun k => if decide (k = i) then j else if decide (k = j) then i else k). split.
    + intros a b. repeat case_decide; congruence.
    + intros k. assert (i < length l)%nat by by eapply lookup_lt_Some.
      assert (j < length l)%nat by by eapply lookup_lt_Some.
      repeat case_decide; subst.
      * rewrite list_lookup_insert_eq by (rewrite length_insert; done). done.
      * rewrite list_lookup_insert_ne by done. rewrite list_lookup_insert_eq by done. done.
      * by rewrite !list_lookup_insert_ne by done.
Qed.

Lemma shuffle_loop_perm {A} i noise (l out : list A) :
  shuffle_loop i noise l = Ok out -> out ≡ₚ l.
Proof.
  revert l. induction i as [|i IH]; intros l; cbn [shuffle_loop]; [by intros [= <-]|].
  intros Hs. apply obind_Ok in Hs as (b & _ & Hs). apply IH in Hs. by rewrite Hs, swap_perm.
Qed.

Lemma shuffle_loop_total {A} i noise (l : list A) :
  (Z.of_nat i + 1) * 8 <= zlen noise -> is_ok (shuffle_loop i noise l) = true.
Proof.
  revert l. induction i as [|i IH]; intros l Hn; cbn [shuffle_loop]; [done|].
  destruct (slice _ _ noise) eqn:Hs; [|apply slice_None in Hs; lia].
  cbn [or_panic obind]. apply IH. lia.
Qed.

Lemma shuffled_spec {A} (l : list A) g :
  rng_total g -> exists out g', shuffled l g = Ok (out, g') /\ out ≡ₚ l.
Proof.
  intros Hg. unfold shuffled. destruct (zlen l <? 2) eqn:Hc; [by eauto|]. bools.
  destruct (getrandom_fill_total (zlen l * 8) rng_unavailable g Hg ltac:(lia)) as (noise & -> & Hn).
  cbn [obind]. pose proof (shuffle_loop_total (length l - 1) noise l) as Ht.
  unfold zlen in Hc, Hn. destruct (shuffle_loop _ _ _) as [out|e|] eqn:Hs.
  - eexists _, _. split; [done|]. by eapply shuffle_loop_perm.
  - exfalso. discriminate Ht. unfold zlen. lia.
  - exfalso. discriminate Ht. unfold zlen. lia.
Qed.

Lemma shuffled_perm {A} (l out : list A) g g' : shuffled l g = Ok (out, g') -> out ≡ₚ l.
Proof.
  unfold shuffled. destruct (zlen l <? 2); [by intros [= <- <-]|]. intros Hs.
  apply obind_Ok in Hs as ([noise g1] & _ & Hs). apply obind_Ok in Hs as (o & Hs & Ho).
  injection Ho as <- <-. by eapply shuffle_loop_perm.
Qed.

Lemma shuffled_no_panic {A} (l : list A) g : shuffled l g <> Panic.
Proof.
  unfold shuffled. destruct (zlen l <? 2) eqn:Hc; [done|]. bools.
  apply obind_no_panic.
  { unfold getrandom_fill. by destruct (rng_draw _ _). }
  intros [noise g1] Hn. apply getrandom_fill_Ok in Hn as [Hn _]; [|lia].
  apply obind_no_panic; [|done]. pose proof (shuffle_loop_total (length l - 1) noise l) as Ht.
  unfold zlen in Hc, Hn, Ht. intros Hp. rewrite Hp in Ht. discriminate Ht. lia.
Qed.
End discovery.

(** ** Lemmas: resolving against any substrates *)

Section resolving.
Context `{UnicodeCase} `{!UnicodeCaseLaws _} `{Aead} `{!AeadLaws _} `{Blake3} {N : Type}.

(** A record that may be returned: it came from one of the slots, opened there,
    and is newer than what was seen. *)
Definition acceptable (slots : list Slot) (now : Z) (newest_seen : option Z) (r : AddressRecord) : Prop :=
  supersedes r newest_seen = true /\ exists sl b, sl ∈ slots /\ open_record b sl now = Ok r.

Lemma try_slot_acceptable (s : Substrate N) now seen all sl best le n x le' n' :
  sl ∈ all -> (forall r, best = Some r -> acceptable all now seen r) ->
  try_slot s now seen sl best le n = (Ok (x, le'), n') ->
  forall r, x = Some r -> acceptable all now seen r.
Proof.
  intros Hin Hb. unfold try_slot.
  destruct (sub_get s (tag_hex sl) n) as [[[b|]|e|] n1]; [| | |done].
  2, 3: intros [= <- <- <-]; done.
  destruct (open_record b sl now) as [c|e|] eqn:Ho; [|by intros [= <- <- <-]|done].
  destruct (supersedes c seen) eqn:Hs; cbn [negb]; [|by intros [= <- <- <-]].
  destruct (match best with None => true | _ => _ end); intros [= <- <- <-]; [|done].
  intros r [= <-]. split; [done|]. by exists sl, b.
Qed.

Lemma try_slots_acceptable (s : Substrate N) now seen all slots best le n x le' n' :
  (forall sl, sl ∈ slots -> sl ∈ all) -> (forall r, best = Some r -> acceptable all now seen r) ->
  try_slots s now seen slots best le n = (Ok (x, le'), n') ->
  forall r, x = Some r -> acceptable all now seen r.
Proof.
  revert best le n. induction slots as [|sl slots IH]; intros best le n Hsub Hb; cbn [try_slots].
  { unfold mret. intros [= <- <- <-]. done. }
  intros Ht. apply mbind_inv in Ht as ([b1 l1] & n1 & Hr1 & Ht). eapply IH; [| |exact Ht].
  - intros sl' Hsl. apply Hsub. by right.
  - eapply try_slot_acceptable; [|exact Hb|exact Hr1]. apply Hsub. by left.
Qed.

Lemma resolve_loop_acceptable (subs : list (Substrate N)) now seen slots le n r n' :
  resolve_loop subs now seen slots le n = (Ok r, n') -> acceptable slots now seen r.
Proof.
  revert le n. induction subs as [|s subs IH]; intros le n; cbn [resolve_loop]; [done|].
  intros Hr. apply mbind_inv in Hr as ([best l1] & n1 & Hr1 & Hr).
  destruct best as [rec|]; [|by eapply IH].
  unfold mret in Hr. injection Hr as -> <-.
  eapply (try_slots_acceptable s now seen slots slots); [done| |exact Hr1|done]. done.
Qed.

(** A substrate that never panics keeps resolution from panicking. *)
Definition steady (s : Substrate N) : Prop := forall t n, fst (sub_get s t n) <> Panic.

Lemma resolve_loop_no_panic (subs : list (Substrate N)) now seen slots le n :
  Forall steady subs -> fst (resolve_loop subs now seen slots le n) <> Panic.
Proof.
  intros Hs. revert le n. induction Hs as [|s subs Hs _ IH]; intros le n; cbn [resolve_loop]; [done|].
  assert (Ht : forall l b le n, fst (try_slots s now seen l b le n) <> Panic).
  { induction l as [|sl l IHl]; intros b le0 n0; cbn [try_slots]; [done|].
    unfold mbind, try_slot. specialize (Hs (tag_hex sl) n0).
    destruct (sub_get s (tag_hex sl) n0) as [[[x|]|e|] n1]; simpl in Hs; [|apply IHl|apply IHl|done].
    pose proof (open_record_no_panic x sl now).
    destruct (open_record x sl now) as [c|e|]; [|apply IHl|done].
    destruct (negb _); [apply IHl|]. destruct (match b with None => true | _ => _ end); apply IHl. }
  unfold mbind. specialize (Ht slots None le n).
  destruct (try_slots s now seen slots None le n) as [[[[rec|] l1]|e|] n1]; [done|apply IH|done|done].
Qed.
End resolving.

(** ** Lemmas: an honest store *)

(** A dumb key-value store, and what an endpoint in front of it does. *)
Abbreviation store := (gmap bytes bytes).

Definition honest (s : Substrate store) : Prop :=
  (forall t b ttl n, sub_put s t b ttl n = (Ok tt, <[t := b]> n)) /\
  (forall t n, sub_get s t n = (Ok (n !! t), n)).
Definition unreachable (s : Substrate store) : Prop :=
  (forall t b ttl n, exists e, sub_put s t b ttl n = (Err e, n)) /\
  (forall t n, exists e, sub_get s t n = (Err e, n)).
(** A fleet: every endpoint is honest or unreachable, and one is honest. *)
Definition fleet (l : list (Substrate store)) : Prop :=
  Forall (fun s => honest s \/ unreachable s) l /\ Exists honest l.

Section finding.
Context `{UnicodeCase} `{!UnicodeCaseLaws _} `{Aead} `{!AeadLaws _} `{Blake3} `{!Blake3Laws _}.

Definition put_store (sealed : list (bytes * bytes)) (n : store) : store :=
  foldl (fun n tb => <[fst tb := snd tb]> n) n sealed.

Lemma put_all_honest s ttl sealed n :
  honest s -> put_all s ttl sealed n = (Ok None, put_store sealed n).
Proof.
  intros [Hp _]. revert n. induction sealed as [|[t b] l IH]; intros n; cbn [put_all]; [done|].
  rewrite Hp. apply IH.
Qed.

Lemma put_all_unreachable s ttl sealed n :
  unreachable s -> sealed <> [] -> exists e, put_all s ttl sealed n = (Ok (Some e), n).
Proof.
  intros [Hp _] Hne. destruct sealed as [|[t b] l]; [done|]. cbn [put_all].
  destruct (Hp t b ttl n) as [e ->]. by exists e.
Qed.

Definition holds (sealed : list (bytes * bytes)) (n : store) : Prop :=
  forall t b, (t, b) ∈ sealed -> n !! t = Some b.

Lemma put_store_holds sealed n : NoDup (map fst sealed) -> holds sealed (put_store sealed n).
Proof.
  revert n. induction sealed as [|[t b] l IH]; intros n Hd t' b' Hin; [by apply elem_of_nil in Hin|].
  apply list.NoDup_cons in Hd as [Hn Hd]. apply elem_of_cons in Hin as [[= -> ->]|Hin]; simpl.
  - assert (Hkeep : forall l n, t ∉ map fst l -> n !! t = Some b -> put_store l n !! t = Some b).
    { clear. induction l as [|[t1 b1] l IH]; intros n Hn Ht; [done|]. simpl in *.
      apply not_elem_of_cons in Hn as [? ?]. apply IH; [done|].
      by rewrite lookup_insert_ne. }
    apply Hkeep; [done|]. apply lookup_insert_eq.
  - by apply IH.
Qed.

Lemma put_store_inv sealed n t b :
  put_store sealed n !! t = Some b -> (t, b) ∈ sealed \/ n !! t = Some b.
Proof.
  revert n. induction sealed as [|[t1 b1] l IH]; intros n Ht; [by right|].
  apply IH in Ht as [?|Ht]; [left; by right|]. simpl in Ht.
  destruct (decide (t1 = t)) as [->|Hne].
  - rewrite lookup_insert_eq in Ht. injection Ht as ->. left. by left.
  - rewrite lookup_insert_ne in Ht by done. by right.
Qed.

Lemma publish_loop_fleet subs ttl sealed r n :
  Forall (fun s => honest s \/ unreachable s) subs -> sealed <> [] -> NoDup (map fst sealed) ->
  exists r' n', publish_loop subs ttl sealed r n = (Ok r', n') /\
    (holds sealed n \/ Exists honest subs -> holds sealed n') /\
    (succeeded r <> [] \/ Exists honest subs -> succeeded r' <> []) /\
    (forall t b, n' !! t = Some b -> (t, b) ∈ sealed \/ n !! t = Some b).
Proof.
  intros Hs Hne Hd. revert r n. induction Hs as [|s subs Hs _ IH]; intros r n; cbn [publish_loop].
  { exists r, n.
    split_and!; [done|by intros [?|?%List.Exists_nil]|by intros [?|?%List.Exists_nil]|by right]. }
  destruct Hs as [Hh|Hu].
  - erewrite mbind_Ok by (by apply put_all_honest).
    destruct (IH {| succeeded := succeeded r ++ [sub_name s]; failed := failed r |} (put_store sealed n))
      as (r' & n' & Hr & Hst & Hsu & Hi).
    exists r', n'. split_and!; [done| | |].
    + intros _. apply Hst. left. by apply put_store_holds.
    + intros _. apply Hsu. left. simpl. by destruct (succeeded r).
    + intros t b Ht. apply Hi in Ht as [?|Ht]; [by left|by apply put_store_inv].
  - destruct (put_all_unreachable s ttl sealed n Hu Hne) as [e He].
    erewrite mbind_Ok by exact He.
    destruct (IH {| succeeded := succeeded r; failed := failed r ++ [(sub_name s, e)] |} n)
      as (r' & n' & Hr & Hst & Hsu & Hi).
    assert (Hx : Exists honest (s :: subs) -> Exists honest subs).
    { intros [Hh|?]%List.Exists_cons; [|done]. exfalso. destruct Hh as [_ Hg], Hu as [_ Hg'].
      destruct (Hg' [] n) as [e' He']. by rewrite Hg in He'. }
    exists r', n'. split_and!; [done| | |done].
    + intros [?|?]; apply Hst; [by left|right; by apply Hx].
    + intros [?|?]; apply Hsu; [by left|right; by apply Hx].
Qed.

(** What the store offers in a slot. *)
Definition candidate (n : store) (now : Z) (sl : Slot) (c : AddressRecord) : Prop :=
  exists b, n !! tag_hex sl = Some b /\ open_record b sl now = Ok c.

(** [r] is the newest record on offer in these slots. *)
Definition newest (n : store) (now : Z) (slots : list Slot) (r : AddressRecord) : Prop :=
  forall sl c, sl ∈ slots -> candidate n now sl c -> c = r \/ seq_no c < seq_no r.

Lemma try_slots_newest s now seen r n slots best le :
  honest s -> supersedes r seen = true -> newest n now slots r ->
  match best with None => True | Some c => c = r \/ seq_no c < seq_no r end ->
  exists best' le', try_slots s now seen slots best le n = (Ok (best', le'), n) /\
    match best' with None => True | Some c => c = r \/ seq_no c < seq_no r end /\
    (best = Some r \/ (exists sl, sl ∈ slots /\ candidate n now sl r) -> best' = Some r).
Proof.
  intros [_ Hg] Hsup. revert best le.
  induction slots as [|sl slots IH]; intros best le Hnew Hb; cbn [try_slots].
  { exists best, le. unfold mret. split_and!; [done|done|].
    intros [?|(sl & Hin & _)]; [done|by apply elem_of_nil in Hin]. }
  assert (Hnew' : newest n now slots r).
  { intros sl' c Hin. apply Hnew. by right. }
  assert (Hstep : exists best1 le1, try_slot s now seen sl best le n = (Ok (best1, le1), n) /\
    match best1 with None => True | Some c => c = r \/ seq_no c < seq_no r end /\
    (best = Some r \/ candidate n now sl r -> best1 = Some r)).
  { unfold try_slot. rewrite Hg. destruct (n !! tag_hex sl) as [b|] eqn:Hb1.
    2: { exists best, le. split_and!; [done|done|]. intros [?|(b & Hb2 & _)]; [done|congruence]. }
    assert (Hcand : forall c, open_record b sl now = Ok c -> candidate n now sl c).
    { intros c Hc. by exists b. }
    assert (Huniq : candidate n now sl r -> open_record b sl now = Ok r).
    { intros (b' & Hb' & Ho). congruence. }
    pose proof (open_record_no_panic b sl now) as Hnp.
    destruct (open_record b sl now) as [c|e|] eqn:Ho; [| |done].
    2: { exists best, le. split_and!; [done|done|]. intros [?|Hc%Huniq]; [done|discriminate]. }
    destruct (Hnew sl c ltac:(by left) (Hcand c eq_refl)) as [->|Hlt].
    - rewrite Hsup. cbn [negb]. destruct best as [b0|].
      + destruct (seq_no b0 <? seq_no r) eqn:Hlt; bools.
        * exists (Some r), le. split_and!; [done|by left|done].
        * exists (Some b0), le. destruct Hb as [->|?]; [|lia]. split_and!; [done|by left|done].
      + exists (Some r), le. split_and!; [done|by left|done].
    - assert (Hno : candidate n now sl r -> False).
      { intros Hc%Huniq. injection Hc as ->. lia. }
      destruct (negb (supersedes c seen)).
      + exists best, "only a stale record was served"%string. split_and!; [done|done|]. tauto.
      + destruct best as [b0|].
        * destruct (seq_no b0 <? seq_no c) eqn:Hc; bools.
          -- exists (Some c), le. split_and!; [done|by right|].
             intros [Hx|?]; [injection Hx as ->; lia|tauto].
          -- exists (Some b0), le. split_and!; [done|done|]. tauto.
        * exists (Some c), le. split_and!; [done|by right|]. intros [?|?]; [done|tauto]. }
  destruct Hstep as (b1 & le1 & Hs1 & Hb1 & Hr1). erewrite mbind_Ok by exact Hs1.
  destruct (IH b1 le1 Hnew' Hb1) as (b2 & le2 & Hs2 & Hb2 & Hr2).
  exists b2, le2. split_and!; [done|done|]. intros Hc. apply Hr2. destruct Hc as [?|(sl' & Hin & Hc)].
  - left. apply Hr1. by left.
  - apply elem_of_cons in Hin as [->|Hin]; [left; apply Hr1; by right|right; eauto].
Qed.

Lemma try_slots_unreachable s now seen n slots le :
  unreachable s -> exists le', try_slots s now seen slots None le n = (Ok (None, le'), n).
Proof.
  intros [_ Hg]. revert le. induction slots as [|sl slots IH]; intros le; cbn [try_slots].
  { by exists le. }
  destruct (Hg (tag_hex sl) n) as [e He].
  assert (Hs : try_slot s now seen sl None le n = (Ok (None, "the substrate failed"%string), n)).
  { unfold try_slot. by rewrite He. }
  erewrite mbind_Ok by exact Hs. apply IH.
Qed.

Lemma resolve_loop_fleet subs now seen r n slots le :
  fleet subs -> supersedes r seen = true -> newest n now slots r ->
  (exists sl, sl ∈ slots /\ candidate n now sl r) ->
  resolve_loop subs now seen slots le n = (Ok r, n).
Proof.
  intros [Hs He] Hsup Hnew Hc. revert le. induction Hs as [|s subs Hs _ IH]; intros le.
  { by apply List.Exists_nil in He. }
  cbn [resolve_loop]. destruct Hs as [Hh|Hu].
  - destruct (try_slots_newest s now seen r n slots None le Hh Hsup Hnew I) as (b & le' & Ht & _ & Hb).
    erewrite mbind_Ok by exact Ht. by rewrite Hb by (by right).
  - destruct (try_slots_unreachable s now seen n slots le Hu) as (le' & Ht).
    erewrite mbind_Ok by exact Ht. apply IH.
    apply List.Exists_cons in He as [Hh|?]; [|done]. exfalso.
    destruct Hh as [_ Hg], Hu as [_ Hg']. destruct (Hg' [] n) as [e' He']. by rewrite Hg in He'.
Qed.

Lemma fleet_perm l k : l ≡ₚ k -> fleet k -> fleet l.
Proof.
  intros Hp [Hf He]. split; [by rewrite Hp|].
  apply list.Exists_exists in He as (s & Hin & Hh). apply list.Exists_exists. exists s. by rewrite Hp.
Qed.

Lemma seal_all_spec r slots g :
  record_wf r -> rng_total g ->
  exists sealed g', seal_all r slots g = Ok (sealed, g') /\
    map fst sealed = map tag_hex slots /\
    (forall sl, sl ∈ slots -> exists b, (tag_hex sl, b) ∈ sealed) /\
    (forall t b, (t, b) ∈ sealed -> exists sl, sl ∈ slots /\ t = tag_hex sl /\
      forall now, now < r_not_after r <= sat_add64 now MAX_TTL_SECS -> open_record b sl now = Ok r).
Proof.
  intros Hwf. revert g. induction slots as [|sl slots IH]; intros g Hg; cbn [seal_all].
  { exists [], g. split_and!; [done|done| |]; [intros sl Hin|intros t b Hin]; by apply elem_of_nil in Hin. }
  destruct (seal_spec r sl g Hwf Hg) as (b & g1 & Hs & _ & Hg1 & Ho). rewrite Hs. cbn [obind].
  destruct (IH g1 Hg1) as (l & g2 & Hl & Hm & Hin & Hback). rewrite Hl. cbn [obind].
  eexists _, _. split_and!; [done|simpl; by rewrite Hm| |].
  - intros sl' Hsl. apply elem_of_cons in Hsl as [->|Hsl]; [exists b; by left|].
    destruct (Hin sl' Hsl) as (b' & Hb'). exists b'. by right.
  - intros t b' Hb'. apply elem_of_cons in Hb' as [[= -> ->]|Hb'].
    + exists sl. split_and!; [by left|done|]. intros now Hnow. rewrite Ho.
      unfold record_expired_at. by zdec.
    + destruct (Hback t b' Hb') as (sl' & ? & ? & ?). exists sl'. split_and!; [by right|done|done].
Qed.

(** No two of these slots share a tag (a tag is 32 bytes of a keyed hash). *)
Definition distinct_tags (l : list Slot) : Prop :=
  forall s1 s2, s1 ∈ l -> s2 ∈ l -> tag s1 = tag s2 -> s1 = s2.
Lemma distinct_tags_all l :
  forallb (fun s1 => forallb (fun s2 => bool_decide (tag s1 = tag s2 -> key s1 = key s2)) l) l = true ->
  distinct_tags l.
Proof.
  intros Hf s1 s2 Hs1 Hs2 Ht. apply forallb_Forall, list.Forall_forall with (x := s1) in Hf; [|done].
  apply forallb_Forall, list.Forall_forall with (x := s2) in Hf; [|done]. bools.
  destruct s1, s2; simpl in *. f_equal; [done|auto].
Qed.
End finding.

(** ** Theorems *)

Section theorems.
Context `{UnicodeCase} `{!UnicodeCaseLaws _} `{Aead} `{!AeadLaws _} `{Blake3} `{!Blake3Laws _}.

(** C15: A published peer is found.  Whatever mixture of honest and unreachable
    endpoints each side has configured, as long as each has an honest one in front
    of the same store: after a peer publishes a record, the other peer, holding
    the same secret and with a clock within an hour, resolves exactly that record
    while it is alive, if it is newer than what was seen before and than whatever
    the slots read already held; and the publisher's report says it is
    reachable. *)
Theorem published_peer_is_found subs1 subs2 secret a b r g g2 t_pub t_look seen n0 :
  fleet subs1 -> fleet subs2 -> a <> b -> is_u64 t_pub -> is_u64 t_look ->
  t_pub - EPOCH_SECS <= t_look <= t_pub + EPOCH_SECS -> rng_total g -> rng_total g2 ->
  record_wf r -> t_look < r_not_after r <= sat_add64 t_look MAX_TTL_SECS ->
  supersedes r seen = true ->
  NoDup (map tag (publish_slots secret (publishing a b) t_pub)) ->
  distinct_tags (publish_slots secret (publishing a b) t_pub
                 ++ lookup_slots secret (publishing a b) t_look) ->
  newest n0 t_look (lookup_slots secret (publishing a b) t_look) r ->
  exists report n1,
    publish subs1 (Some t_pub) secret a b r g n0 = (Ok report, n1) /\ is_reachable report = true /\
    resolve subs2 (Some t_look) secret b a seen g2 n1 = (Ok r, n1).
Proof.
  intros Hf1 Hf2 Hab Hp Hl Hskew Hg Hg2 Hwf Halive Hsup Hnd Hdt Hnew.
  assert (Hne : forall l : list (Substrate store), fleet l -> bool_decide (length l = 0%nat) = false).
  { intros l [_ He]. apply bool_decide_eq_false. intros Hlen. destruct l; [|done].
    by apply List.Exists_nil in He. }
  unfold publish, resolve. rewrite !Hne by done.
  unfold Slots.now_secs. cbn [ok_or]. unfold mbind at 1, lift at 1.
  destruct (seal_all_spec r (publish_slots secret (publishing a b) t_pub) g Hwf Hg)
    as (sealed & g' & Hs & Hm & Hin & Hback).
  rewrite Hs. unfold mbind at 1, lift at 1.
  assert (Hsne : sealed <> []) by (intros ->; done).
  assert (Hsnd : NoDup (map fst sealed)).
  { rewrite Hm. change (map tag_hex ?l) with (tag_hex <$> l).
    replace (tag_hex <$> publish_slots secret (publishing a b) t_pub)
      with (hex <$> (map tag (publish_slots secret (publishing a b) t_pub))) by done.
    apply NoDup_fmap_2; [|done]. intros x y. apply hex_inj. }
  destruct (publish_loop_fleet subs1 (Z.min MAX_TTL_SECS (2 * EPOCH_SECS)) sealed
    {| succeeded := []; failed := [] |} n0 (proj1 Hf1) Hsne Hsnd) as (report & n1 & Hr & Hst & Hsu & Hi).
  exists report, n1. split_and!; [done| |].
  { unfold is_reachable. rewrite bool_decide_false; [done|]. apply Hsu. right. apply Hf1. }
  unfold mbind at 1, lift at 1.
  destruct (shuffled_spec subs2 g2 Hg2) as (order & g3 & Hsh & Hperm).
  rewrite Hsh. unfold mbind at 1, lift at 1.
  rewrite <- (publishing_flip a b Hab).
  apply resolve_loop_fleet; [by eapply fleet_perm|done| |].
  - intros sl c Hsl (bts & Hb & Ho). apply Hi in Hb as [Hb|Hb].
    + destruct (Hback _ _ Hb) as (sl' & Hsl' & Ht & Hop). left.
      assert (sl = sl') as ->.
      { apply Hdt; [apply elem_of_app; by right|apply elem_of_app; by left|by apply hex_inj]. }
      rewrite Hop in Ho by done. by injection Ho.
    + apply (Hnew sl c Hsl). by exists bts.
  - destruct (shared_slot secret (publishing a b) t_pub t_look Hp Hl) as (sl & Hs1 & Hs2).
    { unfold epoch_at, EPOCH_SECS in *.
      pose proof (Z.div_mod t_pub 3600 ltac:(lia)). pose proof (Z.div_mod t_look 3600 ltac:(lia)).
      pose proof (Z.mod_pos_bound t_pub 3600 ltac:(lia)).
      pose proof (Z.mod_pos_bound t_look 3600 ltac:(lia)). lia. }
    exists sl. split; [done|]. destruct (Hin sl Hs1) as (bts & Hbts).
    exists bts. split; [apply Hst; [right; apply Hf1|done]|].
    destruct (Hback _ _ Hbts) as (sl' & Hsl' & Ht & Hop).
    assert (sl = sl') as ->; [|by apply Hop]. apply Hdt; [apply elem_of_app; by left|apply elem_of_app; by left|by apply hex_inj].
Qed.

Lemma resolve_sound {N} (subs : list (Substrate N)) clock secret a b seen g n :
  (Forall steady subs -> fst (resolve subs clock secret a b seen g n) <> Panic) /\
  (forall r n', resolve subs clock secret a b seen g n = (Ok r, n') ->
     exists now sl sealed, clock = Some now /\
       sl ∈ lookup_slots secret (flip (publishing a b)) now /\
       open_record sealed sl now = Ok r /\ record_wf r /\
       now < r_not_after r <= sat_add64 now MAX_TTL_SECS /\
       match seen with Some s => s < seq_no r | None => True end /\ subs <> []).
Proof.
  unfold resolve. case_bool_decide as Hne; [done|].
  destruct clock as [now|]; [|done]. unfold Slots.now_secs, mbind, lift. cbn [ok_or].
  pose proof (shuffled_no_panic subs g) as Hnp.
  destruct (shuffled subs g) as [[order g']|e|] eqn:Hsh; [|done|done].
  apply shuffled_perm in Hsh. split.
  - intros Hst. apply resolve_loop_no_panic. by rewrite Hsh.
  - intros r n' Hr. apply resolve_loop_acceptable in Hr as (Hsup & sl & bts & Hin & Ho).
    exists now, sl, bts. destruct (open_record_Ok _ _ _ _ Ho) as (Hwf & Hlife & _).
    split_and!; try done; try lia.
    + unfold supersedes in Hsup. destruct seen; [by bools|done].
    + by intros ->.
Qed.

(** C16: Nothing a substrate serves can mislead a lookup.  Against any substrates
    and any network, a resolved record was opened in one of the three slots of
    this pair for the peer's direction (so it was sealed under a key only the two
    peers can derive), is well formed, unexpired, within the lifetime cap, and
    strictly newer than the newest record already accepted; no substrate's answer
    makes the lookup panic; and an unconfigured or clockless machine is refused. *)
Theorem resolve_accepts_only_authentic {N} (subs : list (Substrate N)) clock secret a b seen g n :
  Forall steady subs ->
  fst (resolve subs clock secret a b seen g n) <> Panic /\
  (forall r n', resolve subs clock secret a b seen g n = (Ok r, n') ->
     exists now sl sealed, clock = Some now /\
       sl ∈ lookup_slots secret (flip (publishing a b)) now /\
       open_record sealed sl now = Ok r /\ record_wf r /\
       now < r_not_after r <= sat_add64 now MAX_TTL_SECS /\
       match seen with Some s => s < seq_no r | None => True end /\ subs <> []).
Proof.
  intros Hst. destruct (resolve_sound subs clock secret a b seen g n) as [Hp Hs].
  split; [by apply Hp|exact Hs].
Qed.
End theorems.

(** *** Examples *)

Import Toy.

(** An endpoint in front of the store, and one that is down. *)
Definition up : Substrate store := {|
  sub_name := "up";
  sub_put t b _ n := (Ok tt, <[t := b]> n);
  sub_get t n := (Ok (n !! t), n) |}.
Definition down : Substrate store := {|
  sub_name := "down";
  sub_put _ _ _ n := (Err (Error.Discovery "unreachable"), n);
  sub_get _ n := (Err (Error.Discovery "unreachable"), n) |}.

Lemma example_fleet : fleet [down; up].
Proof.
  split.
  - apply Forall_cons; [right; split; intros; by eexists|].
    apply Forall_cons; [by left|]. constructor.
  - apply List.Exists_cons_tl, List.Exists_cons_hd. by split.
Qed.

Lemma published_peer_is_found_witness :
  exists report n1,
    publish [down; up] (Some 3599) (zrep 32 Byte.x07) (lit "b") (lit "a") example_record
      (rng_const Byte.x05) ∅ = (Ok report, n1) /\ is_reachable report = true /\
    resolve [down; up] (Some 4000) (zrep 32 Byte.x07) (lit "a") (lit "b") (Some 16)
      (rng_const Byte.x09) n1 = (Ok example_record, n1).
Proof.
  apply published_peer_is_found; try apply example_fleet; try apply rng_const_total; try done.
  - apply example_record_wf.
  - apply (bool_decide_unpack _). by vm_compute.
  - apply distinct_tags_all. by vm_compute.
  - intros sl c _ (b & Hb & _). by rewrite lookup_empty in Hb.
Defined.

Lemma resolve_accepts_only_authentic_witness :
  fst (resolve [down; up] (Some 4000) (zrep 32 Byte.x07) (lit "a") (lit "b") None
    (rng_const Byte.x09) ∅) <> Panic.
Proof.
  apply resolve_accepts_only_authentic. 
  apply Forall_cons; [by intros t n|]. apply Forall_cons; [by intros t n|constructor].
Defined.
