(* ===== verification/Reach.v ===== *)
(** * Reaching a peer

    [p2p-live/src/rendezvous.rs] and [reach.rs], with [tor.rs]'s [dial]: meeting a
    peer at known addresses with roles both ends compute alone, and the ladder that
    connects to a paired peer: the remembered address, then an address looked up
    through a blind endpoint, then Tor. *)

From Stdlib Require Import Strings.Byte.
From stdpp Require Import strings.
From S2P Require Import Prelude Text Primitives LiveError StateM.
From S2P Require Import Framing Session Bundle Net Ticket Slots AddressRecord Discovery PqAuth.

(** Nanoseconds. *)
Definition second : Z := 1000000000.
Definition RETRY_INTERVAL : Z := second / 2.
Definition CACHED_ATTEMPT_MAX : Z := 20 * second.
Definition DEFAULT_TIMEOUT : Z := 120 * second.

(** ** The transport

    What the code calls of QUIC ([quinn]), of TLS over a SOCKS proxy and of the
    clocks, over a state [W] of the machine and the network.  [Sess] is an
    established session of whichever transport.  [attempt_connect] is one bounded
    connection attempt (its error text is time_left out); [await_peer] is the [select!]
    of the accepting side: the first of its own punching round, an incoming
    connection, and the end of the time time_left. *)
Inductive accept_event (C : Type) :=
| Punched
| EndpointClosed
| Refused
| Arrived (c : C)
| Elapsed.
Arguments Punched {C}.
Arguments EndpointClosed {C}.
Arguments Refused {C}.
Arguments Arrived {C} c.
Arguments Elapsed {C}.

Class Transport (W Sess : Type) := {
  instant : W -> Z;
  wall_clock : W -> option Z;
  sleep : Z -> W -> W;
  Conn : Type;
  bind_endpoint : SocketAddr -> LocalIdentity -> PeerPublicKey -> M Error.t W unit;
  close_endpoint : W -> W;
  attempt_connect : SocketAddr -> W -> option Conn * W;
  await_peer : list SocketAddr -> Z -> W -> accept_event Conn * W;
  client_session : Conn -> PeerPublicKey -> M Error.t W Sess;
  server_session : Conn -> PeerPublicKey -> M Error.t W Sess;
  tls_over_onion : SocketAddr -> OnionAddress -> LocalIdentity -> PeerPublicKey -> M Error.t W Sess;
}.

(** A call that moves the clock forward, if at all, and does not panic. *)
Definition forward {W A} (clock : W -> Z) (m : M Error.t W A) : Prop :=
  forall w, fst (m w) <> Panic /\ clock w <= clock (snd (m w)).

(** The clock does not go back, a sleep lasts its time, and waiting for the peer
    takes some time, however short.  No operation panics. *)
Class TransportLaws {W Sess} (T : Transport W Sess) := {
  sleep_lasts : forall d w, 0 <= d -> instant w + d <= instant (sleep d w);
  connect_clock : forall a w, instant w <= instant (snd (attempt_connect a w));
  await_clock : forall l d w, instant w < instant (snd (await_peer l d w));
  close_clock : forall w, instant w <= instant (close_endpoint w);
  bind_forward : forall a l p, forward instant (bind_endpoint a l p);
  client_forward : forall c p, forward instant (client_session c p);
  server_forward : forall c p, forward instant (server_session c p);
  onion_forward : forall s a l p, forward instant (tls_over_onion s a l p);
}.

(** ** Rendezvous *)

Inductive Role := Dialer | Accepter.

#[export] Instance Role_eq_dec : EqDecision Role.
Proof. solve_decision. Defined.

Section roles.
Context `{Blake3}.

(** [role_for], on the identifiers of the two pinned bundles. *)
Definition role_for (local : LocalBundle) (peer : Ticket.t) : Role :=
  if bytes_lt (bundle_id (local_bundle local)) (ticket_id peer) then Dialer else Accepter.

Definition side_of (r : Role) : Side := match r with Dialer => Initiator | Accepter => Responder end.
End roles.

Section rendezvous.
Context `{Blake3} `{SignatureLib} {W Sess : Type} `{Transport W Sess} `{SecureSession Sess} `{Exporter Sess}.

(** The inner loop of [dial_loop]: every hint once, up to the deadline. *)
Fixpoint dial_round (hints : list SocketAddr) (peer : PeerPublicKey) (deadline : Z) (w : W)
    : option (result Sess) * W :=
  match hints with
  | [] => (None, w)
  | h :: hints =>
      match attempt_connect h w with
      | (Some c, w) => let (r, w) := client_session c peer w in (Some r, w)
      | (None, w) => if deadline <=? instant w then (None, w) else dial_round hints peer deadline w
      end
  end.

(** [dial_loop]; running out of [fuel] is a panic. *)
Fixpoint dial_loop (fuel : nat) (hints : list SocketAddr) (peer : PeerPublicKey) (deadline : Z)
    : M Error.t W Sess := fun w =>
  match fuel with
  | O => (Panic, w)
  | S fuel =>
      if instant w <? deadline then
        match dial_round hints peer deadline w with
        | (Some r, w) => (r, w)
        | (None, w) => dial_loop fuel hints peer deadline (sleep RETRY_INTERVAL w)
        end
      else (Err (Error.Connect "rendezvous timed out while dialling"), w)
  end.

(** [accept_loop]. *)
Fixpoint accept_loop (fuel : nat) (hints : list SocketAddr) (peer : PeerPublicKey) (deadline : Z)
    : M Error.t W Sess := fun w =>
  match fuel with
  | O => (Panic, w)
  | S fuel =>
      let remaining := Z.max 0 (deadline - instant w) in
      if remaining =? 0 then (Err (Error.Connect "rendezvous timed out waiting for the peer"), w) else
      match await_peer hints remaining w with
      | (EndpointClosed, w) => (Err (Error.Connect "endpoint closed while awaiting the peer"), w)
      | (Arrived c, w) => server_session c peer w
      | (_, w) => accept_loop fuel hints peer deadline w
      end
  end.

(** The post-quantum proof over a session just established. *)
Definition authenticated (local : LocalBundle) (peer : IdentityBundle) (side : Side) (s : Sess)
    : result Sess :=
  match authenticate local peer side s with
  | (Ok _, s) => Ok s
  | (Err e, _) => Err e
  | (Panic, _) => Panic
  end.

(** [rendezvous_on]. *)
Definition rendezvous_on (fuel : nat) (ticket : Ticket.t) (local : LocalBundle) (timeout : Z)
    : M Error.t W Sess :=
  let! _ := with_state (fun w => check_valid (wall_clock w) ticket) in
  if decide (bundle_id (local_bundle local) = ticket_id ticket)
  then fails (Error.Connect "this ticket is our own identity") else
  let hints := direct_hints ticket in
  if bool_decide (hints = []) then
    (if negb (bool_decide (onion_hints ticket = []))
     then fails (Error.Connect "this ticket offers only onion addresses")
     else fails (Error.Connect "ticket carries no address hints"))
  else
  let peer := classical (identity ticket) in
  let role := role_for local ticket in
  let! deadline := gets (fun w => instant w + timeout) in
  let! session :=
    match role with
    | Dialer => dial_loop fuel hints peer deadline
    | Accepter => accept_loop fuel hints peer deadline
    end in
  lift (authenticated local (identity ticket) (side_of role) session).

(** [tor::dial]. *)
Definition tor_dial (socks : SocketAddr) (ticket : Ticket.t) (local : LocalBundle) : M Error.t W Sess :=
  let! _ := with_state (fun w => check_valid (wall_clock w) ticket) in
  let! addr := lift (ok_or (head (onion_hints ticket)) (Error.Connect "this ticket carries no onion address")) in
  let! session := tls_over_onion socks addr (local_classical local) (classical (identity ticket)) in
  lift (authenticated local (identity ticket) Initiator session).
End rendezvous.

(** ** What is remembered of a peer *)

Record PeerState := {
  p_identity : IdentityBundle;
  p_rendezvous : bytes;
  last_known : list Endpoint;
  newest_seen : option Z;
}.

Definition PeerState_new (i : IdentityBundle) (rdv : bytes) : PeerState :=
  {| p_identity := i; p_rendezvous := rdv; last_known := []; newest_seen := None |}.

Definition PeerState_from_ticket (x : Ticket.t) (rdv : bytes) : PeerState :=
  {| p_identity := identity x; p_rendezvous := rdv; last_known := hints x; newest_seen := None |}.

(** [PeerState::absorb]. *)
Definition absorb (r : AddressRecord) (p : PeerState) : PeerState :=
  {| p_identity := p_identity p; p_rendezvous := p_rendezvous p;
     last_known := r_hints r; newest_seen := Some (seq_no r) |}.

(** [PeerState::ticket]. *)
Definition peer_ticket (clock : option Z) (p : PeerState) (h : list Endpoint) : result Ticket.t :=
  ticket_new clock (p_identity p) h.

Inductive Path := Cached | Discovered | OverTor.

#[export] Instance Path_eq_dec : EqDecision Path.
Proof. solve_decision. Defined.

Record Options := { timeout : Z; socks : option SocketAddr; use_discovery : bool }.

Definition is_direct (e : Endpoint) : bool := match e with Direct _ => true | Onion _ => false end.
Definition direct_only (h : list Endpoint) : list Endpoint := filter (fun e => is_direct e = true) h.
Definition onion_only (h : list Endpoint) : list Endpoint := filter (fun e => is_direct e = false) h.

Definition remaining (deadline now : Z) : Z := Z.max 0 (deadline - now).
Definition budget_for_cache (time_left : Z) : Z := Z.min (time_left / 2) CACHED_ATTEMPT_MAX.

(** ** The ladder *)

Section ladder.
Context `{UnicodeCase} `{Aead} `{Blake3} `{SignatureLib}.
Context {W Sess : Type} `{Transport W Sess} `{SecureSession Sess} `{Exporter Sess}.

(** The caller's peer record, and the machine. *)
Record Reaching := { peer : PeerState; net : W }.

Definition on_net {A} (m : M Error.t W A) : M Error.t Reaching A := fun s =>
  let (r, w) := m (net s) in (r, {| peer := peer s; net := w |}).

(** A rung: its errors are noted, and the ladder goes on. *)
Definition tried {A} (m : M Error.t Reaching A) : M Error.t Reaching (option A) := fun s =>
  match m s with
  | (Ok a, s) => (Ok (Some a), s)
  | (Err _, s) => (Ok None, s)
  | (Panic, s) => (Panic, s)
  end.

(** [announce]. *)
Definition announce (local : LocalBundle) (p : PeerState) (subs : list (Substrate W)) (h : list Endpoint)
    (millis : option Z) (g : rng) : M Error.t W PublishReport :=
  let! now := with_state (fun w => Slots.now_secs (wall_clock w)) in
  let! record := lift (record_new h now millis) in
  let! clock := gets wall_clock in
  publish subs clock (p_rendezvous p) (bundle_id (local_bundle local)) (bundle_id (p_identity p)) record g.

Section connect.
Context (fuel : nat) (local : LocalBundle) (subs : list (Substrate W)) (opts : Options) (g : rng).

(** Meeting the peer at some of its addresses; the ticket's own errors end the
    ladder, a failed meeting does not. *)
Definition meet (h : list Endpoint) (budget : Z -> Z) : M Error.t Reaching (option Sess) :=
  let! ticket := with_state (fun s => peer_ticket (wall_clock (net s)) (peer s) h) in
  let! time_left := gets (fun s => budget (instant (net s))) in
  tried (on_net (rendezvous_on fuel ticket local time_left)).

Definition rung_cached (deadline : Z) : M Error.t Reaching (option Sess) :=
  let! cached := gets (fun s => direct_only (last_known (peer s))) in
  if bool_decide (cached = []) then mret None else
  let! budget := gets (fun s => budget_for_cache (remaining deadline (instant (net s)))) in
  meet cached (fun _ => budget).

Definition rung_discovered (deadline : Z) : M Error.t Reaching (option Sess) :=
  let! time_left := gets (fun s => remaining deadline (instant (net s))) in
  if negb (use_discovery opts && negb (bool_decide (length subs = 0%nat)) && negb (time_left =? 0))
  then mret None else
  let! p := gets peer in
  let! clock := gets (fun s => wall_clock (net s)) in
  let! found := tried (on_net (resolve subs clock (p_rendezvous p) (bundle_id (local_bundle local))
                                 (bundle_id (p_identity p)) (newest_seen p) g)) in
  match found with
  | None => mret None
  | Some record =>
      let! _ := modify (fun s => {| peer := absorb record (peer s); net := net s |}) in
      let direct := record_direct_hints record in
      let! time_left := gets (fun s => remaining deadline (instant (net s))) in
      if bool_decide (direct = []) || (time_left =? 0) then mret None else
      meet (map Direct direct) (remaining deadline)
  end.

Definition rung_onion : M Error.t Reaching (option Sess) :=
  let! onions := gets (fun s => onion_only (last_known (peer s))) in
  match socks opts with
  | Some proxy =>
      if bool_decide (onions = []) then mret None else
      let! ticket := with_state (fun s => peer_ticket (wall_clock (net s)) (peer s) onions) in
      tried (on_net (tor_dial proxy ticket local))
  | None => mret None
  end.

(** [connect]. *)
Definition connect (bind : SocketAddr) : M Error.t Reaching (Sess * Path) :=
  let! identity := gets (fun s => p_identity (peer s)) in
  if decide (bundle_id (local_bundle local) = bundle_id identity)
  then fails (Error.Connect "this peer record is our own identity") else
  let! deadline := gets (fun s => instant (net s) + timeout opts) in
  let! _ := on_net (bind_endpoint bind (local_classical local) (classical identity)) in
  let! cached := rung_cached deadline in
  match cached with
  | Some session => mret (session, Cached)
  | None =>
      let! discovered := rung_discovered deadline in
      match discovered with
      | Some session => mret (session, Discovered)
      | None =>
          let! _ := modify (fun s => {| peer := peer s; net := close_endpoint (net s) |}) in
          let! onion := rung_onion in
          match onion with
          | Some session => mret (session, OverTor)
          | None => fails (Error.Connect "could not reach this peer")
          end
      end
  end.
End connect.
End ladder.
Arguments Reaching W : clear implicits.

(** ** Lemmas: a rendezvous ends *)

Lemma check_valid_no_panic c x : check_valid c x <> Panic.
Proof. unfold check_valid. apply obind_no_panic; [apply ok_or_no_panic|intros now _]. by destruct (is_expired_at x now). Qed.

Lemma ticket_new_no_panic c i h : ticket_new c i h <> Panic.
Proof. unfold ticket_new. apply obind_no_panic; [apply ok_or_no_panic|done]. Qed.

(** A session whose operations do not panic. *)
Class SessionTotal (Sess : Type) `{SecureSession Sess} `{Exporter Sess} := {
  send_total : forall m, total (session_send (S := Sess) m);
  recv_total : total (session_recv (S := Sess));
  export_total : forall n l c (s : Sess), export_keying_material n l c s <> Panic;
}.

Section ends.
Context `{Blake3} `{SignatureLib} {W Sess : Type} `{T : Transport W Sess} `{SecureSession Sess} `{Exporter Sess}.
Context `{!TransportLaws T} `{!SessionTotal Sess}.

Lemma dial_round_clock hints p deadline w :
  let (r, w') := dial_round hints p deadline w in r <> Some Panic /\ instant w <= instant w'.
Proof.
  revert w. induction hints as [|h hints IH]; intros w; cbn [dial_round]; [split; [done|lia]|].
  pose proof (connect_clock h w) as Hc. destruct (attempt_connect h w) as [[c|] w1]; cbn [snd] in Hc.
  - pose proof (client_forward c p w1) as [Hp Hw]. destruct (client_session c p w1) as [r w2].
    cbn [fst snd] in *. split; [by intros [= ->]|lia].
  - destruct (deadline <=? instant w1); [by split|]. specialize (IH w1).
    destruct (dial_round hints p deadline w1) as [r w']. destruct IH. split; [done|lia].
Qed.

(** Every round of dialling ends with a sleep of half a second, so a budget of
    [n] of them is over after [n + 1] rounds. *)
Lemma dial_loop_ends fuel hints p deadline w :
  deadline - instant w <= RETRY_INTERVAL * (Z.of_nat fuel - 1) -> (0 < fuel)%nat ->
  fst (dial_loop fuel hints p deadline w) <> Panic /\ instant w <= instant (snd (dial_loop fuel hints p deadline w)).
Proof.
  revert w. induction fuel as [|fuel IH]; intros w Hf Hp; [lia|]. cbn [dial_loop].
  destruct (instant w <? deadline) eqn:Hd; [|split; [done|cbn; lia]]. bools.
  pose proof (dial_round_clock hints p deadline w) as Hr.
  destruct (dial_round hints p deadline w) as [[r|] w1]; destruct Hr as [Hr Hw].
  { split; [intros Hn; cbn in Hn; by subst|done]. }
  pose proof (sleep_lasts RETRY_INTERVAL w1 ltac:(done)) as Hs. unfold RETRY_INTERVAL, second in *.
  change (1000000000 / 2) with 500000000 in *.
  destruct (IH (sleep 500000000 w1)) as [IH1 IH2]; [lia|lia|]. split; [done|lia].
Qed.

Lemma accept_loop_ends fuel hints p deadline w :
  deadline - instant w < Z.of_nat fuel -> (0 < fuel)%nat ->
  fst (accept_loop fuel hints p deadline w) <> Panic /\
  instant w <= instant (snd (accept_loop fuel hints p deadline w)).
Proof.
  revert w. induction fuel as [|fuel IH]; intros w Hf Hp; [lia|]. cbn [accept_loop].
  destruct (Z.max 0 (deadline - instant w) =? 0) eqn:Hz; [split; [done|cbn; lia]|]. bools.
  pose proof (await_clock hints (Z.max 0 (deadline - instant w)) w) as Hc.
  destruct (await_peer hints _ w) as [[| | |c|] w1]; cbn [snd] in Hc.
  2: by split; [|cbn; lia].
  3: { destruct (server_forward c p w1). split; [done|lia]. }
  all: destruct (IH w1) as [IH1 IH2]; [lia|lia|]; split; [done|lia].
Qed.

Lemma authenticate_total l p side : total (authenticate (S := Sess) l p side).
Proof.
  unfold authenticate. destruct (negb (is_hybrid p) && _); [apply total_ret|].
  apply total_bind; [apply total_with_state; intros s; apply export_total|intros e].
  apply total_bind.
  { destruct (is_hybrid (local_bundle l)); [|apply total_ret].
    apply total_bind; [|intros proof; apply send_total]. apply total_lift. unfold sign_pq.
    apply obind_no_panic; [apply ok_or_no_panic|intros k _].
    apply obind_no_panic; [apply ok_or_no_panic|intros u _]. apply ok_or_no_panic. }
  intros _. destruct (negb (is_hybrid p)) eqn:Hp; [apply total_ret|]. bools.
  apply total_bind; [apply recv_total|intros proof]. apply hybrid_pq in Hp as [k Hk]. rewrite Hk.
  apply total_bind; [by apply total_lift|intros k']. apply total_bind; [|intros _; apply total_ret].
  apply total_lift, map_err_no_panic. unfold pq_verify. by destruct (mldsa_verify _ _ _).
Qed.

Lemma authenticated_no_panic l p side s : authenticated l p side s <> Panic.
Proof.
  unfold authenticated. pose proof (authenticate_total l p side s) as Ht.
  by destruct (authenticate l p side s) as [[]].
Qed.

(** Fuel for a budget: one unit a nanosecond. *)
Definition enough (fuel : nat) (budget : Z) : Prop := budget < Z.of_nat fuel.

Lemma forward_bind {A B} (m : M Error.t W A) (f : A -> M Error.t W B) :
  forward instant m -> (forall a, forward instant (f a)) -> forward instant (mbind m f).
Proof.
  intros Hm Hf w. destruct (Hm w) as [Hp Hw]. unfold mbind.
  destruct (m w) as [[a|e|] w1]; cbn [fst snd] in *; [|by split|done].
  destruct (Hf a w1). split; [done|lia].
Qed.

Lemma forward_still {A} (f : W -> result A) : (forall w, f w <> Panic) -> forward instant (with_state f).
Proof. intros Hf w. cbn. split; [apply Hf|lia]. Qed.

Lemma forward_lift {A} (r : result A) : r <> Panic -> forward instant (lift (S := W) r).
Proof. intros Hr w. split; [done|apply Z.le_refl]. Qed.

Lemma rendezvous_on_forward fuel ticket l budget :
  enough fuel budget -> (0 < fuel)%nat -> forward instant (rendezvous_on fuel ticket l budget).
Proof.
  intros Hf Hp. unfold rendezvous_on.
  apply forward_bind; [apply forward_still; intros w; apply check_valid_no_panic|intros _].
  case_decide; [by apply forward_lift|]. case_bool_decide; [case_match; by apply forward_lift|].
  intros w. unfold mbind at 1 3, gets. set (deadline := instant w + budget).
  assert (Hloop : let r := match role_for l ticket with
    | Dialer => dial_loop fuel (direct_hints ticket) (classical (identity ticket)) deadline
    | Accepter => accept_loop fuel (direct_hints ticket) (classical (identity ticket)) deadline end w in
    fst r <> Panic /\ instant w <= instant (snd r)).
  { unfold enough in Hf. destruct (role_for l ticket); [apply dial_loop_ends|apply accept_loop_ends].
    all: unfold deadline, RETRY_INTERVAL, second; try change (1000000000 / 2) with 500000000; lia. }
  destruct (role_for l ticket); match type of Hloop with let r := ?m w in _ =>
    unfold mbind; destruct (m w) as [[s|e|] w1]; destruct Hloop; [|done|done] end.
  all: split; [apply authenticated_no_panic|done].
Qed.

Lemma tor_dial_forward proxy ticket l : forward instant (tor_dial (W := W) proxy ticket l).
Proof.
  unfold tor_dial. apply forward_bind; [apply forward_still; intros w; apply check_valid_no_panic|intros _].
  apply forward_bind; [apply forward_lift, ok_or_no_panic|intros a].
  apply forward_bind; [apply onion_forward|intros s]. apply forward_lift, authenticated_no_panic.
Qed.
End ends.

(** ** Lemmas: a session that is returned was authenticated *)

(** The session of a run of the proof against [identity], over some channel. *)
Definition proved_to `{Blake3} `{SignatureLib} {Sess} `{SecureSession Sess} `{Exporter Sess}
    (local : LocalBundle) (identity : IdentityBundle) (session : Sess) : Prop :=
  exists raw side answer, authenticate local identity side raw = (Ok answer, session) /\
    (is_hybrid identity = true -> answer = true).

Section proved.
Context `{Blake3} `{SignatureLib} {W Sess : Type} `{T : Transport W Sess} `{SecureSession Sess} `{Exporter Sess}.

Lemma authenticated_proved l i side raw s : authenticated l i side raw = Ok s -> proved_to l i s.
Proof.
  unfold authenticated. destruct (authenticate l i side raw) as [[b|e|] s'] eqn:Ha; [|done..].
  intros [= <-]. exists raw, side, b. split; [done|]. intros Hi. destruct b; [done|].
  apply authenticate_false in Ha. congruence.
Qed.

Lemma rendezvous_on_proved fuel ticket l budget w s w' :
  rendezvous_on fuel ticket l budget w = (Ok s, w') -> proved_to l (identity ticket) s.
Proof.
  unfold rendezvous_on. intros Hr. apply mbind_inv in Hr as (u & w1 & _ & Hr).
  case_decide; [done|]. case_bool_decide; [by case_match|].
  apply mbind_inv in Hr as (d & w2 & _ & Hr). apply mbind_inv in Hr as (raw & w3 & _ & Hr).
  unfold lift in Hr. injection Hr as Hr _. by eapply authenticated_proved.
Qed.

Lemma tor_dial_proved proxy ticket l w s w' :
  tor_dial proxy ticket l w = (Ok s, w') -> proved_to l (identity ticket) s.
Proof.
  unfold tor_dial. intros Hr. apply mbind_inv in Hr as (u & w1 & _ & Hr).
  apply mbind_inv in Hr as (a & w2 & _ & Hr). apply mbind_inv in Hr as (raw & w3 & _ & Hr).
  unfold lift in Hr. injection Hr as Hr _. by eapply authenticated_proved.
Qed.
End proved.

(** ** Lemmas: the ladder *)

Section ladder_lemmas.
Context `{UnicodeCase} `{!UnicodeCaseLaws _} `{Aead} `{!AeadLaws _} `{Blake3} `{SignatureLib}.
Context {W Sess : Type} `{T : Transport W Sess} `{SecureSession Sess} `{Exporter Sess}.

(** What a connection attempt may do to the record of a peer: nothing, or take in
    a record that was sealed for this pair and is newer than any before. *)
Definition learned (me : BundleId) (p p' : PeerState) : Prop :=
  p' = p \/
  exists now sl sealed record,
    sl ∈ lookup_slots (p_rendezvous p) (flip (publishing me (bundle_id (p_identity p)))) now /\
    open_record sealed sl now = Ok record /\ record_wf record /\
    (forall old, newest_seen p = Some old -> old < seq_no record) /\ p' = absorb record p.

Definition learns (me : BundleId) (s s' : Reaching W) : Prop := learned me (peer s) (peer s').

#[export] Instance learns_preorder me : PreOrder (learns me).
Proof.
  split; [by left|]. intros [p1 w1] [p2 w2] [p3 w3]. unfold learns. cbn [peer].
  intros [->|H12]; [done|]. intros [->|H23]; [by right|]. right.
  destruct H12 as (n1 & sl1 & b1 & r1 & _ & _ & _ & Hn1 & ->).
  destruct H23 as (n2 & sl2 & b2 & r2 & Hsl & Ho & Hwf & Hn2 & ->).
  exists n2, sl2, b2, r2. split_and!; [exact Hsl|done|done| |done].
  intros old Hold. specialize (Hn1 old Hold). specialize (Hn2 _ eq_refl). cbn in Hn2. lia.
Qed.

(** What leaves the record alone. *)
Definition same_peer (s s' : Reaching W) : Prop := peer s' = peer s.

#[export] Instance same_peer_preorder : PreOrder same_peer.
Proof. split; [done|]. unfold same_peer. intros ? ? ? -> ->. done. Qed.

Lemma same_peer_learns {A} me (m : M Error.t (Reaching W) A) : keeps same_peer m -> keeps (learns me) m.
Proof. intros Hm s. left. apply Hm. Qed.

Lemma same_peer_on_net {A} (m : M Error.t W A) : keeps same_peer (on_net m).
Proof. intros s. unfold on_net. by destruct (m (net s)). Qed.

Lemma same_peer_tried {A} (m : M Error.t (Reaching W) A) : keeps same_peer m -> keeps same_peer (tried m).
Proof. intros Hm s. specialize (Hm s). unfold tried. by destruct (m s) as [[] ?]. Qed.

Lemma tried_Some {A} (m : M Error.t (Reaching W) A) s a s' :
  tried m s = (Ok (Some a), s') -> m s = (Ok a, s').
Proof. unfold tried. destruct (m s) as [[] ?]; intros [=]; by subst. Qed.

Lemma on_net_Ok {A} (m : M Error.t W A) s a s' :
  on_net m s = (Ok a, s') -> m (net s) = (Ok a, net s') /\ peer s' = peer s.
Proof. unfold on_net. destruct (m (net s)). by intros [= -> <-]. Qed.

Context (fuel : nat) (local : LocalBundle) (subs : list (Substrate W)) (opts : Options) (g : rng).

Lemma same_peer_meet h budget : keeps same_peer (meet fuel local h budget).
Proof.
  unfold meet. apply keeps_bind; [apply _|apply keeps_with_state, _|intros t].
  apply keeps_bind; [apply _|apply keeps_gets, _|intros b]. apply same_peer_tried, same_peer_on_net.
Qed.

Lemma meet_Some h budget s session s' :
  meet fuel local h budget s = (Ok (Some session), s') ->
  proved_to local (p_identity (peer s)) session /\ peer s' = peer s.
Proof.
  intros Hm. split.
  2: { pose proof (same_peer_meet h budget s) as Hs. by rewrite Hm in Hs. }
  unfold meet in Hm. apply mbind_inv in Hm as (t & s1 & Ht & Hm).
  apply mbind_inv in Hm as (b & s2 & Hb & Hm). apply tried_Some, on_net_Ok in Hm as [Hm _].
  apply rendezvous_on_proved in Hm. unfold with_state in Ht. injection Ht as Ht <-.
  unfold peer_ticket, ticket_new in Ht. apply obind_Ok in Ht as (now & _ & Ht). by injection Ht as <-.
Qed.

Lemma rung_cached_spec deadline :
  keeps same_peer (rung_cached fuel local deadline) /\
  forall s session s', rung_cached fuel local deadline s = (Ok (Some session), s') ->
    proved_to local (p_identity (peer s)) session /\ direct_only (last_known (peer s)) <> [].
Proof.
  split.
  - unfold rung_cached. apply keeps_bind; [apply _|apply keeps_gets, _|intros c].
    case_bool_decide; [apply keeps_ret, _|].
    apply keeps_bind; [apply _|apply keeps_gets, _|intros b]. apply same_peer_meet.
  - intros s session s' Hr. unfold rung_cached, mbind at 1, gets at 1 in Hr.
    case_bool_decide as Hc; [done|]. unfold mbind, gets in Hr. by apply meet_Some in Hr as [? _].
Qed.

Lemma resolve_learned s record w' :
  resolve subs (wall_clock (net s)) (p_rendezvous (peer s)) (bundle_id (local_bundle local))
    (bundle_id (p_identity (peer s))) (newest_seen (peer s)) g (net s) = (Ok record, w') ->
  learned (bundle_id (local_bundle local)) (peer s) (absorb record (peer s)).
Proof.
  intros Hr. apply resolve_sound in Hr as (now & sl & b & _ & Hsl & Ho & Hwf & _ & Hn & _).
  right. exists now, sl, b, record. split_and!; try done. intros old Hold. by rewrite Hold in Hn.
Qed.

Lemma rung_discovered_spec deadline s :
  let (r, s') := rung_discovered fuel local subs opts g deadline s in
  learns (bundle_id (local_bundle local)) s s' /\
  forall session, r = Ok (Some session) ->
    proved_to local (p_identity (peer s)) session /\ use_discovery opts = true /\ subs <> [] /\
    exists record, peer s' = absorb record (peer s) /\ record_direct_hints record <> [].
Proof.
  unfold rung_discovered, mbind at 1, gets at 1.
  destruct (negb (use_discovery opts && _ && _)) eqn:Hgo; [split; [by left|done]|].
  apply negb_false_iff, andb_true_iff in Hgo as [[Hu Hn]%andb_true_iff _].
  unfold mbind at 1, gets at 1, mbind at 1, gets at 1, mbind at 1, tried at 1, on_net at 1.
  destruct (resolve _ _ _ _ _ _ _ (net s)) as [[record|e|] w1] eqn:Hres; [|by split; [left|]..].
  apply resolve_learned in Hres. unfold mbind at 1, modify, mbind at 1, gets. cbn [peer net].
  destruct (bool_decide (record_direct_hints record = []) || _) eqn:Hd; [by split|]. bools.
  match goal with |- let (_, _) := ?m ?st in _ =>
    pose proof (same_peer_meet (map Direct (record_direct_hints record)) (remaining deadline) st) as Hs;
    destruct (m st) as [r s'] eqn:Hm end.
  cbn [snd] in Hs. unfold same_peer in Hs. cbn [peer] in Hs.
  split; [unfold learns; by rewrite Hs|]. intros session ->. apply meet_Some in Hm as [Hp _]. cbn [peer absorb p_identity] in Hp.
  split_and!; [done|done| |by exists record].
  by destruct subs.
Qed.

Lemma rung_onion_spec :
  keeps same_peer (rung_onion local opts) /\
  forall s session s', rung_onion local opts s = (Ok (Some session), s') ->
    proved_to local (p_identity (peer s)) session /\ is_Some (socks opts) /\
    onion_only (last_known (peer s)) <> [].
Proof.
  split.
  - unfold rung_onion. apply keeps_bind; [apply _|apply keeps_gets, _|intros o].
    destruct (socks opts); [|apply keeps_ret, _]. case_bool_decide; [apply keeps_ret, _|].
    apply keeps_bind; [apply _|apply keeps_with_state, _|intros t]. apply same_peer_tried, same_peer_on_net.
  - intros s session s' Hr. unfold rung_onion, mbind at 1, gets in Hr.
    destruct (socks opts) as [proxy|]; [|done]. case_bool_decide as Ho; [done|].
    apply mbind_inv in Hr as (t & s1 & Ht & Hr). apply tried_Some, on_net_Ok in Hr as [Hr _].
    apply tor_dial_proved in Hr. split_and!; [|by eexists|done].
    unfold with_state in Ht. injection Ht as Ht <-.
    unfold peer_ticket, ticket_new in Ht. apply obind_Ok in Ht as (now & _ & Ht). by injection Ht as <-.
Qed.
End ladder_lemmas.

(** ** The ladder ends *)

Section ladder_ends.
Context `{UnicodeCase} `{!UnicodeCaseLaws _} `{Aead} `{!AeadLaws _} `{Blake3} `{SignatureLib}.
Context {W Sess : Type} `{T : Transport W Sess} `{SecureSession Sess} `{Exporter Sess}.
Context `{!TransportLaws T} `{!SessionTotal Sess}.

Definition clock_le (w w' : W) : Prop := instant w <= instant w'.
#[local] Instance clock_le_preorder : PreOrder clock_le.
Proof. split; [intros w; apply Z.le_refl|intros ? ? ?; apply Z.le_trans]. Qed.

(** A substrate the ladder can ask. *)
Definition responsive (s : Substrate W) : Prop := forall t, forward instant (sub_get s t).

Lemma responsive_steady subs : Forall responsive subs -> Forall steady subs.
Proof. intros Hs. eapply Forall_impl; [|exact Hs]. intros s Hr t w. apply Hr. Qed.

Lemma try_slots_clock s now seen slots best le :
  responsive s -> keeps clock_le (try_slots s now seen slots best le).
Proof.
  intros Hs. revert best le. induction slots as [|sl slots IH]; intros best le; cbn [try_slots].
  - apply keeps_ret, _.
  - apply keeps_bind; [apply _| |intros [b l]; apply IH]. intros w. unfold try_slot, clock_le.
    destruct (Hs (tag_hex sl) w) as [_ Hw]. destruct (sub_get s (tag_hex sl) w) as [[[x|]|e|] w1]; cbn in *; try done.
    destruct (open_record x sl now); try done. by repeat case_match.
Qed.

Lemma resolve_forward subs clock secret a b seen g :
  Forall responsive subs -> forward instant (resolve subs clock secret a b seen g).
Proof.
  intros Hs w. split; [by apply resolve_sound, responsive_steady|].
  unfold resolve. case_bool_decide; [apply Z.le_refl|].
  change (clock_le w (snd (mbind (lift (Slots.now_secs clock)) (fun now =>
    mbind (lift (shuffled subs g)) (fun '(order, _) =>
      resolve_loop order now seen (lookup_slots secret (flip (publishing a b)) now) "no substrate was reachable"%string)) w))).
  assert (Hl : forall (A : Type) (m : result A), keeps clock_le (lift m)) by (intros A m v; apply Z.le_refl).
  apply keeps_bind; [apply _|apply Hl|intros now]. intros w1. unfold mbind, lift.
  destruct (shuffled subs g) as [[order g']|e|] eqn:Hsh; [|apply Z.le_refl..].
  apply shuffled_perm in Hsh. rewrite <- Hsh in Hs. clear Hsh. revert w1.
  generalize "no substrate was reachable"%string. induction Hs as [|s order Hs _ IH]; intros le w1; cbn [resolve_loop].
  - apply Z.le_refl.
  - unfold mbind. pose proof (try_slots_clock s now seen (lookup_slots secret (flip (publishing a b)) now) None le Hs w1) as Hk.
    destruct (try_slots s _ _ _ _ _ w1) as [[[best l]|e|] w2]; cbn [snd] in Hk; [|done..].
    destruct best; [done|]. etrans; [exact Hk|apply IH].
Qed.

Context (fuel : nat) (local : LocalBundle) (subs : list (Substrate W)) (opts : Options) (g : rng).
Context (Hfuel : enough fuel (timeout opts)) (Hpos : (0 < fuel)%nat) (Hsubs : Forall responsive subs).

(** From [start] on. *)
Definition since (start : Z) (s : Reaching W) : Prop := start <= instant (net s).
Definition ends_since {A} (start : Z) (m : M Error.t (Reaching W) A) : Prop :=
  triple (since start) m (fun _ => since start) (fun _ => since start).

Lemma ends_bind {A B} start (m : M Error.t (Reaching W) A) (f : A -> M Error.t (Reaching W) B) :
  ends_since start m -> (forall a, ends_since start (f a)) -> ends_since start (mbind m f).
Proof. intros Hm Hf. by eapply triple_bind. Qed.

Lemma ends_ret {A} start (a : A) : ends_since start (mret a).
Proof. intros s Hs. exact Hs. Qed.

Lemma ends_gets {A} start (f : Reaching W -> A) : ends_since start (gets f).
Proof. intros s Hs. exact Hs. Qed.

Lemma ends_with_state {A} start (f : Reaching W -> result A) :
  (forall s, f s <> Panic) -> ends_since start (with_state f).
Proof. intros Hf s Hs. unfold with_state. specialize (Hf s). by destruct (f s). Qed.

Lemma ends_on_net {A} start (m : M Error.t W A) : forward instant m -> ends_since start (on_net m).
Proof.
  intros Hm s Hs. destruct (Hm (net s)) as [Hp Hw]. unfold on_net, since in *.
  destruct (m (net s)) as [[a|e|] w]; cbn in *; [lia|lia|done].
Qed.

Lemma ends_tried {A} start (m : M Error.t (Reaching W) A) : ends_since start m -> ends_since start (tried m).
Proof. intros Hm s Hs. specialize (Hm s Hs). unfold tried. by destruct (m s) as [[] ?]. Qed.

Lemma ends_meet start h (b : Z -> Z) :
  (forall now, start <= now -> b now <= Z.max 0 (timeout opts)) -> ends_since start (meet fuel local h b).
Proof.
  intros Hb. unfold meet. apply ends_bind; [apply ends_with_state; intros s; apply ticket_new_no_panic|intros t].
  intros s Hs. unfold mbind, gets. specialize (Hb _ Hs).
  apply (ends_tried start (on_net (rendezvous_on fuel t local (b (instant (net s)))))); [|exact Hs].
  apply ends_on_net, rendezvous_on_forward; [|done]. unfold enough in *. lia.
Qed.

Lemma ends_rung_cached start : ends_since start (rung_cached fuel local (start + timeout opts)).
Proof.
  unfold rung_cached. apply ends_bind; [apply ends_gets|intros c].
  case_bool_decide; [apply ends_ret|]. intros s Hs. unfold mbind at 1, gets.
  refine (ends_meet start c _ _ s Hs). intros now Hnow. unfold since, budget_for_cache, remaining in *.
  pose proof (Z.mul_div_le (Z.max 0 (start + timeout opts - instant (net s))) 2 ltac:(lia)). lia.
Qed.

Lemma ends_rung_discovered start :
  ends_since start (rung_discovered fuel local subs opts g (start + timeout opts)).
Proof.
  unfold rung_discovered. apply ends_bind; [apply ends_gets|intros l]. destruct (negb _); [apply ends_ret|].
  apply ends_bind; [apply ends_gets|intros p]. apply ends_bind; [apply ends_gets|intros clock].
  apply ends_bind; [by apply ends_tried, ends_on_net, resolve_forward|intros [record|]]; [|apply ends_ret].
  apply ends_bind; [by intros s Hs|intros _]. apply ends_bind; [apply ends_gets|intros l'].
  destruct (_ || _); [apply ends_ret|]. apply ends_meet. intros now Hnow. unfold remaining. lia.
Qed.

Lemma ends_rung_onion start : ends_since start (rung_onion local opts).
Proof.
  unfold rung_onion. apply ends_bind; [apply ends_gets|intros o].
  destruct (socks opts) as [proxy|]; [|apply ends_ret]. case_bool_decide; [apply ends_ret|].
  apply ends_bind; [apply ends_with_state; intros s; apply ticket_new_no_panic|intros t].
  apply ends_tried, ends_on_net, tor_dial_forward.
Qed.

Lemma connect_total bind : total (connect fuel local subs opts g bind).
Proof.
  intros s. unfold connect, mbind at 1, gets at 1. case_decide; [done|]. unfold mbind at 1, gets at 1.
  set (start := instant (net s)).
  assert (Hs : since start s) by apply Z.le_refl.
  match goal with |- fst (?m s) <> Panic => assert (Hm : ends_since start m) end.
  - apply ends_bind; [apply ends_on_net, bind_forward|intros _].
    apply ends_bind; [apply ends_rung_cached|intros [session|]]; [apply ends_ret|].
    apply ends_bind; [apply ends_rung_discovered|intros [session|]]; [apply ends_ret|].
    apply ends_bind.
    { intros s' Hs'. unfold modify, since in *. cbn [net]. pose proof (close_clock (net s')). lia. }
    intros _. apply ends_bind; [apply ends_rung_onion|intros [session|]]; [apply ends_ret|].
    intros s' Hs'. exact Hs'.
  - specialize (Hm s Hs). by destruct (mbind _ _ s) as [[] ?].
Qed.
End ladder_ends.

(** ** Theorems *)

Section theorems.
Context `{Blake3}.

Lemma roles_complement la lb tb ta :
  identity ta = local_bundle la -> identity tb = local_bundle lb ->
  bundle_id (local_bundle la) <> bundle_id (local_bundle lb) ->
  role_for la tb <> role_for lb ta /\ side_of (role_for la tb) = side_peer (side_of (role_for lb ta)).
Proof.
  intros Ha Hb Hab. unfold role_for, ticket_id. rewrite Ha, Hb.
  rewrite (bytes_lt_total _ _ Hab). by destruct (bytes_lt _ _).
Qed.

Context `{UnicodeCase} `{!UnicodeCaseLaws _} `{Aead} `{!AeadLaws _} `{SignatureLib}.
Context {W Sess : Type} `{T : Transport W Sess} `{SecureSession Sess} `{Exporter Sess}.

Lemma connect_spec fuel local subs opts g bind (s : Reaching W) :
  let (r, s') := connect (Sess := Sess) fuel local subs opts g bind s in
  learned (bundle_id (local_bundle local)) (peer s) (peer s') /\
  forall session path, r = Ok (session, path) ->
    bundle_id (local_bundle local) <> bundle_id (p_identity (peer s)) /\
    proved_to local (p_identity (peer s)) session /\
    match path with
    | Cached => peer s' = peer s /\ direct_only (last_known (peer s)) <> []
    | Discovered => use_discovery opts = true /\ subs <> [] /\
        exists record, peer s' = absorb record (peer s) /\ record_direct_hints record <> []
    | OverTor => is_Some (socks opts) /\ onion_only (last_known (peer s')) <> []
    end.
Proof.
  unfold connect, mbind at 1, gets at 1. case_decide as Hne; [by split; [left|]|].
  unfold mbind at 1, gets at 1. set (deadline := _ + timeout opts). unfold mbind at 1.
  pose proof (same_peer_on_net (bind_endpoint bind (local_classical local) (classical (p_identity (peer s)))) s) as Hb.
  destruct (on_net _ s) as [[u|e|] s1]; unfold same_peer in Hb; cbn [snd] in Hb; [|by split; [left|]..].
  unfold mbind at 1. destruct (rung_cached_spec (Sess := Sess) fuel local deadline) as [Hk1 Hs1].
  specialize (Hk1 s1). unfold same_peer in Hk1.
  destruct (rung_cached fuel local deadline s1) as [[[session|]|e|] s2] eqn:Hc; cbn [snd] in Hk1.
  1: { unfold mret. rewrite Hk1, Hb. split; [by left|]. intros ? ? [= <- <-]. apply Hs1 in Hc. rewrite Hb in Hc. by destruct Hc. }
  2, 3: split; [left; congruence|done].
  unfold mbind at 1.
  pose proof (rung_discovered_spec (Sess := Sess) fuel local subs opts g deadline s2) as Hd.
  destruct (rung_discovered fuel local subs opts g deadline s2) as [[[session|]|e|] s3];
    destruct Hd as [Hl Hd]; unfold learns in Hl; rewrite Hk1, Hb in *.
  1: { split; [done|]. intros ? ? [= <- <-]. destruct (Hd _ eq_refl) as (? & ? & ? & ?). by split_and!. }
  2, 3: by split.
  unfold mbind at 1, modify. unfold mbind at 1.
  destruct (rung_onion_spec (Sess := Sess) local opts) as [Hk3 Hs3].
  set (s4 := {| peer := peer s3; net := close_endpoint (net s3) |}). specialize (Hk3 s4).
  unfold same_peer in Hk3. cbn [peer s4] in Hk3.
  destruct (rung_onion local opts s4) as [[[session|]|e|] s5] eqn:Ho; cbn [snd] in Hk3.
  1: { unfold mret. rewrite Hk3. split; [done|]. intros ? ? [= <- <-]. apply Hs3 in Ho as (? & ? & ?). cbn [peer s4] in *.
       split_and!; [done| |done|done]. destruct Hl as [Hl|(n & sl & b & r & _ & _ & _ & _ & Hl)]; rewrite Hl in *; done. }
  all: unfold mret, fails; rewrite Hk3; by split.
Qed.

Lemma connect_cached fuel local subs opts g bind (s : Reaching W) w1 ticket (session : Sess) w2 :
  bundle_id (local_bundle local) <> bundle_id (p_identity (peer s)) ->
  direct_only (last_known (peer s)) <> [] ->
  bind_endpoint bind (local_classical local) (classical (p_identity (peer s))) (net s) = (Ok tt, w1) ->
  peer_ticket (wall_clock w1) (peer s) (direct_only (last_known (peer s))) = Ok ticket ->
  rendezvous_on fuel ticket local
    (budget_for_cache (remaining (instant (net s) + timeout opts) (instant w1))) w1 = (Ok session, w2) ->
  connect fuel local subs opts g bind s = (Ok (session, Cached), {| peer := peer s; net := w2 |}).
Proof.
  intros Hne Hd Hb Ht Hr. unfold connect, mbind at 1, gets at 1. rewrite decide_False by done.
  unfold mbind at 1, gets at 1, mbind at 1, on_net at 1. rewrite Hb.
  unfold mbind at 1, rung_cached, mbind at 1, gets at 1. cbn [peer net]. rewrite bool_decide_eq_false_2 by done.
  unfold mbind at 1, gets at 1, meet, mbind at 1, with_state. cbn [peer net]. rewrite Ht.
  unfold mbind at 1, gets at 1, tried, on_net. cbn [peer net]. by rewrite Hr.
Qed.

(** C32: Connecting to a peer trusts nothing it finds on the way, spends privacy
    last, and ends.  Over any network: (1) the record of the peer keeps its pinned
    identity and its secret whatever happens, and changes at most by taking in an
    address record that was sealed in a slot of this very pair and is newer than
    every one seen before, so the replay floor only rises; (2) a session that is
    returned has run the post-quantum proof against the pinned identity, and not a
    weaker one if that identity is hybrid, whichever rung reached it; it was
    reached through discovery only if discovery is on and configured, and through
    Tor only if a proxy is and the peer offers an onion address; (3) when the
    remembered address answers, that is all that happens: no substrate is asked and
    no onion dialled; (4) with clocks that go forward and substrates that answer, a
    budget of [timeout] nanoseconds is over after as many steps, and no step
    panics; (5) the two ends of a pair compute opposite roles, so one dials and one
    accepts, and they sign as opposite sides. *)
Theorem connect_pins_the_peer fuel local subs opts g bind (s : Reaching W) :
  let me := bundle_id (local_bundle local) in
  let pinned := p_identity (peer s) in
  (let (r, s') := connect (Sess := Sess) fuel local subs opts g bind s in
   learned me (peer s) (peer s') /\
   forall session path, r = Ok (session, path) ->
     me <> bundle_id pinned /\ proved_to local pinned session /\
     match path with
     | Cached => peer s' = peer s /\ direct_only (last_known (peer s)) <> []
     | Discovered => use_discovery opts = true /\ subs <> [] /\
         exists record, peer s' = absorb record (peer s) /\ record_direct_hints record <> []
     | OverTor => is_Some (socks opts) /\ onion_only (last_known (peer s')) <> []
     end) /\
  (forall w1 ticket session w2,
     me <> bundle_id pinned -> direct_only (last_known (peer s)) <> [] ->
     bind_endpoint bind (local_classical local) (classical pinned) (net s) = (Ok tt, w1) ->
     peer_ticket (wall_clock w1) (peer s) (direct_only (last_known (peer s))) = Ok ticket ->
     rendezvous_on fuel ticket local
       (budget_for_cache (remaining (instant (net s) + timeout opts) (instant w1))) w1 = (Ok session, w2) ->
     connect fuel local subs opts g bind s = (Ok (session, Cached), {| peer := peer s; net := w2 |})) /\
  (TransportLaws T -> SessionTotal Sess -> enough fuel (timeout opts) -> (0 < fuel)%nat ->
     Forall responsive subs -> fst (connect fuel local subs opts g bind s) <> Panic) /\
  (forall la lb tb ta, identity ta = local_bundle la -> identity tb = local_bundle lb ->
     bundle_id (local_bundle la) <> bundle_id (local_bundle lb) ->
     role_for la tb <> role_for lb ta /\ side_of (role_for la tb) = side_peer (side_of (role_for lb ta))).
Proof.
  intros me pinned. split_and!.
  - apply connect_spec.
  - intros w1 ticket session w2 Hne Hd Hb Ht Hr. by eapply connect_cached.
  - intros. by apply connect_total.
  - apply roles_complement.
Qed.
End theorems.

(** ** An example

    A machine with a clock on a network where dialling works, and two classical
    identities. *)
Module ToyNet.
Record World := { clock : Z }.
Definition tick (d : Z) (w : World) : World := {| clock := clock w + Z.max 1 d |}.
Definition fresh : Chan := {| inbox := []; outbox := [] |}.

#[export] Instance exporter : Exporter Chan := {| export_keying_material n _ _ _ := Ok (zrep n Byte.x07) |}.

#[export] Instance transport : Transport World Chan := {
  instant := clock;
  wall_clock w := Some 1700000000;
  sleep d w := tick d w;
  Conn := unit;
  bind_endpoint _ _ _ w := (Ok tt, w);
  close_endpoint w := w;
  attempt_connect _ w := (Some tt, tick 1 w);
  await_peer _ d w := (Arrived tt, tick 1 w);
  client_session _ _ w := (Ok fresh, w);
  server_session _ _ w := (Ok fresh, w);
  tls_over_onion _ _ _ _ w := (Err (Error.Connect "no proxy"), w);
}.

#[export] Instance transport_laws : TransportLaws transport.
Proof.
  split; cbn; try (intros; lia).
  all: intros; intros w; split; [done|cbn; lia].
Qed.

#[export] Instance session_total : SessionTotal Chan.
Proof.
  split.
  - intros m s. cbn. unfold chan_send. by destruct (MAX_FRAME_LEN <? zlen m).
  - intros s. cbn. unfold chan_recv. by destruct (inbox s).
  - done.
Qed.
End ToyNet.

Import Toy ToySig ToyNet.

Definition demo_me : LocalBundle := classical_only (local_classical (example_local Byte.x01)).
Definition demo_peer : PeerState :=
  {| p_identity := local_bundle (classical_only (local_classical (example_local Byte.x02)));
     p_rendezvous := zrep 32 Byte.x09;
     last_known := [Direct (SocketV4 [Byte.x0a; Byte.x00; Byte.x00; Byte.x02] 4433)]; newest_seen := Some 5 |}.
Definition demo_reaching : Reaching World := {| peer := demo_peer; net := {| clock := 0 |} |}.
Definition demo_options : Options := {| timeout := 100; socks := None; use_discovery := true |}.
Definition demo_bind : SocketAddr := SocketV4 (zrep 4 Byte.x00) 4433.

Lemma connect_pins_the_peer_witness :
  fst (connect 101 demo_me [] demo_options (rng_const Byte.x00) demo_bind demo_reaching) <> Panic /\
  exists w', connect 101 demo_me [] demo_options (rng_const Byte.x00) demo_bind demo_reaching
    = (Ok (fresh, Cached), {| peer := demo_peer; net := w' |}).
Proof.
  pose proof (connect_pins_the_peer (Sess := Chan) 101 demo_me [] demo_options (rng_const Byte.x00) demo_bind
    demo_reaching) as Hall. cbv zeta in Hall. destruct Hall as (_ & Hcached & Htotal & _). split.
  - apply Htotal; [apply _|apply _|vm_compute; reflexivity|lia|constructor].
  - eexists. eapply Hcached.
    + vm_compute. discriminate.
    + discriminate.
    + reflexivity.
    + vm_compute. reflexivity.
    + vm_compute. reflexivity.
Defined.
