(* ===== verification/Link.v ===== *)
(** * Server links

    [p2p-live/src/discovery/link.rs]: the one string that names a rendezvous
    endpoint and pins it. *)

From Stdlib Require Import Strings.Byte.
From stdpp Require Import strings.
From S2P Require Import Prelude Text Primitives LiveError Bundle Net Ticket.

Definition LINK_PREFIX : str := lit "atom-rdv-1:".
Definition FORMAT_VERSION : byte := Byte.x01.
Definition CHECKSUM_LEN : Z := 4.
Definition CHECKSUM_DOMAIN : bytes := lit "atom-live-rdv-link-checksum-v1".
Definition ONION_LABEL_BYTES : Z := 62.
Definition MAX_HOST_LEN : Z := 255.
Definition MAX_PREFIX_LEN : Z := 128.
Definition MAX_PINS : Z := 8.

(** [rustls_pki_types::ServerName::try_from(String)]: a DNS name or an IP literal.
    The code relies on it taking every v3 onion host, which is a DNS name of two
    short labels. *)
Class ServerNames := { server_name_ok : str -> bool }.
Class ServerNamesLaws (S : ServerNames) := {
  server_name_onion : forall h, onion_host h -> server_name_ok h = true;
}.

Inductive ServerKind := Rendezvous | Relay.

#[export] Instance ServerKind_eq_dec : EqDecision ServerKind.
Proof. solve_decision. Defined.

Definition kind_to_byte (k : ServerKind) : byte :=
  match k with Rendezvous => Byte.x01 | Relay => Byte.x02 end.

Definition kind_from_byte (b : byte) : result ServerKind :=
  if decide (b = Byte.x01) then Ok Rendezvous
  else if decide (b = Byte.x02) then Ok Relay
  else Err (Error.Discovery "unknown server kind").

Record ServerLink := {
  l_kind : ServerKind;
  l_host : str;
  l_port : Z;
  l_prefix : str;
  l_pins : list bytes;
  l_onion : option OnionAddress;
}.

(** [str::trim_matches('/')]: the character is one byte. *)
Definition is_slash (b : byte) : bool := bool_decide (b = Byte.x2f).
Definition trim_slashes (s : str) : str :=
  reverse (drop_while is_slash (reverse (drop_while is_slash s))).

Section link.
Context `{ServerNames}.

Definition validate (l : ServerLink) : result unit :=
  if (zlen (l_host l) =? 0) && bool_decide (l_onion l = None)
  then Err (Error.Discovery "a server link needs somewhere to connect") else
  if MAX_HOST_LEN <? zlen (l_host l) then Err (Error.Discovery "server host is too long") else
  if negb (zlen (l_host l) =? 0) && negb (server_name_ok (l_host l))
  then Err (Error.Discovery "not a usable host") else
  if MAX_PREFIX_LEN <? zlen (l_prefix l)
  then Err (Error.Discovery "server path prefix is too long") else
  if zlen (l_pins l) =? 0
  then Err (Error.Discovery "a server link must pin at least one certificate") else
  if MAX_PINS <? zlen (l_pins l)
  then Err (Error.Discovery "a server link may pin at most 8 certificates") else
  Ok tt.

Definition link_new (k : ServerKind) (h : str) (p : Z) (prefix : str) (pins : list bytes)
    (onion : option OnionAddress) : result ServerLink :=
  let link := {| l_kind := k; l_host := h; l_port := p; l_prefix := trim_slashes prefix;
                 l_pins := pins; l_onion := onion |} in
  let? _ := validate link in
  Ok link.

Definition label (l : ServerLink) : result str :=
  if negb (zlen (l_host l) =? 0) then Ok (l_host l ++ lit ":" ++ decimal (l_port l)) else
  match l_onion l with
  | Some o =>
      let? h := str_slice 0 8 (host o) in
      Ok (h ++ [Byte.xe2; Byte.x80; Byte.xa6] ++ lit "onion")
  | None => Ok (lit "server")
  end.

Definition is_onion_only (l : ServerLink) : bool :=
  (zlen (l_host l) =? 0) && negb (bool_decide (l_onion l = None)).

(** [to_bytes]; the three lengths are [as u8]. *)
Definition to_bytes (l : ServerLink) : bytes :=
  [FORMAT_VERSION] ++ [kind_to_byte (l_kind l)]
  ++ [match l_onion l with Some _ => Byte.x01 | None => Byte.x00 end]
  ++ be_bytes 1 (zlen (l_host l)) ++ l_host l ++ be_bytes 2 (l_port l)
  ++ be_bytes 1 (zlen (l_prefix l)) ++ l_prefix l
  ++ be_bytes 1 (zlen (l_pins l)) ++ concat (l_pins l)
  ++ match l_onion l with Some o => host o ++ be_bytes 2 (onion_port o) | None => [] end.

(** The loop that reads the pins. *)
Fixpoint read_pins (n : nat) (pins : list bytes) (r : Reader) : result (list bytes * Reader) :=
  match n with
  | O => Ok (pins, r)
  | S n => let? (pin, r) := take r 32 in read_pins n (pins ++ [pin]) r
  end.

Context `{UnicodeCase}.

Definition from_bytes (b : bytes) : result ServerLink :=
  let r := Reader_named b "server link" in
  let? (version, r) := read_u8 r in
  if decide (version <> FORMAT_VERSION)
  then Err (Error.Discovery "server link format version") else
  let? (k, r) := read_u8 r in
  let? kind := kind_from_byte k in
  let? (flag, r) := read_u8 r in
  let? has_onion := (if decide (flag = Byte.x00) then Ok false
                     else if decide (flag = Byte.x01) then Ok true
                     else Err (Error.Discovery "server link flag byte is not a boolean")) in
  let? (host_len, r) := read_u8 r in
  let? (h, r) := take r (b2z host_len) in
  let? h := ok_or (from_utf8 h) (Error.Discovery "server host is not valid UTF-8") in
  let? (port, r) := read_u16 r in
  let? (prefix_len, r) := read_u8 r in
  let? (prefix, r) := take r (b2z prefix_len) in
  let? prefix := ok_or (from_utf8 prefix)
                   (Error.Discovery "server path prefix is not valid UTF-8") in
  let? (pin_count, r) := read_u8 r in
  if MAX_PINS <? b2z pin_count
  then Err (Error.Discovery "server link pins more certificates than allowed") else
  let? (pins, r) := read_pins (Z.to_nat (b2z pin_count)) [] r in
  let? (onion, r) :=
    (if (has_onion : bool) then
       let? (lbl, r) := take r ONION_LABEL_BYTES in
       let? lbl := ok_or (from_utf8 lbl) (Error.Discovery "onion host is not valid UTF-8") in
       let? (onion_port, r) := read_u16 r in
       let? o := map_err (fun _ => Error.Discovery "server link has a bad onion")
                   (onion_new lbl onion_port) in
       Ok (Some o, r)
     else Ok (None, r)) in
  if negb (reader_is_empty r)
  then Err (Error.Discovery "trailing bytes after the server link") else
  let link := {| l_kind := kind; l_host := h; l_port := port; l_prefix := prefix;
                 l_pins := pins; l_onion := onion |} in
  let? _ := validate link in
  Ok link.

Context `{Blake3} `{Base32}.

Definition checksum (payload : bytes) : bytes :=
  ztake CHECKSUM_LEN
    (hasher_finalize (hasher_update (hasher_update hasher_new CHECKSUM_DOMAIN) payload)).

Definition to_text (l : ServerLink) : str :=
  let payload := to_bytes l in
  LINK_PREFIX ++ base32_lower (payload ++ checksum payload).

Definition from_text (text : str) : result ServerLink :=
  let lowered := to_lowercase (trim text) in
  let? body := ok_or (strip_prefix LINK_PREFIX lowered)
                 (Error.Discovery "a server link must start with its prefix") in
  let? decoded := ok_or (base32_parse body)
                    (Error.Discovery "server link is not valid base32") in
  if zlen decoded <=? CHECKSUM_LEN
  then Err (Error.Discovery "server link is too short to be valid") else
  let at_ := zlen decoded - CHECKSUM_LEN in
  let payload := ztake at_ decoded in
  let tail := zdrop at_ decoded in
  if decide (tail <> checksum payload)
  then Err (Error.Discovery "server link checksum does not match") else
  from_bytes payload.
End link.

(** What the fields of a [ServerLink] can hold (a [String], a [u16], 32-byte pins,
    a validated onion), and that it passes the validation. *)
Definition link_typed (l : ServerLink) : Prop :=
  utf8_valid (l_host l) = true /\ is_u16 (l_port l) /\ utf8_valid (l_prefix l) = true /\
  Forall (fun p => zlen p = 32) (l_pins l) /\
  match l_onion l with Some o => onion_wf o | None => True end.
Definition link_wf `{ServerNames} (l : ServerLink) : Prop :=
  link_typed l /\ validate l = Ok tt.

(** ** Lemmas *)

Section lemmas.
Context `{ServerNames} `{UnicodeCase}.

(** The limits, and a place to connect. *)
Lemma is_empty_nil {A} (l : list A) `{!Decision (l = [])} : (zlen l =? 0) = bool_decide (l = []).
Proof.
  destruct l as [|x l]; [by rewrite bool_decide_true|].
  transitivity false; [apply Z.eqb_neq; zl|symmetry; by apply bool_decide_false].
Qed.

Lemma validate_Ok l :
  validate l = Ok tt <->
  (l_host l <> [] \/ l_onion l <> None) /\ zlen (l_host l) <= MAX_HOST_LEN /\
  (l_host l = [] \/ server_name_ok (l_host l) = true) /\ zlen (l_prefix l) <= MAX_PREFIX_LEN /\
  1 <= zlen (l_pins l) <= MAX_PINS.
Proof.
  unfold validate. rewrite !(is_empty_nil (l_host l)), (is_empty_nil (l_pins l)). pose proof (zlen_nonneg (l_pins l)).
  split.
  - intros Hv. destruct (bool_decide _ && _) eqn:E1; [done|].
    destruct (MAX_HOST_LEN <? _) eqn:E2; [done|]. destruct (negb _ && _) eqn:E3; [done|].
    destruct (MAX_PREFIX_LEN <? _) eqn:E4; [done|]. case_bool_decide as E5; [done|].
    destruct (MAX_PINS <? _) eqn:E6; [done|].
    apply Z.ltb_ge in E2, E4, E6. apply andb_false_iff in E1, E3. split_and!; try done.
    + destruct E1 as [E1|E1]; apply bool_decide_eq_false in E1; auto.
    + destruct E3 as [E3|E3]; apply negb_false_iff in E3; [left|by right].
      by apply bool_decide_eq_true in E3.
    + destruct (l_pins l); [done|]. zl.
  - intros (Hc & Hh & Hn & Hp & Hk). zdec.
    rewrite (bool_decide_false (l_pins l = [])) by (intros Hx; rewrite Hx, zlen_nil in Hk; lia).
    destruct (decide (l_host l = [])) as [Hd|Hd].
    + rewrite (bool_decide_true _ Hd), (bool_decide_false (l_onion l = None)) by (intros ?; by destruct Hc). done.
    + rewrite (bool_decide_false _ Hd). destruct Hn as [?| ->]; done.
Qed.

Lemma validate_no_panic l : validate l <> Panic.
Proof. unfold validate. repeat case_match; done. Qed.

Lemma read_pins_Ok n acc r l r' :
  live r -> Forall (fun p => zlen p = 32) acc -> read_pins n acc r = Ok (l, r') ->
  Forall (fun p => zlen p = 32) l /\ zlen l = zlen acc + Z.of_nat n /\ live r'.
Proof.
  revert acc r. induction n as [|n IH]; intros acc r Hr Ha; cbn [read_pins].
  { intros [= <- <-]. split_and!; [done|lia|done]. }
  intros Hp. ok_inv Hp. read_inv. apply IH in Hp as (? & Hlen & ?); [|done|by apply Forall_app; auto].
  rewrite zlen_app, zlen_cons, zlen_nil in Hlen. split_and!; [done|lia|done].
Qed.

Lemma read_pins_no_panic n acc r : live r -> read_pins n acc r <> Panic.
Proof.
  revert acc r. induction n as [|n IH]; intros acc r Hr; cbn [read_pins]; [done|].
  read_no_panic.
Qed.

Lemma read_pins_ahead l acc r k :
  Forall (fun p => zlen p = 32) l -> ahead r (concat l ++ k) ->
  exists r', read_pins (length l) acc r = Ok (acc ++ l, r') /\ ahead r' k.
Proof.
  intros Hl. revert acc r. induction Hl as [|p l Hp _ IH]; intros acc r Hr; simpl in *.
  { rewrite app_nil_r. by exists r. }
  rewrite <- app_assoc in Hr. reads Hr take_ahead.
  destruct (IH (acc ++ [p]) _ Hr) as (r2 & -> & Hr2). rewrite <- app_assoc. by exists r2.
Qed.

Lemma link_from_bytes_wf b l : from_bytes b = Ok l -> link_wf l.
Proof.
  unfold from_bytes. intros Hl. assert (live (Reader_named b "server link")) by done.
  ok_inv Hl; bools; simplify_eq; read_inv.
  all: repeat match goal with Hu : from_utf8 _ = Some _ |- _ => apply from_utf8_Some in Hu as [-> ?] end.
  all: match goal with Hp : read_pins _ _ _ = Ok _ |- _ =>
    apply read_pins_Ok in Hp as (? & ? & ?); [|done|by constructor] end; read_inv.
  all: match goal with u : unit |- _ => destruct u end.
  all: split; [|done]; split_and!; try done; simpl.
  by eapply onion_new_wf.
Qed.

Lemma take_byte_no_panic r b : live r -> take r (b2z b) <> Panic.
Proof. intros Hr. apply take_no_panic; [done|]. pose proof (b2z_range b). lia. Qed.

Lemma link_from_bytes_no_panic b : from_bytes b <> Panic.
Proof.
  unfold from_bytes. assert (live (Reader_named b "server link")) by done. read_no_panic.
  unfold kind_from_byte. apply obind_no_panic; [by repeat case_decide|intros ? _]. read_no_panic.
  apply obind_no_panic; [by repeat case_decide|intros ? _]. read_no_panic.
  do 2 (apply obind_no_panic; [by apply take_byte_no_panic|intros [? ?] ?; read_inv; cbv beta iota];
        read_no_panic).
  apply obind_no_panic; [by apply read_pins_no_panic|intros [? ?] Hp].
  apply read_pins_Ok in Hp as (_ & _ & ?); [|done|by constructor]. cbv beta iota.
  apply obind_no_panic.
  - destruct a0; read_no_panic. apply onion_new_no_panic.
  - intros [? ?] _. read_no_panic. apply obind_no_panic; [apply validate_no_panic|done].
Qed.

(** A validated link can be named: its onion host is long enough for the prefix. *)
Lemma label_total l : link_wf l -> exists nm, label l = Ok nm.
Proof.
  intros [(_ & _ & _ & _ & Ho) _]. unfold label. destruct (negb _); [by eexists|].
  destruct (l_onion l) as [o|]; [|by eexists]. destruct Ho as (Ho & _).
  apply onion_host_facts in Ho as (Hpl & _ & Hlen).
  rewrite str_slice_ascii; [|by apply plain_ascii|done|lia].
  destruct (slice 0 8 (host o)) eqn:Hs; [by eexists|]. apply slice_None in Hs. lia.
Qed.

Context `{!UnicodeCaseLaws _}.

Lemma link_to_bytes_length l : link_wf l -> zlen (to_bytes l) <= 1024.
Proof.
  intros [(_ & _ & _ & Hp & Ho) Hv]. apply validate_Ok in Hv as (_ & Hh & _ & Hpre & Hpins).
  assert (Hc : zlen (concat (l_pins l)) = 32 * zlen (l_pins l)).
  { clear -Hp. induction Hp as [|p k Hp _ IH]; [done|]. simpl. rewrite zlen_app, zlen_cons. lia. }
  unfold to_bytes, MAX_HOST_LEN, MAX_PREFIX_LEN, MAX_PINS in *.
  destruct (l_onion l) as [o|]; [|zl].
  destruct Ho as (Ho & _). apply onion_host_facts in Ho as (_ & _ & Ho). zl.
Qed.

Lemma link_decode_encode l : link_wf l -> from_bytes (to_bytes l) = Ok l.
Proof.
  intros Hwf. pose proof (link_to_bytes_length l Hwf) as Hlen.
  destruct Hwf as [(Hu & Hport & Hup & Hp & Ho) Hv].
  pose proof Hv as Hv'. apply validate_Ok in Hv' as (_ & Hh & _ & Hpre & Hpins).
  unfold MAX_HOST_LEN, MAX_PREFIX_LEN, MAX_PINS in *.
  assert (Hr : ahead (Reader_named (to_bytes l) "server link") (to_bytes l)).
  { apply ahead_start. unfold in_memory, u64_max. lia. }
  unfold to_bytes in Hr at 2. unfold from_bytes.
  destruct l as [k h p pre pins o]. cbn [l_kind l_host l_port l_prefix l_pins l_onion] in *.
  change ([?x] ++ ?r) with (x :: r) in Hr. change (be_bytes 1 ?z) with [z2b z] in Hr.
  set (b := to_bytes _) in *. clearbody b.
  reads Hr read_u8_ahead. rewrite decide_False by (intros []; done).
  reads Hr read_u8_ahead. replace (kind_from_byte (kind_to_byte k)) with (Ok (E := Error.t) k) by by destruct k.
  cbn [obind]. reads Hr read_u8_ahead.
  pose proof (zlen_nonneg h). pose proof (zlen_nonneg pre).
  set (flagged := if decide _ then _ else _).
  assert (Hf : flagged = Ok (match o with Some _ => true | None => false end)) by by destruct o.
  rewrite Hf. clear flagged Hf. cbn [obind].
  reads Hr read_u8_ahead. rewrite b2z_z2b, Z.mod_small by lia. reads Hr take_ahead.
  unfold from_utf8 at 1. rewrite Hu. cbn [ok_or obind].
  reads Hr read_u16_ahead. reads Hr read_u8_ahead. rewrite b2z_z2b, Z.mod_small by lia.
  reads Hr take_ahead. unfold from_utf8 at 1. rewrite Hup. cbn [ok_or obind].
  reads Hr read_u8_ahead. rewrite b2z_z2b, Z.mod_small by lia. unfold MAX_PINS. zdec.
  unfold zlen at 1. rewrite Nat2Z.id.
  destruct (read_pins_ahead pins [] _ _ Hp Hr) as (r' & -> & Hr'). cbn [obind app]. clear Hr.
  destruct o as [[oh op]|].
  - destruct Ho as (Hoh & Hop & Hop0). cbn [host onion_port] in *.
    destruct (onion_host_facts oh Hoh) as (Hpl & _ & Hol).
    assert (ONION_LABEL_BYTES = zlen oh) by (by rewrite Hol).
    reads Hr' take_ahead. rewrite from_utf8_ascii by (by apply plain_ascii). cbn [obind ok_or].
    rewrite <- (app_nil_r (be_bytes 2 op)) in Hr'. reads Hr' read_u16_ahead.
    rewrite onion_new_host by done. cbn [map_err obind]. rewrite ahead_empty by done. cbn [negb].
    by rewrite Hv.
  - cbn [obind]. rewrite ahead_empty by done. cbn [negb]. by rewrite Hv.
Qed.
End lemmas.

Lemma link_text_facts `{ServerNames} `{Blake3} `{Base32} `{!Base32Laws _} `{UnicodeCase}
    `{!UnicodeCaseLaws _} l : plain (to_text l).
Proof. apply (armor_facts LINK_PREFIX checksum); first [done|by repeat constructor]. Qed.

(** ** Theorems *)

Section theorems.
Context `{ServerNames} `{UnicodeCase} `{!UnicodeCaseLaws _} `{Blake3} `{!Blake3Laws _}
  `{Base32} `{!Base32Laws _}.

Lemma link_from_text_wf s l : from_text s = Ok l -> link_wf l.
Proof. intros Hl. apply dearmor_Ok in Hl as (body & p & _ & _ & Hf). by eapply link_from_bytes_wf. Qed.

Lemma link_from_text_no_panic s : from_text s <> Panic.
Proof. apply dearmor_no_panic, link_from_bytes_no_panic. Qed.

(** A server link survives its binary form and its pasteable text, whatever a
    clipboard did to its case and surrounding whitespace, and nothing that was not
    validated comes out of either: an accepted link always has somewhere to connect,
    a usable host of bounded length, between one and eight pins of 32 bytes and a
    validated onion; the constructor applies the same validation; and no input
    makes a decoder panic. *)
Theorem link_codec :
  (forall l, link_wf l -> from_bytes (to_bytes l) = Ok l) /\
  (forall l w1 s w2, link_wf l ->
     Forall (fun b => b ∈ ascii_whitespace) w1 -> Forall (fun b => b ∈ ascii_whitespace) w2 ->
     ascii s -> map ascii_lower s = to_text l -> from_text (w1 ++ s ++ w2) = Ok l) /\
  (forall s l, from_text s = Ok l -> link_wf l /\
     exists body p, to_lowercase (trim s) = LINK_PREFIX ++ body /\
       base32_parse body = Some (p ++ checksum p) /\ from_bytes p = Ok l) /\
  (forall l, link_wf l ->
     (l_host l <> [] \/ l_onion l <> None) /\ zlen (l_host l) <= 255 /\
     (l_host l = [] \/ server_name_ok (l_host l) = true) /\ zlen (l_prefix l) <= 128 /\
     1 <= zlen (l_pins l) <= 8 /\ Forall (fun p => zlen p = 32) (l_pins l)) /\
  (forall k h p pre pins o l, link_new k h p pre pins o = Ok l ->
     validate l = Ok tt /\ l_kind l = k /\ l_host l = h /\ l_port l = p /\
     l_prefix l = trim_slashes pre /\ l_pins l = pins /\ l_onion l = o) /\
  (forall s, from_text s <> Panic).
Proof.
  assert (Hck : forall p, zlen (checksum p) = CHECKSUM_LEN).
  { intros p. unfold checksum. pose proof (hasher_spec [CHECKSUM_DOMAIN; p]) as Hs. simpl in Hs.
    rewrite Hs, zlen_take, blake3_length. done. }
  split_and!.
  - apply link_decode_encode.
  - intros l w1 s w2 Hwf Hw1 Hw2 Hs Hlow. rewrite <- (link_decode_encode l Hwf).
    apply (dearmor_any LINK_PREFIX CHECKSUM_LEN checksum); first [done|by repeat constructor].
  - intros s l Hl. apply dearmor_Ok in Hl as (body & p & ? & ? & Hf). split; [|by eauto].
    by eapply link_from_bytes_wf.
  - intros l [(_ & _ & _ & Hp & _) Hv]. apply validate_Ok in Hv as (? & ? & ? & ? & ? & ?). by split_and!.
  - intros k h p pre pins o l Hl. unfold link_new in Hl. apply obind_Ok in Hl as ([] & Hv & [= <-]).
    by split_and!.
  - intros s. apply dearmor_no_panic, link_from_bytes_no_panic.
Qed.
End theorems.

(** *** Examples *)

Module ToyNames.
(** Non-empty ASCII letters, digits, dots and dashes. *)
Definition name_byte (b : byte) : bool :=
  in_range 97 122 b || in_range 48 57 b || in_range 45 46 b.
#[export] Instance names : ServerNames := { server_name_ok s := forallb name_byte s }.
#[export] Instance names_laws : ServerNamesLaws names.
Proof.
  split. intros h (l & -> & _ & Hl). simpl. apply forallb_Forall, Forall_app. split; [|by repeat constructor].
  eapply Forall_impl; [|exact Hl]. intros b. all_bytes b.
Qed.
End ToyNames.

Import Toy ToyNames.

Definition example_link : ServerLink :=
  {| l_kind := Rendezvous; l_host := lit "rdv.example.org"; l_port := 443; l_prefix := lit "atom";
     l_pins := [zrep 32 Byte.xaa; zrep 32 Byte.xbb]; l_onion := Some example_onion |}.

Lemma example_link_wf : link_wf example_link.
Proof.
  split; [|by vm_compute]. split_and!; try done; [by repeat constructor|].
  simpl. split_and!; [|done|done]. exists (zrep 56 Byte.x61). split_and!; [done|done|].
  apply forallb_Forall. by vm_compute.
Qed.

Lemma link_codec_witness :
  from_bytes (to_bytes example_link) = Ok example_link /\
  from_text ([Byte.x20] ++ map ascii_upper (to_text example_link) ++ [Byte.x0a]) = Ok example_link.
Proof.
  destruct link_codec as (Hb & Ht & _). split; [apply Hb, example_link_wf|]. apply Ht.
  - apply example_link_wf.
  - by repeat constructor; vm_compute.
  - by repeat constructor; vm_compute.
  - apply ascii_upper_ascii, plain_ascii. apply link_text_facts.
  - vm_compute; reflexivity.
Defined.
