(* ===== verification/Blind.v ===== *)
(** * Blind stores over HTTPS

    [p2p-live/src/discovery/blind.rs]: one self-hosted key-value store reached by a
    bounded HTTP/1.1 exchange over a connection pinned to a certificate. *)

From Stdlib Require Import Strings.Byte.
From stdpp Require Import strings.
From S2P Require Import Prelude Text Primitives LiveError StateM Framing Bundle Net Ticket.
From S2P Require Import AddressRecord Discovery Link.

Definition MAX_HEADER_BYTES : Z := 8 * 1024.
Definition MAX_BODY_BYTES : Z := SEALED_LEN * 2.

Record BlindEndpoint := {
  be_name : str;
  be_host : str;
  be_port : Z;
  be_prefix : str;
  be_pins : list bytes;
  be_via : option SocketAddr;
}.

Definition crlf : str := [Byte.x0d; Byte.x0a].

Section endpoint.
Context `{ServerNames}.

(** [BlindEndpoint::new]; the TLS configuration holds the pins and nothing else. *)
Definition endpoint_new (name h : str) (p : Z) (prefix : str) (pins : list bytes)
    : result BlindEndpoint :=
  if zlen h =? 0 then Err (Error.Discovery "endpoint host is empty") else
  if negb (server_name_ok h) then Err (Error.Discovery "not a usable host name") else
  if zlen pins =? 0
  then Err (Error.Discovery "a rendezvous endpoint must be pinned to a certificate") else
  Ok {| be_name := name; be_host := h; be_port := p; be_prefix := trim_slashes prefix;
        be_pins := pins; be_via := None |}.

Definition via_socks (e : BlindEndpoint) (proxy : SocketAddr) : BlindEndpoint :=
  {| be_name := be_name e; be_host := be_host e; be_port := be_port e;
     be_prefix := be_prefix e; be_pins := be_pins e; be_via := Some proxy |}.

Definition from_link (l : ServerLink) (socks : option SocketAddr) : result BlindEndpoint :=
  if negb (bool_decide (l_kind l = Rendezvous))
  then Err (Error.Discovery "this link names a different kind of server") else
  let? (h, p) := match l_onion l, socks with
                 | Some onion, Some _ => Ok (host onion, onion_port onion)
                 | _, _ =>
                     if is_onion_only l
                     then Err (Error.Discovery "this endpoint is reachable only over Tor")
                     else Ok (l_host l, l_port l)
                 end in
  let? name := label l in
  let? endpoint := endpoint_new name h p (l_prefix l) (l_pins l) in
  Ok match socks with Some proxy => via_socks endpoint proxy | None => endpoint end.
End endpoint.

(** ** The request *)

Definition path_for (e : BlindEndpoint) (tag : str) : str :=
  if zlen (be_prefix e) =? 0 then lit "/" ++ tag
  else lit "/" ++ be_prefix e ++ lit "/" ++ tag.

(** Everything [request] writes: the head, and the body of a [PUT]. *)
Definition request_bytes (e : BlindEndpoint) (method tag : str) (body : option (bytes * Z)) : bytes :=
  method ++ lit " " ++ path_for e tag ++ lit " HTTP/1.1" ++ crlf
  ++ lit "Host: " ++ be_host e ++ lit ":" ++ decimal (be_port e) ++ crlf
  ++ lit "Connection: close" ++ crlf
  ++ match body with
     | Some (b, ttl) =>
         lit "Content-Length: " ++ decimal (zlen b) ++ crlf
         ++ lit "Content-Type: application/octet-stream" ++ crlf
         ++ lit "X-Atom-Expire-Seconds: " ++ decimal ttl ++ crlf
     | None => lit "Accept: application/octet-stream" ++ crlf
     end
  ++ crlf
  ++ match body with Some (b, _) => b | None => [] end.

(** ** The response *)

Definition io_error : Error.t := Error.Io "read".

(** The loop over the headers: what was read, and where the blank line ends. *)
Fixpoint read_headers (fuel : nat) (buf : bytes) : M Error.t stream (bytes * Z) :=
  match fuel with
  | O => lift Panic
  | S fuel =>
      match find_from (crlf ++ crlf) buf 0 with
      | Some pos => mret (buf, pos + 4)
      | None =>
          if MAX_HEADER_BYTES <? zlen buf
          then fails (Error.Discovery "response headers exceeded the size limit") else
          let! b := read io_error 1024 in
          if zlen b =? 0
          then fails (Error.Discovery "the endpoint closed the connection before a complete response")
          else read_headers fuel (buf ++ b)
      end
  end.

(** One header line, on the length and the chunked flag found so far. *)
Definition header_line (line : str) (found : option Z * bool) : option Z * bool :=
  match split_once Byte.x3a line with
  | None => found
  | Some (name, value) =>
      let name := map ascii_lower (trim name) in
      if decide (name = lit "content-length") then (parse_uint u64_max (trim value), snd found)
      else if decide (name = lit "transfer-encoding") then
        if bool_decide (is_Some (find_from (lit "chunked") (map ascii_lower value) 0))
        then (fst found, true) else found
      else found
  end.

(** The status code, the declared length and the chunked flag. *)
Definition parse_headers (headers : str) : result (Z * option Z * bool) :=
  match split2 Byte.x0d Byte.x0a headers with
  | [] => Err (Error.Discovery "empty response")
  | status_line :: lines =>
      let? status := ok_or (s ← split_whitespace status_line !! 1%nat; parse_uint u16_max s)
                       (Error.Discovery "unintelligible status line") in
      let '(content_length, chunked) := foldl (fun f l => header_line l f) (None, false) lines in
      Ok (status, content_length, chunked)
  end.

(** The loop over the body. *)
Fixpoint read_body (fuel : nat) (len : Z) (body : bytes) : M Error.t stream bytes :=
  match fuel with
  | O => lift Panic
  | S fuel =>
      if len <=? zlen body then mret body else
      let! b := read io_error 1024 in
      if zlen b =? 0
      then fails (Error.Discovery "the endpoint closed the connection mid-body") else
      if MAX_BODY_BYTES <? zlen (body ++ b)
      then fails (Error.Discovery "response body exceeded the limit")
      else read_body fuel len (body ++ b)
  end.

(** [read_response].  Every turn of a loop reads a byte at least. *)
Definition read_response : M Error.t stream (Z * bytes) :=
  let! (buf, header_end) := read_headers (Z.to_nat (MAX_HEADER_BYTES + 2)) [] in
  let! h := lift (or_panic (slice 0 header_end buf)) in
  let! (status, content_length, chunked) := lift (parse_headers (from_utf8_lossy h)) in
  if (chunked : bool)
  then fails (Error.Discovery "the endpoint replied with chunked transfer encoding") else
  let body := zdrop header_end buf in
  match content_length with
  | Some len =>
      if MAX_BODY_BYTES <? len
      then fails (Error.Discovery "the endpoint declared a body past the limit") else
      let! body := read_body (S (Z.to_nat len)) len body in
      mret (status, ztake len body)
  | None =>
      if status =? 200
      then fails (Error.Discovery "the endpoint returned a body with no Content-Length")
      else mret (status, [])
  end.

(** ** The store, over any transport

    [transport e bytes]: dial (through the proxy when there is one), the pinned TLS
    handshake, writing [bytes] and flushing, all within the time limit: the stream
    of the answer, or an error. *)
Section substrate.
Context {N : Type} (transport : BlindEndpoint -> bytes -> M Error.t N stream).

Definition request (e : BlindEndpoint) (method tag : str) (body : option (bytes * Z))
    : M Error.t N (Z * bytes) :=
  let! s := transport e (request_bytes e method tag body) in
  lift (fst (read_response s)).

Definition endpoint_put (e : BlindEndpoint) (tag sealed : bytes) (ttl : Z) : M Error.t N unit :=
  let! (status, _) := request e (lit "PUT") tag (Some (sealed, ttl)) in
  if bool_decide (status ∈ [200; 201; 202; 204]) then mret tt
  else fails (Error.Discovery "refused the record").

Definition endpoint_get (e : BlindEndpoint) (tag : bytes) : M Error.t N (option bytes) :=
  let! (status, body) := request e (lit "GET") tag None in
  if status =? 200 then mret (Some body)
  else if bool_decide (status ∈ [204; 404; 410]) then mret None
  else fails (Error.Discovery "answered an HTTP error").

Definition substrate_of (name : string) (e : BlindEndpoint) : Substrate N :=
  {| sub_name := name; sub_put := endpoint_put e; sub_get := endpoint_get e |}.
End substrate.

(** ** Certificate pins *)

(** [PinnedCertVerifier::verify_server_cert]. *)
Definition verify_server_cert `{Sha256} (pins : list bytes) (end_entity : bytes) : bool :=
  bool_decide (sha256 end_entity ∈ pins).

(** The characters of a pin that are kept. *)
Definition pin_char (c : str) : bool := negb (bool_decide (c = lit ":")) && negb (is_whitespace c).

(** The loop of [parse_pin], over the remaining two-character slices. *)
Fixpoint parse_pin_loop (n : nat) (i : Z) (hex out : bytes) : result bytes :=
  match n with
  | O => Ok out
  | S n =>
      let? s := str_slice (i * 2) (i * 2 + 2) hex in
      let? b := ok_or (u8_from_hex s) (Error.Discovery "a certificate pin must be hexadecimal") in
      parse_pin_loop n (i + 1) hex (out ++ [z2b b])
  end.

Definition parse_pin (text : str) : result bytes :=
  let hex := concat (List.filter pin_char (chars text)) in
  if negb (zlen hex =? 64)
  then Err (Error.Discovery "a certificate pin is 32 hex bytes") else
  parse_pin_loop 32 0 hex [].

(** ** Specifications *)

(** What an exchange took off the stream. *)
Definition drew (n : Z) (s s' : stream) : Prop :=
  stream_wf s' /\ exists pre, stream_bytes s = pre ++ stream_bytes s' /\ zlen pre <= n.

(** A response with a declared length, as a store writes it. *)
Definition head_of (status : Z) (reason : str) (len : Z) : bytes :=
  lit "HTTP/1.1 " ++ decimal status ++ lit " " ++ reason ++ crlf
  ++ lit "Content-Length: " ++ decimal len ++ crlf ++ crlf.
Definition response (status : Z) (reason : str) (body : bytes) : bytes :=
  head_of status reason (zlen body) ++ body.

(** ** Lemmas: reading *)

Lemma drew_refl s n : stream_wf s -> 0 <= n -> drew n s s.
Proof. intros Hs Hn. split; [done|]. exists []. by rewrite zlen_nil. Qed.

Lemma drew_trans a b c s s' s'' : drew a s s' -> drew b s' s'' -> c = a + b -> drew c s s''.
Proof.
  intros [_ (p & Hp & Hpl)] [Hw (q & Hq & Hql)] ->. split; [done|].
  exists (p ++ q). rewrite Hp, Hq, app_assoc. split; [done|]. rewrite zlen_app. lia.
Qed.

Lemma drew_le a b s s' : drew a s s' -> a <= b -> drew b s s'.
Proof. intros [Hw (p & Hp & Hpl)] Hab. split; [done|]. exists p. split; [done|lia]. Qed.

Lemma read_drew {E} (e : E) s :
  stream_wf s ->
  (exists r, read e 1024 s = (r, s) /\ (r = Err e \/ r = Ok []) /\ stream_bytes s = []) \/
  exists b s', read e 1024 s = (Ok b, s') /\ 0 < zlen b <= 1024 /\ stream_wf s' /\
    stream_bytes s = b ++ stream_bytes s'.
Proof.
  intros Hs. destruct (read_spec e 1024 s Hs ltac:(lia)) as [[Hn Hr]|(b & s' & Hr & Hb & Hw & _ & Hc & _)].
  - left. eexists. split; [exact Hr|]. split; [destruct (broken s); auto|].
    unfold stream_bytes. by rewrite Hn.
  - right. by exists b, s'.
Qed.

Lemma read_headers_spec fuel buf s :
  stream_wf s -> zlen buf <= MAX_HEADER_BYTES + 1024 ->
  MAX_HEADER_BYTES + 1 - zlen buf < Z.of_nat fuel -> 0 < Z.of_nat fuel ->
  exists r s', read_headers fuel buf s = (r, s') /\ r <> Panic /\
    drew (MAX_HEADER_BYTES + 1024 - zlen buf) s s' /\
    forall buf' e, r = Ok (buf', e) -> exists pre, buf' = buf ++ pre /\
      stream_bytes s = pre ++ stream_bytes s' /\
      find_from (crlf ++ crlf) buf' 0 = Some (e - 4) /\ zlen buf' <= MAX_HEADER_BYTES + 1024.
Proof.
  revert buf s. induction fuel as [|fuel IH]; intros buf s Hs Hb Hf H0; [lia|]. cbn [read_headers].
  destruct (find_from _ buf 0) as [pos|] eqn:Hfind.
  { eexists _, _. split; [done|]. split_and!; [done|apply drew_refl; [done|lia]|].
    intros buf' e [= <- <-]. exists []. rewrite app_nil_r. split_and!; try done.
    rewrite Hfind. f_equal. lia. }
  destruct (MAX_HEADER_BYTES <? zlen buf) eqn:Hc; bools.
  { eexists _, _. split; [done|]. split_and!; [done|apply drew_refl; [done|lia]|done]. }
  destruct (read_drew io_error s Hs) as [(r & Hr & Hcase & _)|(b & s1 & Hr & Hlen & Hw & Hcat)].
  - exists (match r with Ok _ => Err (Error.Discovery "the endpoint closed the connection before a complete response")
            | _ => Err io_error end), s.
    unfold mbind. rewrite Hr. destruct Hcase as [-> | ->];
      (split; [done|]); (split_and!; [done|apply drew_refl; [done|lia]|done]).
  - erewrite mbind_Ok by exact Hr. zdec.
    destruct (IH (buf ++ b) s1) as (r & s2 & Hr2 & Hnp & Hd & Hok); [done|zl|rewrite zlen_app; lia|lia|].
    exists r, s2. rewrite Hr2. rewrite zlen_app in Hd. split_and!; [done|done| |].
    + eapply (drew_trans (zlen b)); [split; [done|by exists b]|exact Hd|lia].
    + intros buf' e He. destruct (Hok _ _ He) as (pre & -> & Hcat2 & ? & ?).
      exists (b ++ pre). rewrite <- !app_assoc in *. split_and!; try done. by rewrite Hcat, Hcat2.
Qed.

Lemma read_body_spec fuel len body s :
  stream_wf s -> len <= MAX_BODY_BYTES -> len - zlen body < Z.of_nat fuel -> 0 < Z.of_nat fuel ->
  exists r s', read_body fuel len body s = (r, s') /\ r <> Panic /\
    drew (Z.max 0 (MAX_BODY_BYTES + 1024 - zlen body)) s s' /\
    forall body', r = Ok body' -> len <= zlen body' /\
      exists pre, body' = body ++ pre /\ stream_bytes s = pre ++ stream_bytes s'.
Proof.
  revert body s. induction fuel as [|fuel IH]; intros body s Hs Hl Hf H0; [lia|]. cbn [read_body].
  destruct (len <=? zlen body) eqn:Hc; bools.
  { eexists _, _. split; [done|]. split_and!; [done|apply drew_refl; [done|lia]|].
    intros body' [= <-]. split; [done|]. exists []. by rewrite app_nil_r. }
  destruct (read_drew io_error s Hs) as [(r & Hr & Hcase & _)|(b & s1 & Hr & Hlen & Hw & Hcat)].
  - exists (match r with Ok _ => Err (Error.Discovery "the endpoint closed the connection mid-body")
            | _ => Err io_error end), s.
    unfold mbind. rewrite Hr. destruct Hcase as [-> | ->];
      (split; [done|]); (split_and!; [done|apply drew_refl; [done|lia]|done]).
  - erewrite mbind_Ok by exact Hr. zdec. rewrite zlen_app.
    assert (Hd1 : drew (zlen b) s s1) by (split; [done|by exists b]).
    destruct (MAX_BODY_BYTES <? zlen body + zlen b) eqn:Hm; bools.
    { eexists _, _. split; [done|]. split_and!; [done| |done]. eapply drew_le; [exact Hd1|lia]. }
    destruct (IH (body ++ b) s1) as (r & s2 & Hr2 & Hnp & Hd & Hok); [done|done|rewrite zlen_app; lia|lia|].
    exists r, s2. rewrite Hr2. rewrite zlen_app in Hd. split_and!; [done|done| |].
    + eapply (drew_trans (zlen b)); [exact Hd1|exact Hd|lia].
    + intros body' He. destruct (Hok _ He) as (? & pre & -> & Hcat2). split; [done|].
      exists (b ++ pre). rewrite <- app_assoc. split; [done|]. by rewrite Hcat, Hcat2, app_assoc.
Qed.

(** The declared length is a [usize], the status a [u16]. *)
Lemma parse_headers_Ok h st cl ch :
  parse_headers h = Ok (st, cl, ch) ->
  0 <= st <= u16_max /\ match cl with Some n => 0 <= n <= u64_max | None => True end.
Proof.
  unfold parse_headers. destruct (split2 _ _ h) as [|l ls]; [done|]. intros Hp.
  apply obind_Ok in Hp as (status & Hs & Hp). apply ok_or_Ok in Hs.
  destruct (split_whitespace l !! 1%nat) as [w|]; [|done]. apply parse_uint_range in Hs.
  destruct (foldl _ _ ls) as [n c] eqn:Hf. injection Hp as -> -> ->. split; [done|].
  assert (Hinv : forall ls f, match fst f with Some n => 0 <= n <= u64_max | None => True end ->
    match fst (foldl (fun f l => header_line l f) f ls) with
    | Some n => 0 <= n <= u64_max | None => True end).
  { clear. induction ls as [|l ls IH]; intros f Hf; [done|]. apply IH. unfold header_line.
    destruct (split_once _ l) as [[a v]|]; [|done]. repeat case_decide; simpl; try done.
    - destruct (parse_uint u64_max (trim v)) eqn:Hp; [|done]. by apply parse_uint_range in Hp.
    - by case_bool_decide. }
  specialize (Hinv ls (None, false) I). by rewrite Hf in Hinv.
Qed.

Lemma parse_headers_no_panic h : parse_headers h <> Panic.
Proof.
  unfold parse_headers. destruct (split2 _ _ h); [done|].
  apply obind_no_panic; [apply ok_or_no_panic|]. intros st _. by destruct (foldl _ _ _).
Qed.

Definition RESPONSE_BYTES : Z := MAX_HEADER_BYTES + 1024 + MAX_BODY_BYTES + 1024.

Lemma read_response_spec s :
  stream_wf s ->
  exists r s', read_response s = (r, s') /\ r <> Panic /\ drew RESPONSE_BYTES s s' /\
    forall status body, r = Ok (status, body) ->
      0 <= status <= u16_max /\ zlen body <= MAX_BODY_BYTES.
Proof.
  intros Hs. unfold read_response.
  destruct (read_headers_spec (Z.to_nat (MAX_HEADER_BYTES + 2)) [] s Hs) as (r & s1 & Hr & Hnp & Hd & Hok);
    [done|done|done|].
  assert (Hw1 : stream_wf s1) by apply Hd. rewrite zlen_nil in Hd.
  assert (Hd' : drew RESPONSE_BYTES s s1).
  { eapply drew_le; [exact Hd|]. by vm_compute. }
  destruct r as [[buf e]|err|]; [|erewrite mbind_Err by exact Hr; by eexists _, _|done].
  erewrite mbind_Ok by exact Hr. destruct (Hok _ _ eq_refl) as (pre & -> & _ & Hfind & Hbl).
  cbn [app] in *. clear Hok Hnp.
  apply find_from_at in Hfind as (a & rest & Hp & He). rewrite Z.add_0_l in He.
  assert (e = zlen (a ++ crlf ++ crlf)) as -> by (rewrite zlen_app; change (zlen (crlf ++ crlf)) with 4; lia).
  rewrite app_assoc in Hp.
  rewrite Hp, slice_prefix by done. unfold mbind at 1, lift at 1. cbn [or_panic].
  pose proof (parse_headers_no_panic (from_utf8_lossy (a ++ crlf ++ crlf))).
  destruct (parse_headers _) as [[[st cl] ch]|err|] eqn:Hh; [|by eexists _, _|done].
  apply parse_headers_Ok in Hh as [Hst Hcl]. unfold mbind at 1, lift at 1.
  destruct ch; [by eexists _, _|]. rewrite zdrop_app_l by done. destruct cl as [len|].
  2: { destruct (st =? 200); [by eexists _, _|]. eexists _, _. split; [done|]. split_and!; [done|done|].
       intros st' body [= <- <-]. split; [done|]. rewrite zlen_nil. by vm_compute. }
  destruct (MAX_BODY_BYTES <? len) eqn:Hm; bools; [by eexists _, _|].
  destruct (read_body_spec (S (Z.to_nat len)) len rest s1 Hw1) as (r & s2 & Hr2 & Hnp & Hd2 & Hok);
    [done|pose_zlens; lia|lia|].
  assert (Hd3 : drew RESPONSE_BYTES s s2).
  { eapply drew_trans; [exact Hd|eapply drew_le; [exact Hd2|]|].
    - instantiate (1 := MAX_BODY_BYTES + 1024). pose proof (zlen_nonneg rest).
      assert (0 <= MAX_BODY_BYTES) by by vm_compute. lia.
    - unfold RESPONSE_BYTES. lia. }
  destruct r as [body|err|]; [|erewrite mbind_Err by exact Hr2; by eexists _, _|done].
  erewrite mbind_Ok by exact Hr2. eexists _, _. split; [done|]. split_and!; [done|done|].
  intros st' body' [= <- <-]. split; [done|]. destruct (Hok _ eq_refl) as [Hle _]. zl.
Qed.

(** ** Lemmas: a well-behaved store's response *)

(** A line of a header: printable enough to stay one line. *)
Definition line_byte (b : byte) : bool := is_ascii b && negb (bool_decide (b = Byte.x0d)).
Definition line (l : str) : Prop := Forall (fun b => line_byte b = true) l.

Lemma line_byte_facts b : line_byte b = true -> is_ascii b = true /\ b <> Byte.x0d.
Proof. all_bytes b. Qed.

Lemma plain_line l : plain l -> line l.
Proof. intros Hl. eapply Forall_impl; [|exact Hl]. intros b. all_bytes b. Qed.

Lemma line_calm l : line l -> Forall (fun b => b <> Byte.x0d) l.
Proof. intros Hl. eapply Forall_impl; [|exact Hl]. intros b Hb. by apply line_byte_facts. Qed.

Lemma line_ascii l : line l -> ascii l.
Proof. intros Hl. eapply Forall_impl; [|exact Hl]. intros b Hb. by apply line_byte_facts. Qed.

Lemma line_app l k : line l -> line k -> line (l ++ k).
Proof. intros. by apply Forall_app. Qed.

(** A blank line after two non-empty lines is where it is. *)
Lemma find_blank l1 l2 k :
  line l1 -> line l2 -> l2 <> [] ->
  find_from (crlf ++ crlf) (l1 ++ crlf ++ l2 ++ crlf ++ crlf ++ k) 0 = Some (zlen (l1 ++ crlf ++ l2)).
Proof.
  intros H1 H2 Hne. change (crlf ++ crlf) with (Byte.x0d :: [Byte.x0a; Byte.x0d; Byte.x0a]) at 1.
  rewrite find_from_skip by (by apply line_calm).
  destruct l2 as [|c l2]; [done|]. pose proof (line_calm _ H2) as Hc.
  assert (Hstep : forall b h i, starts_with (crlf ++ crlf) (b :: h) = false ->
    find_from (crlf ++ crlf) (b :: h) i = find_from (crlf ++ crlf) h (i + 1)).
  { intros b h i Hs. cbn [find_from]. by rewrite Hs. }
  set (k1 := (c :: l2) ++ crlf ++ crlf ++ k).
  change (crlf ++ k1) with (Byte.x0d :: Byte.x0a :: k1).
  change (Byte.x0d :: [Byte.x0a; Byte.x0d; Byte.x0a]) with (crlf ++ crlf).
  rewrite Hstep.
  2: { unfold starts_with, k1. cbn -[decide is_Some bool_decide].
       rewrite !decide_True by done. rewrite decide_False by (apply Forall_inv in Hc; congruence).
       by apply bool_decide_false; intros []. }
  rewrite Hstep.
  2: { unfold starts_with. cbn -[decide is_Some bool_decide]. rewrite decide_False by done.
       by apply bool_decide_false; intros []. }
  unfold k1. change (crlf ++ crlf) with (Byte.x0d :: [Byte.x0a; Byte.x0d; Byte.x0a]) at 1.
  rewrite find_from_skip by done.
  change (crlf ++ crlf ++ k) with ((Byte.x0d :: [Byte.x0a; Byte.x0d; Byte.x0a]) ++ k).
  assert (Hend : forall n i, n <> [] -> find_from n (n ++ k) i = Some i).
  { intros n i Hn. pose proof (starts_with_app n k) as Hsw. destruct n as [|x n]; [done|].
    cbn [find_from app] in *. by rewrite Hsw. }
  rewrite Hend by done. f_equal. rewrite !zlen_app. change (zlen crlf) with 2. lia.
Qed.

(** Reading the headers of a known text, however it is segmented. *)
Lemma read_headers_known fuel buf s p :
  stream_wf s -> find_from (crlf ++ crlf) (buf ++ stream_bytes s) 0 = Some p ->
  p + 4 <= MAX_HEADER_BYTES -> p + 4 - zlen buf < Z.of_nat fuel -> 0 < Z.of_nat fuel ->
  exists buf' s', read_headers fuel buf s = (Ok (buf', p + 4), s') /\ stream_wf s' /\
    buf' ++ stream_bytes s' = buf ++ stream_bytes s /\ p + 4 <= zlen buf'.
Proof.
  revert buf s. induction fuel as [|fuel IH]; intros buf s Hs Hf Hp Hfuel H0; [lia|].
  cbn [read_headers].
  pose proof (find_from_front (crlf ++ crlf) buf (stream_bytes s) 0 p ltac:(done) Hf) as Hfr.
  change (zlen (crlf ++ crlf)) with 4 in Hfr. rewrite Hfr.
  destruct (p + 4 <=? 0 + zlen buf) eqn:Hc; bools.
  { eexists _, _. split; [done|]. split_and!; [done|done|lia]. }
  zdec. destruct (read_drew io_error s Hs) as [(r & Hr & _ & Hn)|(b & s1 & Hr & Hlen & Hw & Hcat)].
  - exfalso. rewrite Hn, app_nil_r in Hf. congruence.
  - erewrite mbind_Ok by exact Hr. zdec. rewrite Hcat, app_assoc in Hf.
    destruct (IH (buf ++ b) s1 Hw Hf Hp) as (buf' & s2 & -> & ? & Heq & ?); [rewrite zlen_app; lia|lia|].
    exists buf', s2. split_and!; try done. by rewrite Hcat, Heq, app_assoc.
Qed.

Lemma read_body_known fuel len body s :
  stream_wf s -> zlen (body ++ stream_bytes s) = len -> len <= MAX_BODY_BYTES ->
  len - zlen body < Z.of_nat fuel -> 0 < Z.of_nat fuel ->
  exists s', read_body fuel len body s = (Ok (body ++ stream_bytes s), s').
Proof.
  revert body s. induction fuel as [|fuel IH]; intros body s Hs Hl Hm Hf H0; [lia|]. cbn [read_body].
  rewrite zlen_app in Hl. pose proof (zlen_nonneg (stream_bytes s)).
  destruct (len <=? zlen body) eqn:Hc; bools.
  { rewrite (zlen_0_nil (stream_bytes s)) by lia. rewrite app_nil_r. by eexists. }
  destruct (read_drew io_error s Hs) as [(r & Hr & _ & Hn)|(b & s1 & Hr & Hlen & Hw & Hcat)].
  - rewrite Hn, zlen_nil in Hl. lia.
  - erewrite mbind_Ok by exact Hr. rewrite Hcat, zlen_app in Hl. pose proof (zlen_nonneg (stream_bytes s1)).
    rewrite zlen_app. zdec. rewrite Hcat.
    destruct (IH (body ++ b) s1 Hw) as (s2 & ->); [rewrite !zlen_app; lia|lia|rewrite zlen_app; lia|lia|].
    exists s2. by rewrite <- app_assoc.
Qed.

Lemma split_line l k : line l -> split2 Byte.x0d Byte.x0a (l ++ crlf ++ k) = l :: split2 Byte.x0d Byte.x0a k.
Proof. intros Hl. by apply split2_line, line_calm. Qed.

Lemma parse_head status reason len :
  0 <= status <= u16_max -> 0 <= len <= u64_max -> line reason ->
  parse_headers (head_of status reason len) = Ok (status, Some len, false).
Proof.
  intros Hst Hlen Hr. unfold u16_max, u64_max in *.
  pose proof (decimal_plain status ltac:(lia)) as Hps. pose proof (decimal_plain len ltac:(lia)) as Hpl.
  unfold parse_headers, head_of.
  replace (lit "HTTP/1.1 " ++ decimal status ++ lit " " ++ reason ++ crlf
           ++ lit "Content-Length: " ++ decimal len ++ crlf ++ crlf)
    with ((lit "HTTP/1.1 " ++ decimal status ++ lit " " ++ reason) ++ crlf
          ++ (lit "Content-Length: " ++ decimal len) ++ crlf ++ crlf) by (by rewrite <- !app_assoc).
  rewrite split_line.
  2: { repeat apply line_app; try done; [by repeat constructor| |by repeat constructor].
       by apply plain_line. }
  rewrite split_line.
  2: { apply line_app; [by repeat constructor|by apply plain_line]. }
  assert (Hw : split_whitespace (lit "HTTP/1.1 " ++ decimal status ++ lit " " ++ reason) !! 1%nat
               = Some (decimal status)).
  { unfold split_whitespace.
    rewrite chars_ascii by (by repeat constructor).
    rewrite chars_ascii by (by apply plain_ascii). rewrite chars_ascii by (by repeat constructor).
    change (map (fun b => [b]) (lit "HTTP/1.1 ") ++ ?k)
      with (map (fun b => [b]) (lit "HTTP/1.1") ++ [lit " "] ++ k).
    erewrite words_run; [|done|by repeat constructor]. cbn [app words].
    change (is_whitespace (lit " ")) with true. cbn match.
    rewrite bool_decide_false by done. cbn [app lookup list_lookup].
    erewrite words_run; [|done|done]. cbn [app map].
    change (map (fun b => [b]) (lit " ") ++ ?k) with (lit " " :: k). cbn [words].
    change (is_whitespace (lit " ")) with true. cbn match. 
    rewrite bool_decide_false by apply decimal_nonempty. done. }
  assert (Hp : parse_uint u16_max (decimal status) = Some status).
  { apply parse_uint_decimal; unfold u16_max; lia. }
  rewrite Hw. unfold base.mbind, option_bind. rewrite Hp. cbn [ok_or obind].
  change (split2 Byte.x0d Byte.x0a crlf) with [@nil byte; []].
  cbn [foldl]. 
  assert (Hh : header_line (lit "Content-Length: " ++ decimal len) (None, false) = (Some len, false)).
  { unfold header_line.
    change (lit "Content-Length: " ++ ?k) with (lit "Content-Length" ++ Byte.x3a :: (lit " " ++ k)).
    rewrite split_once_at by (by repeat constructor).
    rewrite decide_True by (by vm_compute). cbn [snd]. f_equal.
    pose proof (trim_surrounded (lit " ") [] (decimal len)) as Ht. rewrite app_nil_r in Ht.
    rewrite Ht; [|done|by repeat constructor; vm_compute|constructor].
    apply parse_uint_decimal; unfold u64_max; lia. }
  rewrite Hh. done.
Qed.

Lemma head_facts status reason len k :
  0 <= status -> 0 <= len -> line reason ->
  ascii (head_of status reason len) /\
  find_from (crlf ++ crlf) (head_of status reason len ++ k) 0 = Some (zlen (head_of status reason len) - 4).
Proof.
  intros Hst Hlen Hr. pose proof (decimal_plain status Hst) as Hps.
  pose proof (decimal_plain len Hlen) as Hpl.
  set (l1 := lit "HTTP/1.1 " ++ decimal status ++ lit " " ++ reason).
  set (l2 := lit "Content-Length: " ++ decimal len).
  assert (H1 : line l1).
  { unfold l1. repeat apply line_app; try done; [by repeat constructor| |by repeat constructor].
    by apply plain_line. }
  assert (H2 : line l2) by (apply line_app; [by repeat constructor|by apply plain_line]).
  assert (He : head_of status reason len = l1 ++ crlf ++ l2 ++ crlf ++ crlf).
  { unfold head_of, l1, l2. by rewrite <- !app_assoc. }
  rewrite He. split.
  - assert (ascii crlf) by by repeat constructor. clearbody l1 l2.
    rewrite !ascii_app. split_and!; try done; by apply line_ascii.
  - rewrite <- !app_assoc, find_blank by done. f_equal. rewrite !zlen_app.
    change (zlen crlf) with 2. lia.
Qed.

Lemma read_response_known status reason body s :
  stream_wf s -> stream_bytes s = response status reason body ->
  0 <= status <= u16_max -> line reason -> zlen body <= MAX_BODY_BYTES -> zlen reason <= 4096 ->
  fst (read_response s) = Ok (status, body).
Proof.
  intros Hs Hb Hst Hr Hlen Hrl. pose proof (zlen_nonneg body).
  destruct (head_facts status reason (zlen body) body ltac:(lia) ltac:(lia) Hr) as [Ha Hf].
  set (h := head_of status reason (zlen body)) in *.
  assert (Hhl : zlen h <= MAX_HEADER_BYTES /\ 4 <= zlen h).
  { unfold h, head_of. rewrite !zlen_app. change (zlen crlf) with 2.
    pose proof (decimal_length status). pose proof (decimal_length (zlen body)).
    change (zlen (lit "HTTP/1.1 ")) with 9. change (zlen (lit " ")) with 1.
    change (zlen (lit "Content-Length: ")) with 16. unfold MAX_HEADER_BYTES. pose_zlens. lia. }
  assert (Hmb : MAX_BODY_BYTES = 1360) by done.
  unfold read_response.
  destruct (read_headers_known (Z.to_nat (MAX_HEADER_BYTES + 2)) [] s (zlen h - 4) Hs)
    as (buf & s1 & Hrh & Hw1 & Hcat & Hbl).
  { cbn [app]. rewrite Hb. exact Hf. }
  { lia. } { rewrite zlen_nil. lia. } { done. }
  replace (zlen h - 4 + 4) with (zlen h) in * by lia.
  erewrite mbind_Ok by exact Hrh. cbn [app] in Hcat. rewrite Hb in Hcat.
  change (response status reason body) with (h ++ body) in Hcat.
  assert (Hbuf : exists rest, buf = h ++ rest /\ rest ++ stream_bytes s1 = body).
  { exists (zdrop (zlen h) buf). split.
    - rewrite <- (ztake_zdrop (zlen h) buf) at 1. f_equal.
      apply (f_equal (ztake (zlen h))) in Hcat. rewrite ztake_app_le in Hcat by done.
      by rewrite ztake_app_l in Hcat.
    - apply (f_equal (zdrop (zlen h))) in Hcat. rewrite zdrop_app_le in Hcat by done.
      by rewrite zdrop_app_l in Hcat. }
  destruct Hbuf as (rest & -> & Hrest).
  rewrite slice_prefix by done. unfold mbind at 1, lift at 1. cbn [or_panic].
  rewrite from_utf8_lossy_ascii by done. unfold h at 1.
  rewrite parse_head; [|done|unfold u64_max; lia|done]. unfold mbind at 1, lift at 1.
  zdec. rewrite zdrop_app_l by done.
  destruct (read_body_known (S (Z.to_nat (zlen body))) (zlen body) rest s1 Hw1) as (s2 & Hrb);
    [by rewrite Hrest|done|pose_zlens; lia|lia|].
  erewrite mbind_Ok by exact Hrb. rewrite Hrest. unfold mret. simpl. by rewrite ztake_all by lia.
Qed.

(** ** Lemmas: pins *)

Lemma hex_val_facts c d : hex_val c = Some d -> 0 <= d < 16 /\ c <> Byte.x2b /\ c <> Byte.x2d.
Proof.
  assert (Hall : forallb (fun c => match hex_val c with
    | Some d => (0 <=? d) && (d <? 16) && bool_decide (c <> Byte.x2b) && bool_decide (c <> Byte.x2d)
    | None => true end) [c] = true).
  { cbn [forallb]. rewrite andb_true_r. all_bytes c. }
  cbn [forallb] in Hall. intros Hv. rewrite Hv in Hall. by bools.
Qed.

Lemma u8_from_hex_pair a b x y :
  hex_val a = Some x -> hex_val b = Some y -> u8_from_hex [a; b] = Some (x * 16 + y).
Proof.
  intros Ha Hb. destruct (hex_val_facts a x Ha) as (? & ? & _). destruct (hex_val_facts b y Hb) as (? & _).
  unfold u8_from_hex. rewrite decide_False by done. cbn [hex_digits]. rewrite Ha.
  unfold base.mbind, option_bind. unfold u8_max. zdec. rewrite Hb. zdec. do 2 f_equal; lia.
Qed.

Lemma hex_val_lower b : hex_val (ascii_lower b) = hex_val b.
Proof. all_bytes b. Qed.

Lemma hex_byte_vals p a b :
  map ascii_lower [a; b] = hex_byte p -> u8_from_hex [a; b] = Some (b2z p).
Proof.
  unfold hex_byte. cbn [map]. intros [= Ha Hb]. pose proof (b2z_range p).
  pose proof (Z.div_mod (b2z p) 16 ltac:(lia)). pose proof (Z.mod_pos_bound (b2z p) 16 ltac:(lia)).
  assert (Hd : forall n, 0 <= n < 16 -> hex_val (hex_digit n) = Some n).
  { intros n Hn. assert (Hall : forallb (fun k => bool_decide (hex_val (hex_digit (Z.of_nat k))
      = Some (Z.of_nat k))) (seq 0 16) = true) by by vm_compute.
    apply forallb_Forall in Hall. rewrite list.Forall_forall in Hall.
    specialize (Hall (Z.to_nat n)). rewrite elem_of_seq, bool_decide_eq_true, Z2Nat.id in Hall by lia.
    apply Hall. lia. }
  rewrite (u8_from_hex_pair a b (b2z p / 16) (b2z p mod 16)).
  - f_equal. lia.
  - rewrite <- hex_val_lower, Ha. apply Hd. split; [apply Z.div_pos; lia|apply Z.div_lt_upper_bound; lia].
  - rewrite <- hex_val_lower, Hb. apply Hd. lia.
Qed.

Lemma parse_pin_loop_spec p pre l out :
  ascii (pre ++ l) -> map ascii_lower l = hex p ->
  parse_pin_loop (length p) (zlen out) (pre ++ l) out = Ok (out ++ p) \/ zlen pre <> 2 * zlen out.
Proof.
  revert pre l out. induction p as [|x p IH]; intros pre l out Ha Hl; cbn [length parse_pin_loop].
  { left. by rewrite app_nil_r. }
  destruct (decide (zlen pre = 2 * zlen out)) as [Hpre|]; [|by right]. left.
  destruct l as [|a [|b l]]; [done..|].
  assert (Hab : map ascii_lower [a; b] = hex_byte x /\ map ascii_lower l = hex p).
  { unfold hex in *. cbn [map concat] in *. unfold hex_byte in *. by injection Hl as -> -> ->. }
  destruct Hab as [Hab Hl'].
  change (a :: b :: l) with ([a; b] ++ l) in *. pose proof (zlen_nonneg out). pose proof (zlen_nonneg l).
  rewrite str_slice_ascii; [|done|lia|rewrite !zlen_app; change (zlen [a; b]) with 2; lia].
  rewrite (slice_app_mid _ _ pre [a; b] l) by (rewrite ?Hpre; change (zlen [a; b]) with 2; lia).
  cbn [or_panic obind]. rewrite (hex_byte_vals x) by done. cbn [ok_or obind]. rewrite z2b_b2z.
  rewrite app_assoc in Ha |- *.
  destruct (IH (pre ++ [a; b]) l (out ++ [x]) Ha Hl') as [IH'|Hne].
  - replace (zlen out + 1) with (zlen (out ++ [x])) by (rewrite zlen_app; done).
    by rewrite IH', <- app_assoc.
  - exfalso. apply Hne. rewrite !zlen_app. change (zlen [a; b]) with 2. change (zlen [x]) with 1. lia.
Qed.

Lemma parse_pin_loop_total n i h out :
  ascii h -> 0 <= i -> (i + Z.of_nat n) * 2 <= zlen h ->
  parse_pin_loop n i h out <> Panic /\
  forall p, parse_pin_loop n i h out = Ok p -> zlen p = zlen out + Z.of_nat n.
Proof.
  intros Ha. revert i out. induction n as [|n IH]; intros i out Hi Hl; cbn [parse_pin_loop].
  { split; [done|]. intros p [= <-]. lia. }
  rewrite str_slice_ascii by (done || lia).
  destruct (slice _ _ h) as [x|] eqn:Hs; [|apply slice_None in Hs; lia]. cbn [or_panic obind].
  destruct (u8_from_hex x) as [v|]; cbn [ok_or obind]; [|done].
  destruct (IH (i + 1) (out ++ [z2b v])) as [Hnp Hok]; [lia|lia|]. split; [done|].
  intros p Hp. apply Hok in Hp. rewrite zlen_app in Hp. change (zlen [z2b v]) with 1 in Hp. lia.
Qed.

Lemma pin_chars_ascii s : ascii s -> ascii (concat (List.filter pin_char (chars s))).
Proof.
  intros Ha. rewrite chars_ascii' by done. induction Ha as [|b s Hb _ IH]; [constructor|].
  cbn [map List.filter]. destruct (pin_char [b]); [|done]. by constructor.
Qed.

(** ** Theorems *)

Lemma from_link_no_panic `{ServerNames} l socks : link_wf l -> from_link l socks <> Panic.
Proof.
  intros Hl. unfold from_link. destruct (negb _); [done|]. destruct (label_total l Hl) as [nm Hn].
  apply obind_no_panic; [by destruct (l_onion l), socks; try destruct (is_onion_only l)|intros [h p] _].
  rewrite Hn. cbn [obind]. apply obind_no_panic; [|done].
  unfold endpoint_new. by repeat case_match.
Qed.

Section theorems.
Context {N : Type} (transport : BlindEndpoint -> bytes -> M Error.t N stream).

(** C39: Nothing an endpoint answers can exhaust memory or crash the client.  On
    every stream, reading a response ends without a panic, having taken at most
    [RESPONSE_BYTES] bytes off the connection whatever the outcome; what is
    accepted has a 16-bit status and a body of at most [MAX_BODY_BYTES]; so, over
    any transport that does not panic itself, an endpoint is a substrate discovery
    can rely on. *)
Theorem response_bounded :
  (forall s, stream_wf s -> exists r s', read_response s = (r, s') /\ r <> Panic /\
     drew RESPONSE_BYTES s s' /\
     forall status body, r = Ok (status, body) ->
       0 <= status <= u16_max /\ zlen body <= MAX_BODY_BYTES) /\
  ((forall e b n, fst (transport e b n) <> Panic /\
      forall s, fst (transport e b n) = Ok s -> stream_wf s) ->
   forall name e, steady (substrate_of transport name e)).
Proof.
  split; [apply read_response_spec|]. intros Ht name e t n. simpl.
  unfold endpoint_get, request, mbind. specialize (Ht e (request_bytes e (lit "GET") t None) n).
  destruct (transport _ _ n) as [[s|err|] n']; simpl in *; [|done|tauto].
  destruct (read_response_spec s) as (r & s' & Hr & Hnp & _); [by apply Ht|]. rewrite Hr. simpl.
  destruct r as [[st b]|err|]; [|done|done]. simpl.
  destruct (st =? 200); [done|]. by case_bool_decide.
Qed.

(** A store's answer is read back exactly.  However the network cuts it into
    segments, a response with any status, a one-line reason and a declared length
    gives that status and that body. *)
Theorem response_read_back status reason body s :
  stream_wf s -> stream_bytes s = response status reason body ->
  0 <= status <= u16_max -> line reason -> zlen reason <= 4096 -> zlen body <= MAX_BODY_BYTES ->
  fst (read_response s) = Ok (status, body).
Proof. intros. by eapply read_response_known. Qed.
End theorems.

(** A certificate pin is read as [openssl] prints it: any text of ASCII
    characters that is the pin's hexadecimal in either case, with colons and
    whitespace anywhere, gives the pin, and nothing read has another length than 32
    bytes; no ASCII text makes the parser panic.  But non-ASCII text of the right
    length does (a slice inside a character), and a signed pair such as [+f] is
    taken as a byte. *)
Theorem parse_pin_spec :
  (forall p text, zlen p = 32 -> ascii text ->
     map ascii_lower (concat (List.filter pin_char (chars text))) = hex p ->
     parse_pin text = Ok p) /\
  (forall text, ascii text -> parse_pin text <> Panic /\
     forall p, parse_pin text = Ok p -> zlen p = 32) /\
  (exists text, utf8_valid text = true /\ parse_pin text = Panic) /\
  parse_pin (concat (replicate 32 (lit "+f"))) = Ok (zrep 32 Byte.x0f).
Proof.
  split_and!.
  - intros p text Hp Ha Hh. unfold parse_pin. pose proof (pin_chars_ascii text Ha) as Hca.
    set (h := concat _) in *. assert (Hl : zlen h = 64).
    { rewrite <- (zlen_map ascii_lower h), Hh, hex_length. lia. }
    rewrite Hl. cbn [negb Z.eqb Pos.eqb].
    destruct (parse_pin_loop_spec p [] h [] Hca Hh) as [Hr|Hne]; [|done].
    replace (length p) with 32%nat in Hr by (unfold zlen in Hp; lia). exact Hr.
  - intros text Ha. unfold parse_pin. pose proof (pin_chars_ascii text Ha) as Hca.
    destruct (negb _) eqn:Hl; [done|]. bools.
    destruct (parse_pin_loop_total 32 0 _ [] Hca) as [Hnp Hok]; [done|lia|]. split; [done|].
    intros p Hp. by apply Hok in Hp.
  - exists (lit "a" ++ [Byte.xc3; Byte.xa9] ++ zrep 61 Byte.x61). by split; vm_compute.
  - by vm_compute.
Qed.

(** A pasted link makes a pinned endpoint or nothing.  A well-formed rendezvous
    link gives an endpoint with exactly the link's pins and proxied exactly when a
    proxy was given, at the onion when there are both an onion and a proxy and at
    the host otherwise; an onion-only link without a proxy, and every relay link,
    is refused; and a certificate passes exactly when its digest is one of the
    link's pins. *)
Theorem from_link_pinned `{ServerNames} `{!ServerNamesLaws _} `{Sha256} l socks :
  link_wf l ->
  match from_link l socks with
  | Ok e =>
      l_kind l = Rendezvous /\ be_pins e = l_pins l /\ be_pins e <> [] /\ be_via e = socks /\
      be_prefix e = trim_slashes (l_prefix l) /\
      match l_onion l, socks with
      | Some o, Some _ => be_host e = host o /\ be_port e = onion_port o
      | _, _ => be_host e = l_host l /\ be_port e = l_port l
      end /\
      (forall cert, verify_server_cert (be_pins e) cert = true <-> sha256 cert ∈ l_pins l)
  | Err _ => l_kind l = Relay \/ (l_host l = [] /\ socks = None)
  | Panic => False
  end.
Proof.
  intros Hwf. pose proof Hwf as [(_ & _ & _ & Hp & Ho) Hv]. apply validate_Ok in Hv as (Hc & _ & Hn & _ & Hk).
  pose proof (label_total l Hwf) as Hlabel.
  destruct Hlabel as [nm Hlabel].
  assert (Hnew : forall h p, h <> [] -> server_name_ok h = true ->
    endpoint_new nm h p (l_prefix l) (l_pins l)
    = Ok {| be_name := nm; be_host := h; be_port := p; be_prefix := trim_slashes (l_prefix l);
            be_pins := l_pins l; be_via := None |}).
  { intros h p Hh Hs. unfold endpoint_new. rewrite (is_empty_nil h), bool_decide_false, Hs by done.
    cbn [negb]. zdec. done. }
  assert (Hpins : l_pins l <> []) by (intros Hx; rewrite Hx, zlen_nil in Hk; lia).
  assert (Hcert : forall cert, verify_server_cert (l_pins l) cert = true <-> sha256 cert ∈ l_pins l).
  { intros cert. apply bool_decide_eq_true. }
  assert (Hdns : l_host l <> [] -> server_name_ok (l_host l) = true) by (intros ?; by destruct Hn).
  assert (Hhost : l_onion l = None -> l_host l <> []) by (intros ?; by destruct Hc).
  unfold from_link. destruct (l_kind l) eqn:Hkind; [|by left]. rewrite bool_decide_true by done. cbn [negb].
  destruct (l_onion l) as [o|] eqn:Hon, socks as [proxy|].
  - cbn [obind]. rewrite Hlabel. cbn [obind]. destruct Ho as (Ho & _).
    rewrite Hnew; [by split_and!| |by apply server_name_onion].
    apply onion_host_facts in Ho as (_ & _ & Hlen). intros Hx. by rewrite Hx in Hlen.
  - unfold is_onion_only. rewrite (is_empty_nil (l_host l)), Hon. case_bool_decide as Hh; cbn; [by right|].
    rewrite Hlabel. cbn [obind]. rewrite Hnew; [by split_and!|done|by apply Hdns].
  - unfold is_onion_only. rewrite Hon, andb_false_r. cbn [obind]. rewrite Hlabel. cbn [obind].
    rewrite Hnew; [by split_and!|by apply Hhost|by apply Hdns, Hhost].
  - unfold is_onion_only. rewrite Hon, andb_false_r. cbn [obind]. rewrite Hlabel. cbn [obind].
    rewrite Hnew; [by split_and!|by apply Hhost|by apply Hdns, Hhost].
Qed.

(** *** Examples *)

Import Toy ToyNames.

Definition example_stream : stream :=
  {| segments := [ztake 20 (response 200 (lit "OK") (lit "hello"));
                  zdrop 20 (response 200 (lit "OK") (lit "hello"))]; broken := false |}.

Lemma example_stream_wf : stream_wf example_stream.
Proof. by repeat constructor. Qed.

Lemma response_bounded_witness :
  exists r s', read_response example_stream = (r, s') /\ r <> Panic /\
    drew RESPONSE_BYTES example_stream s' /\
    forall status body, r = Ok (status, body) ->
      0 <= status <= u16_max /\ zlen body <= MAX_BODY_BYTES.
Proof.
  apply (response_bounded (N := unit) (fun _ _ => mret example_stream)), example_stream_wf.
Defined.

Lemma response_read_back_witness : fst (read_response example_stream) = Ok (200, lit "hello").
Proof.
  apply (response_read_back 200 (lit "OK") (lit "hello"));
    [apply example_stream_wf|by vm_compute|by vm_compute|by repeat constructor|by vm_compute|by vm_compute].
Defined.

Lemma parse_pin_spec_witness :
  parse_pin (concat (replicate 32 (lit "aB:"))) = Ok (zrep 32 Byte.xab).
Proof.
  destruct parse_pin_spec as (Hp & _). apply Hp; [done| |by vm_compute].
  apply forallb_Forall. by vm_compute.
Defined.

Lemma from_link_pinned_witness :
  link_wf example_link /\
  match from_link example_link (Some (SocketV4 [Byte.x7f; Byte.x00; Byte.x00; Byte.x01] 9050)) with
  | Ok e => be_pins e = l_pins example_link /\ be_host e = host example_onion
  | _ => False
  end.
Proof.
  split; [apply example_link_wf|].
  pose proof (from_link_pinned example_link
    (Some (SocketV4 [Byte.x7f; Byte.x00; Byte.x00; Byte.x01] 9050)) example_link_wf) as Hl.
  destruct (from_link _ _) as [e|e|] eqn:He; [|by vm_compute in He|done].
  destruct Hl as (_ & Hp & _ & _ & _ & [Hh _] & _). by split.
Defined.
