(* ===== verification/ConfigFile.v ===== *)
(** * Encrypted configuration files

    [atom/src/config_crypto.rs]: the key kept in the desktop's keyring, and the
    sealed form of every configuration file. *)

From Stdlib Require Import Strings.Byte.
From stdpp Require Import strings.
From S2P Require Import Prelude Text Primitives.

Definition MAGIC : bytes := lit "ATOM" ++ [Byte.x01].
Definition CONFIG_NONCE_LEN : Z := 24.

(** ** The keyring ([secret_service])

    Whether it answers and unlocks, the secrets found under the program's
    attributes ([None]: one that cannot be read), and whether an item can be
    stored. *)
Record Keyring := { reachable : bool; items : list (option bytes); storable : bool }.

(** [fetch_or_create_key]: the first item decides; one of the wrong length is
    replaced. *)
Definition fetch_or_create_key (k : Keyring) (g : rng) : outcome string (bytes * Keyring * rng) :=
  if negb (reachable k) then Err "keyring"%string else
  let? stored :=
    match items k with
    | [] => Ok None
    | None :: _ => Err "Get secret"%string
    | Some secret :: _ => Ok (if zlen secret =? 32 then Some secret else None)
    end in
  match stored with
  | Some key => Ok (key, k, g)
  | None =>
      let? (raw, g) := os_fill 32 g in
      if storable k
      then Ok (raw, {| reachable := true; items := Some raw :: tail (items k); storable := true |}, g)
      else Err "Create keyring item"%string
  end.

Section config.
Context `{Aead}.

(** [encrypt_config]; [key] is [CONFIG_KEY], absent before [init_config_key]. *)
Definition encrypt_config (key : option bytes) (plaintext : bytes) (g : rng) : outcome string (bytes * rng) :=
  let? key := or_panic key in
  let? (nonce, g) := os_fill CONFIG_NONCE_LEN g in
  if negb (zlen key =? 32) then Panic else
  let? ciphertext := or_panic (aead_seal key nonce [] plaintext) in
  Ok (MAGIC ++ nonce ++ ciphertext, g).

(** [decrypt_config]: data without the header is passed through. *)
Definition decrypt_config (key : option bytes) (data : bytes) : outcome string bytes :=
  match strip_prefix MAGIC data with
  | None => Ok data
  | Some payload =>
      let? key := or_panic key in
      if zlen payload <? CONFIG_NONCE_LEN then Err "Encrypted config file is truncated"%string else
      let nonce := ztake CONFIG_NONCE_LEN payload in
      let ciphertext := zdrop CONFIG_NONCE_LEN payload in
      if negb (zlen key =? 32) then Panic else
      ok_or (aead_open key nonce [] ciphertext) "Config decryption failed"%string
  end.

Context `{!AeadLaws _}.

(** Sealing works, or the data is past the cipher's limit and the program panics. *)
Lemma encrypt_outcome key plaintext g :
  zlen key = 32 -> rng_total g ->
  (exists sealed, encrypt_config (Some key) plaintext g = Ok (sealed, rng_skip 24 g) /\
    decrypt_config (Some key) sealed = Ok plaintext) \/
  (encrypt_config (Some key) plaintext g = Panic /\ 2 ^ 37 < zlen plaintext).
Proof.
  intros Hk Hg. unfold encrypt_config. cbn [or_panic obind].
  destruct (os_fill_total (E := string) CONFIG_NONCE_LEN g Hg ltac:(done)) as (nonce & -> & Hn). cbn [obind].
  rewrite Hk. cbn [Z.eqb Pos.eqb negb]. destruct (aead_seal key nonce [] plaintext) as [c|] eqn:Hc.
  2: { right. split; [done|]. destruct (Z.lt_ge_cases (2 ^ 37) (zlen plaintext)) as [?|Hp]; [done|].
       destruct (aead_seal_total key nonce [] plaintext Hp) as [c Hc']. congruence. }
  left. eexists. split; [done|]. unfold decrypt_config. rewrite strip_prefix_app. cbn [or_panic obind].
  pose proof (zlen_nonneg c). rewrite zlen_app, Hn. zdec. cbn [negb].
  rewrite ztake_app_l, zdrop_app_l by done. apply aead_open_seal in Hc. by rewrite Hc.
Qed.

(** A sealed file is only ever read as what was sealed under the key. *)
Lemma decrypt_sealed key payload p :
  decrypt_config (Some key) (MAGIC ++ payload) = Ok p ->
  exists nonce c, payload = nonce ++ c /\ aead_seal key nonce [] p = Some c.
Proof.
  unfold decrypt_config. rewrite strip_prefix_app. cbn [or_panic obind].
  destruct (zlen payload <? _); [done|]. destruct (negb _); [done|]. intros Hd%ok_or_Ok.
  eexists _, _. split; [symmetry; apply ztake_zdrop|]. by apply aead_open_seal.
Qed.
End config.

(** The binary digits of a number never look like a sealed file. *)
Lemma bits_unsealed {A} `{Countable A} (a : A) : strip_prefix MAGIC (ToyBits.to_bits a) = None.
Proof. unfold ToyBits.to_bits. by destruct (stdpp.countable.encode a). Qed.

Lemma fetched_key k g key k' g' :
  fetch_or_create_key k g = Ok (key, k', g') -> zlen key = 32 /\ head (items k') = Some (Some key).
Proof.
  unfold fetch_or_create_key. destruct (negb (reachable k)); [done|]. intros Hk.
  apply obind_Ok in Hk as (stored & Hs & Hk). destruct stored as [s|].
  - injection Hk as <- <- <-. destruct (items k) as [|[x|] l]; [done| |done].
    destruct (zlen x =? 32) eqn:Hx; [|done]. injection Hs as <-. by bools.
  - apply obind_Ok in Hk as ([raw g1] & Hr & Hk). apply os_fill_Ok in Hr as [Hr _]; [|done].
    destruct (storable k); [|done]. by injection Hk as <- <- <-.
Qed.

(** The key that was stored is found by the next process. *)
Lemma fetched_again k g key k' g' g2 :
  fetch_or_create_key k g = Ok (key, k', g') -> fetch_or_create_key k' g2 = Ok (key, k', g2).
Proof.
  intros Hf. destruct (fetched_key _ _ _ _ _ Hf) as [Hl Hh]. unfold fetch_or_create_key in *.
  assert (reachable k' = true) as ->.
  { destruct (reachable k) eqn:Hr; [|done]. cbn [negb] in Hf. apply obind_Ok in Hf as ([s|] & _ & Hf); [by injection Hf as <- <- <-|].
    apply obind_Ok in Hf as ([raw g1] & _ & Hf). destruct (storable k); [|done]. by injection Hf as <- <- <-. }
  cbn [negb]. destruct (items k') as [|i l]; [done|]. injection Hh as ->. cbn [obind].
  by rewrite (proj2 (Z.eqb_eq _ _) Hl).
Qed.
