(* ===== verification/PeerBook.v ===== *)
(** * The peer book

    [atom/src/commands/live.rs]: what a device remembers between live transfers
    (its identity, the addresses it advertises, the peers it paired with, its
    rendezvous endpoints), and the commands that read and change it. *)

From Stdlib Require Import Strings.Byte.
From stdpp Require Import strings.
From S2P Require Import Prelude Keyed Text Primitives LiveError StateM.
From S2P Require Import Bundle Net Ticket Slots AddressRecord Discovery Pairing.
From S2P Require Import Link Blind ConfigFile Session PqAuth Reach.

(** [Box<dyn Error>]: an error of the library, of the configuration files, or one
    of this module's messages. *)
Inductive error := Lib (e : Error.t) | Config (s : string) | App (s : string).

Definition lib {A} (m : result A) : outcome error A := map_err Lib m.
Definition config {A} (m : outcome string A) : outcome error A := map_err Config m.
Definition app (s : string) : error := App s.

(** ** Addresses as people write them

    The text form of [std::net::SocketAddr] (which has no flow label): printing an
    address gives text without whitespace that parses to it, and what parses is made
    of digits, hexadecimal letters and punctuation. *)
Definition socket_textual (a : SocketAddr) : Prop :=
  socket_wf a /\ match a with SocketV4 _ _ => True | SocketV6 _ _ f s => f = 0 /\ is_u32 s end.
Definition socket_symbol (b : byte) : bool :=
  in_range 48 57 b || in_range 97 102 b || in_range 65 70 b
  || bool_decide (b ∈ lit ".:[]%").

Class SocketText := {
  socket_to_string : SocketAddr -> str;
  socket_parse : str -> option SocketAddr;
}.
Class SocketTextLaws (T : SocketText) := {
  socket_parse_display : forall a, socket_textual a ->
    socket_parse (socket_to_string a) = Some a /\ plain (socket_to_string a);
  socket_parse_Some : forall s a, socket_parse s = Some a ->
    socket_textual a /\ Forall (fun b => socket_symbol b = true) s;
}.

Definition colon : byte := Byte.x3a.

(** ** What is stored *)

Record LivePeer := {
  nickname : str;
  peer_text : str;
  rendezvous_text : option str;
  reached_at : list str;
  seen : option Z;
}.

Record RendezvousEndpoint := { ep_name : str; ep_link : str; ep_via_socks : option str }.

Record LiveState := {
  my_endpoints : list str;
  peers : list LivePeer;
  rendezvous_list : list RendezvousEndpoint;
}.

Definition default_state : LiveState := {| my_endpoints := []; peers := []; rendezvous_list := [] |}.

(** [LiveState::peer]. *)
Definition find_peer (nick : str) (s : LiveState) : option LivePeer :=
  find_key nickname nick (peers s).

(** [serde_json] on that type: what is written is read back. *)
Class Json := {
  to_json : LiveState -> bytes;
  from_json : bytes -> option LiveState;
}.
Class JsonLaws (J : Json) := {
  from_to_json : forall s, from_json (to_json s) = Some s;
}.

(** [LocalBundle::generate]: key generation of the signature libraries. *)
Class Generation := { generate_bundle : rng -> option (LocalBundle * rng) }.

(** The device: the configuration key, the two files, the disk (how much of a
    write it takes, [None]: all; [Some None]: a file cannot even be opened), the
    clock and the random generator. *)
Record Device := {
  config_key : option bytes;
  identity_file : option bytes;
  peers_file : option bytes;
  disk_full : option (option Z);
  clock : option Z;
  entropy : rng;
}.

Inductive which := IdentityFile | PeersFile.

Definition file_of (w : which) (d : Device) : option bytes :=
  match w with IdentityFile => identity_file d | PeersFile => peers_file d end.

Definition put_file (w : which) (b : option bytes) (d : Device) : Device :=
  {| config_key := config_key d;
     identity_file := match w with IdentityFile => b | PeersFile => identity_file d end;
     peers_file := match w with IdentityFile => peers_file d | PeersFile => b end;
     disk_full := disk_full d; clock := clock d; entropy := entropy d |}.

Definition set_entropy (g : rng) (d : Device) : Device :=
  {| config_key := config_key d; identity_file := identity_file d; peers_file := peers_file d;
     disk_full := disk_full d; clock := clock d; entropy := g |}.

Abbreviation D := (M error Device).

(** A computation that draws random bytes. *)
Definition drawing {A} (m : rng -> outcome error (A * rng)) : D A := fun d =>
  match m (entropy d) with
  | Ok (a, g) => (Ok a, set_entropy g d)
  | Err e => (Err e, d)
  | Panic => (Panic, d)
  end.

Section live.
Context `{UnicodeCase} `{Aead} `{Blake3} `{Base32} `{Sha256} `{SignatureLib} `{Spake2}.
Context `{ServerNames} `{SocketText} `{Json} `{Generation}.

(** [write_private]: sealed, then the file is truncated and written. *)
Definition write_private (w : which) (data : bytes) : D unit :=
  let! key := gets config_key in
  let! sealed := drawing (fun g => config (encrypt_config key data g)) in
  let! full := gets disk_full in
  match full with
  | None => modify (put_file w (Some sealed))
  | Some None => fails (app "open")
  | Some (Some n) =>
      if zlen sealed <=? n then modify (put_file w (Some sealed)) else
      let! _ := modify (put_file w (Some (ztake n sealed))) in fails (app "write")
  end.

Definition read_private (w : which) : D (option bytes) :=
  let! file := gets (file_of w) in
  let! key := gets config_key in
  match file with
  | None => mret None
  | Some raw => let! plain := lift (config (decrypt_config key raw)) in mret (Some plain)
  end.

(** [load_state], [save_state]. *)
Definition load_state : D LiveState :=
  let! plain := read_private PeersFile in
  match plain with
  | None => mret default_state
  | Some b => lift (ok_or (from_json b) (app "json"))
  end.

Definition save_state (s : LiveState) : D unit := write_private PeersFile (to_json s).

(** [load_or_create_identity]. *)
Definition load_or_create_identity : D LocalBundle :=
  let! plain := read_private IdentityFile in
  match plain with
  | Some b => lift (lib (from_secret_bytes b))
  | None =>
      let! bundle := drawing (fun g => ok_or (generate_bundle g) (app "key generation")) in
      let! _ := write_private IdentityFile (to_secret_bytes bundle) in
      mret bundle
  end.

(** ** Addresses *)

(** [parse_endpoint]. *)
Definition parse_endpoint (text : str) : outcome error Endpoint :=
  let text := trim text in
  match socket_parse text with
  | Some a => Ok (Direct a)
  | None =>
      let? (host, port) := ok_or (rsplit_once colon text) (app "An address needs a port") in
      let? port := ok_or (parse_uint u16_max port) (app "not a port number") in
      if bool_decide (is_Some (strip_suffix onion_suffix host))
      then let? o := lib (onion_new host port) in Ok (Onion o)
      else Err (app "neither an ip:port nor an onion address")
  end.

(** [Endpoint]'s [Display]. *)
Definition endpoint_to_string (e : Endpoint) : str :=
  match e with
  | Direct a => socket_to_string a
  | Onion o => host o ++ [colon] ++ decimal (onion_port o)
  end.

(** [for e in …  { v.push(parse_endpoint(e)?) }]. *)
Fixpoint parse_endpoints (l : list str) : outcome error (list Endpoint) :=
  match l with
  | [] => Ok []
  | x :: l => let? e := parse_endpoint x in let? es := parse_endpoints l in Ok (e :: es)
  end.

(** [set_endpoints]. *)
Definition set_endpoints (addresses : list str) : D unit :=
  let! parsed := lift (parse_endpoints addresses) in
  let! state := load_state in
  save_state {| my_endpoints := map endpoint_to_string parsed; peers := peers state;
                rendezvous_list := rendezvous_list state |}.

(** [my_ticket]. *)
Definition my_ticket : D Ticket.t :=
  let! bundle := load_or_create_identity in
  let! state := load_state in
  if bool_decide (my_endpoints state = []) then fails (app "No address set") else
  let! hints := lift (parse_endpoints (my_endpoints state)) in
  let! now := gets clock in
  lift (lib (ticket_new now (local_bundle bundle) hints)).

(** [bind_address]: the port of the first direct endpoint, on all interfaces. *)
Fixpoint bind_from (l : list str) : outcome error SocketAddr :=
  match l with
  | [] => Err (app "No direct address set")
  | e :: l =>
      match parse_endpoint e with
      | Ok (Direct a) => Ok (SocketAddr_new (V4 (zrep 4 Byte.x00)) (port a))
      | Panic => Panic
      | _ => bind_from l
      end
  end.

Definition bind_address : D SocketAddr :=
  let! state := load_state in lift (bind_from (my_endpoints state)).

(** ** Pairing *)

(** [encode_secret], [decode_secret]. *)
Definition encode_secret (secret : bytes) : str := base32_lower secret.

Definition decode_secret (text : str) : outcome error bytes :=
  let? raw := ok_or (base32_parse (trim text)) (app "stored rendezvous secret is not valid base32") in
  if zlen raw =? 32 then Ok raw else Err (app "stored rendezvous secret is not 32 bytes").

(** [LivePeer::new]. *)
Definition LivePeer_new (nick : str) (x : Ticket.t) (secret : bytes) : LivePeer :=
  {| nickname := nick; peer_text := Ticket.to_text x; rendezvous_text := Some (encode_secret secret);
     reached_at := []; seen := None |}.

(** [pair_begin]. *)
Definition pair_begin (code : PairingCode) : D (PairingState * str) :=
  let! (st, msg) := drawing (fun g => lib (let? (sm, g) := Pairing.start code g in Ok (sm, g))) in
  mret (st, encode_message msg).

(** [pair_exchange]. *)
Definition pair_exchange (st : PairingState) (peer_message : str) : D (PairedChannel * str) :=
  let! peer := lift (lib (decode_message peer_message)) in
  let! channel := lift (lib (finish st peer)) in
  let! ticket := my_ticket in
  let! sealed := drawing (fun g => lib (seal_ticket channel ticket g)) in
  mret (channel, sealed).

Definition named (nick : str) : LivePeer -> bool := is_key nickname nick.

Definition repaired (x : Ticket.t) (secret : bytes) (p : LivePeer) : LivePeer :=
  {| nickname := nickname p; peer_text := Ticket.to_text x; rendezvous_text := Some (encode_secret secret);
     reached_at := reached_at p; seen := seen p |}.

(** [pair_complete]. *)
Definition pair_complete (channel : PairedChannel) (sealed : str) (nick : str) : D Ticket.t :=
  let! ticket := lift (lib (open_ticket channel sealed)) in
  let! me := load_or_create_identity in
  if decide (ticket_id ticket = bundle_id (local_bundle me))
  then fails (app "That ticket is your own identity") else
  let secret := rendezvous_secret channel in
  let! state := load_state in
  let! new_peers :=
    match find_peer nick state with
    | Some existing =>
        let! old := lift (lib (Ticket.from_text (peer_text existing))) in
        if decide (ticket_id old <> ticket_id ticket)
        then fails (app "SECURITY ALERT: already paired with a DIFFERENT identity")
        else mret (update_first (named nick) (repaired ticket secret) (peers state))
    | None => mret (peers state ++ [LivePeer_new nick ticket secret])
    end in
  let! _ := save_state {| my_endpoints := my_endpoints state; peers := new_peers;
                          rendezvous_list := rendezvous_list state |} in
  mret ticket.

(** ** Using a peer *)

(** [peer_state]. *)
Definition peer_state (p : LivePeer) : outcome error PeerState :=
  let? ticket := lib (Ticket.from_text (peer_text p)) in
  let? secret_text := ok_or (rendezvous_text p) (app "paired before rendezvous existed") in
  let? known := parse_endpoints (reached_at p) in
  let known := if bool_decide (known = []) then hints ticket else known in
  let? secret := decode_secret secret_text in
  Ok {| p_identity := identity ticket; p_rendezvous := secret; last_known := known; newest_seen := seen p |}.

(** [remember]. *)
Definition learned_by (s : PeerState) (p : LivePeer) : LivePeer :=
  {| nickname := nickname p; peer_text := peer_text p; rendezvous_text := rendezvous_text p;
     reached_at := map endpoint_to_string (last_known s); seen := newest_seen s |}.

Definition remember (nick : str) (s : PeerState) : D unit :=
  let! state := load_state in
  match find_peer nick state with
  | Some _ =>
      save_state {| my_endpoints := my_endpoints state;
                    peers := update_first (named nick) (learned_by s) (peers state);
                    rendezvous_list := rendezvous_list state |}
  | None => mret tt
  end.

(** [stored_peer]. *)
Definition stored_peer (nick : str) : D LivePeer :=
  let! state := load_state in lift (ok_or (find_peer nick state) (app "No such peer")).

(** ** Rendezvous endpoints *)

Definition ep_proxy (e : RendezvousEndpoint) : outcome error (option SocketAddr) :=
  match ep_via_socks e with
  | None => Ok None
  | Some s => let? a := ok_or (socket_parse s) (app "not a host:port for a SOCKS proxy") in Ok (Some a)
  end.

(** [RendezvousEndpoint::build]. *)
Definition ep_build (e : RendezvousEndpoint) : outcome error BlindEndpoint :=
  let? link := lib (Link.from_text (ep_link e)) in
  let? proxy := ep_proxy e in
  lib (from_link link proxy).

(** [discovery_from]: an endpoint that does not build is an error. *)
Fixpoint discovery_from (l : list RendezvousEndpoint) : outcome error (list BlindEndpoint) :=
  match l with
  | [] => Ok []
  | e :: l => let? b := ep_build e in let? bs := discovery_from l in Ok (b :: bs)
  end.

(** [handle_rendezvous_add], up to what it prints. *)
Definition rendezvous_add (link : str) (name : option str) (via : option str) : D unit :=
  let! parsed := lift (lib (Link.from_text link)) in
  let! name := match name with Some n => mret n | None => lift (lib (Link.label parsed)) end in
  let cfg := {| ep_name := name; ep_link := Link.to_text parsed; ep_via_socks := via |} in
  let! _ := lift (ep_build cfg) in
  let! state := load_state in
  let same := is_key ep_name name in
  save_state {| my_endpoints := my_endpoints state; peers := peers state;
                rendezvous_list := if existsb same (rendezvous_list state)
                                   then update_first same (fun _ => cfg) (rendezvous_list state)
                                   else rendezvous_list state ++ [cfg] |}.

(** [handle_rendezvous_remove]. *)
Definition rendezvous_remove (name : str) : D unit :=
  let! state := load_state in
  let kept := filter (fun e => ep_name e <> name) (rendezvous_list state) in
  if bool_decide (length kept = length (rendezvous_list state))
  then fails (app "No rendezvous endpoint of that name")
  else save_state {| my_endpoints := my_endpoints state; peers := peers state; rendezvous_list := kept |}.
End live.

(** ** Lemmas: texts *)

Definition endpoint_stored (e : Endpoint) : Prop :=
  match e with Direct a => socket_textual a | Onion o => onion_wf o end.

Lemma endpoint_wf_stored e : endpoint_wf e -> endpoint_stored e.
Proof.
  destruct e as [[|o p f s]|]; cbn; [by intros [? _]|intros [? [-> ->]]|done].
  split; [done|]. by split.
Qed.

Lemma strip_suffix_app p s : strip_suffix p (s ++ p) = Some s.
Proof. by apply strip_suffix_Some. Qed.

Section texts.
Context `{UnicodeCase} `{!UnicodeCaseLaws _} `{Base32} `{!Base32Laws _} `{SocketText} `{!SocketTextLaws _}.

Lemma decode_encode_secret s : zlen s = 32 -> decode_secret (encode_secret s) = Ok s.
Proof.
  intros Hs. unfold decode_secret, encode_secret. rewrite trim_plain by apply base32_lower_plain.
  rewrite base32_parse_lower. cbn [ok_or obind]. by rewrite Hs.
Qed.

Lemma onion_text_parts o :
  onion_wf o -> plain (endpoint_to_string (Onion o)) /\ socket_parse (endpoint_to_string (Onion o)) = None /\
    rsplit_once colon (endpoint_to_string (Onion o)) = Some (host o, decimal (onion_port o)).
Proof.
  intros (Hh & Hp & _). unfold is_u16 in Hp. pose proof (onion_host_facts _ Hh) as (Hpl & _ & _). cbn [endpoint_to_string].
  split_and!.
  - apply Forall_app. split; [done|]. apply Forall_app. split; [by repeat constructor|]. apply decimal_plain. lia.
  - destruct (socket_parse _) as [a|] eqn:Hs; [|done]. apply socket_parse_Some in Hs as [_ Hs].
    apply Forall_app in Hs as [Hs _]. destruct Hh as (l & Hl & _ & _). rewrite Hl in Hs.
    apply Forall_app in Hs as [_ Hs]. by inversion Hs as [|? ? _ Hs']; inversion Hs'.
  - unfold rsplit_once.
    assert (Hr : reverse (host o ++ [colon] ++ decimal (onion_port o))
      = reverse (decimal (onion_port o)) ++ colon :: reverse (host o)).
    { rewrite !reverse_app. change (reverse [colon]) with [colon]. by rewrite <- app_assoc. }
    rewrite Hr, split_once_at; [by rewrite !reverse_involutive|]. apply Forall_reverse.
    eapply Forall_impl; [|apply (decimal_of_digits 20); lia]. intros b [Hb _] ->. done.
Qed.

(** What [endpoint_to_string] prints, [parse_endpoint] reads. *)
Lemma parse_endpoint_display e : endpoint_stored e -> parse_endpoint (endpoint_to_string e) = Ok e.
Proof.
  unfold parse_endpoint. destruct e as [a|o]; intros He.
  - apply socket_parse_display in He as [Hp Hpl]. cbn [endpoint_to_string]. rewrite trim_plain by done. by rewrite Hp.
  - destruct (onion_text_parts o He) as (Hpl & Hs & Hr). rewrite trim_plain by done. rewrite Hs, Hr. cbn [ok_or obind].
    destruct He as (Hh & Hp & Hz). unfold is_u16 in Hp.
    rewrite parse_uint_decimal by (unfold u16_max; lia). cbn [ok_or obind].
    pose proof Hh as (l & Hl & _ & _).
    rewrite bool_decide_eq_true_2 by (rewrite Hl, strip_suffix_app; by eexists).
    rewrite onion_new_host by done. cbn. by destruct o.
Qed.

Lemma parse_endpoints_display l :
  Forall endpoint_stored l -> parse_endpoints (map endpoint_to_string l) = Ok l.
Proof.
  induction 1 as [|e l He _ IH]; [done|]. cbn [map parse_endpoints].
  rewrite parse_endpoint_display by done. cbn [obind]. by rewrite IH.
Qed.

Lemma parse_endpoint_stored t e : parse_endpoint t = Ok e -> endpoint_stored e.
Proof.
  unfold parse_endpoint. destruct (socket_parse (trim t)) as [a|] eqn:Hs.
  { intros [= <-]. by apply socket_parse_Some in Hs as [? _]. }
  intros Hp. ok_inv Hp. injection Hp as <-. cbn. unfold lib in *.
  match goal with Ho : map_err _ _ = Ok _ |- _ => apply map_err_Ok in Ho; eapply onion_new_wf; [|exact Ho] end.
  match goal with Hu : parse_uint _ _ = Some _ |- _ => apply parse_uint_range in Hu end.
  unfold u16_max, is_u16 in *. lia.
Qed.

Lemma parse_endpoints_stored l es : parse_endpoints l = Ok es -> Forall endpoint_stored es.
Proof.
  revert es. induction l as [|t l IH]; intros es; cbn [parse_endpoints]; [by intros [= <-]|].
  intros Hp. ok_inv Hp. injection Hp as <-. constructor; [by eapply parse_endpoint_stored|by apply IH].
Qed.

Lemma parse_endpoint_no_panic t : parse_endpoint t <> Panic.
Proof.
  unfold parse_endpoint. destruct (socket_parse _); [done|].
  apply obind_no_panic; [apply ok_or_no_panic|intros [h p] _].
  apply obind_no_panic; [apply ok_or_no_panic|intros n _]. case_match; [|done].
  apply obind_no_panic; [|done]. apply map_err_no_panic, onion_new_no_panic.
Qed.

Lemma parse_endpoints_no_panic l : parse_endpoints l <> Panic.
Proof.
  induction l as [|t l IH]; cbn [parse_endpoints]; [done|].
  apply obind_no_panic; [apply parse_endpoint_no_panic|intros e _]. by apply obind_no_panic.
Qed.
End texts.

(** ** Lemmas: the files *)

Section files.
Context `{Aead} `{!AeadLaws _} `{SignatureLib} `{Json} `{!JsonLaws _} `{Generation}.

(** A device in working order that stores an identity and a book. *)
Definition ready (d : Device) : Prop :=
  (exists key, config_key d = Some key /\ zlen key = 32) /\ rng_total (entropy d) /\ disk_full d = None.

Definition holds_identity (d : Device) (l : LocalBundle) : Prop :=
  local_wf l /\ exists raw, identity_file d = Some raw /\
    decrypt_config (config_key d) raw = Ok (to_secret_bytes l).

Definition holds_book (d : Device) (s : LiveState) : Prop :=
  match peers_file d with
  | None => s = default_state
  | Some raw => exists b, decrypt_config (config_key d) raw = Ok b /\ from_json b = Some s
  end.

Definition stored (d : Device) (l : LocalBundle) (s : LiveState) : Prop :=
  ready d /\ holds_identity d l /\ holds_book d s.

(** The size up to which a book can be sealed: 128 GiB. *)
Definition fits (s : LiveState) : Prop := zlen (to_json s) <= 2 ^ 37.

Lemma stored_load d l s : stored d l s -> load_state d = (Ok s, d).
Proof.
  intros (_ & _ & Hb). unfold load_state, read_private, mbind, gets, lift, holds_book in *. cbn [file_of].
  destruct (peers_file d) as [raw|]; [|by subst]. destruct Hb as (b & Hb & Hj). rewrite Hb. unfold mret. cbn. by rewrite Hj.
Qed.

Lemma stored_identity d l s : stored d l s -> load_or_create_identity d = (Ok l, d).
Proof.
  intros (_ & (Hwf & raw & Hi & Hd) & _). unfold load_or_create_identity, read_private, mbind, gets, lift.
  cbn [file_of]. rewrite Hi, Hd. unfold mret, config. cbn [map_err].
  by rewrite secret_decode_encode.
Qed.

Lemma stored_entropy d l s g : stored d l s -> rng_total g -> stored (set_entropy g d) l s.
Proof. intros ((Hk & _ & Hf) & Hi & Hb) Hg. split; [by split_and!|by split]. Qed.

(** Saving a book stores it, or the book is too large to be sealed and the program
    panics. *)
Lemma stored_save d l s s' :
  stored d l s ->
  (exists d', save_state s' d = (Ok tt, d') /\ stored d' l s' /\ clock d' = clock d) \/
  (fst (save_state s' d) = Panic /\ ~ fits s').
Proof.
  intros (((key & Hk & Hl) & Hg & Hf) & Hi & Hb).
  unfold save_state, write_private, mbind, gets, drawing, modify. rewrite Hk.
  destruct (encrypt_outcome key (to_json s') (entropy d) Hl Hg) as [(sealed & -> & Hd)|[-> Hn]].
  2: { right. split; [done|]. unfold fits. lia. }
  left. cbn [config map_err disk_full set_entropy]. rewrite Hf. eexists. split; [done|]. split; [|done]. split_and!.
  - split_and!; cbn; [by exists key|by apply rng_total_skip|done].
  - exact Hi.
  - unfold holds_book. cbn. rewrite Hk. exists (to_json s'). split; [done|]. apply from_to_json.
Qed.
End files.

(** ** Lemmas: the list of peers *)

Lemma find_peer_Some nick s p : find_peer nick s = Some p -> nickname p = nick /\ p ∈ peers s.
Proof. apply (find_key_Some nickname). Qed.

Lemma find_peer_None nick s : find_peer nick s = None -> nick ∉ map nickname (peers s).
Proof. apply (find_key_None nickname). Qed.

(** ** The book's invariant *)

Section book.
Context `{UnicodeCase} `{!UnicodeCaseLaws _} `{Aead} `{!AeadLaws _} `{Blake3} `{!Blake3Laws _} `{Base32} `{!Base32Laws _}.
Context `{Sha256} `{SignatureLib} `{Spake2} `{ServerNames} `{SocketText} `{!SocketTextLaws _} `{Json} `{!JsonLaws _}.
Context `{Generation}.

Definition endpoint_text (t : str) : Prop := exists e, endpoint_stored e /\ t = endpoint_to_string e.

Definition peer_ok (p : LivePeer) : Prop :=
  (exists x, ticket_wf x /\ peer_text p = Ticket.to_text x) /\
  (forall t, rendezvous_text p = Some t -> exists s, zlen s = 32 /\ t = encode_secret s) /\
  Forall endpoint_text (reached_at p).

(** One entry per nickname and per endpoint name, and every entry can be used. *)
Definition book_ok (s : LiveState) : Prop :=
  NoDup (map nickname (peers s)) /\ Forall peer_ok (peers s) /\
  Forall endpoint_text (my_endpoints s) /\
  NoDup (map ep_name (rendezvous_list s)) /\ Forall (fun e => is_ok (ep_build e) = true) (rendezvous_list s).

Lemma default_book_ok : book_ok default_state.
Proof. split_and!; constructor. Qed.

Lemma endpoint_texts l : Forall endpoint_stored l -> Forall endpoint_text (map endpoint_to_string l).
Proof. intros Hl. apply Forall_map. eapply Forall_impl; [|exact Hl]. intros e He. by exists e. Qed.

Lemma parse_endpoint_texts l : Forall endpoint_text l -> exists es, parse_endpoints l = Ok es /\ Forall endpoint_stored es /\ length es = length l.
Proof.
  induction 1 as [|t l (e & He & ->) _ (es & IH & Hes & Hlen)]; [by exists []|].
  exists (e :: es). cbn [parse_endpoints]. rewrite parse_endpoint_display by done. cbn [obind]. rewrite IH. cbn.
  split_and!; [done|by constructor|by rewrite Hlen].
Qed.

Lemma from_text_stored x : ticket_wf x -> Ticket.from_text (Ticket.to_text x) = Ok x.
Proof.
  intros Hx. rewrite <- (app_nil_r (Ticket.to_text x)). apply (from_text_any x []); [done|constructor|constructor| |].
  - apply plain_ascii, to_text_facts.
  - apply ascii_lower_id, to_text_facts.
Qed.

(** An entry of the book can be used to reach its peer. *)
Lemma peer_ok_state p x s :
  ticket_wf x -> peer_text p = Ticket.to_text x -> zlen s = 32 -> rendezvous_text p = Some (encode_secret s) ->
  Forall endpoint_text (reached_at p) ->
  exists known, parse_endpoints (reached_at p) = Ok known /\
    peer_state p = Ok {| p_identity := identity x; p_rendezvous := s;
                         last_known := if bool_decide (known = []) then hints x else known;
                         newest_seen := seen p |}.
Proof.
  intros Hx Ht Hs Hr Hk. destruct (parse_endpoint_texts _ Hk) as (known & Hp & _). exists known. split; [done|].
  unfold peer_state. rewrite Ht, from_text_stored by done. cbn [lib map_err obind]. rewrite Hr. cbn [ok_or obind].
  rewrite Hp. cbn [obind]. by rewrite decode_encode_secret.
Qed.

Lemma peer_ok_usable p :
  peer_ok p -> (exists ps, peer_state p = Ok ps) \/ rendezvous_text p = None.
Proof.
  intros ((x & Hx & Ht) & Hr & Hk). destruct (rendezvous_text p) as [t|] eqn:Hrt; [left|by right].
  destruct (Hr t eq_refl) as (s & Hs & ->). destruct (peer_ok_state p x s) as (known & _ & Hp); [done..|]. by eexists.
Qed.
(** *** Preserved by every update *)

Definition with_peers (l : list LivePeer) (s : LiveState) : LiveState :=
  {| my_endpoints := my_endpoints s; peers := l; rendezvous_list := rendezvous_list s |}.

Lemma book_ok_append s nick p :
  book_ok s -> find_peer nick s = None -> nickname p = nick -> peer_ok p -> book_ok (with_peers (peers s ++ [p]) s).
Proof.
  intros (Hn & Hp & Hrest) Hf Hnick Hok. split; [|split; [|exact Hrest]]; cbn [with_peers peers].
  - rewrite map_app. cbn [map]. apply list.NoDup_app. split_and!; [done| |apply list.NoDup_singleton].
    intros x Hx Hx'. rewrite elem_of_cons, elem_of_nil in Hx'. destruct Hx' as [->|[]]. rewrite Hnick in Hx. by apply find_peer_None in Hf.
  - apply Forall_app. by split; [|constructor].
Qed.

Lemma book_ok_update s nick f :
  book_ok s -> (forall p, nickname (f p) = nickname p) -> (forall p, peer_ok p -> peer_ok (f p)) ->
  book_ok (with_peers (update_first (named nick) f (peers s)) s).
Proof.
  intros (Hn & Hp & Hrest) Hname Hf. split; [|split; [|exact Hrest]]; cbn [with_peers peers].
  - unfold named. by rewrite update_keys by (by intros ? <-).
  - apply update_first_Forall; [done|]. intros p Hpok _. by apply Hf.
Qed.

Lemma peer_ok_new nick x s : ticket_wf x -> zlen s = 32 -> peer_ok (LivePeer_new nick x s).
Proof. intros Hx Hs. split_and!; [by exists x| |constructor]. intros t [= <-]. by exists s. Qed.

Lemma peer_ok_repaired x s p : ticket_wf x -> zlen s = 32 -> peer_ok p -> peer_ok (repaired x s p).
Proof. intros Hx Hs (_ & _ & Hr). split_and!; [by exists x| |done]. intros t [= <-]. by exists s. Qed.

(** Pairing again with a peer that was reached before does not use the addresses of
    its new ticket: the ones it was last reached at, however stale, still come first. *)
Lemma repaired_keeps_addresses x s p :
  ticket_wf x -> zlen s = 32 -> peer_ok p -> reached_at p <> [] ->
  exists known, parse_endpoints (reached_at p) = Ok known /\
    exists ps, peer_state (repaired x s p) = Ok ps /\ p_identity ps = identity x /\ last_known ps = known.
Proof.
  intros Hx Hs (_ & _ & Hr) Hne.
  destruct (peer_ok_state (repaired x s p) x s) as (known & Hk & Hps); [done..|]. exists known. split; [done|].
  eexists. split; [exact Hps|]. split; [done|]. cbn. rewrite bool_decide_eq_false_2; [done|]. intros ->.
  destruct (parse_endpoint_texts _ Hr) as (es & Hes & _ & Hlen). cbn in Hk. rewrite Hk in Hes. injection Hes as <-.
  by destruct (reached_at p).
Qed.

Lemma peer_ok_learned ps p : Forall endpoint_stored (last_known ps) -> peer_ok p -> peer_ok (learned_by ps p).
Proof. intros Hl (Hx & Hr & _). split_and!; [done|done|]. by apply endpoint_texts. Qed.

Lemma filter_names name l :
  NoDup (map ep_name l) -> NoDup (map ep_name (filter (fun e => ep_name e <> name) l)).
Proof.
  induction l as [|e l IH]; [done|]. cbn [map]. intros [Hn Hl]%list.NoDup_cons.
  rewrite filter_cons. case_decide; [|by apply IH]. cbn [map]. apply list.NoDup_cons. split; [|by apply IH].
  intros (x & Hx & Hin)%list_elem_of_fmap. apply list_elem_of_filter in Hin as [_ Hin]. apply Hn.
  rewrite Hx. by apply list_elem_of_fmap_2.
Qed.

Lemma existsb_name name l :
  existsb (is_key ep_name name) l = false -> name ∉ map ep_name l.
Proof.
  induction l as [|e l IH]; cbn; [by intros _ ?%elem_of_nil|]. intros [He Hl]%orb_false_iff. unfold is_key in He.
  apply bool_decide_eq_false in He. rewrite elem_of_cons. intros [->|Hin]; [done|by apply IH].
Qed.

Lemma book_ok_rendezvous s l :
  book_ok s -> NoDup (map ep_name l) -> Forall (fun e => is_ok (ep_build e) = true) l ->
  book_ok {| my_endpoints := my_endpoints s; peers := peers s; rendezvous_list := l |}.
Proof. intros (? & ? & ? & _ & _) Hn Hb. by split_and!. Qed.

(** ** Commands *)

Inductive op :=
| SetEndpoints (addresses : list str)
| PairComplete (channel : PairedChannel) (sealed nick : str)
| Remember (nick : str) (s : PeerState)
| RendezvousAdd (link : str) (name via : option str)
| RendezvousRemove (name : str).

Definition run_op (o : op) : D unit :=
  match o with
  | SetEndpoints l => set_endpoints l
  | PairComplete ch sealed nick => let! _ := pair_complete ch sealed nick in mret tt
  | Remember nick s => remember nick s
  | RendezvousAdd link name via => rendezvous_add link name via
  | RendezvousRemove name => rendezvous_remove name
  end.

(** What the commands are given: the channel of a pairing, and a peer whose
    addresses came from a ticket or a record. *)
Definition op_ok (o : op) : Prop :=
  match o with
  | PairComplete ch _ _ => zlen (rendezvous ch) = 32
  | Remember _ s => Forall endpoint_stored (last_known s)
  | _ => True
  end.

(** *** What the commands mean, on the book alone *)

Definition with_endpoints (l : list str) (s : LiveState) : LiveState :=
  {| my_endpoints := l; peers := peers s; rendezvous_list := rendezvous_list s |}.
Definition with_rendezvous (l : list RendezvousEndpoint) (s : LiveState) : LiveState :=
  {| my_endpoints := my_endpoints s; peers := peers s; rendezvous_list := l |}.

(** A peer's new ticket and secret: a new entry, or an update of the same identity's. *)
Definition book_pair (nick : str) (x : Ticket.t) (secret : bytes) (s : LiveState) : outcome error LiveState :=
  match find_peer nick s with
  | None => Ok (with_peers (peers s ++ [LivePeer_new nick x secret]) s)
  | Some p =>
      let? old := lib (Ticket.from_text (peer_text p)) in
      if decide (ticket_id old = ticket_id x)
      then Ok (with_peers (update_first (named nick) (repaired x secret) (peers s)) s)
      else Err (app "SECURITY ALERT: already paired with a DIFFERENT identity")
  end.

(** The entry named [ep_name cfg], or the end of the list. *)
Definition book_rendezvous (cfg : RendezvousEndpoint) (l : list RendezvousEndpoint) : list RendezvousEndpoint :=
  let same := is_key ep_name (ep_name cfg) in
  if existsb same l then update_first same (fun _ => cfg) l else l ++ [cfg].

(** The book after a command of the device of [me], or the reason it is refused. *)
Definition book_after (me : BundleId) (o : op) (s : LiveState) : outcome error LiveState :=
  match o with
  | SetEndpoints l => let? es := parse_endpoints l in Ok (with_endpoints (map endpoint_to_string es) s)
  | PairComplete ch sealed nick =>
      let? x := lib (open_ticket ch sealed) in
      if decide (ticket_id x = me) then Err (app "That ticket is your own identity")
      else book_pair nick x (rendezvous_secret ch) s
  | Remember nick ps => Ok (with_peers (update_first (named nick) (learned_by ps) (peers s)) s)
  | RendezvousAdd link name via =>
      let? parsed := lib (Link.from_text link) in
      let? name := match name with Some n => Ok n | None => lib (Link.label parsed) end in
      let cfg := {| ep_name := name; ep_link := Link.to_text parsed; ep_via_socks := via |} in
      let? _ := ep_build cfg in Ok (with_rendezvous (book_rendezvous cfg (rendezvous_list s)) s)
  | RendezvousRemove name =>
      let l := filter (fun e => ep_name e <> name) (rendezvous_list s) in
      if bool_decide (length l = length (rendezvous_list s))
      then Err (app "No rendezvous endpoint of that name") else Ok (with_rendezvous l s)
  end.

(** A run on the device [d] does what the book's specification says: a refusal
    changes nothing, and an accepted command stores the new book, if it can be
    sealed at all. *)
Definition meets (l : LocalBundle) (d : Device) (rd : outcome error unit * Device)
    (spec : outcome error LiveState) : Prop :=
  match spec with
  | Ok s' => book_ok s' /\
      (fits s' -> exists d', rd = (Ok tt, d') /\ stored d' l s' /\ clock d' = clock d)
  | Err e => rd = (Err e, d)
  | Panic => False
  end.

Lemma meets_saved d l s s' : stored d l s -> book_ok s' -> meets l d (save_state s' d) (Ok s').
Proof.
  intros Hd Hs. split; [done|]. intros Hf.
  destruct (stored_save d l s s' Hd) as [(d' & Hsave & Hd' & Hc)|[_ Hn]]; [by exists d'|done].
Qed.

(** A checked step of both. *)
Lemma meets_lift {A} d l (m : outcome error A) (f : A -> D unit) (g : A -> outcome error LiveState) :
  m <> Panic -> (forall a, m = Ok a -> meets l d (f a d) (g a)) ->
  meets l d ((let! a := lift m in f a) d) (let? a := m in g a).
Proof. intros Hm Hf. unfold mbind, lift. by destruct m as [a|e|]; [apply Hf| |]. Qed.

Lemma meets_map {A} d l s' (m : D unit) (a : A) :
  meets l d (m d) (Ok s') -> meets l d ((let! _ := (let! _ := m in mret a) in mret tt) d) (Ok s').
Proof.
  intros [Hs Hm]. split; [done|]. intros Hf. destruct (Hm Hf) as (d' & Hr & Hd).
  exists d'. split; [|done]. unfold mbind, mret. by rewrite Hr.
Qed.

Lemma lib_no_panic {A} (m : result A) : m <> Panic -> lib m <> Panic.
Proof. apply map_err_no_panic. Qed.

Lemma set_endpoints_meets l s d addresses :
  stored d l s -> book_ok s ->
  meets l d (set_endpoints addresses d) (book_after (bundle_id (local_bundle l)) (SetEndpoints addresses) s).
Proof.
  intros Hd Hs. unfold set_endpoints. cbn [book_after]. apply meets_lift; [apply parse_endpoints_no_panic|intros es Hes].
  unfold mbind. rewrite (stored_load d l s Hd). eapply meets_saved; [done|].
  destruct Hs as (? & ? & _ & ? & ?). split_and!; try done. cbn.
  by eapply endpoint_texts, parse_endpoints_stored.
Qed.

Lemma remember_meets l s d nick ps :
  stored d l s -> book_ok s -> Forall endpoint_stored (last_known ps) ->
  meets l d (remember nick ps d) (book_after (bundle_id (local_bundle l)) (Remember nick ps) s).
Proof.
  intros Hd Hs Hl. unfold remember, mbind. rewrite (stored_load d l s Hd). cbn [book_after].
  assert (Hok : book_ok (with_peers (update_first (named nick) (learned_by ps) (peers s)) s)).
  { apply book_ok_update; [done|done|]. intros q. by apply peer_ok_learned. }
  destruct (find_peer nick s) as [p|] eqn:Hf; [by eapply meets_saved|].
  apply find_peer_None in Hf. unfold named in *. rewrite update_absent in * by done. split; [done|]. intros _.
  exists d. split_and!; [done| |done]. by destruct s.
Qed.

Lemma rendezvous_remove_meets l s d name :
  stored d l s -> book_ok s ->
  meets l d (rendezvous_remove name d) (book_after (bundle_id (local_bundle l)) (RendezvousRemove name) s).
Proof.
  intros Hd Hs. unfold rendezvous_remove, mbind. rewrite (stored_load d l s Hd). cbn [book_after]. cbv zeta.
  case_bool_decide; [done|]. eapply meets_saved; [done|].
  apply book_ok_rendezvous; [done| |]; destruct Hs as (_ & _ & _ & Hn & Hb).
  - by apply filter_names.
  - apply list.Forall_forall. intros e [_ He]%list_elem_of_filter. rewrite list.Forall_forall in Hb. by apply Hb.
Qed.

Lemma ep_build_no_panic e : ep_build e <> Panic.
Proof.
  unfold ep_build. apply obind_no_panic; [apply lib_no_panic, link_from_text_no_panic|intros link Hl].
  apply obind_no_panic; [|intros proxy _; apply lib_no_panic, from_link_no_panic].
  - unfold ep_proxy. destruct (ep_via_socks e); [|done]. apply obind_no_panic; [apply ok_or_no_panic|done].
  - unfold lib in Hl. apply map_err_Ok in Hl. by eapply link_from_text_wf.
Qed.

Lemma book_ok_rendezvous_add s cfg :
  book_ok s -> is_ok (ep_build cfg) = true -> book_ok (with_rendezvous (book_rendezvous cfg (rendezvous_list s)) s).
Proof.
  intros Hs Hcfg. pose proof Hs as (_ & _ & _ & Hnd & Hall). unfold book_rendezvous. destruct (existsb _ _) eqn:He.
  - apply book_ok_rendezvous; [done|by rewrite (update_keys ep_name (ep_name cfg))|]. apply update_first_Forall; [done|]. by intros.
  - apply book_ok_rendezvous; [done| |].
    + rewrite map_app. cbn [map]. apply list.NoDup_app. split_and!; [done| |apply list.NoDup_singleton].
      intros x Hx Hx'. rewrite elem_of_cons, elem_of_nil in Hx'. destruct Hx' as [->|[]]. by apply existsb_name in He.
    + apply Forall_app. by split; [|constructor].
Qed.

Lemma rendezvous_add_meets l s d link name via :
  stored d l s -> book_ok s ->
  meets l d (rendezvous_add link name via d) (book_after (bundle_id (local_bundle l)) (RendezvousAdd link name via) s).
Proof.
  intros Hd Hs. unfold rendezvous_add. cbn [book_after].
  apply meets_lift; [apply lib_no_panic, link_from_text_no_panic|intros parsed Hparsed].
  unfold lib in Hparsed. apply map_err_Ok, link_from_text_wf in Hparsed.
  set (mname := match name with Some n => Ok n | None => lib (Link.label parsed) end : outcome error str).
  assert (Hname : (match name with Some n => mret n | None => lift (lib (Link.label parsed)) end) = lift (E := error) (S := Device) mname).
  { by destruct name. }
  rewrite Hname. apply meets_lift.
  { unfold mname. destruct name; [done|]. destruct (label_total parsed Hparsed) as [n Hn]. by rewrite Hn. }
  intros n _. cbv zeta. apply meets_lift; [apply ep_build_no_panic|intros b Hb].
  unfold mbind. rewrite (stored_load d l s Hd). eapply meets_saved; [done|].
  apply book_ok_rendezvous_add; [done|by rewrite Hb].
Qed.

Lemma pair_complete_meets l s d ch sealed nick :
  stored d l s -> book_ok s -> zlen (rendezvous ch) = 32 ->
  meets l d ((let! _ := pair_complete ch sealed nick in mret tt) d)
    (book_after (bundle_id (local_bundle l)) (PairComplete ch sealed nick) s).
Proof.
  intros Hd Hs Hr. unfold pair_complete. cbn [book_after]. rewrite mbind_assoc.
  apply (meets_lift d l (lib (open_ticket ch sealed))); [apply lib_no_panic, open_no_panic|intros x Hx].
  unfold lib in Hx. apply map_err_Ok, open_sealed in Hx as [Hx _].
  rewrite mbind_assoc. unfold mbind at 1. rewrite (stored_identity d l s Hd). case_decide; [done|]. cbv zeta.
  rewrite mbind_assoc. unfold mbind at 1. rewrite (stored_load d l s Hd). unfold book_pair.
  destruct (find_peer nick s) as [p|] eqn:Hf.
  - rewrite !mbind_assoc. apply (meets_lift d l (lib (Ticket.from_text (peer_text p)))).
    { apply lib_no_panic, from_text_no_panic. }
    intros old _. case_decide as Hid; case_decide as Hid'; try done.
    unfold mbind at 1, mret at 1. apply meets_map. eapply meets_saved; [done|].
    apply book_ok_update; [done|done|]. intros q. by apply peer_ok_repaired.
  - rewrite mbind_assoc. unfold mbind at 1, mret at 1. apply meets_map. eapply meets_saved; [done|].
    eapply book_ok_append; [done|exact Hf|done|]. by apply peer_ok_new.
Qed.

Lemma run_op_meets l s d o :
  stored d l s -> book_ok s -> op_ok o -> meets l d (run_op o d) (book_after (bundle_id (local_bundle l)) o s).
Proof.
  intros Hd Hs Ho. destruct o as [addrs|ch sealed nick|nick ps|link name via|name]; cbn [run_op].
  - by apply set_endpoints_meets.
  - by apply pair_complete_meets.
  - by apply remember_meets.
  - by apply rendezvous_add_meets.
  - by apply rendezvous_remove_meets.
Qed.
(** ** Theorem: the book *)

Fixpoint run_ops (ops : list op) (d : Device) : list (outcome error unit) * Device :=
  match ops with
  | [] => ([], d)
  | o :: ops => let (r, d) := run_op o d in let (rs, d) := run_ops ops d in (r :: rs, d)
  end.

(** The abstract run: a refused command leaves the book. *)
Definition answer (r : outcome error LiveState) : outcome error unit :=
  match r with Ok _ => Ok tt | Err e => Err e | Panic => Panic end.
Definition next (r : outcome error LiveState) (s : LiveState) : LiveState :=
  match r with Ok s' => s' | _ => s end.

Fixpoint books (me : BundleId) (ops : list op) (s : LiveState) : list (outcome error unit) * LiveState :=
  match ops with
  | [] => ([], s)
  | o :: ops =>
      let r := book_after me o s in
      let (rs, s') := books me ops (next r s) in (answer r :: rs, s')
  end.

Fixpoint books_fit (me : BundleId) (ops : list op) (s : LiveState) : Prop :=
  match ops with
  | [] => True
  | o :: ops => fits (next (book_after me o s) s) /\ books_fit me ops (next (book_after me o s) s)
  end.

Lemma discovery_from_ok l : Forall (fun e => is_ok (ep_build e) = true) l -> is_ok (discovery_from l) = true.
Proof.
  induction 1 as [|e l He _ IH]; [done|]. cbn [discovery_from]. destruct (ep_build e); [|done..]. cbn [obind].
  by destruct (discovery_from l).
Qed.

(** C37: The peer book is an encrypted file that refines the plain list it stands
    for, and stays usable.  From a device that stores an identity and a good book,
    any sequence of commands (setting addresses, finishing a pairing with whatever
    was pasted, remembering what a connection learned, adding and removing
    rendezvous endpoints with whatever was typed) answers what the book's
    specification answers, refusals included, and ends with that book sealed in the
    file, the identity untouched; and the book is good at every point: nicknames
    and endpoint names are unique, every endpoint builds, every advertised address
    parses, and every peer gives the state a connection needs unless it was paired
    before rendezvous existed.  Nothing typed or pasted makes the program panic;
    only a book past the size the cipher can seal would. *)
Theorem peer_book_refines d l s ops :
  stored d l s -> book_ok s -> Forall op_ok ops -> books_fit (bundle_id (local_bundle l)) ops s ->
  let (rs, s') := books (bundle_id (local_bundle l)) ops s in
  exists d', run_ops ops d = (rs, d') /\ stored d' l s' /\ Forall (fun r => r <> Panic) rs /\ book_ok s' /\
    is_ok (discovery_from (rendezvous_list s')) = true /\
    is_ok (parse_endpoints (my_endpoints s')) = true /\
    forall p, p ∈ peers s' -> (exists ps, peer_state p = Ok ps) \/ rendezvous_text p = None.
Proof.
  intros Hd Hs Ho. revert d s Hd Hs. induction Ho as [|o ops Ho _ IH]; intros d s Hd Hs; cbn [books run_ops books_fit].
  - intros _. exists d. pose proof Hs as (_ & Hp & He & _ & Hr).
    split_and!; [done|done|constructor|done|by apply discovery_from_ok| |].
    + by destruct (parse_endpoint_texts _ He) as (es & -> & _).
    + intros p Hin. rewrite list.Forall_forall in Hp. by apply peer_ok_usable, Hp.
  - intros [Hf Hfs]. pose proof (run_op_meets l s d o Hd Hs Ho) as Hm.
    destruct (book_after (bundle_id (local_bundle l)) o s) as [s1|e|]; cbn [meets next answer] in *; [| |done].
    + destruct Hm as [Hs1 Hm]. destruct (Hm Hf) as (d1 & -> & Hd1 & _). specialize (IH d1 s1 Hd1 Hs1 Hfs).
      destruct (books _ ops s1) as [rs s']. destruct IH as (d' & -> & Hd' & Hrs & Hrest).
      exists d'. split_and!; try done; try apply Hrest. by constructor.
    + rewrite Hm. specialize (IH d s Hd Hs Hfs).
      destruct (books _ ops s) as [rs s']. destruct IH as (d' & -> & Hd' & Hrs & Hrest).
      exists d'. split_and!; try done; try apply Hrest. by constructor.
Qed.
End book.

(** ** Theorem: pairing *)

Section pairing_devices.
Context `{UnicodeCase} `{!UnicodeCaseLaws _} `{Aead} `{!AeadLaws _} `{Blake3} `{!Blake3Laws _} `{Base32} `{!Base32Laws _}.
Context `{Sha256} `{!Sha256Laws _} `{SignatureLib} `{Spake2} `{!Spake2Laws _} `{ServerNames} `{SocketText}.
Context `{!SocketTextLaws _} `{Json} `{!JsonLaws _} `{Generation}.

(** A device that can offer a ticket: its addresses are [hs], at time [now]. *)
Definition presentable (d : Device) (l : LocalBundle) (s : LiveState) (hs : list Endpoint) (now : Z) : Prop :=
  stored d l s /\ book_ok s /\ bundle_wf (local_bundle l) /\ zlen (bundle_to_bytes (local_bundle l)) <= u16_max /\
  hs <> [] /\ parse_endpoints (my_endpoints s) = Ok hs /\ hints_wf hs /\ clock d = Some now /\ 0 <= now.

Definition ticket_of (l : LocalBundle) (hs : list Endpoint) (now : Z) : Ticket.t :=
  {| identity := local_bundle l; hints := hs; suite := LivePq1; not_after := sat_add64 now DEFAULT_TTL_SECS |}.

Lemma ticket_of_wf d l s hs now : presentable d l s hs now -> ticket_wf (ticket_of l hs now).
Proof.
  intros (_ & _ & Hb & Hn & _ & _ & Hh & _ & Hnow). split_and!; [done|done|done|]. cbn.
  unfold is_u64, sat_add64, u64_max, DEFAULT_TTL_SECS. lia.
Qed.

Lemma my_ticket_runs d l s hs now :
  presentable d l s hs now -> my_ticket d = (Ok (ticket_of l hs now), d).
Proof.
  intros (Hd & _ & _ & _ & Hne & Hp & _ & Hc & _). unfold my_ticket, mbind.
  rewrite (stored_identity d l s Hd), (stored_load d l s Hd).
  rewrite bool_decide_eq_false_2 by (intros Hx; rewrite Hx in Hp; injection Hp as Hp; by subst).
  unfold lift, gets. rewrite Hp, Hc. done.
Qed.

Lemma presentable_entropy d l s hs now g :
  presentable d l s hs now -> rng_total g -> presentable (set_entropy g d) l s hs now.
Proof. intros (Hd & Hrest) Hg. split; [by apply stored_entropy|exact Hrest]. Qed.

Lemma pair_begin_runs c d l s hs now :
  presentable d l s hs now ->
  exists st m g, Pairing.start c (entropy d) = Ok (st, m, g) /\
    pair_begin c d = (Ok (st, encode_message m), set_entropy g d) /\ presentable (set_entropy g d) l s hs now.
Proof.
  intros Hd. pose proof Hd as (((_ & Hg & _) & _) & _).
  destruct (spake_start_total (secret c) PAKE_IDENTITY (entropy d) Hg) as (st & m & g & Hs & Hg').
  unfold Pairing.start. rewrite Hs. cbn [or_panic obind]. eexists _, _, g. split; [done|].
  split; [|by apply presentable_entropy]. unfold pair_begin, mbind, drawing, Pairing.start. rewrite Hs. done.
Qed.

(** One end of round two, given the channel. *)
Lemma pair_exchange_runs st p ch d l s hs now text g :
  presentable d l s hs now -> (let? m := decode_message p in finish st m) = Ok ch ->
  seal_ticket ch (ticket_of l hs now) (entropy d) = Ok (text, g) -> rng_total g ->
  pair_exchange st p d = (Ok (ch, text), set_entropy g d) /\ presentable (set_entropy g d) l s hs now.
Proof.
  intros Hd Hf Hs Hg. split; [|by apply presentable_entropy].
  unfold pair_exchange, mbind at 1, lift at 1. apply obind_Ok in Hf as (m & -> & Hf). cbn [lib map_err].
  unfold mbind at 1, lift at 1. rewrite Hf. cbn [lib map_err]. unfold mbind at 1. rewrite (my_ticket_runs d l s hs now Hd).
  unfold mbind, drawing. by rewrite Hs.
Qed.

Lemma pair_complete_runs ch q nick x d l s s' :
  stored d l s -> book_ok s -> zlen (rendezvous ch) = 32 -> open_ticket ch q = Ok x ->
  ticket_id x <> bundle_id (local_bundle l) -> book_pair nick x (rendezvous ch) s = Ok s' -> fits s' ->
  exists d', pair_complete ch q nick d = (Ok x, d') /\ stored d' l s' /\ book_ok s'.
Proof.
  intros Hd Hs Hr Hx Hne Hb Hf. pose proof (pair_complete_meets l s d ch q nick Hd Hs Hr) as Hm.
  cbn [book_after] in Hm. rewrite Hx in Hm. cbn [lib map_err obind] in Hm. rewrite decide_False in Hm by done.
  unfold rendezvous_secret in Hm. rewrite Hb in Hm. destruct Hm as [Hs' Hm].
  destruct (Hm Hf) as (d' & Hrun & Hd' & _). apply mbind_inv in Hrun as (t & d1 & Hrun & Hret).
  unfold mret in Hret. injection Hret as ->. exists d'. split_and!; [|done|done].
  enough (t = x) as -> by exact Hrun. unfold pair_complete in Hrun.
  apply mbind_inv in Hrun as (x' & d2 & Hx' & Hrun). unfold lift in Hx'. rewrite Hx in Hx'. injection Hx' as <- <-.
  apply mbind_inv in Hrun as (me & d3 & _ & Hrun). case_decide; [done|].
  apply mbind_inv in Hrun as (st & d4 & _ & Hrun). apply mbind_inv in Hrun as (np & d5 & _ & Hrun).
  apply mbind_inv in Hrun as (u & d6 & _ & Hrun). unfold mret in Hrun. by injection Hrun.
Qed.

(** The nickname is free, or already names this identity. *)
Definition free_for (nick : str) (i : BundleId) (s : LiveState) : Prop :=
  forall p, find_peer nick s = Some p -> exists old, Ticket.from_text (peer_text p) = Ok old /\ ticket_id old = i.

(** After pairing, the book knows the peer under the nickname: its pinned identity
    and the secret of the pairing. *)
Lemma book_pair_knows nick x secret s :
  book_ok s -> free_for nick (ticket_id x) s -> ticket_wf x -> zlen secret = 32 ->
  exists s' p ps, book_pair nick x secret s = Ok s' /\ find_peer nick s' = Some p /\ peer_state p = Ok ps /\
    p_identity ps = identity x /\ p_rendezvous ps = secret /\
    (find_peer nick s = None -> last_known ps = hints x /\ newest_seen ps = None).
Proof.
  intros Hs Hfree Hx Hlen. unfold book_pair. destruct (find_peer nick s) as [p|] eqn:Hf.
  - destruct (Hfree p Hf) as (old & -> & Hid). cbn [lib map_err obind]. rewrite decide_True by done.
    assert (Hp : peer_ok p).
    { pose proof Hs as (_ & Hp & _). rewrite list.Forall_forall in Hp. by apply Hp; apply find_peer_Some in Hf as [_ Hf]. }
    destruct (peer_ok_state (repaired x secret p) x secret) as (known & Hk & Hps); [done|done|done|done|apply Hp|].
    eexists _, (repaired x secret p), _. split_and!; [done| |exact Hps|done|done|done].
    unfold find_peer in *. cbn [with_peers peers]. apply find_update; [by intros ? <-|done].
  - destruct (peer_ok_state (LivePeer_new nick x secret) x secret) as (known & Hk & Hps); [done|done|done|done|constructor|].
    cbn in Hk. injection Hk as <-. eexists _, (LivePeer_new nick x secret), _. split_and!; [done| |exact Hps|done|done|done].
    unfold find_peer in *. cbn [with_peers peers]. by apply find_append.
Qed.

(** Pairing leaves both devices able to find each other.  Two devices, two
    different identities, one spoken code typed at both in any grouping and case:
    both begin; each gives the other's message, pasted with whatever whitespace and
    case a messenger made of it, to the exchange, and then the other's sealed ticket
    to the completion.  Every step succeeds.  Each device ends up with the other's
    ticket, exactly as made, and with a book in which the nickname gives the
    other's identity as the pinned one, and both books hold one and the same
    32-byte rendezvous secret: what the two need to publish to and look up each
    other.  A nickname that was free starts from the addresses in the ticket. *)
Theorem pairing_stores_the_same_secret c ta tb da la sa ha na db lb sb hb nb nick_a nick_b :
  spoken c -> typed c ta -> typed c tb ->
  presentable da la sa ha na -> presentable db lb sb hb nb ->
  bundle_id (local_bundle la) <> bundle_id (local_bundle lb) ->
  free_for nick_b (bundle_id (local_bundle lb)) sa -> free_for nick_a (bundle_id (local_bundle la)) sb ->
  let xa := ticket_of la ha na in
  let xb := ticket_of lb hb nb in
  exists sta ma da1 stb mb db1,
    (let? c := lib (parse ta) in fst (pair_begin c da)) = Ok (sta, ma) /\ snd (pair_begin c da) = da1 /\
    (let? c := lib (parse tb) in fst (pair_begin c db)) = Ok (stb, mb) /\ snd (pair_begin c db) = db1 /\
    presentable da1 la sa ha na /\ presentable db1 lb sb hb nb /\
    forall pa pb, pasted ma pa -> pasted mb pb ->
    exists ch sealed_a da2 sealed_b db2,
      pair_exchange sta pb da1 = (Ok (ch, sealed_a), da2) /\
      pair_exchange stb pa db1 = (Ok (ch, sealed_b), db2) /\
      presentable da2 la sa ha na /\ presentable db2 lb sb hb nb /\
      exists sa' sb' p q ps qs,
        zlen (rendezvous ch) = 32 /\
        find_peer nick_b sa' = Some p /\ peer_state p = Ok ps /\
        p_identity ps = local_bundle lb /\ p_rendezvous ps = rendezvous ch /\
        find_peer nick_a sb' = Some q /\ peer_state q = Ok qs /\
        p_identity qs = local_bundle la /\ p_rendezvous qs = rendezvous ch /\
        (find_peer nick_b sa = None -> last_known ps = hb /\ newest_seen ps = None) /\
        (find_peer nick_a sb = None -> last_known qs = ha /\ newest_seen qs = None) /\
        (fits sa' -> forall qb, pasted sealed_b qb ->
           exists da3, pair_complete ch qb nick_b da2 = (Ok xb, da3) /\ stored da3 la sa' /\ book_ok sa') /\
        (fits sb' -> forall qa, pasted sealed_a qa ->
           exists db3, pair_complete ch qa nick_a db2 = (Ok xa, db3) /\ stored db3 lb sb' /\ book_ok sb').
Proof.
  intros Hc Hta Htb Hda Hdb Hne Hfa Hfb xa xb.
  destruct (pair_begin_runs c da la sa ha na Hda) as (sta & ma & ga & Hsa & Hba & Hda1).
  destruct (pair_begin_runs c db lb sb hb nb Hdb) as (stb & mb & gb & Hsb & Hbb & Hdb1).
  exists sta, (encode_message ma), (set_entropy ga da), stb, (encode_message mb), (set_entropy gb db).
  rewrite (parse_typed c ta), (parse_typed c tb) by done. cbn [lib map_err obind]. rewrite Hba, Hbb.
  split_and!; try done. intros pa pb Hpa Hpb.
  destruct (pairing_delivers c ta tb (entropy da) (entropy db) sta ma ga stb mb gb pa pb)
    as (ch & Hcha & Hchb & Hr & Hseal); [done|done|done|by rewrite (parse_typed c) by done..|done|done|].
  destruct (Hseal xa ga) as (sla & ga2 & Hsla & Hga2 & Hopena).
  { by eapply ticket_of_wf. } { by destruct Hda1 as (((_ & ? & _) & _) & _). }
  destruct (Hseal xb gb) as (slb & gb2 & Hslb & Hgb2 & Hopenb).
  { by eapply ticket_of_wf. } { by destruct Hdb1 as (((_ & ? & _) & _) & _). }
  destruct (pair_exchange_runs sta pb ch (set_entropy ga da) la sa ha na sla ga2) as [Hea Hda2]; [done..|].
  destruct (pair_exchange_runs stb pa ch (set_entropy gb db) lb sb hb nb slb gb2) as [Heb Hdb2]; [done..|].
  exists ch, sla, (set_entropy ga2 (set_entropy ga da)), slb, (set_entropy gb2 (set_entropy gb db)).
  split; [exact Hea|]. split; [exact Heb|]. split; [exact Hda2|]. split; [exact Hdb2|].
  destruct (book_pair_knows nick_b xb (rendezvous ch) sa) as (sa' & p & ps & Hsa' & Hp & Hps & Hi & Hrdv & Hnew);
    [apply Hda|done|by eapply ticket_of_wf|done|].
  destruct (book_pair_knows nick_a xa (rendezvous ch) sb) as (sb' & q & qs & Hsb' & Hq & Hqs & Hi' & Hrdv' & Hnew');
    [apply Hdb|done|by eapply ticket_of_wf|done|].
  exists sa', sb', p, q, ps, qs. split_and!; try done.
  - intros Hf qb Hqb. eapply pair_complete_runs; [apply Hda2|apply Hda|done|by apply Hopenb|done|done|done].
  - intros Hf qa Hqa. eapply pair_complete_runs; [apply Hdb2|apply Hdb|done|by apply Hopena|by apply not_eq_sym|done|done].
Qed.
End pairing_devices.

(** ** Examples

    Stand-ins for the text form of addresses and for JSON that have their laws. *)
Module ToyBook.

Definition unhex_byte (a b : byte) : option byte :=
  x ← hex_val a; y ← hex_val b; Some (z2b (16 * x + y)).

Fixpoint unhex (s : str) : option bytes :=
  match s with
  | [] => Some []
  | a :: b :: s => c ← unhex_byte a b; r ← unhex s; Some (c :: r)
  | _ => None
  end.

Lemma unhex_hex_byte b : unhex_byte (hex_digit (b2z b / 16)) (hex_digit (b2z b mod 16)) = Some b.
Proof. all_bytes b. Qed.

Lemma unhex_cons b s : unhex (hex_byte b ++ s) = r ← unhex s; Some (b :: r).
Proof.
  change (unhex (hex_byte b ++ s)) with
    (c ← unhex_byte (hex_digit (b2z b / 16)) (hex_digit (b2z b mod 16)); r ← unhex s; Some (c :: r)).
  by rewrite unhex_hex_byte.
Qed.

Lemma unhex_hex l : unhex (hex l) = Some l.
Proof.
  induction l as [|b l IH]; [done|]. unfold hex in *. cbn [map concat]. rewrite unhex_cons, IH. done.
Qed.

Definition socket_bytes (a : SocketAddr) : bytes :=
  match a with
  | SocketV4 o p => [Byte.x04] ++ be_bytes 2 p ++ o
  | SocketV6 o p _ s => [Byte.x06] ++ be_bytes 2 p ++ be_bytes 4 s ++ o
  end.

Definition socket_of_bytes (b : bytes) : option SocketAddr :=
  match b with
  | t :: b =>
      if decide (t = Byte.x04) then Some (SocketV4 (zdrop 2 b) (be_val (ztake 2 b)))
      else Some (SocketV6 (zdrop 6 b) (be_val (ztake 2 b)) 0 (be_val (ztake 4 (zdrop 2 b))))
  | [] => None
  end.

#[local] Instance textual_dec a : Decision (socket_textual a).
Proof.
  unfold socket_textual, socket_wf, ip_wf, is_u16, is_u32.
  destruct a; cbn; repeat apply and_dec; apply _.
Defined.

#[export] Instance text : SocketText := {
  socket_to_string a := hex (socket_bytes a);
  socket_parse s :=
    b ← unhex s; a ← socket_of_bytes b;
    if decide (socket_textual a /\ hex (socket_bytes a) = s) then Some a else None;
}.

Lemma socket_of_socket_bytes a : socket_textual a -> socket_of_bytes (socket_bytes a) = Some a.
Proof.
  intros [[Hi Hp] Ht]. unfold is_u16 in Hp. destruct a as [o p|o p f s]; cbn in Hi, Hp.
  - change (socket_of_bytes (socket_bytes (SocketV4 o p)))
      with (Some (SocketV4 (zdrop 2 (be_bytes 2 p ++ o)) (be_val (ztake 2 (be_bytes 2 p ++ o))))).
    rewrite ztake_app_l, zdrop_app_l by (by rewrite zlen_be_bytes). by rewrite be_val_small.
  - destruct Ht as [-> Hs]. unfold is_u32 in Hs. set (b := be_bytes 2 p ++ be_bytes 4 s ++ o).
    change (socket_of_bytes (socket_bytes (SocketV6 o p 0 s)))
      with (Some (SocketV6 (zdrop 6 b) (be_val (ztake 2 b)) 0 (be_val (ztake 4 (zdrop 2 b))))).
    assert (H6 : zdrop 6 b = o).
    { unfold b. rewrite app_assoc. apply zdrop_app_l. by rewrite zlen_app, !zlen_be_bytes. }
    rewrite H6. unfold b. rewrite ztake_app_l, zdrop_app_l by (by rewrite zlen_be_bytes).
    rewrite ztake_app_l by (by rewrite zlen_be_bytes). by rewrite !be_val_small.
Qed.

Lemma hex_byte_symbols b : Forall (fun c => socket_symbol c = true) (hex_byte b).
Proof.
  apply forallb_Forall. all_bytes b.
Qed.

Lemma hex_symbols l : Forall (fun c => socket_symbol c = true) (hex l).
Proof. apply Forall_concat, Forall_map, list.Forall_forall. intros b _. apply hex_byte_symbols. Qed.

#[export] Instance text_laws : SocketTextLaws text.
Proof.
  split; cbn [socket_parse socket_to_string text].
  - intros a Ha. split; [|apply hex_plain]. rewrite unhex_hex. change (Some ?x ≫= ?f) with (f x).
    cbv beta. rewrite socket_of_socket_bytes by done. change (Some ?x ≫= ?f) with (f x). cbv beta.
    by rewrite decide_True.
  - intros s a Hs. apply bind_Some in Hs as (b & _ & Hs). apply bind_Some in Hs as (a' & _ & Hs).
    case_decide as Hd; [|done]. injection Hs as <-. destruct Hd as [Ht <-]. split; [done|apply hex_symbols].
Qed.

(** *** Any encoding of the book that can be decoded *)

Abbreviation peer_tuple := (str * str * option str * list str * option Z)%type.
Abbreviation book_tuple := (list str * list peer_tuple * list (str * str * option str))%type.

Definition book_tuple_of (s : LiveState) : book_tuple :=
  (my_endpoints s,
   map (fun p => (nickname p, peer_text p, rendezvous_text p, reached_at p, seen p)) (peers s),
   map (fun e => (ep_name e, ep_link e, ep_via_socks e)) (rendezvous_list s)).

Definition book_of_tuple (t : book_tuple) : LiveState :=
  let '(es, ps, rs) := t in
  {| my_endpoints := es;
     peers := map (fun p : peer_tuple => let '(n, x, r, k, s) := p in
                {| nickname := n; peer_text := x; rendezvous_text := r; reached_at := k; seen := s |}) ps;
     rendezvous_list := map (fun e : str * str * option str => let '(n, l, v) := e in
                {| ep_name := n; ep_link := l; ep_via_socks := v |}) rs |}.

Lemma book_tuple_inv s : book_of_tuple (book_tuple_of s) = s.
Proof.
  destruct s as [es ps rs]. unfold book_of_tuple, book_tuple_of. cbn. rewrite !map_map. f_equal.
  - rewrite <- (map_id ps) at 2. apply map_ext. by intros [].
  - rewrite <- (map_id rs) at 2. apply map_ext. by intros [].
Qed.

#[export] Instance json : Json := {
  to_json s := ToyBits.to_bits (book_tuple_of s);
  from_json b := t ← ToyBits.from_bits (A := book_tuple) b; Some (book_of_tuple t);
}.
#[export] Instance json_laws : JsonLaws json.
Proof.
  split. intros s. unfold from_json, to_json, json. rewrite ToyBits.from_to_bits.
  change (Some ?x ≫= ?f) with (f x). cbv beta. by rewrite book_tuple_inv.
Qed.


#[export] Instance generation : Generation := { generate_bundle _ := None }.
End ToyBook.

Import Toy ToySig ToySpake ToyNames ToyBook.

(** A device whose files are in the form from before encryption, as the first run
    after an update finds them. *)
Definition demo_endpoint (n : byte) : Endpoint := Direct (SocketV4 [Byte.xcb; Byte.x00; Byte.x71; n] 4433).
Definition demo_book (n : byte) : LiveState :=
  {| my_endpoints := [endpoint_to_string (demo_endpoint n)]; peers := []; rendezvous_list := [] |}.
Definition demo_device (n : byte) : Device :=
  {| config_key := Some (zrep 32 Byte.x33); identity_file := Some (to_secret_bytes (example_local n));
     peers_file := Some (to_json (demo_book n)); disk_full := None; clock := Some 1700000000;
     entropy := rng_const n |}.

Lemma demo_identity n : holds_identity (demo_device n) (example_local n).
Proof.
  split.
  - unfold local_wf. cbv zeta. split; [reflexivity|]. split; [by vm_compute|].
    cbn [pq_pkcs8 pq_public example_local]. split; [reflexivity|]. split; [by vm_compute|reflexivity].
  - exists (to_secret_bytes (example_local n)). split; reflexivity.
Qed.

Lemma demo_stored n : stored (demo_device n) (example_local n) (demo_book n).
Proof.
  split; [|split; [apply demo_identity|]].
  - split; [by exists (zrep 32 Byte.x33)|]. split; [apply rng_const_total|done].
  - unfold holds_book. cbn [peers_file demo_device]. exists (to_json (demo_book n)).
    split; [|apply from_to_json]. unfold decrypt_config, to_json, json. by rewrite bits_unsealed.
Qed.

Lemma demo_book_ok n : book_ok (demo_book n).
Proof.
  split_and!; try constructor; try constructor. exists (demo_endpoint n). split; [|done].
  split; [split|]; done.
Qed.

Lemma peer_book_refines_witness :
  let ops := [SetEndpoints [lit "nonsense"]; SetEndpoints [endpoint_to_string (demo_endpoint Byte.x02)];
              RendezvousRemove (lit "nobody")] in
  let (rs, s') := books (bundle_id (local_bundle (example_local Byte.x01))) ops (demo_book Byte.x01) in
  exists d', run_ops ops (demo_device Byte.x01) = (rs, d') /\ stored d' (example_local Byte.x01) s'.
Proof.
  intros ops.
  pose proof (peer_book_refines (demo_device Byte.x01) (example_local Byte.x01) (demo_book Byte.x01) ops
    (demo_stored _) (demo_book_ok _)) as Hr.
  assert (Ho : Forall op_ok ops) by (repeat constructor).
  assert (Hf : books_fit (bundle_id (local_bundle (example_local Byte.x01))) ops (demo_book Byte.x01)).
  { vm_compute. repeat split; discriminate. }
  specialize (Hr Ho Hf). destruct (books _ ops _) as [rs s'].
  destruct Hr as (d' & Hrun & Hd & _). exists d'. split; [exact Hrun|exact Hd].
Defined.

Lemma demo_presentable n :
  presentable (demo_device n) (example_local n) (demo_book n) [demo_endpoint n] 1700000000.
Proof.
  split; [apply demo_stored|]. split; [apply demo_book_ok|].
  split; [split; [vm_compute; split; discriminate|vm_compute; reflexivity]|].
  split; [vm_compute; discriminate|]. split; [discriminate|]. split.
  - cbn [my_endpoints demo_book parse_endpoints]. rewrite parse_endpoint_display; [done|].
    split; [split|]; done.
  - split; [|split; [done|lia]]. split; [vm_compute; discriminate|]. constructor; [split; done|constructor].
Qed.

Lemma pairing_stores_the_same_secret_witness :
  exists sta ma da1 stb mb db1,
    (let? c := lib (parse (lit " K7M2 P9QF-4tz")) in fst (pair_begin c (demo_device Byte.x01))) = Ok (sta, ma) /\
    (let? c := lib (parse (display demo_code)) in fst (pair_begin c (demo_device Byte.x02))) = Ok (stb, mb) /\
    forall pa pb, pasted ma pa -> pasted mb pb ->
    exists ch sealed_a da2 sealed_b db2,
      pair_exchange sta pb da1 = (Ok (ch, sealed_a), da2) /\
      pair_exchange stb pa db1 = (Ok (ch, sealed_b), db2) /\ zlen (rendezvous ch) = 32.
Proof.
  destruct demo_code_spoken as (Hc & Htb & Hta).
  destruct (pairing_stores_the_same_secret demo_code (lit " K7M2 P9QF-4tz") (display demo_code)
    (demo_device Byte.x01) (example_local Byte.x01) (demo_book Byte.x01) [demo_endpoint Byte.x01] 1700000000
    (demo_device Byte.x02) (example_local Byte.x02) (demo_book Byte.x02) [demo_endpoint Byte.x02] 1700000000
    (lit "alice") (lit "bob") Hc Hta Htb (demo_presentable _) (demo_presentable _))
    as (sta & ma & da1 & stb & mb & db1 & Ha & _ & Hb & _ & _ & _ & Hx).
  - vm_compute. discriminate.
  - intros p Hp. discriminate Hp.
  - intros p Hp. discriminate Hp.
  - exists sta, ma, da1, stb, mb, db1. split; [exact Ha|]. split; [exact Hb|]. intros pa pb Hpa Hpb.
    destruct (Hx pa pb Hpa Hpb) as (ch & sealed_a & da2 & sealed_b & db2 & H1 & H2 & _ & _ & Hr).
    exists ch, sealed_a, da2, sealed_b, db2. split; [exact H1|]. split; [exact H2|].
    destruct Hr as (? & ? & ? & ? & ? & ? & Hr & _). exact Hr.
Defined.
