(* ===== verification/Live.v ===== *)
(** * Live transfers, end to end

    [atom/src/commands/live.rs]: what [atom live announce], [send] and [receive] do
    with the stored identity and peer book, the ladder of [Reach] and the protocol of
    [Transfer].  This is where the components meet. *)

From Stdlib Require Import Strings.Byte.
From stdpp Require Import strings.
From S2P Require Import Prelude Keyed Text Primitives LiveError StateM Disk.
From S2P Require Import Framing Session Pacing Transfer Bundle Net Ticket Slots AddressRecord Discovery.
From S2P Require Import PqAuth Reach Pairing Link Blind ConfigFile PeerBook.

(** [RENDEZVOUS_TIMEOUT], in nanoseconds. *)
Definition RENDEZVOUS_TIMEOUT : Z := 120 * second.

Inductive Direction := Sending | Receiving.

Record AnnounceOutcome := {
  announced_to : str;
  reached : list string;
  not_reached : list (string * Error.t);
}.

(** The device with its files, the world it connects through, and the file being moved
    as the transfer sees it. *)
Record Machine (W : Type) := { device : Device; world : W; payload : Transfer.endpoint }.
Arguments device {W} _.
Arguments world {W} _.
Arguments payload {W} _.

Section live.
Context `{UnicodeCase} `{Aead} `{Blake3} `{Base32} `{Sha256} `{SignatureLib} `{Spake2}.
Context `{ServerNames} `{SocketText} `{Json} `{Generation}.
Context {W : Type} `{Transport W Chan} `{Exporter Chan}.

(** The connection to a blind endpoint; the faults and cancellation of a transfer; the
    fuel of the rendezvous loops; the generator of the lookups.  [shown] is the text of
    an endpoint's name. *)
Context (shown : str -> string) (wire : BlindEndpoint -> bytes -> M Error.t W stream).
Context (env : environment) (fuel : nat) (g : rng).

Abbreviation L := (M error (Machine W)).

Definition on_device {A} (m : D A) : L A := fun s =>
  let (r, d) := m (device s) in (r, {| device := d; world := world s; payload := payload s |}).

Definition substrates (bs : list BlindEndpoint) : list (Substrate W) :=
  map (fun e => substrate_of wire (shown (be_name e)) e) bs.

(** ** Announcing *)

(** A peer whose turn it is, and who can be found by identity. *)
Definition selected (only : option str) (p : LivePeer) : bool :=
  match only with Some n => bool_decide (n = nickname p) | None => true end &&
  bool_decide (is_Some (rendezvous_text p)).

(** The loop over the peers: one record for each, in its own slots. *)
Fixpoint announce_loop (me : LocalBundle) (bs : list BlindEndpoint) (h : list Endpoint) (millis : option Z)
    (only : option str) (l : list LivePeer) (outcomes : list AnnounceOutcome) : M error W (list AnnounceOutcome) :=
  match l with
  | [] => mret outcomes
  | p :: l =>
      if negb (selected only p) then announce_loop me bs h millis only l outcomes else
      let! ps := lift (peer_state p) in
      let! report := mmap_err Lib (announce me ps (substrates bs) h millis g) in
      announce_loop me bs h millis only l
        (outcomes ++ [{| announced_to := nickname p; reached := succeeded report; not_reached := failed report |}])
  end.

(** [announce_core]. *)
Definition announce_core (only : option str) (millis : option Z) : L (list AnnounceOutcome) :=
  let! state := on_device load_state in
  let! me := on_device load_or_create_identity in
  let! discovery := lift (discovery_from (rendezvous_list state)) in
  if bool_decide (discovery = []) then fails (app "No rendezvous endpoint configured.") else
  let! h := lift (parse_endpoints (my_endpoints state)) in
  if bool_decide (h = []) then fails (app "No address set, so there is nothing to publish.") else
  let! outcomes := (fun s =>
    let (r, w) := announce_loop me discovery h millis only (peers state) [] (world s) in
    (r, {| device := device s; world := w; payload := payload s |})) in
  if bool_decide (outcomes = []) then fails (app "No peers to announce to.") else mret outcomes.

(** ** Transferring *)

(** The transfer of a vault over a session: sealed already, paced by default. *)
Definition vault_transfer : Transfer := with_pacing transfer_new pacing_default.

Definition move (d : Direction) : Transfer.T Summary :=
  match d with Sending => send env vault_transfer | Receiving => recv env vault_transfer end.

Definition transfer_options (bs : list BlindEndpoint) : Options :=
  {| timeout := RENDEZVOUS_TIMEOUT; socks := None; use_discovery := negb (bool_decide (bs = [])) |}.

(** [reach::connect] to a peer, in the world [w]. *)
Definition attempt (me : LocalBundle) (bs : list BlindEndpoint) (ps : PeerState) (bind : SocketAddr) (w : W)
    : result (Chan * Path) * Reaching W :=
  connect fuel me (substrates bs) (transfer_options bs) g bind {| peer := ps; net := w |}.

(** Connecting and moving the payload; what was learned of the peer is kept only when
    the transfer succeeds.  Closing the session afterwards is ignored. *)
Definition over_session (me : LocalBundle) (bs : list BlindEndpoint) (ps : PeerState) (bind : SocketAddr)
    (d : Direction) : L (Summary * PeerState) := fun s =>
  let (r, n) := attempt me bs ps bind (world s) in
  match r with
  | Ok (session, _) =>
      let (t, e) := move d (set_chan session (payload s)) in
      (let? sm := map_err Lib t in Ok (sm, peer n), {| device := device s; world := net n; payload := e |})
  | Err e => (Err (Lib e), {| device := device s; world := net n; payload := payload s |})
  | Panic => (Panic, {| device := device s; world := net n; payload := payload s |})
  end.

(** [run_transfer]. *)
Definition run_transfer (nick : str) (d : Direction) : L Summary :=
  let! state := on_device load_state in
  let! p := on_device (stored_peer nick) in
  let! me := on_device load_or_create_identity in
  let! bind := on_device bind_address in
  let! discovery := lift (discovery_from (rendezvous_list state)) in
  let! ps := lift (peer_state p) in
  let! (summary, learned) := over_session me discovery ps bind d in
  let! _ := on_device (remember nick learned) in
  mret summary.

(** [send_core], [receive_core]: the vault must exist; the folder it is saved in is
    made. *)
Definition send_core (exists_ : bool) (nick : str) : L Summary :=
  if exists_ then run_transfer nick Sending else fails (app "No such vault").
Definition receive_core (folder_made : bool) (nick : str) : L Summary :=
  if folder_made then run_transfer nick Receiving else fails (app "create_dir_all").
End live.

(** ** Lemmas *)

Lemma vault_transfer_wf : transfer_wf vault_transfer.
Proof. split; vm_compute; by split. Qed.

(** A store reached over a connection that answers is responsive. *)
Lemma substrate_responsive {W Sess} `{T : Transport W Sess} (wire : BlindEndpoint -> bytes -> M Error.t W stream) n e :
  (forall e b, forward instant (wire e b)) -> (forall e b w s, fst (wire e b w) = Ok s -> stream_wf s) ->
  responsive (substrate_of wire n e).
Proof.
  intros Hf Hs t w. cbn [substrate_of sub_get]. unfold endpoint_get, request, mbind.
  specialize (Hf e (request_bytes e (lit "GET") t None) w) as [Hp Hc].
  specialize (Hs e (request_bytes e (lit "GET") t None) w).
  destruct (wire _ _ w) as [[s|x|] w']; cbn [fst snd] in *; [|done|done].
  destruct (read_response_spec s) as (r & s' & Hr & Hnp & _); [by apply Hs|]. unfold lift. rewrite Hr. cbn [fst].
  destruct r as [[st b]|x|]; [|done|done]. destruct (st =? 200); [done|]. by case_bool_decide.
Qed.

Lemma absorb_stored p r : record_wf r -> Forall endpoint_stored (last_known (absorb r p)).
Proof.
  intros (_ & (_ & Hh) & _). cbn. eapply Forall_impl; [|exact Hh]. apply endpoint_wf_stored.
Qed.

Section facts.
Context `{UnicodeCase} `{!UnicodeCaseLaws _} `{Aead} `{!AeadLaws _} `{Blake3} `{!Blake3Laws _} `{Base32} `{!Base32Laws _}.
Context `{Sha256} `{SignatureLib} `{Spake2} `{ServerNames} `{SocketText} `{!SocketTextLaws _} `{Json} `{!JsonLaws _}.
Context `{Generation} {W : Type} `{T : Transport W Chan} `{Exporter Chan}.
Context (shown : str -> string) (wire : BlindEndpoint -> bytes -> M Error.t W stream).
Context (env : environment) (fuel : nat) (g : rng).

(** The peer named [nick] is in the book as [ps], and the attempt to reach it gave
    [session], with [ps'] learned of it. *)
Definition met (l : LocalBundle) (book : LiveState) (nick : str) (w : W) (ps : PeerState) (session : Chan)
    (ps' : PeerState) : Prop :=
  exists p bs bind path n, find_peer nick book = Some p /\ peer_state p = Ok ps /\
    discovery_from (rendezvous_list book) = Ok bs /\ bind_from (my_endpoints book) = Ok bind /\
    attempt shown wire fuel g l bs ps bind w = (Ok (session, path), n) /\ ps' = peer n.

(** Whoever was met proved to be the pinned identity, and what was learned is its own. *)
Lemma met_proved l book nick w ps session ps' :
  met l book nick w ps session ps' ->
  proved_to l (p_identity ps) session /\ learned (bundle_id (local_bundle l)) ps ps'.
Proof.
  intros (p & bs & bind & path & n & _ & _ & _ & _ & Ha & ->). unfold attempt in Ha.
  pose proof (connect_spec (Sess := Chan) fuel l (substrates shown wire bs) (transfer_options bs) g bind
    {| peer := ps; net := w |}) as Hc.
  rewrite Ha in Hc. destruct Hc as [Hl Hc]. by destruct (Hc _ _ eq_refl) as (_ & Hp & _).
Qed.

Lemma peer_state_stored p ps : peer_ok p -> peer_state p = Ok ps -> Forall endpoint_stored (last_known ps).
Proof.
  intros ((x & Hx & Ht) & _ & _) Hp. unfold peer_state in Hp. rewrite Ht, from_text_stored in Hp by done.
  cbn [lib map_err obind] in Hp. ok_inv Hp. injection Hp as <-. cbn [last_known]. case_bool_decide.
  - destruct Hx as (_ & _ & (_ & Hh) & _). eapply Forall_impl; [|exact Hh]. apply endpoint_wf_stored.
  - by eapply parse_endpoints_stored.
Qed.

Lemma learned_stored me ps ps' :
  Forall endpoint_stored (last_known ps) -> learned me ps ps' -> Forall endpoint_stored (last_known ps').
Proof. intros Hs [->|(n & sl & b & r & _ & _ & Hr & _ & ->)]; [done|by apply absorb_stored]. Qed.

Lemma discovery_from_no_panic l : discovery_from l <> Panic.
Proof.
  induction l as [|e l IH]; cbn [discovery_from]; [done|].
  apply obind_no_panic; [apply ep_build_no_panic|intros b _]. by apply obind_no_panic.
Qed.

Lemma bind_from_no_panic l : bind_from l <> Panic.
Proof.
  induction l as [|t l IH]; cbn [bind_from]; [done|]. pose proof (parse_endpoint_no_panic t).
  by destruct (parse_endpoint t) as [[]| |].
Qed.

Lemma peer_state_no_panic p : peer_state p <> Panic.
Proof.
  unfold peer_state. apply obind_no_panic; [apply lib_no_panic, from_text_no_panic|intros x _].
  apply obind_no_panic; [apply ok_or_no_panic|intros t _].
  apply obind_no_panic; [apply parse_endpoints_no_panic|intros es _].
  apply obind_no_panic; [|done]. unfold decode_secret.
  apply obind_no_panic; [apply ok_or_no_panic|intros raw _]. by case_match.
Qed.

Lemma on_device_pure {A} (m : D A) (a : A) s : m (device s) = (Ok a, device s) -> on_device (W := W) m s = (Ok a, s).
Proof. unfold on_device. intros ->. by destruct s. Qed.

(** A step that leaves the state. *)
Lemma mbind_still {E S A B} (r : outcome E A) (m : M E S A) (f : A -> M E S B) s :
  m s = (r, s) ->
  mbind m f s = match r with Ok a => f a s | Err e => (Err e, s) | Panic => (Panic, s) end.
Proof. unfold mbind. intros ->. by destruct r. Qed.

(** A transfer is refused before any connection, or it is a connection to the peer of
    the book. *)
Lemma run_transfer_starts l book nick dir s :
  stored (device s) l book ->
  (exists e, run_transfer shown wire env fuel g nick dir s = (Err e, s)) \/
  exists p bs bind ps, find_peer nick book = Some p /\ peer_state p = Ok ps /\
    discovery_from (rendezvous_list book) = Ok bs /\ bind_from (my_endpoints book) = Ok bind /\
    run_transfer shown wire env fuel g nick dir s =
      (let! (summary, kept) := over_session shown wire env fuel g l bs ps bind dir in
       let! _ := on_device (remember nick kept) in mret summary) s.
Proof.
  intros Hs. pose proof (stored_load _ _ _ Hs) as Hl. unfold run_transfer.
  rewrite (mbind_still (Ok book)) by by apply on_device_pure.
  rewrite (mbind_still (ok_or (find_peer nick book) (app "No such peer"))).
  2: { unfold on_device, stored_peer, mbind, lift. rewrite Hl. by destruct s. }
  destruct (find_peer nick book) as [p|] eqn:Hp; cbn [ok_or]; [|left; by eexists].
  rewrite (mbind_still (Ok l)) by by eapply on_device_pure, stored_identity.
  rewrite (mbind_still (bind_from (my_endpoints book))).
  2: { unfold on_device, bind_address, mbind, lift. rewrite Hl. by destruct s. }
  pose proof (bind_from_no_panic (my_endpoints book)).
  destruct (bind_from _) as [bind|e|] eqn:Hbind; [|left; by eexists|done].
  rewrite (mbind_still (discovery_from (rendezvous_list book))) by done.
  pose proof (discovery_from_no_panic (rendezvous_list book)).
  destruct (discovery_from _) as [bs|e|] eqn:Hd; [|left; by eexists|done].
  rewrite (mbind_still (peer_state p)) by done. pose proof (peer_state_no_panic p).
  destruct (peer_state p) as [ps|e|] eqn:Hps; [|left; by eexists|done].
  right. exists p, bs, bind, ps. by split_and!.
Qed.

(** Another book in the file. *)
Lemma stored_written d l b0 raw b s :
  stored d l b0 -> decrypt_config (config_key d) raw = Ok b -> from_json b = Some s ->
  stored (put_file PeersFile (Some raw) d) l s.
Proof. intros (Hr & Hi & _) Hd Hb. split; [exact Hr|]. split; [exact Hi|]. unfold holds_book. cbn. by exists b. Qed.

(** The book after a transfer in which [ps] was learned of [nick]. *)
Definition relearned (nick : str) (ps : PeerState) (book : LiveState) : LiveState :=
  with_peers (update_first (named nick) (learned_by ps) (peers book)) book.

(** What a payload file may look like after receiving over some session. *)
Definition received_from (e : Transfer.endpoint) (session : Chan) : Prop :=
  exists data, dest e = Some data /\ verified_payload (inbox session) data.

(** The counters of a transfer over [session] stay within 64 bits. *)
Definition room (e : Transfer.endpoint) (session : Chan) : Prop :=
  zlen (from_option content [] (part e)) + inbox_size (inbox session) < 2 ^ 64.

(** The session that would be met, checked by running the attempt. *)
Definition small_session (l : LocalBundle) (book : LiveState) (nick : str) (w : W) (e : Transfer.endpoint) : bool :=
  match find_peer nick book with
  | Some p =>
      match peer_state p, discovery_from (rendezvous_list book), bind_from (my_endpoints book) with
      | Ok ps, Ok bs, Ok bind =>
          match fst (attempt shown wire fuel g l bs ps bind w) with
          | Ok (session, _) => zlen (from_option content [] (part e)) + inbox_size (inbox session) <? 2 ^ 64
          | _ => true
          end
      | _, _, _ => true
      end
  | None => true
  end.

Lemma small_session_room l book nick w e :
  small_session l book nick w e = true ->
  forall ps session ps', met l book nick w ps session ps' -> room e session.
Proof.
  unfold small_session. intros Hc ps session ps' (p & bs & bind & path & n & Hp & Hps & Hbs & Hbind & Ha & _).
  rewrite Hp, Hps, Hbs, Hbind, Ha in Hc. by apply Z.ltb_lt in Hc.
Qed.

Lemma receive_moves e session :
  room e session ->
  let (r, e1) := move env Receiving (set_chan session e) in
  r <> Panic /\ (dest e1 = dest e \/ received_from e1 session) /\
  (forall sm, r = Ok sm -> received_from e1 session).
Proof.
  intros Hr. cbn [move]. pose proof (recv_triple env vault_transfer vault_transfer_wf (set_chan session e) Hr) as Ht.
  destruct (recv _ _ _) as [r e1]. destruct Ht as (Hnp & Hd & Hok). split_and!; [done|exact Hd|].
  intros sm Hsm. destruct (Hok sm Hsm) as (data & Hd1 & Hv & _). by exists data.
Qed.

Lemma relearned_ok nick ps book :
  book_ok book -> Forall endpoint_stored (last_known ps) -> book_ok (relearned nick ps book).
Proof. intros Hb Hl. apply book_ok_update; [done|done|]. intros q. by apply peer_ok_learned. Qed.

(** Saving what was learned stores the new book, unless it cannot be sealed. *)
Lemma remember_stores d l book nick ps :
  stored d l book ->
  (exists d', remember nick ps d = (Ok tt, d') /\ stored d' l (relearned nick ps book)) \/
  (fst (remember nick ps d) = Panic /\ ~ fits (relearned nick ps book)).
Proof.
  intros Hd. unfold remember. rewrite (mbind_Ok _ _ _ _ _ (stored_load _ _ _ Hd)).
  destruct (find_peer nick book) as [p|] eqn:Hf.
  - destruct (stored_save d l book (relearned nick ps book) Hd) as [(d' & Hr & Hd' & _)|Hp]; [left; by exists d'|by right].
  - left. exists d. split; [done|]. apply find_peer_None in Hf. unfold relearned, named.
    rewrite update_absent by done. by destruct book.
Qed.

Lemma attempt_total l bs ps bind w :
  TransportLaws T -> SessionTotal Chan -> (forall e b, forward instant (wire e b)) ->
  (forall e b w s, fst (wire e b w) = Ok s -> stream_wf s) -> enough fuel RENDEZVOUS_TIMEOUT ->
  fst (attempt shown wire fuel g l bs ps bind w) <> Panic.
Proof.
  intros HT HS Hw Hs Hf. apply connect_total; [exact Hf| |].
  - unfold enough, RENDEZVOUS_TIMEOUT, second in Hf. lia.
  - apply Forall_map, list.Forall_forall. intros e _. by apply substrate_responsive.
Qed.

(** C8: A live transfer talks to the paired peer or to nobody, and loses nothing.
    From a device that stores an identity and a good book, a transfer that succeeds
    was connected to a session whose other end proved to be the identity pinned for
    the nickname, moved exactly what [send] or [recv] move over it, and stored the
    book with what was learned of that peer, and nothing else, changed; one that is
    refused or fails, wherever that happens, leaves the device's files as they were.
    Whatever happens when receiving, the destination holds what it held before or
    bytes the proved peer announced and hashed.  Over a transport that answers,
    receiving ends without a panic unless the new book is too large to be sealed. *)
Theorem live_transfer_pins_and_keeps l book nick dir s :
  stored (device s) l book -> book_ok book ->
  (forall ps session ps', met l book nick (world s) ps session ps' -> room (payload s) session) ->
  let (r, s') := run_transfer shown wire env fuel g nick dir s in
  match r with
  | Ok sm => exists ps session ps', met l book nick (world s) ps session ps' /\
      proved_to l (p_identity ps) session /\ learned (bundle_id (local_bundle l)) ps ps' /\
      move env dir (set_chan session (payload s)) = (Ok sm, payload s') /\
      stored (device s') l (relearned nick ps' book) /\ book_ok (relearned nick ps' book)
  | Err _ => device s' = device s
  | Panic => True
  end /\
  (dir = Receiving ->
    dest (payload s') = dest (payload s) \/
    exists ps session ps', met l book nick (world s) ps session ps' /\ proved_to l (p_identity ps) session /\
      received_from (payload s') session) /\
  (TransportLaws T -> SessionTotal Chan -> (forall e b, forward instant (wire e b)) ->
   (forall e b w s, fst (wire e b w) = Ok s -> stream_wf s) -> enough fuel RENDEZVOUS_TIMEOUT ->
   dir = Receiving -> r = Panic -> exists ps', ~ fits (relearned nick ps' book)).
Proof.
  intros Hs Hb Hroom.
  destruct (run_transfer_starts l book nick dir s Hs) as [[e ->]|(p & bs & bind & ps & Hp & Hps & Hbs & Hbind & ->)].
  { split_and!; [done|by left|done]. }
  assert (Hst : Forall endpoint_stored (last_known ps)).
  { pose proof Hb as (_ & Hall & _). rewrite list.Forall_forall in Hall.
    eapply peer_state_stored; [|exact Hps]. by apply Hall, (find_peer_Some nick). }
  unfold mbind at 1, over_session.
  pose proof (attempt_total l bs ps bind (world s)) as Htot.
  destruct (attempt _ _ _ _ _ _ _ _ _) as [[[session path]|e|] n] eqn:Ha.
  2: { split_and!; [done|by left|done]. }
  2: { split_and!; [done|by left|]. intros HT HS Hw Hws Hf _ _. by destruct (Htot HT HS Hw Hws Hf). }
  clear Htot. assert (Hmet : met l book nick (world s) ps session (peer n)) by by exists p, bs, bind, path, n.
  pose proof (met_proved _ _ _ _ _ _ _ Hmet) as [Hproved Hlearned].
  pose proof (receive_moves (payload s) session (Hroom _ _ _ Hmet)) as Hrecv.
  assert (Hdest : forall e, move env dir (set_chan session (payload s)) = e -> dir = Receiving ->
    dest (snd e) = dest (payload s) \/
    exists ps session ps', met l book nick (world s) ps session ps' /\ proved_to l (p_identity ps) session /\
      received_from (snd e) session).
  { intros e He ->. rewrite He in Hrecv. destruct e as [r e]. destruct Hrecv as (_ & [Hd|Hd] & _); [by left|right].
    by exists ps, session, (peer n). }
  destruct (move env dir _) as [[sm|e|] e'] eqn:Hm; cbn [map_err obind].
  2: { split_and!; [done|by apply (Hdest _ eq_refl)|done]. }
  2: { split_and!; [done|by apply (Hdest _ eq_refl)|]. intros _ _ _ _ _ -> _. rewrite Hm in Hrecv. by destruct Hrecv. }
  unfold mbind, on_device, mret. cbn [device world payload].
  destruct (remember_stores (device s) l book nick (peer n) Hs) as [(d' & -> & Hd')|[Hpan Hbig]].
  - cbn [device payload]. split_and!; [|by apply (Hdest _ eq_refl)|done].
    exists ps, session, (peer n). split_and!; try done. by eapply relearned_ok, learned_stored.
  - destruct (remember _ _ _) as [r d']. cbn [fst] in Hpan. subst r. cbn [payload].
    split_and!; [done|by apply (Hdest _ eq_refl)|by exists (peer n)].
Qed.
End facts.

(** ** An example

    The device [1] of [PeerBook]'s examples, paired with a classical peer, on a network
    where that peer answers and sends three bytes in frames of 45. *)
Module ToyLive.
Import Toy ToySig ToySpake ToyNames ToyBook.

Definition sent : list bytes :=
  [frame OFFER (be_bytes 8 3) 45; frame START (be_bytes 8 0) 45; frame DATA (lit "xyz") 45;
   frame DONE (blake3 (lit "xyz")) 45; frame FINISH [] 45].
Definition answering : Chan := {| inbox := sent; outbox := [] |}.

#[export] Instance transport : Transport ToyNet.World Chan := {
  instant := ToyNet.clock;
  wall_clock w := Some 1700000000;
  sleep d w := ToyNet.tick d w;
  Conn := unit;
  bind_endpoint _ _ _ w := (Ok tt, w);
  close_endpoint w := w;
  attempt_connect _ w := (Some tt, ToyNet.tick 1 w);
  await_peer _ d w := (Arrived tt, ToyNet.tick 1 w);
  client_session _ _ w := (Ok answering, w);
  server_session _ _ w := (Ok answering, w);
  tls_over_onion _ _ _ _ w := (Err (Error.Connect "no proxy"), w);
}.

Definition bob : LocalBundle := classical_only (local_classical (example_local Byte.x02)).
Definition bob_ticket : Ticket.t :=
  {| identity := local_bundle bob; hints := [demo_endpoint Byte.x02]; suite := LivePq1; not_after := 1800000000 |}.
Definition bob_entry : LivePeer := LivePeer_new (lit "bob") bob_ticket (zrep 32 Byte.x09).
Definition book : LiveState :=
  {| my_endpoints := [endpoint_to_string (demo_endpoint Byte.x01)]; peers := [bob_entry]; rendezvous_list := [] |}.
Definition machine : Machine ToyNet.World :=
  {| device := put_file PeersFile (Some (to_json book)) (demo_device Byte.x01);
     world := {| ToyNet.clock := 0 |}; payload := idle None |}.
End ToyLive.

Import Toy ToySig ToySpake ToyNames ToyBook ToyLive.
#[local] Existing Instance ToyNet.exporter.

Definition unreachable : BlindEndpoint -> bytes -> M Error.t ToyNet.World stream := fun _ _ => fails (Error.Connect "offline").
Definition endpoint_shown (_ : str) : string := "endpoint".

Lemma machine_stored : stored (device machine) (example_local Byte.x01) book.
Proof.
  apply (stored_written _ _ (demo_book Byte.x01) _ (to_json book)); [apply demo_stored| |apply from_to_json].
  unfold decrypt_config, to_json, json. by rewrite bits_unsealed.
Qed.

Lemma bob_ticket_wf : ticket_wf bob_ticket.
Proof.
  split; [split; [vm_compute; split; discriminate|vm_compute; reflexivity]|].
  split; [vm_compute; discriminate|]. split; [|done].
  split; [vm_compute; discriminate|]. constructor; [split; done|constructor].
Qed.

Lemma machine_book_ok : book_ok book.
Proof.
  split_and!.
  - apply list.NoDup_singleton.
  - constructor; [apply peer_ok_new; [apply bob_ticket_wf|done]|constructor].
  - constructor; [|constructor]. exists (demo_endpoint Byte.x01). split; [split; [split|]; done|done].
  - constructor.
  - constructor.
Qed.

Abbreviation demo_met := (met endpoint_shown unreachable 3 (rng_const Byte.x00) (example_local Byte.x01) book
  (lit "bob") (world machine)).
Abbreviation demo_run := (run_transfer endpoint_shown unreachable calm 3 (rng_const Byte.x00) (lit "bob")
  Receiving machine).

(** The only session this machine can get has a small inbox. *)
Lemma machine_small :
  small_session endpoint_shown unreachable 3 (rng_const Byte.x00) (example_local Byte.x01) book (lit "bob")
    (world machine) (payload machine) = true.
Proof. vm_compute. reflexivity. Qed.

Lemma machine_room ps session ps' : demo_met ps session ps' -> room (payload machine) session.
Proof. exact (small_session_room _ _ _ _ _ _ _ _ _ machine_small ps session ps'). Qed.

Lemma machine_receives : (let (r, s') := demo_run in (is_ok r, dest (payload s'))) = (true, Some (lit "xyz")).
Proof. vm_compute. reflexivity. Qed.

Lemma live_transfer_pins_and_keeps_witness :
  exists sm s' ps', demo_run = (Ok sm, s') /\ dest (payload s') = Some (lit "xyz") /\
    stored (device s') (example_local Byte.x01) (relearned (lit "bob") ps' book).
Proof.
  pose proof (live_transfer_pins_and_keeps endpoint_shown unreachable calm 3 (rng_const Byte.x00)
    (example_local Byte.x01) book (lit "bob") Receiving machine machine_stored machine_book_ok machine_room) as Ht.
  pose proof machine_receives as Hok.
  destruct demo_run as [[sm|e|] s']; [|discriminate Hok|discriminate Hok].
  injection Hok as Hd. destruct Ht as [(ps & session & ps' & _ & _ & _ & _ & Hs & _) _].
  exists sm, s', ps'. split; [reflexivity|]. split; [exact Hd|exact Hs].
Defined.
