(* ===== verification/Sync.v ===== *)
(** * Block synchronisation

    [p2p-sync/src/sync.rs]: the messages two vaults exchange, which chunks each asks
    the other for, how a chunk that arrives is appended to the vault file, and the
    concurrent tasks that do it under the write lock. *)

From Stdlib Require Import Strings.Byte.
From stdpp Require Import strings.
From S2P Require Import Prelude Keyed.

(** ** Messages *)

Record ChunkEntry := { cipher_len : Z; offset : Z; nonce : bytes }.
Record FileIndex := { vfs_name : bytes; last_modified_unix : Z; chunks : list ChunkEntry }.
Record VaultMetadata := { file_table : list FileIndex; cdc_salt : bytes }.

Inductive SyncMessage :=
| MetadataExchange (m : VaultMetadata)
| ChunkRequest (nonce : bytes)
| ChunkTransfer (nonce ciphertext : bytes).

(** [bincode::serialize], [bincode::deserialize] on messages: [None] is an error. *)
Class Bincode := {
  serialize : SyncMessage -> option bytes;
  deserialize : bytes -> option SyncMessage;
}.
Class BincodeLaws (B : Bincode) := {
  deserialize_serialize : forall m b, serialize m = Some b -> deserialize b = Some m;
}.

Inductive error := Encode | Decode | TooLarge (n : Z) | UnexpectedEof.

Definition MAX_PAYLOAD_SIZE : Z := 64 * 1024 * 1024.

Section messages.
Context `{Bincode}.

(** [send_msg]: the bytes written to the stream; the length is cast to 32 bits. *)
Definition send_msg (m : SyncMessage) : outcome error bytes :=
  let? b := ok_or (serialize m) Encode in
  Ok (le_bytes 4 (zlen b mod 2 ^ 32) ++ b).

(** [read_exact] on a stream of which [s] is still to come. *)
Definition read_exact (n : Z) (s : bytes) : outcome error (bytes * bytes) :=
  if zlen s <? n then Err UnexpectedEof else Ok (ztake n s, zdrop n s).

(** [recv_msg]. *)
Definition recv_msg (s : bytes) : outcome error (SyncMessage * bytes) :=
  let? (len_buf, s) := read_exact 4 s in
  let len := le_val len_buf in
  if MAX_PAYLOAD_SIZE <? len then Err (TooLarge len) else
  let? (data_buf, s) := read_exact len s in
  let? m := ok_or (deserialize data_buf) Decode in
  Ok (m, s).
End messages.

(** ** Metadata *)

Definition find_file (name : bytes) (m : VaultMetadata) : option FileIndex :=
  find_key vfs_name name (file_table m).

Definition has_nonce (n : bytes) (f : FileIndex) : bool :=
  existsb (fun c => bool_decide (nonce c = n)) (chunks f).

(** An element of [missing_chunks_info]. *)
Record task := { t_nonce : bytes; t_name : bytes; t_modified : Z }.

Definition is_newer (local : option FileIndex) (remote : FileIndex) : bool :=
  match local with
  | None => true
  | Some f => last_modified_unix f <? last_modified_unix remote
  end.

Definition chunk_exists (local : option FileIndex) (c : ChunkEntry) : bool :=
  match local with None => false | Some f => has_nonce (nonce c) f end.

Definition missing_of (local : VaultMetadata) (remote : FileIndex) : list task :=
  let local_file := find_file (vfs_name remote) local in
  if is_newer local_file remote
  then map (fun c => {| t_nonce := nonce c; t_name := vfs_name remote; t_modified := last_modified_unix remote |})
           (filter (fun c => chunk_exists local_file c = false) (chunks remote))
  else [].

(** The chunks of [remote] to ask for. *)
Definition missing_chunks (local remote : VaultMetadata) : list task :=
  concat (map (missing_of local) (file_table remote)).

(** The metadata of a stored chunk: pushed onto its file, or a new file. *)
Definition with_table (t : list FileIndex) (m : VaultMetadata) : VaultMetadata :=
  {| file_table := t; cdc_salt := cdc_salt m |}.

Definition push_chunk (modified : Z) (c : ChunkEntry) (f : FileIndex) : FileIndex :=
  {| vfs_name := vfs_name f; last_modified_unix := modified; chunks := chunks f ++ [c] |}.

Definition add_chunk (t : task) (c : ChunkEntry) (m : VaultMetadata) : VaultMetadata :=
  match find_file (t_name t) m with
  | Some _ =>
      with_table (update_first (is_key vfs_name (t_name t)) (push_chunk (t_modified t) c) (file_table m)) m
  | None =>
      with_table (file_table m ++ [{| vfs_name := t_name t; last_modified_unix := t_modified t; chunks := [c] |}]) m
  end.

(** ** The vault file *)

(** What a task shares with the others: the metadata in memory and the vault file. *)
Record node := { meta : VaultMetadata; disk : option bytes }.

(** What the system does to the operations on the vault file. *)
Inductive disk_event := DiskOk | OpenFails | SeekFails | WriteFails (written : Z) | SyncFails.

(** Appending a ciphertext at the end of the file, under the write lock, and then
    recording it. *)
Definition store (t : task) (c : bytes) (ev : disk_event) (n : node) : node :=
  let old := default [] (disk n) in
  match ev with
  | OpenFails => n
  | SeekFails => {| meta := meta n; disk := Some old |}
  | WriteFails k => {| meta := meta n; disk := Some (old ++ ztake k c) |}
  | SyncFails => {| meta := meta n; disk := Some (old ++ c) |}
  | DiskOk =>
      {| meta := add_chunk t {| cipher_len := zlen c; offset := zlen old; nonce := t_nonce t |} (meta n);
         disk := Some (old ++ c) |}
  end.

(** [seek] and [read_exact] at an offset. *)
Definition read_at (off len : Z) (f : bytes) : option bytes :=
  if len =? 0 then Some [] else slice off (off + len) f.

Fixpoint find_chunk (nc : bytes) (l : list FileIndex) : option ChunkEntry :=
  match l with
  | [] => None
  | f :: l =>
      match find_key nonce nc (chunks f) with
      | Some c => Some c
      | None => find_chunk nc l
      end
  end.

(** The answer to a [ChunkRequest], if any; [reads] is whether the system reads. *)
Definition answer_request (reads : bool) (nc : bytes) (n : node) : option SyncMessage :=
  c ← find_chunk nc (file_table (meta n));
  f ← disk n;
  if reads then b ← read_at (offset c) (cipher_len c) f; Some (ChunkTransfer nc b) else None.

(** ** Tasks *)

Inductive role := Listener | Dialer.
#[export] Instance role_eq_dec : EqDecision role.
Proof. solve_decision. Defined.

(** One task after its request: [reply] is what arrives within a minute.  The dialer
    checks the nonce with [assert_eq!], which ends the task; the listener does not. *)
Definition chunk_task (w : role) (t : task) (reply : option SyncMessage) (ev : disk_event) (n : node) : node :=
  match reply with
  | Some (ChunkTransfer returned c) =>
      match w with
      | Listener => store t c ev n
      | Dialer => if decide (t_nonce t = returned) then store t c ev n else n
      end
  | _ => n
  end.

(** The handling of an inbound stream's message: the reply, and the tasks to run. *)
Definition on_message (reads : bool) (m : SyncMessage) (n : node) : option SyncMessage * list task :=
  match m with
  | MetadataExchange remote => (Some (MetadataExchange (meta n)), missing_chunks (meta n) remote)
  | ChunkRequest nc => (answer_request reads nc n, [])
  | ChunkTransfer _ _ => (None, [])
  end.

(** [synchronize], once its metadata was sent: the tasks for the reply. *)
Definition on_reply (reply : option SyncMessage) (n : node) : list task :=
  match reply with
  | Some (MetadataExchange remote) => missing_chunks (meta n) remote
  | _ => []
  end.

(** ** Concurrency

    Each exchange runs its tasks with at most fifty in flight; the tasks of all the
    exchanges of a node run concurrently, and the write lock makes each one's work on
    the file and the metadata a single step. *)
Definition PERMITS : nat := 50.

Record session := { who : role; waiting : list task; running : list task }.
Record system := { nd : node; sessions : list session }.

(** What a finished task stored, if anything. *)
Definition delivered (w : role) (t : task) (reply : option SyncMessage) (ev : disk_event) : list (task * bytes) :=
  match reply, ev with
  | Some (ChunkTransfer returned c), DiskOk =>
      match w with
      | Listener => [(t, c)]
      | Dialer => if decide (t_nonce t = returned) then [(t, c)] else []
      end
  | _, _ => []
  end.

Inductive step : system -> list (task * bytes) -> system -> Prop :=
| step_inbound n ss m reads :
    step {| nd := n; sessions := ss |} []
         {| nd := n; sessions := ss ++ [{| who := Listener; waiting := snd (on_message reads m n); running := [] |}] |}
| step_reply n ss reply :
    step {| nd := n; sessions := ss |} []
         {| nd := n; sessions := ss ++ [{| who := Dialer; waiting := on_reply reply n; running := [] |}] |}
| step_spawn n ss1 ss2 w t q r :
    (length r < PERMITS)%nat ->
    step {| nd := n; sessions := ss1 ++ {| who := w; waiting := t :: q; running := r |} :: ss2 |} []
         {| nd := n; sessions := ss1 ++ {| who := w; waiting := q; running := r ++ [t] |} :: ss2 |}
| step_finish n ss1 ss2 w q r1 t r2 reply ev :
    step {| nd := n; sessions := ss1 ++ {| who := w; waiting := q; running := r1 ++ t :: r2 |} :: ss2 |}
         (delivered w t reply ev)
         {| nd := chunk_task w t reply ev n;
            sessions := ss1 ++ {| who := w; waiting := q; running := r1 ++ r2 |} :: ss2 |}.

Inductive steps : system -> list (task * bytes) -> system -> Prop :=
| steps_refl s : steps s [] s
| steps_step s l s' l' s'' : step s l s' -> steps s' l' s'' -> steps s (l ++ l') s''.

(** ** What a vault holds: the specification *)

(** A file as its chunks' nonces and ciphertexts; [None] is a chunk that cannot be
    read. *)
Record vfile := { v_name : bytes; v_modified : Z; v_chunks : list (bytes * option bytes) }.

Definition chunk_bytes (n : node) (c : ChunkEntry) : option bytes :=
  read_at (offset c) (cipher_len c) (default [] (disk n)).
Definition view_chunk (n : node) (c : ChunkEntry) : bytes * option bytes := (nonce c, chunk_bytes n c).
Definition view_file (n : node) (f : FileIndex) : vfile :=
  {| v_name := vfs_name f; v_modified := last_modified_unix f; v_chunks := map (view_chunk n) (chunks f) |}.
Definition view (n : node) : list vfile := map (view_file n) (file_table (meta n)).

(** A delivery adds a chunk at the end of its file. *)
Definition deliver (v : list vfile) (d : task * bytes) : list vfile :=
  let (t, c) := d in
  let push f := {| v_name := v_name f; v_modified := t_modified t; v_chunks := v_chunks f ++ [(t_nonce t, Some c)] |} in
  match find_key v_name (t_name t) v with
  | Some _ => update_first (is_key v_name (t_name t)) push v
  | None => v ++ [{| v_name := t_name t; v_modified := t_modified t; v_chunks := [(t_nonce t, Some c)] |}]
  end.

(** The first chunk of that nonce. *)
Definition view_answer (nc : bytes) (v : list vfile) : option bytes :=
  x ← find_key fst nc (concat (map v_chunks v)); snd x.

(** Every recorded chunk lies in the file. *)
Definition chunk_ok (n : node) (c : ChunkEntry) : Prop := is_Some (chunk_bytes n c).
Definition readable (n : node) : Prop := Forall (fun f => Forall (chunk_ok n) (chunks f)) (file_table (meta n)).

Definition bounded (s : system) : Prop := Forall (fun x => (length (running x) <= PERMITS)%nat) (sessions s).

(** ** Lemmas: the file only grows *)

Lemma read_at_app off len f g b : read_at off len f = Some b -> read_at off len (f ++ g) = Some b.
Proof.
  unfold read_at. destruct (len =? 0); [done|]. intros Hb. pose proof Hb as Hs.
  rewrite slice_app_le; [done|]. apply slice_Some in Hs. tauto.
Qed.

Lemma read_at_end f c : read_at (zlen f) (zlen c) (f ++ c) = Some c.
Proof.
  unfold read_at. destruct (Z.eqb_spec (zlen c) 0) as [Hc|_]; [by rewrite (zlen_0_nil _ Hc)|].
  rewrite <- (app_nil_r (f ++ c)), <- app_assoc. by apply slice_app_mid.
Qed.

Definition grows (n n' : node) : Prop := exists g, default [] (disk n') = default [] (disk n) ++ g.

Lemma chunk_bytes_grows n n' c : grows n n' -> chunk_ok n c -> chunk_bytes n' c = chunk_bytes n c.
Proof.
  intros (g & Hg) (b & Hb). unfold chunk_bytes in *. rewrite Hg, Hb. by apply read_at_app.
Qed.

Lemma view_file_grows n n' f :
  grows n n' -> Forall (chunk_ok n) (chunks f) -> view_file n' f = view_file n f /\ Forall (chunk_ok n') (chunks f).
Proof.
  intros Hg Hf. split.
  - unfold view_file. f_equal. apply map_ext_in. intros c Hc. apply list_elem_of_In in Hc.
    rewrite list.Forall_forall in Hf. unfold view_chunk. by rewrite (chunk_bytes_grows n n') by auto.
  - eapply Forall_impl; [|exact Hf]. intros c Hc. unfold chunk_ok. by rewrite (chunk_bytes_grows n n').
Qed.

(** The same table over a grown file. *)
Lemma view_grows n d :
  readable n -> grows n {| meta := meta n; disk := d |} ->
  view {| meta := meta n; disk := d |} = view n /\ readable {| meta := meta n; disk := d |}.
Proof.
  intros Hn Hg. unfold view, readable in *. cbn [meta]. split.
  - apply map_ext_in. intros f Hf. apply list_elem_of_In in Hf. rewrite list.Forall_forall in Hn.
    by apply view_file_grows; [|apply Hn].
  - eapply Forall_impl; [|exact Hn]. intros f Hf. by apply (view_file_grows n).
Qed.

Lemma view_push n t c :
  chunk_bytes n c = Some t.2 -> nonce c = t_nonce t.1 ->
  view {| meta := add_chunk t.1 c (meta n); disk := disk n |} = deliver (view n) t.
Proof.
  destruct t as [t b]. cbn [fst snd]. intros Hb Hc. unfold view, deliver, add_chunk, find_file.
  rewrite (find_key_map vfs_name v_name (view_file n)) by done.
  destruct (find_key vfs_name (t_name t) (file_table (meta n))) as [f|]; cbn [fmap option_fmap option_map meta with_table file_table].
  - apply map_update_first; [done|]. intros f' _. unfold view_file, push_chunk. cbn. rewrite map_app. cbn.
    by unfold view_chunk at 2; rewrite Hc; unfold chunk_bytes in *; cbn [disk]; rewrite Hb.
  - rewrite map_app. cbn. unfold view_file at 2, view_chunk. cbn. rewrite Hc. unfold chunk_bytes in *. cbn [disk].
    by rewrite Hb.
Qed.

Lemma readable_push n t c : readable n -> chunk_ok n c -> readable {| meta := add_chunk t c (meta n); disk := disk n |}.
Proof.
  intros Hn Hc. unfold readable, add_chunk in *. destruct (find_file (t_name t) (meta n)); cbn.
  - apply update_first_Forall; [exact Hn|]. intros f' Hf' _. cbn. apply Forall_app. by repeat constructor.
  - apply Forall_app. split; [exact Hn|]. repeat constructor. exact Hc.
Qed.

Lemma store_view t c ev n :
  readable n ->
  readable (store t c ev n) /\ grows n (store t c ev n) /\ (is_Some (disk n) -> is_Some (disk (store t c ev n))) /\
  view (store t c ev n) = match ev with DiskOk => deliver (view n) (t, c) | _ => view n end.
Proof.
  intros Hn.
  assert (Hgrow : forall g, grows n {| meta := meta n; disk := Some (default [] (disk n) ++ g) |}) by (intros g; by exists g).
  assert (Hsame : grows n {| meta := meta n; disk := Some (default [] (disk n)) |}) by (exists []; by rewrite app_nil_r).
  destruct ev as [| | |k|]; cbn [store].
  - destruct (view_grows n _ Hn (Hgrow c)) as [Hv Hr]. rewrite <- Hv.
    set (n' := {| meta := meta n; disk := Some (default [] (disk n) ++ c) |}) in *.
    assert (Hc : chunk_bytes n' {| cipher_len := zlen c; offset := zlen (default [] (disk n)); nonce := t_nonce t |} = Some c)
      by apply read_at_end.
    split; [apply (readable_push n'); [done|by eexists]|]. split; [by exists c|]. split; [done|].
    apply (view_push n' (t, c)); done.
  - split; [done|]. split; [exists []; by rewrite app_nil_r|done].
  - destruct (view_grows n _ Hn Hsame). split_and!; done.
  - destruct (view_grows n _ Hn (Hgrow (ztake k c))). split_and!; done.
  - destruct (view_grows n _ Hn (Hgrow c)). split_and!; done.
Qed.

(** One finished task: what it delivers is added to the vault, and nothing else. *)
Lemma chunk_task_view w t reply ev n :
  readable n ->
  readable (chunk_task w t reply ev n) /\ grows n (chunk_task w t reply ev n) /\
  (is_Some (disk n) -> is_Some (disk (chunk_task w t reply ev n))) /\
  view (chunk_task w t reply ev n) = foldl deliver (view n) (delivered w t reply ev).
Proof.
  intros Hn.
  assert (Hid : readable n /\ grows n n /\ (is_Some (disk n) -> is_Some (disk n)) /\ view n = foldl deliver (view n) []).
  { split; [done|]. split; [exists []; by rewrite app_nil_r|done]. }
  unfold chunk_task, delivered. destruct reply as [[|nc|nc c]|]; [exact Hid..| |exact Hid].
  pose proof (store_view t c ev n Hn) as Hs.
  destruct w; [destruct ev; exact Hs|]. destruct (decide (t_nonce t = nc)); destruct ev; first [exact Hs|exact Hid].
Qed.

(** ** Theorem: concurrent tasks refine deliveries *)

Lemma sessions_bounded ss1 x x' ss2 n n' :
  bounded {| nd := n; sessions := ss1 ++ x :: ss2 |} ->
  ((length (running x) <= PERMITS)%nat -> (length (running x') <= PERMITS)%nat) ->
  bounded {| nd := n'; sessions := ss1 ++ x' :: ss2 |}.
Proof.
  unfold bounded. cbn [sessions]. intros [H1 [Hx H2]%list.Forall_cons]%Forall_app Hl.
  apply Forall_app. split; [done|]. constructor; [by apply Hl|done].
Qed.

Lemma step_view s l s' :
  step s l s' -> readable (nd s) -> bounded s ->
  readable (nd s') /\ bounded s' /\ grows (nd s) (nd s') /\ (is_Some (disk (nd s)) -> is_Some (disk (nd s'))) /\
  view (nd s') = foldl deliver (view (nd s)) l.
Proof.
  assert (Hsame : forall n : node, grows n n) by (intros n; exists []; by rewrite app_nil_r).
  intros Hs Hn Hb. destruct Hs as [n ss m reads|n ss reply|n ss1 ss2 w t q r Hr|n ss1 ss2 w q r1 t r2 reply ev];
    cbn [nd] in *.
  - split_and!; try done. apply Forall_app. split; [exact Hb|]. constructor; [cbn; lia|constructor].
  - split_and!; try done. apply Forall_app. split; [exact Hb|]. constructor; [cbn; lia|constructor].
  - split_and!; try done. eapply sessions_bounded; [exact Hb|]. intros _. cbn. rewrite length_app. cbn. unfold PERMITS in *. lia.
  - destruct (chunk_task_view w t reply ev n Hn) as (Hr & Hg & Hd & Hv). split_and!; try done.
    eapply sessions_bounded; [exact Hb|]. cbn. rewrite !length_app. cbn. lia.
Qed.

Lemma steps_view s l s' :
  steps s l s' -> readable (nd s) -> bounded s ->
  readable (nd s') /\ bounded s' /\ grows (nd s) (nd s') /\ (is_Some (disk (nd s)) -> is_Some (disk (nd s'))) /\
  view (nd s') = foldl deliver (view (nd s)) l.
Proof.
  induction 1 as [s|s l s' l' s'' Hs _ IH]; intros Hn Hb.
  - split_and!; try done. exists []. by rewrite app_nil_r.
  - destruct (step_view _ _ _ Hs Hn Hb) as (Hn' & Hb' & (g & Hg) & Hd & Hv).
    destruct (IH Hn' Hb') as (Hn'' & Hb'' & (g' & Hg') & Hd' & Hv'). split_and!; [done|done| |auto|].
    + exists (g ++ g'). by rewrite Hg', Hg, app_assoc.
    + by rewrite Hv', Hv, foldl_app.
Qed.

(** What a delivery leaves in place. *)
Definition keeps_chunks (v v' : list vfile) : Prop :=
  forall f, f ∈ v -> exists f', f' ∈ v' /\ v_name f' = v_name f /\ v_chunks f `prefix_of` v_chunks f'.

#[local] Instance keeps_chunks_preorder : PreOrder keeps_chunks.
Proof.
  split.
  - intros v f Hf. by exists f.
  - intros v1 v2 v3 H1 H2 f Hf. destruct (H1 f Hf) as (f' & Hf' & Hn & Hp). destruct (H2 f' Hf') as (f'' & Hf'' & Hn' & Hp').
    exists f''. split; [done|]. split; [by rewrite Hn'|]. by etrans.
Qed.

Lemma update_first_keeps (p : vfile -> bool) push v :
  (forall f, v_name (push f) = v_name f /\ v_chunks f `prefix_of` v_chunks (push f)) ->
  keeps_chunks v (update_first p push v).
Proof.
  intros Hp. induction v as [|x v IH]; intros f Hf; [by apply elem_of_nil in Hf|]. cbn.
  apply elem_of_cons in Hf. destruct (p x).
  - destruct Hf as [->|Hf].
    + exists (push x). split; [rewrite elem_of_cons; by left|apply Hp].
    + exists f. split; [rewrite elem_of_cons; by right|done].
  - destruct Hf as [->|Hf].
    + exists x. split; [rewrite elem_of_cons; by left|done].
    + destruct (IH f Hf) as (f' & Hf' & Hrest). exists f'. split; [rewrite elem_of_cons; by right|done].
Qed.

Lemma deliver_keeps v l : keeps_chunks v (foldl deliver v l).
Proof.
  revert v. induction l as [|[t c] l IH]; intros v; [reflexivity|]. cbn [foldl]. etrans; [|apply IH].
  unfold deliver. destruct (find_key v_name (t_name t) v).
  - apply update_first_keeps. intros f. split; [done|]. by apply prefix_app_r.
  - intros f Hf. exists f. split; [|done]. apply elem_of_app. by left.
Qed.

Lemma find_chunk_flat nc l : find_chunk nc l = find_key nonce nc (concat (map chunks l)).
Proof.
  induction l as [|f l IH]; [done|]. cbn [find_chunk map concat]. rewrite find_key_app, <- IH. by destruct (find_key nonce nc (chunks f)).
Qed.

Lemma view_chunks n : concat (map v_chunks (view n)) = map (view_chunk n) (concat (map chunks (file_table (meta n)))).
Proof. unfold view. rewrite concat_map, !map_map. done. Qed.

Lemma answer_view n nc :
  is_Some (disk n) -> answer_request true nc n = ChunkTransfer nc <$> view_answer nc (view n).
Proof.
  intros (f & Hf). unfold answer_request, view_answer. rewrite find_chunk_flat, view_chunks.
  rewrite (find_key_map nonce fst (view_chunk n)) by done. rewrite Hf.
  destruct (find_key nonce nc _) as [c|]; [|done]. cbn. unfold chunk_bytes. rewrite Hf. cbn.
  by destruct (read_at (offset c) (cipher_len c) f).
Qed.

(** C11: Whatever the peers send, however the concurrent tasks of any number of
    exchanges interleave, and whichever disk operations fail, the vault is what its
    completed deliveries make it.  From a vault all of whose recorded chunks lie in
    the file, in every reachable state: the vault's content is the initial one with
    the stored ciphertexts added, in the order the tasks finished, each at the end of
    the file it was asked for; every recorded chunk still lies in the file, which only
    ever grew; every request for a chunk is answered with exactly the bytes recorded
    first under its nonce; no chunk that was there is lost or altered; and no exchange
    ever has more than fifty tasks in flight. *)
Theorem sync_refines_deliveries s l s' :
  readable (nd s) -> is_Some (disk (nd s)) -> bounded s -> steps s l s' ->
  view (nd s') = foldl deliver (view (nd s)) l /\
  readable (nd s') /\
  (exists g, disk (nd s') = Some (default [] (disk (nd s)) ++ g)) /\
  (forall nc, answer_request true nc (nd s') = ChunkTransfer nc <$> view_answer nc (view (nd s'))) /\
  keeps_chunks (view (nd s)) (view (nd s')) /\
  Forall (fun x => (length (running x) <= 50)%nat) (sessions s').
Proof.
  intros Hn Hd Hb Hs. destruct (steps_view s l s' Hs Hn Hb) as (Hn' & Hb' & (g & Hg) & Hd' & Hv).
  specialize (Hd' Hd). split_and!; try done.
  - exists g. destruct Hd' as (b & Hb''). rewrite Hb'' in *. by f_equal.
  - intros nc. by apply answer_view.
  - rewrite Hv. apply deliver_keeps.
Qed.

(** ** Lemmas: what the deliveries add up to *)

(** One delivery, seen by the file it names. *)
Definition pushed (name : bytes) (o : option vfile) (d : task * bytes) : option vfile :=
  Some {| v_name := name; v_modified := t_modified d.1;
          v_chunks := from_option v_chunks [] o ++ [(t_nonce d.1, Some d.2)] |}.

Lemma find_deliver name v d :
  find_key v_name name (deliver v d) =
  if decide (t_name d.1 = name) then pushed name (find_key v_name name v) d else find_key v_name name v.
Proof.
  destruct d as [t c]. cbn [fst]. unfold deliver. destruct (find_key v_name (t_name t) v) as [f|] eqn:Hf.
  - case_decide as Hn.
    + subst name. rewrite Hf. erewrite find_update; [|done|exact Hf]. unfold pushed. cbn.
      by apply find_key_Some in Hf as [-> _].
    + apply find_update_other; [congruence|done].
  - case_decide as Hn; [|by apply find_append_other].
    subst name. rewrite Hf. by apply find_append.
Qed.

Lemma find_deliveries name v ds :
  find_key v_name name (foldl deliver v ds) =
  foldl (pushed name) (find_key v_name name v) (filter (fun d => t_name d.1 = name) ds).
Proof.
  revert v. induction ds as [|d ds IH]; intros v; [done|]. cbn [foldl]. rewrite IH, find_deliver, filter_cons.
  by case_decide.
Qed.

Lemma foldl_pushed name o ds d :
  foldl (pushed name) o (ds ++ [d]) =
  Some {| v_name := name; v_modified := t_modified d.1;
          v_chunks := from_option v_chunks [] o ++ map (fun d => (t_nonce d.1, Some d.2)) (ds ++ [d]) |}.
Proof.
  rewrite foldl_app. cbn [foldl]. unfold pushed at 1. do 2 f_equal. rewrite map_app, app_assoc. cbn. f_equal.
  induction ds as [|d' ds IH] using rev_ind; [by rewrite app_nil_r|].
  rewrite foldl_app. cbn. by rewrite IH, map_app, app_assoc.
Qed.

(** Which chunks are missing depends only on the view. *)
Definition newer_than (o : option vfile) (f : FileIndex) : bool :=
  match o with None => true | Some x => v_modified x <? last_modified_unix f end.
Definition holds_nonce (o : option vfile) (nc : bytes) : bool :=
  existsb (fun c => bool_decide (fst c = nc)) (from_option v_chunks [] o).
Definition ask (f : FileIndex) (c : ChunkEntry) : task :=
  {| t_nonce := nonce c; t_name := vfs_name f; t_modified := last_modified_unix f |}.
Definition wanted (o : option vfile) (f : FileIndex) : list ChunkEntry :=
  if newer_than o f then filter (fun c => holds_nonce o (nonce c) = false) (chunks f) else [].

Lemma find_view n name : find_key v_name name (view n) = view_file n <$> find_file name (meta n).
Proof. by apply find_key_map. Qed.

Lemma has_nonce_view n nc f : has_nonce nc f = holds_nonce (Some (view_file n f)) nc.
Proof.
  unfold has_nonce, holds_nonce. cbn. induction (chunks f) as [|c l IH]; [done|]. cbn. by rewrite IH.
Qed.

Lemma missing_of_view n f : missing_of (meta n) f = map (ask f) (wanted (find_key v_name (vfs_name f) (view n)) f).
Proof.
  rewrite find_view. unfold missing_of, wanted. destruct (find_file (vfs_name f) (meta n)) as [g|]; cbn [fmap option_fmap option_map].
  - cbn [is_newer newer_than v_modified view_file]. destruct (_ <? _); [|done]. unfold ask. f_equal.
    apply list_filter_iff. intros c. cbn [chunk_exists]. by rewrite (has_nonce_view n).
  - done.
Qed.

Lemma missing_of_name m f t : t ∈ missing_of m f -> t_name t = vfs_name f.
Proof.
  unfold missing_of. destruct (is_newer _ _); [|by intros ?%elem_of_nil].
  by intros (c & -> & _)%list_elem_of_fmap.
Qed.

Lemma filter_all {A} (P : A -> Prop) `{!forall x, Decision (P x)} l : Forall P l -> filter P l = l.
Proof. induction 1 as [|x l Hx _ IH]; [done|]. by rewrite filter_cons_True, IH. Qed.
Lemma filter_none {A} (P : A -> Prop) `{!forall x, Decision (P x)} l : Forall (fun x => ~ P x) l -> filter P l = [].
Proof. induction 1 as [|x l Hx _ IH]; [done|]. by rewrite filter_cons_False. Qed.

Lemma missing_of_file m remote f :
  NoDup (map vfs_name (file_table remote)) -> f ∈ file_table remote ->
  filter (fun t => t_name t = vfs_name f) (missing_chunks m remote) = missing_of m f.
Proof.
  unfold missing_chunks. intros Hnd Hf.
  assert (Hall : forall g, filter (fun t => t_name t = vfs_name f) (missing_of m g) =
    if decide (vfs_name g = vfs_name f) then missing_of m g else []).
  { intros g. case_decide as Hg; [apply filter_all|apply filter_none]; apply list.Forall_forall;
      intros t Ht; apply missing_of_name in Ht; congruence. }
  induction (file_table remote) as [|g l IH]; [by apply elem_of_nil in Hf|]. cbn [map concat] in *.
  apply list.NoDup_cons in Hnd as [Hg Hl]. rewrite list.filter_app, Hall.
  apply elem_of_cons in Hf as [->|Hf].
  - rewrite decide_True by done. rewrite <- (app_nil_r (missing_of m g)) at 2. f_equal. clear IH.
    induction l as [|h l IH]; [done|]. cbn [map concat] in *. rewrite elem_of_cons in Hg. apply list.NoDup_cons in Hl as [_ Hl].
    rewrite list.filter_app, Hall, decide_False by (intros Hx; apply Hg; by left).
    apply IH; [|done]. intros Hin. apply Hg. by right.
  - rewrite decide_False; [by apply IH|]. intros Heq. apply Hg. rewrite Heq. by apply list_elem_of_fmap_2.
Qed.

(** ** Theorem: a synchronisation converges *)

(** The tasks of one [synchronize] against a peer that does not change meanwhile, in
    the order they finish. *)
Definition dialer_run (p : node) (l : list task) (n : node) : node :=
  foldl (fun n t => chunk_task Dialer t (answer_request true (t_nonce t) p) DiskOk n) n l.

(** A vault that can be synchronised from: every chunk can be read, and no name and
    no nonce is used twice. *)
Definition complete_node (p : node) : Prop :=
  readable p /\ is_Some (disk p) /\ NoDup (map vfs_name (file_table (meta p))) /\
  NoDup (map nonce (concat (map chunks (file_table (meta p))))).

Definition sent (p : node) (t : task) : task * bytes := (t, default [] (view_answer (t_nonce t) (view p))).

Lemma run_view p l n :
  readable n -> is_Some (disk p) -> Forall (fun t => is_Some (view_answer (t_nonce t) (view p))) l ->
  readable (dialer_run p l n) /\ view (dialer_run p l n) = foldl deliver (view n) (map (sent p) l).
Proof.
  intros Hn Hp Hl. revert n Hn. induction Hl as [|t l (b & Hb) _ IH]; intros n Hn; [done|]. cbn [dialer_run foldl map].
  set (n1 := chunk_task _ _ _ _ n).
  assert (H1 : readable n1 /\ view n1 = deliver (view n) (sent p t)).
  { destruct (chunk_task_view Dialer t (answer_request true (t_nonce t) p) DiskOk n Hn) as (Hr & _ & _ & Hv).
    split; [exact Hr|]. unfold n1. rewrite Hv, answer_view, Hb by done. cbn. rewrite decide_True by done.
    unfold sent. by rewrite Hb. }
  destruct H1 as [Hr Hv]. destruct (IH n1 Hr) as [Hr' Hv']. split; [exact Hr'|]. by rewrite <- Hv.
Qed.

(** What a complete peer answers. *)
Lemma complete_answer p f c :
  complete_node p -> f ∈ file_table (meta p) -> c ∈ chunks f ->
  exists b, chunk_bytes p c = Some b /\ view_answer (nonce c) (view p) = Some b.
Proof.
  intros (Hr & _ & _ & Hn) Hf Hc. unfold readable in Hr. rewrite list.Forall_forall in Hr. specialize (Hr f Hf).
  rewrite list.Forall_forall in Hr. destruct (Hr c Hc) as (b & Hb). exists b. split; [done|].
  unfold view_answer. rewrite view_chunks, (find_key_map nonce fst) by done.
  rewrite (find_key_elem nonce _ c); [done|exact Hn|]. apply list_elem_of_In, List.in_concat.
  exists (chunks f). split; apply list_elem_of_In; [by apply list_elem_of_fmap_2|done].
Qed.

Lemma wanted_incl o f c : c ∈ wanted o f -> c ∈ chunks f.
Proof. unfold wanted. destruct (newer_than o f); [by intros [_ ?]%list_elem_of_filter|by intros ?%elem_of_nil]. Qed.

Lemma wanted_elem o f c : wanted o f <> [] -> c ∈ chunks f -> holds_nonce o (nonce c) = false -> c ∈ wanted o f.
Proof. unfold wanted. destruct (newer_than o f); [|done]. intros _ Hc Hn. by apply list_elem_of_filter. Qed.

Lemma missing_answered p m t :
  complete_node p -> t ∈ missing_chunks m (meta p) -> is_Some (view_answer (t_nonce t) (view p)).
Proof.
  intros Hp Ht. apply list_elem_of_In, List.in_concat in Ht as (x & Hx & Ht).
  apply List.in_map_iff in Hx as (f & <- & Hf). apply list_elem_of_In in Ht, Hf. unfold missing_of in Ht.
  destruct (is_newer _ _); [|by apply elem_of_nil in Ht]. apply list_elem_of_fmap in Ht as (c & -> & Hc).
  apply list_elem_of_filter in Hc as [_ Hc]. destruct (complete_answer p f c Hp Hf Hc) as (b & _ & Hb). by exists b.
Qed.

Lemma sent_ask p f l :
  complete_node p -> f ∈ file_table (meta p) -> Forall (fun c => c ∈ chunks f) l ->
  map (fun d => (t_nonce d.1, Some d.2)) (map (sent p) (map (ask f) l)) = map (view_chunk p) l.
Proof.
  intros Hp Hf Hl. rewrite !map_map. apply map_ext_in. intros c Hc. apply list_elem_of_In in Hc.
  rewrite list.Forall_forall in Hl. destruct (complete_answer p f c Hp Hf (Hl c Hc)) as (b & Hb & Ha).
  unfold sent, view_chunk. cbn. by rewrite Ha, Hb.
Qed.

Lemma filter_sent p name l :
  filter (fun d => t_name d.1 = name) (map (sent p) l) = map (sent p) (filter (fun t => t_name t = name) l).
Proof. induction l as [|t l IH]; [done|]. cbn [map]. rewrite !filter_cons, IH. cbn [sent fst]. by case_decide. Qed.

(** One file after the run. *)
Lemma run_file n p l f :
  readable n -> complete_node p -> l ≡ₚ missing_chunks (meta n) (meta p) -> f ∈ file_table (meta p) ->
  let before := find_key v_name (vfs_name f) (view n) in
  let after := find_key v_name (vfs_name f) (view (dialer_run p l n)) in
  (wanted before f = [] -> after = before) /\
  (wanted before f <> [] -> exists f' got, after = Some f' /\ v_modified f' = last_modified_unix f /\
     v_chunks f' = from_option v_chunks [] before ++ got /\ got ≡ₚ map (view_chunk p) (wanted before f)).
Proof.
  intros Hn Hp Hl Hf before after. pose proof Hp as (_ & Hd & Hnd & _).
  assert (Hans : Forall (fun t => is_Some (view_answer (t_nonce t) (view p))) l).
  { apply list.Forall_forall. intros t Ht. rewrite Hl in Ht. by eapply missing_answered. }
  destruct (run_view p l n Hn Hd Hans) as [_ Hv]. unfold after. rewrite Hv, find_deliveries, filter_sent.
  set (lx := filter (fun t => t_name t = vfs_name f) l).
  assert (Hlx : lx ≡ₚ map (ask f) (wanted before f)).
  { unfold lx. rewrite Hl, missing_of_file by done. by rewrite missing_of_view. }
  fold before. clearbody lx. destruct lx as [|t ts _] using rev_ind.
  - apply Permutation_nil_l in Hlx. symmetry in Hlx. apply map_eq_nil in Hlx. split; [done|]. intros Hx. contradiction.
  - split; [intros Hw; rewrite Hw in Hlx; by apply Permutation_nil_r, app_nil in Hlx as [_ ?]|]. intros _.
    rewrite map_app. cbn [map]. rewrite foldl_pushed. eexists _, _. split; [done|]. cbn [v_modified v_chunks].
    assert (Hall : forall x, x ∈ ts ++ [t] -> exists c, x = ask f c /\ c ∈ wanted before f).
    { intros x Hx. rewrite Hlx in Hx. apply list_elem_of_fmap in Hx as (c & -> & Hc). by exists c. }
    split; [|split; [done|]].
    + destruct (Hall t) as (c & -> & _); [|done]. apply elem_of_app. right. by apply list_elem_of_singleton.
    + change [sent p t] with (map (sent p) [t]). rewrite <- map_app, Hlx.
      rewrite (sent_ask p f); [done..|]. apply list.Forall_forall. intros c. apply wanted_incl.
Qed.

Lemma holds_nonce_in o nc b : (nc, b) ∈ from_option v_chunks [] o -> holds_nonce o nc = true.
Proof.
  intros Hin. apply existsb_exists. exists (nc, b). split; [by apply list_elem_of_In|]. by apply bool_decide_eq_true.
Qed.

Lemma holds_nonce_app o nc x l : holds_nonce o nc = true -> v_chunks x = from_option v_chunks [] o ++ l -> holds_nonce (Some x) nc = true.
Proof. unfold holds_nonce. cbn. intros Ho ->. rewrite existsb_app. by rewrite Ho. Qed.

(** C12: Synchronising with a peer that answers converges, whatever order the fifty
    concurrent tasks finish in.  Against a peer whose chunks can all be read and whose
    names and nonces are unique: after the run nothing is missing any more; a file the
    peer has a newer version of, with chunks this vault lacks, takes the peer's
    modification time, keeps its own chunks, and gains exactly the missing ones with
    the peer's bytes, so that every chunk of the peer's file is there; every other file
    is as it was. *)
Theorem sync_converges n p l :
  readable n -> complete_node p -> l ≡ₚ missing_chunks (meta n) (meta p) ->
  let n' := dialer_run p l n in
  missing_chunks (meta n') (meta p) = [] /\
  (forall f, f ∈ file_table (meta p) ->
    let before := find_key v_name (vfs_name f) (view n) in
    let after := find_key v_name (vfs_name f) (view n') in
    (wanted before f = [] -> after = before) /\
    (wanted before f <> [] -> exists f' got, after = Some f' /\ v_modified f' = last_modified_unix f /\
       v_chunks f' = from_option v_chunks [] before ++ got /\ got ≡ₚ map (view_chunk p) (wanted before f) /\
       forall c, c ∈ chunks f -> holds_nonce after (nonce c) = true)) /\
  (forall name, name ∉ map vfs_name (file_table (meta p)) ->
    find_key v_name name (view n') = find_key v_name name (view n)).
Proof.
  intros Hn Hp Hl n'. split_and!.
  - unfold missing_chunks. apply concat_nil_Forall, Forall_map, list.Forall_forall. intros f Hf.
    destruct (run_file n p l f Hn Hp Hl Hf) as [Hsame Hnew]. rewrite missing_of_view. fold n' in Hsame, Hnew.
    destruct (decide (wanted (find_key v_name (vfs_name f) (view n)) f = [])) as [Hw|Hw].
    + by rewrite (Hsame Hw), Hw.
    + destruct (Hnew Hw) as (f' & got & -> & Hm & _). unfold wanted. cbn [newer_than]. by rewrite Hm, Z.ltb_irrefl.
  - intros f Hf before after. destruct (run_file n p l f Hn Hp Hl Hf) as [Hsame Hnew]. split; [exact Hsame|].
    intros Hw. destruct (Hnew Hw) as (f' & got & Ha & Hm & Hc & Hg). exists f', got. split_and!; [done..|].
    intros c Hin. unfold after, n'. rewrite Ha. destruct (holds_nonce before (nonce c)) eqn:Hb; [by eapply holds_nonce_app|].
    apply (holds_nonce_in _ _ (chunk_bytes p c)). cbn. rewrite Hc, elem_of_app. right. rewrite Hg.
    apply list_elem_of_fmap. exists c. split; [done|]. by apply wanted_elem.
  - intros name Hname.
    assert (Hans : Forall (fun t => is_Some (view_answer (t_nonce t) (view p))) l).
    { apply list.Forall_forall. intros t Ht. rewrite Hl in Ht. by eapply missing_answered. }
    destruct (run_view p l n Hn (proj1 (proj2 Hp)) Hans) as [_ Hv]. unfold n'. rewrite Hv, find_deliveries, filter_sent.
    rewrite filter_none; [done|]. apply list.Forall_forall. intros t Ht Heq. apply Hname. rewrite Hl in Ht.
    apply list_elem_of_In, List.in_concat in Ht as (x & Hx & Ht). apply List.in_map_iff in Hx as (f & <- & Hf).
    apply list_elem_of_In in Ht. rewrite <- Heq, (missing_of_name _ _ _ Ht). apply list_elem_of_In.
    by apply List.in_map.
Qed.

(** The first chunk of a file to arrive takes the peer's modification time, so that
    the rest is never asked for again: an interrupted synchronisation leaves a file
    incomplete for good. *)
Lemma one_chunk_closes_the_file n f c b :
  readable n -> c ∈ chunks f -> missing_of (meta (store (ask f c) b DiskOk n)) f = [].
Proof.
  intros Hn Hc. rewrite missing_of_view. destruct (store_view (ask f c) b DiskOk n Hn) as (_ & _ & _ & ->).
  rewrite find_deliver. cbn [fst ask t_name]. rewrite decide_True by done. unfold wanted, pushed. cbn.
  by rewrite Z.ltb_irrefl.
Qed.

(** ** Theorem: messages *)

Section framing.
Context `{Bincode} `{!BincodeLaws _}.

(** A message read from a stream is the message sent, with nothing of what follows
    consumed, as long as it is at most 64 MiB; a longer one (up to the 32-bit length
    field) is refused by the receiver as soon as its length is read.  Whatever bytes
    arrive, reading never panics, never consumes more than 64 MiB and 4 bytes, and what
    it accepts is a frame whose length field counts its payload. *)
Theorem sync_message_roundtrip :
  (forall m b rest, serialize m = Some b -> zlen b <= MAX_PAYLOAD_SIZE ->
     exists w, send_msg m = Ok w /\ recv_msg (w ++ rest) = Ok (m, rest)) /\
  (forall m b rest, serialize m = Some b -> MAX_PAYLOAD_SIZE < zlen b < 2 ^ 32 ->
     exists w, send_msg m = Ok w /\ recv_msg (w ++ rest) = Err (TooLarge (zlen b))) /\
  (forall s, recv_msg s <> Panic) /\
  (forall s m rest, recv_msg s = Ok (m, rest) ->
     exists data, s = le_bytes 4 (zlen data) ++ data ++ rest /\ zlen data <= MAX_PAYLOAD_SIZE /\
       deserialize data = Some m).
Proof.
  assert (Hlen : forall b : bytes, zlen b < 2 ^ 32 -> le_val (le_bytes 4 (zlen b mod 2 ^ 32)) = zlen b).
  { intros b Hb. pose proof (zlen_nonneg b). rewrite Z.mod_small by lia. apply le_val_small. cbn. lia. }
  assert (Hread : forall b s : bytes, zlen b < 2 ^ 32 -> read_exact 4 (le_bytes 4 (zlen b mod 2 ^ 32) ++ s) =
    Ok (le_bytes 4 (zlen b mod 2 ^ 32), s)).
  { intros b s Hb. unfold read_exact. rewrite zlen_app, zlen_le_bytes. pose proof (zlen_nonneg s). zdec.
    by rewrite ztake_app_l, zdrop_app_l by (by rewrite zlen_le_bytes). }
  split_and!.
  - intros m b rest Hb Hmax. unfold send_msg. rewrite Hb. eexists. split; [done|]. unfold recv_msg.
    assert (zlen b < 2 ^ 32) by (unfold MAX_PAYLOAD_SIZE in *; lia).
    rewrite <- app_assoc, Hread by done. cbn [obind]. rewrite Hlen by done. zdec.
    unfold read_exact. rewrite zlen_app. pose proof (zlen_nonneg rest). zdec.
    rewrite ztake_app_l, zdrop_app_l by done. cbn [obind]. by rewrite (deserialize_serialize _ _ Hb).
  - intros m b rest Hb Hmax. unfold send_msg. rewrite Hb. eexists. split; [done|]. unfold recv_msg.
    rewrite <- app_assoc, Hread by lia. cbn [obind]. rewrite Hlen by lia. by zdec.
  - intros s. unfold recv_msg, read_exact. destruct (_ <? 4); [done|]. cbn [obind].
    destruct (_ <? le_val _); [done|]. destruct (_ <? le_val _); [done|]. cbn [obind]. by destruct (deserialize _).
  - intros s m rest Hs. unfold recv_msg, read_exact in Hs. destruct (Z.ltb_spec (zlen s) 4) as [|H4]; [done|].
    cbn [obind] in Hs. destruct (Z.ltb_spec MAX_PAYLOAD_SIZE (le_val (ztake 4 s))) as [|Hm]; [done|].
    destruct (Z.ltb_spec (zlen (zdrop 4 s)) (le_val (ztake 4 s))) as [|Hd]; [done|]. cbn [obind] in Hs.
    destruct (deserialize _) as [m'|] eqn:Hdes; [|done]. cbn in Hs. injection Hs as <- <-.
    pose proof (le_val_range (ztake 4 s)).
    exists (ztake (le_val (ztake 4 s)) (zdrop 4 s)). split_and!; [|zl|done].
    rewrite ztake_zdrop. replace (zlen (ztake _ (zdrop 4 s))) with (le_val (ztake 4 s)) by zl.
    rewrite le_bytes_val' by zl. by rewrite ztake_zdrop.
Qed.
End framing.

(** ** Examples *)

Module ToyBincode.
(** A format that can only encode requests. *)
#[export] Instance bincode : Bincode := {
  serialize m := match m with ChunkRequest nc => Some nc | _ => None end;
  deserialize b := Some (ChunkRequest b);
}.
#[export] Instance bincode_laws : BincodeLaws bincode.
Proof. split. intros [|nc|] b; [done| |done]. by intros [= ->]. Qed.
End ToyBincode.
Import ToyBincode.

Definition demo_nonce (b : byte) : bytes := zrep 24 b.
Definition demo_peer : node :=
  {| meta := {| file_table := [{| vfs_name := lit "notes"; last_modified_unix := 7;
        chunks := [{| cipher_len := 3; offset := 0; nonce := demo_nonce Byte.x01 |};
                   {| cipher_len := 2; offset := 3; nonce := demo_nonce Byte.x02 |}] |}];
                cdc_salt := zrep 32 Byte.x00 |};
     disk := Some (lit "abcde") |}.
Definition demo_vault : node :=
  {| meta := {| file_table := []; cdc_salt := zrep 32 Byte.x00 |}; disk := Some (lit "header") |}.
Definition demo_task (b : byte) : task := {| t_nonce := demo_nonce b; t_name := lit "notes"; t_modified := 7 |}.

Lemma demo_peer_complete : complete_node demo_peer.
Proof.
  split; [repeat constructor; vm_compute; by eexists|]. split; [by eexists|].
  split; vm_compute; repeat constructor; by rewrite ?elem_of_cons, ?elem_of_nil; intros Hx; intuition discriminate.
Qed.

(** The chunks arrive in the wrong order, and that is the order the file gets. *)
Lemma sync_converges_witness :
  demo_task Byte.x02 :: [demo_task Byte.x01] ≡ₚ missing_chunks (meta demo_vault) (meta demo_peer) /\
  let n' := dialer_run demo_peer [demo_task Byte.x02; demo_task Byte.x01] demo_vault in
  missing_chunks (meta n') (meta demo_peer) = [] /\ disk n' = Some (lit "headerdeabc") /\
  map v_chunks (view n') = [[(demo_nonce Byte.x02, Some (lit "de")); (demo_nonce Byte.x01, Some (lit "abc"))]].
Proof.
  assert (Hp : [demo_task Byte.x02; demo_task Byte.x01] ≡ₚ missing_chunks (meta demo_vault) (meta demo_peer))
    by (apply perm_swap).
  split; [exact Hp|].
  destruct (sync_converges demo_vault demo_peer [demo_task Byte.x02; demo_task Byte.x01]) as (Hm & _).
  - constructor.
  - apply demo_peer_complete.
  - exact Hp.
  - split; [exact Hm|]. split; vm_compute; reflexivity.
Defined.

Definition demo_start : system := {| nd := demo_vault; sessions := [] |}.
Definition demo_end : system :=
  {| nd := store (demo_task Byte.x02) (lit "de") DiskOk demo_vault;
     sessions := [{| who := Dialer; waiting := []; running := [demo_task Byte.x01] |}] |}.

Lemma demo_steps : steps demo_start [(demo_task Byte.x02, lit "de")] demo_end.
Proof.
  change [(demo_task Byte.x02, lit "de")]
    with ([] ++ [] ++ [] ++ delivered Dialer (demo_task Byte.x02) (Some (ChunkTransfer (demo_nonce Byte.x02) (lit "de"))) DiskOk ++ []).
  eapply steps_step; [apply (step_reply _ [] (Some (MetadataExchange (meta demo_peer))))|].
  eapply steps_step; [apply (step_spawn _ [] [] Dialer (demo_task Byte.x01) [demo_task Byte.x02] []); unfold PERMITS; cbn; lia|].
  eapply steps_step; [apply (step_spawn _ [] [] Dialer (demo_task Byte.x02) [] [demo_task Byte.x01]); unfold PERMITS; cbn; lia|].
  eapply steps_step; [apply (step_finish _ [] [] Dialer [] [demo_task Byte.x01] (demo_task Byte.x02) [])|].
  apply steps_refl.
Qed.

Lemma sync_refines_deliveries_witness :
  steps demo_start [(demo_task Byte.x02, lit "de")] demo_end /\
  view (nd demo_end) = deliver [] (demo_task Byte.x02, lit "de") /\ readable (nd demo_end).
Proof.
  split; [apply demo_steps|].
  destruct (sync_refines_deliveries demo_start [(demo_task Byte.x02, lit "de")] demo_end) as (Hv & Hr & _).
  - constructor.
  - by eexists.
  - constructor.
  - apply demo_steps.
  - split; [exact Hv|exact Hr].
Defined.

Lemma sync_message_roundtrip_witness :
  exists w, send_msg (ChunkRequest (demo_nonce Byte.x07)) = Ok w /\
    recv_msg (w ++ lit "next") = Ok (ChunkRequest (demo_nonce Byte.x07), lit "next").
Proof.
  apply (proj1 sync_message_roundtrip) with (b := demo_nonce Byte.x07); [reflexivity|vm_compute; discriminate].
Defined.
