(* ===== verification/AtomLink.v ===== *)
(** * Friends' links and onion addresses

    [atom/src/commands/p2p_utils.rs] (the [atom://] link of a friend),
    [p2p-sync/src/address.rs] (the daily keys and the text of an onion address) and
    the link the daemon prints ([atom/src/commands/daemon.rs]). *)

From Stdlib Require Import Strings.Byte.
From stdpp Require Import strings.
From S2P Require Import Prelude Text Primitives.

(** ** Ed25519 ([ed25519_dalek]) and SHA3-256 ([sha3])

    The public half of a 32-byte secret, which of the 32-byte strings are public
    keys, signing, and strict verification. *)
Class Ed25519 := {
  verifying_key : bytes -> bytes;
  key_valid : bytes -> bool;
  ed_sign : bytes -> bytes -> bytes;
  verify_strict : bytes -> bytes -> bytes -> bool;
}.
Class Ed25519Laws (E : Ed25519) := {
  verifying_key_ok : forall s, zlen s = 32 -> zlen (verifying_key s) = 32 /\ key_valid (verifying_key s) = true;
  ed_sign_length : forall s m, zlen (ed_sign s m) = 64;
  verify_sign : forall s m, zlen s = 32 -> verify_strict (verifying_key s) m (ed_sign s m) = true;
}.

Class Sha3 := { sha3_256 : bytes -> bytes }.
Class Sha3Laws (S : Sha3) := { sha3_length : forall m, zlen (sha3_256 m) = 32 }.

(** ** Links *)

Inductive AtomUriError :=
| InvalidPrefix
| InvalidFormat
| InvalidOnionLength
| InvalidKeyLength
| Base32DecodeError
| InvalidEd25519Key.

Definition atom_scheme : str := lit "atom://".
Definition onion_suffix : str := lit ".onion".
Definition slash : byte := Byte.x2f.
Definition ONION_LEN : Z := 62.
Definition KEY_LEN : Z := 52.

Section links.
Context `{UnicodeCase} `{Base32} `{Ed25519} `{Sha3} `{Sha256}.

(** [parse_atom_uri]: the decoded key is copied into 32 bytes, which panics on any
    other length. *)
Definition parse_atom_uri (url : str) : outcome AtomUriError (str * bytes) :=
  let? stripped := ok_or (strip_prefix atom_scheme url) InvalidPrefix in
  let? (onion, key_text) := ok_or (split_once slash stripped) InvalidFormat in
  if negb (zlen onion =? ONION_LEN) || negb (bool_decide (is_Some (strip_suffix onion_suffix onion)))
  then Err InvalidOnionLength else
  if negb (zlen key_text =? KEY_LEN) then Err InvalidKeyLength else
  let? decoded := ok_or (base32_decode (to_uppercase key_text)) Base32DecodeError in
  if negb (zlen decoded =? 32) then Panic else
  if key_valid decoded then Ok (onion, decoded) else Err InvalidEd25519Key.

(** [format_onion_address]; the daemon computes the same text from its service key. *)
Definition format_onion_address (pubkey : bytes) : str :=
  let version := Byte.x03 in
  let checksum := sha3_256 (lit ".onion checksum" ++ pubkey ++ [version]) in
  base32_lower (pubkey ++ ztake 2 checksum ++ [version]) ++ onion_suffix.

(** [final_link] in [handle_daemon]. *)
Definition atom_link (service identity : bytes) : str :=
  atom_scheme ++ format_onion_address service ++ [slash] ++ base32_lower (verifying_key identity).

(** [derive_daily_key]; the signing key is its 32 bytes. *)
Definition role_prefix (is_peer_a is_local_host : bool) : bytes :=
  match is_peer_a, is_local_host with
  | true, true => lit "host-A"
  | false, true => lit "host-B"
  | true, false => lit "host-B"
  | false, false => lit "host-A"
  end.

Definition daily_info (prefix : bytes) (epoch : Z) : bytes :=
  lit "atom-vault-hs-v1|" ++ prefix ++ lit "|epoch|" ++ le_bytes 8 epoch.

Definition derive_daily_key (clock : option Z) (master local remote : bytes) (is_local_host : bool) :
    outcome AtomUriError bytes :=
  let? now := or_panic clock in
  let epoch := now / 86400 in
  let is_peer_a := bytes_lt local remote in
  or_panic (hkdf_expand None master (daily_info (role_prefix is_peer_a is_local_host) epoch) 32).

(** ** Lemmas *)

Context `{!UnicodeCaseLaws _} `{!Base32Laws _} `{!Ed25519Laws _} `{!Sha3Laws _} `{!Sha256Laws _}.

Lemma base32_lower_no_slash b : Forall (fun c => c <> slash) (base32_lower b).
Proof.
  rewrite base32_lower_eq. apply Forall_map. eapply Forall_impl; [|apply base32_symbols].
  intros c Hc. revert c Hc. intros c. all_bytes c.
Qed.

Lemma onion_address_facts pk :
  zlen pk = 32 ->
  zlen (format_onion_address pk) = ONION_LEN /\
  is_Some (strip_suffix onion_suffix (format_onion_address pk)) /\
  Forall (fun c => c <> slash) (format_onion_address pk).
Proof.
  intros Hpk. unfold format_onion_address. split_and!.
  - rewrite zlen_app, base32_lower_length, !zlen_app, zlen_take, sha3_length, Hpk. done.
  - eexists. by apply strip_suffix_Some.
  - apply Forall_app. split; [apply base32_lower_no_slash|]. by repeat constructor.
Qed.

Lemma atom_link_ascii service identity : ascii (atom_link service identity).
Proof.
  unfold atom_link, format_onion_address.
  apply ascii_app. split; [apply forallb_Forall; reflexivity|]. apply ascii_app. split.
  - apply ascii_app. split; [apply plain_ascii, base32_lower_plain|apply forallb_Forall; reflexivity].
  - apply ascii_app. split; [apply forallb_Forall; reflexivity|apply plain_ascii, base32_lower_plain].
Qed.

(** The link of a device is read back as its onion address and its identity. *)
Lemma parse_atom_link service identity :
  zlen service = 32 -> zlen identity = 32 ->
  parse_atom_uri (atom_link service identity) = Ok (format_onion_address service, verifying_key identity).
Proof.
  intros Hs Hi. destruct (onion_address_facts service Hs) as (Hlen & Hsuf & Hns).
  destruct (verifying_key_ok identity Hi) as [Hk Hv]. unfold parse_atom_uri, atom_link.
  rewrite strip_prefix_app. cbn [ok_or obind]. cbn [app]. rewrite split_once_at by exact Hns.
  cbn [ok_or obind]. rewrite Hlen, base32_lower_length, Hk. cbn [Z.eqb ONION_LEN Pos.eqb negb orb].
  rewrite bool_decide_eq_true_2 by done. cbn [negb]. change (negb ((8 * 32 + 4) / 5 =? KEY_LEN)) with false. cbv iota.
  change (base32_decode (to_uppercase ?x)) with (base32_parse x). rewrite base32_parse_lower. cbn [ok_or obind].
  rewrite Hk. cbn [Z.eqb Pos.eqb negb]. by rewrite Hv.
Qed.

Lemma parse_atom_uri_Ok url onion k :
  parse_atom_uri url = Ok (onion, k) ->
  exists key_text, url = atom_scheme ++ onion ++ [slash] ++ key_text /\
    zlen onion = ONION_LEN /\ is_Some (strip_suffix onion_suffix onion) /\ zlen key_text = KEY_LEN /\
    base32_parse key_text = Some k /\ zlen k = 32 /\ key_valid k = true.
Proof.
  unfold parse_atom_uri. intros Hu. apply obind_Ok in Hu as (st & Hst%ok_or_Ok & Hu).
  apply obind_Ok in Hu as ([o kt] & Hsp%ok_or_Ok & Hu).
  destruct (negb (zlen o =? ONION_LEN) || _) eqn:Ho; [done|]. destruct (negb (zlen kt =? KEY_LEN)) eqn:Hk; [done|].
  apply obind_Ok in Hu as (d & Hd%ok_or_Ok & Hu). destruct (negb (zlen d =? 32)) eqn:H32; [done|].
  destruct (key_valid d) eqn:Hv; [|done]. injection Hu as <- <-. bools.
  exists kt. apply strip_prefix_Some in Hst as ->. split_and!; try done.
  by rewrite (split_once_join _ _ _ _ Hsp).
Qed.

Lemma decoded_length s b : zlen s = KEY_LEN -> base32_decode s = Some b -> zlen b = 32.
Proof.
  intros Hs Hb. apply base32_decode_Some in Hb as ->. rewrite base32_length in Hs. unfold KEY_LEN in Hs.
  pose proof (Z.div_mod (8 * zlen b + 4) 5 ltac:(done)). pose proof (Z.mod_pos_bound (8 * zlen b + 4) 5 ltac:(done)). lia.
Qed.

Lemma parse_atom_uri_no_panic url : ascii url -> parse_atom_uri url <> Panic.
Proof.
  intros Ha. unfold parse_atom_uri. destruct (strip_prefix atom_scheme url) as [st|] eqn:Hst; [|done]. cbn [ok_or obind].
  destruct (split_once slash st) as [[o kt]|] eqn:Hsp; [|done]. cbn [ok_or obind].
  destruct (negb (zlen o =? ONION_LEN) || _); [done|]. destruct (negb (zlen kt =? KEY_LEN)) eqn:Hk; [done|].
  destruct (base32_decode _) as [d|] eqn:Hd; [|done]. cbn [ok_or obind].
  rewrite to_uppercase_ascii in Hd.
  - apply decoded_length in Hd; [|rewrite zlen_map; by bools]. rewrite Hd. cbn. by destruct (key_valid d).
  - apply strip_prefix_Some in Hst as ->. apply ascii_app in Ha as [_ Ha].
    apply split_once_join in Hsp as ->. apply ascii_app in Ha as [_ Ha]. by apply list.Forall_cons in Ha as [_ Ha].
Qed.

(** A key text of 52 bytes whose upper-case form is the base32 of something else than
    32 bytes panics. *)
Lemma parse_atom_uri_panics onion key_text b :
  zlen onion = ONION_LEN -> is_Some (strip_suffix onion_suffix onion) -> Forall (fun c => c <> slash) onion ->
  zlen key_text = KEY_LEN -> base32_parse key_text = Some b -> zlen b <> 32 ->
  parse_atom_uri (atom_scheme ++ onion ++ slash :: key_text) = Panic.
Proof.
  intros Ho Hs Hns Hk Hb Hne. unfold parse_atom_uri. rewrite strip_prefix_app. cbn [ok_or obind].
  rewrite split_once_at by done. cbn [ok_or obind]. rewrite Ho, Hk, bool_decide_eq_true_2 by done.
  cbn [Z.eqb Pos.eqb ONION_LEN KEY_LEN negb orb]. unfold base32_parse in Hb. rewrite Hb. cbn [ok_or obind].
  destruct (Z.eqb_spec (zlen b) 32); [lia|done].
Qed.

(** A device's link carries its address and its key.  The link the daemon prints
    for any service key and any identity is read back as exactly that onion address
    and that identity's public key.  Whatever is accepted is the scheme, a text of 62
    bytes ending in [.onion], a slash and 52 bytes that are a valid public key's
    base32 in either case.  Reading an ASCII text never panics. *)
Theorem atom_link_roundtrip :
  (forall service identity, zlen service = 32 -> zlen identity = 32 ->
     parse_atom_uri (atom_link service identity) = Ok (format_onion_address service, verifying_key identity)) /\
  (forall url onion k, parse_atom_uri url = Ok (onion, k) ->
     exists key_text, url = atom_scheme ++ onion ++ [slash] ++ key_text /\
       zlen onion = ONION_LEN /\ is_Some (strip_suffix onion_suffix onion) /\ zlen key_text = KEY_LEN /\
       base32_parse key_text = Some k /\ zlen k = 32 /\ key_valid k = true) /\
  (forall url, ascii url -> parse_atom_uri url <> Panic).
Proof.
  split; [exact parse_atom_link|]. split; [exact parse_atom_uri_Ok|exact parse_atom_uri_no_panic].
Qed.

(** The key a device hosts under today is the one its friend derives to dial it, and
    the two devices of a pair host under different derivations. *)
Lemma daily_keys_meet clock master a b :
  a <> b ->
  derive_daily_key clock master a b true = derive_daily_key clock master b a false /\
  (forall now, clock = Some now -> exists k, derive_daily_key clock master a b true = Ok k /\ zlen k = 32) /\
  forall epoch, daily_info (role_prefix (bytes_lt a b) true) epoch <> daily_info (role_prefix (bytes_lt b a) true) epoch.
Proof.
  intros Hne. pose proof (bytes_lt_total a b Hne) as Ht. unfold derive_daily_key. rewrite Ht. split_and!.
  - by destruct (bytes_lt b a).
  - intros now ->. cbn [or_panic obind]. destruct (hkdf_expand_total None master
      (daily_info (role_prefix (negb (bytes_lt b a)) true) (now / 86400)) 32 ltac:(done)) as (k & -> & Hk). by exists k.
  - intros epoch He. unfold daily_info in He. apply app_inv_head in He. by destruct (bytes_lt b a).
Qed.
End links.

(** ** Examples *)

Import Toy.

Module ToyEd.
(** A key pair is the same 32 bytes twice; a signature is the public half and as much
    of a digest of both. *)
Definition sign_with (pk m : bytes) : bytes := digest 64 (framed [pk; m]).
#[export] Instance ed25519 : Ed25519 := {
  verifying_key s := s;
  key_valid _ := true;
  ed_sign := sign_with;
  verify_strict pk m s := bool_decide (s = sign_with pk m);
}.
#[export] Instance ed25519_laws : Ed25519Laws ed25519.
Proof.
  split; cbn.
  - done.
  - intros s m. apply zlen_digest.
  - intros s m _. by apply bool_decide_eq_true.
Qed.
#[export] Instance sha3 : Sha3 := {| sha3_256 m := digest 32 (lit "sha3" ++ m) |}.
#[export] Instance sha3_laws : Sha3Laws sha3.
Proof. split. intros m. apply zlen_digest. Qed.
End ToyEd.
Import ToyEd.

Lemma atom_link_roundtrip_witness :
  parse_atom_uri (atom_link (zrep 32 Byte.x05) (zrep 32 Byte.x09)) =
    Ok (format_onion_address (zrep 32 Byte.x05), zrep 32 Byte.x09).
Proof. exact (proj1 atom_link_roundtrip (zrep 32 Byte.x05) (zrep 32 Byte.x09) eq_refl eq_refl). Defined.

Module LongS.
(** Unicode's upper case of the long s (two bytes) is the letter S (one byte). *)
Fixpoint upper (s : str) : str :=
  match s with
  | Byte.xc5 :: (Byte.xbf :: s) => Byte.x53 :: upper s
  | b :: s => ascii_upper b :: upper s
  | [] => []
  end.
#[export] Instance case : UnicodeCase := {| to_lowercase := map ascii_lower; to_uppercase := upper |}.
#[export] Instance case_laws : UnicodeCaseLaws case.
Proof.
  split; cbn; [done|]. intros s Hs. induction Hs as [|b s Hb Hs IH]; [done|].
  cbn [map]. rewrite <- IH. destruct b; try reflexivity; done.
Qed.
End LongS.

(** A crafted link stops the program: two long s and 48 letters A. *)
Lemma crafted_link_panics :
  parse_atom_uri (H := LongS.case)
    (atom_scheme ++ format_onion_address (zrep 32 Byte.x05) ++
     slash :: [Byte.xc5; Byte.xbf; Byte.xc5; Byte.xbf] ++ zrep 48 Byte.x41) = Panic.
Proof. vm_compute. reflexivity. Qed.
