(* ===== verification/VaultCrypto.v ===== *)
(** * The vault's cryptographic layer

    [atom/src/crypto/mod.rs]: key-derivation settings and the key hierarchy
    (password, KEK, DEK, one key per chunk), and the self-describing chunk blob. *)

From Stdlib Require Import Strings.Byte.
From stdpp Require Import strings.
From S2P Require Import Prelude Text Primitives.

Definition SALT_LEN : Z := 32.
Definition KEY_LEN : Z := 32.
Definition XNONCE_LEN : Z := 24.
Definition WRAPPED_DEK_LEN : Z := KEY_LEN + 16.
Definition FILE_SALT_LEN : Z := 16.
Definition FILE_ID_LEN : Z := 16.
Definition CHUNK_MAGIC_V1 : bytes := lit "AV" ++ [Byte.x01].
Definition CHUNK_KEY_INFO : bytes := lit "atom-vault v1 file-key".
Definition METADATA_FILE_ID : bytes := lit "atom-vault-meta1".
Definition KDF_SIZE : Z := 13.
Definition VAULT_HEADER_SIZE : Z := 8 + KDF_SIZE + SALT_LEN + XNONCE_LEN + WRAPPED_DEK_LEN.
Definition CHUNK_OVERHEAD : Z := zlen CHUNK_MAGIC_V1 + FILE_SALT_LEN + XNONCE_LEN + 16.

Inductive CryptoError := BadFormat | Kdf | Seal | Open.

(** Errors of the vault: the crypto layer's, an I/O error, and messages. *)
Inductive vault_error :=
| VCrypto (e : CryptoError)
| VIo (s : string)
| VMsg (s : string).
#[global] Arguments VIo s%_string_scope.
#[global] Arguments VMsg s%_string_scope.

#[export] Instance CryptoError_eq_dec : EqDecision CryptoError.
Proof. solve_decision. Defined.
#[export] Instance vault_error_eq_dec : EqDecision vault_error.
Proof. solve_decision. Defined.

Abbreviation vresult := (outcome vault_error).

Inductive KdfChoice := Argon2id | Scrypt.

Record KdfSettings := {
  choice : KdfChoice;
  memory_kib : Z;
  iterations : Z;
  parallelism : Z;
}.

Definition kdf_default : KdfSettings :=
  {| choice := Argon2id; memory_kib := 65536; iterations := 3; parallelism := 4 |}.

Definition kdf_to_bytes (s : KdfSettings) : bytes :=
  [match choice s with Argon2id => Byte.x00 | Scrypt => Byte.x01 end]
  ++ le_bytes 4 (memory_kib s) ++ le_bytes 4 (iterations s) ++ le_bytes 4 (parallelism s).

(** The argument is an array of 13 bytes: other lengths have no meaning. *)
Definition kdf_from_bytes (b : bytes) : vresult KdfSettings :=
  let? b0 := or_panic (head b) in
  let? c := (if decide (b0 = Byte.x00) then Ok Argon2id
             else if decide (b0 = Byte.x01) then Ok Scrypt
             else Err (VMsg "Unknown KDF algorithm byte in vault header")) in
  let? m := or_panic (slice 1 5 b) in
  let? i := or_panic (slice 5 9 b) in
  let? p := or_panic (slice 9 13 b) in
  Ok {| choice := c; memory_kib := le_val m; iterations := le_val i; parallelism := le_val p |}.

Definition settings_wf (s : KdfSettings) : Prop :=
  is_u32 (memory_kib s) /\ is_u32 (iterations s) /\ is_u32 (parallelism s).

(** The crates [argon2] and [scrypt]: a 32-byte key, or an error on parameters
    they refuse. *)
Class PasswordHash := {
  argon2id : Z -> Z -> Z -> bytes -> bytes -> option bytes;
  scrypt : Z -> Z -> Z -> bytes -> bytes -> option bytes;
}.
Class PasswordHashLaws (P : PasswordHash) := {
  argon2id_length : forall m t p pw s k, argon2id m t p pw s = Some k -> zlen k = KEY_LEN;
  scrypt_length : forall n r p pw s k, scrypt n r p pw s = Some k -> zlen k = KEY_LEN;
}.

Section keys.
Context `{PasswordHash} `{Aead} `{Sha256}.

(** [(memory_kib as f64).log2() as u8]: the floor of the logarithm; of zero it is
    minus infinity, which the cast saturates to 0. *)
Definition log2_u8 (m : Z) : Z := Z.log2 m.

Definition derive_kek (password : str) (salt : bytes) (s : KdfSettings) : vresult bytes :=
  match choice s with
  | Argon2id =>
      ok_or (argon2id (memory_kib s) (iterations s) (parallelism s) password salt)
        (VMsg "Argon2 failed")
  | Scrypt =>
      let log_n := Z.max 10 (Z.min 20 (log2_u8 (memory_kib s))) in
      ok_or (scrypt log_n (Z.max 1 (iterations s)) (Z.max 1 (parallelism s)) password salt)
        (VMsg "Scrypt failed")
  end.

(** [calibrate_kdf], given what the stopwatch read ([as u32]). *)
Definition calibrate_kdf (target_ms : Z) (c : KdfChoice) (elapsed : Z) : Z :=
  let elapsed_ms := Z.max 1 (elapsed mod 2 ^ 32) in
  let calculated_rounds := target_ms / elapsed_ms in
  match c with
  | Argon2id => Z.max 3 calculated_rounds
  | Scrypt => Z.max 8 calculated_rounds
  end.

Record UnlockedVault := { dek : bytes }.

Definition generate_32_bytes (g : rng) : vresult (bytes * rng) := os_fill 32 g.
Definition generate_xnonce (g : rng) : vresult (bytes * rng) := os_fill XNONCE_LEN g.
Definition generate_file_id (g : rng) : vresult (bytes * rng) := os_fill FILE_ID_LEN g.

Definition wrap_dek (kek dek : bytes) (g : rng) : vresult (bytes * bytes * rng) :=
  let? (nonce, g) := generate_xnonce g in
  let? wrapped := ok_or (aead_seal kek nonce [] dek) (VMsg "Encryption error") in
  Ok (wrapped, nonce, g).

Definition unwrap_dek (kek wrapped nonce : bytes) : vresult UnlockedVault :=
  let? d := ok_or (aead_open kek nonce [] wrapped) (VMsg "DEK unwrap error") in
  if negb (zlen d =? KEY_LEN) then Err (VMsg "DEK unwrap error") else
  Ok {| dek := d |}.

(** ** Chunks *)

Definition derive_chunk_key (dek file_salt file_id : bytes) : outcome CryptoError bytes :=
  let info := CHUNK_KEY_INFO ++ file_id in
  ok_or (hkdf_expand (Some file_salt) dek info KEY_LEN) Kdf.

Definition chunk_aad (file_id : bytes) : bytes := CHUNK_MAGIC_V1 ++ file_id.

Definition encrypt_chunk (u : UnlockedVault) (plain file_id : bytes) (g : rng)
    : outcome CryptoError (bytes * rng) :=
  let? (file_salt, g) := os_fill FILE_SALT_LEN g in
  let? chunk_key := derive_chunk_key (dek u) file_salt file_id in
  let? (nonce, g) := os_fill XNONCE_LEN g in
  let? ciphertext := ok_or (aead_seal chunk_key nonce (chunk_aad file_id) plain) Seal in
  Ok (CHUNK_MAGIC_V1 ++ file_salt ++ nonce ++ ciphertext, g).

Definition decrypt_chunk (u : UnlockedVault) (blob file_id : bytes) : outcome CryptoError bytes :=
  let? rest := ok_or (strip_prefix CHUNK_MAGIC_V1 blob) BadFormat in
  if zlen rest <? FILE_SALT_LEN + XNONCE_LEN + 16 then Err BadFormat else
  let file_salt := ztake FILE_SALT_LEN rest in
  let rest := zdrop FILE_SALT_LEN rest in
  let nonce := ztake XNONCE_LEN rest in
  let ciphertext := zdrop XNONCE_LEN rest in
  let? chunk_key := derive_chunk_key (dek u) file_salt file_id in
  ok_or (aead_open chunk_key nonce (chunk_aad file_id) ciphertext) Open.
End keys.

(** ** Lemmas *)

Section lemmas.
Context `{Aead} `{!AeadLaws _} `{Sha256} `{!Sha256Laws _}.

Lemma derive_chunk_key_total d s i :
  exists k, derive_chunk_key d s i = Ok k /\ zlen k = KEY_LEN.
Proof.
  unfold derive_chunk_key, KEY_LEN.
  destruct (hkdf_expand_total (Some s) d (CHUNK_KEY_INFO ++ i) 32 ltac:(lia)) as (k & -> & Hk).
  by exists k.
Qed.

(** Sealing a chunk: a blob of known length that opens under the same key and id. *)
Lemma encrypt_chunk_total u plain i g :
  zlen plain <= 2 ^ 37 -> rng_total g ->
  exists blob g', encrypt_chunk u plain i g = Ok (blob, g') /\ rng_total g' /\
    zlen blob = zlen plain + CHUNK_OVERHEAD /\ decrypt_chunk u blob i = Ok plain.
Proof.
  intros Hp Hg. unfold encrypt_chunk.
  destruct (os_fill_total (E := CryptoError) FILE_SALT_LEN g Hg ltac:(done)) as (salt & Hs & Hsl).
  rewrite Hs. cbn [obind].
  destruct (derive_chunk_key_total (dek u) salt i) as (k & Hk & _). rewrite Hk. cbn [obind].
  set (g1 := rng_skip _ g). assert (Hg1 : rng_total g1) by (by apply rng_total_skip).
  destruct (os_fill_total (E := CryptoError) XNONCE_LEN g1 Hg1 ltac:(done)) as (nonce & Hn & Hnl).
  rewrite Hn. cbn [obind].
  destruct (aead_seal_total k nonce (chunk_aad i) plain Hp) as [ct Hct]. rewrite Hct. cbn [ok_or obind].
  pose proof (aead_seal_length _ _ _ _ _ Hct) as Hcl.
  eexists _, _. split; [done|]. split_and!.
  - by apply rng_total_skip.
  - unfold CHUNK_OVERHEAD, FILE_SALT_LEN, XNONCE_LEN in *. rewrite !zlen_app. lia.
  - unfold decrypt_chunk. rewrite strip_prefix_app. cbn [ok_or obind].
    pose proof (zlen_nonneg plain). unfold FILE_SALT_LEN, XNONCE_LEN in *.
    rewrite !zlen_app. zdec.
    rewrite ztake_app_l, zdrop_app_l by lia. rewrite Hk. cbn [obind].
    rewrite ztake_app_l, zdrop_app_l by lia. apply aead_open_seal in Hct. by rewrite Hct.
Qed.

Lemma kdf_round_trip s :
  settings_wf s -> zlen (kdf_to_bytes s) = KDF_SIZE /\ kdf_from_bytes (kdf_to_bytes s) = Ok s.
Proof.
  intros (Hm & Hi & Hp). unfold kdf_to_bytes, KDF_SIZE. split; [zl|]. destruct s as [c m i p].
  cbn [choice memory_kib iterations parallelism] in *. unfold kdf_from_bytes. cbn [head app or_panic obind].
  set (b0 := match c with Argon2id => _ | _ => _ end). unfold is_u32 in *.
  assert (Hc : (if decide (b0 = Byte.x00) then Ok (E := vault_error) Argon2id
    else if decide (b0 = Byte.x01) then Ok Scrypt
    else Err (VMsg "Unknown KDF algorithm byte in vault header")) = Ok c) by by destruct c.
  rewrite Hc. cbn [obind].
  set (b := b0 :: le_bytes 4 m ++ le_bytes 4 i ++ le_bytes 4 p).
  assert (Hs1 : slice 1 5 b = Some (le_bytes 4 m)).
  { apply (slice_app_mid 1 5 [b0] (le_bytes 4 m)); zl. }
  assert (Hs2 : slice 5 9 b = Some (le_bytes 4 i)).
  { apply (slice_app_mid 5 9 (b0 :: le_bytes 4 m) (le_bytes 4 i)); zl. }
  assert (Hs3 : slice 9 13 b = Some (le_bytes 4 p)).
  { unfold b. rewrite <- (app_nil_r (le_bytes 4 p)), app_assoc.
    apply (slice_app_mid 9 13 (b0 :: le_bytes 4 m ++ le_bytes 4 i) (le_bytes 4 p)); zl. }
  rewrite Hs1, Hs2, Hs3. cbn [or_panic obind].
  by rewrite (le_val_small 4 m Hm), (le_val_small 4 i Hi), (le_val_small 4 p Hp).
Qed.

Lemma wrap_dek_total kek d g :
  zlen d = KEY_LEN -> rng_total g ->
  exists w n g', wrap_dek kek d g = Ok (w, n, g') /\ zlen w = WRAPPED_DEK_LEN /\
    zlen n = XNONCE_LEN /\ unwrap_dek kek w n = Ok {| dek := d |} /\ rng_total g'.
Proof.
  intros Hd Hg. unfold wrap_dek, generate_xnonce.
  destruct (os_fill_total (E := vault_error) XNONCE_LEN g Hg ltac:(done)) as (n & -> & Hn). cbn [obind].
  destruct (aead_seal_total kek n [] d) as [w Hw]; [rewrite Hd; by vm_compute|]. rewrite Hw. cbn [ok_or obind].
  eexists _, _, _. split; [done|]. split_and!; [|done| |by apply rng_total_skip].
  - rewrite (aead_seal_length _ _ _ _ _ Hw), Hd. done.
  - unfold unwrap_dek. apply aead_open_seal in Hw. rewrite Hw. cbn [ok_or obind].
    by rewrite Hd.
Qed.

Lemma decrypt_chunk_no_panic u b i : decrypt_chunk u b i <> Panic.
Proof.
  unfold decrypt_chunk. apply obind_no_panic; [apply ok_or_no_panic|]. intros r _.
  destruct (_ <? _); [done|]. apply obind_no_panic; [apply ok_or_no_panic|]. intros k _.
  apply ok_or_no_panic.
Qed.
End lemmas.

Lemma four_byte_range v : zlen v = 4 -> is_u32 (le_val v).
Proof. intros Hv. pose proof (le_val_range v) as Hr. by rewrite Hv in Hr. Qed.

(** ** Theorems *)

Section theorems.
Context `{PasswordHash} `{!PasswordHashLaws _} `{Aead} `{!AeadLaws _} `{Sha256} `{!Sha256Laws _}.

(** A chunk blob round-trips and authenticates.  Sealing any plaintext under
    any id succeeds with exactly [CHUNK_OVERHEAD] bytes more and opens to the same
    plaintext under the same key and id; conversely whatever opens is a blob with
    the magic prefix whose ciphertext was sealed for exactly that plaintext, with
    the version and the id as associated data, under a key derived from the DEK,
    the salt inside the blob and the id; and no blob, however short or malformed,
    makes opening panic. *)
Theorem chunk_blob_authentic u i :
  (forall plain g, zlen plain <= 2 ^ 37 -> rng_total g ->
     exists blob g', encrypt_chunk u plain i g = Ok (blob, g') /\
       zlen blob = zlen plain + CHUNK_OVERHEAD /\ decrypt_chunk u blob i = Ok plain) /\
  (forall blob plain, decrypt_chunk u blob i = Ok plain ->
     zlen blob = zlen plain + CHUNK_OVERHEAD /\
     exists salt nonce ct key, blob = CHUNK_MAGIC_V1 ++ salt ++ nonce ++ ct /\
       zlen salt = FILE_SALT_LEN /\ zlen nonce = XNONCE_LEN /\
       hkdf_expand (Some salt) (dek u) (CHUNK_KEY_INFO ++ i) KEY_LEN = Some key /\
       aead_seal key nonce (CHUNK_MAGIC_V1 ++ i) plain = Some ct) /\
  (forall blob, decrypt_chunk u blob i <> Panic).
Proof.
  split_and!; [|intros blob plain Hd|intros blob; apply decrypt_chunk_no_panic].
  { intros plain g Hp Hg. destruct (encrypt_chunk_total u plain i g Hp Hg) as (b & g' & ? & _ & ? & ?).
    by exists b, g'. }
  unfold decrypt_chunk in Hd. apply obind_Ok in Hd as (rest & Hs & Hd).
  apply ok_or_Ok, strip_prefix_Some in Hs as ->. destruct (_ <? _) eqn:Hl; [done|]. bools.
  apply obind_Ok in Hd as (k & Hk & Hd). apply ok_or_Ok in Hk, Hd. apply aead_open_seal in Hd.
  pose proof (aead_seal_length _ _ _ _ _ Hd) as Hcl.
  unfold FILE_SALT_LEN, XNONCE_LEN in *. rewrite !zlen_drop in Hcl. split.
  { unfold CHUNK_OVERHEAD, FILE_SALT_LEN, XNONCE_LEN. rewrite zlen_app. pose_zlens. lia. }
  exists (ztake 16 rest), (ztake 24 (zdrop 16 rest)), (zdrop 24 (zdrop 16 rest)), k.
  split_and!; [by rewrite !ztake_zdrop|rewrite zlen_take; lia| |done|done].
  rewrite zlen_take, zlen_drop. lia.
Qed.

(** The key hierarchy opens what it wrapped.  The key-derivation settings have
    exactly one 13-byte form, from which they are read back; a password that
    derives a key always derives the same 32-byte key from the same header; and a
    DEK wrapped under it is 48 bytes and is unwrapped to itself, while anything
    unwrapped is 32 bytes that were sealed under that key. *)
Theorem key_hierarchy pw salt s :
  (settings_wf s -> zlen (kdf_to_bytes s) = KDF_SIZE /\ kdf_from_bytes (kdf_to_bytes s) = Ok s) /\
  (forall b x, zlen b = KDF_SIZE -> kdf_from_bytes b = Ok x -> settings_wf x /\ kdf_to_bytes x = b) /\
  (forall k, derive_kek pw salt s = Ok k -> zlen k = KEY_LEN) /\
  (forall kek d g, zlen d = KEY_LEN -> rng_total g ->
     exists w n g', wrap_dek kek d g = Ok (w, n, g') /\ zlen w = WRAPPED_DEK_LEN /\
       zlen n = XNONCE_LEN /\ unwrap_dek kek w n = Ok {| dek := d |}) /\
  (forall kek w n u, unwrap_dek kek w n = Ok u ->
     zlen (dek u) = KEY_LEN /\ aead_seal kek n [] (dek u) = Some w).
Proof.
  split_and!.
  - apply kdf_round_trip.
  - unfold KDF_SIZE. intros b x Hb Hx. unfold kdf_from_bytes in Hx. ok_inv Hx; injection Hx as <-.
    all: repeat match goal with Hs : slice _ _ _ = Some _ |- _ =>
      pose proof (slice_length _ _ _ _ Hs); apply slice_step in Hs end.
    all: assert (Hcat : b = [x0] ++ x2 ++ x3 ++ x4);
      [rewrite (ztake_all 13 b) in Hx4 by lia; destruct b as [|c b]; [done|]; injection Hx0 as ->;
       rewrite Hx4, Hx3, Hx2, <- !app_assoc; done|].
    all: subst x0; injection Hx1 as <-; unfold kdf_to_bytes, settings_wf;
      cbn [choice memory_kib iterations parallelism]; rewrite !(le_bytes_val' 4) by lia;
      split; [|done]; split_and!; apply four_byte_range; lia.
  - unfold derive_kek. intros k. destruct (choice s); intros Hk; apply ok_or_Ok in Hk;
      [by eapply argon2id_length|by eapply scrypt_length].
  - intros kek d g Hd Hg. destruct (wrap_dek_total kek d g Hd Hg) as (w & n & g' & ? & ? & ? & ? & _).
    by exists w, n, g'.
  - intros kek w n u. unfold unwrap_dek. intros Hu. apply obind_Ok in Hu as (d & Hd & Hu).
    apply ok_or_Ok, aead_open_seal in Hd. destruct (negb _) eqn:Hl; [done|]. bools. by injection Hu as <-.
Qed.
End theorems.

(** *** Examples *)

Import Toy.

Module ToyPw.
#[export] Instance pw : PasswordHash := {
  argon2id m t p w s :=
    if 8 * p <=? m then Some (digest 32 (framed [le_bytes 4 m; le_bytes 4 t; le_bytes 4 p; w; s])) else None;
  scrypt n r p w s := Some (digest 32 (framed [le_bytes 4 n; le_bytes 4 r; le_bytes 4 p; w; s]));
}.
#[export] Instance pw_laws : PasswordHashLaws pw.
Proof.
  split; simpl.
  - intros m t p w s k. destruct (_ <=? m); [|done]. intros [= <-]. apply zlen_digest.
  - intros n r p w s k [= <-]. apply zlen_digest.
Qed.
End ToyPw.

Import ToyPw.

Lemma chunk_blob_authentic_witness :
  exists blob g', encrypt_chunk {| dek := zrep 32 Byte.x07 |} (lit "secret") METADATA_FILE_ID
      (rng_const Byte.x05) = Ok (blob, g') /\
    zlen blob = 6 + CHUNK_OVERHEAD /\
    decrypt_chunk {| dek := zrep 32 Byte.x07 |} blob METADATA_FILE_ID = Ok (lit "secret").
Proof. apply chunk_blob_authentic; [by vm_compute|apply rng_const_total]. Defined.

Lemma key_hierarchy_witness :
  kdf_from_bytes (kdf_to_bytes kdf_default) = Ok kdf_default /\
  exists w n g', wrap_dek (zrep 32 Byte.x01) (zrep 32 Byte.x02) (rng_const Byte.x03) = Ok (w, n, g') /\
    zlen w = WRAPPED_DEK_LEN /\ zlen n = XNONCE_LEN /\
    unwrap_dek (zrep 32 Byte.x01) w n = Ok {| dek := zrep 32 Byte.x02 |}.
Proof.
  destruct (key_hierarchy (lit "pw") (zrep 32 Byte.x00) kdf_default) as (Hs & _ & _ & Hw & _). split.
  - by apply Hs.
  - apply Hw; [done|apply rng_const_total].
Defined.
