(* ===== verification/Vfs.v ===== *)
(** * The vault's state and its file operations

    [atom/src/vfs/mod.rs], [atom/src/chunker.rs]: the file table, the files an
    operation holds open, and reading one chunk. *)

From Stdlib Require Import Strings.Byte.
From stdpp Require Import strings gmap.
From S2P Require Import Prelude Text Primitives StateM Disk VaultCrypto.

Record ChunkEntry := {
  cipher_len : Z;
  offset : Z;
  file_id : bytes;
  plain_len : Z;
}.

Record FileIndex := {
  vfs_name : str;
  chunks : list ChunkEntry;
  last_modified_unix : Z;
}.

Record VaultMetadata := {
  file_table : list FileIndex;
  cdc_salt : bytes;
}.

#[export] Instance ChunkEntry_eq_dec : EqDecision ChunkEntry.
Proof. solve_decision. Defined.
#[export] Instance FileIndex_eq_dec : EqDecision FileIndex.
Proof. solve_decision. Defined.
#[export] Instance VaultMetadata_eq_dec : EqDecision VaultMetadata.
Proof. solve_decision. Defined.

(** The values the fields can hold. *)
Definition chunk_typed (c : ChunkEntry) : Prop :=
  is_u64 (cipher_len c) /\ is_u64 (offset c) /\ zlen (file_id c) = FILE_ID_LEN /\ is_u64 (plain_len c).
Definition index_typed (f : FileIndex) : Prop :=
  utf8_valid (vfs_name f) = true /\ zlen (vfs_name f) < 2 ^ 64 /\ zlen (chunks f) < 2 ^ 64 /\
  Forall chunk_typed (chunks f) /\ is_u64 (last_modified_unix f).
Definition meta_typed (m : VaultMetadata) : Prop :=
  zlen (file_table m) < 2 ^ 64 /\ Forall index_typed (file_table m) /\ zlen (cdc_salt m) = 32.

(** The crate [bincode] on the metadata, in its default configuration: a value is
    read back from its encoding, integers and lengths take eight bytes and arrays
    their own length. *)
Definition index_size (f : FileIndex) : Z := 8 + zlen (vfs_name f) + 8 + 40 * zlen (chunks f) + 8.
Definition meta_size (m : VaultMetadata) : Z :=
  8 + foldr (fun f n => index_size f + n) 0 (file_table m) + 32.

Class Bincode := {
  serialize : VaultMetadata -> bytes;
  deserialize : bytes -> option VaultMetadata;
}.
Class BincodeLaws (B : Bincode) := {
  deserialize_serialize : forall m, meta_typed m -> deserialize (serialize m) = Some m;
  serialize_length : forall m, meta_typed m -> zlen (serialize m) = meta_size m;
}.

(** [chunk_data] is [fastcdc::v2020::StreamCDC] with a maximum of [MAX_CHUNK_SIZE]:
    the offsets and lengths of the chunks, which cut the source in order and leave
    nothing out. *)
Definition MAX_CHUNK_SIZE : Z := 8192.

Class FastCdc := { cdc : bytes -> list (Z * Z) }.
Fixpoint cuts (p : Z) (l : list (Z * Z)) (total : Z) : Prop :=
  match l with
  | [] => p = total
  | (o, n) :: l => o = p /\ 0 < n <= MAX_CHUNK_SIZE /\ cuts (p + n) l total
  end.
Class FastCdcLaws (F : FastCdc) := {
  cdc_cuts : forall b, cuts 0 (cdc b) (zlen b);
}.

(** ** The state of an operation

    The open vault and its in-memory metadata and payload offset, which operations
    change in place; the temporary file of [vacuum]; what the vault's path names
    once another file was renamed over it ([None]: the open file); the other files
    of the machine, by canonical path, each with the cursor of the handle an
    operation has on it; the generator; and a counter by which the environment
    decides which operation of the system fails. *)
Abbreviation path := (list str).

Record vault := {
  phys : file;
  tmp : option file;
  at_path : option bytes;
  fs : gmap path file;
  meta : VaultMetadata;
  payload : Z;
  gen : rng;
  ios : nat;
}.

Definition set_phys (f : file) (s : vault) : vault :=
  {| phys := f; tmp := tmp s; at_path := at_path s; fs := fs s; meta := meta s;
     payload := payload s; gen := gen s; ios := ios s |}.
Definition set_tmp (f : option file) (s : vault) : vault :=
  {| phys := phys s; tmp := f; at_path := at_path s; fs := fs s; meta := meta s;
     payload := payload s; gen := gen s; ios := ios s |}.
Definition set_at_path (p : option bytes) (s : vault) : vault :=
  {| phys := phys s; tmp := tmp s; at_path := p; fs := fs s; meta := meta s;
     payload := payload s; gen := gen s; ios := ios s |}.
Definition set_fs (m : gmap path file) (s : vault) : vault :=
  {| phys := phys s; tmp := tmp s; at_path := at_path s; fs := m; meta := meta s;
     payload := payload s; gen := gen s; ios := ios s |}.
Definition set_meta (m : VaultMetadata) (s : vault) : vault :=
  {| phys := phys s; tmp := tmp s; at_path := at_path s; fs := fs s; meta := m;
     payload := payload s; gen := gen s; ios := ios s |}.
Definition set_payload (p : Z) (s : vault) : vault :=
  {| phys := phys s; tmp := tmp s; at_path := at_path s; fs := fs s; meta := meta s;
     payload := p; gen := gen s; ios := ios s |}.
Definition set_gen (g : rng) (s : vault) : vault :=
  {| phys := phys s; tmp := tmp s; at_path := at_path s; fs := fs s; meta := meta s;
     payload := payload s; gen := g; ios := ios s |}.
Definition bump (s : vault) : vault :=
  {| phys := phys s; tmp := tmp s; at_path := at_path s; fs := fs s; meta := meta s;
     payload := payload s; gen := gen s; ios := S (ios s) |}.

Abbreviation V := (M vault_error vault).

(** Which file an operation is about. *)
Inductive handle := Vault | Temp | Other (p : path).

Definition held (h : handle) (s : vault) : option file :=
  match h with Vault => Some (phys s) | Temp => tmp s | Other p => fs s !! p end.
Definition set_held (h : handle) (f : file) (s : vault) : vault :=
  match h with
  | Vault => set_phys f s
  | Temp => set_tmp (Some f) s
  | Other p => set_fs (<[p := f]> (fs s)) s
  end.

Section operations.
(** Which operation of the system fails, and the bytes a write had put down. *)
Variable fault : nat -> option Z.

(** One operation of the system: it fails, or [f] gives its result. *)
Definition sys {A} (e : string) (f : vault -> vresult (A * vault)) : V A := fun s =>
  let s' := bump s in
  match fault (ios s) with
  | Some _ => (Err (VIo e), s')
  | None => match f s' with
            | Ok (a, s'') => (Ok a, s'')
            | Err x => (Err x, s')
            | Panic => (Panic, s')
            end
  end.

Definition on_file {A} (h : handle) (f : file -> vresult (A * file)) (s : vault)
    : vresult (A * vault) :=
  match held h s with
  | Some fl => let? (a, fl) := f fl in Ok (a, set_held h fl s)
  | None => Err (VIo "closed")
  end.

Definition seek (h : handle) (p : Z) : V unit :=
  sys "seek" (on_file h (fun f => Ok (tt, f_seek p f))).
Definition read_exact (h : handle) (n : Z) : V bytes :=
  sys "read" (on_file h (fun f => ok_or (f_read_exact n f) (VIo "read"))).
(** [file.take(limit).read_to_end(..)]. *)
Definition read_to_end (h : handle) (limit : Z) : V bytes :=
  sys "read" (on_file h (fun f =>
    let b := ztake limit (zdrop (cursor f) (content f)) in
    Ok (b, File (content f) (cursor f + zlen b)))).
Definition write_all (h : handle) (b : bytes) : V unit := fun s =>
  match fault (ios s), held h s with
  | Some k, Some f => (Err (VIo "write"), set_held h (f_write (ztake k b) f) (bump s))
  | _, _ => sys "write" (on_file h (fun f => Ok (tt, f_write b f))) s
  end.
Definition set_len (h : handle) (n : Z) : V unit :=
  sys "truncate" (on_file h (fun f => Ok (tt, f_set_len n f))).
Definition stream_position (h : handle) : V Z := sys "seek" (on_file h (fun f => Ok (cursor f, f))).
Definition sync (h : handle) : V unit := sys "sync" (on_file h (fun f => Ok (tt, f))).
(** [mlock] on a buffer of the process. *)
Definition mlock : V unit := sys "mlock" (fun s => Ok (tt, s)).

(** A draw from the generator. *)
Definition drawing {A} (f : rng -> vresult (A * rng)) : V A := fun s =>
  match f (gen s) with
  | Ok (a, g) => (Ok a, set_gen g s)
  | Err e => (Err e, s)
  | Panic => (Panic, s)
  end.

Section chunks.
Context `{Aead} `{Sha256}.

(** The content of a decrypted chunk: the padding is stripped when the length of
    the plaintext is known, and a length past the end panics. *)
Definition strip_padding (plain_len : Z) (plaintext : bytes) : vresult bytes :=
  if 0 <? plain_len then or_panic (slice 0 plain_len plaintext) else Ok plaintext.

(** Reading and opening one chunk: the body of the loops of [decrypt_to_bytes],
    [handle_export] and [process_secure_chunk]. *)
Definition open_chunk (u : UnlockedVault) (c : ChunkEntry) : V bytes :=
  let! _ := seek Vault (offset c) in
  let! cipher_buffer := read_exact Vault (cipher_len c) in
  let! plaintext := lift (map_err VCrypto (decrypt_chunk u cipher_buffer (file_id c))) in
  let! _ := mlock in
  lift (strip_padding (plain_len c) plaintext).

(** [process_secure_chunk], up to the call of [action] on what it returns. *)
Definition process_secure_chunk (u : UnlockedVault) (c : ChunkEntry) : V bytes := open_chunk u c.
End chunks.
End operations.

(** ** Reasoning about runs without faults

    [runs m s Q]: [m] succeeds from [s] with a result and a state satisfying [Q].
    What an operation on one file leaves alone is [frame]. *)
Definition runs {A} (m : V A) (s : vault) (Q : A -> vault -> Prop) : Prop :=
  exists a s', m s = (Ok a, s') /\ Q a s'.

Definition frame (h : handle) (s s' : vault) : Prop :=
  (forall h', h' <> h -> held h' s' = held h' s) /\
  at_path s' = at_path s /\ meta s' = meta s /\ payload s' = payload s /\
  (rng_total (gen s) -> rng_total (gen s')).

Lemma frame_refl h s : frame h s s.
Proof. by split_and!. Qed.

Lemma frame_trans h s1 s2 s3 : frame h s1 s2 -> frame h s2 s3 -> frame h s1 s3.
Proof.
  intros (H1 & H2 & H3 & H4 & H5) (K1 & K2 & K3 & K4 & K5).
  split_and!; try congruence; [|auto]. intros h' Hh. by rewrite K1, H1.
Qed.

Lemma frame_bump h s : frame h s (bump s).
Proof. by split_and!. Qed.

Lemma runs_ret {A} (a : A) s (Q : A -> vault -> Prop) : Q a s -> runs (mret a) s Q.
Proof. intros. by exists a, s. Qed.

Lemma runs_lift {A} (m : vresult A) a s (Q : A -> vault -> Prop) : m = Ok a -> Q a s -> runs (lift m) s Q.
Proof. intros -> ?. by exists a, s. Qed.

Lemma runs_bind {A B} (m : V A) (k : A -> V B) s Q :
  runs m s (fun a s' => runs (k a) s' Q) -> runs (mbind m k) s Q.
Proof.
  intros (a & s' & Hm & b & s'' & Hk & HQ). exists b, s''. split; [|done].
  by rewrite (mbind_Ok _ _ _ _ _ Hm).
Qed.

Lemma runs_conseq {A} (m : V A) s (Q Q' : A -> vault -> Prop) :
  runs m s Q -> (forall a s', Q a s' -> Q' a s') -> runs m s Q'.
Proof. intros (a & s' & Hm & HQ) Hc. exists a, s'. auto. Qed.

Section run_lemmas.
Variable fault : nat -> option Z.
Hypothesis no_fault : forall n, fault n = None.

Lemma held_set_held h f s : held h (set_held h f s) = Some f.
Proof. destruct h; [done|done|]. apply lookup_insert_eq. Qed.

Lemma frame_set_held h f s : frame h s (set_held h f (bump s)).
Proof.
  destruct h; split_and!; try done; intros [] ?; try done.
  simpl. apply lookup_insert_ne. congruence.
Qed.

Lemma runs_on_file {A} e h (fn : file -> vresult (A * file)) s f a f' (Q : A -> vault -> Prop) :
  held h s = Some f -> fn f = Ok (a, f') ->
  (forall s', held h s' = Some f' -> frame h s s' -> Q a s') ->
  runs (sys fault e (on_file h fn)) s Q.
Proof.
  intros Hh Hfn HQ. exists a, (set_held h f' (bump s)). split.
  - unfold sys. rewrite no_fault. unfold on_file.
    replace (held h (bump s)) with (held h s) by by destruct h. rewrite Hh. cbn. by rewrite Hfn.
  - apply HQ; [apply held_set_held|apply frame_set_held].
Qed.

Lemma runs_seek h p s f (Q : unit -> vault -> Prop) :
  held h s = Some f -> (forall s', held h s' = Some (f_seek p f) -> frame h s s' -> Q tt s') ->
  runs (seek fault h p) s Q.
Proof. intros. by eapply runs_on_file. Qed.

Lemma runs_read_exact h n s f b (Q : bytes -> vault -> Prop) :
  held h s = Some f -> slice (cursor f) (cursor f + n) (content f) = Some b ->
  (forall s', held h s' = Some (File (content f) (cursor f + n)) -> frame h s s' -> Q b s') ->
  runs (read_exact fault h n) s Q.
Proof.
  intros Hh Hs HQ. eapply runs_on_file; [done| |done]. cbv beta.
  assert (Hr : f_read_exact n f = Some (b, File (content f) (cursor f + n))) by by apply f_read_exact_Some.
  by rewrite Hr.
Qed.

Lemma runs_read_to_end h limit s f (Q : bytes -> vault -> Prop) :
  held h s = Some f -> zlen (zdrop (cursor f) (content f)) <= limit ->
  (forall s' p, held h s' = Some (File (content f) p) -> frame h s s' ->
     Q (zdrop (cursor f) (content f)) s') ->
  runs (read_to_end fault h limit) s Q.
Proof.
  intros Hh Hl HQ. eapply runs_on_file; [done|done|]. intros s' Hs' Hf. rewrite ztake_all in * by done.
  by eapply HQ.
Qed.

Lemma runs_write_all h b s f (Q : unit -> vault -> Prop) :
  held h s = Some f -> (forall s', held h s' = Some (f_write b f) -> frame h s s' -> Q tt s') ->
  runs (write_all fault h b) s Q.
Proof.
  intros Hh HQ. assert (Hr : runs (sys fault "write" (on_file h (fun f => Ok (tt, f_write b f)))) s Q).
  { by eapply runs_on_file. }
  destruct Hr as (a & s' & Hm & HQ'). exists a, s'. split; [|done]. unfold write_all. by rewrite no_fault.
Qed.

Lemma runs_set_len h n s f (Q : unit -> vault -> Prop) :
  held h s = Some f -> (forall s', held h s' = Some (f_set_len n f) -> frame h s s' -> Q tt s') ->
  runs (set_len fault h n) s Q.
Proof. intros. by eapply runs_on_file. Qed.

Lemma runs_stream_position h s f (Q : Z -> vault -> Prop) :
  held h s = Some f -> (forall s', held h s' = Some f -> frame h s s' -> Q (cursor f) s') ->
  runs (stream_position fault h) s Q.
Proof. intros. by eapply runs_on_file. Qed.

Lemma runs_sync h s f (Q : unit -> vault -> Prop) :
  held h s = Some f -> (forall s', held h s' = Some f -> frame h s s' -> Q tt s') ->
  runs (sync fault h) s Q.
Proof. intros. by eapply runs_on_file. Qed.

Lemma runs_mlock h s f (Q : unit -> vault -> Prop) :
  held h s = Some f -> (forall s', held h s' = Some f -> frame h s s' -> Q tt s') ->
  runs (mlock fault) s Q.
Proof.
  intros Hh HQ. exists tt, (bump s). split; [unfold mlock, sys; by rewrite no_fault|].
  apply HQ; [by destruct h|]. by destruct h; split_and!.
Qed.

Lemma runs_drawing {A} h (d : rng -> vresult (A * rng)) s f (P : A -> Prop) (Q : A -> vault -> Prop) :
  held h s = Some f -> rng_total (gen s) ->
  (forall g, rng_total g -> exists a g', d g = Ok (a, g') /\ rng_total g' /\ P a) ->
  (forall a s', P a -> held h s' = Some f -> frame h s s' -> Q a s') ->
  runs (drawing d) s Q.
Proof.
  intros Hh Hg Hd HQ. destruct (Hd _ Hg) as (a & g' & He & Hg' & HP).
  exists a, (set_gen g' s). split; [unfold drawing; by rewrite He|].
  apply HQ; [done|by destruct h|]. by destruct h; split_and!.
Qed.
End run_lemmas.

(** A step of a run: apply the operation's lemma, name the new state and extend the
    frame [F] from the first state. *)
Ltac run_step lem :=
  lazymatch goal with
  | H : held ?h ?s = Some _, F : frame ?h ?s0 ?s |- runs (mbind _ _) ?s _ =>
      let s' := fresh "s" in let H' := fresh "Hh" in let F' := fresh "F" in
      apply runs_bind; eapply lem; [assumption|exact H|..];
      lazymatch goal with
      | |- forall s', _ -> _ -> _ =>
          intros s' H' F'; apply (frame_trans _ _ _ _ F) in F'; clear F H;
          rename H' into H, F' into F; cbn [content cursor f_seek] in H
      | _ => idtac
      end
  end.
