(* ===== verification/Storage.v ===== *)
(** * Loading and saving the vault's metadata

    [atom/src/storage.rs]: the fixed header (pointer to the metadata, key
    derivation settings, salt, wrapped DEK), and the encrypted metadata block at
    the end of the file. *)

From Stdlib Require Import Strings.Byte.
From stdpp Require Import strings gmap.
From S2P Require Import Prelude Text Primitives StateM Disk VaultCrypto Vfs.

(** The cap [load_vault_metadata] reads under. *)
Definition METADATA_LIMIT : Z := 10 * 1024 * 1024.

Section storage.
Context `{PasswordHash} `{Aead} `{Sha256} `{Bincode}.
Variable fault : nat -> option Z.

Definition load_vault_metadata (password : str) : V (VaultMetadata * UnlockedVault * Z) :=
  let! _ := seek fault Vault 0 in
  let! master_ptr_bytes := read_exact fault Vault 8 in
  let master_pointer := le_val master_ptr_bytes in
  let! kdf_bytes := read_exact fault Vault KDF_SIZE in
  let! kdf_settings := lift (kdf_from_bytes kdf_bytes) in
  let! salt := read_exact fault Vault 32 in
  let! dek_nonce := read_exact fault Vault XNONCE_LEN in
  let! wrapped_dek := read_exact fault Vault 48 in
  let! kek := lift (derive_kek password salt kdf_settings) in
  let! unlocked_vault := lift (unwrap_dek kek wrapped_dek dek_nonce) in
  let! _ := seek fault Vault master_pointer in
  let! encrypted_metadata := read_to_end fault Vault METADATA_LIMIT in
  let! decrypted := lift (map_err VCrypto
                            (decrypt_chunk unlocked_vault encrypted_metadata METADATA_FILE_ID)) in
  let! metadata := lift (ok_or (deserialize decrypted) (VMsg "bincode")) in
  mret (metadata, unlocked_vault, master_pointer).

Definition save_vault_metadata (h : handle) (metadata : VaultMetadata) (u : UnlockedVault)
    (current_payload_offset : Z) : V unit :=
  let serialized_metadata := serialize metadata in
  let! encrypted_metadata := drawing (fun g =>
    map_err VCrypto (encrypt_chunk u serialized_metadata METADATA_FILE_ID g)) in
  let! _ := seek fault h current_payload_offset in
  let! _ := write_all fault h encrypted_metadata in
  let! end_pos := stream_position fault h in
  let! _ := set_len fault h end_pos in
  let! _ := sync fault h in
  let! _ := seek fault h 0 in
  let! _ := write_all fault h (le_bytes 8 current_payload_offset) in
  sync fault h.

(** ** What a vault file holds *)

(** The header after the pointer: the settings, the salt and a wrapped DEK that
    the password opens to [u]. *)
Definition header_opens (password : str) (u : UnlockedVault) (header : bytes) : Prop :=
  exists kdf salt nonce wrapped settings kek,
    header = kdf ++ salt ++ nonce ++ wrapped /\ zlen kdf = KDF_SIZE /\ zlen salt = 32 /\
    zlen nonce = XNONCE_LEN /\ zlen wrapped = 48 /\
    kdf_from_bytes kdf = Ok settings /\ derive_kek password salt settings = Ok kek /\
    unwrap_dek kek wrapped nonce = Ok u.

(** A metadata block that opens to [m]. *)
Definition block_opens (u : UnlockedVault) (m : VaultMetadata) (block : bytes) : Prop :=
  zlen block <= METADATA_LIMIT /\
  exists p, decrypt_chunk u block METADATA_FILE_ID = Ok p /\ deserialize p = Some m.

(** A file that opens under the password: its header, and its metadata at [off]. *)
Definition vault_file (password : str) (u : UnlockedVault) (m : VaultMetadata) (off : Z) (c : bytes)
    : Prop :=
  VAULT_HEADER_SIZE <= off <= zlen c /\ is_u64 off /\
  slice 0 8 c = Some (le_bytes 8 off) /\
  (exists header, slice 8 VAULT_HEADER_SIZE c = Some header /\ header_opens password u header) /\
  block_opens u m (zdrop off c).

(** Metadata small enough to be read back. *)
Definition meta_fits (m : VaultMetadata) : Prop :=
  meta_typed m /\ meta_size m + CHUNK_OVERHEAD <= METADATA_LIMIT.

(** ** Lemmas *)

Hypothesis no_fault : forall n, fault n = None.

Lemma slice_part a b (c pre x post : bytes) :
  c = pre ++ x ++ post -> a = zlen pre -> b = a + zlen x -> slice a b c = Some x.
Proof. intros -> -> ->. by apply slice_app_mid. Qed.

(** The header of a vault file, taken apart. *)
Lemma vault_file_parts password u m off c :
  vault_file password u m off c ->
  exists kdf salt nonce wrapped settings kek,
    slice 8 21 c = Some kdf /\ slice 21 53 c = Some salt /\ slice 53 77 c = Some nonce /\
    slice 77 125 c = Some wrapped /\ kdf_from_bytes kdf = Ok settings /\
    derive_kek password salt settings = Ok kek /\ unwrap_dek kek wrapped nonce = Ok u.
Proof.
  intros (_ & _ & _ & (hd & Hs & kdf & salt & nonce & wrapped & st & kek & -> & Lk & Ls & Ln & Lw & Ek & Ed & Eu) & _).
  unfold KDF_SIZE, XNONCE_LEN in *. exists kdf, salt, nonce, wrapped, st, kek.
  pose proof (slice_step _ _ _ _ Hs) as Hc. apply slice_Some in Hs as (Hr & Hle & _).
  change VAULT_HEADER_SIZE with 125 in *. change (0 <= 8 <= 125) in Hr.
  set (post := zdrop 125 c).
  assert (Hall : c = ztake 8 c ++ (kdf ++ salt ++ nonce ++ wrapped) ++ post).
  { unfold post. rewrite app_assoc, <- Hc. by rewrite ztake_zdrop. }
  assert (L8 : zlen (ztake 8 c) = 8) by (rewrite zlen_take; lia).
  split_and!; try done.
  - apply (slice_part _ _ _ (ztake 8 c) kdf (salt ++ nonce ++ wrapped ++ post)); [|lia..].
    by rewrite Hall at 1; rewrite <- !app_assoc.
  - apply (slice_part _ _ _ (ztake 8 c ++ kdf) salt (nonce ++ wrapped ++ post)); [|zl..].
    by rewrite Hall at 1; rewrite <- !app_assoc.
  - apply (slice_part _ _ _ (ztake 8 c ++ kdf ++ salt) nonce (wrapped ++ post)); [|zl..].
    by rewrite Hall at 1; rewrite <- !app_assoc.
  - apply (slice_part _ _ _ (ztake 8 c ++ kdf ++ salt ++ nonce) wrapped post); [|zl..].
    by rewrite Hall at 1; rewrite <- !app_assoc.
Qed.

Lemma runs_load password u m off s (Q : VaultMetadata * UnlockedVault * Z -> vault -> Prop) :
  vault_file password u m off (content (phys s)) ->
  (forall s' p, phys s' = File (content (phys s)) p -> frame Vault s s' -> Q (m, u, off) s') ->
  runs (load_vault_metadata password) s Q.
Proof.
  intros Hv HQ. destruct (vault_file_parts _ _ _ _ _ Hv)
    as (kdf & salt & nonce & wrapped & st & kek & S1 & S2 & S3 & S4 & E1 & E2 & E3).
  destruct Hv as (_ & Hoff & S0 & _ & Hlim & p & Hdec & Hde).
  pose proof (frame_refl Vault s) as F. assert (Hh : held Vault s = Some (phys s)) by done.
  unfold load_vault_metadata.
  run_step runs_seek. run_step runs_read_exact; [exact S0|].
  run_step runs_read_exact; [exact S1|].
  apply runs_bind, (runs_lift _ _ _ _ E1).
  run_step runs_read_exact; [exact S2|]. run_step runs_read_exact; [exact S3|].
  run_step runs_read_exact; [exact S4|].
  apply runs_bind, (runs_lift _ _ _ _ E2). apply runs_bind, (runs_lift _ _ _ _ E3).
  run_step runs_seek. rewrite le_val_small in Hh by done.
  apply runs_bind. eapply runs_read_to_end; [exact no_fault|exact Hh|exact Hlim|].
  intros s' q Hs' F'. apply (frame_trans _ _ _ _ F) in F'. cbn [content cursor] in *.
  cbn [content cursor f_seek]. apply runs_bind. eapply runs_lift; [by rewrite Hdec|].
  apply runs_bind. eapply runs_lift; [by rewrite Hde|].
  apply runs_ret. rewrite le_val_small by done. eapply HQ; [|exact F'].
  cbn [content held f_seek] in Hs'. by injection Hs'.
Qed.

(** Saving at [off] keeps what is between the pointer and [off], and ends the file
    with a block that opens to the metadata. *)
Context `{!AeadLaws _} `{!Sha256Laws _} `{!BincodeLaws _}.

Lemma runs_save h m u off s f (Q : unit -> vault -> Prop) :
  held h s = Some f -> rng_total (gen s) -> meta_fits m -> 8 <= off <= zlen (content f) -> is_u64 off ->
  (forall s' c p, held h s' = Some (File c p) -> frame h s s' ->
     off <= zlen c -> slice 0 8 c = Some (le_bytes 8 off) ->
     (forall x y, 8 <= x -> y <= off -> slice x y c = slice x y (content f)) ->
     block_opens u m (zdrop off c) -> Q tt s') ->
  runs (save_vault_metadata h m u off) s Q.
Proof.
  intros Hh Hg [Hty Hfit] Hoff Hu HQ. rewrite <- serialize_length in Hfit by done.
  pose proof (frame_refl h s) as F. unfold save_vault_metadata.
  pose proof (zlen_nonneg (serialize m)).
  apply runs_bind. eapply (runs_drawing h _ _ _ (fun b => zlen b = zlen (serialize m) + CHUNK_OVERHEAD /\
    decrypt_chunk u b METADATA_FILE_ID = Ok (serialize m))); [exact Hh|exact Hg| |].
  { intros g Hgt. destruct (encrypt_chunk_total u (serialize m) METADATA_FILE_ID g) as (b & g' & He & ? & ? & ?);
      [|done|].
    - assert (METADATA_LIMIT <= 2 ^ 37) by by vm_compute. assert (0 <= CHUNK_OVERHEAD) by by vm_compute. lia.
    - exists b, g'. by rewrite He. }
  intros b s1 [Hbl Hbd] Hh1 F1. apply (frame_trans _ _ _ _ F) in F1. clear F Hh. rename Hh1 into Hh, F1 into F.
  run_step runs_seek. run_step runs_write_all. run_step runs_stream_position.
  run_step runs_set_len. run_step runs_sync. run_step runs_seek. run_step runs_write_all.
  eapply runs_sync; [exact no_fault|exact Hh|]. 
  intros s' Hs' F'. apply (frame_trans _ _ _ _ F) in F'. clear F Hh.
  unfold f_write, f_seek, f_set_len in Hs'. cbn [content cursor] in Hs'.
  rewrite resize_splice in Hs' by lia. pose proof (zlen_nonneg b).
  assert (Hp : zlen (le_bytes 8 off) = 8) by (by rewrite zlen_le_bytes).
  assert (Hc : zlen (ztake off (content f) ++ b) = off + zlen b) by zl.
  eapply HQ; [exact Hs'|exact F'|..].
  - rewrite splice_length by lia. lia.
  - rewrite <- Hp at 1. apply (slice_splice_at 0). lia.
  - intros x y Hx Hy. rewrite slice_splice_after by lia. rewrite slice_app_le by zl.
    apply slice_ztake; lia.
  - rewrite splice_0 by lia. rewrite Hp. replace off with (zlen (le_bytes 8 off) + (off - 8)) at 1 by lia.
    rewrite zdrop_app_ge by lia. replace (zlen _ + (off - 8) - zlen _) with (off - 8) by lia.
    rewrite zdrop_zdrop by lia. replace (8 + (off - 8)) with (zlen (ztake off (content f))) by zl.
    rewrite zdrop_app_l by done. split; [lia|]. exists (serialize m). split; [done|].
    by apply deserialize_serialize.
Qed.
End storage.
