(* ===== verification/ToyVault.v ===== *)
(** * Concrete instances for the vault

    The metadata codec in [bincode]'s default layout and a chunker that cuts at the
    maximum, which satisfy the laws of [Bincode] and [FastCdc] and evaluate. *)

From Stdlib Require Import Strings.Byte.
From stdpp Require Import strings gmap.
From S2P Require Import Prelude Text Primitives VaultCrypto Vfs.

(** ** Encoding *)

Definition put_u64 (n : Z) : bytes := le_bytes 8 n.
Definition put_seq {A} (put : A -> bytes) (l : list A) : bytes := put_u64 (zlen l) ++ concat (map put l).
Definition put_chunk (c : ChunkEntry) : bytes :=
  put_u64 (cipher_len c) ++ put_u64 (offset c) ++ file_id c ++ put_u64 (plain_len c).
Definition put_index (f : FileIndex) : bytes :=
  put_u64 (zlen (vfs_name f)) ++ vfs_name f ++ put_seq put_chunk (chunks f)
    ++ put_u64 (last_modified_unix f).
Definition put_meta (m : VaultMetadata) : bytes := put_seq put_index (file_table m) ++ cdc_salt m.

(** ** Decoding: a value and what follows it *)

Definition get_bytes (n : Z) (b : bytes) : option (bytes * bytes) :=
  x ← slice 0 n b; Some (x, zdrop n b).
Definition get_u64 (b : bytes) : option (Z * bytes) :=
  '(x, b) ← get_bytes 8 b; Some (le_val x, b).

Fixpoint get_many {A} (get : bytes -> option (A * bytes)) (n : nat) (b : bytes)
    : option (list A * bytes) :=
  match n with
  | O => Some ([], b)
  | S n => '(x, b) ← get b; '(l, b) ← get_many get n b; Some (x :: l, b)
  end.
Definition get_seq {A} (get : bytes -> option (A * bytes)) (b : bytes) : option (list A * bytes) :=
  '(n, b) ← get_u64 b; if zlen b <? n then None else get_many get (Z.to_nat n) b.
Definition get_chunk (b : bytes) : option (ChunkEntry * bytes) :=
  '(cl, b) ← get_u64 b; '(o, b) ← get_u64 b; '(i, b) ← get_bytes FILE_ID_LEN b;
  '(pl, b) ← get_u64 b;
  Some ({| cipher_len := cl; offset := o; file_id := i; plain_len := pl |}, b).
Definition get_index (b : bytes) : option (FileIndex * bytes) :=
  '(n, b) ← get_u64 b; '(name, b) ← get_bytes n b; '(cs, b) ← get_seq get_chunk b;
  '(t, b) ← get_u64 b;
  Some ({| vfs_name := name; chunks := cs; last_modified_unix := t |}, b).
Definition get_meta (b : bytes) : option VaultMetadata :=
  '(t, b) ← get_seq get_index b; '(salt, _) ← get_bytes 32 b;
  Some {| file_table := t; cdc_salt := salt |}.

(** ** Round trips *)

Section laws.

Lemma get_put_bytes n x rest : n = zlen x -> get_bytes n (x ++ rest) = Some (x, rest).
Proof. intros ->. unfold get_bytes. by rewrite slice_prefix, zdrop_app_l by done. Qed.

Lemma get_put_u64 n rest : is_u64 n -> get_u64 (put_u64 n ++ rest) = Some (n, rest).
Proof.
  intros Hn. unfold get_u64, put_u64. rewrite get_put_bytes by (by rewrite zlen_le_bytes).
  cbn [mbind option_bind]. by rewrite le_val_small.
Qed.

Lemma get_put_many {A} (put : A -> bytes) get (ok : A -> Prop) l rest :
  (forall x rest, ok x -> get (put x ++ rest) = Some (x, rest)) -> Forall ok l ->
  get_many get (length l) (concat (map put l) ++ rest) = Some (l, rest).
Proof.
  intros Hx. induction 1 as [|x l Hok _ IH]; [done|]. cbn [length get_many map concat].
  rewrite <- app_assoc, Hx by done. cbn [mbind option_bind]. by rewrite IH.
Qed.

(** Every element takes at least a byte. *)
Lemma put_many_length {A} (put : A -> bytes) l rest :
  (forall x, 0 < zlen (put x)) -> zlen l <= zlen (concat (map put l) ++ rest).
Proof.
  intros Hx. rewrite zlen_app. pose proof (zlen_nonneg rest).
  induction l as [|x l IH]; [done|]. cbn [map concat]. rewrite zlen_cons, zlen_app. specialize (Hx x). lia.
Qed.

Lemma get_put_seq {A} (put : A -> bytes) get (ok : A -> Prop) l rest :
  (forall x rest, ok x -> get (put x ++ rest) = Some (x, rest)) -> (forall x, 0 < zlen (put x)) ->
  Forall ok l -> zlen l < 2 ^ 64 -> get_seq get (put_seq put l ++ rest) = Some (l, rest).
Proof.
  intros Hx Hpos Hok Hl. unfold get_seq, put_seq. rewrite <- app_assoc. pose proof (zlen_nonneg l).
  rewrite get_put_u64 by (unfold is_u64; lia). cbn [mbind option_bind].
  pose proof (put_many_length put l rest Hpos). zdec.
  replace (Z.to_nat (zlen l)) with (length l) by (unfold zlen; lia). by eapply get_put_many.
Qed.

Lemma put_u64_length n : zlen (put_u64 n) = 8.
Proof. unfold put_u64. by rewrite zlen_le_bytes. Qed.

Lemma get_put_chunk c rest : chunk_typed c -> get_chunk (put_chunk c ++ rest) = Some (c, rest).
Proof.
  intros (Hl & Ho & Hi & Hp). unfold get_chunk, put_chunk. rewrite <- !app_assoc.
  rewrite get_put_u64 by done. cbn [mbind option_bind]. rewrite get_put_u64 by done. cbn [mbind option_bind].
  rewrite get_put_bytes by done. cbn [mbind option_bind]. rewrite get_put_u64 by done. by destruct c.
Qed.

Lemma put_chunk_length c : 24 <= zlen (put_chunk c).
Proof.
  unfold put_chunk. rewrite !zlen_app, !put_u64_length. pose proof (zlen_nonneg (file_id c)). lia.
Qed.

Lemma get_put_index f rest : index_typed f -> get_index (put_index f ++ rest) = Some (f, rest).
Proof.
  intros (_ & Hn & Hc & Hcs & Ht). unfold get_index, put_index. rewrite <- !app_assoc.
  pose proof (zlen_nonneg (vfs_name f)). rewrite get_put_u64 by (unfold is_u64; lia). cbn [mbind option_bind].
  rewrite get_put_bytes by done. cbn [mbind option_bind].
  rewrite (get_put_seq _ _ chunk_typed);
    [|apply get_put_chunk|intros x; pose proof (put_chunk_length x); lia|done|done].
  cbn [mbind option_bind]. rewrite get_put_u64 by done. by destruct f.
Qed.

Lemma put_index_length f : Forall chunk_typed (chunks f) -> zlen (put_index f) = index_size f.
Proof.
  intros Hf. unfold put_index, put_seq, index_size. rewrite !zlen_app, !put_u64_length.
  assert (Hcs : zlen (concat (map put_chunk (chunks f))) = 40 * zlen (chunks f)); [|lia].
  induction Hf as [|c cs (_ & _ & Hi & _) _ IH]; [done|]. cbn [map concat]. rewrite zlen_app, zlen_cons, IH.
  unfold put_chunk. rewrite !zlen_app, !put_u64_length, Hi. unfold FILE_ID_LEN. lia.
Qed.
End laws.

Module ToyVault.
#[export] Instance bincode : Bincode := { serialize := put_meta; deserialize := get_meta }.

#[export] Instance bincode_laws : BincodeLaws bincode.
Proof.
  split; cbn [serialize deserialize bincode]; intros m (Hl & Hf & Hs).
  - unfold get_meta, put_meta. rewrite (get_put_seq _ _ index_typed); [|apply get_put_index| |done|done].
    + cbn [mbind option_bind]. rewrite <- (app_nil_r (cdc_salt m)), get_put_bytes by done. by destruct m.
    + intros f. unfold put_index, put_seq. rewrite !zlen_app, !put_u64_length.
      pose proof (zlen_nonneg (vfs_name f)). pose proof (zlen_nonneg (concat (map put_chunk (chunks f)))). lia.
  - unfold put_meta, put_seq, meta_size. rewrite !zlen_app, put_u64_length, Hs.
    assert (Ht : zlen (concat (map put_index (file_table m)))
                 = foldr (fun f n => index_size f + n) 0 (file_table m)); [|lia].
    clear Hl. induction Hf as [|f t (_ & _ & _ & Hcs & _) _ IH]; [done|].
    cbn [map concat foldr]. by rewrite zlen_app, IH, put_index_length.
Qed.

(** Cuts of at most [MAX_CHUNK_SIZE]; [fuel] bounds their number. *)
Fixpoint cut (fuel : nat) (p left : Z) : list (Z * Z) :=
  match fuel with
  | O => []
  | S fuel =>
      if left <=? 0 then [] else
      let n := Z.min left MAX_CHUNK_SIZE in
      (p, n) :: cut fuel (p + n) (left - n)
  end.

#[export] Instance fastcdc : FastCdc := {
  cdc b := cut (S (Z.to_nat (zlen b / MAX_CHUNK_SIZE))) 0 (zlen b);
}.

Lemma cut_cuts fuel p left : 0 <= left <= MAX_CHUNK_SIZE * Z.of_nat fuel -> cuts p (cut fuel p left) (p + left).
Proof.
  revert p left. induction fuel as [|fuel IH]; intros p left Hl; [cbn; lia|]. cbn [cut].
  destruct (left <=? 0) eqn:Hz; bools; cbn [cuts]; [lia|]. unfold MAX_CHUNK_SIZE in *.
  split_and!; [done|lia|lia|]. set (n := Z.min left 8192).
  replace (p + left) with (p + n + (left - n)) by lia. apply IH. lia.
Qed.

#[export] Instance fastcdc_laws : FastCdcLaws fastcdc.
Proof.
  split. intros b. pose proof (zlen_nonneg b) as Hb. cbn [cdc fastcdc].
  pose proof (Z.div_mod (zlen b) MAX_CHUNK_SIZE ltac:(done)).
  pose proof (Z.mod_pos_bound (zlen b) MAX_CHUNK_SIZE ltac:(done)).
  pose proof (Z.div_pos (zlen b) MAX_CHUNK_SIZE Hb ltac:(done)).
  apply (cut_cuts _ 0 (zlen b)). unfold MAX_CHUNK_SIZE in *. lia.
Qed.
End ToyVault.
