(* ===== verification/VaultOps.v ===== *)
(** * The operations on a vault

    [atom/src/commands/create.rs], [import.rs], [export.rs], [rm.rs], [vacuum.rs]:
    each handler with its guards in the source's order. *)

From Stdlib Require Import Strings.Byte.
From stdpp Require Import strings gmap.
From S2P Require Import Prelude Text Primitives StateM Disk VaultCrypto Vfs Storage.

(** ** Paths *)

Fixpoint split_slash (s : str) (cur : str) : list str :=
  match s with
  | [] => [cur]
  | b :: s' => if decide (b = Byte.x2f) then cur :: split_slash s' [] else split_slash s' (cur ++ [b])
  end.

(** The components of [Path]: empty ones and [.] vanish, a leading [.] of a
    relative path apart; the root is [/]. *)
Definition components (s : str) : path :=
  let parts := split_slash s [] in
  match parts with
  | p :: rest =>
      (if bool_decide (p = []) then if bool_decide (rest = []) then [] else [lit "/"] else [p])
      ++ List.filter (fun c => negb (bool_decide (c = [] \/ c = lit "."))) rest
  | [] => []
  end.

(** [Path::file_name]. *)
Definition file_name (s : str) : option str :=
  match list.last (components s) with
  | None => None
  | Some c => if bool_decide (c = lit ".." \/ c = lit "." \/ c = lit "/") then None else Some c
  end.

(** [Path::starts_with], by components. *)
Definition path_starts_with (p prefix : path) : bool := bool_decide (take (length prefix) p = prefix).

(** The machine an operation runs on: two variables of the environment, resolving
    a path (existence and symbolic links), the file that opening a path for writing
    reaches through links ([None]: the vault's own), whether the sandbox of the session
    lets a file be made beside the vault ([Sandbox.enter_sandbox]: where the vault is in
    the staging folder), and the clock in seconds, [None] before the epoch. *)
Record machine := {
  xdg_runtime_dir : option str;
  home_dir : option str;
  canonicalize : str -> option path;
  follows : path -> option path;
  temp_allowed : bool;
  unix_clock : option Z;
}.

Definition staging_dir_str (w : machine) : option str :=
  match xdg_runtime_dir w, home_dir w with
  | Some x, _ => Some (x ++ lit "/atom_staging")
  | None, Some h => Some (h ++ lit "/.atom_vault/staging")
  | None, None => None
  end.

Definition has_name (n : str) (m : VaultMetadata) : bool :=
  existsb (fun f => bool_decide (vfs_name f = n)) (file_table m).

Definition find_file (n : str) (m : VaultMetadata) : option FileIndex :=
  List.find (fun f => bool_decide (vfs_name f = n)) (file_table m).

Section ops.
Context `{PasswordHash} `{Aead} `{Sha256} `{Bincode} `{FastCdc}.
Variable fault : nat -> option Z.

(** Errors that are only printed, or ignored. *)
Definition attempt {A} (m : V A) : V (option A) := fun s =>
  match m s with
  | (Ok a, s') => (Ok (Some a), s')
  | (Err _, s') => (Ok None, s')
  | (Panic, s') => (Panic, s')
  end.

(** ** Create *)

(** [handle_create]: the settings of the chosen function, the password's check, and
    the new vault.  What the terminal gave is [password]; [total_threads] and
    [elapsed] are what the machine reports. *)
Definition choose_settings (kdf_choice : str) (memory_arg parallelism_arg : option Z)
    (total_threads : Z) : KdfSettings :=
  if bool_decide (map ascii_lower kdf_choice = lit "scrypt")
  then {| choice := Scrypt; memory_kib := default 262144 memory_arg; iterations := 3;
          parallelism := default 1 parallelism_arg |}
  else {| choice := Argon2id; memory_kib := default 65536 memory_arg; iterations := 3;
          parallelism := default (Z.max 1 total_threads) parallelism_arg |}.

(** The vault written to a new file, the open one. *)
Definition create_vault (exists_already : bool) (password : str) (settings : KdfSettings) : V unit :=
  let! salt := drawing generate_32_bytes in
  let! dek := drawing generate_32_bytes in
  let! kek := lift (derive_kek password salt settings) in
  let! (wrapped_dek, dek_nonce) := drawing (fun g =>
    let? (w, n, g) := wrap_dek kek dek g in Ok (w, n, g)) in
  let! unlocked_vault := lift (unwrap_dek kek wrapped_dek dek_nonce) in
  let! _ := sys fault "create" (fun s =>
    if exists_already then Err (VMsg "Failed to create vault file (it might already exist)")
    else Ok (tt, set_phys (File [] 0) s)) in
  let payload_offset := 112 + KDF_SIZE in
  let! _ := write_all fault Vault (le_bytes 8 payload_offset) in
  let! _ := write_all fault Vault (kdf_to_bytes settings) in
  let! _ := write_all fault Vault salt in
  let! _ := write_all fault Vault dek_nonce in
  let! _ := write_all fault Vault wrapped_dek in
  let! cdc_salt := drawing (os_fill 32) in
  let metadata := {| file_table := []; cdc_salt := cdc_salt |} in
  let! _ := save_vault_metadata fault Vault metadata unlocked_vault payload_offset in
  sync fault Vault.

(** [handle_create], once the folder of the vault is there: its first step, which makes
    the folder and the ones above it, is in the commands that call it
    ([Prompt.create_command]). *)
Definition handle_create (exists_already : bool) (kdf_choice : str)
    (memory_arg rounds_arg parallelism_arg : option Z) (decryption_time total_threads elapsed : Z)
    (password : str) : V unit :=
  let settings := choose_settings kdf_choice memory_arg parallelism_arg total_threads in
  if zlen (trim password) =? 0
  then fails (VMsg "Password cannot be empty or contain only spaces.") else
  let rounds := match rounds_arg with
                | Some r => r
                | None => calibrate_kdf decryption_time (choice settings) elapsed
                end in
  let settings := {| choice := choice settings; memory_kib := memory_kib settings;
                     iterations := rounds; parallelism := parallelism settings |} in
  create_vault exists_already password settings.

(** ** Import *)

(** The body of the import loops after the chunk's bytes are in the buffer: the
    random padding, the lock, the id, the blob, its entry and the new offset. *)
Definition store_chunk (u : UnlockedVault) (plain : bytes) : V ChunkEntry :=
  let plain_len := zlen plain in
  let! padding := drawing (os_fill (MAX_CHUNK_SIZE - plain_len)) in
  let padded := plain ++ padding in
  let! _ := mlock fault in
  let! file_id := drawing generate_file_id in
  let! blob := drawing (fun g => map_err VCrypto (encrypt_chunk u padded file_id g)) in
  let! _ := write_all fault Vault blob in
  let! offset := gets payload in
  let! _ := modify (set_payload (wadd64 offset (zlen blob))) in
  mret {| cipher_len := zlen blob; offset := offset; file_id := file_id; plain_len := plain_len |}.

(** [&data[start..start + plain_len]] into [padded[..plain_len]]. *)
Definition chunk_of (data : bytes) (start n : Z) : vresult bytes :=
  if MAX_CHUNK_SIZE <? n then Panic else or_panic (slice start (start + n) data).

Fixpoint import_bytes_loop (u : UnlockedVault) (data : bytes) (boundaries : list (Z * Z))
    (new_chunks : list ChunkEntry) : V (list ChunkEntry) :=
  match boundaries with
  | [] => mret new_chunks
  | (start, n) :: boundaries =>
      let! plain := lift (chunk_of data start n) in
      let! c := store_chunk u plain in
      import_bytes_loop u data boundaries (new_chunks ++ [c])
  end.

(** The end of both imports: the entry, the metadata and the file made durable. *)
Definition finish_import (w : machine) (u : UnlockedVault) (name : str)
    (new_chunks : list ChunkEntry) : V unit :=
  let! now := lift (or_panic (unix_clock w)) in
  let! _ := modify (fun s => set_meta
    {| file_table := file_table (meta s)
         ++ [{| vfs_name := name; chunks := new_chunks; last_modified_unix := now |}];
       cdc_salt := cdc_salt (meta s) |} s) in
  let! m := gets meta in
  let! p := gets payload in
  let! _ := save_vault_metadata fault Vault m u p in
  sync fault Vault.

Definition already_exists : vault_error := VMsg "A file of that name already exists in the vault.".

Definition handle_import_from_bytes (w : machine) (u : UnlockedVault) (data : bytes) (name : str)
    : V unit :=
  let! m := gets meta in
  if has_name name m then fails already_exists else
  let boundaries := cdc data in
  let! p := gets payload in
  let! _ := seek fault Vault p in
  let! new_chunks := import_bytes_loop u data boundaries [] in
  finish_import w u name new_chunks.

Fixpoint import_file_loop (u : UnlockedVault) (target : path) (boundaries : list (Z * Z))
    (new_chunks : list ChunkEntry) : V (list ChunkEntry) :=
  match boundaries with
  | [] => mret new_chunks
  | (start, n) :: boundaries =>
      let! _ := seek fault (Other target) start in
      if MAX_CHUNK_SIZE <? n then lift Panic else
      let! plain := read_exact fault (Other target) n in
      let! c := store_chunk u plain in
      import_file_loop u target boundaries (new_chunks ++ [c])
  end.

(** Zeros over the staged file, a page at a time, up to the first failing write. *)
Fixpoint shred_loop (pages : nat) (target : path) (written size : Z) : V unit :=
  match pages with
  | O => mret tt
  | S pages =>
      if size <=? written then mret tt else
      let to_write := Z.min 4096 (size - written) in
      let! r := attempt (write_all fault (Other target) (zrep to_write Byte.x00)) in
      match r with
      | None => mret tt
      | Some _ => shred_loop pages target (written + to_write) size
      end
  end.

Definition shred (target : path) : V unit :=
  let! len := attempt (sys fault "metadata" (on_file (Other target) (fun f => Ok (f_len f, f)))) in
  match len with
  | None => mret tt
  | Some size =>
      let! _ := attempt (seek fault (Other target) 0) in
      let! _ := shred_loop (S (Z.to_nat (size / 4096))) target 0 size in
      let! _ := attempt (sync fault (Other target)) in
      mret tt
  end.

Definition handle_import (w : machine) (u : UnlockedVault) (from_disk name : str) : V unit :=
  match staging_dir_str w with
  | None => fails (VMsg "Neither XDG_RUNTIME_DIR nor HOME environment variables are set.")
  | Some dir =>
  match canonicalize w dir with
  | None => fails (VMsg "Could not resolve staging directory path.")
  | Some allowed_path =>
  match canonicalize w from_disk with
  | None => fails (VMsg "The file does not exist or cannot be resolved.")
  | Some target_path =>
  if negb (path_starts_with target_path allowed_path)
  then fails (VMsg "Imports are strictly limited to the staging area.") else
  let! m := gets meta in
  if has_name name m then fails already_exists else
  let! data := sys fault "open" (on_file (Other target_path) (fun f =>
    Ok (content f, File (content f) 0))) in
  let! boundaries := sys fault "chunk" (on_file (Other target_path) (fun f =>
    Ok (cdc (content f), File (content f) (f_len f)))) in
  let! p := gets payload in
  let! _ := seek fault Vault p in
  let! new_chunks := import_file_loop u target_path boundaries [] in
  let! _ := finish_import w u name new_chunks in
  let! _ := shred target_path in
  let! _ := attempt (sys fault "remove" (fun s => Ok (tt, set_fs (delete target_path (fs s)) s))) in
  mret tt
  end end end.

(** ** Export *)

Fixpoint export_loop (u : UnlockedVault) (cs : list ChunkEntry) (output : bytes) : V bytes :=
  match cs with
  | [] => mret output
  | c :: cs =>
      let! content := open_chunk fault u c in
      export_loop u cs (output ++ content)
  end.

Definition not_found : vault_error := VMsg "File not found in vault.".

(** [create_new] where the name is a link to a file that is not there. *)
Definition cannot_create : vault_error := VMsg "Failed to create secure output file".

Definition decrypt_to_bytes (u : UnlockedVault) (name : str) : V bytes :=
  let! m := gets meta in
  match find_file name m with
  | None => fails not_found
  | Some f => export_loop u (chunks f) []
  end.

Fixpoint export_to (u : UnlockedVault) (target : path) (cs : list ChunkEntry) : V unit :=
  match cs with
  | [] => mret tt
  | c :: cs =>
      let! content := open_chunk fault u c in
      let! _ := write_all fault (Other target) content in
      export_to u target cs
  end.

(** The file behind the staged name is the vault's own: it is emptied when it is opened,
    and what is written goes into it, at the writer's own place. *)
Definition on_itself (f : bytes -> bytes) (s : vault) : vault :=
  match at_path s with
  | Some c => set_at_path (Some (f c)) s
  | None => set_phys (match phys s with File c p => File (f c) p end) s
  end.
Fixpoint export_over (u : UnlockedVault) (cs : list ChunkEntry) : V unit :=
  match cs with
  | [] => mret tt
  | c :: cs =>
      let! content := open_chunk fault u c in
      let! _ := sys fault "write" (fun s => Ok (tt, on_itself (fun b => b ++ content) s)) in
      export_over u cs
  end.

Definition handle_export (w : machine) (u : UnlockedVault) (name to_disk : str)
    (force_overwrite : bool) : V unit :=
  match staging_dir_str w with
  | None => fails (VMsg "Neither XDG_RUNTIME_DIR nor HOME environment variables are set.")
  | Some dir =>
  match file_name to_disk with
  | None => fails (VMsg "Invalid target file name provided.")
  | Some safe_filename =>
  let target_path := components dir ++ [safe_filename] in
  let behind := follows w target_path in
  let! present := gets (fun s => match behind with Some p => bool_decide (is_Some (fs s !! p)) | None => true end) in
  if (present : bool) && negb force_overwrite then fails (VMsg "ALREADY_EXISTS") else
  let! m := gets meta in
  match find_file name m with
  | None => fails not_found
  | Some target_file =>
      match behind with
      | None =>
          let! _ := sys fault "open" (fun s => Ok (tt, on_itself (fun _ => []) s)) in
          let! _ := export_over u (chunks target_file) in
          sync fault Vault
      | Some p =>
          if bool_decide (p <> target_path) && negb force_overwrite then fails cannot_create else
          let! _ := sys fault "open" (fun s => Ok (tt, set_fs (<[p := File [] 0]> (fs s)) s)) in
          let! _ := export_to u p (chunks target_file) in
          sync fault (Other p)
      end
  end end end.

(** ** Remove *)

(** The position of the file, and the table without it. *)
Fixpoint position (n : str) (l : list FileIndex) : option nat :=
  match l with
  | [] => None
  | f :: l => if decide (vfs_name f = n) then Some 0%nat else S <$> position n l
  end.

Fixpoint wipe_loop (cs : list ChunkEntry) : V unit :=
  match cs with
  | [] => mret tt
  | c :: cs =>
      let! _ := seek fault Vault (offset c) in
      let! _ := write_all fault Vault (zrep (cipher_len c) Byte.x00) in
      wipe_loop cs
  end.

Definition handle_rm (u : UnlockedVault) (name : str) : V unit :=
  let! m := gets meta in
  match position name (file_table m) with
  | None => fails (VMsg "File not found in metadata")
  | Some index =>
      let! f := lift (or_panic (file_table m !! index)) in
      let! _ := wipe_loop (chunks f) in
      let! _ := modify (set_meta {| file_table := delete index (file_table m);
                                    cdc_salt := cdc_salt m |}) in
      let! p := gets payload in
      let! _ := seek fault Vault p in
      let! _ := set_len fault Vault p in
      let! m := gets meta in
      let! _ := save_vault_metadata fault Vault m u p in
      sync fault Vault
  end.

(** ** Vacuum *)

(** The inner loop: each chunk copied to the new offset, its entry updated in the
    metadata as soon as it is.  [put] stores the file's chunks. *)
Fixpoint vacuum_chunks (put : list ChunkEntry -> V unit) (moved rest : list ChunkEntry) (off : Z)
    : V (list ChunkEntry * Z) :=
  match rest with
  | [] => mret (moved, off)
  | c :: rest =>
      let! _ := seek fault Vault (offset c) in
      let! cipher_buffer := read_exact fault Vault (cipher_len c) in
      let! _ := seek fault Temp off in
      let! _ := write_all fault Temp cipher_buffer in
      let c' := {| cipher_len := cipher_len c; offset := off; file_id := file_id c;
                   plain_len := plain_len c |} in
      let! _ := put (moved ++ c' :: rest) in
      vacuum_chunks put (moved ++ [c']) rest (wadd64 off (cipher_len c))
  end.

Definition with_chunks (f : FileIndex) (cs : list ChunkEntry) : FileIndex :=
  {| vfs_name := vfs_name f; chunks := cs; last_modified_unix := last_modified_unix f |}.

Fixpoint vacuum_files (moved rest : list FileIndex) (off : Z) : V Z :=
  match rest with
  | [] => mret off
  | f :: rest =>
      let put cs := modify (fun s => set_meta
        {| file_table := moved ++ with_chunks f cs :: rest; cdc_salt := cdc_salt (meta s) |} s) in
      let! (cs, off) := vacuum_chunks put [] (chunks f) off in
      vacuum_files (moved ++ [with_chunks f cs]) rest off
  end.

Definition handle_vacuum (u : UnlockedVault) : V Z :=
  let! _ := sys fault "create" (fun s =>
    match tmp s with
    | Some _ => Err (VMsg "Failed to create vacuum temp file")
    | None => Ok (tt, set_tmp (Some (File [] 0)) s)
    end) in
  let header_size := VAULT_HEADER_SIZE in
  let! _ := write_all fault Temp (zrep 8 Byte.x00) in
  let! _ := seek fault Vault 8 in
  let! header_rest := read_exact fault Vault (header_size - 8) in
  let! _ := write_all fault Temp header_rest in
  let! table := gets (fun s => file_table (meta s)) in
  let! new_payload_offset := vacuum_files [] table header_size in
  let! m := gets meta in
  let! _ := save_vault_metadata fault Temp m u new_payload_offset in
  let! _ := sync fault Temp in
  let! _ := sys fault "rename" (fun s =>
    Ok (tt, set_tmp None (set_at_path (content <$> tmp s) s))) in
  mret new_payload_offset.

End ops.

Section session.
Context `{PasswordHash} `{Aead} `{Sha256} `{Bincode} `{FastCdc}.
Variable fault : nat -> option Z.

(** Outside the staging folder the sandbox of the session refuses the first operation of
    a vacuum, which makes the new file beside the vault. *)
Definition vacuum_faults (w : machine) (n : nat) : nat -> option Z :=
  if temp_allowed w then fault else fun i => if bool_decide (i = n) then Some 0 else fault i.

(** What [shell.rs] does with the result: reopen the path and take the new offset; the
    errors of both are printed, and the session goes on with the file it has. *)
Definition shell_vacuum (w : machine) (u : UnlockedVault) : V unit :=
  let! n := gets ios in
  let! new_offset := handle_vacuum (vacuum_faults w n) u in
  let! _ := sys fault "open" (fun s =>
    Ok (tt, set_at_path None (set_phys (File (default (content (phys s)) (at_path s)) 0) s))) in
  modify (set_payload new_offset).

(** ** A session *)

(** [handle_enter]: the file at the path is opened and its metadata read, the
    process confined, and [shell] runs on the vault.  What the sandbox then refuses is in
    the [machine] the commands run on. *)
Definition handle_enter {A} (password : str) (shell : UnlockedVault -> V A) : V A :=
  let! _ := sys fault "open" (fun s =>
    Ok (tt, set_at_path None (set_phys (File (default (content (phys s)) (at_path s)) 0) s))) in
  if zlen (trim password) =? 0
  then fails (VMsg "Password cannot be empty or contain only spaces.") else
  let! (metadata, u, current_payload_offset) := load_vault_metadata fault password in
  let! _ := modify (fun s => set_payload current_payload_offset (set_meta metadata s)) in
  let! _ := sys fault "sandbox" (fun s => Ok (tt, s)) in
  let! r := shell u in
  let! _ := sync fault Vault in
  mret r.
End session.
