(* ===== verification/Paths.v ===== *)
(** * File names

    [std::path::Path]'s [file_stem], [extension], [join] and [strip_prefix], on top of its
    components. *)

From Stdlib Require Import Strings.Byte.
From stdpp Require Import strings.
From S2P Require Import Prelude Text VaultOps.

Definition dot : byte := Byte.x2e.

(** A name cut at its last dot; a name that only starts with a dot is not cut. *)
Definition rsplit_file_at_dot (file : str) : str * option str :=
  match rsplit_once dot file with
  | Some (before, after) => if bool_decide (before = []) then (file, None) else (before, Some after)
  | None => (file, None)
  end.

Definition file_stem (p : str) : option str := fst ∘ rsplit_file_at_dot <$> file_name p.
Definition extension (p : str) : option str := p ← file_name p; snd (rsplit_file_at_dot p).

(** [Path::join]. *)
Definition join (base name : str) : str :=
  if starts_with (lit "/") name || bool_decide (base = []) then name
  else if bool_decide (is_Some (strip_suffix (lit "/") base)) then base ++ name else base ++ lit "/" ++ name.

(** [Path::strip_prefix]: the text that is left when the components of the prefix are
    taken away, without the separators around it. *)
Definition vanishes (c : str) : bool := bool_decide (c = [] \/ c = lit ".").
Fixpoint drop_parts (n : nat) (parts : list str) : list str :=
  match parts with
  | [] => []
  | p :: parts' =>
      if vanishes p then drop_parts n parts' else match n with O => parts | S n => drop_parts n parts' end
  end.
Fixpoint slashed (parts : list str) : str :=
  match parts with [] => [] | [p] => p | p :: parts => p ++ Byte.x2f :: slashed parts end.
Definition path_strip_prefix (prefix p : str) : option str :=
  if negb (path_starts_with (components p) (components prefix)) then None else
  if bool_decide (components prefix = []) then Some p else
  Some (slashed (reverse (drop_while vanishes (reverse
         (drop_parts (pred (length (components prefix))) (tail (split_slash p []))))))).

(** [str::split] at one character of one byte. *)
Fixpoint split_on (c : byte) (s : str) (cur : str) : list str :=
  match s with
  | [] => [cur]
  | b :: s => if decide (b = c) then cur :: split_on c s [] else split_on c s (cur ++ [b])
  end.

(** Stem and extension make up the name. *)
Lemma stem_and_extension file :
  let (stem, ext) := rsplit_file_at_dot file in
  file = stem ++ match ext with Some e => dot :: e | None => [] end.
Proof.
  unfold rsplit_file_at_dot. destruct (rsplit_once dot file) as [[a b]|] eqn:Hs; [|by rewrite app_nil_r].
  case_bool_decide; [by rewrite app_nil_r|]. by apply rsplit_once_join.
Qed.

Lemma split_slash_app a b cur : split_slash (a ++ Byte.x2f :: b) cur = split_slash a cur ++ split_slash b [].
Proof.
  revert cur. induction a as [|x a IH]; intros cur; cbn [app split_slash]; [by rewrite decide_True|].
  destruct (decide (x = Byte.x2f)); [by rewrite IH|apply IH].
Qed.

(** *** Taking a prefix away *)

Definition kept (parts : list str) : list str := List.filter (fun c => negb (vanishes c)) parts.

Lemma kept_app a b : kept (a ++ b) = kept a ++ kept b.
Proof. apply List.filter_app. Qed.

Lemma kept_drop_parts n parts : kept (drop_parts n parts) = drop n (kept parts).
Proof.
  revert n. induction parts as [|p parts IH]; intros n; [by destruct n|]. cbn [drop_parts kept List.filter].
  destruct (vanishes p) eqn:Hp; cbn [negb]; [apply IH|]. destruct n as [|n]; [|apply IH].
  unfold kept. cbn [List.filter]. by rewrite Hp.
Qed.

Lemma drop_parts_head n parts p l : drop_parts n parts = p :: l -> vanishes p = false.
Proof.
  revert n. induction parts as [|q parts IH]; intros n; [done|]. cbn [drop_parts].
  destruct (vanishes q) eqn:Hq; [apply IH|]. destruct n; [by intros [= -> ->]|apply IH].
Qed.

Lemma kept_trim l : kept (reverse (drop_while vanishes (reverse l))) = kept l.
Proof.
  induction l as [|p l IH] using rev_ind; [done|]. rewrite reverse_snoc. cbn [drop_while].
  destruct (vanishes p) eqn:Hp; [|by rewrite reverse_cons, reverse_involutive].
  rewrite IH, kept_app. unfold kept at 3. cbn [List.filter]. by rewrite Hp, app_nil_r.
Qed.

Lemma trim_parts_head p l : vanishes p = false -> exists l', reverse (drop_while vanishes (reverse (p :: l))) = p :: l'.
Proof.
  intros Hp. induction l as [|q l IH] using rev_ind; [exists []; cbn; by rewrite Hp|].
  rewrite app_comm_cons, reverse_snoc. cbn [drop_while]. destruct (vanishes q); [done|].
  exists (l ++ [q]). by rewrite reverse_cons, reverse_involutive.
Qed.

Definition slash_free (p : str) : Prop := Forall (fun b => b <> Byte.x2f) p.

Lemma split_slash_free s cur : slash_free cur -> Forall slash_free (split_slash s cur).
Proof.
  revert cur. induction s as [|b s IH]; intros cur Hc; cbn [split_slash]; [by constructor|].
  case_decide; [constructor; [done|by apply IH; constructor]|].
  apply IH, Forall_app_2; [done|by constructor].
Qed.

Lemma split_free p cur : slash_free p -> split_slash p cur = [cur ++ p].
Proof.
  intros Hp. revert cur. induction Hp as [|b p Hb _ IH]; intros cur; cbn [split_slash]; [by rewrite app_nil_r|].
  rewrite decide_False, IH by done. by rewrite <- app_assoc.
Qed.

Lemma split_slashed l : Forall slash_free l -> l <> [] -> split_slash (slashed l) [] = l.
Proof.
  induction 1 as [|p l Hp Hl IH]; [done|]. intros _. destruct l as [|q l]; [by apply split_free|].
  change (slashed (p :: q :: l)) with (p ++ Byte.x2f :: slashed (q :: l)).
  by rewrite split_slash_app, split_free, IH.
Qed.

Lemma components_slashed p l : vanishes p = false -> Forall slash_free (p :: l) -> components (slashed (p :: l)) = kept (p :: l).
Proof.
  intros Hp Hl. unfold components. rewrite split_slashed by done.
  apply bool_decide_eq_false in Hp as Hne. rewrite bool_decide_eq_false_2 by tauto.
  unfold kept. cbn [List.filter]. by rewrite Hp.
Qed.

Lemma drop_parts_sub n parts : forall p, p ∈ drop_parts n parts -> p ∈ parts.
Proof.
  revert n. induction parts as [|q parts IH]; intros n p; [done|]. cbn [drop_parts].
  destruct (vanishes q); [right; by eapply IH|]. destruct n; [done|right; by eapply IH].
Qed.

Lemma drop_while_sub {A} f (l : list A) x : x ∈ drop_while f l -> x ∈ l.
Proof. induction l as [|y l IH]; [done|]. cbn. destruct (f y); [right; by apply IH|done]. Qed.

Lemma split_slash_cons s cur : exists q rest, split_slash s cur = q :: rest.
Proof. revert cur. induction s as [|b s IH]; intros cur; cbn [split_slash]; [by eexists _, _|]. case_decide; [by eexists _, _|apply IH]. Qed.

Lemma slashed_split s cur : slashed (split_slash s cur) = cur ++ s.
Proof.
  revert cur. induction s as [|b s IH]; intros cur; cbn [split_slash]; [cbn; by rewrite app_nil_r|].
  case_decide as Hb; [|by rewrite IH, <- app_assoc]. specialize (IH []).
  destruct (split_slash_cons s []) as (q & rest & Hq). rewrite Hq in *.
  change (slashed (cur :: q :: rest)) with (cur ++ Byte.x2f :: slashed (q :: rest)). by rewrite IH, Hb.
Qed.

Lemma components_head s : s <> [] -> exists h, components s = h :: kept (tail (split_slash s [])).
Proof.
  intros Hs. pose proof (slashed_split s []) as Hj. unfold components.
  destruct (split_slash s []) as [|q rest]; [by subst|]. cbn [tail].
  case_bool_decide; [|by exists q]. case_bool_decide; [by subst|]. exists (lit "/"). cbn [app]. f_equal.
Qed.

(** What is left after the prefix names the rest of the path. *)
Lemma path_strip_prefix_components prefix p rel :
  prefix <> [] -> path_strip_prefix prefix p = Some rel -> components p = components prefix ++ components rel.
Proof.
  intros Hprefix. unfold path_strip_prefix.
  destruct (path_starts_with (components p) (components prefix)) eqn:Hs; [|done]. cbn [negb].
  apply bool_decide_eq_true in Hs. destruct (components_head prefix Hprefix) as (h & Hh).
  rewrite bool_decide_eq_false_2 by (by rewrite Hh). intros [= <-].
  assert (Hp : p <> []) by (intros ->; by rewrite Hh in Hs). destruct (components_head p Hp) as (h' & Hh').
  rewrite <- (take_drop (length (components prefix)) (components p)) at 1. rewrite Hs. f_equal.
  rewrite Hh', Hh. cbn [length drop pred]. rewrite <- kept_drop_parts.
  set (n := length (kept (tail (split_slash prefix [])))). set (parts := tail (split_slash p [])).
  assert (Hfree : Forall slash_free (drop_parts n parts)).
  { apply list.Forall_forall. intros q Hq%drop_parts_sub. pose proof (split_slash_free p [] (Forall_nil_2 _)) as Hf.
    subst parts. destruct (split_slash p []); [by apply elem_of_nil in Hq|]. apply list.Forall_cons in Hf as [_ Hf].
    rewrite list.Forall_forall in Hf. by apply Hf. }
  destruct (drop_parts n parts) as [|q l] eqn:Hd; [done|]. pose proof (drop_parts_head _ _ _ _ Hd) as Hq.
  rewrite <- kept_trim. destruct (trim_parts_head q l Hq) as (l' & Hl'). rewrite Hl', components_slashed; [done..|].
  rewrite <- Hl'. apply list.Forall_reverse, list.Forall_forall. intros x Hx%drop_while_sub. rewrite list.Forall_forall in Hfree.
  apply Hfree. by apply elem_of_reverse.
Qed.

(** *** Joining *)

Lemma components_kept s p rest :
  split_slash s [] = p :: rest ->
  components s = (if bool_decide (p = []) then if bool_decide (rest = []) then [] else [lit "/"] else [p]) ++ kept rest.
Proof. intros Hs. unfold components. by rewrite Hs. Qed.

Lemma kept_one n : vanishes n = false -> kept [n] = [n].
Proof. intros Hv. unfold kept. cbn. by rewrite Hv. Qed.

(** One more component at the end, which vanishes if it is empty. *)
Lemma components_snoc b n :
  b <> [] -> slash_free n -> components (b ++ Byte.x2f :: n) = components b ++ kept [n].
Proof.
  intros Hb Hn. destruct (split_slash_cons b []) as (q & rest & Hq).
  rewrite (components_kept b q rest Hq), (components_kept _ q (rest ++ [n])), kept_app, app_assoc.
  2: { by rewrite split_slash_app, (split_free n []), Hq. }
  f_equal. f_equal. case_bool_decide as Hq0; [|done]. rewrite (bool_decide_eq_false_2 (rest ++ [n] = [])) by (by destruct rest).
  case_bool_decide as Hr; [|done]. exfalso. apply Hb. subst. pose proof (slashed_split b []) as Hs. by rewrite Hq in Hs.
Qed.

Lemma not_absolute n : slash_free n -> starts_with (lit "/") n = false.
Proof.
  intros Hn. unfold starts_with. apply bool_decide_eq_false. intros [r Hr%strip_prefix_Some]. rewrite Hr in Hn.
  by apply list.Forall_cons in Hn as [? _].
Qed.

Lemma components_join b n :
  b <> [] -> slash_free n -> vanishes n = false -> components (join b n) = components b ++ [n].
Proof.
  intros Hb Hn Hv. unfold join. rewrite not_absolute, (bool_decide_eq_false_2 (b = [])) by done. cbn [orb].
  change (lit "/" ++ n) with (Byte.x2f :: n). case_bool_decide as He; [|by rewrite components_snoc, kept_one].
  destruct He as [r Hr%strip_suffix_Some]. subst b. rewrite <- app_assoc. change (lit "/" ++ n) with (Byte.x2f :: n).
  change (lit "/") with (Byte.x2f :: []). destruct r as [|x r].
  - cbn [app]. rewrite (components_kept _ [] [n]), kept_one; [done|done|]. cbn [split_slash].
    by rewrite decide_True, (split_free n []).
  - rewrite !components_snoc, kept_one by (done || constructor). change (kept [[]]) with (@nil str). by rewrite app_nil_r.
Qed.
