(* ===== verification/VaultSpec.v ===== *)
(** * What a vault stores

    The abstract vault is the list of its files, in order, with their contents.
    Each operation of [VaultOps] is refined to an operation on that list, and the
    file on disk always opens to it. *)

From Stdlib Require Import Strings.Byte.
From stdpp Require Import strings gmap.
From S2P Require Import Prelude Text Primitives StateM Disk VaultCrypto Vfs Storage VaultOps.

Section spec.
Context `{PasswordHash} `{Aead} `{Sha256} `{Bincode} `{FastCdc}.

(** What a chunk's entry gives in a file. *)
Definition chunk_data (u : UnlockedVault) (c : bytes) (e : ChunkEntry) : option bytes :=
  match slice (offset e) (offset e + cipher_len e) c with
  | None => None
  | Some blob =>
      match decrypt_chunk u blob (file_id e) with
      | Ok p => match strip_padding (plain_len e) p with Ok d => Some d | _ => None end
      | _ => None
      end
  end.

Definition file_holds (u : UnlockedVault) (c : bytes) (f : FileIndex) (data : bytes) : Prop :=
  exists ds, Forall2 (fun e d => chunk_data u c e = Some d) (chunks f) ds /\ data = concat ds.

Definition table_holds (u : UnlockedVault) (c : bytes) (table : list FileIndex)
    (L : list (str * bytes)) : Prop :=
  Forall2 (fun f nd => vfs_name f = fst nd /\ file_holds u c f (snd nd)) table L.

(** Chunks one after another between [lo] and [hi], gaps allowed. *)
Fixpoint ordered (lo : Z) (cs : list ChunkEntry) (hi : Z) : Prop :=
  match cs with
  | [] => lo <= hi
  | e :: cs => lo <= offset e /\ 0 <= cipher_len e /\ ordered (offset e + cipher_len e) cs hi
  end.

Definition all_chunks (table : list FileIndex) : list ChunkEntry := concat (map chunks table).

(** The file up to the payload offset. *)
Definition body_ok (password : str) (u : UnlockedVault) (L : list (str * bytes))
    (m : VaultMetadata) (off : Z) (c : bytes) : Prop :=
  VAULT_HEADER_SIZE <= off <= zlen c /\ is_u64 off /\
  (exists header, slice 8 VAULT_HEADER_SIZE c = Some header /\ header_opens password u header) /\
  ordered VAULT_HEADER_SIZE (all_chunks (file_table m)) off /\
  table_holds u c (file_table m) L /\ NoDup (map fst L) /\ meta_fits m.

(** And all of it. *)
Definition file_ok (password : str) (u : UnlockedVault) (L : list (str * bytes))
    (m : VaultMetadata) (off : Z) (c : bytes) : Prop :=
  body_ok password u L m off c /\ slice 0 8 c = Some (le_bytes 8 off) /\ block_opens u m (zdrop off c).

(** An open vault with nothing pending. *)
Definition vault_ok (password : str) (u : UnlockedVault) (L : list (str * bytes)) (s : vault) : Prop :=
  file_ok password u L (meta s) (payload s) (content (phys s)) /\
  tmp s = None /\ at_path s = None /\ rng_total (gen s).

(** ** Lemmas on layouts *)

Lemma file_ok_vault_file password u L m off c :
  file_ok password u L m off c -> vault_file password u m off c.
Proof. intros [(Hr & ? & ? & _) [? ?]]. by split; [exact Hr|split_and!]. Qed.

Lemma ordered_le lo cs hi : ordered lo cs hi -> lo <= hi.
Proof.
  revert lo. induction cs as [|e cs IH]; intros lo; cbn [ordered]; [done|].
  intros (? & ? & Ho). apply IH in Ho. lia.
Qed.

Lemma ordered_widen lo lo' cs hi hi' : ordered lo cs hi -> lo' <= lo -> hi <= hi' -> ordered lo' cs hi'.
Proof.
  revert lo lo'. induction cs as [|e cs IH]; intros lo lo'; cbn [ordered]; [lia|].
  intros (? & ? & Ho) ? ?. split_and!; [lia|done|]. by eapply IH; [exact Ho|lia|].
Qed.

Lemma ordered_app lo cs ds hi :
  ordered lo (cs ++ ds) hi <-> exists mid, ordered lo cs mid /\ ordered mid ds hi.
Proof.
  revert lo. induction cs as [|e cs IH]; intros lo; cbn [ordered app].
  - split.
    + intros Ho. exists lo. by split.
    + intros (mid & ? & Ho). by eapply ordered_widen.
  - rewrite IH. split.
    + intros (? & ? & mid & ? & ?). exists mid. by split_and!.
    + intros (mid & (? & ? & ?) & ?). split_and!; [done|done|by exists mid].
Qed.

Lemma ordered_range lo cs hi e :
  ordered lo cs hi -> e ∈ cs -> lo <= offset e /\ 0 <= cipher_len e /\ offset e + cipher_len e <= hi.
Proof.
  revert lo. induction cs as [|x cs IH]; intros lo; cbn [ordered]; [by intros _ ?%elem_of_nil|].
  intros (? & ? & Ho) [->|Hin]%elem_of_cons.
  - apply ordered_le in Ho. split_and!; lia.
  - destruct (IH _ Ho Hin) as (? & ? & ?). split_and!; lia.
Qed.

(** A file that agrees with another where the chunks are holds the same. *)
Definition agree (lo hi : Z) (c c' : bytes) : Prop :=
  forall x y, lo <= x -> y <= hi -> slice x y c' = slice x y c.

Lemma agree_trans lo hi c1 c2 c3 : agree lo hi c1 c2 -> agree lo hi c2 c3 -> agree lo hi c1 c3.
Proof. intros A1 A2 x y Hx Hy. rewrite A2, A1; done. Qed.

Lemma agree_weaken lo hi lo' hi' c c' : agree lo hi c c' -> lo <= lo' -> hi' <= hi -> agree lo' hi' c c'.
Proof. intros Ha ? ? x y Hx Hy. apply Ha; lia. Qed.

Lemma chunk_data_agree u lo hi c c' e :
  agree lo hi c c' -> lo <= offset e -> offset e + cipher_len e <= hi ->
  chunk_data u c' e = chunk_data u c e.
Proof. intros Ha ? ?. unfold chunk_data. by rewrite Ha. Qed.

Lemma chunks_agree u lo hi c c' cs ds :
  agree lo hi c c' -> ordered lo cs hi ->
  Forall2 (fun e d => chunk_data u c e = Some d) cs ds ->
  Forall2 (fun e d => chunk_data u c' e = Some d) cs ds.
Proof.
  intros Ha Ho Hf. assert (Hin : forall e, e ∈ cs -> chunk_data u c' e = chunk_data u c e).
  { intros e He. destruct (ordered_range _ _ _ _ Ho He) as (? & ? & ?).
    by eapply chunk_data_agree. }
  clear Ho. induction Hf as [|e d cs ds Hd _ IH]; constructor.
  - rewrite Hin; [done|by left].
  - apply IH. intros e' He'. apply Hin. by right.
Qed.

Lemma all_chunks_app t1 t2 : all_chunks (t1 ++ t2) = all_chunks t1 ++ all_chunks t2.
Proof. unfold all_chunks. by rewrite map_app, concat_app. Qed.

Lemma all_chunks_cons f t : all_chunks (f :: t) = chunks f ++ all_chunks t.
Proof. done. Qed.

Lemma table_agree u lo hi c c' t L :
  agree lo hi c c' -> ordered lo (all_chunks t) hi -> table_holds u c t L -> table_holds u c' t L.
Proof.
  intros Ha Ho Ht. revert lo Ha Ho.
  induction Ht as [|f nd t L [Hn (ds & Hds & He)] _ IH]; intros lo Ha Ho; constructor.
  - split; [done|]. exists ds. split; [|done]. rewrite all_chunks_cons in Ho.
    apply ordered_app in Ho as (mid & Ho1 & Ho2). pose proof (ordered_le _ _ _ Ho2).
    eapply (chunks_agree u lo mid); [|exact Ho1|exact Hds]. by eapply agree_weaken.
  - rewrite all_chunks_cons in Ho. apply ordered_app in Ho as (mid & Ho1 & Ho2).
    pose proof (ordered_le _ _ _ Ho1). eapply (IH mid); [|exact Ho2]. by eapply agree_weaken.
Qed.

Lemma body_agree password u L m off c c' :
  body_ok password u L m off c -> agree 8 off c c' -> off <= zlen c' ->
  body_ok password u L m off c'.
Proof.
  intros (Hoff & Hu & (hd & Hs & Hhd) & Ho & Ht & Hn & Hm) Ha Hl.
  assert (VAULT_HEADER_SIZE = 125) by done. split_and!; try done; try lia.
  - exists hd. split; [|done]. rewrite Ha; [done|lia|lia].
  - eapply (table_agree u VAULT_HEADER_SIZE off); [|exact Ho|exact Ht].
    eapply agree_weaken; [exact Ha|lia|lia].
Qed.

(** ** Saving *)

Context `{!AeadLaws _} `{!Sha256Laws _} `{!BincodeLaws _}.
Variable fault : nat -> option Z.
Hypothesis no_fault : forall n, fault n = None.

Lemma runs_save_ok h password u L m off s c p (Q : unit -> vault -> Prop) :
  held h s = Some (File c p) -> rng_total (gen s) -> body_ok password u L m off c ->
  (forall s' c' p', held h s' = Some (File c' p') -> frame h s s' -> file_ok password u L m off c' ->
     agree 8 off c c' -> Q tt s') ->
  runs (save_vault_metadata fault h m u off) s Q.
Proof.
  intros Hh Hg Hb HQ. assert (VAULT_HEADER_SIZE = 125) by done.
  pose proof Hb as (Hoff & Hu & _ & _ & _ & _ & Hm).
  eapply (runs_save fault no_fault h); [exact Hh|done|done|cbn [content]; lia|done|].
  cbn [content]. intros s' c' p' Hh' Hf Hl Hp Ha Hblk.
  eapply HQ; [exact Hh'|done| |exact Ha]. split_and!; try done. by eapply body_agree.
Qed.

(** ** Importing *)

Definition BLOB_LEN : Z := MAX_CHUNK_SIZE + CHUNK_OVERHEAD.

(** What an import leaves alone. *)
Definition rest_same (s s' : vault) : Prop :=
  tmp s' = tmp s /\ at_path s' = at_path s /\ meta s' = meta s /\ rng_total (gen s').

Lemma frame_rest s s' : frame Vault s s' -> rng_total (gen s) -> rest_same s s'.
Proof. intros (Hh & ? & ? & _ & Hg) ?. split_and!; auto. by apply (Hh Temp). Qed.

Lemma rest_trans s1 s2 s3 : rest_same s1 s2 -> rest_same s2 s3 -> rest_same s1 s3.
Proof. intros (? & ? & ? & _) (? & ? & ? & ?). split_and!; congruence || done. Qed.

(** A new entry at the end of the file. *)
Definition stored (u : UnlockedVault) (P : Z) (plain : bytes) (e : ChunkEntry) (c c' : bytes) : Prop :=
  offset e = P /\ cipher_len e = BLOB_LEN /\ chunk_typed e /\ chunk_data u c' e = Some plain /\
  P + BLOB_LEN <= zlen c' /\ agree 8 P c c'.

Lemma store_chunk_runs u s c P plain (Q : ChunkEntry -> vault -> Prop) :
  phys s = File c P -> payload s = P -> VAULT_HEADER_SIZE <= P <= zlen c ->
  P + BLOB_LEN <= u64_max -> 0 < zlen plain <= MAX_CHUNK_SIZE -> rng_total (gen s) ->
  (forall s' e c', phys s' = File c' (P + BLOB_LEN) -> payload s' = P + BLOB_LEN -> rest_same s s' ->
     fs s' = fs s -> stored u P plain e c c' -> Q e s') ->
  runs (store_chunk fault u plain) s Q.
Proof.
  intros Hp Hpay HP Hu64 Hplain Hg HQ. unfold store_chunk.
  assert (HB : BLOB_LEN = 8251) by done. assert (HM : MAX_CHUNK_SIZE = 8192) by done.
  assert (HV : VAULT_HEADER_SIZE = 125) by done. unfold u64_max in *.
  assert (Hh : held Vault s = Some (File c P)) by (cbn; by rewrite Hp).
  pose proof (frame_refl Vault s) as F.
  apply runs_bind. eapply (runs_drawing Vault _ _ _ (fun b => zlen b = MAX_CHUNK_SIZE - zlen plain));
    [exact Hh|exact Hg| |].
  { intros g Hgt. destruct (os_fill_total (E := vault_error) (MAX_CHUNK_SIZE - zlen plain) g Hgt
      ltac:(lia)) as (b & -> & Hb). eexists _, _. split_and!; [done|by apply rng_total_skip|done]. }
  intros pad s1 Hpad Hh1 F1. pose proof (frame_trans _ _ _ _ F F1) as F'. clear F F1 Hh.
  rename Hh1 into Hh, F' into F.
  run_step runs_mlock.
  apply runs_bind. eapply (runs_drawing Vault _ _ _ (fun b => zlen b = FILE_ID_LEN));
    [exact Hh|by apply F| |].
  { intros g Hgt. destruct (os_fill_total (E := vault_error) FILE_ID_LEN g Hgt ltac:(done)) as (b & Hb & Hbl).
    eexists _, _. split_and!; [exact Hb|by apply rng_total_skip|done]. }
  intros id s2 Hid Hh2 F2. pose proof (frame_trans _ _ _ _ F F2) as F'. clear F F2 Hh.
  rename Hh2 into Hh, F' into F.
  assert (Hpl : zlen (plain ++ pad) = MAX_CHUNK_SIZE) by (rewrite zlen_app; lia).
  apply runs_bind. eapply (runs_drawing Vault _ _ _ (fun b => zlen b = BLOB_LEN /\
    decrypt_chunk u b id = Ok (plain ++ pad))); [exact Hh|by apply F| |].
  { intros g Hgt. destruct (encrypt_chunk_total u (plain ++ pad) id g) as (b & g' & He & ? & ? & ?);
      [rewrite Hpl; by vm_compute|done|].
    exists b, g'. rewrite He. split_and!; [done|done| |done]. unfold BLOB_LEN. lia. }
  intros blob s3 [Hbl Hbd] Hh3 F3. pose proof (frame_trans _ _ _ _ F F3) as F'. clear F F3 Hh.
  rename Hh3 into Hh, F' into F.
  run_step runs_write_all. unfold f_write in Hh. cbn [content cursor] in Hh.
  pose proof F as (Fh & Fa & Fm & Fp & Fg).
  apply runs_bind. exists (payload s4), s4. split; [done|]. rewrite Fp, Hpay.
  apply runs_bind. eexists tt, _. split; [done|]. apply runs_ret.
  unfold wadd64. rewrite Hbl, Z.mod_small by lia. rewrite Hbl in Hh.
  eapply HQ.
  - cbn. cbn in Hh. by injection Hh as ->.
  - done.
  - split_and!; [by apply (Fh Temp)|done|done|by apply Fg].
  - cbn. apply map_eq. intros q. by apply (Fh (Other q)).
  - split_and!; try done; cbn [offset cipher_len file_id plain_len].
    + split_and!; unfold is_u64; cbn [offset cipher_len file_id plain_len]; lia || done.
    + unfold chunk_data. cbn [offset cipher_len file_id plain_len]. rewrite <- Hbl.
      rewrite slice_splice_at by lia. rewrite Hbd. unfold strip_padding. zdec.
      rewrite slice_prefix by done. done.
    + rewrite splice_length by lia. lia.
    + intros x y Hx Hy. rewrite slice_splice_before by lia. done.
Qed.

(** The chunks of [rest] stored from [P] on. *)
Definition imported (u : UnlockedVault) (P n : Z) (rest : bytes) (news : list ChunkEntry)
    (c c' : bytes) : Prop :=
  P + n * BLOB_LEN <= zlen c' /\ agree 8 P c c' /\ ordered P news (P + n * BLOB_LEN) /\
  Forall chunk_typed news /\ zlen news = n /\
  exists ds, Forall2 (fun e d => chunk_data u c' e = Some d) news ds /\ concat ds = rest.

Lemma imported_nil u P c : P <= zlen c -> imported u P 0 [] [] c c.
Proof. intros. split_and!; [lia|done|cbn; lia|done|done|]. exists []. by split. Qed.

Lemma imported_cons u P n plain rest e news c c1 c' :
  8 <= P -> 0 <= n -> stored u P plain e c c1 -> imported u (P + BLOB_LEN) n rest news c1 c' ->
  imported u P (1 + n) (plain ++ rest) (e :: news) c c'.
Proof.
  intros HP Hn (Hoff & Hlen & Hty & Hd & Hl1 & Ha) (Hl & Ha' & Ho & Hts & Hz & ds & Hds & He).
  assert (HB : BLOB_LEN = 8251) by done.
  unfold imported. replace (P + (1 + n) * BLOB_LEN) with (P + BLOB_LEN + n * BLOB_LEN) by lia.
  split_and!.
  - lia.
  - eapply agree_trans; [exact Ha|]. eapply agree_weaken; [exact Ha'|lia|lia].
  - cbn [ordered]. split_and!; [lia|lia|]. by replace (offset e + cipher_len e) with (P + BLOB_LEN) by lia.
  - by constructor.
  - rewrite zlen_cons. lia.
  - exists (plain :: ds). split; [|by rewrite <- He]. constructor; [|done].
    rewrite <- Hd. eapply chunk_data_agree; [exact Ha'|lia|lia].
Qed.

Lemma cuts_le p l total : cuts p l total -> p <= total.
Proof.
  revert p. induction l as [|[o n] l IH]; intros p; cbn [cuts]; [lia|].
  intros (_ & ? & Hc). apply IH in Hc. lia.
Qed.

Lemma cut_here {A} (data : list A) o n l :
  0 <= o -> cuts (o + n) l (zlen data) -> 0 < n ->
  exists plain, slice o (o + n) data = Some plain /\ zlen plain = n /\ 
    zdrop o data = plain ++ zdrop (o + n) data.
Proof.
  intros Ho Hc Hn. apply cuts_le in Hc. destruct (slice o (o + n) data) as [x|] eqn:Hs.
  - exists x. pose proof (slice_length _ _ _ _ Hs). split_and!; [done|lia|].
    pose proof (slice_step _ _ _ _ Hs) as Hst. rewrite <- (ztake_zdrop (o + n) data) at 1.
    rewrite Hst, <- app_assoc. apply zdrop_app_l. rewrite zlen_take. lia.
  - apply slice_None in Hs. lia.
Qed.

Lemma import_bytes_loop_runs u data l start acc s c P (Q : list ChunkEntry -> vault -> Prop) :
  phys s = File c P -> payload s = P -> VAULT_HEADER_SIZE <= P <= zlen c -> 0 <= start ->
  cuts start l (zlen data) -> P + zlen l * BLOB_LEN <= u64_max -> rng_total (gen s) ->
  (forall s' news c', phys s' = File c' (P + zlen l * BLOB_LEN) ->
     payload s' = P + zlen l * BLOB_LEN -> rest_same s s' -> fs s' = fs s ->
     imported u P (zlen l) (zdrop start data) news c c' -> Q (acc ++ news) s') ->
  runs (import_bytes_loop fault u data l acc) s Q.
Proof.
  revert start acc s c P Q. induction l as [|[o n] l IH]; intros start acc s c P Q Hp Hpay HP Hst Hc Hb Hg HQ;
    cbn [import_bytes_loop cuts] in *.
  { apply runs_ret. rewrite <- (app_nil_r acc). subst start.
    change (zlen (@nil (Z * Z))) with 0 in *.
    eapply HQ; [by rewrite Z.mul_0_l, Z.add_0_r; exact Hp|lia|by split_and!|done|].
    rewrite zdrop_all by lia. apply imported_nil. lia. }
  destruct Hc as (-> & Hn & Hc). rewrite zlen_cons in *.
  assert (HB : BLOB_LEN = 8251) by done. pose proof (zlen_nonneg l).
  assert (Hmul : (1 + zlen l) * BLOB_LEN = BLOB_LEN + zlen l * BLOB_LEN /\ 0 <= zlen l * BLOB_LEN) by lia.
  destruct (cut_here data start n l Hst Hc ltac:(lia)) as (plain & Hs & Hpl & Hcat).
  apply runs_bind. eapply runs_lift.
  { unfold chunk_of. zdec. by rewrite Hs. }
  apply runs_bind. eapply store_chunk_runs; [exact Hp|done|done|lia|lia|done|].
  intros s1 e c1 Hp1 Hpay1 Hr1 Hfs1 Hst1. pose proof Hst1 as (_ & _ & _ & _ & Hl1 & _).
  eapply (IH (start + n)); [exact Hp1|done|lia|lia|done|lia|apply Hr1|].
  intros s2 news c2 Hp2 Hpay2 Hr2 Hfs2 Hi. rewrite <- app_assoc. eapply HQ.
  - rewrite Hp2. f_equal. lia.
  - lia.
  - by eapply rest_trans.
  - congruence.
  - rewrite Hcat. assert (VAULT_HEADER_SIZE = 125) by done.
    eapply imported_cons; [lia|lia|exact Hst1|exact Hi].
Qed.

Lemma import_file_loop_runs u target data l start acc s c P q (Q : list ChunkEntry -> vault -> Prop) :
  phys s = File c P -> payload s = P -> VAULT_HEADER_SIZE <= P <= zlen c -> 0 <= start ->
  fs s !! target = Some (File data q) ->
  cuts start l (zlen data) -> P + zlen l * BLOB_LEN <= u64_max -> rng_total (gen s) ->
  (forall s' news c' q', phys s' = File c' (P + zlen l * BLOB_LEN) ->
     payload s' = P + zlen l * BLOB_LEN -> rest_same s s' ->
     fs s' = <[target := File data q']> (fs s) ->
     imported u P (zlen l) (zdrop start data) news c c' -> Q (acc ++ news) s') ->
  runs (import_file_loop fault u target l acc) s Q.
Proof.
  revert start acc s c P q Q. induction l as [|[o n] l IH];
    intros start acc s c P q Q Hp Hpay HP Hst Hfs Hc Hb Hg HQ; cbn [import_file_loop cuts] in *.
  { apply runs_ret. rewrite <- (app_nil_r acc). subst start.
    change (zlen (@nil (Z * Z))) with 0 in *.
    eapply HQ; [by rewrite Z.mul_0_l, Z.add_0_r; exact Hp|lia|by split_and!|by rewrite insert_id|].
    rewrite zdrop_all by lia. apply imported_nil. lia. }
  destruct Hc as (-> & Hn & Hc). rewrite zlen_cons in *.
  assert (HB : BLOB_LEN = 8251) by done. pose proof (zlen_nonneg l).
  assert (Hmul : (1 + zlen l) * BLOB_LEN = BLOB_LEN + zlen l * BLOB_LEN /\ 0 <= zlen l * BLOB_LEN) by lia.
  destruct (cut_here data start n l Hst Hc ltac:(lia)) as (plain & Hs & Hpl & Hcat).
  assert (Hh : held (Other target) s = Some (File data q)) by done.
  pose proof (frame_refl (Other target) s) as F.
  run_step runs_seek. zdec. run_step runs_read_exact; [exact Hs|].
  destruct F as (Fh & Fa & Fm & Fp & Fg).
  pose proof (Fh Vault ltac:(done)) as Hv. cbn in Hv. injection Hv as Hv.
  apply runs_bind. eapply (store_chunk_runs _ _ c P); [congruence|congruence|done|lia|lia|by apply Fg|].
  intros s2 e c1 Hp1 Hpay1 Hr1 Hfs1 Hst1. pose proof Hst1 as (_ & _ & _ & _ & Hl1 & _).
  eapply (IH (start + n)); [exact Hp1|done|lia|lia| |done|lia|apply Hr1|].
  { rewrite Hfs1. exact Hh. }
  intros s3 news c2 q' Hp2 Hpay2 Hr2 Hfs2 Hi. rewrite <- app_assoc. eapply HQ.
  - rewrite Hp2. f_equal. lia.
  - lia.
  - destruct Hr1 as (R1 & R2 & R3 & R4), Hr2 as (S1 & S2 & S3 & S4).
    split_and!; [|congruence|congruence|done]. rewrite S1, R1. by apply (Fh Temp).
  - rewrite Hfs2, Hfs1. apply map_eq. intros k. destruct (decide (k = target)) as [->|Hk].
    + by rewrite !lookup_insert_eq.
    + rewrite !lookup_insert_ne by done. apply (Fh (Other k)). congruence.
  - rewrite Hcat. assert (VAULT_HEADER_SIZE = 125) by done.
    eapply imported_cons; [lia|lia|exact Hst1|exact Hi].
Qed.

Lemma table_names u c t L : table_holds u c t L -> map vfs_name t = map fst L.
Proof. intros Ht. induction Ht as [|f nd t L [Hn _] _ IH]; [done|]. simpl. by rewrite Hn, IH. Qed.

Lemma has_name_spec n m : has_name n m = true <-> n ∈ map vfs_name (file_table m).
Proof.
  unfold has_name. induction (file_table m) as [|f t IH]; simpl; [by split; [|intros ?%elem_of_nil]|].
  rewrite orb_true_iff, bool_decide_eq_true, elem_of_cons, IH. clear IH.
  split; intros [Hx|Hx]; (left; congruence) || (by right).
Qed.

(** Room for one more file: in the metadata block, and under the largest offset. *)
Definition room_for (m : VaultMetadata) (off : Z) (name data : bytes) : Prop :=
  utf8_valid name = true /\
  meta_size m + 24 + zlen name + 40 * zlen (cdc data) + CHUNK_OVERHEAD <= METADATA_LIMIT /\
  off + zlen (cdc data) * BLOB_LEN <= u64_max.

Definition with_file (m : VaultMetadata) (f : FileIndex) : VaultMetadata :=
  {| file_table := file_table m ++ [f]; cdc_salt := cdc_salt m |}.

Lemma meta_size_with m f : meta_size (with_file m f) = meta_size m + index_size f.
Proof.
  unfold meta_size, with_file. cbn [file_table]. rewrite foldr_app. cbn [foldr].
  assert (Hf : forall t z, foldr (fun f n => index_size f + n) z t
                           = foldr (fun f n => index_size f + n) 0 t + z).
  { intros t z. induction t as [|x t IH]; cbn [foldr]; [lia|]. rewrite IH. lia. }
  rewrite Hf. lia.
Qed.

Lemma table_size t : 0 <= zlen t /\ 24 * zlen t <= foldr (fun f n => index_size f + n) 0 t.
Proof.
  induction t as [|f t IH]; [done|]. rewrite zlen_cons. cbn [foldr]. unfold index_size at 1.
  pose proof (zlen_nonneg (vfs_name f)). pose proof (zlen_nonneg (chunks f)). lia.
Qed.

(** How much an operation adds to the metadata and to the payload. *)
Definition grown (s s' : vault) (a b : Z) : Prop :=
  meta_size (meta s') <= meta_size (meta s) + a /\ payload s' <= payload s + b.

Lemma with_file_grows name data news now m :
  zlen news = zlen (cdc data) ->
  meta_size (with_file m {| vfs_name := name; chunks := news; last_modified_unix := now |})
  = meta_size m + (24 + zlen name + 40 * zlen (cdc data)).
Proof. intros Hn. rewrite meta_size_with. unfold index_size. cbn [vfs_name chunks]. lia. Qed.

Lemma finish_import_runs w password u L m P n name data news c c' s now (Q : unit -> vault -> Prop) :
  phys s = File c' (P + n * BLOB_LEN) -> payload s = P + n * BLOB_LEN -> meta s = m ->
  rng_total (gen s) -> body_ok password u L m P c -> imported u P n data news c c' ->
  has_name name m = false -> n = zlen (cdc data) -> room_for m P name data ->
  unix_clock w = Some now -> is_u64 now ->
  (forall s' c2 p2, phys s' = File c2 p2 -> meta s' = with_file m {| vfs_name := name; chunks := news;
       last_modified_unix := now |} -> payload s' = P + n * BLOB_LEN ->
     tmp s' = tmp s -> at_path s' = at_path s -> fs s' = fs s -> rng_total (gen s') ->
     file_ok password u (L ++ [(name, data)]) (meta s') (payload s') c2 -> Q tt s') ->
  runs (finish_import fault w u name news) s Q.
Proof.
  intros Hp Hpay Hm Hg Hb Hi Hname -> (Hutf & Hroom & Hmax) Hw Hnow HQ. unfold finish_import.
  pose proof (zlen_nonneg (cdc data)) as Hcl. assert (HB : BLOB_LEN = 8251) by done.
  set (n := zlen (cdc data)) in *. assert (Hnb : 0 <= n * BLOB_LEN) by lia.
  destruct Hi as (Hl & Ha & Ho & Hts & Hz & ds & Hds & He).
  set (f := {| vfs_name := name; chunks := news; last_modified_unix := now |}) in *.
  assert (Hbody : body_ok password u (L ++ [(name, data)]) (with_file m f) (P + n * BLOB_LEN) c').
  { assert (HP : VAULT_HEADER_SIZE <= P <= zlen c) by apply Hb.
    pose proof (body_agree _ _ _ _ _ c c' Hb Ha ltac:(lia)) as (_ & Hu & Hhd & Hord & Ht & Hnd & Hty & _).
    assert (HO : 0 <= CHUNK_OVERHEAD) by by vm_compute.
    assert (HL : METADATA_LIMIT < 2 ^ 64) by by vm_compute.
    pose proof (table_size (file_table m)) as Htz. pose proof (zlen_nonneg name).
    unfold meta_size in Hroom. unfold is_u64, u64_max in *.
    split_and!; try done; try (unfold is_u64; lia).
    - unfold with_file. cbn [file_table]. rewrite all_chunks_app. apply ordered_app. exists P.
      split; [done|]. unfold all_chunks. cbn [map concat]. by rewrite app_nil_r.
    - unfold table_holds, with_file. cbn [file_table]. apply Forall2_app; [exact Ht|].
      constructor; [|constructor]. split; [done|]. by exists ds.
    - rewrite map_app. apply list.NoDup_app. split_and!; [done| |apply list.NoDup_singleton].
      intros x Hx Hx'. apply list_elem_of_singleton in Hx'. cbn in Hx'. subst x.
      rewrite <- (table_names _ _ _ _ Ht), <- has_name_spec in Hx. congruence.
    - destruct Hty as (Hft & Hall & Hsalt). split; [split_and!|].
      + unfold with_file. cbn [file_table]. rewrite zlen_app. change (zlen [f]) with 1. lia.
      + unfold with_file. cbn [file_table]. apply Forall_app. split; [done|].
        constructor; [|constructor]. unfold index_typed, f. cbn [vfs_name chunks last_modified_unix].
        split_and!; try done; lia.
      + done.
      + rewrite meta_size_with. unfold index_size, f, meta_size. cbn [vfs_name chunks]. lia. }
  apply runs_bind. eapply runs_lift; [by rewrite Hw|].
  apply runs_bind. eexists tt, _. split; [done|].
  apply runs_bind. eexists _, _. split; [done|]. apply runs_bind. eexists _, _. split; [done|].
  cbn [meta payload set_meta]. rewrite Hm, Hpay. fold f. change {| file_table := file_table m ++ [f]; cdc_salt := cdc_salt m |}
    with (with_file m f). apply runs_bind.
  eapply (runs_save_ok Vault password u); [cbn; by rewrite Hp|done|exact Hbody|].
  intros s1 c1 p1 Hh1 F1 Hok _.
  eapply (runs_sync fault no_fault Vault); [exact Hh1|]. intros s2 Hh2 F2.
  pose proof (frame_trans _ _ _ _ F1 F2) as (Fh & Fa & Fm & Fp & Fg).
  cbn [gen set_meta meta payload at_path] in *.
  assert (Hm2 : meta s2 = with_file m f) by exact Fm.
  eapply HQ; [|exact Hm2|congruence| |congruence| |by apply Fg|].
  - cbn in Hh2. by injection Hh2 as ->.
  - by apply (Fh Temp).
  - apply map_eq. intros q. by apply (Fh (Other q)).
  - by rewrite Hm2, Fp, Hpay.
Qed.

Lemma runs_attempt {A} (m : V A) s (Q : option A -> vault -> Prop) :
  runs m s (fun a s' => Q (Some a) s') -> runs (attempt m) s Q.
Proof.
  intros (a & s' & Hm & HQ). exists (Some a), s'. split; [|done]. unfold attempt. by rewrite Hm.
Qed.

Lemma vault_ok_has_name password u L s n :
  vault_ok password u L s -> has_name n (meta s) = bool_decide (n ∈ map fst L).
Proof.
  intros [[(_ & _ & _ & _ & Ht & _) _] _]. rewrite <- (table_names _ _ _ _ Ht).
  destruct (has_name n (meta s)) eqn:Hn; symmetry.
  - apply bool_decide_eq_true. by apply has_name_spec.
  - apply bool_decide_eq_false. rewrite <- has_name_spec. congruence.
Qed.

Context `{!FastCdcLaws _}.

Lemma import_bytes_runs w password u L s name data now (Q : unit -> vault -> Prop) :
  vault_ok password u L s -> name ∉ map fst L -> room_for (meta s) (payload s) name data ->
  unix_clock w = Some now -> is_u64 now ->
  (forall s', vault_ok password u (L ++ [(name, data)]) s' -> fs s' = fs s ->
     grown s s' (24 + zlen name + 40 * zlen (cdc data)) (zlen (cdc data) * BLOB_LEN) -> Q tt s') ->
  runs (handle_import_from_bytes fault w u data name) s Q.
Proof.
  intros Hv Hn Hroom Hw Hnow HQ. pose proof Hv as ((Hb & _ & _) & Ht & Ha & Hg).
  assert (HB : BLOB_LEN = 8251) by done. pose proof (zlen_nonneg (cdc data)).
  assert (HP : VAULT_HEADER_SIZE <= payload s <= zlen (content (phys s))) by apply Hb.
  assert (Hname : has_name name (meta s) = false).
  { rewrite (vault_ok_has_name _ _ _ _ _ Hv). by apply bool_decide_eq_false. }
  unfold handle_import_from_bytes. apply runs_bind. eexists _, _. split; [done|]. rewrite Hname.
  apply runs_bind. eexists _, _. split; [done|].
  assert (Hh : held Vault s = Some (phys s)) by done. pose proof (frame_refl Vault s) as F.
  run_step runs_seek. pose proof (frame_rest _ _ F Hg) as Hr. destruct F as (Fh & Fa & Fm & Fp & Fg).
  apply runs_bind. eapply (import_bytes_loop_runs u data (cdc data) 0 []);
    [cbn in Hh; by injection Hh|congruence|exact HP|lia|apply cdc_cuts|apply Hroom|by apply Fg|].
  intros s1 news c' Hp1 Hpay1 Hr1 Hfs1 Hi. cbn [app]. rewrite zdrop_0 in Hi.
  pose proof (rest_trans _ _ _ Hr Hr1) as (R1 & R2 & R3 & R4).
  eapply (finish_import_runs w password u L (meta s) (payload s)); try done.
  intros s2 c2 p2 Hp2 Hm2 Hpay2 Ht2 Ha2 Hfs2 Hg2 Hok. apply HQ.
  - split_and!; [by rewrite Hp2|congruence|congruence|done].
  - rewrite Hfs2, Hfs1. apply map_eq. intros q. by apply (Fh (Other q)).
  - destruct Hi as (_ & _ & _ & _ & Hn' & _). rewrite <- Hn' in *. split; [|lia].
    rewrite Hm2. rewrite (with_file_grows _ data) by done. lia.
Qed.

Lemma shred_loop_runs pages target written data s (Q : unit -> vault -> Prop) :
  fs s !! target = Some (wiped data written) ->
  0 <= written <= zlen data -> zlen data - written <= 4096 * Z.of_nat pages ->
  (forall s', fs s' !! target = Some (wiped data (zlen data)) ->
     frame (Other target) s s' -> Q tt s') ->
  runs (shred_loop fault pages target written (zlen data)) s Q.
Proof.
  revert written s. induction pages as [|pages IH]; intros written s Hf Hw Hp HQ; cbn [shred_loop].
  { assert (written = zlen data) as -> by lia. apply runs_ret. apply HQ; [done|apply frame_refl]. }
  destruct (zlen data <=? written) eqn:Hc; bools.
  { assert (written = zlen data) as -> by lia. apply runs_ret. apply HQ; [done|apply frame_refl]. }
  set (n := Z.min 4096 (zlen data - written)). assert (Hn : 0 < n /\ n <= zlen data - written /\
    zlen data - (written + n) <= 4096 * Z.of_nat pages) by lia.
  apply runs_bind, runs_attempt.
  eapply (runs_write_all fault no_fault (Other target)); [exact Hf|]. intros s1 Hh F1.
  rewrite wiped_more in Hh by lia. eapply IH; [exact Hh|lia|lia|].
  intros s2 Hs2 F2. apply HQ; [done|]. by eapply frame_trans.
Qed.

(** Shredding leaves zeros of the same length. *)
Lemma shred_runs target data q s (Q : unit -> vault -> Prop) :
  fs s !! target = Some (File data q) ->
  (forall s' p, fs s' !! target = Some (File (zrep (zlen data) Byte.x00) p) ->
     frame (Other target) s s' -> Q tt s') ->
  runs (shred fault target) s Q.
Proof.
  intros Hf HQ. unfold shred. pose proof (zlen_nonneg data).
  pose proof (Z.div_mod (zlen data) 4096 ltac:(lia)). pose proof (Z.mod_pos_bound (zlen data) 4096 ltac:(lia)).
  pose proof (Z.div_pos (zlen data) 4096 ltac:(lia) ltac:(lia)).
  apply runs_bind, runs_attempt. eapply (runs_on_file fault no_fault); [exact Hf|done|].
  intros s1 Hh1 F1. change (f_len (File data q)) with (zlen data).
  apply runs_bind, runs_attempt. eapply (runs_seek fault no_fault (Other target)); [exact Hh1|].
  intros s2 Hh2 F2. apply runs_bind. eapply (shred_loop_runs _ target 0 data);
    [exact Hh2|lia|lia|]. intros s3 Hf3 F3.
  rewrite wiped_all in Hf3.
  apply runs_bind, runs_attempt. eapply (runs_sync fault no_fault (Other target)); [exact Hf3|].
  intros s4 Hh4 F4. apply runs_ret. eapply HQ; [exact Hh4|].
  eapply frame_trans; [exact F1|]. eapply frame_trans; [exact F2|]. by eapply frame_trans.
Qed.

Lemma frame_other_fs target s s' : frame (Other target) s s' -> delete target (fs s') = delete target (fs s).
Proof.
  intros (Fh & _). apply map_eq. intros k. destruct (decide (k = target)) as [->|Hk].
  - by rewrite !lookup_delete_eq.
  - rewrite !lookup_delete_ne by done. apply (Fh (Other k)). congruence.
Qed.

Lemma import_runs w password u L s dir allowed from target name data q now (Q : unit -> vault -> Prop) :
  vault_ok password u L s -> name ∉ map fst L -> room_for (meta s) (payload s) name data ->
  unix_clock w = Some now -> is_u64 now ->
  staging_dir_str w = Some dir -> canonicalize w dir = Some allowed ->
  canonicalize w from = Some target -> path_starts_with target allowed = true ->
  fs s !! target = Some (File data q) ->
  (forall s', vault_ok password u (L ++ [(name, data)]) s' -> fs s' = delete target (fs s) ->
     grown s s' (24 + zlen name + 40 * zlen (cdc data)) (zlen (cdc data) * BLOB_LEN) -> Q tt s') ->
  runs (handle_import fault w u from name) s Q.
Proof.
  intros Hv Hn Hroom Hw Hnow Hdir Hal Htg Hst Hfile HQ. pose proof Hv as ((Hb & _ & _) & Ht & Ha & Hg).
  assert (HB : BLOB_LEN = 8251) by done. pose proof (zlen_nonneg (cdc data)).
  assert (HP : VAULT_HEADER_SIZE <= payload s <= zlen (content (phys s))) by apply Hb.
  assert (Hname : has_name name (meta s) = false).
  { rewrite (vault_ok_has_name _ _ _ _ _ Hv). by apply bool_decide_eq_false. }
  unfold handle_import. rewrite Hdir, Hal, Htg, Hst. cbn [negb].
  apply runs_bind. eexists _, _. split; [done|]. rewrite Hname.
  apply runs_bind. eapply (runs_on_file fault no_fault); [exact Hfile|done|]. intros s1 Hh1 F1.
  apply runs_bind. eapply (runs_on_file fault no_fault); [exact Hh1|done|]. intros s2 Hh2 F2.
  cbn [content] in *. pose proof (frame_trans _ _ _ _ F1 F2) as F. clear F1 F2 Hh1.
  pose proof F as (Fh & Fa & Fm & Fp & Fg).
  assert (Hph : phys s2 = phys s) by (pose proof (Fh Vault ltac:(done)) as Hx; cbn in Hx; congruence).
  assert (Htm : tmp s2 = tmp s) by by apply (Fh Temp).
  apply runs_bind. eexists _, _. split; [done|].
  apply runs_bind. eapply (runs_seek fault no_fault Vault); [done|]. intros s3 Hh3 F3.
  pose proof F3 as (Gh & Ga & Gm & Gp & Gg). cbn in Hh3. injection Hh3 as Hh3. rewrite Fp, Hph in Hh3.
  pose proof (Gh (Other target) ltac:(done)) as Hf3. cbn [held] in Hf3, Hh2. rewrite Hh2 in Hf3.
  apply runs_bind. eapply (import_file_loop_runs u target data (cdc data) 0 []);
    [exact Hh3|congruence|exact HP|lia|exact Hf3|apply cdc_cuts|apply Hroom|by apply Gg, Fg|].
  intros s4 news c' q' Hp4 Hpay4 (R1 & R2 & R3 & R4) Hfs4 Hi. cbn [app]. rewrite zdrop_0 in Hi.
  apply runs_bind. eapply (finish_import_runs w password u L (meta s) (payload s)); try done; [congruence|].
  intros s5 c2 p2 Hp5 Hm5 Hpay5 Ht5 Ha5 Hfs5 Hg5 Hok.
  assert (Hv5 : vault_ok password u (L ++ [(name, data)]) s5).
  { split_and!; [by rewrite Hp5| |congruence|done]. rewrite Ht5, R1. rewrite <- Ht, <- Htm. by apply (Gh Temp). }
  assert (Hf5 : fs s5 !! target = Some (File data q')).
  { rewrite Hfs5, Hfs4. apply lookup_insert_eq. }
  apply runs_bind. eapply shred_runs; [exact Hf5|]. intros s6 p6 Hf6 F6.
  apply runs_bind, runs_attempt. eexists tt, _. split; [unfold sys; by rewrite no_fault|].
  apply runs_ret. pose proof F6 as (K & Ka & Km & Kp & Kg). apply HQ.
  - destruct Hv5 as (Hok5 & Ht' & Ha' & Hg').
    pose proof (K Vault ltac:(done)) as Kv. cbn in Kv. injection Kv as Kv.
    split_and!; cbn; [by rewrite Km, Kp, Kv|rewrite <- Ht'; by apply (K Temp)|congruence|by apply Kg].
  - cbn. rewrite (frame_other_fs _ _ _ F6), Hfs5, Hfs4, delete_insert_eq.
    rewrite <- (frame_other_fs _ _ _ F). f_equal. apply map_eq. intros k. by apply (Gh (Other k)).
  - destruct Hi as (_ & _ & _ & _ & Hn' & _). unfold grown. cbn [meta payload set_fs bump].
    rewrite Km, Kp, Hm5. cbn. rewrite (with_file_grows _ data) by done. lia.
Qed.

(** ** Exporting *)

Lemma vault_ok_frame password u L s s' :
  frame Vault s s' -> content (phys s') = content (phys s) ->
  vault_ok password u L s -> vault_ok password u L s'.
Proof.
  intros (Fh & Fa & Fm & Fp & Fg) Hc (Hok & Ht & Ha & Hg).
  split_and!; [by rewrite Hc, Fm, Fp| |congruence|by apply Fg]. rewrite <- Ht. by apply (Fh Temp).
Qed.

Lemma open_chunk_runs u e d s c p (Q : bytes -> vault -> Prop) :
  phys s = File c p -> chunk_data u c e = Some d ->
  (forall s' p', phys s' = File c p' -> frame Vault s s' -> Q d s') ->
  runs (open_chunk fault u e) s Q.
Proof.
  intros Hp Hd HQ. unfold chunk_data in Hd.
  destruct (slice (offset e) _ c) as [blob|] eqn:Hs; [|done].
  destruct (decrypt_chunk u blob (file_id e)) as [pl|x|] eqn:Hdec; [|done|done].
  destruct (strip_padding (plain_len e) pl) as [d'|x|] eqn:Hst; [|done|done]. injection Hd as ->.
  assert (Hh : held Vault s = Some (File c p)) by (cbn; congruence). pose proof (frame_refl Vault s) as F.
  unfold open_chunk. run_step runs_seek. run_step runs_read_exact; [exact Hs|].
  apply runs_bind. eapply runs_lift; [by rewrite Hdec|].
  run_step runs_mlock. eapply runs_lift; [exact Hst|].
  cbn [held] in Hh. injection Hh as Hh. by eapply HQ.
Qed.

Lemma export_loop_runs u cs ds acc s c p (Q : bytes -> vault -> Prop) :
  phys s = File c p -> Forall2 (fun e d => chunk_data u c e = Some d) cs ds ->
  (forall s' p', phys s' = File c p' -> frame Vault s s' -> Q (acc ++ concat ds) s') ->
  runs (export_loop fault u cs acc) s Q.
Proof.
  intros Hp Hf. revert acc s p Q Hp. induction Hf as [|e d cs ds Hd _ IH]; intros acc s p Q Hp HQ;
    cbn [export_loop concat].
  { apply runs_ret. rewrite <- (app_nil_r acc). eapply HQ; [exact Hp|apply frame_refl]. }
  apply runs_bind. eapply open_chunk_runs; [exact Hp|exact Hd|]. intros s1 p1 Hp1 F1.
  eapply (IH (acc ++ d)); [exact Hp1|]. intros s2 p2 Hp2 F2. rewrite <- app_assoc.
  eapply HQ; [exact Hp2|by eapply frame_trans].
Qed.

Lemma find_holds u c t L name data :
  table_holds u c t L -> NoDup (map fst L) -> (name, data) ∈ L ->
  exists f, List.find (fun f => bool_decide (vfs_name f = name)) t = Some f /\ file_holds u c f data.
Proof.
  intros Ht. induction Ht as [|f nd t L [Hn Hf] _ IH]; intros Hnd Hin; [by apply elem_of_nil in Hin|].
  cbn [map] in Hnd. apply list.NoDup_cons in Hnd as [Hni Hnd]. cbn [List.find].
  apply elem_of_cons in Hin as [<-|Hin].
  - cbn [fst snd] in *. rewrite bool_decide_true by done. by exists f.
  - rewrite bool_decide_false; [by apply IH|]. rewrite Hn. intros Hx. apply Hni. rewrite Hx.
    apply (list_elem_of_fmap_2 fst) in Hin. exact Hin.
Qed.

Lemma decrypt_runs password u L s name data (Q : bytes -> vault -> Prop) :
  vault_ok password u L s -> (name, data) ∈ L ->
  (forall s', vault_ok password u L s' -> frame Vault s s' ->
     content (phys s') = content (phys s) -> Q data s') ->
  runs (decrypt_to_bytes fault u name) s Q.
Proof.
  intros Hv Hin HQ. pose proof Hv as ((Hb & _) & _). destruct Hb as (_ & _ & _ & _ & Ht & Hnd & _).
  destruct (find_holds _ _ _ _ _ _ Ht Hnd Hin) as (f & Hfind & ds & Hds & ->).
  unfold decrypt_to_bytes. apply runs_bind. eexists _, _. split; [done|].
  unfold find_file. rewrite Hfind. destruct (phys s) as [c p] eqn:Hp.
  eapply (export_loop_runs u (chunks f) ds []); [exact Hp|exact Hds|]. intros s' p' Hp' F.
  apply HQ; [|done|by rewrite Hp'].
  eapply vault_ok_frame; [exact F| |exact Hv]. by rewrite Hp', Hp.
Qed.

Lemma export_to_runs u target cs ds out q s c p (Q : unit -> vault -> Prop) :
  phys s = File c p -> fs s !! target = Some (File out (zlen out)) ->
  Forall2 (fun e d => chunk_data u c e = Some d) cs ds -> q = out ++ concat ds ->
  (forall s' p', phys s' = File c p' -> fs s' = <[target := File q (zlen q)]> (fs s) ->
     tmp s' = tmp s -> at_path s' = at_path s -> meta s' = meta s -> payload s' = payload s ->
     (rng_total (gen s) -> rng_total (gen s')) -> Q tt s') ->
  runs (export_to fault u target cs) s Q.
Proof.
  intros Hp Hfs Hf. revert out q s p Q Hp Hfs.
  induction Hf as [|e d cs ds Hd _ IH]; intros out q s p Q Hp Hfs -> HQ; cbn [export_to concat].
  { rewrite app_nil_r in HQ. apply runs_ret. by eapply HQ; [exact Hp|rewrite insert_id|..]. }
  apply runs_bind. eapply open_chunk_runs; [exact Hp|exact Hd|]. intros s1 p1 Hp1 (Fh & Fa & Fm & Fp & Fg).
  pose proof (Fh (Other target) ltac:(done)) as Hfs1. cbn [held] in Hfs1. rewrite Hfs in Hfs1.
  apply runs_bind. eapply (runs_write_all fault no_fault (Other target)); [exact Hfs1|].
  intros s2 Hh2 (Gh & Ga & Gm & Gp & Gg). cbn [held] in Hh2.
  assert (Hp2 : phys s2 = File c p1).
  { pose proof (Gh Vault ltac:(done)) as Hx. cbn in Hx. congruence. }
  unfold f_write in Hh2. cbn [content cursor] in Hh2. rewrite splice_end in Hh2.
  eapply (IH (out ++ d)); [exact Hp2|rewrite zlen_app; exact Hh2|by rewrite <- app_assoc|].
  intros s3 p3 Hp3 Hfs3 Ht3 Ha3 Hm3 Hpay3 Hg3.
  eapply HQ; [exact Hp3| | |congruence..|auto].
  - rewrite Hfs3. apply map_eq. intros k. destruct (decide (k = target)) as [->|Hk].
    + by rewrite !lookup_insert_eq.
    + rewrite !lookup_insert_ne by done. transitivity (fs s1 !! k).
      * apply (Gh (Other k)). congruence.
      * by apply (Fh (Other k)).
  - rewrite Ht3. transitivity (tmp s1); [by apply (Gh Temp)|by apply (Fh Temp)].
Qed.

(** ** Removing *)

Definition remove_file (name : str) (L : list (str * bytes)) : list (str * bytes) :=
  List.filter (fun nd => negb (bool_decide (fst nd = name))) L.

Lemma remove_file_split name data L1 L2 :
  NoDup (map fst (L1 ++ (name, data) :: L2)) -> remove_file name (L1 ++ (name, data) :: L2) = L1 ++ L2.
Proof.
  intros Hnd. assert (Hid : forall L, name ∉ map fst L -> remove_file name L = L).
  { induction L as [|[n d] L IH]; [done|]. cbn [map]. rewrite not_elem_of_cons. intros [? ?].
    unfold remove_file in *. cbn [List.filter fst]. rewrite bool_decide_false by done. cbn [negb].
    by rewrite IH. }
  rewrite map_app in Hnd. cbn [map fst] in Hnd.
  apply list.NoDup_app in Hnd as (_ & Hd & Hnd). apply list.NoDup_cons in Hnd as [Hn2 _].
  assert (Hn1 : name ∉ map fst L1). { intros Hx. by apply (Hd name Hx); left. }
  unfold remove_file in *. rewrite List.filter_app. cbn [List.filter fst].
  rewrite bool_decide_true by done. cbn [negb]. by rewrite !Hid.
Qed.

Lemma position_split name t i :
  position name t = Some i -> exists t1 f t2, t = t1 ++ f :: t2 /\ i = length t1 /\ vfs_name f = name.
Proof.
  revert i. induction t as [|f t IH]; intros i; cbn [position]; [done|].
  destruct (decide (vfs_name f = name)) as [Hn|Hn].
  - intros [= <-]. by exists [], f, t.
  - destruct (position name t) as [j|]; [|done]. intros [= <-].
    destruct (IH j eq_refl) as (t1 & x & t2 & -> & -> & ?). by exists (f :: t1), x, t2.
Qed.

Lemma position_None name t : position name t = None <-> name ∉ map vfs_name t.
Proof.
  induction t as [|f t IH]; cbn [position map]; [by split; [intros _ ?%elem_of_nil|]|].
  rewrite not_elem_of_cons. destruct (decide (vfs_name f = name)) as [->|Hn].
  - split; [done|]. by intros [].
  - destruct (position name t) as [j|]; cbn; rewrite <- IH; split; try done; by intros [].
Qed.

Definition zeroed (c : bytes) (e : ChunkEntry) : Prop :=
  slice (offset e) (offset e + cipher_len e) c = Some (zrep (cipher_len e) Byte.x00).

Lemma wipe_loop_runs cs lo hi s c p (Q : unit -> vault -> Prop) :
  phys s = File c p -> ordered lo cs hi -> 0 <= lo -> hi <= zlen c ->
  (forall s' c' p', phys s' = File c' p' -> frame Vault s s' -> zlen c' = zlen c ->
     (forall a, agree a lo c c') -> agree hi (zlen c) c c' -> Forall (zeroed c') cs -> Q tt s') ->
  runs (wipe_loop fault cs) s Q.
Proof.
  revert lo s c p Q. induction cs as [|e cs IH]; intros lo s c p Q Hp Ho Hlo Hhi HQ; cbn [wipe_loop].
  { apply runs_ret. by eapply HQ; [exact Hp|apply frame_refl|..]. }
  cbn [ordered] in Ho. destruct Ho as (Hoff & Hlen & Ho). pose proof (ordered_le _ _ _ Ho) as Hle.
  assert (Hh : held Vault s = Some (File c p)) by (cbn; congruence). pose proof (frame_refl Vault s) as F.
  run_step runs_seek. run_step runs_write_all. unfold f_write, f_seek in Hh. cbn [held content cursor] in Hh.
  injection Hh as Hp1. set (z := zrep (cipher_len e) Byte.x00) in *.
  assert (Hz : zlen z = cipher_len e) by (unfold z; rewrite zlen_rep; lia).
  assert (Hl1 : zlen (splice (offset e) z c) = zlen c) by (rewrite splice_length by lia; lia).
  eapply (IH (offset e + cipher_len e)); [exact Hp1|exact Ho|lia|lia|].
  intros s2 c2 p2 Hp2 F2 Hl2 Hbefore Hafter Hwiped.
  eapply HQ; [exact Hp2|by eapply frame_trans|lia| | |].
  - intros a x y Hx Hy. rewrite (Hbefore a x y Hx ltac:(lia)). apply slice_splice_before; lia.
  - intros x y Hx Hy. rewrite Hafter by lia. apply slice_splice_after; lia.
  - constructor; [|done]. unfold zeroed.
    rewrite (Hbefore 0 (offset e) (offset e + cipher_len e)) by lia.
    rewrite <- Hz at 1. apply slice_splice_at. lia.
Qed.

Definition without (m : VaultMetadata) (t : list FileIndex) : VaultMetadata :=
  {| file_table := t; cdc_salt := cdc_salt m |}.

Lemma sizes_app t1 t2 :
  foldr (fun f n => index_size f + n) 0 (t1 ++ t2)
  = foldr (fun f n => index_size f + n) 0 t1 + foldr (fun f n => index_size f + n) 0 t2.
Proof. induction t1 as [|f t1 IH]; cbn [app foldr]; [lia|]. rewrite IH. lia. Qed.

Lemma sizes_nonneg t : 0 <= foldr (fun f n => index_size f + n) 0 t.
Proof. pose proof (table_size t). lia. Qed.

Lemma index_size_nonneg f : 0 <= index_size f.
Proof. unfold index_size. pose proof (zlen_nonneg (vfs_name f)). pose proof (zlen_nonneg (chunks f)). lia. Qed.

(** Taking a file out of the table, its bytes wiped. *)
Lemma body_without password u L1 nd L2 m t1 f t2 off c c' lo hi :
  body_ok password u (L1 ++ nd :: L2) m off c -> file_table m = t1 ++ f :: t2 ->
  length t1 = length L1 ->
  ordered VAULT_HEADER_SIZE (all_chunks t1) lo -> ordered lo (chunks f) hi ->
  ordered hi (all_chunks t2) off ->
  zlen c' = zlen c -> (forall a, agree a lo c c') -> agree hi (zlen c) c c' ->
  body_ok password u (L1 ++ L2) (without m (t1 ++ t2)) off c'.
Proof.
  intros (Hoff & Hu & (hd & Hs & Hhd) & _ & Ht & Hnd & (Hft & Hall & Hsalt) & Hsz) Htab Hlen Ho1 Hof Ho2 Hl Hb Ha.
  pose proof (ordered_le _ _ _ Ho1) as Hle1. pose proof (ordered_le _ _ _ Hof) as Hle2.
  pose proof (ordered_le _ _ _ Ho2) as Hle3.
  assert (HV : VAULT_HEADER_SIZE = 125) by done.
  rewrite Htab in *. apply Forall2_app_inv in Ht as [Ht1 Ht2]; [|done].
  apply Forall2_cons_1 in Ht2 as [_ Ht2].
  split_and!; cbn [file_table without]; try done; try lia.
  - exists hd. split; [|done]. rewrite (Hb 8) by lia. done.
  - rewrite all_chunks_app. apply ordered_app. exists lo. split; [done|].
    eapply ordered_widen; [exact Ho2|lia|lia].
  - apply Forall2_app.
    + eapply table_agree; [apply (Hb VAULT_HEADER_SIZE)|exact Ho1|exact Ht1].
    + eapply table_agree; [eapply (agree_weaken hi (zlen c) hi off); [exact Ha|lia|lia]|exact Ho2|exact Ht2].
  - rewrite map_app in *. cbn [map] in Hnd. apply list.NoDup_app in Hnd as (Hn1 & Hd & Hn2).
    apply list.NoDup_cons in Hn2 as [_ Hn2]. apply list.NoDup_app. split_and!; [done| |done].
    intros x Hx Hx2. apply (Hd x Hx). by right.
  - split; [split_and!|].
    + rewrite zlen_app in *. rewrite zlen_cons in Hft. cbn [file_table without]. rewrite zlen_app. lia.
    + apply Forall_app in Hall as [? Hx]. apply Forall_cons_1 in Hx as [_ ?]. by apply Forall_app.
    + done.
    + unfold meta_size in *. rewrite Htab in Hsz. cbn [file_table without]. rewrite sizes_app in *.
      cbn [foldr] in Hsz. pose proof (index_size_nonneg f). lia.
Qed.

Lemma rm_runs password u L s name (Q : unit -> vault -> Prop) :
  vault_ok password u L s -> name ∈ map fst L ->
  (forall s', vault_ok password u (remove_file name L) s' -> fs s' = fs s ->
     (forall f, find_file name (meta s) = Some f -> Forall (zeroed (content (phys s'))) (chunks f)) ->
     grown s s' 0 0 -> Q tt s') ->
  runs (handle_rm fault u name) s Q.
Proof.
  intros ((Hb & Hptr & Hblk) & Htmp & Hat & Hg) Hin HQ.
  pose proof Hb as (Hoff & Hu & _ & Hord & Ht & Hnd & _).
  assert (HV : VAULT_HEADER_SIZE = 125) by done.
  destruct (position name (file_table (meta s))) as [i|] eqn:Hpos.
  2: { apply position_None in Hpos. by rewrite (table_names _ _ _ _ Ht) in Hpos. }
  apply position_split in Hpos as Hsplit. destruct Hsplit as (t1 & f & t2 & Htab & -> & Hname).
  pose proof Ht as Ht'. rewrite Htab in Ht'.
  apply Forall2_app_inv_l in Ht' as (L1 & LR & Ht1 & Ht2 & HL).
  apply Forall2_cons_inv_l in Ht2 as ([n d] & L2 & [Hn _] & _ & ->). cbn [fst] in Hn.
  rewrite Hname in Hn. subst n. subst L. pose proof Hord as Ho'. rewrite Htab, all_chunks_app, all_chunks_cons in Ho'.
  apply ordered_app in Ho' as (lo & Ho1 & Ho'). apply ordered_app in Ho' as (hi & Hof & Ho2).
  pose proof (ordered_le _ _ _ Ho1). pose proof (ordered_le _ _ _ Hof). pose proof (ordered_le _ _ _ Ho2).
  unfold handle_rm. apply runs_bind. eexists _, _. split; [done|]. rewrite Hpos.
  apply runs_bind. eapply runs_lift; [by rewrite Htab, list_lookup_middle|].
  destruct (phys s) as [c p] eqn:Hp. cbn [content] in *.
  apply runs_bind. eapply (wipe_loop_runs (chunks f) lo hi); [exact Hp|done|lia|lia|].
  intros s1 c1 p1 Hp1 (Fh & Fa & Fm & Fp & Fg) Hl1 Hbefore Hafter Hz.
  pose proof (body_without _ _ _ _ _ _ _ _ _ _ _ c1 _ _ Hb Htab (Forall2_length Ht1) Ho1 Hof Ho2
    Hl1 Hbefore Hafter) as Hb1.
  apply runs_bind. eexists tt, _. split; [done|]. apply runs_bind. eexists _, _. split; [done|].
  cbn [payload set_meta]. rewrite Fp. rewrite Htab, delete_middle. fold (without (meta s) (t1 ++ t2)).
  set (s1' := set_meta _ s1). assert (Hh : held Vault s1' = Some (File c1 p1)) by (cbn; congruence).
  pose proof (frame_refl Vault s1') as F. run_step runs_seek. run_step runs_set_len.
  unfold f_set_len, f_seek in Hh. cbn [content cursor] in Hh. rewrite resize_short in Hh by lia.
  apply runs_bind. eexists _, _. split; [done|]. pose proof F as (Gh & Ga & Gm & Gp & Gg).
  rewrite Gm. cbn [meta set_meta s1'].
  assert (Hb2 : body_ok password u (L1 ++ L2) (without (meta s) (t1 ++ t2)) (payload s)
                  (ztake (payload s) c1)).
  { eapply body_agree; [exact Hb1| |rewrite zlen_take; lia].
    intros x y Hx Hy. apply slice_ztake; lia. }
  apply runs_bind. eapply (runs_save_ok Vault password u); [exact Hh|by apply Gg, Fg|exact Hb2|].
  intros s4 c4 p4 Hh4 F4 Hok Hagree. eapply (runs_sync fault no_fault Vault); [exact Hh4|].
  intros s5 Hh5 F5. pose proof (frame_trans _ _ _ _ F (frame_trans _ _ _ _ F4 F5)) as (Kh & Ka & Km & Kp & Kg).
  cbn [held] in Hh5. injection Hh5 as Hp5. cbn in Ka, Km, Kp, Kg.
  apply HQ.
  - rewrite remove_file_split by done. split_and!.
    + rewrite Km, Kp, Fp, Hp5. exact Hok.
    + rewrite <- Htmp. transitivity (tmp s1); [by apply (Kh Temp)|by apply (Fh Temp)].
    + congruence.
    + by apply Kg, Fg.
  - apply map_eq. intros k. transitivity (fs s1 !! k); [by apply (Kh (Other k))|by apply (Fh (Other k))].
  - intros f' Hf'. assert (f' = f) as ->.
    { assert (Hnot : forall x, x ∈ t1 -> vfs_name x <> name).
      { intros x Hx Hxn. rewrite <- (table_names _ _ _ _ Ht), Htab, map_app in Hnd. cbn [map] in Hnd.
        apply list.NoDup_app in Hnd as (_ & Hd & _). apply (Hd (vfs_name x)).
        - by apply list_elem_of_fmap_2.
        - rewrite Hxn, <- Hname. by left. }
      unfold find_file in Hf'. rewrite Htab in Hf'. clear -Hf' Hnot Hname.
      induction t1 as [|x t1 IH]; cbn [app List.find] in Hf'.
      - rewrite bool_decide_true in Hf' by done. by injection Hf'.
      - rewrite bool_decide_false in Hf' by (apply Hnot; by left).
        apply IH; [done|]. intros y Hy. apply Hnot. by right. }
    rewrite Hp5. cbn [content]. rewrite list.Forall_forall in *. intros e He. unfold zeroed.
    destruct (ordered_range _ _ _ _ Hof He) as (? & ? & ?).
    rewrite Hagree by lia. rewrite slice_ztake by lia. by apply Hz.
  - split; [|rewrite Kp; cbn; lia]. rewrite Km. unfold meta_size. cbn [file_table set_meta meta s1' without].
    rewrite Htab, !sizes_app. cbn [foldr]. pose proof (index_size_nonneg f). lia.
Qed.

(** ** Vacuuming *)

Definition moved_to (off : Z) (e : ChunkEntry) : ChunkEntry :=
  {| cipher_len := cipher_len e; offset := off; file_id := file_id e; plain_len := plain_len e |}.

Fixpoint total (cs : list ChunkEntry) : Z :=
  match cs with [] => 0 | e :: cs => cipher_len e + total cs end.

Fixpoint relocated (off : Z) (cs : list ChunkEntry) : list ChunkEntry :=
  match cs with
  | [] => []
  | e :: cs => moved_to off e :: relocated (off + cipher_len e) cs
  end.

Fixpoint relocated_table (off : Z) (t : list FileIndex) : list FileIndex :=
  match t with
  | [] => []
  | f :: t => with_chunks f (relocated off (chunks f)) :: relocated_table (off + total (chunks f)) t
  end.

Lemma total_app cs ds : total (cs ++ ds) = total cs + total ds.
Proof. induction cs as [|e cs IH]; cbn [total app]; [lia|]. rewrite IH. lia. Qed.

Lemma ordered_total lo cs hi : ordered lo cs hi -> 0 <= total cs <= hi - lo.
Proof.
  revert lo. induction cs as [|e cs IH]; intros lo; cbn [ordered total]; [lia|].
  intros (? & ? & Ho). apply IH in Ho. lia.
Qed.

Lemma relocated_ordered off cs lo hi :
  ordered lo cs hi -> ordered off (relocated off cs) (off + total cs).
Proof.
  revert off lo. induction cs as [|e cs IH]; intros off lo; cbn [ordered relocated total]; [lia|].
  intros (? & ? & Ho). cbn [offset cipher_len moved_to]. split_and!; [lia|done|].
  replace (off + (cipher_len e + total cs)) with (off + cipher_len e + total cs) by lia. by eapply IH.
Qed.

(** What the temporary file holds after a copy: what it held, and the copied chunks. *)
Definition copied (u : UnlockedVault) (off : Z) (cs : list ChunkEntry) (ds : list bytes) (T T' : bytes)
    : Prop :=
  (exists X, T' = T ++ X) /\ zlen T' = off + total cs /\
  Forall2 (fun e d => chunk_data u T' e = Some d) (relocated off cs) ds.

Lemma chunk_data_grows u T X e d : chunk_data u T e = Some d -> chunk_data u (T ++ X) e = Some d.
Proof.
  unfold chunk_data. destruct (slice _ _ T) as [b|] eqn:Hs; [|done].
  rewrite slice_app_le; [by rewrite Hs|]. apply slice_Some in Hs. lia.
Qed.

Lemma vacuum_chunks_runs u A f B moved cs ds off s c p T pT (Q : list ChunkEntry * Z -> vault -> Prop) :
  let put := fun cs => modify (fun s => set_meta
    {| file_table := A ++ with_chunks f cs :: B; cdc_salt := cdc_salt (meta s) |} s) in
  phys s = File c p -> tmp s = Some (File T pT) -> zlen T = off ->
  Forall2 (fun e d => chunk_data u c e = Some d) cs ds -> Forall (fun e => 0 <= cipher_len e) cs ->
  off + total cs <= u64_max -> 0 <= off ->
  file_table (meta s) = A ++ with_chunks f (moved ++ cs) :: B ->
  (forall s' p' T' pT', phys s' = File c p' -> tmp s' = Some (File T' pT') -> copied u off cs ds T T' ->
     file_table (meta s') = A ++ with_chunks f (moved ++ relocated off cs) :: B ->
     cdc_salt (meta s') = cdc_salt (meta s) -> at_path s' = at_path s -> fs s' = fs s ->
     (rng_total (gen s) -> rng_total (gen s')) ->
     Q (moved ++ relocated off cs, off + total cs) s') ->
  runs (vacuum_chunks fault put moved cs off) s Q.
Proof.
  intros put Hp Ht Hl Hf. revert moved off s p T pT Q Hp Ht Hl.
  induction Hf as [|e d cs ds Hd Hf IH]; intros moved off s p T pT Q Hp Ht Hl Hpos Hmax Hoff Hm HQ;
    cbn [vacuum_chunks relocated total] in *.
  { apply runs_ret. replace (moved, off) with (moved ++ [], off + 0) by (rewrite app_nil_r; f_equal; lia).
    eapply HQ; [exact Hp|exact Ht| |exact Hm|done..]. split_and!; [|cbn [total]; lia|done].
    exists []. by rewrite app_nil_r. }
  apply Forall_cons_1 in Hpos as [He Hpos]. cbv beta in He.
  assert (Htot : 0 <= total cs).
  { clear -Hpos. induction Hpos as [|x cs Hx _ IH]; cbn [total]; lia. }
  unfold chunk_data in Hd.
  destruct (slice (offset e) _ c) as [blob|] eqn:Hs; [|done]. pose proof (slice_length _ _ _ _ Hs) as Hbl.
  assert (Hh : held Vault s = Some (File c p)) by (cbn; congruence). pose proof (frame_refl Vault s) as F.
  run_step runs_seek. run_step runs_read_exact; [exact Hs|].
  pose proof F as (Fh & Fa & Fm & Fp & Fg).
  assert (Ht1 : held Temp s1 = Some (File T pT)) by (rewrite (Fh Temp) by done; exact Ht).
  pose proof (frame_refl Temp s1) as F1. clear s0. rename Hh into Hv. rename Ht1 into Hh.
  cbn [content cursor f_seek] in Hv.
  apply runs_bind. eapply (runs_seek fault no_fault Temp); [exact Hh|]. intros s2 Hh2 F2.
  apply runs_bind. eapply (runs_write_all fault no_fault Temp); [exact Hh2|]. intros s3 Hh3 F3.
  pose proof (frame_trans _ _ _ _ F2 F3) as (Gh & Ga & Gm & Gp & Gg).
  unfold f_write, f_seek in Hh3. cbn [content cursor held] in Hh3. rewrite <- Hl, splice_end in Hh3.
  pose proof (Gh Vault ltac:(done)) as Gv. rewrite Hv in Gv. cbn [held] in Gv. injection Gv as Gv.
  apply runs_bind. eexists tt, _. split; [done|]. fold (moved_to off e).
  unfold wadd64. rewrite Z.mod_small by (unfold u64_max in *; lia).
  eapply (IH (moved ++ [moved_to off e]) (off + cipher_len e)); [exact Gv|exact Hh3| |done|lia|lia| |].
  { rewrite zlen_app. lia. }
  { cbn [meta set_meta file_table]. by rewrite <- app_assoc. }
  intros s4 p4 T4 pT4 Hp4 Ht4 ((X & HX) & Hl4 & Hds) Hm4 Hsalt4 Ha4 Hfs4 Hg4.
  cbn [set_meta at_path fs gen meta cdc_salt] in *.
  rewrite <- !app_assoc in *. cbn [app] in *.
  replace (off + cipher_len e + total cs) with (off + (cipher_len e + total cs)) by lia.
  eapply HQ; [exact Hp4|exact Ht4| |exact Hm4|congruence|congruence| |by auto].
  - split_and!; [by exists (blob ++ X)|cbn [total]; lia|].
    constructor; [|done]. rewrite HX, app_assoc. apply chunk_data_grows.
    unfold chunk_data. cbn [offset cipher_len file_id plain_len moved_to].
    assert (Hsl : slice off (off + cipher_len e) (T ++ blob) = Some blob).
    { apply (slice_part _ _ _ T blob []); [by rewrite app_nil_r|lia|lia]. }
    by rewrite Hsl.
  - rewrite Hfs4. apply map_eq. intros k. transitivity (fs s1 !! k); [by apply (Gh (Other k))|by apply (Fh (Other k))].
Qed.

Lemma vacuum_files_runs u moved t L off s c p T pT lo hi (Q : Z -> vault -> Prop) :
  phys s = File c p -> tmp s = Some (File T pT) -> zlen T = off ->
  table_holds u c t L -> ordered lo (all_chunks t) hi ->
  off + total (all_chunks t) <= u64_max -> 0 <= off ->
  file_table (meta s) = moved ++ t ->
  (forall s' p' T' pT', phys s' = File c p' -> tmp s' = Some (File T' pT') ->
     (exists X, T' = T ++ X) -> zlen T' = off + total (all_chunks t) ->
     table_holds u T' (relocated_table off t) L ->
     ordered off (all_chunks (relocated_table off t)) (off + total (all_chunks t)) ->
     file_table (meta s') = moved ++ relocated_table off t ->
     cdc_salt (meta s') = cdc_salt (meta s) -> at_path s' = at_path s -> fs s' = fs s ->
     (rng_total (gen s) -> rng_total (gen s')) ->
     Q (off + total (all_chunks t)) s') ->
  runs (vacuum_files fault moved t off) s Q.
Proof.
  intros Hp Ht Hl Hth. revert moved off s p T pT lo Q Hp Ht Hl.
  induction Hth as [|f nd t L [Hn (ds & Hds & Hcat)] Hth IH];
    intros moved off s p T pT lo Q Hp Ht Hl Ho Hmax Hoff Hm HQ; cbn [vacuum_files relocated_table].
  { apply runs_ret. change (total (all_chunks [])) with 0 in *.
    replace (Q off s) with (Q (off + 0) s) by (f_equal; lia).
    eapply HQ; [exact Hp|exact Ht| |lia|constructor| |exact Hm|done..].
    - exists []. by rewrite app_nil_r.
    - cbn. lia. }
  rewrite all_chunks_cons in *. rewrite total_app in *.
  apply ordered_app in Ho as (mid & Ho1 & Ho2).
  pose proof (ordered_total _ _ _ Ho1). pose proof (ordered_total _ _ _ Ho2).
  apply runs_bind. eapply (vacuum_chunks_runs u moved f t [] (chunks f) ds off);
    [exact Hp|exact Ht|done|exact Hds| |lia|done| |].
  { apply list.Forall_forall. intros e He. by destruct (ordered_range _ _ _ _ Ho1 He) as (_ & ? & _). }
  { rewrite Hm. by destruct f. }
  intros s1 p1 T1 pT1 Hp1 Ht1 ((X & HX) & Hl1 & Hds1) Hm1 Hsalt1 Ha1 Hfs1 Hg1. cbn [app] in *.
  eapply (IH (moved ++ [with_chunks f (relocated off (chunks f))]) (off + total (chunks f)));
    [exact Hp1|exact Ht1|done|exact Ho2|lia|lia|by rewrite <- app_assoc|].
  intros s2 p2 T2 pT2 Hp2 Ht2 (Y & HY) Hl2 Hth2 Ho2' Hm2 Hsalt2 Ha2 Hfs2 Hg2.
  rewrite <- app_assoc in Hm2. cbn [app] in Hm2.
  replace (off + total (chunks f) + total (all_chunks t)) with (off + (total (chunks f) + total (all_chunks t))) in * by lia.
  eapply HQ; [exact Hp2|exact Ht2| |done| | |exact Hm2|congruence|congruence|congruence|by auto].
  - exists (X ++ Y). by rewrite HY, HX, <- app_assoc.
  - constructor; [|done]. split; [done|]. exists ds. split; [|done]. cbn [chunks with_chunks].
    rewrite HY. clear -Hds1. induction Hds1 as [|e d cs ds He _ IH]; constructor; [|done].
    by apply chunk_data_grows.
  - cbn [relocated_table]. rewrite all_chunks_cons. cbn [chunks with_chunks]. apply ordered_app.
    exists (off + total (chunks f)). split; [by eapply relocated_ordered|done].
Qed.

Lemma relocated_length off cs : zlen (relocated off cs) = zlen cs.
Proof.
  revert off. induction cs as [|e cs IH]; intros off; cbn [relocated]; [done|]. by rewrite !zlen_cons, IH.
Qed.

Lemma relocated_typed off cs lo hi :
  Forall chunk_typed cs -> ordered lo cs hi -> 0 <= off -> off + total cs <= u64_max ->
  Forall chunk_typed (relocated off cs).
Proof.
  intros Hf. revert off lo. induction Hf as [|e cs (H1e & H2e & H3e & H4e) _ IH];
    intros off lo Ho Hoff Hmax; cbn [relocated ordered total] in *; [constructor|].
  destruct Ho as (_ & Hlen & Ho). pose proof (ordered_total _ _ _ Ho).
  constructor; [|eapply IH; [exact Ho|lia|lia]].
  split_and!; cbn [cipher_len offset file_id plain_len moved_to]; try done. unfold is_u64, u64_max in *. lia.
Qed.

Lemma relocated_table_fits off t lo hi :
  Forall index_typed t -> ordered lo (all_chunks t) hi -> 0 <= off -> off + total (all_chunks t) <= u64_max ->
  Forall index_typed (relocated_table off t) /\ zlen (relocated_table off t) = zlen t /\
  foldr (fun f n => index_size f + n) 0 (relocated_table off t) = foldr (fun f n => index_size f + n) 0 t.
Proof.
  intros Hf. revert off lo. induction Hf as [|f t (Hu & Hn & Hc & Hcs & Hm) _ IH]; intros off lo Ho Hoff Hmax;
    cbn [relocated_table]; [by split_and!|].
  rewrite all_chunks_cons in *. rewrite total_app in Hmax. apply ordered_app in Ho as (mid & Ho1 & Ho2).
  pose proof (ordered_total _ _ _ Ho1). pose proof (ordered_total _ _ _ Ho2).
  destruct (IH (off + total (chunks f)) mid Ho2) as (Hty & Hz & Hs); [lia|lia|]. split_and!.
  - constructor; [|done]. split_and!; cbn [vfs_name chunks last_modified_unix with_chunks]; try done.
    + by rewrite relocated_length.
    + eapply relocated_typed; [done|exact Ho1|done|lia].
  - by rewrite !zlen_cons, Hz.
  - cbn [foldr]. rewrite Hs. unfold index_size. cbn [vfs_name chunks with_chunks]. by rewrite relocated_length.
Qed.

Definition vacuumed (m : VaultMetadata) : VaultMetadata :=
  without m (relocated_table VAULT_HEADER_SIZE (file_table m)).

Lemma vacuum_runs password u L s (Q : Z -> vault -> Prop) :
  vault_ok password u L s ->
  let off := VAULT_HEADER_SIZE + total (all_chunks (file_table (meta s))) in
  (forall s' c, at_path s' = Some c -> tmp s' = None -> content (phys s') = content (phys s) ->
     meta s' = vacuumed (meta s) -> fs s' = fs s -> rng_total (gen s') ->
     file_ok password u L (meta s') off c -> Q off s') ->
  runs (handle_vacuum fault u) s Q.
Proof.
  intros (Hok & Htmp & Hat & Hg) off HQ. pose proof Hok as (Hb & _).
  pose proof Hb as (Hoff & Hu & (hd & Hs & Hhd) & Hord & Ht & Hnd & (Hft & Hall & Hsalt) & Hsz).
  assert (HV : VAULT_HEADER_SIZE = 125) by done. pose proof (slice_length _ _ _ _ Hs) as Hhl.
  pose proof (ordered_total _ _ _ Hord) as Htot.
  destruct (relocated_table_fits VAULT_HEADER_SIZE (file_table (meta s)) _ _ Hall Hord)
    as (Hty' & Hz' & Hs'); [lia|unfold is_u64, u64_max in *; lia|].
  destruct (phys s) as [c p] eqn:Hp. cbn [content] in *.
  unfold handle_vacuum. apply runs_bind. eexists tt, _. split; [unfold sys; by rewrite no_fault; cbn; rewrite Htmp|].
  set (s0 := set_tmp _ _). assert (Hh : held Temp s0 = Some (File [] 0)) by done.
  pose proof (frame_refl Temp s0) as F. run_step runs_write_all.
  unfold f_write in Hh. cbn [content cursor] in Hh. 
  assert (Hz8 : splice 0 (zrep 8 Byte.x00) [] = zrep 8 Byte.x00).
  { change 0 with (zlen (@nil byte)). by rewrite splice_end. }
  rewrite Hz8 in Hh. change (0 + zlen (zrep 8 Byte.x00)) with 8 in Hh.
  pose proof F as (Fh & Fa & Fm & Fp & Fg).
  assert (Hv : held Vault s1 = Some (File c p)) by (rewrite (Fh Vault) by done; cbn; by rewrite Hp).
  apply runs_bind. eapply (runs_seek fault no_fault Vault); [exact Hv|]. intros s2 Hh2 F2.
  apply runs_bind. eapply (runs_read_exact fault no_fault Vault); [exact Hh2|exact Hs|]. intros s3 Hh3 F3.
  pose proof (frame_trans _ _ _ _ F2 F3) as (Gh & Ga & Gm & Gp & Gg).
  pose proof (Gh Temp ltac:(done)) as Ht3. rewrite Hh in Ht3.
  apply runs_bind. eapply (runs_write_all fault no_fault Temp); [exact Ht3|]. intros s4 Hh4 F4.
  pose proof F4 as (Kh & Ka & Km & Kp & Kg).
  unfold f_write in Hh4. cbn [content cursor f_seek] in *.
  assert (Hsp : splice 8 hd (zrep 8 Byte.x00) = zrep 8 Byte.x00 ++ hd).
  { change 8 with (zlen (zrep 8 Byte.x00)). by rewrite splice_end. }
  rewrite Hsp in Hh4. set (T := zrep 8 Byte.x00 ++ hd) in *.
  assert (HTl : zlen T = VAULT_HEADER_SIZE) by (unfold T; rewrite zlen_app, zlen_rep; lia).
  pose proof (Kh Vault ltac:(done)) as Hv4. rewrite Hh3 in Hv4. cbn [held] in Hv4. injection Hv4 as Hv4.
  apply runs_bind. eexists _, _. split; [done|].
  assert (Hm4 : meta s4 = meta s) by (rewrite Km, Gm, Fm; done). rewrite Hm4.
  apply runs_bind. eapply (vacuum_files_runs u [] (file_table (meta s)) L VAULT_HEADER_SIZE);
    [exact Hv4|exact Hh4|done|exact Ht|exact Hord|unfold is_u64, u64_max in *; lia|lia|by rewrite Hm4|].
  intros s5 p5 T5 pT5 Hp5 Ht5 (X & HX) Hl5 Hth5 Ho5 Hm5 Hsalt5 Ha5 Hfs5 Hg5. cbn [app] in Hm5.
  fold off in Hl5, Ho5 |- *.
  apply runs_bind. eexists _, _. split; [done|].
  assert (Hmeta5 : meta s5 = vacuumed (meta s)).
  { unfold vacuumed, without. rewrite <- Hm5, <- Hm4, <- Hsalt5. by destruct (meta s5). }
  assert (Hb5 : body_ok password u L (meta s5) off T5).
  { rewrite Hmeta5. unfold is_u64, u64_max in *. split_and!; cbn [file_table vacuumed without]; try done; try lia.
    - unfold is_u64. lia.
    - exists hd. split; [|done]. apply (slice_part _ _ _ (zrep 8 Byte.x00) hd X); [|done|lia].
      rewrite HX. unfold T. by rewrite <- app_assoc.
    - split; [split_and!|]; cbn [file_table vacuumed without]; [lia|done|done|].
      unfold meta_size in *. cbn [file_table vacuumed without]. lia. }
  apply runs_bind. eapply (runs_save_ok Temp password u); [exact Ht5|by apply Hg5, Kg, Gg, Fg|exact Hb5|].
  intros s6 c6 p6 Hh6 F6 Hok6 _.
  apply runs_bind. eapply (runs_sync fault no_fault Temp); [exact Hh6|]. intros s7 Hh7 F7.
  pose proof (frame_trans _ _ _ _ F6 F7) as (Mh & Ma & Mm & Mp & Mg). cbn [held] in Hh7.
  apply runs_bind. eexists tt, _. split; [unfold sys; by rewrite no_fault|]. apply runs_ret.
  eapply HQ; cbn.
  - by rewrite Hh7.
  - done.
  - pose proof (Mh Vault ltac:(done)) as Hx. cbn in Hx. injection Hx as ->. by rewrite Hp5.
  - congruence.
  - apply map_eq. intros k. transitivity (fs s5 !! k); [by apply (Mh (Other k))|]. rewrite Hfs5.
    transitivity (fs s3 !! k); [by apply (Kh (Other k))|].
    transitivity (fs s1 !! k); [by apply (Gh (Other k))|by apply (Fh (Other k))].
  - by apply Mg, Hg5, Kg, Gg, Fg.
  - by rewrite Mm.
Qed.

Lemma shell_vacuum_runs password w u L s (Q : unit -> vault -> Prop) :
  temp_allowed w = true -> vault_ok password u L s ->
  (forall s', vault_ok password u L s' -> fs s' = fs s -> meta s' = vacuumed (meta s) ->
     payload s' = VAULT_HEADER_SIZE + total (all_chunks (file_table (meta s))) ->
     grown s s' 0 0 -> Q tt s') ->
  runs (shell_vacuum fault w u) s Q.
Proof.
  intros Hw Hv HQ. unfold shell_vacuum, vacuum_faults. rewrite Hw. apply runs_bind. eexists _, _. split; [done|].
  apply runs_bind. eapply vacuum_runs; [exact Hv|].
  intros s1 c Ha Ht Hc Hm Hfs Hg Hok.
  apply runs_bind. eexists tt, _. split; [unfold sys; by rewrite no_fault|].
  eexists tt, _. split; [done|]. apply HQ; [|done|done|done|].
  - split_and!; cbn; [|done|done|done]. by rewrite Ha.
  - destruct Hv as (((Hoff & Hu & _ & Hord & _ & _ & (_ & Hall & _) & _) & _) & _).
    pose proof (ordered_total _ _ _ Hord). unfold is_u64, u64_max in *.
    split; cbn [meta payload set_payload set_at_path set_phys bump]; [|lia].
    rewrite Hm. unfold meta_size, vacuumed, without. cbn [file_table].
    destruct (relocated_table_fits VAULT_HEADER_SIZE (file_table (meta s)) _ _ Hall Hord)
      as (_ & _ & ->); [done|unfold u64_max; lia|lia].
Qed.

(** Where the sandbox does not let it make the file, it changes nothing. *)
Lemma shell_vacuum_denied w u s : temp_allowed w = false -> shell_vacuum fault w u s = (Err (VIo "create"), bump s).
Proof.
  intros Hw. unfold shell_vacuum, vacuum_faults. rewrite Hw. unfold mbind at 1, gets.
  assert (Hv : handle_vacuum (fun i => if bool_decide (i = ios s) then Some 0 else fault i) u s = (Err (VIo "create"), bump s)).
  { unfold handle_vacuum, mbind at 1, sys. by rewrite bool_decide_eq_true_2. }
  unfold mbind at 1. by rewrite Hv.
Qed.

(** ** Creating and opening *)

Context `{!PasswordHashLaws _}.

Definition settings_ok (password : str) (st : KdfSettings) : Prop :=
  settings_wf st /\ forall salt, zlen salt = 32 -> is_ok (derive_kek password salt st) = true.

Definition empty_meta (salt : bytes) : VaultMetadata := {| file_table := []; cdc_salt := salt |}.

Lemma empty_meta_fits salt : zlen salt = 32 -> meta_fits (empty_meta salt).
Proof.
  intros Hs. split; [by split_and!|]. by vm_compute.
Qed.

Lemma drawing32 s n (Q : bytes -> vault -> Prop) f :
  held Vault s = Some f -> rng_total (gen s) -> 0 <= n ->
  (forall b s', zlen b = n -> held Vault s' = Some f -> frame Vault s s' -> Q b s') ->
  runs (drawing (os_fill n)) s Q.
Proof.
  intros Hh Hg Hn HQ. eapply (runs_drawing Vault _ _ _ (fun b => zlen b = n)); [exact Hh|done| |exact HQ].
  intros g Hgt. destruct (os_fill_total (E := vault_error) n g Hgt Hn) as (b & He & Hb).
  eexists _, _. split_and!; [exact He|by apply rng_total_skip|done].
Qed.

Lemma write_end {c b : bytes} : f_write b (File c (zlen c)) = File (c ++ b) (zlen (c ++ b)).
Proof. unfold f_write. cbn [content cursor]. by rewrite splice_end, zlen_app. Qed.

Lemma create_runs password st s (Q : unit -> vault -> Prop) :
  settings_ok password st -> rng_total (gen s) ->
  (forall s' u salt, file_ok password u [] (empty_meta salt) VAULT_HEADER_SIZE (content (phys s')) ->
     tmp s' = tmp s -> at_path s' = at_path s -> fs s' = fs s -> rng_total (gen s') -> Q tt s') ->
  runs (create_vault fault false password st) s Q.
Proof.
  intros [Hst Hkek] Hg HQ. unfold create_vault.
  assert (Hh : held Vault s = Some (phys s)) by done. pose proof (frame_refl Vault s) as F.
  apply runs_bind. eapply drawing32; [exact Hh|by apply F|done|]. intros salt s1 Hsl Hh1 F1.
  pose proof (frame_trans _ _ _ _ F F1) as F'. clear F F1 Hh. rename F' into F, Hh1 into Hh.
  apply runs_bind. eapply drawing32; [exact Hh|by apply F|done|]. intros d s2 Hdl Hh2 F2.
  pose proof (frame_trans _ _ _ _ F F2) as F'. clear F F2 Hh. rename F' into F, Hh2 into Hh.
  specialize (Hkek salt Hsl). destruct (derive_kek password salt st) as [kek|e|] eqn:Hk; [|done|done].
  apply runs_bind. eapply runs_lift; [done|].
  destruct (kdf_round_trip st Hst) as [Hkl Hkd].
  apply runs_bind. eapply (runs_drawing Vault _ _ _ (fun wn => zlen (fst wn) = WRAPPED_DEK_LEN /\
    zlen (snd wn) = XNONCE_LEN /\ unwrap_dek kek (fst wn) (snd wn) = Ok {| dek := d |}));
    [exact Hh|by apply F| |].
  { intros g Hgt. destruct (wrap_dek_total kek d g Hdl Hgt) as (w & n & g' & Hw & ? & ? & ? & ?).
    exists (w, n), g'. by rewrite Hw. }
  intros [w n] s3 (Hwl & Hnl & Hun) Hh3 F3. cbn [fst snd] in *.
  pose proof (frame_trans _ _ _ _ F F3) as F'. clear F F3 Hh. rename F' into F.
  apply runs_bind. eapply runs_lift; [exact Hun|].
  apply runs_bind. eexists tt, _. split; [unfold sys; by rewrite no_fault|].
  set (s4 := set_phys _ _). assert (Hh : held Vault s4 = Some (File [] (zlen (@nil byte)))) by done.
  assert (F4 : frame Vault s s4).
  { eapply frame_trans; [exact F|]. apply (frame_set_held Vault). }
  clear F. rename F4 into F.
  run_step runs_write_all. rewrite write_end in Hh. run_step runs_write_all. rewrite write_end in Hh.
  run_step runs_write_all. rewrite write_end in Hh. run_step runs_write_all. rewrite write_end in Hh.
  run_step runs_write_all. rewrite write_end in Hh.
  apply runs_bind. eapply drawing32; [exact Hh|by apply F|done|]. intros cs s9 Hcl Hh9 F9.
  pose proof (frame_trans _ _ _ _ F F9) as F'. clear F F9 Hh. rename F' into F, Hh9 into Hh.
  change (112 + KDF_SIZE) with VAULT_HEADER_SIZE in *. fold (empty_meta cs).
  set (ptr := le_bytes 8 VAULT_HEADER_SIZE) in *. assert (Hpl : zlen ptr = 8) by (unfold ptr; by rewrite zlen_le_bytes).
  rewrite <- !app_assoc in Hh. cbn [app] in Hh. set (c := ptr ++ _) in Hh.
  assert (HV : VAULT_HEADER_SIZE = 125) by done. unfold KDF_SIZE, WRAPPED_DEK_LEN, KEY_LEN, XNONCE_LEN in *.
  assert (Hcl' : zlen c = 125) by (unfold c; rewrite !zlen_app; lia).
  assert (Hb : body_ok password {| dek := d |} [] (empty_meta cs) VAULT_HEADER_SIZE c).
  { split_and!; try done; try lia.
    - exists (kdf_to_bytes st ++ salt ++ n ++ w). split.
      + apply (slice_part _ _ _ ptr _ []); [by rewrite app_nil_r|done|]. rewrite !zlen_app. lia.
      + exists (kdf_to_bytes st), salt, n, w, st, kek. by split_and!.
    - by apply Forall2_nil_2.
    - apply NoDup_nil_2. }
  apply runs_bind. eapply (runs_save_ok Vault password); [exact Hh|by apply F|exact Hb|].
  intros s10 c10 p10 Hh10 F10 Hok _.
  eapply (runs_sync fault no_fault Vault); [exact Hh10|]. intros s11 Hh11 F11.
  pose proof (frame_trans _ _ _ _ F (frame_trans _ _ _ _ F10 F11)) as (Mh & Ma & Mm & Mp & Mg).
  cbn [held] in Hh11. injection Hh11 as Hp11. eapply (HQ _ {| dek := d |} cs).
  - by rewrite Hp11.
  - by apply (Mh Temp).
  - done.
  - apply map_eq. intros k. by apply (Mh (Other k)).
  - by apply Mg.
Qed.

(** Opening a vault: what [main.rs] does before it starts the shell. *)
Lemma open_runs password u L m off s (Q : VaultMetadata * UnlockedVault * Z -> vault -> Prop) :
  file_ok password u L m off (content (phys s)) ->
  (forall s', content (phys s') = content (phys s) -> frame Vault s s' -> Q (m, u, off) s') ->
  runs (load_vault_metadata fault password) s Q.
Proof.
  intros Hok HQ. eapply (runs_load fault no_fault); [by eapply file_ok_vault_file|].
  intros s' p Hp F. apply HQ; [by rewrite Hp|done].
Qed.
End spec.
