(* ===== verification/Vault.v ===== *)
(** * What a vault promises

    Sessions of commands on a vault against the abstract vault: a list of files and
    the rest of the disk. *)

From Stdlib Require Import Strings.Byte.
From stdpp Require Import strings gmap.
From S2P Require Import Prelude Text Primitives StateM Disk VaultCrypto Vfs Storage VaultOps VaultSpec.

(** ** Commands, and what they answer *)

Inductive command :=
  | Import_bytes (data name : bytes)
  | Import (from_disk name : str)
  | Export (name to_disk : str) (force_overwrite : bool)
  | Decrypt (name : str)
  | Rm (name : str)
  | Vacuum.

Inductive reply := Done | Data (b : bytes) | Refused (e : vault_error).

Section commands.
Context `{PasswordHash} `{Aead} `{Sha256} `{Bincode} `{FastCdc}.
Variable fault : nat -> option Z.

(** An error is shown, and the session goes on. *)
Definition caught {A} (f : A -> reply) (m : V A) : V reply := fun s =>
  match m s with
  | (Ok a, s') => (Ok (f a), s')
  | (Err e, s') => (Ok (Refused e), s')
  | (Panic, s') => (Panic, s')
  end.

Definition run_command (w : machine) (u : UnlockedVault) (c : command) : V reply :=
  match c with
  | Import_bytes data name => caught (fun _ => Done) (handle_import_from_bytes fault w u data name)
  | Import from_disk name => caught (fun _ => Done) (handle_import fault w u from_disk name)
  | Export name to_disk force => caught (fun _ => Done) (handle_export fault w u name to_disk force)
  | Decrypt name => caught Data (decrypt_to_bytes fault u name)
  | Rm name => caught (fun _ => Done) (handle_rm fault u name)
  | Vacuum => caught (fun _ => Done) (shell_vacuum fault w u)
  end.

Fixpoint run_commands (w : machine) (u : UnlockedVault) (cs : list command) : V (list reply) :=
  match cs with
  | [] => mret []
  | c :: cs => let! r := run_command w u c in let! rs := run_commands w u cs in mret (r :: rs)
  end.

(** A vault entered again and again: each session has only the file. *)
Fixpoint run_sessions (w : machine) (password : str) (ss : list (list command)) : V (list (list reply)) :=
  match ss with
  | [] => mret []
  | cs :: ss =>
      let! r := handle_enter fault password (fun u => run_commands w u cs) in
      let! rs := run_sessions w password ss in
      mret (r :: rs)
  end.

(** ** The abstract vault *)

Record store := { files : list (str * bytes); disk : gmap path bytes }.

Definition find_data (name : str) (L : list (str * bytes)) : option bytes :=
  snd <$> List.find (fun nd => bool_decide (fst nd = name)) L.

Definition taken (name : str) (L : list (str * bytes)) : bool := bool_decide (name ∈ map fst L).

Definition with_entry (name data : bytes) (a : store) : store :=
  {| files := files a ++ [(name, data)]; disk := disk a |}.

(** The staged file a path names. *)
Definition staged (w : machine) (from_disk : str) : vresult path :=
  match staging_dir_str w with
  | None => Err (VMsg "Neither XDG_RUNTIME_DIR nor HOME environment variables are set.")
  | Some dir =>
  match canonicalize w dir with
  | None => Err (VMsg "Could not resolve staging directory path.")
  | Some allowed_path =>
  match canonicalize w from_disk with
  | None => Err (VMsg "The file does not exist or cannot be resolved.")
  | Some target_path =>
      if path_starts_with target_path allowed_path then Ok target_path
      else Err (VMsg "Imports are strictly limited to the staging area.")
  end end end.

(** Where an export goes, by name. *)
Definition export_target (w : machine) (to_disk : str) : vresult path :=
  match staging_dir_str w with
  | None => Err (VMsg "Neither XDG_RUNTIME_DIR nor HOME environment variables are set.")
  | Some dir =>
  match file_name to_disk with
  | None => Err (VMsg "Invalid target file name provided.")
  | Some safe_filename => Ok (components dir ++ [safe_filename])
  end end.

(** Whether there is a file behind a name. *)
Definition occupied {A} (w : machine) (target : path) (d : gmap path A) : bool :=
  match follows w target with Some p => bool_decide (is_Some (d !! p)) | None => true end.

Definition step (w : machine) (a : store) (c : command) : reply * store :=
  match c with
  | Import_bytes data name =>
      if taken name (files a) then (Refused already_exists, a) else (Done, with_entry name data a)
  | Import from_disk name =>
      match staged w from_disk with
      | Ok target =>
          if taken name (files a) then (Refused already_exists, a) else
          match disk a !! target with
          | None => (Refused (VIo "closed"), a)
          | Some data => (Done, with_entry name data {| files := files a; disk := delete target (disk a) |})
          end
      | Err e => (Refused e, a)
      | Panic => (Done, a)
      end
  | Export name to_disk force =>
      match export_target w to_disk with
      | Ok target =>
          if occupied w target (disk a) && negb force then (Refused (VMsg "ALREADY_EXISTS"), a) else
          match find_data name (files a) with
          | None => (Refused not_found, a)
          | Some data =>
              match follows w target with
              | None => (Done, a)
              | Some p =>
                  if bool_decide (p <> target) && negb force then (Refused cannot_create, a)
                  else (Done, {| files := files a; disk := <[p := data]> (disk a) |})
              end
          end
      | Err e => (Refused e, a)
      | Panic => (Done, a)
      end
  | Decrypt name =>
      match find_data name (files a) with
      | None => (Refused not_found, a)
      | Some data => (Data data, a)
      end
  | Rm name =>
      if taken name (files a)
      then (Done, {| files := remove_file name (files a); disk := disk a |})
      else (Refused (VMsg "File not found in metadata"), a)
  | Vacuum => (if temp_allowed w then Done else Refused (VIo "create"), a)
  end.

Fixpoint steps (w : machine) (a : store) (cs : list command) : list reply * store :=
  match cs with
  | [] => ([], a)
  | c :: cs => let (r, a) := step w a c in let (rs, a) := steps w a cs in (r :: rs, a)
  end.

Fixpoint sessions (w : machine) (a : store) (ss : list (list command)) : list (list reply) * store :=
  match ss with
  | [] => ([], a)
  | cs :: ss => let (r, a) := steps w a cs in let (rs, a) := sessions w a ss in (r :: rs, a)
  end.

(** What a command would add. *)
Definition added (w : machine) (a : store) (c : command) : option (bytes * bytes) :=
  match c with
  | Import_bytes data name => if taken name (files a) then None else Some (name, data)
  | Import from_disk name =>
      match staged w from_disk with
      | Ok target => if taken name (files a) then None else pair name <$> disk a !! target
      | _ => None
      end
  | _ => None
  end.

(** An export does not go onto the vault's own file, which it would empty. *)
Definition elsewhere (w : machine) (c : command) : Prop :=
  match c with
  | Export _ to_disk _ => match export_target w to_disk with Ok target => follows w target <> None | _ => True end
  | _ => True
  end.

(** There is room for the commands: the metadata stays under the limit of
    [load_vault_metadata] and the payload within [off_t], and no export goes onto the
    vault. *)
Fixpoint room (w : machine) (size off : Z) (a : store) (cs : list command) : Prop :=
  match cs with
  | [] => True
  | c :: cs =>
      elsewhere w c /\ match added w a c with
      | None => room w size off (snd (step w a c)) cs
      | Some (name, data) =>
          let size' := size + (24 + zlen name + 40 * zlen (cdc data)) in
          let off' := off + zlen (cdc data) * BLOB_LEN in
          utf8_valid name = true /\ size' + CHUNK_OVERHEAD <= METADATA_LIMIT /\ off' < 2 ^ 63 /\
          room w size' off' (snd (step w a c)) cs
      end
  end.

(** ** Lemmas *)

Lemma taken_false name L : taken name L = false <-> name ∉ map fst L.
Proof. apply bool_decide_eq_false. Qed.

Lemma taken_true name L : taken name L = true <-> name ∈ map fst L.
Proof. apply bool_decide_eq_true. Qed.

Lemma find_data_Some name data L : find_data name L = Some data -> (name, data) ∈ L.
Proof.
  unfold find_data. destruct (List.find _ L) as [[n d]|] eqn:Hf; [|done]. intros [= <-].
  apply List.find_some in Hf as [Hin Hn]. apply bool_decide_eq_true in Hn. cbn in *. subst n.
  by apply list_elem_of_In.
Qed.

Lemma find_data_None name L : find_data name L = None -> name ∉ map fst L.
Proof.
  unfold find_data. destruct (List.find _ L) as [[n d]|] eqn:Hf; [done|]. intros _ Hin.
  apply list_elem_of_fmap in Hin as ([n d] & -> & Hin%list_elem_of_In).
  eapply List.find_none in Hf; [|exact Hin]. by apply bool_decide_eq_false in Hf.
Qed.

Lemma runs_caught {A} (f : A -> reply) (m : V A) s (Q : reply -> vault -> Prop) :
  runs m s (fun a s' => Q (f a) s') -> runs (caught f m) s Q.
Proof. intros (a & s' & Hm & HQ). exists (f a), s'. split; [|done]. unfold caught. by rewrite Hm. Qed.

Lemma runs_refused {A} (f : A -> reply) (m : V A) e s s' (Q : reply -> vault -> Prop) :
  m s = (Err e, s') -> Q (Refused e) s' -> runs (caught f m) s Q.
Proof. intros Hm HQ. exists (Refused e), s'. split; [|done]. unfold caught. by rewrite Hm. Qed.

Context `{!AeadLaws _} `{!Sha256Laws _} `{!BincodeLaws _} `{!FastCdcLaws _}.
Hypothesis no_fault : forall n, fault n = None.

(** The name of no file is refused, by every operation that looks one up. *)
Lemma find_file_absent password u L s name :
  vault_ok password u L s -> name ∉ map fst L -> find_file name (meta s) = None.
Proof.
  intros Hv Hn. pose proof (vault_ok_has_name _ _ _ _ name Hv) as Hh.
  rewrite bool_decide_false in Hh by done. unfold has_name, find_file in *.
  induction (file_table (meta s)) as [|f t IH]; [done|]. cbn [existsb List.find] in *.
  apply orb_false_iff in Hh as [-> Ht]. by apply IH.
Qed.

Lemma position_absent password u L s name :
  vault_ok password u L s -> name ∉ map fst L -> position name (file_table (meta s)) = None.
Proof.
  intros Hv Hn. apply position_None. destruct Hv as [[(_ & _ & _ & _ & Ht & _) _] _].
  by rewrite (table_names _ _ _ _ Ht).
Qed.

Lemma export_runs w password u L s name data to_disk force target p (Q : unit -> vault -> Prop) :
  vault_ok password u L s -> (name, data) ∈ L -> export_target w to_disk = Ok target -> follows w target = Some p ->
  occupied w target (fs s) && negb force = false -> bool_decide (p <> target) && negb force = false ->
  (forall s', vault_ok password u L s' -> fs s' = <[p := File data (zlen data)]> (fs s) ->
     grown s s' 0 0 -> Q tt s') ->
  runs (handle_export fault w u name to_disk force) s Q.
Proof.
  intros Hv Hin Htg Hfollow Hpresent Hnew HQ. pose proof Hv as ((Hb & Hptr & Hblk) & Htmp & Hat & Hg).
  pose proof Hb as (_ & _ & _ & _ & Ht & Hnd & _).
  destruct (find_holds _ _ _ _ _ _ Ht Hnd Hin) as (f & Hfind & ds & Hds & ->).
  unfold handle_export. unfold export_target in Htg.
  destruct (staging_dir_str w) as [dir|]; [|done]. destruct (file_name to_disk) as [safe|]; [|done].
  injection Htg as Htg. rewrite Htg. apply runs_bind. eexists _, _. split; [done|].
  unfold occupied in Hpresent. rewrite Hpresent. apply runs_bind. eexists _, _. split; [done|].
  unfold find_file. rewrite Hfind, Hfollow, Hnew. rename p into target'.
  apply runs_bind. eexists tt, _. split; [unfold sys; by rewrite no_fault|].
  set (s1 := set_fs _ _). destruct (phys s) as [c p] eqn:Hp.
  apply runs_bind. eapply (export_to_runs fault no_fault u target' (chunks f) ds []);
    [exact Hp|apply lookup_insert_eq|exact Hds|done|].
  intros s2 p2 Hp2 Hfs2 Ht2 Ha2 Hm2 Hpay2 Hg2. cbn [app] in *.
  eapply (runs_sync fault no_fault (Other target')); [cbn; by rewrite Hfs2, lookup_insert_eq|].
  intros s3 Hh3 (Fh & Fa & Fm & Fp & Fg). pose proof (Fh Vault ltac:(done)) as Fv. cbn in Fv. injection Fv as Fv.
  cbn [fs set_fs bump s1 meta payload gen tmp at_path] in *. apply HQ.
  - split_and!; [|pose proof (Fh Temp ltac:(done)) as Hx; cbn in Hx; congruence|congruence|by apply Fg, Hg2].
    rewrite Fm, Fp, Hm2, Hpay2, Fv, Hp2. by split_and!.
  - apply map_eq. intros k. destruct (decide (k = target')) as [->|Hk].
    + rewrite lookup_insert_eq. exact Hh3.
    + rewrite lookup_insert_ne by done. pose proof (Fh (Other k) ltac:(congruence)) as Hx. cbn in Hx.
      rewrite Hx, Hfs2, !lookup_insert_ne by done. done.
  - split; rewrite ?Fm, ?Fp, ?Hm2, ?Hpay2; cbn; lia.
Qed.

Lemma staged_no_panic w from : staged w from <> Panic.
Proof.
  unfold staged. destruct (staging_dir_str w) as [dir|]; [|done].
  destruct (canonicalize w dir) as [allowed|]; [|done]. destruct (canonicalize w from) as [t|]; [|done].
  by destruct (path_starts_with t allowed).
Qed.

Lemma export_target_no_panic w to : export_target w to <> Panic.
Proof. unfold export_target. destruct (staging_dir_str w); [|done]. by destruct (file_name to). Qed.

(** *** Refusals, which change nothing *)

Lemma import_bytes_taken w u data name s :
  has_name name (meta s) = true ->
  handle_import_from_bytes fault w u data name s = (Err already_exists, s).
Proof. intros Hn. unfold handle_import_from_bytes, mbind, gets. by rewrite Hn. Qed.

Lemma import_not_staged w u from name e s :
  staged w from = Err e -> handle_import fault w u from name s = (Err e, s).
Proof.
  unfold staged, handle_import. destruct (staging_dir_str w) as [dir|]; [|by intros [= <-]].
  destruct (canonicalize w dir) as [allowed|]; [|by intros [= <-]].
  destruct (canonicalize w from) as [target|]; [|by intros [= <-]].
  destruct (path_starts_with target allowed); [done|by intros [= <-]].
Qed.

Lemma import_taken w u from name target s :
  staged w from = Ok target -> has_name name (meta s) = true ->
  handle_import fault w u from name s = (Err already_exists, s).
Proof.
  unfold staged, handle_import. destruct (staging_dir_str w) as [dir|]; [|done].
  destruct (canonicalize w dir) as [allowed|]; [|done].
  destruct (canonicalize w from) as [target'|]; [|done].
  destruct (path_starts_with target' allowed); [|done]. intros _ Hn. cbn [negb].
  unfold mbind, gets. by rewrite Hn.
Qed.

Lemma import_gone w u from name target s :
  staged w from = Ok target -> has_name name (meta s) = false -> fs s !! target = None ->
  handle_import fault w u from name s = (Err (VIo "closed"), bump s).
Proof.
  unfold staged, handle_import. destruct (staging_dir_str w) as [dir|]; [|done].
  destruct (canonicalize w dir) as [allowed|]; [|done].
  destruct (canonicalize w from) as [target'|]; [|done].
  destruct (path_starts_with target' allowed); [|done]. intros [= ->] Hn Hf. cbn [negb].
  unfold mbind, gets. rewrite Hn. unfold sys. rewrite no_fault. unfold on_file. cbn [held fs bump].
  by rewrite Hf.
Qed.

Lemma export_refused w u name to_disk force e s :
  match export_target w to_disk with
  | Ok target =>
      if occupied w target (fs s) && negb force then e = VMsg "ALREADY_EXISTS"
      else match find_file name (meta s) with
           | None => e = not_found
           | Some _ => e = cannot_create /\ exists p, follows w target = Some p /\ bool_decide (p <> target) && negb force = true
           end
  | Err e' => e = e'
  | Panic => False
  end -> handle_export fault w u name to_disk force s = (Err e, s).
Proof.
  unfold export_target, handle_export. destruct (staging_dir_str w) as [dir|]; [|by intros ->].
  destruct (file_name to_disk) as [safe|]; [|by intros ->]. unfold mbind, gets, occupied.
  destruct (follows w _) as [p|]; destruct (_ && negb force); try (by intros ->);
    (destruct (find_file name (meta s)); [intros (-> & q & [= <-] & Hq) || intros (-> & q & [=] & Hq); by rewrite Hq|by intros ->]).
Qed.

Lemma decrypt_absent u name s :
  find_file name (meta s) = None -> decrypt_to_bytes fault u name s = (Err not_found, s).
Proof. intros Hf. unfold decrypt_to_bytes, mbind, gets. by rewrite Hf. Qed.

Lemma rm_absent u name s :
  position name (file_table (meta s)) = None ->
  handle_rm fault u name s = (Err (VMsg "File not found in metadata"), s).
Proof. intros Hf. unfold handle_rm, mbind, gets. by rewrite Hf. Qed.

(** The vault stores the abstract one, within a size and a length. *)
Definition holds (password : str) (u : UnlockedVault) (a : store) (size off : Z) (s : vault) : Prop :=
  vault_ok password u (files a) s /\ content <$> fs s = disk a /\
  meta_size (meta s) <= size /\ payload s <= off /\ off < 2 ^ 63.

Lemma holds_grown password u a size off s s' a' n b :
  holds password u a size off s -> vault_ok password u (files a') s' -> content <$> fs s' = disk a' ->
  grown s s' n b -> off + b < 2 ^ 63 -> holds password u a' (size + n) (off + b) s'.
Proof. intros (_ & _ & ? & ? & ?) ? ? [? ?] ?. split_and!; try done; lia. Qed.

Lemma holds_grown_0 password u a size off s s' a' :
  holds password u a size off s -> vault_ok password u (files a') s' -> content <$> fs s' = disk a' ->
  grown s s' 0 0 -> holds password u a' size off s'.
Proof.
  intros Ho Hv Hd Hg. pose proof Ho as (_ & _ & _ & _ & Hmax).
  rewrite <- (Z.add_0_r off) in Hmax.
  pose proof (holds_grown _ _ _ _ _ _ _ _ _ _ Ho Hv Hd Hg Hmax) as Hx. by rewrite !Z.add_0_r in Hx.
Qed.

Lemma disk_file a s target data :
  content <$> fs s = disk a -> disk a !! target = Some data ->
  exists q, fs s !! target = Some (File data q).
Proof.
  intros <-. rewrite lookup_fmap. destruct (fs s !! target) as [[c q]|]; [|done].
  intros [= <-]. by exists q.
Qed.

Lemma holds_names password u a size off s name :
  holds password u a size off s -> has_name name (meta s) = taken name (files a).
Proof. intros (Hv & _). by rewrite (vault_ok_has_name _ _ _ _ _ Hv). Qed.

Lemma holds_present password u a size off s target :
  holds password u a size off s ->
  bool_decide (is_Some (fs s !! target)) = bool_decide (is_Some (disk a !! target)).
Proof.
  intros (_ & <- & _). rewrite lookup_fmap. apply bool_decide_ext. destruct (fs s !! target); cbn; [|done].
  by split; intros _; eexists.
Qed.

(** A command does what the abstract one does. *)
Definition commanded (password : str) (u : UnlockedVault) (w : machine) (a : store) (c : command)
    (cs : list command) (r : reply) (s' : vault) : Prop :=
  r = fst (step w a c) /\
  exists size off, holds password u (snd (step w a c)) size off s' /\ room w size off (snd (step w a c)) cs.

Section command.
Variables (password : str) (u : UnlockedVault) (w : machine) (a : store) (size off : Z) (s : vault).
Variables (cs : list command) (now : Z).
Hypothesis Ho : holds password u a size off s.
Hypothesis Hw : unix_clock w = Some now.
Hypothesis Hnow : is_u64 now.

Lemma import_bytes_commanded data name :
  room w size off a (Import_bytes data name :: cs) ->
  runs (run_command w u (Import_bytes data name)) s (commanded password u w a (Import_bytes data name) cs).
Proof.
  pose proof Ho as (Hv & Hd & Hsz & Hpay & Hmax). unfold commanded. cbn [run_command step added room]. intros [Hel Hr0]; revert Hr0.
  destruct (taken name (files a)) eqn:Ht.
  - intros Hr. eapply runs_refused; [apply import_bytes_taken; by rewrite (holds_names _ _ _ _ _ _ _ Ho)|].
    split; [done|]. by exists size, off.
  - intros (Hutf & Hs' & Hp' & Hroom). apply runs_caught.
    eapply (import_bytes_runs fault no_fault); [exact Hv|by apply taken_false| |exact Hw|exact Hnow|].
    { unfold room_for, u64_max. split_and!; [done|lia|lia]. }
    intros s' Hv' Hfs' Hg. split; [done|]. eexists _, _. split; [|exact Hroom].
    eapply holds_grown; [exact Ho|exact Hv'|by rewrite Hfs'|exact Hg|exact Hp'].
Qed.

Lemma staged_Ok from target :
  staged w from = Ok target -> exists dir allowed, staging_dir_str w = Some dir /\
    canonicalize w dir = Some allowed /\ canonicalize w from = Some target /\
    path_starts_with target allowed = true.
Proof.
  unfold staged. destruct (staging_dir_str w) as [dir|]; [|done].
  destruct (canonicalize w dir) as [allowed|] eqn:Hal; [|done].
  destruct (canonicalize w from) as [t|]; [|done].
  destruct (path_starts_with t allowed) eqn:Hst; [|done]. intros [= ->]. by exists dir, allowed.
Qed.

Lemma import_commanded from name :
  room w size off a (Import from name :: cs) ->
  runs (run_command w u (Import from name)) s (commanded password u w a (Import from name) cs).
Proof.
  pose proof Ho as (Hv & Hd & Hsz & Hpay & Hmax). unfold commanded. cbn [run_command step added room]. intros [Hel Hr0]; revert Hr0.
  pose proof (holds_names _ _ _ _ _ _ name Ho) as Hn.
  destruct (staged w from) as [target|e|] eqn:Hst; cycle 1.
  { intros Hr. eapply runs_refused; [by apply import_not_staged|]. split; [done|]. by exists size, off. }
  { by apply staged_no_panic in Hst. }
  destruct (taken name (files a)) eqn:Ht.
  { intros Hr. eapply runs_refused; [eapply import_taken; [exact Hst|congruence]|]. split; [done|]. by exists size, off. }
  destruct (disk a !! target) as [data|] eqn:Hf; cbn [fmap option_fmap option_map].
  - intros (Hutf & Hs' & Hp' & Hroom). destruct (disk_file _ _ _ _ Hd Hf) as (q & Hfile).
    destruct (staged_Ok _ _ Hst) as (dir & allowed & Hdir & Hal & Hfrom & Hpre). apply runs_caught.
    eapply (import_runs fault no_fault); [exact Hv|by apply taken_false| |exact Hw|exact Hnow|exact Hdir|
      exact Hal|exact Hfrom|exact Hpre|exact Hfile|].
    { unfold room_for, u64_max. split_and!; [done|lia|lia]. }
    intros s' Hv' Hfs' Hg. split; [done|]. eexists _, _. split; [|exact Hroom].
    eapply holds_grown; [exact Ho|exact Hv'| |exact Hg|exact Hp']. cbn [disk with_entry]. by rewrite Hfs', fmap_delete, Hd.
  - intros Hr. eapply runs_refused; [eapply import_gone; [done|done|]|].
    { rewrite <- Hd, lookup_fmap in Hf. by destruct (fs s !! target). }
    split; [done|]. by exists size, off.
Qed.

Lemma find_holds_meta name data : (name, data) ∈ files a -> exists f, find_file name (meta s) = Some f.
Proof.
  intros Hin. pose proof Ho as (((Hb & _) & _) & _). pose proof Hb as (_ & _ & _ & _ & Ht & Hnd & _).
  destruct (find_holds _ _ _ _ _ _ Ht Hnd Hin) as (f & Hfind & _). by exists f.
Qed.

Lemma export_commanded name to force :
  room w size off a (Export name to force :: cs) ->
  runs (run_command w u (Export name to force)) s (commanded password u w a (Export name to force) cs).
Proof.
  pose proof Ho as (Hv & Hd & Hsz & Hpay & Hmax). unfold commanded. cbn [run_command added room].
  cbn [step elsewhere]. intros [Hel Hr0]; revert Hr0. destruct (export_target w to) as [target|e|] eqn:Htg; cycle 1.
  { intros Hr. eapply runs_refused; [apply export_refused; by rewrite Htg|]. split; [done|]. by exists size, off. }
  { by apply export_target_no_panic in Htg. }
  assert (Hocc : occupied w target (fs s) = occupied w target (disk a)).
  { unfold occupied. destruct (follows w target) as [p|]; [|done]. by eapply holds_present. }
  destruct (occupied w target (disk a) && negb force) eqn:Hx.
  { intros Hr. eapply runs_refused; [apply export_refused; by rewrite Htg, Hocc, Hx|].
    split; [done|]. by exists size, off. }
  destruct (find_data name (files a)) as [data|] eqn:Hf.
  - destruct (follows w target) as [p|] eqn:Hfo; [|done]. destruct (bool_decide (p <> target) && negb force) eqn:Hn.
    { intros Hr. destruct (find_holds_meta name data) as [f Hff]; [by apply find_data_Some|].
      eapply runs_refused; [apply export_refused; rewrite Htg, Hocc, Hx, Hff; split; [done|by exists p]|].
      split; [done|]. by exists size, off. }
    intros Hr. apply runs_caught.
    eapply export_runs; [exact Hv|by apply find_data_Some|exact Htg|exact Hfo|by rewrite Hocc|exact Hn|].
    intros s' Hv' Hfs' Hg. split; [done|]. exists size, off. split; [|exact Hr].
    eapply holds_grown_0; [exact Ho|exact Hv'| |exact Hg]. cbn [disk]. by rewrite Hfs', fmap_insert, Hd.
  - intros Hr. eapply runs_refused; [apply export_refused; rewrite Htg, Hocc, Hx|].
    { by rewrite (find_file_absent _ _ _ _ _ Hv (find_data_None _ _ Hf)). }
    split; [done|]. by exists size, off.
Qed.

Lemma decrypt_commanded name :
  room w size off a (Decrypt name :: cs) ->
  runs (run_command w u (Decrypt name)) s (commanded password u w a (Decrypt name) cs).
Proof.
  pose proof Ho as (Hv & Hd & Hsz & Hpay & Hmax). unfold commanded. cbn [run_command added room]. cbn [step]. intros [Hel Hr0]; revert Hr0.
  destruct (find_data name (files a)) as [data|] eqn:Hf; intros Hr.
  - apply runs_caught. eapply (decrypt_runs fault no_fault); [exact Hv|by apply find_data_Some|].
    intros s' Hv' F Hc. split; [done|]. exists size, off. split; [|exact Hr].
    pose proof F as (Fh & _ & Fm & Fp & _). eapply holds_grown_0; [exact Ho|exact Hv'| |].
    + cbn [snd]. rewrite <- Hd. f_equal. apply map_eq. intros k. by apply (Fh (Other k)).
    + unfold grown. rewrite Fm, Fp. lia.
  - eapply runs_refused; [apply decrypt_absent; eapply find_file_absent; [exact Hv|by apply find_data_None]|].
    split; [done|]. by exists size, off.
Qed.

Lemma rm_commanded name :
  room w size off a (Rm name :: cs) ->
  runs (run_command w u (Rm name)) s (commanded password u w a (Rm name) cs).
Proof.
  pose proof Ho as (Hv & Hd & Hsz & Hpay & Hmax). unfold commanded. cbn [run_command added room]. cbn [step]. intros [Hel Hr0]; revert Hr0.
  destruct (taken name (files a)) eqn:Ht; intros Hr.
  - apply runs_caught. eapply (rm_runs fault no_fault); [exact Hv|by apply taken_true|].
    intros s' Hv' Hfs _ Hg. split; [done|]. exists size, off. split; [|exact Hr].
    eapply holds_grown_0; [exact Ho|exact Hv'|by rewrite Hfs|exact Hg].
  - eapply runs_refused; [apply rm_absent; eapply position_absent; [exact Hv|by apply taken_false]|].
    split; [done|]. by exists size, off.
Qed.

Lemma vacuum_commanded :
  room w size off a (Vacuum :: cs) ->
  runs (run_command w u Vacuum) s (commanded password u w a Vacuum cs).
Proof.
  pose proof Ho as (Hv & Hd & Hsz & Hpay & Hmax). unfold commanded. cbn [run_command added room]. cbn [step]. intros [_ Hr]. destruct (temp_allowed w) eqn:Hta.
  2:{ eapply runs_refused; [by apply shell_vacuum_denied|]. split; [done|]. by exists size, off. }
  apply runs_caught. eapply (shell_vacuum_runs fault no_fault); [exact Hta|exact Hv|].
  intros s' Hv' Hfs _ _ Hg. split; [done|]. exists size, off. split; [|exact Hr].
  eapply holds_grown_0; [exact Ho|exact Hv'|by rewrite Hfs|exact Hg].
Qed.

Lemma command_runs c :
  room w size off a (c :: cs) -> runs (run_command w u c) s (commanded password u w a c cs).
Proof.
  destruct c; [apply import_bytes_commanded|apply import_commanded|apply export_commanded|
    apply decrypt_commanded|apply rm_commanded|apply vacuum_commanded].
Qed.
End command.

Section session.
Context `{!PasswordHashLaws _}.
Variables (password : str) (w : machine) (now : Z).
Hypothesis Hw : unix_clock w = Some now.
Hypothesis Hnow : is_u64 now.

Lemma commands_runs u a size off cs rest s (Q : list reply -> vault -> Prop) :
  holds password u a size off s -> room w size off a (cs ++ rest) ->
  (forall s' size' off', holds password u (snd (steps w a cs)) size' off' s' ->
     room w size' off' (snd (steps w a cs)) rest -> Q (fst (steps w a cs)) s') ->
  runs (run_commands w u cs) s Q.
Proof.
  revert a size off s Q. induction cs as [|c cs IH]; intros a size off s Q Ho Hr HQ.
  { apply runs_ret. by eapply HQ. }
  cbn [run_commands app] in *. apply runs_bind. eapply runs_conseq; [by eapply command_runs|].
  intros r s1 (-> & size1 & off1 & Ho1 & Hr1). apply runs_bind. eapply IH; [exact Ho1|exact Hr1|].
  intros s' size' off' Ho' Hr'. apply runs_ret. cbn [steps] in HQ.
  destruct (step w a c) as [r a1]. cbn [fst snd] in *. destruct (steps w a1 cs) as [rs a2].
  by eapply HQ.
Qed.

(** A vault nobody has open. *)
Definition closed (a : store) (size off : Z) (s : vault) : Prop :=
  exists u m o, file_ok password u (files a) m o (content (phys s)) /\ meta_size m <= size /\ o <= off /\ off < 2 ^ 63 /\
    tmp s = None /\ at_path s = None /\ rng_total (gen s) /\ content <$> fs s = disk a.

Lemma holds_closed u a size off s : holds password u a size off s -> closed a size off s.
Proof. intros ((Hok & ? & ? & ?) & ? & ? & ? & ?). by exists u, (meta s), (payload s). Qed.

Lemma enter_runs {A} (shell : UnlockedVault -> V A) a size off s
    (P : A -> store -> Z -> Z -> Prop) (Q : A -> vault -> Prop) :
  zlen (trim password) <> 0 -> closed a size off s ->
  (forall u s1, holds password u a size off s1 -> runs (shell u) s1 (fun r s2 =>
     exists a' size' off', P r a' size' off' /\ holds password u a' size' off' s2)) ->
  (forall r a' size' off' s', P r a' size' off' -> closed a' size' off' s' -> Q r s') ->
  runs (handle_enter fault password shell) s Q.
Proof.
  intros Hpw (u & m & o & Hok & Hsz & Ho & Hmax & Ht & Ha & Hg & Hd) Hshell HQ. unfold handle_enter.
  apply runs_bind. eexists tt, _. split; [unfold sys; by rewrite no_fault|].
  set (s1 := set_at_path _ _). assert (Hc : content (phys s1) = content (phys s)) by (cbn; by rewrite Ha).
  zdec. apply runs_bind. eapply (open_runs fault no_fault); [by rewrite Hc|].
  intros s2 Hc2 (Fh & Fa & _ & _ & Fg). apply runs_bind. eexists tt, _. split; [done|].
  apply runs_bind. eexists tt, _. split; [unfold sys; by rewrite no_fault|]. set (s3 := bump _).
  assert (Hh : holds password u a size off s3).
  { split_and!; try done.
    - split_and!; cbn; [by rewrite Hc2, Hc| |by rewrite Fa|by apply Fg].
      rewrite <- Ht. by apply (Fh Temp).
    - rewrite <- Hd. f_equal. cbn. apply map_eq. intros k. by apply (Fh (Other k)). }
  apply runs_bind. eapply runs_conseq; [by apply Hshell|]. intros r s4 (a' & size' & off' & HP & Hh4).
  apply runs_bind. eapply (runs_sync fault no_fault Vault); [done|]. intros s5 Hh5 F5. apply runs_ret.
  eapply HQ; [exact HP|]. eapply holds_closed. destruct Hh4 as (Hv4 & Hd4 & Hs4 & Hp4 & Hm4).
  pose proof F5 as (Gh & _ & Gm & Gp & _). cbn in Hh5. injection Hh5 as Hp5. split_and!.
  - eapply vault_ok_frame; [exact F5|by rewrite Hp5|exact Hv4].
  - rewrite <- Hd4. f_equal. apply map_eq. intros k. by apply (Gh (Other k)).
  - by rewrite Gm.
  - by rewrite Gp.
  - exact Hm4.
Qed.

Lemma sessions_runs a size off ss s (Q : list (list reply) -> vault -> Prop) :
  zlen (trim password) <> 0 -> closed a size off s -> room w size off a (concat ss) ->
  (forall s' size' off', closed (snd (sessions w a ss)) size' off' s' -> Q (fst (sessions w a ss)) s') ->
  runs (run_sessions w password ss) s Q.
Proof.
  intros Hpw. revert a size off s Q. induction ss as [|cs ss IH]; intros a size off s Q Hc Hr HQ.
  { apply runs_ret. by eapply HQ. }
  cbn [run_sessions concat] in *. apply runs_bind.
  eapply (enter_runs _ a size off s (fun rs a' size' off' => rs = fst (steps w a cs) /\
    a' = snd (steps w a cs) /\ room w size' off' a' (concat ss))); [done|exact Hc| |].
  { intros u s1 Ho. eapply commands_runs; [exact Ho|exact Hr|]. intros s2 size' off' Ho' Hr'.
    by exists (snd (steps w a cs)), size', off'. }
  intros r a1 size1 off1 s1 (-> & -> & Hr1) Hc1. apply runs_bind. eapply IH; [exact Hc1|exact Hr1|].
  intros s2 size2 off2 Hc2. apply runs_ret. cbn [sessions] in HQ.
  destruct (steps w a cs) as [r a1]. cbn [fst snd] in *. destruct (sessions w a1 ss) as [rs a2].
  by eapply HQ.
Qed.
End session.

(** Before a vault exists. *)
Definition blank (others : gmap path file) (g : rng) : vault :=
  {| phys := File [] 0; tmp := None; at_path := None; fs := others; meta := empty_meta []; payload := 0;
     gen := g; ios := 0 |}.

Definition create_and_use (w : machine) (password : str) (settings : KdfSettings)
    (ss : list (list command)) : V (list (list reply)) :=
  let! _ := create_vault fault false password settings in
  run_sessions w password ss.

Lemma create_and_use_runs `{!PasswordHashLaws _} password settings w others g ss now :
  settings_ok password settings -> zlen (trim password) <> 0 -> rng_total g ->
  unix_clock w = Some now -> is_u64 now ->
  let a := {| files := []; disk := content <$> others |} in
  room w (meta_size (empty_meta [])) VAULT_HEADER_SIZE a (concat ss) ->
  runs (create_and_use w password settings ss) (blank others g) (fun rs s' =>
    rs = fst (sessions w a ss) /\ content <$> fs s' = disk (snd (sessions w a ss)) /\
    exists u m off, file_ok password u (files (snd (sessions w a ss))) m off (content (phys s'))).
Proof.
  intros Hst Hpw Hg Hw Hnow a Hr. apply runs_bind. eapply (create_runs fault no_fault); [exact Hst|exact Hg|].
  intros s1 u salt Hok Ht Ha Hfs Hg1.
  eapply (sessions_runs password w now Hw Hnow a); [exact Hpw| |exact Hr|].
  - exists u, (empty_meta salt), VAULT_HEADER_SIZE. split_and!; try done. by rewrite Hfs.
  - intros s' size off (u' & m & o & Hok' & _ & _ & _ & _ & _ & _ & Hd). split_and!; [done|done|].
    by exists u', m, o.
Qed.

End commands.

(** *** Example *)

From S2P Require Import ToyVault.
Import Toy ToyPw ToyVault.

Section demo.
Definition demo_machine : machine :=
  {| xdg_runtime_dir := Some (lit "/run/user/1000"); home_dir := None;
     canonicalize := fun s => Some (components s); follows := Some; temp_allowed := true; unix_clock := Some 1700000000 |}.

Definition demo_staging : path := components (lit "/run/user/1000/atom_staging").

Definition demo_others : gmap path file :=
  {[ demo_staging ++ [lit "notes.txt"] := File (lit "staged notes") 0 ]}.

Definition demo_sessions : list (list command) :=
  [[Import_bytes (lit "hello") (lit "a.txt");
    Import (lit "/run/user/1000/atom_staging/./notes.txt") (lit "notes");
    Import_bytes (lit "again") (lit "a.txt")];
   [Rm (lit "a.txt"); Vacuum; Decrypt (lit "notes"); Decrypt (lit "a.txt");
    Export (lit "notes") (lit "../../etc/out.txt") false;
    Export (lit "notes") (lit "out.txt") false;
    Import (lit "/etc/passwd") (lit "p")]].

Lemma demo_settings (password : str) : settings_ok password kdf_default.
Proof.
  split; [by split_and!|]. intros salt _. reflexivity.
Qed.
End demo.


(** *** A vault to apply theorems to: two files, in a fresh session *)

Section toy_vault.
Abbreviation none := (fun _ : nat => @None Z).

Definition toy_session : V UnlockedVault :=
  let! _ := create_vault none false (lit "pw") kdf_default in
  let! (m, u, off) := load_vault_metadata none (lit "pw") in
  let! _ := modify (fun s => set_payload off (set_meta m s)) in
  let! _ := handle_import_from_bytes none demo_machine u (lit "first") (lit "a") in
  let! _ := handle_import_from_bytes none demo_machine u (lit "second") (lit "b") in
  mret u.

Definition toy_result : vresult UnlockedVault * vault :=
  toy_session (blank demo_others (rng_const Byte.x05)).
Definition result_or {A} (d : A) (m : vresult A) : A := match m with Ok a => a | _ => d end.
Definition toy_unlocked : UnlockedVault := result_or {| dek := [] |} (fst toy_result).
Definition toy_vault : vault := snd toy_result.
Definition toy_files : list (str * bytes) := [(lit "a", lit "first"); (lit "b", lit "second")].

Lemma toy_runs :
  runs toy_session (blank demo_others (rng_const Byte.x05)) (fun u s =>
    vault_ok (lit "pw") u toy_files s /\ fs s = demo_others).
Proof.
  unfold toy_session. apply runs_bind. eapply create_runs; [done|apply demo_settings|apply rng_const_total|].
  intros s1 u salt Hok Ht Ha Hfs Hg.
  apply runs_bind. eapply open_runs; [done|exact Hok|]. intros s2 Hc2 F.
  apply runs_bind. eexists tt, _. split; [done|]. set (s3 := set_payload _ _).
  assert (Hv : vault_ok (lit "pw") u [] s3).
  { pose proof F as (Fh & Fa & _ & _ & Fg). split_and!; cbn; [by rewrite Hc2| |by rewrite Fa, Ha|by apply Fg].
    transitivity (tmp s1); [by apply (Fh Temp)|exact Ht]. }
  assert (Hf3 : fs s3 = demo_others).
  { transitivity (fs s1); [|exact Hfs]. cbn. apply map_eq. intros k. destruct F as (Fh & _). by apply (Fh (Other k)). }
  assert (Hm3 : meta_size (meta s3) <= 40 /\ payload s3 <= 125) by (cbn; by vm_compute).
  clearbody s3. assert (HB : BLOB_LEN = 8251) by done. assert (HL : METADATA_LIMIT = 10485760) by done.
  assert (HO : CHUNK_OVERHEAD = 59) by done. assert (HU : u64_max = 18446744073709551615) by done.
  assert (H1 : zlen (cdc (lit "first")) = 1) by done. assert (H2 : zlen (cdc (lit "second")) = 1) by done.
  assert (N1 : zlen (lit "a") = 1) by done. assert (N2 : zlen (lit "b") = 1) by done.
  apply runs_bind. eapply (import_bytes_runs none ltac:(done)); [exact Hv|apply not_elem_of_nil| |done|by vm_compute|].
  { split_and!; [done|lia|lia]. }
  intros s4 Hv4 Hf4 [G1 G2]. apply runs_bind.
  eapply (import_bytes_runs none ltac:(done)); [exact Hv4| | |done|by vm_compute|].
  { intros Hin%list_elem_of_singleton. done. }
  { split_and!; [done|lia|lia]. }
  intros s5 Hv5 Hf5 _. apply runs_ret. split; [exact Hv5|congruence].
Qed.

Lemma toy_vault_ok : vault_ok (lit "pw") toy_unlocked toy_files toy_vault.
Proof.
  destruct toy_runs as (u & s & Hr & Hv & _). unfold toy_unlocked, toy_vault, toy_result. by rewrite Hr.
Qed.

Lemma toy_vault_fs : fs toy_vault = demo_others.
Proof. destruct toy_runs as (u & s & Hr & _ & Hf). unfold toy_vault, toy_result. by rewrite Hr. Qed.
End toy_vault.
