(* ===== verification/VaultSafety.v ===== *)
(** * A vault when the system fails

    Every operation of the system may fail: [fault] says which ones, and how many
    bytes a failing write had put down.  What reads and [vacuum] never damage, for
    every choice of [fault]; and what an interrupted import does. *)

From Stdlib Require Import Strings.Byte.
From stdpp Require Import strings gmap.
From S2P Require Import Prelude Text Primitives StateM Disk VaultCrypto Vfs Storage VaultOps VaultSpec.
From S2P Require Import ToyVault Vault.

(** ** What every run keeps *)

Definition always (R : vault -> vault -> Prop) {A} (m : V A) : Prop := forall s, R s (snd (m s)).

Section always.
Context (R : vault -> vault -> Prop) `{!PreOrder R}.

Lemma always_ret {A} (a : A) : always R (mret a).
Proof. intros s. cbn. reflexivity. Qed.

Lemma always_lift {A} (m : vresult A) : always R (lift m).
Proof. intros s. cbn. reflexivity. Qed.

Lemma always_fails {A} e : always R (fails (A := A) e).
Proof. intros s. cbn. reflexivity. Qed.

Lemma always_gets {A} (f : vault -> A) : always R (gets f).
Proof. intros s. cbn. reflexivity. Qed.

Lemma always_bind {A B} (m : V A) (k : A -> V B) :
  always R m -> (forall a, always R (k a)) -> always R (mbind m k).
Proof.
  intros Hm Hk s. unfold mbind. specialize (Hm s). destruct (m s) as [[a|e|] s']; [|exact Hm|exact Hm].
  transitivity s'; [exact Hm|apply Hk].
Qed.

Lemma always_modify f : (forall s, R s (f s)) -> always R (modify f).
Proof. intros Hf s. apply Hf. Qed.

Lemma always_drawing {A} (d : rng -> vresult (A * rng)) :
  (forall s g, R s (set_gen g s)) -> always R (drawing d).
Proof. intros Hg s. unfold drawing. destruct (d (gen s)) as [[a g]|e|]; cbn; [apply Hg|reflexivity..]. Qed.

Lemma always_sys {A} fault e (f : vault -> vresult (A * vault)) :
  (forall s, R s (bump s)) -> (forall s a s', f s = Ok (a, s') -> R s s') -> always R (sys fault e f).
Proof.
  intros Hb Hf s. unfold sys. destruct (fault (ios s)); [apply Hb|].
  destruct (f (bump s)) as [[a s']|x|] eqn:He; cbn; [|apply Hb..].
  transitivity (bump s); [apply Hb|by eapply Hf].
Qed.

Lemma always_on_file {A} fault e h (fn : file -> vresult (A * file)) :
  (forall s, R s (bump s)) ->
  (forall s f a f', held h s = Some f -> fn f = Ok (a, f') -> R s (set_held h f' s)) ->
  always R (sys fault e (on_file h fn)).
Proof.
  intros Hb Hf. apply always_sys; [done|]. intros s a s'. unfold on_file.
  destruct (held h s) as [f|] eqn:Hh; [|done]. destruct (fn f) as [[x f']|?|] eqn:Hfn; cbn; [|done..].
  intros [= -> <-]. by eapply Hf.
Qed.

Lemma always_write fault h b :
  (forall s, R s (bump s)) -> (forall s f f', held h s = Some f -> R s (set_held h f' s)) ->
  always R (write_all fault h b).
Proof.
  intros Hb Hf s. unfold write_all.
  pose proof (always_on_file fault "write" h (fun f => Ok (tt, f_write b f)) Hb) as Hs.
  assert (Hw : R s (snd (sys fault "write" (on_file h (fun f => Ok (tt, f_write b f))) s))).
  { apply Hs. intros. by eapply Hf. }
  destruct (fault (ios s)); [|exact Hw]. destruct (held h s) as [f|] eqn:Hh; [|exact Hw].
  cbn. transitivity (bump s); [apply Hb|]. apply (Hf _ f). by destruct h.
Qed.

Lemma always_attempt {A} (m : V A) : always R m -> always R (attempt m).
Proof. intros Hm s. specialize (Hm s). unfold attempt. by destruct (m s) as [[a|e|] s']. Qed.
End always.

(** ** Faults only stop a run *)

(** The run is the one without faults, or it ends in an error. *)
Definition stopped {A} (r r' : vresult A * vault) : Prop := r = r' \/ exists e s, r = (Err e, s).

Definition faulty {A} (m : (nat -> option Z) -> V A) : Prop :=
  forall fault s, stopped (m fault s) (m (fun _ => None) s).

Lemma faulty_const {A} (m : V A) : faulty (fun _ => m).
Proof. intros fault s. by left. Qed.

Lemma faulty_bind {A B} (m : (nat -> option Z) -> V A) (k : (nat -> option Z) -> A -> V B) :
  faulty m -> (forall a, faulty (fun fault => k fault a)) -> faulty (fun fault => mbind (m fault) (k fault)).
Proof.
  intros Hm Hk fault s. unfold mbind. destruct (Hm fault s) as [->|(e & s' & ->)]; [|right; by exists e, s'].
  destruct (m (fun _ => None) s) as [[a|e|] s']; [apply Hk|by left..].
Qed.

Lemma faulty_sys {A} e (f : vault -> vresult (A * vault)) : faulty (fun fault => sys fault e f).
Proof. intros fault s. unfold sys. destruct (fault (ios s)); [right; by eexists _, _|by left]. Qed.

Lemma faulty_write h b : faulty (fun fault => write_all fault h b).
Proof.
  intros fault s. unfold write_all. destruct (fault (ios s)) eqn:Hf.
  - destruct (held h s); [right; by eexists _, _|]. apply (faulty_sys "write").
  - apply (faulty_sys "write").
Qed.

Create HintDb runs.
#[export] Hint Resolve always_ret always_lift always_fails always_gets always_attempt : runs.
#[export] Hint Resolve faulty_const faulty_sys faulty_write : runs.

(** A run that fails has only done what [R] allows. *)
Definition failing (R : vault -> vault -> Prop) {A} (m : V A) : Prop :=
  forall s, match m s with (Ok _, _) => True | (_, s') => R s s' end.

Lemma failing_bind (R : vault -> vault -> Prop) `{!PreOrder R} {A B} (m : V A) (k : A -> V B) :
  always R m -> (forall a, failing R (k a)) -> failing R (mbind m k).
Proof.
  intros Hm Hk s. unfold mbind. specialize (Hm s). destruct (m s) as [[a|e|] s']; [|exact Hm|exact Hm].
  specialize (Hk a s'). cbn in Hm. destruct (k a s') as [[b|e|] s'']; [done|by transitivity s'..].
Qed.

Lemma failing_sys (R : vault -> vault -> Prop) {A B} fault e (f : vault -> vresult (A * vault)) (b : B) :
  (forall s, R s (bump s)) -> failing R (let! _ := sys fault e f in mret b).
Proof.
  intros Hb s. unfold mbind, sys. destruct (fault (ios s)); [apply Hb|].
  destruct (f (bump s)) as [[a s']|x|]; [done|apply Hb..].
Qed.

Section safety.
Context `{PasswordHash} `{Aead} `{Sha256} `{Bincode} `{FastCdc}.

(** ** Vacuum *)

(** The vault's bytes, the other files and the payload offset stay. *)
Definition vault_kept (s s' : vault) : Prop :=
  content (phys s') = content (phys s) /\ fs s' = fs s /\ payload s' = payload s.

(** And the path still names the open file. *)
Definition path_kept (s s' : vault) : Prop := vault_kept s s' /\ at_path s' = at_path s.

#[export] Instance vault_kept_preorder : PreOrder vault_kept.
Proof. split; [by intros s|]. intros s1 s2 s3 (? & ? & ?) (? & ? & ?). split_and!; congruence. Qed.
#[export] Instance path_kept_preorder : PreOrder path_kept.
Proof.
  split; [by intros s|]. intros s1 s2 s3 (? & ?) (? & ?). split; [by transitivity s2|congruence].
Qed.

(** What [vacuum] does to the open file and to the temporary one keeps both. *)
Lemma path_kept_read {A} fault e (fn : file -> vresult (A * file)) :
  (forall f a f', fn f = Ok (a, f') -> content f' = content f) ->
  always path_kept (sys fault e (on_file Vault fn)).
Proof. intros Hc. apply always_on_file; [apply _|done|]. intros s f a f' [= <-] Hfn.
  split; [|done]. split_and!; [by eapply Hc|done|done].
Qed.

Lemma path_kept_temp {A} fault e (fn : file -> vresult (A * file)) :
  always path_kept (sys fault e (on_file Temp fn)).
Proof. by apply always_on_file; [apply _|..]. Qed.

Lemma path_kept_write fault b : always path_kept (write_all fault Temp b).
Proof. by apply always_write; [apply _|..]. Qed.

Lemma f_read_exact_content n f b f' : f_read_exact n f = Some (b, f') -> content f' = content f.
Proof. unfold f_read_exact. destruct (slice _ _ _); [|done]. by intros [= _ <-]. Qed.

Lemma path_kept_seek fault p : always path_kept (seek fault Vault p).
Proof. apply path_kept_read. by intros f a f' [= _ <-]. Qed.

Lemma path_kept_read_exact fault n : always path_kept (read_exact fault Vault n).
Proof. apply path_kept_read. intros f a f' Hf. apply ok_or_Ok in Hf. by eapply f_read_exact_content. Qed.

Lemma path_kept_drawing {A} (d : rng -> vresult (A * rng)) : always path_kept (drawing d).
Proof. by apply always_drawing; [apply _|]. Qed.

Lemma path_kept_modify_meta f : always path_kept (modify (fun s => set_meta (f s) s)).
Proof. by apply always_modify. Qed.

#[local] Hint Resolve path_kept_temp path_kept_write path_kept_seek path_kept_read_exact
  path_kept_drawing path_kept_modify_meta : runs.

Lemma path_kept_save fault m u off : always path_kept (save_vault_metadata fault Temp m u off).
Proof.
  unfold save_vault_metadata, seek, stream_position, set_len, sync.
  repeat (apply always_bind; [apply _|auto with runs|intros ?]). auto with runs.
Qed.

Lemma path_kept_vacuum_chunks fault put moved rest off :
  (forall cs, always path_kept (put cs)) -> always path_kept (vacuum_chunks fault put moved rest off).
Proof.
  intros Hput. revert moved off. induction rest as [|c rest IH]; intros moved off; cbn [vacuum_chunks];
    [apply always_ret; apply _|]. unfold seek at 2.
  repeat (apply always_bind; [apply _|auto with runs|intros ?]). apply IH.
Qed.

Lemma path_kept_vacuum_files fault moved rest off : always path_kept (vacuum_files fault moved rest off).
Proof.
  revert moved off. induction rest as [|f rest IH]; intros moved off; cbn [vacuum_files];
    [apply always_ret; apply _|].
  apply always_bind; [apply _|apply path_kept_vacuum_chunks; auto with runs|]. intros [cs off']. apply IH.
Qed.

Lemma vacuum_failing fault u : failing path_kept (handle_vacuum fault u).
Proof.
  unfold handle_vacuum.
  apply failing_bind; [apply _| |intros _].
  { apply always_sys; [apply _|done|]. intros s a s'. destruct (tmp s); [done|]. by intros [= _ <-]. }
  apply failing_bind; [apply _|auto with runs|intros _].
  apply failing_bind; [apply _|auto with runs|intros _].
  apply failing_bind; [apply _|auto with runs|intros ?].
  apply failing_bind; [apply _|auto with runs|intros _].
  apply failing_bind; [apply _|apply always_gets; apply _|intros ?].
  apply failing_bind; [apply _|apply path_kept_vacuum_files|intros ?].
  apply failing_bind; [apply _|apply always_gets; apply _|intros ?].
  apply failing_bind; [apply _|apply path_kept_save|intros ?].
  apply failing_bind; [apply _|unfold sync; auto with runs|intros ?].
  by apply failing_sys.
Qed.

Lemma faulty_vacuum_chunks put moved rest off :
  faulty (fun fault => vacuum_chunks fault put moved rest off).
Proof.
  revert moved off. induction rest as [|c rest IH]; intros moved off; cbn [vacuum_chunks];
    [auto with runs|]. unfold seek, read_exact.
  repeat (apply faulty_bind; [auto with runs|intros ?]). apply IH.
Qed.

Lemma faulty_vacuum_files moved rest off : faulty (fun fault => vacuum_files fault moved rest off).
Proof.
  revert moved off. induction rest as [|f rest IH]; intros moved off; cbn [vacuum_files];
    [auto with runs|].
  apply faulty_bind; [apply faulty_vacuum_chunks|]. intros [cs off']. apply IH.
Qed.

Lemma faulty_save h m u off : faulty (fun fault => save_vault_metadata fault h m u off).
Proof.
  unfold save_vault_metadata, seek, stream_position, set_len, sync.
  repeat (apply faulty_bind; [auto with runs|intros ?]). auto with runs.
Qed.

Lemma faulty_vacuum u : faulty (fun fault => handle_vacuum fault u).
Proof.
  unfold handle_vacuum, seek, read_exact, sync.
  repeat (apply faulty_bind; [auto using faulty_vacuum_files, faulty_save with runs|intros ?]).
  auto with runs.
Qed.

Context `{!AeadLaws _} `{!Sha256Laws _} `{!BincodeLaws _}.

(** The bytes at the vault's path. *)
Definition stored_at_path (s : vault) : bytes := default (content (phys s)) (at_path s).

(** C4: [vacuum] is atomic and never loses a file: whatever operations of the
    system fail, and however far the failing write got, it does not panic, the open
    vault's bytes are untouched, and the file at the vault's path opens under the
    password to the same files.  If it fails, the path still names the old file; if
    it succeeds, the new one, whose metadata is the one in memory and begins where
    the chunks, copied one after another, end. *)
Theorem vacuum_atomic fault password u L s :
  vault_ok password u L s ->
  let (r, s') := handle_vacuum fault u s in
  content (phys s') = content (phys s) /\ fs s' = fs s /\
  (exists m off, file_ok password u L m off (stored_at_path s')) /\
  match r with
  | Ok off => off = VAULT_HEADER_SIZE + total (all_chunks (file_table (meta s))) /\
              file_ok password u L (meta s') off (stored_at_path s')
  | Err _ => stored_at_path s' = content (phys s)
  | Panic => False
  end.
Proof.
  intros Hv. pose proof Hv as (Hok & _ & Hat & _).
  destruct (vacuum_runs (fun _ => None) ltac:(done) password u L s (fun off s' =>
    content (phys s') = content (phys s) /\ fs s' = fs s /\
    off = VAULT_HEADER_SIZE + total (all_chunks (file_table (meta s))) /\
    file_ok password u L (meta s') off (stored_at_path s')) Hv) as (off & s' & Hrun & Hc & Hfs & Hoff & Hok').
  { intros s' c Ha _ Hc _ Hfs _ Hf. unfold stored_at_path. by rewrite Ha. }
  destruct (faulty_vacuum u fault s) as [Heq|(e & s'' & Heq)].
  - rewrite Heq, Hrun. split_and!; try done. by exists (meta s'), off.
  - pose proof (vacuum_failing fault u s) as Hf. rewrite Heq in *. destruct Hf as ((Hc' & Hfs' & _) & Hat').
    assert (Hst : stored_at_path s'' = content (phys s)) by (unfold stored_at_path; by rewrite Hat', Hat).
    split_and!; try done. exists (meta s), (payload s). by rewrite Hst.
Qed.

(** A temporary file left behind makes every later [vacuum] fail. *)
Lemma vacuum_blocked fault u s f :
  tmp s = Some f -> fault (ios s) = None ->
  handle_vacuum fault u s = (Err (VMsg "Failed to create vacuum temp file"), bump s).
Proof. intros Ht Hf. unfold handle_vacuum, mbind, sys. rewrite Hf. cbn. by rewrite Ht. Qed.

(** ** Reading *)

(** Everything but the cursor of the vault, the generator and the counter. *)
Definition only_read (s s' : vault) : Prop :=
  content (phys s') = content (phys s) /\ tmp s' = tmp s /\ at_path s' = at_path s /\
  meta s' = meta s /\ payload s' = payload s /\ gen s' = gen s.

Definition writes_only (target : path) (s s' : vault) : Prop :=
  only_read s s' /\ forall p, p <> target -> fs s' !! p = fs s !! p.

#[export] Instance only_read_preorder : PreOrder only_read.
Proof. split; [by intros s|]. intros s1 s2 s3 (?&?&?&?&?&?) (?&?&?&?&?&?). split_and!; congruence. Qed.
#[export] Instance writes_only_preorder target : PreOrder (writes_only target).
Proof.
  split; [by intros s|]. intros s1 s2 s3 (? & F1) (? & F2). split; [by transitivity s2|].
  intros p Hp. by rewrite F2, F1.
Qed.

Lemma file_name_plain s safe : file_name s = Some safe -> safe <> lit "." /\ safe <> lit ".." /\ safe <> lit "/".
Proof.
  unfold file_name. destruct (list.last (components s)) as [c|]; [|done]. case_bool_decide as Hc; [done|].
  intros [= <-]. tauto.
Qed.

Lemma writes_only_read {A} target fault e (fn : file -> vresult (A * file)) :
  (forall f a f', fn f = Ok (a, f') -> content f' = content f) ->
  always (writes_only target) (sys fault e (on_file Vault fn)).
Proof.
  intros Hc. apply always_on_file; [apply _|done|]. intros s f a f' [= <-] Hfn.
  split; [|done]. split_and!; try done. by eapply Hc.
Qed.

Lemma writes_only_target {A} target fault e (fn : file -> vresult (A * file)) :
  always (writes_only target) (sys fault e (on_file (Other target) fn)).
Proof.
  apply always_on_file; [apply _|done|]. intros s f a f' _ _. split; [done|]. intros p Hp. cbn.
  by rewrite lookup_insert_ne.
Qed.

Lemma writes_only_write target fault b : always (writes_only target) (write_all fault (Other target) b).
Proof.
  apply always_write; [apply _|done|]. intros s f f' _. split; [done|]. intros p Hp. cbn.
  by rewrite lookup_insert_ne.
Qed.

#[local] Hint Resolve writes_only_target writes_only_write : runs.

Lemma writes_only_open_chunk target fault u c : always (writes_only target) (open_chunk fault u c).
Proof.
  unfold open_chunk, seek, read_exact, mlock.
  apply always_bind; [apply _| |intros _].
  { apply writes_only_read. by intros f x f' [= _ <-]. }
  apply always_bind; [apply _| |intros ?].
  { apply writes_only_read. intros f x f' Hf. apply ok_or_Ok in Hf. by eapply f_read_exact_content. }
  apply always_bind; [apply _|apply always_lift; apply _|intros ?].
  apply always_bind; [apply _| |intros ?; apply always_lift; apply _].
  apply always_sys; [apply _|done|]. by intros s x s' [= _ <-].
Qed.

#[local] Hint Resolve writes_only_open_chunk : runs.

Lemma writes_only_export_to target fault u cs : always (writes_only target) (export_to fault u target cs).
Proof.
  induction cs as [|c cs IH]; cbn [export_to]; [apply always_ret; apply _|].
  repeat (apply always_bind; [apply _|auto with runs|intros ?]). apply IH.
Qed.

Lemma writes_only_export_loop target fault u cs output :
  always (writes_only target) (export_loop fault u cs output).
Proof.
  revert output. induction cs as [|c cs IH]; intros output; cbn [export_loop]; [apply always_ret; apply _|].
  apply always_bind; [apply _|auto with runs|intros ?]. apply IH.
Qed.

(** What an export onto the vault's own file may do: empty it and write into it. *)
Definition on_itself_only (s s' : vault) : Prop :=
  meta s' = meta s /\ payload s' = payload s /\ tmp s' = tmp s /\ fs s' = fs s.
#[export] Instance on_itself_only_preorder : PreOrder on_itself_only.
Proof. split; [by intros s|]. intros s1 s2 s3 (?&?&?&?) (?&?&?&?). split_and!; congruence. Qed.

Lemma on_itself_touches f s : on_itself_only s (on_itself f s).
Proof. unfold on_itself. by destruct (at_path s). Qed.

Lemma writes_only_touches target s s' : writes_only target s s' -> fs s' = fs s -> on_itself_only s s'.
Proof. intros ((? & ? & ? & ? & ? & ?) & _) ?. by split_and!. Qed.

(** The names a path can have, one of them not [target]. *)
Lemma writes_only_all {A} (m : V A) : (forall target, always (writes_only target) m) -> always on_itself_only m.
Proof.
  intros Hm s. apply (writes_only_touches []); [apply Hm|]. apply map_eq. intros p.
  apply (Hm (p ++ [lit ""])). intros He. apply (f_equal length) in He. rewrite length_app in He. cbn in He. lia.
Qed.

Lemma export_over_touches fault u cs : always on_itself_only (export_over fault u cs).
Proof.
  induction cs as [|c cs IH]; cbn [export_over]; [apply always_ret; apply _|].
  apply always_bind; [apply _|apply writes_only_all; auto with runs|intros content].
  apply always_bind; [apply _| |intros _; apply IH].
  apply always_sys; [apply _|done|]. intros s x s1 [= _ <-]. apply on_itself_touches.
Qed.

(** What an export changes, by what is behind the staged name. *)
Definition exports_to (behind : option path) (s s' : vault) : Prop :=
  match behind with Some p => writes_only p s s' | None => on_itself_only s s' end.
#[export] Instance exports_to_preorder behind : PreOrder (exports_to behind).
Proof. destruct behind; apply _. Qed.

Lemma export_exports fault w u name to_disk force dir safe :
  staging_dir_str w = Some dir -> file_name to_disk = Some safe ->
  always (exports_to (follows w (components dir ++ [safe]))) (handle_export fault w u name to_disk force).
Proof.
  intros Hdir Hsafe. unfold handle_export. rewrite Hdir, Hsafe. set (behind := follows w _).
  apply always_bind; [apply _|apply always_gets; apply _|intros present].
  destruct (_ && _); [apply always_fails; apply _|].
  apply always_bind; [apply _|apply always_gets; apply _|intros m].
  destruct (find_file name m); [|apply always_fails; apply _]. destruct behind as [p|]; unfold exports_to.
  - destruct (_ && _); [apply always_fails; apply _|]. apply always_bind; [apply _| |intros _].
    { apply always_sys; [apply _|done|]. intros s x s' [= _ <-]. split; [done|]. intros q Hq. cbn.
      by rewrite lookup_insert_ne. }
    apply always_bind; [apply _|apply writes_only_export_to|intros _]. unfold sync. auto with runs.
  - apply always_bind; [apply _| |intros _].
    { apply always_sys; [apply _|done|]. intros s x s1 [= _ <-]. apply on_itself_touches. }
    apply always_bind; [apply _|apply export_over_touches|intros _].
    apply writes_only_all. intros target. unfold sync. apply writes_only_read. by intros fl x fl' [= _ <-].
Qed.

(** Without leave to overwrite, what is behind the name was free, and is the name
    itself. *)
Lemma export_fresh fault w u name to_disk dir safe s :
  staging_dir_str w = Some dir -> file_name to_disk = Some safe ->
  let target := components dir ++ [safe] in
  snd (handle_export fault w u name to_disk false s) = s \/ follows w target = Some target /\ fs s !! target = None.
Proof.
  intros Hdir Hsafe. cbv zeta. unfold handle_export. rewrite Hdir, Hsafe. unfold mbind at 1, gets.
  destruct (follows w _) as [p|] eqn:Hf; [|by left]. destruct (fs s !! p) as [f|] eqn:Hp.
  { left. by rewrite bool_decide_eq_true_2 by done. }
  rewrite bool_decide_eq_false_2 by (by intros [? ?]). cbn [andb]. unfold mbind at 1.
  destruct (find_file name (meta s)); [|by left]. destruct (decide (p = components dir ++ [safe])) as [->|Hne]; [by right|].
  left. by rewrite bool_decide_eq_true_2.
Qed.

(** C17: What an export changes, whatever fails and whatever name the caller gives.  The
    metadata and the vault's temporary file stay.  Only the file behind one name can
    change, the name being a direct child of the staging directory, whose last component
    is the target's file name and never [.] or [..].  Without leave to overwrite that is
    a new file of this very name, and the vault's bytes stay.  With leave a link at that
    name is followed: the file it leads to is overwritten, and if that is the vault, the
    vault's own bytes are; in every other case they stay.  Reading a file into memory
    changes nothing. *)
Theorem export_confined fault w u name to_disk force s :
  let s' := snd (handle_export fault w u name to_disk force s) in
  (meta s' = meta s /\ payload s' = payload s /\ tmp s' = tmp s) /\
  (forall p, fs s' !! p <> fs s !! p ->
     exists dir safe, staging_dir_str w = Some dir /\ file_name to_disk = Some safe /\
       safe <> lit "." /\ safe <> lit ".." /\ safe <> lit "/" /\ follows w (components dir ++ [safe]) = Some p /\
       (force = false -> p = components dir ++ [safe] /\ fs s !! p = None)) /\
  (~ only_read s s' ->
     force = true /\ fs s' = fs s /\
     exists dir safe, staging_dir_str w = Some dir /\ file_name to_disk = Some safe /\ follows w (components dir ++ [safe]) = None) /\
  only_read s (snd (decrypt_to_bytes fault u name s)) /\ fs (snd (decrypt_to_bytes fault u name s)) = fs s.
Proof.
  assert (Hd : forall target, writes_only target s (snd (decrypt_to_bytes fault u name s))).
  { intros target. unfold decrypt_to_bytes. revert s. apply always_bind; [apply _|apply always_gets; apply _|].
    intros m. destruct (find_file name m); [apply writes_only_export_loop|apply always_fails; apply _]. }
  assert (Hmem : only_read s (snd (decrypt_to_bytes fault u name s)) /\ fs (snd (decrypt_to_bytes fault u name s)) = fs s).
  { split; [apply (Hd [])|]. apply map_eq. intros p. apply (Hd (p ++ [lit ""])). intros He. apply (f_equal length) in He.
    rewrite length_app in He. cbn in He. lia. }
  cbv zeta. destruct (staging_dir_str w) as [dir|] eqn:Hdir; [|unfold handle_export; rewrite Hdir; split_and!; [done..|by intros p Hp|by intros Hr|apply Hmem|apply Hmem]].
  destruct (file_name to_disk) as [safe|] eqn:Hsafe; [|unfold handle_export; rewrite Hdir, Hsafe; split_and!; [done..|by intros p Hp|by intros Hr|apply Hmem|apply Hmem]].
  pose proof (export_exports fault w u name to_disk force dir safe Hdir Hsafe s) as He.
  pose proof (export_fresh fault w u name to_disk dir safe s Hdir Hsafe) as Hfresh. cbv zeta in Hfresh.
  pose proof (file_name_plain to_disk safe Hsafe) as (Hs1 & Hs2 & Hs3).
  destruct (follows w (components dir ++ [safe])) as [p|] eqn:Hf; cbn [exports_to] in He.
  - destruct He as [Hr Hp]. pose proof Hr as (? & ? & ? & ? & ? & ?). split_and!; [done..| |done|apply Hmem|apply Hmem].
    intros q Hq. destruct (decide (q = p)) as [->|Hn]; [|by rewrite Hp in Hq].
    exists dir, safe. split_and!; [done..|]. intros ->. destruct Hfresh as [Hs|[[= ->] Hn]]; [by rewrite Hs in Hq|done].
  - destruct He as (? & ? & ? & Hfs). split_and!; [done..|by rewrite Hfs|intros Hr|apply Hmem|apply Hmem].
    split; [|split; [done|by exists dir, safe]]. destruct force; [done|]. destruct Hfresh as [Hs|[? _]]; [|done].
    exfalso. apply Hr. by rewrite Hs.
Qed.

(** ** Removing *)

(** Every byte the file's chunks took in the vault is zero. *)
Definition shredded (f : FileIndex) (s : vault) : Prop := Forall (zeroed (content (phys s))) (chunks f).

(** C22: removing a file overwrites it: afterwards every byte its chunks took in the
    vault is zero, the file on disk opens to the other files, nothing else on the
    disk changes, and its name is free; an unknown name is refused and nothing is
    touched. *)
Theorem rm_shreds password u L s name :
  vault_ok password u L s ->
  ((name ∈ map fst L) -> exists f s', find_file name (meta s) = Some f /\
     handle_rm (fun _ => None) u name s = (Ok tt, s') /\
     shredded f s' /\
     file_ok password u (remove_file name L) (meta s') (payload s') (content (phys s')) /\
     (name ∉ map fst (remove_file name L)) /\ fs s' = fs s) /\
  ((name ∉ map fst L) ->
     handle_rm (fun _ => None) u name s = (Err (VMsg "File not found in metadata"), s)).
Proof.
  intros Hv. split.
  - intros Hin.
    assert (Hhas : has_name name (meta s) = true).
    { rewrite (vault_ok_has_name _ _ _ _ name Hv). by apply bool_decide_eq_true. }
    assert (Hf : exists f, find_file name (meta s) = Some f).
    { unfold has_name, find_file in *. induction (file_table (meta s)) as [|f t IH]; [done|].
      cbn [existsb List.find] in *. destruct (bool_decide (vfs_name f = name)); [by exists f|by apply IH]. }
    destruct Hf as (f & Hf).
    destruct (rm_runs (fun _ => None) ltac:(done) password u L s name (fun _ s' =>
      vault_ok password u (remove_file name L) s' /\ fs s' = fs s /\
      shredded f s') Hv Hin) as ([] & s' & Hrun & (Hok & _) & Hfs & Hz).
    { intros s' Hv' Hfs Hz _. split_and!; [done|done|by apply Hz]. }
    exists f, s'. split_and!; try done. unfold remove_file.
    intros ([n d] & Hn & Hd%list_elem_of_In)%list_elem_of_fmap. cbn in Hn. subst n.
    apply List.filter_In in Hd as [_ Hd]. cbn in Hd. by rewrite bool_decide_true in Hd.
  - intros Hn. apply rm_absent. by eapply position_absent.
Qed.
End safety.

(** ** Examples *)

Import Toy ToyPw ToyVault.

Section examples.
(** One operation fails, [k] bytes in. *)
Definition fault_at (n : nat) (k : Z) : nat -> option Z := fun i => if decide (i = n) then Some k else None.
End examples.

Lemma vacuum_atomic_witness :
  let (r, s') := handle_vacuum (fault_at 70 3) toy_unlocked toy_vault in
  content (phys s') = content (phys toy_vault) /\ fs s' = fs toy_vault /\
  (exists m off, file_ok (lit "pw") toy_unlocked toy_files m off (stored_at_path s')) /\
  match r with
  | Ok off => off = VAULT_HEADER_SIZE + total (all_chunks (file_table (meta toy_vault))) /\
              file_ok (lit "pw") toy_unlocked toy_files (meta s') off (stored_at_path s')
  | Err _ => stored_at_path s' = content (phys toy_vault)
  | Panic => False
  end.
Proof. exact (vacuum_atomic (fault_at 70 3) (lit "pw") toy_unlocked toy_files toy_vault toy_vault_ok). Defined.

Lemma export_confined_witness :
  let s' := snd (handle_export (fun _ => None) demo_machine toy_unlocked (lit "a") (lit "../../etc/passwd") false toy_vault) in
  content <$> fs s' !! (demo_staging ++ [lit "passwd"]) = Some (lit "first") /\
  (forall p, fs s' !! p <> fs toy_vault !! p -> p = demo_staging ++ [lit "passwd"]).
Proof.
  destruct (export_confined (fun _ => None) demo_machine toy_unlocked (lit "a") (lit "../../etc/passwd") false toy_vault)
    as (_ & Hf & _). split; [vm_compute; reflexivity|].
  intros p Hp. destruct (Hf p Hp) as (dir & safe & Hd & Hs & _ & _ & _ & _ & Hx). destruct (Hx eq_refl) as [-> _].
  injection Hd as <-. vm_compute in Hs. injection Hs as <-. vm_compute. reflexivity.
Defined.

(** The vault's file lies in the staging folder, and its own name is exported to with
    leave to overwrite: the vault is emptied, and only then the first chunk is looked
    for. *)
Definition vault_in_staging : machine := {|
  xdg_runtime_dir := xdg_runtime_dir demo_machine; home_dir := None; canonicalize := canonicalize demo_machine;
  follows := fun p => if bool_decide (p = demo_staging ++ [lit "v.aegis"]) then None else Some p;
  temp_allowed := true; unix_clock := unix_clock demo_machine |}.
Example export_over_itself :
  let (r, s') := handle_export (fun _ => None) vault_in_staging toy_unlocked (lit "a") (lit "v.aegis") true toy_vault in
  (is_ok r, content (phys s')) = (false, []).
Proof. by vm_compute. Qed.

Lemma rm_shreds_witness :
  (exists f s', find_file (lit "a") (meta toy_vault) = Some f /\
     handle_rm (fun _ => None) toy_unlocked (lit "a") toy_vault = (Ok tt, s') /\
     shredded f s' /\
     file_ok (lit "pw") toy_unlocked [(lit "b", lit "second")] (meta s') (payload s') (content (phys s')) /\
     (lit "a" ∉ map fst [(lit "b", lit "second")]) /\ fs s' = fs toy_vault) /\
  handle_rm (fun _ => None) toy_unlocked (lit "z") toy_vault
    = (Err (VMsg "File not found in metadata"), toy_vault).
Proof.
  destruct (rm_shreds (lit "pw") toy_unlocked toy_files toy_vault (lit "a") toy_vault_ok) as [Ha _].
  destruct (rm_shreds (lit "pw") toy_unlocked toy_files toy_vault (lit "z") toy_vault_ok) as [_ Hz].
  split.
  - apply Ha. left.
  - apply Hz. intros [?|[?|?%elem_of_nil]%elem_of_cons]%elem_of_cons; done.
Defined.

(** An import interrupted while it writes its first chunk has overwritten the only
    copy of the metadata: the vault no longer opens, and its two files are lost. *)
Lemma interrupted_import_loses_vault :
  let (r, s') := handle_import_from_bytes (fault_at (ios toy_vault + 3) 5) demo_machine toy_unlocked
                   (lit "third") (lit "c") toy_vault in
  is_ok r = false /\ is_ok (fst (load_vault_metadata (fun _ => None) (lit "pw") s')) = false.
Proof. vm_compute. by split. Qed.

(** A [vacuum] that fails has moved the chunks of the metadata in memory: the file
    that opened before it no longer opens in the session. *)
Lemma failed_vacuum_breaks_session :
  let s := snd (handle_rm (fun _ => None) toy_unlocked (lit "a") toy_vault) in
  let (r, s') := handle_vacuum (fault_at (ios s + 12) 0) toy_unlocked s in
  fst (decrypt_to_bytes (fun _ => None) toy_unlocked (lit "b") s) = Ok (lit "second") /\
  is_ok r = false /\
  is_ok (fst (decrypt_to_bytes (fun _ => None) toy_unlocked (lit "b") s')) = false.
Proof. vm_compute. by split_and!. Qed.
