(* ===== verification/Sandbox.v ===== *)
(** * Landlock sandboxes

    [atom/src/sandbox.rs] ([apply_process_sandbox], [apply_gui_vault_sandbox]), the
    ruleset of [atom/src/commands/enter.rs], and the file broker's reads and writes in
    [atom/src/gui/broker.rs]. *)

From Stdlib Require Import Strings.Byte.
From stdpp Require Import strings gmap.
From S2P Require Import Prelude Text Primitives StateM Disk VaultCrypto Vfs Storage VaultOps.

(** ** Rights

    The file-system access rights of Landlock up to ABI 5 ([AccessFs]). *)
Inductive right :=
| Execute | WriteFile | ReadFile | ReadDir | RemoveDir | RemoveFile | MakeChar | MakeDir | MakeReg
| MakeSock | MakeFifo | MakeBlock | MakeSym | Refer | Truncate | IoctlDev.

#[export] Instance right_eq_dec : EqDecision right.
Proof. solve_decision. Defined.

(** [AccessFs::from_all(V5)], [AccessFs::from_file(V5)], as the crate documents them. *)
Definition from_all : list right :=
  [Execute; WriteFile; ReadFile; ReadDir; RemoveDir; RemoveFile; MakeChar; MakeDir; MakeReg;
   MakeSock; MakeFifo; MakeBlock; MakeSym; Refer; Truncate; IoctlDev].
Definition from_file : list right := [Execute; WriteFile; ReadFile; Truncate; IoctlDev].

(** ** The system

    Names are lists of components.  [resolve] follows a name to the object it stands
    for, known by its canonical name; the kernel may not support the ruleset, refuse a
    rule, or restrict the thread only in part (leaving whatever domain it does). *)
Inductive kind := Directory | Regular.
#[export] Instance kind_eq_dec : EqDecision kind.
Proof. solve_decision. Defined.

Inductive enforcement := FullyEnforced | NotFully (left_ : option (list (path * list right))).

Record Host := {
  resolve : path -> option path;
  kind_of : path -> option kind;
  opens : path -> bool;
  handles : bool;
  audit : bool;
  takes_audit : bool;
  takes_rule : path -> list right -> bool;
  restricts : option enforcement;
  home : option path;
  variable : str -> option str;
}.

Abbreviation domain := (list (path * list right)).
(** The domains a thread is in. *)
Abbreviation thread := (list domain).

Definition metadata (h : Host) (p : path) : option kind := c ← resolve h p; kind_of h c.
(** [PathFd::new]. *)
Definition path_fd (h : Host) (p : path) : option path :=
  c ← resolve h p; if opens h c then Some c else None.
(** [Path::exists]. *)
Definition exists_ (h : Host) (p : path) : bool := bool_decide (is_Some (metadata h p)).

(** [Path::parent]. *)
Definition parent (p : path) : option path :=
  match list.last p with
  | None => None
  | Some c => if bool_decide (c = lit "/") then None else Some (removelast p)
  end.

(** What Landlock grants: every domain of the thread has a rule for the object or a
    directory above it with that right. *)
Definition rule_grants (p : path) (a : right) (r : path * list right) : bool :=
  path_starts_with p r.1 && bool_decide (a ∈ r.2).
Definition allowed (t : thread) (p : path) (a : right) : bool :=
  forallb (fun d => existsb (rule_grants p a) d) t.

(** ** [apply_process_sandbox] *)

Definition dir_rw : list right := from_all.
Definition file_rw : list right := from_file.
Definition dir_ro : list right := [ReadFile; ReadDir; Execute].
Definition file_ro : list right := [ReadFile; Execute].

(** The loop over the paths of one kind: missing ones are skipped. *)
Fixpoint add_rules (h : Host) (dir file : list right) (ps : list path) (rules : domain) : outcome string domain :=
  match ps with
  | [] => Ok rules
  | p :: ps =>
      match metadata h p with
      | None => add_rules h dir file ps rules
      | Some k =>
          let rights := match k with Directory => dir | Regular => file end in
          match path_fd h p with
          | None => add_rules h dir file ps rules
          | Some c =>
              if takes_rule h c rights then add_rules h dir file ps (rules ++ [(c, rights)])
              else Err "add_rule"%string
          end
      end
  end.

Definition apply_process_sandbox (h : Host) (read_only read_write : list path) : M string thread unit :=
  if negb (handles h) then fails "handle_access"%string else
  if audit h && negb (takes_audit h) then fails "log_new_exec"%string else
  let! rules := lift (add_rules h dir_ro file_ro read_only []) in
  let! rules := lift (add_rules h dir_rw file_rw read_write rules) in
  match restricts h with
  | None => fails "restrict_self"%string
  | Some FullyEnforced => modify (cons rules)
  | Some (NotFully left_) =>
      let! _ := modify (fun t => option_list left_ ++ t) in
      fails "Landlock could not be fully enforced; refusing to continue"%string
  end.

(** ** Its callers *)

Definition xdg_runtime (h : Host) : str := default (lit "/run/user/1000") (variable h (lit "XDG_RUNTIME_DIR")).

(** [apply_gui_vault_sandbox]: the data directory has been made before; a failure is
    [std::process::exit(1)]. *)
Definition gui_read_only : list path := map components [lit "/usr"; lit "/etc"; lit "/sys"; lit "/proc"].

Definition atom_data_dir (h : Host) : path :=
  from_option (fun d => d ++ [lit ".atom_vault"]) (components (lit "/tmp/.atom_vault_fallback")) (home h).

(** The target of a rule for a file that may have to be made: the file, or the
    directory it will be in. *)
Definition effective_path (h : Host) (p : path) : path := if exists_ h p then p else default p (parent p).

Definition gui_read_write (h : Host) (vault : path) : list path :=
  [components (lit "/dev/dri"); components (xdg_runtime h); effective_path h vault;
   components (xdg_runtime h ++ lit "/atom_staging"); atom_data_dir h].

Inductive stop := Exit.

Definition apply_gui_vault_sandbox (h : Host) (vault : path) : M stop thread unit :=
  mmap_err (fun _ => Exit) (apply_process_sandbox h gui_read_only (gui_read_write h vault)).

(** [handle_enter], after the vault is open. *)
Definition enter_staging (h : Host) : str :=
  match variable h (lit "XDG_RUNTIME_DIR") with
  | Some r => r ++ lit "/atom_staging"
  | None =>
      match variable h (lit "HOME") with
      | Some d => d ++ lit "/.atom_vault/staging"
      | None => lit "/tmp/atom_staging"
      end
  end.

Definition enter_sandbox (h : Host) (vault : path) : M string thread unit :=
  apply_process_sandbox h (map components [lit "/usr"; lit "/etc"]) [vault; components (enter_staging h)].

(** ** The broker

    A request runs in a thread of its own.  The disk holds the regular files by
    canonical name; [permits] is what the file modes allow, [room] how many bytes a
    write takes ([None]: all of them), [synced] whether the data reaches the disk. *)
Record Task := { held : thread; disk : gmap path bytes }.

Definition confine {A} (m : M string thread A) : M string Task A := fun s =>
  let (r, t) := m (held s) in (r, {| held := t; disk := disk s |}).
Definition set_disk (d : gmap path bytes) (s : Task) : Task := {| held := held s; disk := d |}.

Section broker.
Context (h : Host) (permits : path -> bool) (room : option Z) (synced : bool).

(** [fs::read]. *)
Definition read_file (p : path) : M string Task bytes := fun s =>
  match resolve h p with
  | None => (Err "Read failed"%string, s)
  | Some c =>
      if negb (allowed (held s) c ReadFile && permits c) then (Err "Read failed"%string, s) else
      match disk s !! c with
      | Some b => (Ok b, s)
      | None => (Err "Read failed"%string, s)
      end
  end.

Definition read_with_sandbox (p : path) : M string Task bytes :=
  let! _ := confine (apply_process_sandbox h [p] []) in read_file p.

(** [OpenOptions::open] for writing, with [create] and [truncate]: the object that is
    open, emptied. *)
Definition open_for_writing (p : path) : M string Task path := fun s =>
  match resolve h p with
  | Some c =>
      if allowed (held s) c WriteFile && allowed (held s) c Truncate && permits c &&
         bool_decide (kind_of h c = Some Regular)
      then (Ok c, set_disk (<[c := []]> (disk s)) s)
      else (Err "Create failed"%string, s)
  | None =>
      match d ← parent p; resolve h d, list.last p with
      | Some d, Some name =>
          let c := d ++ [name] in
          if allowed (held s) d MakeReg && allowed (held s) c WriteFile && permits d &&
             bool_decide (kind_of h d = Some Directory) && negb (bool_decide (name = lit ".."))
          then (Ok c, set_disk (<[c := []]> (disk s)) s)
          else (Err "Create failed"%string, s)
      | _, _ => (Err "Create failed"%string, s)
      end
  end.

(** [write_all] and [sync_all]. *)
Definition write_and_sync (c : path) (data : bytes) : M string Task unit := fun s =>
  let k := default (zlen data) room in
  let s := set_disk (<[c := ztake k data]> (disk s)) s in
  if k <? zlen data then (Err "Write failed"%string, s) else
  if synced then (Ok tt, s) else (Err "Sync failed"%string, s).

Definition write_with_sandbox (p : path) (data : bytes) : M string Task unit :=
  let! _ := confine (apply_process_sandbox h [] [effective_path h p]) in
  let! c := open_for_writing p in
  write_and_sync c data.
End broker.

(** ** Lemmas: rules and rights *)

Lemma starts_with_refl (p : path) : path_starts_with p p = true.
Proof. unfold path_starts_with. by rewrite firstn_all, bool_decide_eq_true_2. Qed.

Lemma starts_with_snoc (p : path) c : path_starts_with (p ++ [c]) p = true.
Proof. unfold path_starts_with. by rewrite take_app_length, bool_decide_eq_true_2. Qed.

Lemma starts_with_length (p q : path) : path_starts_with p q = true -> (length q <= length p)%nat.
Proof.
  unfold path_starts_with. intros Hp%bool_decide_eq_true. rewrite <- Hp, length_take. lia.
Qed.

Lemma allowed_nil p a : allowed [] p a = true.
Proof. done. Qed.

Lemma allowed_cons d t p a :
  allowed (d :: t) p a = true <-> (exists r, r ∈ d /\ rule_grants p a r = true) /\ allowed t p a = true.
Proof.
  unfold allowed. cbn [forallb]. rewrite andb_true_iff, existsb_exists.
  split; intros [(r & Hr & Hg) Ht]; (split; [|done]); exists r; by rewrite list_elem_of_In in *.
Qed.

(** The rule for one path, if there is one. *)
Definition rule_of (h : Host) (dir file : list right) (p : path) : option (path * list right) :=
  k ← metadata h p; c ← path_fd h p; Some (c, match k with Directory => dir | Regular => file end).

Lemma add_rules_spec h dir file ps rules :
  match add_rules h dir file ps rules with
  | Ok d => d = rules ++ omap (rule_of h dir file) ps
  | Err _ => exists c l, takes_rule h c l = false
  | Panic => False
  end.
Proof.
  revert rules. induction ps as [|p ps IH]; intros rules; cbn [add_rules omap list_omap]; [by rewrite app_nil_r|].
  unfold rule_of at 1. destruct (metadata h p) as [k|]; cbn; [|apply IH].
  destruct (path_fd h p) as [c|]; cbn; [|apply IH].
  destruct (takes_rule h c _) eqn:Ht; [|by eexists _, _]. specialize (IH (rules ++ [(c, match k with Directory => dir | Regular => file end)])).
  destruct (add_rules _ _ _ ps _); try done. by rewrite <- app_assoc in IH.
Qed.

(** What the lists of paths ask for: rights beneath what each path stands for, by
    whether it is a directory. *)
Definition asked (h : Host) (dir file : list right) (ps : list path) (p : path) (a : right) : Prop :=
  exists q k c, q ∈ ps /\ metadata h q = Some k /\ path_fd h q = Some c /\ path_starts_with p c = true /\
    a ∈ match k with Directory => dir | Regular => file end.

Lemma asked_rules h dir file ps p a :
  (exists r, r ∈ omap (rule_of h dir file) ps /\ rule_grants p a r = true) <-> asked h dir file ps p a.
Proof.
  unfold rule_grants. split.
  - intros (r & (q & Hq & Hr)%list_elem_of_omap & Hg). unfold rule_of in Hr.
    destruct (metadata h q) as [k|] eqn:Hk; [|done]. cbn in Hr. destruct (path_fd h q) as [c|] eqn:Hc; [|done].
    injection Hr as <-. bools. exists q, k, c. by split_and!.
  - intros (q & k & c & Hq & Hk & Hc & Hp & Ha). eexists (c, _). split.
    + apply list_elem_of_omap. exists q. split; [done|]. unfold rule_of. rewrite Hk. cbn. by rewrite Hc.
    + cbn. rewrite Hp. by apply bool_decide_eq_true.
Qed.

(** The kernel supports everything. *)
Definition full_support (h : Host) : Prop :=
  handles h = true /\ (audit h = true -> takes_audit h = true) /\ (forall c l, takes_rule h c l = true) /\
  restricts h = Some FullyEnforced.

Definition granted (h : Host) (ro rw : list path) (p : path) (a : right) : Prop :=
  asked h dir_ro file_ro ro p a \/ asked h dir_rw file_rw rw p a.

(** What [apply_process_sandbox] does to a thread. *)
Lemma apply_spec h ro rw t :
  let (r, t') := apply_process_sandbox h ro rw t in
  (exists d, t' = d ++ t) /\ r <> Panic /\ (full_support h -> r = Ok tt) /\
  (r = Ok tt -> restricts h = Some FullyEnforced /\
     forall p a, allowed t' p a = true <-> allowed t p a = true /\ granted h ro rw p a).
Proof.
  assert (Hno : forall e : string, exists d : thread, t = d ++ t) by by exists [].
  unfold apply_process_sandbox. destruct (handles h) eqn:Hh; cbn [negb].
  2: { split_and!; [by apply (Hno "")%string|done| |done]. intros (Hf & _). congruence. }
  destruct (audit h && negb (takes_audit h)) eqn:Ha.
  { split_and!; [by apply (Hno "")%string|done| |done]. intros (_ & Hf & _). bools. rewrite Hf in *; done. }
  unfold mbind, lift. pose proof (add_rules_spec h dir_ro file_ro ro []) as Hro.
  destruct (add_rules h dir_ro file_ro ro []) as [d1|e|]; [|split_and!; [by apply (Hno e)|done| |done]|done].
  2: { intros (_ & _ & Ht & _). destruct Hro as (c & l & Hc). by rewrite Ht in Hc. }
  pose proof (add_rules_spec h dir_rw file_rw rw d1) as Hrw.
  destruct (add_rules h dir_rw file_rw rw d1) as [d2|e|]; [|split_and!; [by apply (Hno e)|done| |done]|done].
  2: { intros (_ & _ & Ht & _). destruct Hrw as (c & l & Hc). by rewrite Ht in Hc. }
  cbn [app] in Hro. subst d1 d2. destruct (restricts h) as [[|left_]|] eqn:Hr.
  - unfold modify. split_and!; [by exists [omap (rule_of h dir_ro file_ro) ro ++ omap (rule_of h dir_rw file_rw) rw]|done|done|].
    intros _. split; [done|]. intros p a. rewrite allowed_cons, (and_comm (allowed t p a = true)).
    apply and_iff_compat_r. unfold granted. rewrite <- !asked_rules.
    split; [intros (r & [Hr1|Hr1]%elem_of_app & Hg); [left|right]; by exists r
           |intros [(r & Hr1 & Hg)|(r & Hr1 & Hg)]; exists r; (split; [apply elem_of_app|done]); [by left|by right]].
  - unfold modify, fails. split_and!; [by exists (option_list left_)|done| |done]. intros (_ & _ & _ & Hf). congruence.
  - split_and!; [by apply (Hno "")%string|done| |done]. intros (_ & _ & _ & Hf). congruence.
Qed.

Lemma allowed_app d t p a : allowed (d ++ t) p a = true -> allowed t p a = true.
Proof. unfold allowed. rewrite forallb_app. by intros [_ ?]%andb_true_iff. Qed.

(** ** Theorem: a sandbox *)

(** C18: A sandbox is a promise that is kept whole or refused.  Whatever the kernel
    supports and whichever paths exist: sandboxing a thread never adds to what it may
    do; when it succeeds the kernel enforces the rules fully, and the thread may do
    exactly what it might before that the lists ask for, with the rights of a
    directory or of a file by what each path is, and nothing about paths that do not
    exist; and on a kernel that supports Landlock it succeeds, missing paths or not. *)
Theorem sandbox_confines h read_only read_write t :
  let (r, t') := apply_process_sandbox h read_only read_write t in
  (forall p a, allowed t' p a = true -> allowed t p a = true) /\
  (r = Ok tt -> restricts h = Some FullyEnforced /\
     forall p a, allowed t' p a = true <->
       allowed t p a = true /\ (asked h dir_ro file_ro read_only p a \/ asked h dir_rw file_rw read_write p a)) /\
  (full_support h -> r = Ok tt) /\ r <> Panic.
Proof.
  pose proof (apply_spec h read_only read_write t) as Hs. destruct (apply_process_sandbox _ _ _ _) as [r t'].
  destruct Hs as ((d & ->) & Hnp & Hf & Hok). split_and!; try done. intros p a. apply allowed_app.
Qed.

(** ** Theorem: the vault's sandboxes *)

(** Nothing listed lies at or above [p] with the right [a]. *)
Lemma not_asked h dir file ps p a :
  (forall q c, q ∈ ps -> path_fd h q = Some c -> path_starts_with p c = false \/ ((a ∉ dir) /\ (a ∉ file))) ->
  ~ asked h dir file ps p a.
Proof.
  intros Hps (q & k & c & Hq & _ & Hc & Hp & Ha). destruct (Hps q c Hq Hc) as [Hn|[Hd Hf]]; [congruence|].
  destruct k; done.
Qed.

Lemma asked_one h dir file q c k p a :
  metadata h q = Some k -> path_fd h q = Some c -> path_starts_with p c = true ->
  a ∈ match k with Directory => dir | Regular => file end -> asked h dir file [q] p a.
Proof. intros. exists q, k, c. by split_and!; [left|..]. Qed.

(** In the sandbox of [enter], the temporary file of [vacuum] cannot be made: the vault
    is the only file of its directory that the rules mention. *)
Lemma enter_denies_vacuum h vault c dir t' :
  path_fd h vault = Some c -> metadata h vault = Some Regular -> parent c = Some dir ->
  (forall b, path_fd h (components (enter_staging h)) = Some b -> path_starts_with dir b = false) ->
  enter_sandbox h vault [] = (Ok tt, t') -> allowed t' dir MakeReg = false.
Proof.
  intros Hc Hk Hdir Hst Hrun. unfold enter_sandbox in Hrun.
  pose proof (apply_spec h (map components [lit "/usr"; lit "/etc"]) [vault; components (enter_staging h)] []) as Hs.
  rewrite Hrun in Hs. destruct Hs as (_ & _ & _ & Hok). destruct (Hok eq_refl) as [_ Hall].
  apply not_true_iff_false. intros [_ [Ha|Ha]]%Hall; revert Ha.
  - apply not_asked. intros q b _ _. right. split; apply (bool_decide_unpack _); done.
  - intros (q & k & b & Hq & Hk' & Hb & Hp & Ha). apply elem_of_cons in Hq as [->|Hq].
    + rewrite Hk in Hk'. injection Hk' as <-. revert Ha. apply (bool_decide_unpack _). done.
    + apply list_elem_of_singleton in Hq as ->. rewrite (Hst b Hb) in Hp. done.
Qed.

(** The vault's sandbox opens one vault and nothing next to it.  For a vault that
    exists, [apply_gui_vault_sandbox] either ends the program or leaves a thread that
    may read and write that file, and whose every other right lies beneath one of the
    fixed directories: only reading and executing under the system's, and more only
    under the runtime directory, its staging folder, the graphics device and the data
    directory.  A file beside the vault is out of reach unless it lies there. *)
Theorem gui_sandbox_opens_one_vault h vault c :
  metadata h vault = Some Regular -> path_fd h vault = Some c ->
  let (r, t') := apply_gui_vault_sandbox h vault [] in
  (r = Ok tt \/ r = Err Exit) /\
  (r = Ok tt ->
     (forall a, a ∈ file_rw -> allowed t' c a = true) /\
     forall p a, allowed t' p a = true ->
       (path_starts_with p c = true /\ a ∈ file_rw) \/
       (exists q b, q ∈ gui_read_only /\ path_fd h q = Some b /\ path_starts_with p b = true /\ a ∈ dir_ro) \/
       (exists q b, q ∈ [components (lit "/dev/dri"); components (xdg_runtime h);
                         components (xdg_runtime h ++ lit "/atom_staging"); atom_data_dir h] /\
          path_fd h q = Some b /\ path_starts_with p b = true)).
Proof.
  intros Hk Hc. assert (Hex : effective_path h vault = vault).
  { unfold effective_path, exists_. rewrite bool_decide_eq_true_2; [done|]. by rewrite Hk. }
  unfold apply_gui_vault_sandbox, mmap_err, gui_read_write. rewrite Hex.
  pose proof (apply_spec h gui_read_only [components (lit "/dev/dri"); components (xdg_runtime h); vault;
    components (xdg_runtime h ++ lit "/atom_staging"); atom_data_dir h] []) as Hs.
  destruct (apply_process_sandbox _ _ _ _) as [[[]|e|] t']; destruct Hs as (_ & Hnp & _ & Hok); cbn [map_err];
    [|by split; [right|]|done].
  split; [by left|]. intros _. destruct (Hok eq_refl) as [_ Hall]. split.
  - intros a Ha. apply Hall. split; [done|]. right. exists vault, Regular, c.
    split_and!; [right; right; left|done|done|apply starts_with_refl|done].
  - intros p a [_ [(q & k & b & Hq & _ & Hb & Hp & Ha)|(q & k & b & Hq & Hk' & Hb & Hp & Ha)]]%Hall.
    + right; left. exists q, b. split_and!; [done|done|done|]. destruct k; [done|].
      revert Ha. unfold file_ro, dir_ro. rewrite !elem_of_cons. tauto.
    + rewrite !elem_of_cons, elem_of_nil in Hq. destruct Hq as [->|[->|[->|[->|[->|[]]]]]].
      3: { left. rewrite Hc in Hb. injection Hb as <-. rewrite Hk in Hk'. injection Hk' as <-. by split. }
      all: right; right; eexists _, b; (split; [|done]); rewrite !elem_of_cons; tauto.
Qed.

(** ** Theorem: the broker *)

(** The file that writing to [p] makes or replaces. *)
Definition target (h : Host) (p : path) : option path :=
  match resolve h p with
  | Some c => Some c
  | None => d ← (parent p ≫= resolve h); name ← list.last p; Some (d ++ [name])
  end.

Lemma read_file_spec h permits p s :
  let (r, s') := read_file h permits p s in
  s' = s /\ r <> Panic /\ (forall b, r = Ok b -> exists c, resolve h p = Some c /\ disk s !! c = Some b) /\
  (forall c b, resolve h p = Some c -> allowed (held s) c ReadFile = true -> permits c = true ->
     disk s !! c = Some b -> r = Ok b).
Proof.
  unfold read_file. destruct (resolve h p) as [c|]; [|by split_and!].
  destruct (allowed (held s) c ReadFile) eqn:Ha, (permits c) eqn:Hp; cbn [andb negb].
  - destruct (disk s !! c) as [b|] eqn:Hb; split_and!; try done.
    + intros b' [= <-]. by exists c.
    + intros c' b' [= <-] _ _ Hb'. congruence.
    + intros c' b' [= <-] _ _ Hb'. congruence.
  - split_and!; try done. intros c' b [= <-]. congruence.
  - split_and!; try done. intros c' b [= <-]. congruence.
  - split_and!; try done. intros c' b [= <-]. congruence.
Qed.

(** Opening for writing empties the target or changes nothing. *)
Lemma open_for_writing_spec h permits p s :
  let (r, s') := open_for_writing h permits p s in
  held s' = held s /\ r <> Panic /\
  match r with Ok c => target h p = Some c /\ disk s' = <[c := []]> (disk s) | _ => s' = s end /\
  (forall c, resolve h p = Some c -> kind_of h c = Some Regular -> permits c = true ->
     allowed (held s) c WriteFile = true -> allowed (held s) c Truncate = true -> r = Ok c) /\
  (forall q d name, resolve h p = None -> parent p = Some q -> resolve h q = Some d ->
     list.last p = Some name -> name <> lit ".." -> kind_of h d = Some Directory -> permits d = true ->
     allowed (held s) d MakeReg = true -> allowed (held s) (d ++ [name]) WriteFile = true -> r = Ok (d ++ [name])).
Proof.
  unfold open_for_writing, target. destruct (resolve h p) as [c|].
  - destruct (_ && _) eqn:Hb; [bools|].
    + split_and!; try done. by intros c' [= <-].
    + split_and!; try done. intros c' [= <-] Hk Hp Hw Ht. rewrite Hk, Hp, Hw, Ht in Hb. done.
  - destruct (parent p ≫= resolve h) as [d|] eqn:Hd.
    2: { split_and!; try done. intros q d name _ Hq Hr. rewrite Hq in Hd. cbn in Hd. congruence. }
    destruct (list.last p) as [name|]; [|by split_and!]. cbv zeta. cbn [mbind option_bind].
    destruct (_ && _) eqn:Hb; [bools|].
    + split_and!; try done. intros q d' name' _ Hq Hr [= <-]. rewrite Hq in Hd. cbn in Hd. congruence.
    + split_and!; try done. intros q d' name' _ Hq Hr [= <-] Hn Hk Hp Hm Hw. rewrite Hq in Hd. cbn in Hd.
      assert (d' = d) as -> by congruence.
      rewrite Hk, Hp, Hm, Hw, (bool_decide_eq_false_2 (name = _)) in Hb by done. done.
Qed.

Lemma write_and_sync_spec room synced c data s :
  let (r, s') := write_and_sync room synced c data s in
  held s' = held s /\ r <> Panic /\ (exists b, disk s' = <[c := b]> (disk s)) /\
  (r = Ok tt -> disk s' = <[c := data]> (disk s)) /\ (room = None -> synced = true -> r = Ok tt).
Proof.
  unfold write_and_sync. cbv zeta. set (k := default (zlen data) room).
  assert (Hk : zlen data <= k -> ztake k data = data) by (intros Hk; by apply ztake_all).
  destruct (k <? zlen data) eqn:Hlt; bools; [|rewrite Hk by done; destruct synced]; split_and!; try done; try by eexists.
  intros Hr. subst k. rewrite Hr in Hlt. cbn in Hlt. lia.
Qed.

(** A confined thread: what [confine] leaves for the operation that follows. *)
Lemma confine_spec h ro rw d :
  let (r, s') := confine (apply_process_sandbox h ro rw) {| held := []; disk := d |} in
  disk s' = d /\ r <> Panic /\ (full_support h -> r = Ok tt) /\
  (r = Ok tt -> forall p a, allowed (held s') p a = true <-> granted h ro rw p a).
Proof.
  unfold confine. cbn [held disk]. pose proof (apply_spec h ro rw []) as Hs.
  destruct (apply_process_sandbox h ro rw []) as [r t]. destruct Hs as (_ & Hnp & Hf & Hok). cbn [held disk].
  split_and!; try done. intros Hr p a. destruct (Hok Hr) as [_ Hall]. rewrite Hall. split; [by intros []|by split].
Qed.

Lemma asked_beneath h dir file q p a : asked h dir file [q] p a -> exists c, path_fd h q = Some c /\ path_starts_with p c = true.
Proof. intros (q' & k & c & ->%list_elem_of_singleton & _ & Hc & Hp & _). by exists c. Qed.

Lemma resolved_regular h p c :
  resolve h p = Some c -> kind_of h c = Some Regular -> opens h c = true ->
  metadata h p = Some Regular /\ path_fd h p = Some c /\ effective_path h p = p.
Proof.
  intros Hr Hk Ho. unfold metadata, path_fd, effective_path, exists_, metadata. rewrite Hr. cbn. rewrite Hk, Ho. by split_and!.
Qed.

Lemma resolved_parent h p q d :
  resolve h p = None -> parent p = Some q -> resolve h q = Some d -> kind_of h d = Some Directory -> opens h d = true ->
  metadata h q = Some Directory /\ path_fd h q = Some d /\ effective_path h p = q.
Proof.
  intros Hr Hq Hd Hk Ho. unfold effective_path, exists_, metadata, path_fd. rewrite Hr, Hd. cbn. rewrite Hk, Ho.
  by rewrite Hq.
Qed.

Lemma file_rw_asked h q c p a :
  metadata h q = Some Regular -> path_fd h q = Some c -> path_starts_with p c = true -> a ∈ file_rw ->
  granted h [] [q] p a.
Proof. intros. right. by eapply asked_one. Qed.

(** In the sandbox made for it, a file that can be written is opened. *)
Lemma existing_opens h permits p c s :
  (forall q a, allowed (held s) q a = true <-> granted h [] [effective_path h p] q a) ->
  resolve h p = Some c -> kind_of h c = Some Regular -> opens h c = true -> permits c = true ->
  fst (open_for_writing h permits p s) = Ok c.
Proof.
  intros Hok Hres Hk Ho Hp. destruct (resolved_regular h p c Hres Hk Ho) as (Hm & Hpf & He). rewrite He in Hok.
  assert (Hg : forall a, a ∈ file_rw -> allowed (held s) c a = true).
  { intros a Ha. apply Hok. eapply file_rw_asked; [done|done|apply starts_with_refl|done]. }
  pose proof (open_for_writing_spec h permits p s) as Hop. destruct (open_for_writing h permits p s) as [r s'].
  destruct Hop as (_ & _ & _ & Hex & _). apply Hex; [done..| |]; apply Hg; apply (bool_decide_unpack _); done.
Qed.

Lemma new_opens h permits p q d name s :
  (forall q a, allowed (held s) q a = true <-> granted h [] [effective_path h p] q a) ->
  resolve h p = None -> parent p = Some q -> resolve h q = Some d -> list.last p = Some name -> name <> lit ".." ->
  kind_of h d = Some Directory -> opens h d = true -> permits d = true ->
  fst (open_for_writing h permits p s) = Ok (d ++ [name]).
Proof.
  intros Hok Hres Hq Hr Hlast Hn Hk Ho Hp. destruct (resolved_parent h p q d Hres Hq Hr Hk Ho) as (Hm & Hpf & He).
  rewrite He in Hok. assert (Hg : forall x a, path_starts_with x d = true -> a ∈ dir_rw -> allowed (held s) x a = true).
  { intros x a Hx Ha. apply Hok. right. by eapply asked_one. }
  pose proof (open_for_writing_spec h permits p s) as Hop. destruct (open_for_writing h permits p s) as [r s'].
  destruct Hop as (_ & _ & _ & _ & Hnew). eapply Hnew; [done..| |];
    (apply Hg; [apply starts_with_refl || apply starts_with_snoc|apply (bool_decide_unpack _); done]).
Qed.

Lemma broker_reads h permits p d :
  let (r, s') := read_with_sandbox h permits p {| held := []; disk := d |} in
  disk s' = d /\ r <> Panic /\
  (forall b, r = Ok b -> (exists c, resolve h p = Some c /\ d !! c = Some b) /\
     forall q a, allowed (held s') q a = true -> exists c, path_fd h p = Some c /\ path_starts_with q c = true) /\
  (forall c b, full_support h -> resolve h p = Some c -> kind_of h c = Some Regular -> opens h c = true ->
     permits c = true -> d !! c = Some b -> r = Ok b).
Proof.
  unfold read_with_sandbox, mbind. pose proof (confine_spec h [p] [] d) as Hc.
  destruct (confine _ _) as [[[]|e|] s1]; destruct Hc as (Hd & Hnp & Hf & Hok); [| |done].
  2: { split_and!; try done. intros c b Hfull. by specialize (Hf Hfull). }
  specialize (Hok eq_refl). pose proof (read_file_spec h permits p s1) as Hr.
  destruct (read_file h permits p s1) as [r s']. destruct Hr as (-> & Hnp' & Hb & Hsucc). rewrite Hd in *.
  split_and!; try done.
  - intros b Hrb. split; [by apply Hb|]. intros q a [Ha|(? & ? & ? & Hn%elem_of_nil & _)]%Hok; [by eapply asked_beneath|done].
  - intros c b _ Hres Hk Ho Hp Hdc. eapply Hsucc; [done| |done|done]. apply Hok. left.
    destruct (resolved_regular h p c Hres Hk Ho) as (Hm & Hpf & _).
    eapply asked_one; [done|done|apply starts_with_refl|]. left.
Qed.

(** The broker does its one job and can do nothing else.  A read changes nothing,
    returns only what the named file holds, and while it runs the thread can reach
    nothing but that file.  A write changes at most the file of that name, which on
    success holds exactly the data; the thread can reach nothing but that file, or the
    directory it is to be made in.  And the sandbox never stands in the way: on a
    kernel that supports Landlock a readable file is read, a writable one replaced, and
    a new one made in a writable directory. *)
Theorem broker_touches_one_file h permits p d :
  (let (r, s') := read_with_sandbox h permits p {| held := []; disk := d |} in
   disk s' = d /\ r <> Panic /\
   (forall b, r = Ok b -> (exists c, resolve h p = Some c /\ d !! c = Some b) /\
      forall q a, allowed (held s') q a = true -> exists c, path_fd h p = Some c /\ path_starts_with q c = true) /\
   (forall c b, full_support h -> resolve h p = Some c -> kind_of h c = Some Regular -> opens h c = true ->
      permits c = true -> d !! c = Some b -> r = Ok b)) /\
  (forall room synced data, let (r, s') := write_with_sandbox h permits room synced p data {| held := []; disk := d |} in
   r <> Panic /\ (forall q, disk s' !! q <> d !! q -> target h p = Some q) /\
   (r = Ok tt -> (exists c, target h p = Some c /\ disk s' = <[c := data]> d) /\
      forall q a, allowed (held s') q a = true ->
        exists c, path_fd h (effective_path h p) = Some c /\ path_starts_with q c = true) /\
   (forall c, full_support h -> room = None -> synced = true -> resolve h p = Some c -> kind_of h c = Some Regular ->
      opens h c = true -> permits c = true -> r = Ok tt) /\
   (forall q d' name, full_support h -> room = None -> synced = true -> resolve h p = None -> parent p = Some q ->
      resolve h q = Some d' -> list.last p = Some name -> name <> lit ".." -> kind_of h d' = Some Directory ->
      opens h d' = true -> permits d' = true -> r = Ok tt)).
Proof.
  split; [apply broker_reads|]. intros room synced data. unfold write_with_sandbox. unfold mbind at 1.
  pose proof (confine_spec h [] [effective_path h p] d) as Hc.
  destruct (confine _ _) as [[[]|e|] s1]; destruct Hc as (Hd & Hnp & Hf & Hok); [| |done].
  2: { split_and!; try done; [intros q Hq; by rewrite Hd in Hq|intros c Hfull|intros q d' n Hfull]; by specialize (Hf Hfull). }
  specialize (Hok eq_refl). unfold mbind. pose proof (open_for_writing_spec h permits p s1) as Hop.
  pose proof (fun c => existing_opens h permits p c s1 Hok) as Hex.
  pose proof (fun q d' n => new_opens h permits p q d' n s1 Hok) as Hnew.
  destruct (open_for_writing h permits p s1) as [[c|e|] s2]; destruct Hop as (Hh & Hnp' & Hout & _); [| |done].
  2: { subst s2. split_and!; try done.
       - intros q Hq. by rewrite Hd in Hq.
       - intros c _ _ _ Hres Hk Ho Hp. discriminate (Hex c Hres Hk Ho Hp).
       - intros q d' n _ _ _ Hres Hq Hr Hl Hn Hk Ho Hp. discriminate (Hnew q d' n Hres Hq Hr Hl Hn Hk Ho Hp). }
  destruct Hout as [Htgt Hdisk]. pose proof (write_and_sync_spec room synced c data s2) as Hw.
  destruct (write_and_sync room synced c data s2) as [r s3]. destruct Hw as (Hh3 & Hnp3 & (b & Hb) & Hok3 & Hroom).
  rewrite Hdisk, Hd, insert_insert_eq in *. split_and!; try done.
  - intros q Hq. rewrite Hb in Hq. destruct (decide (q = c)) as [->|Hne]; [done|]. by rewrite lookup_insert_ne in Hq.
  - intros Hr. split; [exists c; split; [done|by apply Hok3]|]. intros q a Ha. rewrite Hh3, Hh in Ha.
    apply Hok in Ha as [(? & ? & ? & Hn%elem_of_nil & _)|Ha]; [done|]. by eapply asked_beneath.
  - intros c' _ Hro Hsy _ _ _ _. by apply Hroom.
  - intros q d' n _ Hro Hsy _ _ _ _ _ _ _ _. by apply Hroom.
Qed.

(** ** An example

    A machine with Landlock on which every name stands for itself; the vault is a file
    of the home directory. *)
Definition demo_vault : path := components (lit "/home/ada/my.vault").
Definition demo_host : Host := {|
  resolve := Some;
  kind_of p := Some (if bool_decide (p = demo_vault) then Regular else Directory);
  opens _ := true; handles := true; audit := false; takes_audit := false; takes_rule _ _ := true;
  restricts := Some FullyEnforced; home := Some (components (lit "/home/ada"));
  variable v := if bool_decide (v = lit "XDG_RUNTIME_DIR") then Some (lit "/run/user/1000") else None |}.

Lemma demo_vault_facts : metadata demo_host demo_vault = Some Regular /\ path_fd demo_host demo_vault = Some demo_vault.
Proof. split; by vm_compute. Qed.

Lemma gui_sandbox_opens_one_vault_witness :
  exists t', apply_gui_vault_sandbox demo_host demo_vault [] = (Ok tt, t') /\
    allowed t' demo_vault WriteFile = true /\ allowed t' (components (lit "/home/ada/other.vault")) ReadFile = false.
Proof.
  destruct demo_vault_facts as [Hk Hc]. pose proof (gui_sandbox_opens_one_vault demo_host demo_vault demo_vault Hk Hc) as Hg.
  assert (Hrun : fst (apply_gui_vault_sandbox demo_host demo_vault []) = Ok tt) by (vm_compute; reflexivity).
  assert (Hdeny : allowed (snd (apply_gui_vault_sandbox demo_host demo_vault [])) (components (lit "/home/ada/other.vault"))
    ReadFile = false) by (vm_compute; reflexivity).
  destruct (apply_gui_vault_sandbox demo_host demo_vault []) as [r t']. cbn [fst snd] in *. subst r.
  destruct Hg as [_ Hg]. destruct (Hg eq_refl) as [Hall _]. exists t'. split; [reflexivity|]. split; [|exact Hdeny].
  apply Hall. apply (bool_decide_unpack _). reflexivity.
Defined.

(** After [enter] on that machine, [vacuum] is refused its temporary file. *)
Lemma demo_vacuum_denied :
  let (r, t') := enter_sandbox demo_host demo_vault [] in
  r = Ok tt /\ parent demo_vault = Some (components (lit "/home/ada")) /\
  allowed t' (components (lit "/home/ada")) MakeReg = false.
Proof.
  destruct demo_vault_facts as [Hk Hc].
  pose proof (enter_denies_vacuum demo_host demo_vault demo_vault (components (lit "/home/ada"))) as Hd.
  assert (Hrun : fst (enter_sandbox demo_host demo_vault []) = Ok tt) by (vm_compute; reflexivity).
  destruct (enter_sandbox demo_host demo_vault []) as [r t']. cbn [fst] in Hrun. subst r.
  split; [done|]. split; [by vm_compute|].
  apply (Hd t'); [done|done|by vm_compute| |done]. intros b Hb. injection Hb as <-. by vm_compute.
Qed.
