(* ===== verification/Container.v ===== *)
(** * Containers

    [atom/src/sandbox.rs]: the bubblewrap argument lists of the document viewer and of
    the program itself, and starting the viewer. *)

From Stdlib Require Import Strings.Byte.
From stdpp Require Import strings gmap.
From S2P Require Import Prelude Text Primitives StateM Disk VaultCrypto Vfs Storage VaultOps Paths.

(** ** What the arguments depend on *)

(** The file system as [Path::exists] and [symlink_metadata] see it. *)
Record Files := { present : str -> bool; is_symlink : str -> option bool }.

Definition real_directory (f : Files) (p : str) : bool :=
  present f p && from_option negb false (is_symlink f p).

(** [extract_dbus_socket_path]. *)
Fixpoint path_key (kvs : list str) : option str :=
  match kvs with
  | [] => None
  | kv :: kvs => match strip_prefix (lit "path=") kv with Some p => Some p | None => path_key kvs end
  end.

Fixpoint unix_entry (entries : list str) : option str :=
  match entries with
  | [] => None
  | e :: entries =>
      match strip_prefix (lit "unix:") (trim e) with
      | Some rest =>
          match path_key (split_on Byte.x3b rest []) with Some p => Some p | None => unix_entry entries end
      | None => unix_entry entries
      end
  end.

Definition extract_dbus_socket_path (addr : str) : option str := unix_entry (split_on Byte.x2c addr []).

Definition setenv (k : string) (v : str) : list str := [lit "--setenv"; lit k; v].
Definition same (o : string) (p : str) : list str := [lit o; p; p].
Definition if_ (b : bool) (l : list str) : list str := if b then l else [].

(** ** [build_bwrap_args] *)
Definition build_bwrap_args (f : Files) (inherited_fd : Z) (xdg_runtime wayland_display home dbus_addr : str)
    : list str :=
  let user_flatpak := home ++ lit "/.local/share/flatpak" in
  [lit "bwrap"]
  ++ map lit ["--unshare-user"; "--unshare-ipc"; "--unshare-net"; "--unshare-uts"]
  ++ map lit ["--die-with-parent"; "--new-session"]
  ++ [lit "--clearenv"]
  ++ setenv "WAYLAND_DISPLAY" wayland_display
  ++ setenv "XDG_RUNTIME_DIR" xdg_runtime
  ++ setenv "HOME" home
  ++ if_ (negb (bool_decide (dbus_addr = []))) (setenv "DBUS_SESSION_BUS_ADDRESS" dbus_addr)
  ++ map lit ["--proc"; "/proc"; "--dev"; "/dev"]
  ++ if_ (present f (lit "/dev/fuse")) (same "--dev-bind" (lit "/dev/fuse"))
  ++ map lit ["--tmpfs"; "/tmp"]
  ++ [lit "--file"; decimal inherited_fd; lit "/tmp/document.pdf"]
  ++ concat (map (fun p => if_ (present f p) (same "--ro-bind" p)) (map lit ["/usr"; "/etc"; "/sys"]))
  ++ concat (map (fun p => if_ (real_directory f p) (same "--ro-bind" p)) (map lit ["/lib"; "/lib64"]))
  ++ if_ (present f (lit "/var/lib/flatpak")) (same "--ro-bind" (lit "/var/lib/flatpak"))
  ++ if_ (present f user_flatpak) (same "--ro-bind" user_flatpak)
  ++ if_ (present f xdg_runtime) (same "--bind" xdg_runtime)
  ++ match extract_dbus_socket_path dbus_addr with
     | Some s => if_ (present f s) (same "--bind" s)
     | None => []
     end
  ++ map lit ["--"; "flatpak"; "run"; "--no-network"; "--filesystem=/tmp:ro"; "org.gnome.Papers"; "/tmp/document.pdf"].

(** ** [build_self_bwrap_args] *)
Definition build_self_bwrap_args (f : Files) (exe xdg_runtime wayland_display home dbus_addr : str)
    (extra_args : list bytes) : list str :=
  let user_flatpak := home ++ lit "/.local/share/flatpak" in
  concat (map (same "--ro-bind-try") (map lit ["/usr"; "/etc"; "/sys"; "/opt"]))
  ++ concat (map (fun p => if_ (real_directory f p) (same "--ro-bind" p)) (map lit ["/lib"; "/lib64"]))
  ++ map lit ["--proc"; "/proc"; "--dev"; "/dev"]
  ++ if_ (present f (lit "/dev/dri")) (same "--dev-bind" (lit "/dev/dri"))
  ++ map lit ["--tmpfs"; "/tmp"]
  ++ same "--ro-bind-try" (lit "/run")
  ++ same "--bind" xdg_runtime
  ++ if_ (present f (lit "/var/lib/flatpak")) (same "--ro-bind" (lit "/var/lib/flatpak"))
  ++ if_ (present f user_flatpak) (same "--ro-bind-try" user_flatpak)
  ++ same "--bind-try" home
  ++ if_ (present f (lit "/var/home")) (same "--bind-try" (lit "/var/home"))
  ++ if_ (present f (lit "/home")) (same "--bind-try" (lit "/home"))
  ++ map lit ["--unshare-ipc"; "--unshare-uts"; "--new-session"; "--die-with-parent"]
  ++ setenv "ATOM_BWRAP_SANDBOX" (lit "1")
  ++ setenv "WAYLAND_DISPLAY" wayland_display
  ++ setenv "XDG_RUNTIME_DIR" xdg_runtime
  ++ setenv "HOME" home
  ++ match extract_dbus_socket_path dbus_addr with
     | Some s => setenv "DBUS_SESSION_BUS_ADDRESS" dbus_addr ++ if_ (present f s) (same "--bind-try" s)
     | None => []
     end
  ++ [lit "--"; exe] ++ map from_utf8_lossy extra_args.

(** ** [try_bwrap_self_sandbox]

    What the process knows of itself: its environment, whether the probe of
    [bwrap_namespace_available] succeeds, its executable, home and arguments. *)
Record Process := {
  files : Files;
  variable : str -> option str;
  namespaces : bool;
  current_exe : option bytes;
  home_dir : option bytes;
  arguments : list bytes;
}.

(** The directory made, and the arguments [bwrap] is then executed with; or [None]: the
    process goes on as it is. *)
Definition try_bwrap_self_sandbox (p : Process) : option (str * list str) :=
  if bool_decide (is_Some (variable p (lit "ATOM_BWRAP_SANDBOX"))) then None else
  if present (files p) (lit "/.flatpak-info") || bool_decide (is_Some (variable p (lit "FLATPAK_ID"))) then None else
  if negb (namespaces p) then None else
  exe ← current_exe p;
  xdg_runtime ← variable p (lit "XDG_RUNTIME_DIR");
  home ← home_dir p;
  Some (xdg_runtime ++ lit "/atom_staging",
        build_self_bwrap_args (files p) (from_utf8_lossy exe) xdg_runtime
          (default (lit "wayland-0") (variable p (lit "WAYLAND_DISPLAY"))) (from_utf8_lossy home)
          (default [] (variable p (lit "DBUS_SESSION_BUS_ADDRESS"))) (tail (arguments p))).

(** ** [spawn_in_bwrap_sandbox]

    Descriptors share the offset of the open file they stand for.  [free] is the
    descriptor [dup] returns, [fork] the child's process number; [None] when they fail. *)
Record Parent := {
  table : gmap Z nat;
  offsets : gmap nat Z;
  children : list (Z * list str * gmap Z nat);
}.

Definition NUL : byte := Byte.x00.

Definition spawn_in_bwrap_sandbox (f : Files) (vars : str -> option str) (free fork : option Z) (target_fd : Z)
    : M string Parent Z := fun s =>
  let xdg_runtime := default (lit "/run/user/1000") (vars (lit "XDG_RUNTIME_DIR")) in
  let wayland_display := default (lit "wayland-0") (vars (lit "WAYLAND_DISPLAY")) in
  let home := default (lit "/root") (vars (lit "HOME")) in
  let dbus_addr := default [] (vars (lit "DBUS_SESSION_BUS_ADDRESS")) in
  match table s !! target_fd, free with
  | Some file, Some inherited_fd =>
      let opened := <[inherited_fd := file]> (table s) in
      let rewound := <[file := 0]> (offsets s) in
      let args := build_bwrap_args f inherited_fd xdg_runtime wayland_display home dbus_addr in
      if existsb (fun a => bool_decide (NUL ∈ a)) args
      then (Panic, {| table := opened; offsets := rewound; children := children s |}) else
      let closed := delete inherited_fd opened in
      match fork with
      | None => (Err "fork() failed"%string, {| table := closed; offsets := rewound; children := children s |})
      | Some pid =>
          (Ok pid, {| table := closed; offsets := rewound; children := children s ++ [(pid, args, opened)] |})
      end
  | _, _ => (Err "dup() failed"%string, s)
  end.

(** ** What an argument list asks for

    The options used above with the arguments each takes, as the manual of bubblewrap
    gives them; options come before [--], the command after. *)
Inductive namespace := User | Ipc | Net | Uts.
Inductive binding := RoBind | RoBindTry | Bind | BindTry | DevBind.
Inductive flag :=
| Unshare (n : namespace) | DieWithParent | NewSession | ClearEnv
| SetEnv (k v : str) | Proc (d : str) | Dev (d : str) | Tmpfs (d : str)
| FileFrom (fd d : str) | Mount (b : binding) (source d : str).

#[export] Instance namespace_eq_dec : EqDecision namespace.
Proof. solve_decision. Defined.
#[export] Instance binding_eq_dec : EqDecision binding.
Proof. solve_decision. Defined.
#[export] Instance flag_eq_dec : EqDecision flag.
Proof. solve_decision. Defined.

Definition flags0 : list (str * flag) :=
  [(lit "--unshare-user", Unshare User); (lit "--unshare-ipc", Unshare Ipc); (lit "--unshare-net", Unshare Net);
   (lit "--unshare-uts", Unshare Uts); (lit "--die-with-parent", DieWithParent); (lit "--new-session", NewSession);
   (lit "--clearenv", ClearEnv)].
Definition flags1 : list (str * (str -> flag)) := [(lit "--proc", Proc); (lit "--dev", Dev); (lit "--tmpfs", Tmpfs)].
Definition flags2 : list (str * (str -> str -> flag)) :=
  [(lit "--setenv", SetEnv); (lit "--file", FileFrom); (lit "--ro-bind", Mount RoBind);
   (lit "--ro-bind-try", Mount RoBindTry); (lit "--bind", Mount Bind); (lit "--bind-try", Mount BindTry);
   (lit "--dev-bind", Mount DevBind)].

Definition look {A} (x : str) (l : list (str * A)) : option A :=
  snd <$> List.find (fun e => bool_decide (e.1 = x)) l.

(** Reading an argument list: the options in order, and the command. *)
Fixpoint read_options (l : list str) : option (list flag * list str) :=
  match l with
  | [] => None
  | x :: l =>
      if decide (x = lit "--") then Some ([], l) else
      match look x flags0 with
      | Some o => '(os, c) ← read_options l; Some (o :: os, c)
      | None =>
          match l with
          | [] => None
          | a :: l =>
              match look x flags1 with
              | Some o => '(os, c) ← read_options l; Some (o a :: os, c)
              | None =>
                  match l with
                  | [] => None
                  | b :: l =>
                      match look x flags2 with
                      | Some o => '(os, c) ← read_options l; Some (o a b :: os, c)
                      | None => None
                      end
                  end
              end
          end
      end
  end.

Definition render (o : flag) : list str :=
  match o with
  | Unshare User => [lit "--unshare-user"]
  | Unshare Ipc => [lit "--unshare-ipc"]
  | Unshare Net => [lit "--unshare-net"]
  | Unshare Uts => [lit "--unshare-uts"]
  | DieWithParent => [lit "--die-with-parent"]
  | NewSession => [lit "--new-session"]
  | ClearEnv => [lit "--clearenv"]
  | SetEnv k v => [lit "--setenv"; k; v]
  | Proc d => [lit "--proc"; d]
  | Dev d => [lit "--dev"; d]
  | Tmpfs d => [lit "--tmpfs"; d]
  | FileFrom fd d => [lit "--file"; fd; d]
  | Mount RoBind s d => [lit "--ro-bind"; s; d]
  | Mount RoBindTry s d => [lit "--ro-bind-try"; s; d]
  | Mount Bind s d => [lit "--bind"; s; d]
  | Mount BindTry s d => [lit "--bind-try"; s; d]
  | Mount DevBind s d => [lit "--dev-bind"; s; d]
  end.

Lemma read_one o l : read_options (render o ++ l) = '(os, c) ← read_options l; Some (o :: os, c).
Proof. by destruct o as [[]| | | | | | | | |[]]. Qed.

(** Whatever the values, an argument list is read as the options it was made of. *)
Lemma read_rendered os c : read_options (concat (map render os) ++ lit "--" :: c) = Some (os, c).
Proof.
  induction os as [|o os IH]; [done|]. cbn [map concat]. by rewrite <- app_assoc, read_one, IH.
Qed.

(** ** The options of the two containers *)

Definition opt (b : bool) (o : flag) : list flag := if b then [o] else [].

Definition viewer_flags (xdg_runtime wayland_display home dbus_addr : str) : list flag :=
  [Unshare User; Unshare Ipc; Unshare Net; Unshare Uts] ++ [DieWithParent; NewSession] ++ [ClearEnv]
  ++ [SetEnv (lit "WAYLAND_DISPLAY") wayland_display]
  ++ [SetEnv (lit "XDG_RUNTIME_DIR") xdg_runtime]
  ++ [SetEnv (lit "HOME") home]
  ++ opt (negb (bool_decide (dbus_addr = []))) (SetEnv (lit "DBUS_SESSION_BUS_ADDRESS") dbus_addr).

Definition viewer_pseudo (f : Files) : list flag :=
  [Proc (lit "/proc"); Dev (lit "/dev")]
  ++ opt (present f (lit "/dev/fuse")) (Mount DevBind (lit "/dev/fuse") (lit "/dev/fuse"))
  ++ [Tmpfs (lit "/tmp")].

Definition viewer_mounts (f : Files) (xdg_runtime home dbus_addr : str) : list flag :=
  let user_flatpak := home ++ lit "/.local/share/flatpak" in
  concat (map (fun p => opt (present f p) (Mount RoBind p p)) (map lit ["/usr"; "/etc"; "/sys"]))
  ++ concat (map (fun p => opt (real_directory f p) (Mount RoBind p p)) (map lit ["/lib"; "/lib64"]))
  ++ opt (present f (lit "/var/lib/flatpak")) (Mount RoBind (lit "/var/lib/flatpak") (lit "/var/lib/flatpak"))
  ++ opt (present f user_flatpak) (Mount RoBind user_flatpak user_flatpak)
  ++ opt (present f xdg_runtime) (Mount Bind xdg_runtime xdg_runtime)
  ++ match extract_dbus_socket_path dbus_addr with
     | Some s => opt (present f s) (Mount Bind s s)
     | None => []
     end.

Definition document : str := lit "/tmp/document.pdf".

Definition viewer_options (f : Files) (inherited_fd : Z) (xdg_runtime wayland_display home dbus_addr : str)
    : list flag :=
  viewer_flags xdg_runtime wayland_display home dbus_addr ++ viewer_pseudo f
  ++ [FileFrom (decimal inherited_fd) document] ++ viewer_mounts f xdg_runtime home dbus_addr.

Definition viewer_command : list str :=
  map lit ["flatpak"; "run"; "--no-network"; "--filesystem=/tmp:ro"; "org.gnome.Papers"; "/tmp/document.pdf"].

Definition self_variables (f : Files) (xdg_runtime wayland_display home dbus_addr : str) : list flag :=
  [SetEnv (lit "WAYLAND_DISPLAY") wayland_display]
  ++ [SetEnv (lit "XDG_RUNTIME_DIR") xdg_runtime]
  ++ [SetEnv (lit "HOME") home]
  ++ match extract_dbus_socket_path dbus_addr with
     | Some s => [SetEnv (lit "DBUS_SESSION_BUS_ADDRESS") dbus_addr] ++ opt (present f s) (Mount BindTry s s)
     | None => []
     end.

Definition self_options (f : Files) (xdg_runtime wayland_display home dbus_addr : str) : list flag :=
  let user_flatpak := home ++ lit "/.local/share/flatpak" in
  map (fun p => Mount RoBindTry p p) (map lit ["/usr"; "/etc"; "/sys"; "/opt"])
  ++ concat (map (fun p => opt (real_directory f p) (Mount RoBind p p)) (map lit ["/lib"; "/lib64"]))
  ++ [Proc (lit "/proc"); Dev (lit "/dev")]
  ++ opt (present f (lit "/dev/dri")) (Mount DevBind (lit "/dev/dri") (lit "/dev/dri"))
  ++ [Tmpfs (lit "/tmp")]
  ++ [Mount RoBindTry (lit "/run") (lit "/run")]
  ++ [Mount Bind xdg_runtime xdg_runtime]
  ++ opt (present f (lit "/var/lib/flatpak")) (Mount RoBind (lit "/var/lib/flatpak") (lit "/var/lib/flatpak"))
  ++ opt (present f user_flatpak) (Mount RoBindTry user_flatpak user_flatpak)
  ++ [Mount BindTry home home]
  ++ opt (present f (lit "/var/home")) (Mount BindTry (lit "/var/home") (lit "/var/home"))
  ++ opt (present f (lit "/home")) (Mount BindTry (lit "/home") (lit "/home"))
  ++ [Unshare Ipc; Unshare Uts; NewSession; DieWithParent]
  ++ [SetEnv (lit "ATOM_BWRAP_SANDBOX") (lit "1")] ++ self_variables f xdg_runtime wayland_display home dbus_addr.

Definition rendered (os : list flag) : list str := concat (map render os).

Lemma rendered_app a b : rendered (a ++ b) = rendered a ++ rendered b.
Proof. unfold rendered. by rewrite map_app, concat_app. Qed.

Lemma rendered_opt b o : rendered (opt b o) = if_ b (render o).
Proof. destruct b; [|done]. unfold rendered. cbn. apply app_nil_r. Qed.

Lemma rendered_concat {A} (g : A -> list flag) l : rendered (concat (map g l)) = concat (map (fun x => rendered (g x)) l).
Proof. induction l as [|x l IH]; [done|]. cbn [map concat]. by rewrite rendered_app, IH. Qed.

Lemma rendered_each {A} (g : A -> flag) l : rendered (map g l) = concat (map (fun x => render (g x)) l).
Proof. unfold rendered. by rewrite map_map. Qed.

Lemma concat_ext {A B} (g h : A -> list B) l : (forall x, g x = h x) -> concat (map g l) = concat (map h l).
Proof. intros Hx. f_equal. by apply map_ext. Qed.

Lemma viewer_args_rendered f fd xdg way home dbus :
  build_bwrap_args f fd xdg way home dbus =
    lit "bwrap" :: rendered (viewer_options f fd xdg way home dbus) ++ lit "--" :: viewer_command.
Proof.
  unfold build_bwrap_args, viewer_options, viewer_flags, viewer_pseudo, viewer_mounts. cbv zeta. rewrite !rendered_app, !rendered_opt, !rendered_concat, <- !app_assoc.
  rewrite !(concat_ext (fun x => rendered _) _ _ (fun x => rendered_opt _ _)).
  destruct (extract_dbus_socket_path dbus); [rewrite rendered_opt|]; reflexivity.
Qed.

Lemma self_args_rendered f exe xdg way home dbus extra :
  build_self_bwrap_args f exe xdg way home dbus extra =
    rendered (self_options f xdg way home dbus) ++ lit "--" :: exe :: map from_utf8_lossy extra.
Proof.
  unfold build_self_bwrap_args, self_options, self_variables. cbv zeta.
  rewrite !rendered_app, !rendered_opt, !rendered_concat, !rendered_each, <- !app_assoc.
  rewrite !(concat_ext (fun x => rendered _) _ _ (fun x => rendered_opt _ _)).
  destruct (extract_dbus_socket_path dbus); [rewrite rendered_app, rendered_opt, <- app_assoc|]; reflexivity.
Qed.

(** ** What the options mean

    Mounts are made in order, so that a name leads to the last one made at it or above
    it; the environment is changed in order too. *)
Definition destination (o : flag) : option str :=
  match o with Proc d | Dev d | Tmpfs d | FileFrom _ d | Mount _ _ d => Some d | _ => None end.

Definition covers (p : path) (o : flag) : bool :=
  from_option (fun d => path_starts_with p (components d)) false (destination o).

Definition visible (os : list flag) (p : path) : option flag := list.last (filter (fun o => covers p o = true) os).

Definition set_env (o : flag) (e : str -> option str) : str -> option str :=
  match o with
  | ClearEnv => fun _ => None
  | SetEnv k v => fun x => if decide (x = k) then Some v else e x
  | _ => e
  end.
Definition environment (os : list flag) (inherited : str -> option str) : str -> option str :=
  foldl (fun e o => set_env o e) inherited os.

(** *** Lemmas *)

Lemma Forall_opt (P : flag -> Prop) b o : (b = true -> P o) -> Forall P (opt b o).
Proof. destruct b; intros Ho; [constructor; [by apply Ho|constructor]|constructor]. Qed.

Lemma Forall_concat_map {A} (P : flag -> Prop) (g : A -> list flag) l :
  Forall (fun x => Forall P (g x)) l -> Forall P (concat (map g l)).
Proof. intros Hl. by apply Forall_concat, Forall_map. Qed.

Lemma environment_app a b e : environment (a ++ b) e = environment b (environment a e).
Proof. apply foldl_app. Qed.

Lemma environment_mounts os e : Forall (fun o => is_Some (destination o)) os -> environment os e = e.
Proof.
  intros Hos. revert e. induction Hos as [|o os Ho _ IH]; intros e; [done|].
  change (environment (o :: os) e) with (environment os (set_env o e)). rewrite IH.
  destruct o; try done; by destruct Ho.
Qed.

Lemma visible_front a o b p :
  covers p o = true -> Forall (fun o => covers p o = false) b -> visible (a ++ o :: b) p = Some o.
Proof.
  intros Ho Hb. unfold visible. rewrite list.filter_app, filter_cons_True by done.
  assert (Hf : filter (fun o => covers p o = true) b = []).
  { clear -Hb. induction Hb as [|x b Hx _ IH]; [done|]. rewrite filter_cons_False by congruence. done. }
  by rewrite Hf, last_snoc.
Qed.

(** A folder below [.local/share] is called by its own name, whatever the home is. *)
Lemma last_flatpak home : list.last (components (home ++ lit "/.local/share/flatpak")) = Some (lit "flatpak").
Proof.
  change (lit "/.local/share/flatpak") with (Byte.x2f :: lit ".local/share/flatpak"). unfold components.
  rewrite split_slash_app. change (split_slash (lit ".local/share/flatpak") []) with [lit ".local"; lit "share"; lit "flatpak"].
  destruct (split_slash home []) as [|p rest]; [done|]. cbn [app]. rewrite List.filter_app.
  change (List.filter _ [lit ".local"; lit "share"; lit "flatpak"]) with ([lit ".local"; lit "share"] ++ [lit "flatpak"]).
  rewrite app_assoc, app_assoc. apply last_snoc.
Qed.

Lemma flatpak_elsewhere home : path_starts_with (components document) (components (home ++ lit "/.local/share/flatpak")) = false.
Proof.
  apply bool_decide_eq_false. intros Hp. pose proof (last_flatpak home) as Hl. rewrite <- Hp in Hl.
  apply last_Some_elem_of in Hl.
  assert (Hin : lit "flatpak" ∈ components document) by (eapply elem_of_submseteq; [exact Hl|apply sublist_submseteq, sublist_take]).
  revert Hin. apply (bool_decide_unpack _). done.
Qed.

(** *** The viewer's container *)

(** What is bound from the host: itself at its own name, and writable only the runtime
    directory, the message bus's socket and the FUSE device. *)
Definition viewer_mount_ok (xdg_runtime dbus_addr : str) (o : flag) : Prop :=
  match o with
  | Mount b s d => s = d /\
      (b = RoBind \/ (b = DevBind /\ d = lit "/dev/fuse") \/
       (b = Bind /\ (d = xdg_runtime \/ extract_dbus_socket_path dbus_addr = Some d)))
  | _ => True
  end.

Ltac each_flag :=
  repeat first [apply Forall_app_2 | apply Forall_cons_2 | apply Forall_nil_2
               | apply Forall_opt; intros _ | apply Forall_concat_map | progress cbn [map] ].

Lemma viewer_mounts_ok f xdg home dbus : Forall (viewer_mount_ok xdg dbus) (viewer_mounts f xdg home dbus).
Proof.
  unfold viewer_mounts. cbv zeta. each_flag; try (split; [done|by left]).
  - split; [done|]. right; right. split; [done|by left].
  - destruct (extract_dbus_socket_path dbus) as [s|] eqn:Hs; each_flag. split; [done|]. right; right. split; [done|by right].
Qed.

Lemma viewer_flags_ok xdg way home dbus : Forall (viewer_mount_ok xdg dbus) (viewer_flags xdg way home dbus).
Proof. unfold viewer_flags. each_flag; exact I. Qed.

Lemma viewer_pseudo_ok xdg dbus f : Forall (viewer_mount_ok xdg dbus) (viewer_pseudo f).
Proof. unfold viewer_pseudo. each_flag; try exact I. split; [done|]. right; left. by split. Qed.

Lemma viewer_mounts_elsewhere f xdg home dbus :
  path_starts_with (components document) (components xdg) = false ->
  (forall s, extract_dbus_socket_path dbus = Some s -> path_starts_with (components document) (components s) = false) ->
  Forall (fun o => covers (components document) o = false) (viewer_mounts f xdg home dbus).
Proof.
  intros Hx Hs. unfold viewer_mounts. cbv zeta. each_flag.
  1-6: reflexivity.
  1: apply flatpak_elsewhere.
  1: exact Hx.
  destruct (extract_dbus_socket_path dbus) as [s|] eqn:Hd; each_flag. by apply Hs.
Qed.

Lemma viewer_mounts_destinations f xdg home dbus :
  Forall (fun o => is_Some (destination o)) (viewer_pseudo f ++ [FileFrom [] []] ++ viewer_mounts f xdg home dbus).
Proof.
  unfold viewer_pseudo, viewer_mounts. cbv zeta. each_flag; try (by eexists).
  destruct (extract_dbus_socket_path dbus); each_flag; by eexists.
Qed.

(** C21: The document viewer is started in a closed container, whatever the
    environment says.  The argument list is read back as a fixed set of options and
    the fixed command: no value of a variable can add an option or change the
    command.  The user, IPC, network and host-name namespaces are the container's own,
    and it dies with the program; its environment holds exactly the variables passed
    and nothing of the program's.  Everything bound from the host keeps its name, and
    only the runtime directory, the message bus's socket and the FUSE device are
    writable.  Unless the runtime directory or that socket is [/tmp] or above it, the
    document the viewer opens is the copy in memory of the descriptor passed. *)
Theorem viewer_confined f fd xdg_runtime wayland_display home dbus_addr :
  let args := build_bwrap_args f fd xdg_runtime wayland_display home dbus_addr in
  head args = Some (lit "bwrap") /\
  exists os, read_options (tail args) = Some (os, viewer_command) /\
    (forall n, Unshare n ∈ os) /\ DieWithParent ∈ os /\ NewSession ∈ os /\
    (forall inherited k, environment os inherited k =
       look k ([(lit "WAYLAND_DISPLAY", wayland_display); (lit "XDG_RUNTIME_DIR", xdg_runtime); (lit "HOME", home)] ++
               if decide (dbus_addr = []) then [] else [(lit "DBUS_SESSION_BUS_ADDRESS", dbus_addr)])) /\
    (forall b s d, Mount b s d ∈ os -> s = d /\
       (b = RoBind \/ (b = DevBind /\ d = lit "/dev/fuse") \/
        (b = Bind /\ (d = xdg_runtime \/ extract_dbus_socket_path dbus_addr = Some d)))) /\
    (path_starts_with (components document) (components xdg_runtime) = false ->
     (forall s, extract_dbus_socket_path dbus_addr = Some s ->
        path_starts_with (components document) (components s) = false) ->
     visible os (components document) = Some (FileFrom (decimal fd) document)).
Proof.
  cbv zeta. rewrite viewer_args_rendered. split; [done|]. cbn [tail]. unfold rendered. rewrite read_rendered.
  exists (viewer_options f fd xdg_runtime wayland_display home dbus_addr). split; [done|].
  assert (Hflag : forall o, o ∈ [Unshare User; Unshare Ipc; Unshare Net; Unshare Uts; DieWithParent; NewSession; ClearEnv] ->
    o ∈ viewer_options f fd xdg_runtime wayland_display home dbus_addr).
  { intros o Ho. unfold viewer_options, viewer_flags. rewrite !elem_of_app.
    rewrite !elem_of_cons, elem_of_nil in *. tauto. }
  assert (Hin : forall o, o ∈ viewer_options f fd xdg_runtime wayland_display home dbus_addr -> viewer_mount_ok xdg_runtime dbus_addr o).
  { apply list.Forall_forall. unfold viewer_options. rewrite !Forall_app.
    split_and!; [apply viewer_flags_ok|apply viewer_pseudo_ok|by constructor|apply viewer_mounts_ok]. }
  split_and!.
  - intros []; apply Hflag; apply (bool_decide_unpack _); done.
  - apply Hflag; apply (bool_decide_unpack _); done.
  - apply Hflag; apply (bool_decide_unpack _); done.
  - intros inherited k. unfold viewer_options. rewrite environment_app, environment_mounts.
    2: { pose proof (viewer_mounts_destinations f xdg_runtime home dbus_addr) as Hd.
         rewrite !Forall_app in *. destruct Hd as (Hp & _ & Hm). split_and!; [done| |done]. constructor; [by eexists|done]. }
    unfold viewer_flags, opt, look. destruct (decide (dbus_addr = [])) as [->|Hne].
    + cbn [bool_decide negb]. cbn. by repeat case_decide; simplify_eq.
    + rewrite bool_decide_eq_false_2 by done. cbn. by repeat case_decide; simplify_eq.
  - intros b s d Hm. exact (Hin _ Hm).
  - intros Hx Hs. unfold viewer_options. rewrite app_assoc. apply (visible_front _ (FileFrom _ _)); [done|].
    by apply viewer_mounts_elsewhere.
Qed.

(** *** Starting the viewer *)

(** Variables come from the system as C strings. *)
Definition clean (s : str) : Prop := Forall (fun b => b <> NUL) s.

Lemma clean_in s : clean s -> NUL ∉ s.
Proof. unfold clean. rewrite list.Forall_forall. intros Hs Hin. by apply (Hs NUL). Qed.

Lemma clean_app a b : clean a -> clean b -> clean (a ++ b).
Proof. intros. by apply Forall_app_2. Qed.

Lemma clean_trim s : clean s -> clean (trim s).
Proof.
  intros Hs. unfold clean, trim in *. rewrite <- (concat_chars s), Forall_concat in Hs.
  apply Forall_concat, Forall_reverse, drop_while_Forall, Forall_reverse, drop_while_Forall, Hs.
Qed.

Lemma clean_split c s cur : clean s -> clean cur -> Forall clean (split_on c s cur).
Proof.
  intros Hs. revert cur. induction Hs as [|b s Hb _ IH]; intros cur Hc; cbn [split_on]; [by constructor|].
  case_decide; [constructor; [done|by apply IH; constructor]|]. apply IH, clean_app; [done|by constructor].
Qed.

Lemma clean_stripped p s r : strip_prefix p s = Some r -> clean s -> clean r.
Proof. intros ->%strip_prefix_Some. by intros [_ ?]%Forall_app. Qed.

Lemma clean_socket dbus s : clean dbus -> extract_dbus_socket_path dbus = Some s -> clean s.
Proof.
  intros Hd. unfold extract_dbus_socket_path. assert (Hl : Forall clean (split_on Byte.x2c dbus [])) by (apply clean_split; [done|constructor]).
  induction Hl as [|e l He _ IH]; [done|]. cbn [unix_entry].
  destruct (strip_prefix (lit "unix:") (trim e)) as [rest|] eqn:Hr; [|done].
  apply clean_stripped in Hr; [|by apply clean_trim].
  assert (Hk : Forall clean (split_on Byte.x3b rest [])) by (apply clean_split; [done|constructor]).
  assert (Hp : forall x, path_key (split_on Byte.x3b rest []) = Some x -> clean x).
  { induction Hk as [|kv kvs Hkv _ IHk]; [done|]. intros x. cbn [path_key].
    destruct (strip_prefix (lit "path=") kv) as [q|] eqn:Hq; [|apply IHk]. intros [= <-]. by eapply clean_stripped. }
  destruct (path_key _) as [x|]; [|done]. intros [= <-]. by apply Hp.
Qed.

Lemma clean_decimal z : 0 <= z -> clean (decimal z).
Proof.
  intros Hz. eapply Forall_impl; [|by apply (decimal_of_digits 20)]. intros b [Hb _] ->. done.
Qed.

Definition cleanb (s : str) : bool := negb (bool_decide (NUL ∈ s)).

Lemma cleanb_true s : clean s -> cleanb s = true.
Proof. intros Hs%clean_in. unfold cleanb. by rewrite bool_decide_eq_false_2. Qed.

Lemma viewer_args_clean f fd xdg way home dbus :
  0 <= fd -> clean xdg -> clean way -> clean home -> clean dbus ->
  existsb (fun a => bool_decide (NUL ∈ a)) (build_bwrap_args f fd xdg way home dbus) = false.
Proof.
  intros Hfd Hx Hw Hh Hd. pose proof (clean_socket dbus) as Hs.
  assert (Hfp : cleanb (home ++ lit "/.local/share/flatpak") = true).
  { apply cleanb_true, clean_app; [done|]. apply (bool_decide_unpack _). done. }
  assert (Hn : cleanb (decimal fd) = true) by by apply cleanb_true, clean_decimal.
  pose proof (cleanb_true _ Hx) as Hxb. pose proof (cleanb_true _ Hw) as Hwb.
  pose proof (cleanb_true _ Hh) as Hhb. pose proof (cleanb_true _ Hd) as Hdb.
  assert (Hall : Forall (fun o => forallb cleanb (render o) = true) (viewer_options f fd xdg way home dbus)).
  { unfold viewer_options. rewrite !Forall_app. split_and!.
    - unfold viewer_flags. each_flag; cbn [render forallb]; rewrite ?Hxb, ?Hwb, ?Hhb, ?Hdb; reflexivity.
    - unfold viewer_pseudo. each_flag; reflexivity.
    - each_flag. cbn [render forallb]. rewrite Hn. reflexivity.
    - unfold viewer_mounts. cbv zeta. each_flag; cbn [render forallb]; rewrite ?Hfp, ?Hxb; try reflexivity.
      destruct (extract_dbus_socket_path dbus) as [s|]; each_flag. cbn [render forallb].
      rewrite (cleanb_true s) by by apply Hs. reflexivity. }
  assert (Hargs : forallb cleanb (build_bwrap_args f fd xdg way home dbus) = true).
  { rewrite viewer_args_rendered. cbn [forallb]. rewrite forallb_app. unfold rendered.
    replace (forallb cleanb (concat (map render (viewer_options f fd xdg way home dbus)))) with true; [reflexivity|].
    symmetry. clear -Hall. induction Hall as [|o os Ho _ IH]; [done|]. cbn [map concat]. by rewrite forallb_app, Ho. }
  clear -Hargs. induction (build_bwrap_args f fd xdg way home dbus) as [|x l IH]; [done|]. cbn [forallb existsb] in *.
  apply andb_true_iff in Hargs as [Hx Hl]. unfold cleanb in Hx. destruct (bool_decide (NUL ∈ x)); [done|]. by apply IH.
Qed.

(** Starting the viewer hands over the document and keeps nothing.  With variables
    as the system gives them, the arguments can always be passed.  When the viewer is
    started, the container's arguments are those of the closed container, the
    descriptor they name is open in the child on the very file the caller passed, at
    its beginning, and is the only one the child has more.  However the call ends, the
    program's own descriptors are what they were, and a failure starts nothing. *)
Theorem viewer_gets_the_document f vars free fork fd s :
  (forall k v, vars k = Some v -> clean v) -> (forall n, free = Some n -> 0 <= n /\ table s !! n = None) ->
  let (r, s') := spawn_in_bwrap_sandbox f vars free fork fd s in
  r <> Panic /\ table s' = table s /\
  match r with
  | Ok pid => exists args child n file os,
      children s' = children s ++ [(pid, args, child)] /\ table s !! fd = Some file /\
      child = <[n := file]> (table s) /\ table s !! n = None /\ offsets s' !! file = Some 0 /\
      read_options (tail args) = Some (os, viewer_command) /\ FileFrom (decimal n) document ∈ os
  | _ => children s' = children s
  end.
Proof.
  intros Hvars Hfree. unfold spawn_in_bwrap_sandbox.
  destruct (table s !! fd) as [file|] eqn:Hfd; [|by split_and!]. destruct free as [n|]; [|by split_and!].
  destruct (Hfree n eq_refl) as [Hn Hnone].
  assert (Hc : forall d k, clean d -> clean (default d (vars k))).
  { intros d k Hd. destruct (vars k) as [v|] eqn:Hv; [by eapply Hvars|done]. }
  rewrite viewer_args_clean; [|done|apply Hc; by apply (bool_decide_unpack _)..|apply Hc; constructor].
  destruct fork as [pid|]; cbn [table children offsets]; (split; [done|]);
    (split; [apply delete_insert_id; done|]); [|done].
  eexists _, _, n, file, (viewer_options f n _ _ _ _). split_and!; [done..|by rewrite lookup_insert_eq| |].
  - rewrite viewer_args_rendered. cbn [tail]. apply read_rendered.
  - unfold viewer_options. rewrite !elem_of_app. right; right; left. left.
Qed.

(** A laptop: everything the arguments look for is there. *)
Definition laptop : Files := {| present := fun _ => true; is_symlink := fun _ => Some false |}.

Definition session (k : str) : option str :=
  look k [(lit "WAYLAND_DISPLAY", lit "wayland-1"); (lit "XDG_RUNTIME_DIR", lit "/run/user/1000");
          (lit "HOME", lit "/home/ada"); (lit "DBUS_SESSION_BUS_ADDRESS", lit "unix:path=/run/user/1000/bus")].

Lemma session_clean k v : session k = Some v -> clean v.
Proof.
  unfold session, look. cbn [List.find].
  repeat case_match; cbn; intros [= <-]; apply (bool_decide_unpack _); done.
Qed.

(** The program with the document's descriptor, read to its end. *)
Definition reading : Parent := {| table := {[5 := 0%nat]}; offsets := {[0%nat := 4096]}; children := [] |}.

Lemma viewer_gets_the_document_witness :
  (spawn_in_bwrap_sandbox laptop session (Some 7) (Some 321) 5 reading).1 = Ok 321 /\
  let (r, s') := spawn_in_bwrap_sandbox laptop session (Some 7) (Some 321) 5 reading in
  r <> Panic /\ table s' = table reading /\
  match r with
  | Ok pid => exists args child n file os,
      children s' = children reading ++ [(pid, args, child)] /\ table reading !! 5 = Some file /\
      child = <[n := file]> (table reading) /\ table reading !! n = None /\ offsets s' !! file = Some 0 /\
      read_options (tail args) = Some (os, viewer_command) /\ FileFrom (decimal n) document ∈ os
  | _ => children s' = children reading
  end.
Proof.
  split; [vm_compute; reflexivity|].
  apply (viewer_gets_the_document laptop session (Some 7) (Some 321) 5 reading session_clean).
  intros n [= <-]. split; [done|reflexivity].
Defined.

(** *** The program's own container *)

Lemma environment_keeps k os e : Forall (fun o => forall x, set_env o x k = x k) os -> environment os e k = e k.
Proof.
  intros Hos. revert e. induction Hos as [|o os Ho _ IH]; intros e; [done|].
  change (environment (o :: os) e k) with (environment os (set_env o e) k). by rewrite IH.
Qed.

Lemma environment_set k v a b e :
  Forall (fun o => forall x, set_env o x k = x k) b -> environment (a ++ SetEnv k v :: b) e k = Some v.
Proof.
  intros Hb. rewrite environment_app. change (environment (SetEnv k v :: b) ?x) with (environment b (set_env (SetEnv k v) x)).
  rewrite environment_keeps by done. cbn. by rewrite decide_True.
Qed.

(** What the program's container may hold: no new user or network namespace, no change
    of the environment but the five variables, and from the host everything under its
    own name, writable only the graphics device, the runtime directory, the homes and
    the message bus's socket. *)
Definition passed : list str :=
  map lit ["ATOM_BWRAP_SANDBOX"; "WAYLAND_DISPLAY"; "XDG_RUNTIME_DIR"; "HOME"; "DBUS_SESSION_BUS_ADDRESS"].

Definition self_ok (xdg_runtime home dbus_addr : str) (o : flag) : Prop :=
  match o with
  | Unshare n => n = Ipc \/ n = Uts
  | ClearEnv => False
  | SetEnv k _ => k ∈ passed
  | Mount b s d => s = d /\
      (b = RoBind \/ b = RoBindTry \/ d ∈ [lit "/dev/dri"; xdg_runtime; home; lit "/var/home"; lit "/home"] \/
       extract_dbus_socket_path dbus_addr = Some d)
  | _ => True
  end.

Ltac member := rewrite !elem_of_cons; repeat first [left; reflexivity | right].

Lemma self_options_ok f xdg way home dbus : Forall (self_ok xdg home dbus) (self_options f xdg way home dbus).
Proof.
  unfold self_options, self_variables. cbv zeta. rewrite !Forall_app.
  assert (Hro : forall l b, b = RoBind \/ b = RoBindTry -> Forall (self_ok xdg home dbus) (map (fun p => Mount b p p) l)).
  { intros l b Hb. apply Forall_map, Forall_true. intros p. split; [done|tauto]. }
  assert (Hrw : forall b d, d ∈ [lit "/dev/dri"; xdg; home; lit "/var/home"; lit "/home"] -> self_ok xdg home dbus (Mount b d d)).
  { intros b d Hd. split; [done|by right; right; left]. }
  assert (Hset : forall k v, bool_decide (lit k ∈ passed) = true -> self_ok xdg home dbus (SetEnv (lit k) v)).
  { intros k v. apply bool_decide_eq_true. }
  assert (Hopt : forall c b d, (b = RoBind \/ b = RoBindTry) \/ d ∈ [lit "/dev/dri"; xdg; home; lit "/var/home"; lit "/home"] ->
            Forall (self_ok xdg home dbus) (opt c (Mount b d d))).
  { intros c b d Hb. apply Forall_opt. intros _. destruct Hb; [split; [done|tauto]|by apply Hrw]. }
  split_and!.
  all: try (apply Hro; by right).
  all: try (apply Hopt; first [right; by member | left; tauto]).
  all: try (constructor; [first [by apply Hset | apply Hrw; by member | split; [done|tauto]]|constructor]; fail).
  - apply Forall_concat_map, Forall_true. intros p. apply Hopt. tauto.
  - by repeat constructor.
  - by repeat constructor.
  - repeat constructor; try (left; reflexivity); right; reflexivity.
  - destruct (extract_dbus_socket_path dbus) as [s|] eqn:Hs; [|constructor].
    constructor; [by apply (Hset "DBUS_SESSION_BUS_ADDRESS"%string)|]. apply Forall_opt. intros _. split; [done|tauto].
Qed.

Lemma self_options_passed f xdg way home dbus k e :
  k ∉ passed -> environment (self_options f xdg way home dbus) e k = e k.
Proof.
  intros Hk. apply environment_keeps. eapply Forall_impl; [|apply (self_options_ok f xdg way home dbus)].
  intros o Ho x. destruct o; try done. cbn. rewrite decide_False; [done|]. intros ->. by apply Hk.
Qed.

Lemma self_options_marked f xdg way home dbus e :
  environment (self_options f xdg way home dbus) e (lit "ATOM_BWRAP_SANDBOX") = Some (lit "1").
Proof.
  unfold self_options. cbv zeta. rewrite !app_assoc, <- (app_assoc _ [_]). apply environment_set.
  unfold self_variables. rewrite !Forall_app. split_and!; try (by repeat constructor).
  destruct (extract_dbus_socket_path dbus); [|constructor]. constructor; [done|]. by apply Forall_opt.
Qed.

Lemma self_options_runtime f xdg way home dbus e :
  environment (self_options f xdg way home dbus) e (lit "XDG_RUNTIME_DIR") = Some xdg.
Proof.
  unfold self_options, self_variables. cbv zeta.
  rewrite !app_assoc, <- (app_assoc _ [SetEnv (lit "HOME") home]), <- (app_assoc _ [SetEnv (lit "XDG_RUNTIME_DIR") xdg]).
  apply environment_set. constructor; [done|].
  destruct (extract_dbus_socket_path dbus); [|constructor]. constructor; [done|]. by apply Forall_opt.
Qed.

Lemma self_options_has f xdg way home dbus o :
  o ∈ [Unshare Ipc; Unshare Uts; NewSession; DieWithParent] -> o ∈ self_options f xdg way home dbus.
Proof. intros Ho. unfold self_options. cbv zeta. rewrite !elem_of_app. tauto. Qed.

Lemma self_options_view f xdg way home dbus :
  Mount Bind xdg xdg ∈ self_options f xdg way home dbus /\ Tmpfs (lit "/tmp") ∈ self_options f xdg way home dbus.
Proof.
  unfold self_options. cbv zeta. rewrite !elem_of_app. rewrite !elem_of_cons. split; tauto.
Qed.

(** The program puts itself into its container at most once.  When it starts
    [bwrap], the staging folder has been made and the argument list is read back as a fixed set of options and the command:
    its own executable and the arguments it was given, in their lossy reading.  The
    container has its own IPC and host-name namespaces and dies with the program;
    everything bound from the host keeps its name, and only the graphics device, the
    runtime directory, the homes and the message bus's socket are writable; the runtime
    directory is bound and [/tmp] is its own.  No
    variable but the five passed ones is changed, the runtime directory stays, and the copy started in that
    environment does not start another. *)
Theorem self_sandbox_once p made args :
  try_bwrap_self_sandbox p = Some (made, args) ->
  exists os exe xdg_runtime home,
    current_exe p = Some exe /\ variable p (lit "XDG_RUNTIME_DIR") = Some xdg_runtime /\ home_dir p = Some home /\
    made = xdg_runtime ++ lit "/atom_staging" /\
    read_options args = Some (os, from_utf8_lossy exe :: map from_utf8_lossy (tail (arguments p))) /\
    (forall n, Unshare n ∈ os <-> n = Ipc \/ n = Uts) /\ DieWithParent ∈ os /\ NewSession ∈ os /\
    (forall b s d, Mount b s d ∈ os -> s = d /\
       (b = RoBind \/ b = RoBindTry \/
        d ∈ [lit "/dev/dri"; xdg_runtime; from_utf8_lossy home; lit "/var/home"; lit "/home"] \/
        extract_dbus_socket_path (default [] (variable p (lit "DBUS_SESSION_BUS_ADDRESS"))) = Some d)) /\
    (forall k, k ∉ passed -> environment os (variable p) k = variable p k) /\
    environment os (variable p) (lit "XDG_RUNTIME_DIR") = Some xdg_runtime /\
    (Mount Bind xdg_runtime xdg_runtime ∈ os /\ Tmpfs (lit "/tmp") ∈ os) /\
    forall q, (forall k, variable q k = environment os (variable p) k) -> try_bwrap_self_sandbox q = None.
Proof.
  unfold try_bwrap_self_sandbox at 1. repeat (case_match; [done|]).
  destruct (current_exe p) as [exe|]; [cbn [mbind option_bind]|done].
  destruct (variable p (lit "XDG_RUNTIME_DIR")) as [xdg|]; [cbn [mbind option_bind]|done].
  destruct (home_dir p) as [home|]; [cbn [mbind option_bind]|done]. intros [= <- <-].
  set (way := default (lit "wayland-0") _). set (dbus := default [] _).
  pose proof (self_options_ok (files p) xdg way (from_utf8_lossy home) dbus) as Hok. rewrite list.Forall_forall in Hok.
  eexists (self_options (files p) xdg way (from_utf8_lossy home) dbus), exe, xdg, home. split_and!; [done..| | | | | | | | | |].
  - rewrite self_args_rendered. apply read_rendered.
  - intros n. split; [apply (Hok (Unshare n))|]. intros [-> | ->]; apply self_options_has; by member.
  - apply self_options_has. by member.
  - apply self_options_has. by member.
  - intros b s d. apply (Hok (Mount b s d)).
  - intros k. apply self_options_passed.
  - apply self_options_runtime.
  - apply self_options_view.
  - apply self_options_view.
  - intros q Hq. unfold try_bwrap_self_sandbox. rewrite Hq, self_options_marked. done.
Qed.

(** The program as it is started from a desktop. *)
Definition started : Process := {|
  files := {| present := fun p => negb (bool_decide (p = lit "/.flatpak-info")); is_symlink := fun _ => Some true |};
  variable := session; namespaces := true; current_exe := Some (lit "/usr/bin/atom");
  home_dir := Some (lit "/home/ada"); arguments := [lit "atom"; lit "gui"] |}.

Lemma started_sandboxed : exists made args, try_bwrap_self_sandbox started = Some (made, args).
Proof. by eexists _, _. Qed.

Lemma self_sandbox_once_witness :
  exists made args os, try_bwrap_self_sandbox started = Some (made, args) /\
    read_options args = Some (os, [lit "/usr/bin/atom"; lit "gui"]).
Proof.
  destruct started_sandboxed as (made & args & Hargs). exists made, args.
  destruct (self_sandbox_once started made args Hargs) as (os & exe & xdg & home & Hexe & _ & _ & _ & Hread & _).
  exists os. injection Hexe as <-. exact (conj Hargs Hread).
Defined.

(** *** The message bus's address *)

(** The D-Bus specification separates addresses by [;] and the keys of one by [,]: an
    address whose [path] is not its first key, or is followed by another, is not
    understood. *)
Example dbus_address_read :
  extract_dbus_socket_path (lit "unix:path=/run/user/1000/bus") = Some (lit "/run/user/1000/bus").
Proof. reflexivity. Qed.

Example dbus_guid_lost : extract_dbus_socket_path (lit "unix:guid=6f,path=/run/user/1000/bus") = None.
Proof. reflexivity. Qed.

Example dbus_second_lost :
  extract_dbus_socket_path (lit "tcp:host=h,port=1;unix:path=/run/user/1000/bus") = None.
Proof. reflexivity. Qed.
