(* ===== verification/Display.v ===== *)
(** * Listing and showing files

    [atom/src/commands/ls.rs], [cat.rs] and the memory file of [vfs/mod.rs]: what
    reaches the terminal. *)

From Stdlib Require Import Strings.Byte.
From stdpp Require Import strings gmap.
From S2P Require Import Prelude Text Primitives StateM Disk VaultCrypto Vfs Storage VaultOps VaultSpec.
From S2P Require Import ToyVault Vault VaultSafety.

(** ** Listing *)

(** [char::is_ascii_control]. *)
Definition is_ascii_control (c : str) : bool :=
  match c with [b] => (b2z b <? 32) || (b2z b =? 127) | _ => false end.

Definition sanitized_name (name : str) : str :=
  concat (map (fun c => if is_ascii_control c then lit "?" else c) (chars name)).

(** [{:<20}]: padded on the right to 20 characters. *)
Definition pad20 (s : str) : str := s ++ zrep (20 - zlen (chars s)) Byte.x20.

Definition nl : str := [Byte.x0a].

Definition handle_ls (m : VaultMetadata) : str :=
  lit "--- Volatile VFS File Allocation Table ---" ++ nl ++
  match file_table m with
  | [] => lit "Vault is empty." ++ nl
  | table => concat (map (fun f => lit "File: " ++ pad20 (sanitized_name (vfs_name f))
                                    ++ lit " Chunks: " ++ decimal (zlen (chunks f)) ++ nl) table)
  end.

(** ** Showing *)

(** [{:02X}]. *)
Definition hex_upper (b : byte) : str := map ascii_upper (hex_byte b).
Definition hex_row (l : bytes) : str := concat (map (fun b => hex_upper b ++ [Byte.x20]) l).

(** A control byte but for newline, tab and carriage return. *)
Definition raw_control (b : byte) : bool :=
  (b2z b <? 32) && negb (bool_decide (b = Byte.x0a \/ b = Byte.x09 \/ b = Byte.x0d)).

Definition control_chars_count (buffer : bytes) : Z := zlen (List.filter raw_control buffer).

Definition shown_char (c : str) : str :=
  match c with
  | [b] => if is_ascii_control c && negb (bool_decide (b = Byte.x0a \/ b = Byte.x09 \/ b = Byte.x0d))
           then lit "\x" ++ hex_upper b else c
  | _ => c
  end.

(** [buffer.chunks(16)], a line each. *)
Fixpoint hex_layout (fuel : nat) (buffer : bytes) : str :=
  match fuel, buffer with
  | S fuel, _ :: _ => hex_row (ztake 16 buffer) ++ nl ++ hex_layout fuel (zdrop 16 buffer)
  | _, _ => []
  end.

(** What [handle_cat] prints of the content. *)
Definition screen (buffer : bytes) : str :=
  if zlen buffer / 100 <? control_chars_count buffer then
    let preview_len := Z.min (zlen buffer) 64 in
    lit "[Note: Binary or Null-padded data detected. Suppressing automated terminal flood.]" ++ nl ++
    lit "First " ++ decimal preview_len ++ lit " bytes (HEX Preview): "
      ++ hex_row (ztake preview_len buffer) ++ nl
  else match from_utf8 buffer with
  | Some text => concat (map shown_char (chars text))
  | None =>
      lit "[Note: Non-UTF8 Binary file detected. Displaying sanitized HEX layout]" ++ nl ++
      hex_layout (length buffer) buffer
  end.

Section cat.
Context `{Aead} `{Sha256}.
Variable fault : nat -> option Z.

Definition AEAD_TAG_LEN : Z := 16.

(** The capacity: a [sum] of [usize]. *)
Definition chunk_capacity (c : ChunkEntry) : Z :=
  if 0 <? plain_len c then plain_len c else Z.max 0 (cipher_len c - AEAD_TAG_LEN).
Definition total_capacity (cs : list ChunkEntry) : Z :=
  foldl (fun acc c => wadd64 acc (chunk_capacity c)) 0 cs.

(** [MemFile::new]: a name with a NUL or of more than 249 bytes, a size past
    [off_t] and an empty mapping are refused. *)
Definition memfile_new (name : str) (size : Z) : V file :=
  if bool_decide (Byte.x00 ∈ name) then fails (VMsg "nul byte found in provided data") else
  let! _ := sys fault "memfd_create" (fun s =>
    if 249 <? zlen name then Err (VIo "memfd_create") else Ok (tt, s)) in
  let! _ := sys fault "ftruncate" (fun s =>
    if 2 ^ 63 <=? size then Err (VIo "ftruncate") else Ok (tt, s)) in
  let! _ := sys fault "mmap" (fun s => if size =? 0 then Err (VIo "mmap") else Ok (tt, s)) in
  mret (File (zrep size Byte.x00) 0).

(** Writing to it: an error is only printed; the seals keep the file from growing. *)
Definition memfile_write (mem : file) (b : bytes) : V file := fun s =>
  match fault (ios s) with
  | Some k => (Ok (f_write (ztake k b) mem), bump s)
  | None => (Ok (if cursor mem + zlen b <=? f_len mem then f_write b mem else mem), bump s)
  end.

Fixpoint cat_loop (u : UnlockedVault) (cs : list ChunkEntry) (mem : file) : V file :=
  match cs with
  | [] => mret mem
  | c :: cs =>
      let! _ := seek fault Vault (offset c) in
      let! plaintext := mmap_err (fun _ => VMsg "Chunk processing error") (process_secure_chunk fault u c) in
      let! mem := memfile_write mem plaintext in
      cat_loop u cs mem
  end.

(** What it prints; an error is the caller's. *)
Definition handle_cat (u : UnlockedVault) (name : str) : V str :=
  let! m := gets meta in
  match find_file name m with
  | None => mret (lit "Error: File '" ++ name ++ lit "' not found in vault." ++ nl)
  | Some target_file =>
      let! memfile := memfile_new name (total_capacity (chunks target_file)) in
      let! memfile := cat_loop u (chunks target_file) memfile in
      let! final_pos := sys fault "lseek" (fun s => Ok (cursor memfile, s)) in
      let! _ := sys fault "lseek" (fun s => Ok (tt, s)) in
      let! buffer := sys fault "read" (fun s =>
        let? b := ok_or (slice 0 final_pos (content memfile)) (VIo "read") in Ok (b, s)) in
      mret (nl ++ lit "--- Start of " ++ name ++ lit " ---" ++ nl ++ screen buffer
            ++ nl ++ lit "--- End of " ++ name ++ lit " ---" ++ nl ++ nl)
  end.
End cat.

(** ** What the terminal gets *)

(** A byte that does not control the terminal, or only breaks a line or indents. *)
Definition terminal_safe (b : byte) : bool :=
  ((32 <=? b2z b) && negb (b2z b =? 127)) || bool_decide (b = Byte.x0a \/ b = Byte.x09 \/ b = Byte.x0d).
Definition safe (s : str) : Prop := Forall (fun b => terminal_safe b = true) s.

Lemma safe_app s t : safe s -> safe t -> safe (s ++ t).
Proof. intros. by apply Forall_app. Qed.

Lemma safe_concat (ls : list str) : Forall safe ls -> safe (concat ls).
Proof. induction 1 as [|l ls Hl _ IH]; [constructor|]. by apply safe_app. Qed.

Lemma safe_decide s : forallb terminal_safe s = true -> safe s.
Proof. apply forallb_Forall. Qed.

Lemma hex_upper_safe b : safe (hex_upper b).
Proof. apply safe_decide. revert b. apply byte_forall. by vm_compute. Qed.

Lemma hex_row_safe l : safe (hex_row l).
Proof.
  apply safe_concat. induction l as [|b l IH]; constructor; [|done].
  apply safe_app; [apply hex_upper_safe|by apply safe_decide].
Qed.

Lemma hex_layout_safe fuel l : safe (hex_layout fuel l).
Proof.
  revert l. induction fuel as [|fuel IH]; intros [|b l]; cbn [hex_layout]; try apply Forall_nil_2.
  apply safe_app; [apply hex_row_safe|]. apply safe_app; [by apply safe_decide|apply IH].
Qed.

Lemma decimal_safe z : 0 <= z -> safe (decimal z).
Proof.
  intros Hz. eapply Forall_impl; [|by apply (decimal_of_digits 20)]. intros b [Hb _].
  unfold in_range in Hb. bools. unfold terminal_safe. by zdec.
Qed.

(** A character of a valid string is one ASCII byte, or bytes above them. *)
Definition char_ok (c : str) : Prop :=
  (exists b, c = [b] /\ b2z b < 128) \/ (Forall (fun b => 128 <= b2z b) c /\ (2 <= length c)%nat).

Lemma chars_ok s : utf8_valid s = true -> Forall char_ok (chars s).
Proof.
  remember (length s) as n eqn:Hn. assert (Hle : (length s <= n)%nat) by lia. clear Hn.
  revert s Hle. induction n as [|n IH]; intros [|b0 l1] Hle Hv; cbn [length] in Hle;
    [apply Forall_nil_2|lia|apply Forall_nil_2|].
  cbn [utf8_valid chars] in *. pose proof (b2z_range b0).
  destruct (in_range 0 127 b0) eqn:H0.
  { unfold in_range in H0. bools. zdec. constructor; [left; exists b0; split; [done|lia]|]. apply IH; [lia|done]. }
  destruct l1 as [|b1 l2]; [done|]. cbn [length] in Hle.
  destruct (in_range 194 223 b0) eqn:H1.
  { bools. unfold in_range, is_cont, in_range in *. bools. zdec.
    constructor; [right; split; [repeat constructor; lia|done]|]. apply IH; [lia|done]. }
  destruct l2 as [|b2 l3]; [done|]. cbn [length] in Hle.
  match type of Hv with (if ?c then _ else _) = true => destruct c eqn:H2 end.
  { assert (Hb : 224 <= b2z b0 <= 239 /\ 128 <= b2z b1).
    { repeat (apply orb_true_iff in H2 as [H2|H2]); unfold is_cont, in_range in H2; bools; lia. }
    bools. unfold is_cont, in_range in *. bools. zdec.
    constructor; [right; split; [repeat constructor; lia|cbn; lia]|]. apply IH; [lia|done]. }
  destruct l3 as [|b3 l4]; [done|]. cbn [length] in Hle.
  match type of Hv with (if ?c then _ else _) = true => destruct c eqn:H3; [|done] end.
  assert (Hb : 240 <= b2z b0 /\ 128 <= b2z b1).
  { repeat (apply orb_true_iff in H3 as [H3|H3]); unfold is_cont, in_range in H3; bools; lia. }
  bools. unfold is_cont, in_range in *. bools. zdec.
  constructor; [right; split; [repeat constructor; lia|cbn; lia]|]. apply IH; [lia|done].
Qed.

Lemma shown_char_safe c : char_ok c -> safe (shown_char c).
Proof.
  intros [(b & -> & Hb)|[Hc Hl]].
  - apply safe_decide. clear Hb. revert b. apply byte_forall. by vm_compute.
  - assert (Hs : shown_char c = c) by (destruct c as [|? [|? ?]]; [done|cbn in Hl; lia|done]).
    rewrite Hs. eapply Forall_impl; [|exact Hc]. intros b Hb. cbn in Hb. unfold terminal_safe. by zdec.
Qed.

Lemma shown_char_id c : safe c -> shown_char c = c.
Proof.
  destruct c as [|b [|? ?]]; try done. intros Hs. inversion Hs as [|? ? Hb _]; subst. revert Hb. clear Hs.
  assert (Hall : forall b, implb (terminal_safe b) (bool_decide (shown_char [b] = [b])) = true)
    by (apply byte_forall; by vm_compute).
  intros Hb. specialize (Hall b). rewrite Hb in Hall. by apply bool_decide_eq_true in Hall.
Qed.

Lemma chars_safe s : safe s -> Forall safe (chars s).
Proof.
  intros Hs. apply Forall_forall. intros c Hc. rewrite <- (concat_chars s) in Hs.
  apply in_split in Hc as (l1 & l2 & Heq). rewrite Heq, concat_app in Hs. cbn [concat] in Hs.
  apply Forall_app in Hs as [_ Hs]. by apply Forall_app in Hs as [Hs _].
Qed.

Lemma no_controls s : safe s -> control_chars_count s = 0.
Proof.
  unfold control_chars_count. induction 1 as [|b s Hb _ IH]; [done|]. cbn [List.filter].
  assert (Hall : forall b, implb (terminal_safe b) (negb (raw_control b)) = true)
    by (apply byte_forall; by vm_compute).
  specialize (Hall b). rewrite Hb in Hall. cbn in Hall. apply negb_true_iff in Hall. by rewrite Hall.
Qed.

Lemma screen_safe buffer : safe (screen buffer).
Proof.
  unfold screen. destruct (_ <? _).
  - repeat (apply safe_app; [first [by apply safe_decide|apply decimal_safe|apply hex_row_safe]|]).
    { pose proof (zlen_nonneg buffer). lia. } by apply safe_decide.
  - destruct (from_utf8 buffer) as [t|] eqn:Ht.
    + apply from_utf8_Some in Ht as [-> Hv]. apply safe_concat. apply Forall_map.
      eapply Forall_impl; [|by apply chars_ok]. apply shown_char_safe.
    + repeat (apply safe_app; [by apply safe_decide|]). apply hex_layout_safe.
Qed.

Lemma screen_text s : utf8_valid s = true -> safe s -> screen s = s.
Proof.
  intros Hv Hs. unfold screen. rewrite no_controls by done. pose proof (zlen_nonneg s).
  pose proof (Z.div_pos (zlen s) 100 ltac:(lia) ltac:(lia)). zdec. unfold from_utf8. rewrite Hv.
  transitivity (concat (chars s)); [|apply concat_chars]. f_equal.
  pose proof (chars_safe s Hs) as Hc. induction Hc as [|c cs Hc _ IH]; [done|]. cbn [map].
  by rewrite shown_char_id, IH.
Qed.

(** No control character at all. *)
Definition printable (b : byte) : bool := (32 <=? b2z b) && negb (b2z b =? 127).

Lemma sanitized_printable name :
  utf8_valid name = true -> Forall (fun b => printable b = true) (sanitized_name name).
Proof.
  intros Hv. unfold sanitized_name. pose proof (chars_ok name Hv) as Hc.
  induction Hc as [|c cs Hc _ IH]; [constructor|]. cbn [map concat]. apply Forall_app. split; [|exact IH].
  destruct Hc as [(b & -> & _)|[Hc Hl]].
  - apply forallb_Forall. revert b. apply byte_forall. by vm_compute.
  - assert (Hs : is_ascii_control c = false) by (destruct c as [|? [|? ?]]; [done|cbn in Hl; lia|done]).
    rewrite Hs. eapply Forall_impl; [|exact Hc]. intros b Hb. cbn in Hb. unfold printable. by zdec.
Qed.

(** the terminal cannot be driven by what a vault holds: whatever bytes a file
    has, what [cat] prints of them carries no control byte but newline, tab and
    carriage return (escape sequences come out as text, binary content as
    hexadecimal); a clean text is printed as it is; and a listing shows no control
    byte of any file's name. *)
Theorem terminal_output_safe :
  (forall buffer, safe (screen buffer)) /\
  (forall s, utf8_valid s = true -> safe s -> screen s = s) /\
  (forall m, Forall (fun f => utf8_valid (vfs_name f) = true) (file_table m) -> safe (handle_ls m)).
Proof.
  split_and!; [apply screen_safe|apply screen_text|].
  intros m Hm. unfold handle_ls. repeat (apply safe_app; [by apply safe_decide|]).
  destruct (file_table m) as [|f0 t0] eqn:Ht; [by apply safe_decide|]. rewrite <- Ht in *. clear Ht.
  apply safe_concat, Forall_map. eapply Forall_impl; [|exact Hm]. intros f Hf. cbv beta in *.
  apply safe_app; [by apply safe_decide|]. apply safe_app.
  { unfold pad20. apply safe_app.
    - eapply Forall_impl; [|by apply sanitized_printable]. intros b Hb. unfold terminal_safe, printable in *.
      by rewrite Hb.
    - unfold safe, zrep. by apply list.Forall_replicate. }
  repeat (apply safe_app; [first [by apply safe_decide|apply decimal_safe, zlen_nonneg]|]).
  by apply safe_decide.
Qed.

(** ** Showing a stored file *)

Section cat_lemmas.
Context `{PasswordHash} `{Aead} `{Sha256} `{Bincode} `{FastCdc} `{!AeadLaws _} `{!Sha256Laws _}.

Lemma decrypt_chunk_length u blob i p :
  decrypt_chunk u blob i = Ok p -> zlen p = zlen blob - CHUNK_OVERHEAD.
Proof.
  unfold decrypt_chunk. intros Hd. apply obind_Ok in Hd as (rest & Hr & Hd). apply ok_or_Ok, strip_prefix_Some in Hr.
  destruct (_ <? _) eqn:Hl; [done|]. bools. apply obind_Ok in Hd as (k & _ & Hd).
  apply ok_or_Ok, aead_open_seal, aead_seal_length in Hd. subst blob. revert Hd. rewrite !zlen_drop, zlen_app.
  unfold CHUNK_OVERHEAD, FILE_SALT_LEN, XNONCE_LEN in *. lia.
Qed.

(** A chunk's data fits its capacity, which is within the blob's length. *)
Lemma chunk_data_length u c e d :
  chunk_data u c e = Some d -> 0 <= plain_len e ->
  zlen d <= chunk_capacity e /\ chunk_capacity e <= cipher_len e.
Proof.
  unfold chunk_data, chunk_capacity, AEAD_TAG_LEN. intros Hd Hp.
  destruct (slice _ _ c) as [blob|] eqn:Hs; [|done]. apply slice_length in Hs.
  destruct (decrypt_chunk u blob _) as [p|?|] eqn:Hdec; [|done..]. apply decrypt_chunk_length in Hdec.
  unfold strip_padding in Hd. assert (HO : CHUNK_OVERHEAD = 59) by done. pose proof (zlen_nonneg p).
  destruct (0 <? plain_len e) eqn:Hpl; bools.
  - destruct (slice 0 (plain_len e) p) as [x|] eqn:Hx; cbn in Hd; [|done]. injection Hd as <-.
    pose proof (slice_length _ _ _ _ Hx). apply slice_Some in Hx as (_ & ? & _). lia.
  - injection Hd as <-. lia.
Qed.

Lemma total_capacity_sum u c cs ds acc lo hi :
  Forall2 (fun e d => chunk_data u c e = Some d) cs ds -> Forall chunk_typed cs -> ordered lo cs hi ->
  0 <= acc -> acc + (hi - lo) < 2 ^ 64 ->
  let t := foldl (fun acc c => wadd64 acc (chunk_capacity c)) acc cs in
  acc + zlen (concat ds) <= t /\ t <= acc + (hi - lo) /\
  (forall e, e ∈ cs -> 0 < chunk_capacity e -> acc < t).
Proof.
  intros Hf. revert acc lo. induction Hf as [|e d cs ds Hd _ IH]; intros acc lo Hty Ho Hacc Hmax; cbn [foldl concat].
  { cbn in Ho. split_and!; [rewrite zlen_nil; lia|lia|by intros e ?%elem_of_nil]. }
  apply list.Forall_cons in Hty as [(_ & _ & _ & Hp) Hty]. cbn [ordered] in Ho. destruct Ho as (Hlo & Hcl & Ho).
  pose proof (ordered_le _ _ _ Ho). destruct (chunk_data_length _ _ _ _ Hd) as [Hle Hcap]; [apply Hp|].
  pose proof (zlen_nonneg d).
  assert (Hw : wadd64 acc (chunk_capacity e) = acc + chunk_capacity e) by (unfold wadd64; apply Z.mod_small; lia).
  rewrite Hw. destruct (IH (acc + chunk_capacity e) _ Hty Ho) as (I1 & I2 & I3); [lia|lia|].
  split_and!; [rewrite zlen_app; lia|lia|].
  intros x Hx Hpos. pose proof (zlen_nonneg (concat ds)). apply elem_of_cons in Hx as [->|Hx]; [lia|].
  specialize (I3 x Hx Hpos). lia.
Qed.

(** The memory file after [done] was written to it. *)
Definition memory (size : Z) (done : bytes) : file :=
  File (done ++ zrep (size - zlen done) Byte.x00) (zlen done).

Lemma memory_write size done d :
  zlen done + zlen d <= size ->
  (if cursor (memory size done) + zlen d <=? f_len (memory size done)
   then f_write d (memory size done) else memory size done) = memory size (done ++ d).
Proof.
  intros Hl. pose proof (zlen_nonneg done). pose proof (zlen_nonneg d). unfold memory, f_len. cbn [cursor content].
  rewrite !zlen_app, zlen_rep. zdec. unfold f_write. cbn [cursor content]. f_equal. unfold splice.
  rewrite ztake_app_l by done. rewrite zlen_app, zlen_rep.
  replace (zrep (zlen done - _) Byte.x00) with (@nil byte)
    by (unfold zrep; by replace (Z.to_nat _) with 0%nat by lia).
  cbn [app]. rewrite zdrop_app_ge by lia. rewrite <- app_assoc. f_equal. f_equal.
  replace (zlen done + zlen d - zlen done) with (zlen d) by lia.
  unfold zdrop, zrep. rewrite drop_replicate. f_equal. lia.
Qed.

Abbreviation none := (fun _ : nat => @None Z).

Lemma runs_mmap_err {A} (f : vault_error -> vault_error) (m : V A) s (Q : A -> vault -> Prop) :
  runs m s Q -> runs (mmap_err f m) s Q.
Proof. intros (a & s' & Hm & HQ). exists a, s'. split; [|done]. unfold mmap_err. by rewrite Hm. Qed.

Lemma cat_loop_runs u cs ds size written s c p (Q : file -> vault -> Prop) :
  phys s = File c p -> Forall2 (fun e d => chunk_data u c e = Some d) cs ds ->
  zlen written + zlen (concat ds) <= size ->
  (forall s' p', phys s' = File c p' -> frame Vault s s' -> Q (memory size (written ++ concat ds)) s') ->
  runs (cat_loop none u cs (memory size written)) s Q.
Proof.
  intros Hp Hf. revert written s p Q Hp. induction Hf as [|e d cs ds Hd _ IH]; intros written s p Q Hp Hl HQ;
    cbn [cat_loop concat].
  { apply runs_ret. rewrite app_nil_r in HQ. eapply HQ; [done|apply frame_refl]. }
  cbn [concat] in Hl. rewrite zlen_app in Hl. pose proof (zlen_nonneg (concat ds)).
  apply runs_bind. eapply (runs_seek none ltac:(done) Vault); [done|]. intros s1 Hh1 F1.
  cbn in Hh1. injection Hh1 as Hp1. rewrite Hp in Hp1.
  apply runs_bind, runs_mmap_err. eapply (open_chunk_runs none ltac:(done)); [exact Hp1|exact Hd|].
  intros s2 p2 Hp2 F2. apply runs_bind. eexists _, _. split; [done|]. rewrite memory_write by lia.
  eapply (IH _ (bump s2)); [exact Hp2|rewrite zlen_app; lia|].
  intros s3 p3 Hp3 F3. rewrite <- app_assoc. eapply HQ; [exact Hp3|].
  eapply frame_trans; [exact F1|]. eapply frame_trans; [exact F2|].
  eapply frame_trans; [|exact F3]. apply frame_bump.
Qed.

(** What [cat] prints around a file's content. *)
Definition banner (name body : str) : str :=
  nl ++ lit "--- Start of " ++ name ++ lit " ---" ++ nl ++ body
     ++ nl ++ lit "--- End of " ++ name ++ lit " ---" ++ nl ++ nl.

Lemma ordered_file t f lo hi :
  ordered lo (all_chunks t) hi -> f ∈ t ->
  exists lo' hi', lo <= lo' /\ ordered lo' (chunks f) hi' /\ hi' <= hi.
Proof.
  intros Ho (t1 & t2 & ->)%list_elem_of_split. rewrite all_chunks_app, all_chunks_cons in Ho.
  apply ordered_app in Ho as (lo' & Ho1 & (hi' & Ho2 & Ho3)%ordered_app).
  exists lo', hi'. split_and!; [by eapply ordered_le|done|by eapply ordered_le].
Qed.

Lemma cat_runs password u L s name data (Q : str -> vault -> Prop) :
  vault_ok password u L s -> (name, data) ∈ L -> data <> [] ->
  (Byte.x00 ∉ name) -> zlen name <= 249 -> payload s < 2 ^ 63 ->
  (forall s', vault_ok password u L s' -> frame Vault s s' -> content (phys s') = content (phys s) ->
     Q (banner name (screen data)) s') ->
  runs (handle_cat none u name) s Q.
Proof.
  intros Hv Hin Hne Hnul Hlen Hpay HQ.
  pose proof Hv as (((Hoff & _ & _ & Hord & Ht & Hnd & (_ & Hall & _) & _) & _) & _).
  destruct (find_holds _ _ _ _ _ _ Ht Hnd Hin) as (f & Hfind & ds & Hds & ->).
  assert (Hf : f ∈ file_table (meta s)) by (apply List.find_some in Hfind as [Hf _]; by apply list_elem_of_In).
  destruct (ordered_file _ _ _ _ Hord Hf) as (lo & hi & Hlo & Hof & Hhi).
  assert (Hty : Forall chunk_typed (chunks f)).
  { rewrite Forall_forall in Hall. apply list_elem_of_In in Hf. by apply Hall in Hf as (_ & _ & _ & ? & _). }
  assert (HV : VAULT_HEADER_SIZE = 125) by done.
  destruct (total_capacity_sum u _ _ _ 0 lo hi Hds Hty Hof) as (Hsum & Hmax & _); [lia|lia|].
  fold (total_capacity (chunks f)) in Hsum, Hmax.
  assert (0 < zlen (concat ds)) by (destruct (concat ds); [done|rewrite zlen_cons; pose proof (zlen_nonneg l); lia]).
  destruct (phys s) as [c p] eqn:Hp. cbn [content] in *. set (size := total_capacity (chunks f)) in *.
  unfold handle_cat. apply runs_bind. eexists _, _. split; [done|]. unfold find_file. rewrite Hfind. fold size.
  apply runs_bind. unfold memfile_new. rewrite bool_decide_false by done.
  apply runs_bind. eexists tt, _. split; [unfold sys; by zdec|].
  apply runs_bind. eexists tt, _. split; [unfold sys; by zdec|].
  apply runs_bind. eexists tt, _. split; [unfold sys; by zdec|]. apply runs_ret. set (s1 := bump (bump (bump s))).
  assert (Hm : File (zrep size Byte.x00) 0 = memory size []) by (unfold memory; cbn; by rewrite Z.sub_0_r).
  rewrite Hm. apply runs_bind. eapply cat_loop_runs; [exact Hp|exact Hds|rewrite zlen_nil; lia|].
  intros s2 p2 Hp2 F2. cbn [app]. apply runs_bind. eexists _, _. split; [done|].
  apply runs_bind. eexists tt, _. split; [done|]. apply runs_bind.
  eexists (concat ds), _. split.
  { unfold sys, memory. cbn [cursor content]. by rewrite slice_prefix. }
  apply runs_ret. fold (banner name (screen (concat ds))).
  assert (F : frame Vault s (bump (bump (bump s2)))).
  { eapply frame_trans; [apply frame_bump|]. eapply frame_trans; [apply frame_bump|].
    eapply frame_trans; [apply frame_bump|]. eapply frame_trans; [exact F2|].
    eapply frame_trans; [apply frame_bump|]. eapply frame_trans; apply frame_bump. }
  apply HQ; [|exact F|cbn; by rewrite Hp2].
  eapply vault_ok_frame; [exact F|cbn; by rewrite Hp2, Hp|exact Hv].
Qed.
End cat_lemmas.

(** [cat] shows what was stored: in a vault, under the system's limits on a
    name and a length, the content of a file goes through [screen] between two
    banners and only the cursor moves; a name not in the vault is reported; and a
    file without chunks (the import of an empty one) always fails, since its memory
    file cannot be mapped. *)
Theorem cat_shows `{PasswordHash} `{Aead} `{Sha256} `{Bincode} `{!AeadLaws _} `{!Sha256Laws _}
    password u L s name :
  vault_ok password u L s -> payload s < 2 ^ 63 -> (Byte.x00 ∉ name) -> zlen name <= 249 ->
  (forall data, (name, data) ∈ L -> data <> [] -> exists s',
     handle_cat (fun _ => None) u name s = (Ok (banner name (screen data)), s') /\
     frame Vault s s' /\ content (phys s') = content (phys s)) /\
  ((name ∉ map fst L) -> handle_cat (fun _ => None) u name s
     = (Ok (lit "Error: File '" ++ name ++ lit "' not found in vault." ++ nl), s)) /\
  (forall f, find_file name (meta s) = Some f -> chunks f = [] ->
     exists s', handle_cat (fun _ => None) u name s = (Err (VIo "mmap"), s')).
Proof.
  intros Hv Hpay Hnul Hlen. split_and!.
  - intros data Hin Hne.
    destruct (cat_runs password u L s name data (fun r s' => r = banner name (screen data) /\
      frame Vault s s' /\ content (phys s') = content (phys s)) Hv Hin Hne Hnul Hlen Hpay)
      as (r & s' & Hrun & -> & HF & Hc); [done|]. by exists s'.
  - intros Hn. unfold handle_cat, mbind, gets. by rewrite (find_file_absent _ _ _ _ _ Hv Hn).
  - intros f Hf Hcs. unfold handle_cat, mbind, gets. rewrite Hf, Hcs. unfold memfile_new.
    rewrite bool_decide_false by done. unfold mbind, sys. cbn [total_capacity foldl]. zdec. by eexists.
Qed.

Import Toy ToyPw ToyVault.

Lemma cat_shows_witness :
  (exists s', handle_cat (fun _ => None) toy_unlocked (lit "b") toy_vault
     = (Ok (banner (lit "b") (lit "second")), s') /\
     frame Vault toy_vault s' /\ content (phys s') = content (phys toy_vault)) /\
  handle_cat (fun _ => None) toy_unlocked (lit "z") toy_vault
    = (Ok (lit "Error: File 'z' not found in vault." ++ nl), toy_vault).
Proof.
  assert (Hp : payload toy_vault < 2 ^ 63) by (vm_compute; reflexivity).
  destruct (cat_shows (lit "pw") toy_unlocked toy_files toy_vault (lit "b") toy_vault_ok Hp) as [Hb _].
  { by intros [?|?%elem_of_nil]%elem_of_cons. }
  { by vm_compute. }
  destruct (cat_shows (lit "pw") toy_unlocked toy_files toy_vault (lit "z") toy_vault_ok Hp) as (_ & Hz & _).
  { by intros [?|?%elem_of_nil]%elem_of_cons. }
  { by vm_compute. }
  split; [apply (Hb (lit "second"))|apply Hz].
  - right. left.
  - done.
  - intros [?|[?|?%elem_of_nil]%elem_of_cons]%elem_of_cons; done.
Defined.

Lemma terminal_output_safe_witness :
  screen (lit "plain text") = lit "plain text" /\
  safe (handle_ls {| file_table := [{| vfs_name := [Byte.x1b] ++ lit "[2J"; chunks := [];
                                       last_modified_unix := 0 |}]; cdc_salt := [] |}).
Proof.
  destruct terminal_output_safe as (_ & Ht & Hl). split.
  - apply Ht; [done|]. by apply safe_decide.
  - apply Hl. repeat constructor.
Defined.

(** The C1 controls are not ASCII: the one-character CSI (U+009B) is printed as it
    is, and so is an escape sequence in the name of the file in the banners. *)
Lemma c1_controls_pass : screen [Byte.xc2; Byte.x9b] = [Byte.xc2; Byte.x9b].
Proof. by vm_compute. Qed.

Lemma banner_not_sanitized body : exists a z, banner [Byte.x1b] body = a ++ [Byte.x1b] ++ z.
Proof. eexists (nl ++ lit "--- Start of "), _. unfold banner. by rewrite <- !app_assoc. Qed.
