(* ===== verification/View.v ===== *)
(** * Viewing a file

    [atom/src/commands/view.rs]: when the plaintext may stay unpinned, the memory
    file and its wiping, and which of the worker thread and the signal handler tears
    a viewer down. *)

From Stdlib Require Import Strings.Byte.
From stdpp Require Import strings gmap.
From S2P Require Import Prelude Text Primitives StateM Disk VaultCrypto Vfs Storage VaultOps VaultSpec.
From S2P Require Import ToyVault Vault.

(** ** Where plaintext in memory could go *)

(** [str::lines]. *)
Fixpoint lines_from (s line : str) : list str :=
  match s with
  | [] => if bool_decide (line = []) then [] else [line]
  | b :: s => if decide (b = Byte.x0a)
              then default line (strip_suffix [Byte.x0d] line) :: lines_from s []
              else lines_from s (line ++ [b])
  end.
Definition lines (s : str) : list str := lines_from s [].

(** [dev.rsplit('/').next()]. *)
Definition base_name (dev : str) : str := List.last (split_slash dev []) [].

Section memory.
(** What the kernel's files say: [/proc/swaps], and [/sys/block/<name>/backing_dev];
    [None] when one cannot be read. *)
Variable swaps : option str.
Variable backing : str -> option str.

Definition is_ram_only_zram (dev : str) : bool :=
  let name := base_name dev in
  if negb (starts_with (lit "zram") name) then false else
  match backing name with
  | Some s => bool_decide (trim s = lit "none")
  | None => false
  end.

Fixpoint disk_backed (rows : list str) : bool :=
  match rows with
  | [] => false
  | line :: rows =>
      match split_whitespace line with
      | [] => disk_backed rows
      | dev :: _ => if is_ram_only_zram dev then disk_backed rows else true
      end
  end.

Definition disk_persistence_possible : bool :=
  match swaps with
  | None => true
  | Some s => disk_backed (tail (lines s))
  end.

(** [MlockedMap::new]: the guard pins [len] bytes, or none; [mmap] and [mlock] give
    an error number when they fail. *)
Definition ENOMEM : Z := 12.
Definition MlockedMap_new (len : Z) (mmap mlock : option Z) : outcome Z Z :=
  if len =? 0 then Ok 0 else
  match mmap with
  | Some e => Err e
  | None =>
      match mlock with
      | Some e => if (e =? ENOMEM) && negb disk_persistence_possible then Ok 0 else Err e
      | None => Ok len
      end
  end.
End memory.

(** ** The memory file *)

Section memfd.
Context `{Aead} `{Sha256}.
Variable fault : nat -> option Z.

(** Writing to the memory file: a failure panics ([expect]). *)
Definition memfd_write (mem : file) (b : bytes) : V file := fun s =>
  match fault (ios s) with
  | Some _ => (Panic, bump s)
  | None => (Ok (f_write b mem), bump s)
  end.

Fixpoint memfd_loop (u : UnlockedVault) (cs : list ChunkEntry) (mem : file) : V file :=
  match cs with
  | [] => mret mem
  | c :: cs =>
      let! plain := process_secure_chunk fault u c in
      let! mem := memfd_write mem plain in
      memfd_loop u cs mem
  end.

(** The file's name holds no NUL, and is at most 249 bytes. *)
Definition prepare_decrypted_memfd (u : UnlockedVault) (f : FileIndex) : V file :=
  let memfd_name := lit "atom_vault_memfd_" ++ vfs_name f in
  if bool_decide (Byte.x00 ∈ memfd_name) then fails (VMsg "memfd name") else
  let! _ := sys fault "memfd_create" (fun s =>
    if 249 <? zlen memfd_name then Err (VIo "memfd_create") else Ok (tt, s)) in
  let! mem := memfd_loop u (chunks f) (File [] 0) in
  let! _ := sys fault "lseek" (fun s => Ok (tt, s)) in
  mret (File (content mem) 0).
End memfd.

Section execute.
Context `{Aead} `{Sha256}.
Variable fault : nat -> option Z.

(** What the kernel says of swap, and the error numbers of [mmap] and [mlock]. *)
Record kernel := {
  proc_swaps : option str;
  backing_dev : str -> option str;
  mmap_errno : option Z;
  mlock_errno : option Z;
}.

(** [execute], up to the viewer it starts and which reads the memory file. *)
Definition execute (k : kernel) (u : UnlockedVault) (f : FileIndex) : V file :=
  let! mem := prepare_decrypted_memfd fault u f in
  let! _ := sys fault "metadata" (fun s => Ok (tt, s)) in
  match MlockedMap_new (proc_swaps k) (backing_dev k) (f_len mem) (mmap_errno k) (mlock_errno k) with
  | Ok _ =>
      let! _ := sys fault "open" (fun s => Ok (tt, s)) in
      let! _ := sys fault "spawn" (fun s => Ok (tt, s)) in
      mret mem
  | _ => fails (VMsg "Failed to lock decrypted memfd into RAM")
  end.
End execute.

(** [zero_fill]: pages of zeros until the size is reached or a write fails; [ok] says
    which writes succeed. *)
Fixpoint zero_loop (ok : Z -> bool) (pages : nat) (written size : Z) (mem : file) : file :=
  match pages with
  | O => mem
  | S pages =>
      if size <=? written then mem else
      let to_write := Z.min 4096 (size - written) in
      if ok written
      then zero_loop ok pages (written + to_write) size (f_write (zrep to_write Byte.x00) mem)
      else mem
  end.

Definition zero_fill (ok : Z -> bool) (mem : file) : file :=
  let size := f_len mem in
  if size =? 0 then mem else zero_loop ok (S (Z.to_nat (size / 4096))) 0 size (f_seek 0 mem).

(** [complete_shred]: the wiped file, and the one that is closed. *)
Definition complete_shred (ok : Z -> bool) (mem : file) : file * file :=
  let wiped := zero_fill ok mem in (wiped, f_set_len 0 wiped).

(** ** Tearing viewers down

    A slot holds a job until the worker thread or the signal handler takes it; the
    taker keeps the slot's lock while it shreds (the guard of the [if let] lives to
    the end of its block). *)
Inductive slot :=
  | Loose                  (* decrypted, not yet registered *)
  | Full                   (* in the registry, the viewer open *)
  | Shredding (by_handler : bool)
  | Empty.

Inductive handler := Idle | Draining (left : list nat) | Exited.

Record viewers := {
  slots : list slot;
  registry : list nat;
  signal : handler;
  shreds : list nat;       (* jobs shredded, in order *)
  notified : list nat;     (* jobs whose [on_close] ran *)
}.

Definition start : viewers :=
  {| slots := []; registry := []; signal := Idle; shreds := []; notified := [] |}.

(** [register_teardown]: prunes completed slots, locking one after the other (one may
    complete after it was kept), and adds the new one. *)
Definition pruned (v : viewers) (kept : list nat) : Prop :=
  sublist kept (registry v) /\ forall i, i ∈ registry v -> slots v !! i <> Some Empty -> i ∈ kept.

Definition registered (v : viewers) (i : nat) (kept : list nat) : viewers :=
  {| slots := <[i := Full]> (slots v); registry := kept ++ [i];
     signal := signal v; shreds := shreds v; notified := notified v |}.

Definition with_slot (v : viewers) (i : nat) (x : slot) (h : handler) : viewers :=
  {| slots := <[i := x]> (slots v); registry := registry v; signal := h; shreds := shreds v;
     notified := notified v |}.

Definition shredded_by (v : viewers) (i : nat) (h : handler) (callback : bool) : viewers :=
  {| slots := <[i := Empty]> (slots v); registry := registry v; signal := h; shreds := shreds v ++ [i];
     notified := if callback then notified v ++ [i] else notified v |}.

(** The steps of the main thread, the worker threads and the handler. *)
Inductive vstep : viewers -> viewers -> Prop :=
  | step_prepare v :
      signal v <> Exited ->
      vstep v {| slots := slots v ++ [Loose]; registry := registry v; signal := signal v;
                 shreds := shreds v; notified := notified v |}
  | step_register v i kept :
      signal v <> Exited -> slots v !! i = Some Loose -> pruned v kept ->
      vstep v (registered v i kept)
  | step_close v i :
      signal v <> Exited -> slots v !! i = Some Full ->
      vstep v (with_slot v i (Shredding false) (signal v))
  | step_closed v i :
      signal v <> Exited -> slots v !! i = Some (Shredding false) ->
      vstep v (shredded_by v i (signal v) true)
  | step_signal v :
      signal v = Idle ->
      vstep v {| slots := slots v; registry := []; signal := Draining (registry v);
                 shreds := shreds v; notified := notified v |}
  | step_claim v i l :
      signal v = Draining (i :: l) -> slots v !! i = Some Full ->
      vstep v (with_slot v i (Shredding true) (signal v))
  | step_skip v i l :
      signal v = Draining (i :: l) -> slots v !! i = Some Empty ->
      vstep v {| slots := slots v; registry := registry v; signal := Draining l;
                 shreds := shreds v; notified := notified v |}
  | step_shred v i l :
      signal v = Draining (i :: l) -> slots v !! i = Some (Shredding true) ->
      vstep v (shredded_by v i (Draining l) false)
  | step_exit v :
      signal v = Draining [] ->
      vstep v {| slots := slots v; registry := registry v; signal := Exited;
                 shreds := shreds v; notified := notified v |}.

Definition reachable : viewers -> Prop := rtc vstep start.

(** ** Lemmas *)

(** What every reachable state satisfies. *)
Record consistent (v : viewers) : Prop := {
  shreds_once : NoDup (shreds v);
  shredded_empty : forall i, i ∈ shreds v <-> slots v !! i = Some Empty;
  notified_shredded : sublist (notified v) (shreds v);
  registry_full : forall i, i ∈ registry v -> exists x, slots v !! i = Some x /\ x <> Loose;
  left_full : forall l i, signal v = Draining l -> i ∈ l -> exists x, slots v !! i = Some x /\ x <> Loose;
  idle_registered : signal v = Idle -> forall i, slots v !! i = Some Full -> i ∈ registry v;
  handler_head : forall i, slots v !! i = Some (Shredding true) -> exists l, signal v = Draining (i :: l);
}.

Lemma consistent_start : consistent start.
Proof.
  split; cbn; try done; try apply NoDup_nil_2.
  - intros i. split; [by intros ?%elem_of_nil|done].
  - by intros i ?%elem_of_nil.
Qed.

Lemma lookup_set (vs : list slot) i j x y :
  vs !! i = Some y -> <[i := x]> vs !! j = if decide (j = i) then Some x else vs !! j.
Proof.
  intros Hi. case_decide as Hj; [subst; by eapply list_lookup_insert_eq, lookup_lt_Some|].
  by rewrite list_lookup_insert_ne.
Qed.

Lemma lookup_snoc (vs : list slot) j x :
  (vs ++ [x]) !! j = if decide (j = length vs) then Some x else vs !! j.
Proof.
  case_decide as Hj; [subst; by rewrite lookup_app_r, Nat.sub_diag|].
  destruct (decide (j < length vs)%nat); [by rewrite lookup_app_l|].
  rewrite !(lookup_ge_None_2) by (rewrite ?length_app; cbn; lia). done.
Qed.

Lemma lookup_length (vs : list slot) : vs !! length vs = None.
Proof. by apply lookup_ge_None_2. Qed.

Lemma elem_of_snoc (l : list nat) i j : j ∈ l ++ [i] <-> j ∈ l \/ j = i.
Proof. by rewrite elem_of_app, list_elem_of_singleton. Qed.

Lemma NoDup_snoc (l : list nat) i : NoDup l -> i ∉ l -> NoDup (l ++ [i]).
Proof.
  intros Hl Hi. apply list.NoDup_app. split_and!; [done| |apply list.NoDup_singleton].
  intros x Hx Hx'. apply list_elem_of_singleton in Hx'. by subst.
Qed.

(** Case analysis on whether a slot is the one that changed. *)
Ltac slot_cases :=
  repeat first
    [ rewrite lookup_snoc | rewrite elem_of_snoc
    | match goal with Hx : context [(_ ++ [_]) !! _] |- _ => rewrite lookup_snoc in Hx end
    | match goal with Hx : _ ∈ _ ++ [_] |- _ => rewrite elem_of_snoc in Hx end
    | match goal with Hi : ?vs !! ?i = Some _ |- context [<[?i := _]> ?vs !! _] =>
        rewrite (lookup_set _ _ _ _ _ Hi) end
    | match goal with Hi : ?vs !! ?i = Some _, Hx : context [<[?i := _]> ?vs !! _] |- _ =>
        rewrite (lookup_set _ _ _ _ _ Hi) in Hx end
    | case_decide ];
  simplify_eq.

Lemma consistent_step v v' : vstep v v' -> consistent v -> consistent v'.
Proof.
  intros Hs [A B C D E G K].
  destruct Hs as [v He|v i kept He Hi [Hsub Hkept]|v i He Hi|v i He Hi|v Hi|v i l Hl Hi|v i l Hl Hi|v i l Hl Hi|v Hl];
    split; cbn [slots registry signal shreds notified registered with_slot shredded_by] in *;
    try assumption; intros; slot_cases; try (by eauto); try congruence.
  all: try (rewrite B; rewrite ?lookup_length; intuition congruence).
  all: try (apply NoDup_snoc; [done|]; rewrite B; congruence).
  all: try (by apply sublist_app || by apply sublist_inserts_r).
  all: try match goal with Hx : length _ ∈ _ |- _ =>
    first [apply D in Hx|eapply E in Hx; [|eassumption]]; destruct Hx as (x & Hx & _);
    apply lookup_lt_Some in Hx; lia end.
  all: try (match goal with Hx : _ !! _ = Some (Shredding true) |- _ =>
    destruct (K _ Hx) as (l' & Hl'); congruence end).
  - apply D. destruct_or?; [|done]. by eapply elem_of_sublist.
  - left. apply Hkept; [by apply G|congruence].
  - by match goal with Hx : _ ∈ [] |- _ => apply elem_of_nil in Hx end.
  - eapply E; [exact Hl|by right].
  - eapply E; [exact Hl|by right].
Qed.

Lemma reachable_consistent v : reachable v -> consistent v.
Proof.
  intros Hr. unfold reachable in Hr. remember start as v0 eqn:Hv0.
  assert (Hc : consistent v0) by (subst; apply consistent_start). clear Hv0.
  induction Hr as [v|v1 v2 v3 Hs _ IH]; [done|]. by eapply IH, consistent_step.
Qed.

(** A job that was open when the signal came: shredded, or still to be claimed. *)
Definition tracked (i : nat) (v : viewers) : Prop :=
  slots v !! i = Some Empty \/
  ((slots v !! i = Some Full \/ exists h, slots v !! i = Some (Shredding h)) /\
   match signal v with
   | Idle => i ∈ registry v
   | Draining l => i ∈ l
   | Exited => False
   end).

Lemma empty_stays i v v' : vstep v v' -> slots v !! i = Some Empty -> slots v' !! i = Some Empty.
Proof.
  intros Hs He. destruct Hs;
    cbn [slots registered with_slot shredded_by] in *; slot_cases; try done.
  apply lookup_lt_Some in He. lia.
Qed.

Lemma tracked_step i v v' : vstep v v' -> tracked i v -> tracked i v'.
Proof.
  intros Hs [He|[Hsl Hsig]]; [left; by eapply empty_stays|]. unfold tracked.
  assert (Hi' : exists x, slots v !! i = Some x /\ x <> Loose /\ x <> Empty).
  { destruct Hsl as [?|[h ?]]; by eexists. }
  destruct Hs as [v He|v j kept He Hi [Hsub Hkept]|v j He Hi|v j He Hi|v Hi|v j l Hl Hi|v j l Hl Hi|v j l Hl Hi|v Hl];
    cbn [slots registry signal shreds notified registered with_slot shredded_by] in *;
    destruct Hi' as (x & Hx & Hx1 & Hx2); slot_cases; try (by left); try congruence; try (by right; eauto).
  - apply lookup_lt_Some in Hx. lia.
  - right. split; [done|]. destruct (signal v); [|done|done]. apply elem_of_snoc. left.
    apply Hkept; [done|congruence].
  - right. split; [done|]. by rewrite Hi in Hsig.
  - right. split; [done|]. rewrite Hl in Hsig. apply elem_of_cons in Hsig as [->|?]; [congruence|done].
  - right. split; [done|]. rewrite Hl in Hsig. by apply elem_of_cons in Hsig as [->|?].
  - rewrite Hl in Hsig. by apply elem_of_nil in Hsig.
Qed.

Lemma tracked_steps i v v' : rtc vstep v v' -> tracked i v -> tracked i v'.
Proof. induction 1 as [v|v1 v2 v3 Hs _ IH]; [done|]. intros Ht. by eapply IH, tracked_step. Qed.

(** The handler always gets to the exit: the lock it waits for is let go by the
    worker that shreds. *)
Lemma drains v l :
  consistent v -> signal v = Draining l -> exists v', rtc vstep v v' /\ signal v' = Exited.
Proof.
  revert v. induction l as [|i l IH]; intros v Hc Hl.
  { eexists. split; [by apply rtc_once, step_exit|done]. }
  assert (Hshred : forall v, consistent v -> signal v = Draining (i :: l) -> slots v !! i = Some (Shredding true) ->
    exists v', rtc vstep v v' /\ signal v' = Exited).
  { intros w Hcw Hlw Hi. destruct (IH (shredded_by w i (Draining l) false)) as (v' & Hv' & He); [|done|].
    - by eapply consistent_step; [eapply step_shred|].
    - exists v'. split; [|done]. eapply rtc_l; [by eapply step_shred|done]. }
  assert (Hempty : forall v, consistent v -> signal v = Draining (i :: l) -> slots v !! i = Some Empty ->
    exists v', rtc vstep v v' /\ signal v' = Exited).
  { intros w Hcw Hlw Hi. pose proof (step_skip w i l Hlw Hi) as Hs.
    destruct (IH _ (consistent_step _ _ Hs Hcw) eq_refl) as (v' & Hv' & He).
    exists v'. split; [|done]. by eapply rtc_l. }
  destruct (left_full v Hc _ i Hl ltac:(left)) as (x & Hi & Hx).
  assert (Hlt : (i < length (slots v))%nat) by by eapply lookup_lt_Some.
  destruct x as [| |[]|]; [done| |by apply Hshred| |by apply Hempty].
  - pose proof (step_claim v i l Hl Hi) as Hs.
    destruct (Hshred _ (consistent_step _ _ Hs Hc) Hl) as (v' & Hv' & He).
    { cbn. by apply list_lookup_insert_eq. }
    exists v'. split; [|done]. by eapply rtc_l.
  - assert (He : signal v <> Exited) by congruence. pose proof (step_closed v i He Hi) as Hs.
    destruct (Hempty _ (consistent_step _ _ Hs Hc) Hl) as (v' & Hv' & He').
    { cbn. by apply list_lookup_insert_eq. }
    exists v'. split; [|done]. by eapply rtc_l.
Qed.

(** In every interleaving of the main thread, the viewers' worker threads and
    the signal handler: a viewer's plaintext is shredded at most once, exactly when
    its slot is empty, and its callback runs at most once and only after that; every
    viewer open when the signal arrives has been shredded when the process exits;
    and the exit is always reached, the handler and the workers never waiting for
    each other. *)
Theorem viewers_torn_down_once v :
  reachable v ->
  NoDup (shreds v) /\ NoDup (notified v) /\
  (forall i, i ∈ shreds v <-> slots v !! i = Some Empty) /\
  (forall i, i ∈ notified v -> i ∈ shreds v) /\
  (signal v = Idle -> forall i v', slots v !! i = Some Full -> rtc vstep v v' ->
     signal v' = Exited -> i ∈ shreds v') /\
  (exists v', rtc vstep v v' /\ signal v' = Exited).
Proof.
  intros Hr. pose proof (reachable_consistent v Hr) as Hc. split_and!.
  - apply Hc.
  - eapply sublist_NoDup; apply Hc.
  - apply Hc.
  - intros i Hi. eapply elem_of_sublist; [exact Hi|apply Hc].
  - intros Hs i v' Hi Hsteps He.
    assert (Ht : tracked i v).
    { right. split; [by left|]. rewrite Hs. by apply (idle_registered v Hc Hs). }
    apply (tracked_steps _ _ _ Hsteps) in Ht.
    assert (Hc' : consistent v') by (apply reachable_consistent; unfold reachable; by transitivity v).
    apply (shredded_empty v' Hc'). destruct Ht as [?|[_ Hx]]; [done|]. by rewrite He in Hx.
  - destruct (signal v) as [|l|] eqn:Hs; [|by eapply drains|by exists v].
    pose proof (step_signal v Hs) as Hstep.
    destruct (drains _ _ (consistent_step _ _ Hstep Hc) eq_refl) as (v' & Hv' & He).
    exists v'. split; [|done]. by eapply rtc_l.
Qed.

(** Plaintext in memory when the process exits: decrypted but not yet registered
    when the signal came. *)
Lemma signal_before_registration :
  exists v, reachable v /\ signal v = Exited /\ slots v = [Loose] /\ shreds v = [].
Proof.
  eexists. split; [|split_and!].
  - eapply rtc_l; [by apply step_prepare|]. eapply rtc_l; [by apply step_signal|].
    eapply rtc_l; [by apply step_exit|]. apply rtc_refl.
  - done.
  - done.
  - done.
Qed.

(** ** The plaintext's memory *)

Lemma zero_loop_all pages written data :
  0 <= written <= zlen data -> zlen data - written <= 4096 * Z.of_nat pages ->
  zero_loop (fun _ => true) pages written (zlen data) (wiped data written) = wiped data (zlen data).
Proof.
  revert written. induction pages as [|pages IH]; intros written Hw Hp; cbn [zero_loop].
  { by replace written with (zlen data) by lia. }
  destruct (zlen data <=? written) eqn:Hc; bools; [by replace written with (zlen data) by lia|].
  rewrite wiped_more by lia. apply IH; lia.
Qed.

Lemma zero_fill_all mem :
  content (zero_fill (fun _ => true) mem) = zrep (f_len mem) Byte.x00.
Proof.
  unfold zero_fill, f_len. pose proof (zlen_nonneg (content mem)).
  destruct (zlen (content mem) =? 0) eqn:Hz; bools; [by rewrite Hz, (zlen_0_nil _ Hz)|].
  pose proof (Z.div_mod (zlen (content mem)) 4096 ltac:(lia)).
  pose proof (Z.mod_pos_bound (zlen (content mem)) 4096 ltac:(lia)).
  pose proof (Z.div_pos (zlen (content mem)) 4096 ltac:(lia) ltac:(lia)).
  assert (Hs : f_seek 0 mem = wiped (content mem) 0) by (unfold wiped, f_seek; by rewrite zdrop_0).
  rewrite Hs, zero_loop_all by lia. by rewrite wiped_all.
Qed.

Lemma disk_backed_false backing rows :
  disk_backed backing rows = false ->
  Forall (fun line => match split_whitespace line with
                      | [] => True
                      | dev :: _ => is_ram_only_zram backing dev = true
                      end) rows.
Proof.
  induction rows as [|line rows IH]; [done|]. cbn [disk_backed].
  destruct (split_whitespace line) as [|dev ws] eqn:Hl.
  - intros Hd. constructor; [by rewrite Hl|by apply IH].
  - destruct (is_ram_only_zram backing dev) eqn:Hr; [|done]. intros Hd. constructor; [by rewrite Hl|by apply IH].
Qed.

Section memfd_lemmas.
Context `{PasswordHash} `{Aead} `{Sha256} `{Bincode} `{FastCdc}.

Lemma memfd_loop_runs u cs ds mem s c p (Q : file -> vault -> Prop) :
  phys s = File c p -> cursor mem = zlen (content mem) ->
  Forall2 (fun e d => chunk_data u c e = Some d) cs ds ->
  (forall s' p' mem', phys s' = File c p' -> frame Vault s s' ->
     content mem' = content mem ++ concat ds -> Q mem' s') ->
  runs (memfd_loop (fun _ => None) u cs mem) s Q.
Proof.
  intros Hp Hm Hf. revert mem s p Q Hp Hm. induction Hf as [|e d cs ds Hd _ IH]; intros mem s p Q Hp Hm HQ;
    cbn [memfd_loop].
  { apply runs_ret. eapply HQ; [exact Hp|apply frame_refl|by rewrite app_nil_r]. }
  apply runs_bind. eapply (open_chunk_runs (fun _ => None) ltac:(done)); [exact Hp|exact Hd|].
  intros s1 p1 Hp1 F1. apply runs_bind. eexists _, _. split; [done|].
  assert (Hw : f_write d mem = File (content mem ++ d) (zlen (content mem ++ d))).
  { destruct mem as [m q]. cbn in *. subst q. unfold f_write. cbn. by rewrite splice_end, zlen_app. }
  rewrite Hw. eapply (IH _ (bump s1)); [exact Hp1|done|]. intros s2 p2 mem' Hp2 F2 Hc.
  eapply HQ; [exact Hp2| |by rewrite Hc; cbn; rewrite <- app_assoc].
  eapply frame_trans; [exact F1|]. eapply frame_trans; [|exact F2]. by split_and!.
Qed.

Definition MEMFD_PREFIX : str := lit "atom_vault_memfd_".

Lemma memfd_name_nul name : (Byte.x00 ∉ name) -> bool_decide (Byte.x00 ∈ MEMFD_PREFIX ++ name) = false.
Proof.
  intros Hn. apply bool_decide_eq_false. intros [Hx|Hx]%elem_of_app; [|done].
  assert (Hp : bool_decide (Byte.x00 ∈ MEMFD_PREFIX) = false) by by vm_compute.
  by apply bool_decide_eq_false in Hp.
Qed.

Lemma prepare_runs password u L s name data f (Q : file -> vault -> Prop) :
  vault_ok password u L s -> find_file name (meta s) = Some f -> (name, data) ∈ L ->
  (Byte.x00 ∉ name) -> zlen name <= 249 - 17 ->
  (forall s', frame Vault s s' -> content (phys s') = content (phys s) -> Q (File data 0) s') ->
  runs (prepare_decrypted_memfd (fun _ => None) u f) s Q.
Proof.
  intros (((_ & _ & _ & _ & Ht & Hnd & _) & _) & _) Hf Hin Hnul Hlen HQ.
  destruct (find_holds _ _ _ _ _ _ Ht Hnd Hin) as (f' & Hfind & ds & Hds & ->).
  unfold find_file in Hf. rewrite Hfind in Hf. injection Hf as ->.
  assert (Hname : vfs_name f = name).
  { apply List.find_some in Hfind as [_ Hn]. by apply bool_decide_eq_true in Hn. }
  unfold prepare_decrypted_memfd. rewrite Hname. fold MEMFD_PREFIX. rewrite memfd_name_nul by done.
  apply runs_bind. eexists tt, _. split.
  { unfold sys. rewrite zlen_app. change (zlen MEMFD_PREFIX) with 17. by zdec. }
  destruct (phys s) as [c p] eqn:Hp.
  apply runs_bind. eapply (memfd_loop_runs u (chunks f) ds); [exact Hp|done|exact Hds|].
  intros s1 p1 mem' Hp1 F1 Hc. apply runs_bind. eexists tt, _. split; [done|]. apply runs_ret.
  rewrite Hc. apply HQ; [|cbn; by rewrite Hp1]. eapply frame_trans; [apply (frame_bump Vault)|].
  eapply frame_trans; [exact F1|apply frame_bump].
Qed.

Lemma complete_shred_all data :
  exists wiped q, complete_shred (fun _ => true) (File data 0) = (wiped, File [] q) /\
    content wiped = zrep (zlen data) Byte.x00.
Proof.
  exists (zero_fill (fun _ => true) (File data 0)).
  eexists. split; [|by rewrite zero_fill_all]. unfold complete_shred. f_equal.
  unfold f_set_len, resize. rewrite ztake_0. cbn [app].
  pose proof (zlen_nonneg (content (zero_fill (fun _ => true) (File data 0)))).
  unfold zrep. by replace (Z.to_nat (0 - _)) with 0%nat by lia.
Qed.

(** Viewing: the memory file holds exactly the file's content; if the system
    writes what it is asked to, closing the viewer leaves zeros of the same length
    in it and then nothing; and the plaintext stays unpinned only when it is empty,
    or when the pin failed for lack of budget ([ENOMEM]) while [/proc/swaps] could be
    read and every device in it is a zram without backing storage. *)
Theorem view_plaintext `{!AeadLaws _} `{!Sha256Laws _} password u L s :
  vault_ok password u L s ->
  (forall name data, (name, data) ∈ L -> (Byte.x00 ∉ name) -> zlen name <= 249 - 17 ->
     exists f s' wiped q, find_file name (meta s) = Some f /\
       prepare_decrypted_memfd (fun _ => None) u f s = (Ok (File data 0), s') /\ frame Vault s s' /\
       complete_shred (fun _ => true) (File data 0) = (wiped, File [] q) /\
       content wiped = zrep (zlen data) Byte.x00) /\
  (forall swaps backing len mmap mlock, MlockedMap_new swaps backing len mmap mlock = Ok 0 ->
     len = 0 \/ (mmap = None /\ mlock = Some ENOMEM /\ exists text, swaps = Some text /\
       Forall (fun line => match split_whitespace line with
                           | [] => True
                           | dev :: _ => is_ram_only_zram backing dev = true
                           end) (tail (lines text)))).
Proof.
  intros Hv. split.
  - intros name data Hin Hnul Hlen. pose proof Hv as (((_ & _ & _ & _ & Ht & Hnd & _) & _) & _).
    destruct (find_holds _ _ _ _ _ _ Ht Hnd Hin) as (f & Hfind & _).
    destruct (prepare_runs password u L s name data f (fun mem s' => mem = File data 0 /\ frame Vault s s')
      Hv Hfind Hin Hnul Hlen) as (mem & s' & Hrun & -> & HF); [done|].
    destruct (complete_shred_all data) as (wiped & q & Hc & Hz). by exists f, s', wiped, q.
  - intros swaps backing len mmap mlock. unfold MlockedMap_new. destruct (len =? 0) eqn:Hl; bools; [by left|].
    destruct mmap as [e|]; [done|]. destruct mlock as [e|]; [|intros [= ->]; done].
    destruct ((e =? ENOMEM) && _) eqn:He; [|done]. intros _. bools. subst e. right. split_and!; try done.
    unfold disk_persistence_possible in *. destruct swaps as [text|]; [|done].
    exists text. split; [done|]. by apply disk_backed_false.
Qed.
End memfd_lemmas.

Import Toy ToyPw ToyVault.

Lemma view_plaintext_witness :
  (exists f s' wiped q, find_file (lit "b") (meta toy_vault) = Some f /\
     prepare_decrypted_memfd (fun _ => None) toy_unlocked f toy_vault = (Ok (File (lit "second") 0), s') /\
     frame Vault toy_vault s' /\
     complete_shred (fun _ => true) (File (lit "second") 0) = (wiped, File [] q) /\
     content wiped = zrep 6 Byte.x00) /\
  exists text, Some (lit "Filename Type") = Some text /\
    Forall (fun line => match split_whitespace line with
                        | [] => True
                        | dev :: _ => is_ram_only_zram (fun _ => None) dev = true
                        end) (tail (lines text)).
Proof.
  destruct (view_plaintext (lit "pw") toy_unlocked toy_files toy_vault toy_vault_ok) as [Hp Hm]. split.
  - apply (Hp (lit "b") (lit "second")).
    + right. left.
    + by intros [?|?%elem_of_nil]%elem_of_cons.
    + by vm_compute.
  - destruct (Hm (Some (lit "Filename Type")) (fun _ => None) 1 None (Some ENOMEM)) as [?|(_ & _ & Ht)].
    + by vm_compute.
    + done.
    + exact Ht.
Defined.

Lemma viewers_torn_down_once_witness :
  let v := registered {| slots := [Loose]; registry := []; signal := Idle; shreds := []; notified := [] |} 0 [] in
  reachable v /\ (forall v', rtc vstep v v' -> signal v' = Exited -> 0%nat ∈ shreds v') /\
  exists v', rtc vstep v v' /\ signal v' = Exited.
Proof.
  intros v. assert (Hr : reachable v).
  { eapply rtc_l; [by apply step_prepare|]. eapply rtc_l; [|apply rtc_refl].
    apply (step_register _ 0 []); [done|done|]. split; [apply sublist_nil|by intros i ?%elem_of_nil]. }
  destruct (viewers_torn_down_once v Hr) as (_ & _ & _ & _ & Hi & He).
  split; [exact Hr|split; [|exact He]]. intros v'. by apply (Hi eq_refl).
Defined.
