(* ===== verification/Launch.v ===== *)
(** * Finding the viewer

    [atom/src/gui/broker.rs], the part that turns a file's type into the command of the
    user's viewer: [resolve_viewer_command] and what it calls. *)

From Stdlib Require Import Strings.Byte.
From stdpp Require Import strings gmap.
From S2P Require Import Prelude Text VaultOps Paths View.

(** ** The command line of a desktop file *)

(** [tokenize_exec]: the separators are ASCII, so that reading bytes is reading
    characters. *)
Definition quote : byte := Byte.x22.
Definition backslash : byte := Byte.x5c.
Definition blank (c : byte) : bool := bool_decide (c = Byte.x20 \/ c = Byte.x09).

Fixpoint tokens (s : str) (in_quote started : bool) (cur : str) : list str :=
  match s with
  | [] => if started || negb (bool_decide (cur = [])) then [cur] else []
  | c :: s =>
      if decide (c = quote) then tokens s (negb in_quote) true cur
      else if bool_decide (c = backslash) && in_quote then
        match s with
        | n :: s => tokens s in_quote started (cur ++ [n])
        | [] => if started || negb (bool_decide (cur = [])) then [cur] else []
        end
      else if blank c && negb in_quote then
        (if started || negb (bool_decide (cur = [])) then [cur] else []) ++ tokens s in_quote false []
      else tokens s in_quote true (cur ++ [c])
  end.
Definition tokenize_exec (s : str) : list str := tokens s false false [].

(** [str::replace("%%", "%")]. *)
Definition percent : byte := Byte.x25.
Fixpoint unescape (s : str) : str :=
  match s with
  | c :: (d :: s'') as s' => if decide (c = percent /\ d = percent) then percent :: unescape s'' else c :: unescape s'
  | _ => s
  end.

(** [build_argv]: the field codes of one file, those dropped, and the rest. *)
Definition file_codes : list str := map lit ["%f"; "%F"; "%u"; "%U"].
Definition dropped_codes : list str := map lit ["%i"; "%c"; "%k"; "%d"; "%D"; "%n"; "%N"; "%v"; "%m"].

Fixpoint substitute (toks : list str) (path : str) (argv : list str) (substituted : bool) : list str * bool :=
  match toks with
  | [] => (argv, substituted)
  | tok :: toks =>
      if decide (tok ∈ file_codes) then substitute toks path (argv ++ [path]) true
      else if decide (tok ∈ dropped_codes) then substitute toks path argv substituted
      else substitute toks path (argv ++ [unescape tok]) substituted
  end.

Definition build_argv (exec path : str) : list str :=
  let (argv, substituted) := substitute (tokenize_exec exec) path [] false in
  if substituted then argv else argv ++ [path].

(** ** The desktop *)

(** What the program sees: files that exist, regular files, texts ([read_to_string]), the environment,
    the home directory, and the output of a command that ran and succeeded. *)
Record Desktop := {
  present : str -> bool;
  is_file : str -> bool;
  read_to_string : str -> option str;
  variable : str -> option str;
  home_dir : option str;
  run : string -> list str -> option bytes;
}.

Section desktop.
Variable w : Desktop.

Definition run_trim (cmd : string) (args : list str) : option str := trim ∘ from_utf8_lossy <$> run w cmd args.

(** The errors, by what their messages say. *)
Inductive unresolved :=
  | NoType | NoDefault (mime : str) | NoDesktopFile (id : str) | NoExec (desktop : str) | EmptyExec (desktop : str)
  | InsideFlatpak | NoRun.

(** [query_mime], with its table of extensions. *)
Definition mime_table : list (str * str) :=
  [(lit "pdf", lit "application/pdf"); (lit "png", lit "image/png"); (lit "jpg", lit "image/jpeg");
   (lit "jpeg", lit "image/jpeg"); (lit "gif", lit "image/gif"); (lit "webp", lit "image/webp");
   (lit "svg", lit "image/svg+xml"); (lit "txt", lit "text/plain"); (lit "md", lit "text/plain");
   (lit "log", lit "text/plain")].
Definition query_mime (path : str) : outcome unresolved str :=
  let by_extension :=
    match e ← extension path; from_utf8 e with
    | Some e =>
        match List.find (fun row => bool_decide (row.1 = map ascii_lower e)) mime_table with
        | Some row => Ok row.2
        | None => Err NoType
        end
    | None => Err NoType
    end in
  match run_trim "xdg-mime" [lit "query"; lit "filetype"; from_utf8_lossy path] with
  | Some m => if bool_decide (m = []) then by_extension else Ok m
  | None => by_extension
  end.

(** [find_desktop_file]. *)
Definition data_home : list str :=
  let from_home := match home_dir w with Some home => [join home (lit ".local/share")] | None => [] end in
  match variable w (lit "XDG_DATA_HOME") with
  | Some h => if bool_decide (h = []) then from_home else [h]
  | None => from_home
  end.
Definition data_dirs : list str :=
  List.filter (fun d => negb (bool_decide (d = [])))
    (split_on Byte.x3a (default (lit "/usr/local/share:/usr/share") (variable w (lit "XDG_DATA_DIRS"))) []).

Definition dashes_to_slashes (id : str) : str := map (fun c => if decide (c = Byte.x2d) then Byte.x2f else c) id.

Fixpoint find_in (bases : list str) (desktop_id : str) : option str :=
  match bases with
  | [] => None
  | base :: bases =>
      let apps := join base (lit "applications") in
      let direct := join apps desktop_id in
      if is_file w direct then Some direct else
      let nested := join apps (dashes_to_slashes desktop_id) in
      if is_file w nested then Some nested else find_in bases desktop_id
  end.
Definition find_desktop_file (desktop_id : str) : option str := find_in (data_home ++ data_dirs) desktop_id.

(** [parse_exec]. *)
Fixpoint exec_line (ls : list str) (in_entry : bool) : option str :=
  match ls with
  | [] => None
  | line :: ls =>
      let line := trim line in
      if starts_with (lit "[") line then exec_line ls (bool_decide (line = lit "[Desktop Entry]")) else
      match (if in_entry then strip_prefix (lit "Exec=") line else None) with
      | Some rest => Some rest
      | None => exec_line ls in_entry
      end
  end.
Definition parse_exec (desktop : str) : option str := content ← read_to_string w desktop; exec_line (lines content) false.

(** [flatpak_filesystem_spec]. *)
Definition flatpak_filesystem_spec (path : str) : str :=
  match variable w (lit "XDG_RUNTIME_DIR") with
  | Some runtime =>
      match (if bool_decide (runtime = []) then None else path_strip_prefix runtime path) with
      | Some rel => lit "xdg-run/" ++ from_utf8_lossy rel ++ lit ":ro"
      | None => from_utf8_lossy path ++ lit ":ro"
      end
  | None => from_utf8_lossy path ++ lit ":ro"
  end.

(** [rewrite_flatpak_argv]. *)
Definition forwarding : list str := map lit ["--file-forwarding"; "@@"; "@@u"].

Fixpoint after_run (argv : list str) : option (list str) :=
  match argv with
  | [] => None
  | a :: argv => if decide (a = lit "run") then Some argv else after_run argv
  end.

Definition rewrite_flatpak_argv (argv : list str) (staged_file : str) : outcome unresolved (list str) :=
  if present w (lit "/.flatpak-info") then Err InsideFlatpak else
  match after_run argv with
  | None => Err NoRun
  | Some options =>
      match argv with
      | [] => Panic
      | flatpak :: _ =>
          Ok ([flatpak; lit "run"; lit "--unshare=network"; lit "--die-with-parent";
               lit "--filesystem=" ++ flatpak_filesystem_spec staged_file]
              ++ List.filter (fun tok => negb (bool_decide (tok ∈ forwarding))) options)
      end
  end.

Definition is_flatpak (cmd : str) : bool :=
  bool_decide (cmd = lit "flatpak") || bool_decide (is_Some (strip_suffix (lit "/flatpak") cmd)).

(** [resolve_viewer_command]: the command and its arguments. *)
Definition resolve_viewer_command (path : str) : outcome unresolved (list str) :=
  let path_str := from_utf8_lossy path in
  let? mime := query_mime path in
  let? desktop_id :=
    match run_trim "xdg-mime" [lit "query"; lit "default"; mime] with
    | Some s => if bool_decide (s = []) then Err (NoDefault mime) else Ok s
    | None => Err (NoDefault mime)
    end in
  let? desktop := ok_or (find_desktop_file desktop_id) (NoDesktopFile desktop_id) in
  let? exec := ok_or (parse_exec desktop) (NoExec desktop) in
  match build_argv exec path_str with
  | [] => Err (EmptyExec desktop)
  | cmd :: args => if is_flatpak cmd then rewrite_flatpak_argv (cmd :: args) path else Ok (cmd :: args)
  end.
End desktop.

(** ** Lemmas *)

(** What a command becomes, but for the file. *)
Definition template_of (tok : str) : list (option str) :=
  if decide (tok ∈ file_codes) then [None] else if decide (tok ∈ dropped_codes) then [] else [Some (unescape tok)].
Definition has_code (toks : list str) : bool := existsb (fun tok => bool_decide (tok ∈ file_codes)) toks.

Lemma substitute_template toks path argv b :
  substitute toks path argv b = (argv ++ map (default path) (concat (map template_of toks)), b || has_code toks).
Proof.
  revert argv b. induction toks as [|tok toks IH]; intros argv b; cbn [substitute map concat].
  { unfold has_code. cbn. by rewrite app_nil_r, orb_false_r. }
  unfold has_code. cbn [existsb]. unfold template_of at 1. repeat case_decide; try contradiction.
  - rewrite IH, bool_decide_eq_true_2, <- app_assoc by done. cbn [orb]. by rewrite orb_true_r.
  - rewrite IH, bool_decide_eq_false_2 by done. done.
  - rewrite IH, bool_decide_eq_false_2, <- app_assoc by done. done.
Qed.

Definition template (exec : str) : list (option str) :=
  concat (map template_of (tokenize_exec exec)) ++ if has_code (tokenize_exec exec) then [] else [None].

Lemma build_argv_template exec path : build_argv exec path = map (default path) (template exec).
Proof.
  unfold build_argv, template. rewrite substitute_template. cbn [app orb].
  rewrite map_app. destruct (has_code _); [by rewrite app_nil_r|done].
Qed.

Lemma template_none exec : None ∈ template exec.
Proof.
  unfold template. destruct (has_code (tokenize_exec exec)) eqn:Hc; [|rewrite elem_of_app; right; left].
  rewrite app_nil_r. unfold has_code in Hc. apply existsb_exists in Hc as (tok & Hin & Ht%bool_decide_eq_true).
  apply list_elem_of_In, in_concat. exists (template_of tok). split; [by apply in_map|].
  unfold template_of. rewrite decide_True by done. by left.
Qed.

Lemma template_some exec a : Some a ∈ template exec -> exists tok, tok ∈ tokenize_exec exec /\ a = unescape tok.
Proof.
  unfold template. rewrite elem_of_app. intros [Hin|Hin].
  - apply list_elem_of_In, in_concat in Hin as (l & (tok & <- & Htok)%in_map_iff & Ha).
    exists tok. split; [by apply list_elem_of_In|]. unfold template_of in Ha.
    repeat case_decide; cbn in Ha; destruct_or?; by simplify_eq.
  - destruct (has_code _); cbn in Hin; rewrite ?elem_of_cons, ?elem_of_nil in Hin; destruct_or?; done.
Qed.

(** No file name can change the command of the viewer.  The arguments are a
    template that depends on the desktop file alone, in which the path stands as whole
    arguments, at least once; the other arguments are the words of the command. *)
Theorem argv_is_a_template exec :
  exists t : list (option str),
    (forall path, build_argv exec path = map (default path) t) /\ None ∈ t /\
    (forall a, Some a ∈ t -> exists tok, tok ∈ tokenize_exec exec /\ a = unescape tok).
Proof.
  exists (template exec). split_and!; [apply build_argv_template|apply template_none|apply template_some].
Qed.

(** The check for an empty command never fires: an [Exec] line without words makes the
    decrypted document itself the command. *)
Example empty_exec_runs_the_document path : build_argv [] path = [path].
Proof. reflexivity. Qed.

(** *** Quoting *)

(** How the desktop-entry specification writes an argument: as it is when it has no
    blank and no quotes, or in double quotes, four characters preceded by a backslash. *)
Definition reserved : list byte := [quote; backslash; Byte.x60; Byte.x24].
Definition escape (a : str) : str := concat (map (fun c => if decide (c ∈ reserved) then [backslash; c] else [c]) a).
Definition bare (a : str) : bool := negb (bool_decide (a = [])) && forallb (fun c => negb (blank c) && negb (bool_decide (c = quote))) a.
Definition written (word : bool * str) : str := if word.1 then quote :: escape word.2 ++ [quote] else word.2.
Fixpoint command_line (ws : list (bool * str)) : str :=
  match ws with
  | [] => []
  | [word] => written word
  | word :: ws => written word ++ Byte.x20 :: command_line ws
  end.

Lemma tokens_escape a s started cur : tokens (escape a ++ quote :: s) true started cur = tokens s false true (cur ++ a).
Proof.
  revert started cur. induction a as [|c a IH]; intros started cur; [cbn; by rewrite app_nil_r|].
  unfold escape. cbn [map concat]. fold (escape a). case_decide as Hc; cbn [app].
  - cbn [tokens]. rewrite (decide_False (P := backslash = quote)) by done. rewrite bool_decide_eq_true_2 by done.
    cbn [andb]. by rewrite IH, <- app_assoc.
  - cbn [tokens]. assert (c <> quote /\ c <> backslash) as [Hq Hb].
    { split; intros ->; apply Hc; apply (bool_decide_unpack _); done. }
    rewrite decide_False, bool_decide_eq_false_2 by done. cbn [andb negb]. rewrite andb_false_r.
    by rewrite IH, <- app_assoc.
Qed.

Lemma tokens_bare a s started cur :
  forallb (fun c => negb (blank c) && negb (bool_decide (c = quote))) a = true ->
  tokens (a ++ s) false started cur = tokens s false (started || negb (bool_decide (a = []))) (cur ++ a).
Proof.
  revert started cur. induction a as [|c a IH]; intros started cur Ha.
  { rewrite bool_decide_eq_true_2 by done. cbn. by rewrite orb_false_r, app_nil_r. }
  cbn [forallb] in Ha. apply andb_true_iff in Ha as [[Hb%negb_true_iff Hq%negb_true_iff%bool_decide_eq_false]%andb_true_iff Ha].
  cbn [app tokens]. rewrite decide_False by done. rewrite andb_false_r, Hb. cbn [andb]. rewrite IH by done.
  rewrite (bool_decide_eq_false_2 (c :: a = [])) by done. cbn [negb orb]. by rewrite orb_true_r, <- app_assoc.
Qed.

Lemma tokens_written q a s :
  q = true \/ bare a = true -> tokens (written (q, a) ++ s) false false [] = tokens s false true a.
Proof.
  intros Hw. unfold written. cbn [fst snd]. destruct q.
  - cbn [app tokens]. rewrite decide_True by done. cbn [negb].
    rewrite <- app_assoc. cbn [app]. by rewrite tokens_escape.
  - destruct Hw as [|[Hne Hb]%andb_true_iff]; [done|]. by rewrite tokens_bare, Hne.
Qed.

(** A command written by the rules of the desktop-entry specification, each
    argument bare or quoted, is split into exactly its arguments. *)
Theorem command_line_read_back ws :
  Forall (fun word => word.1 = true \/ bare word.2 = true) ws -> tokenize_exec (command_line ws) = map snd ws.
Proof.
  unfold tokenize_exec. induction 1 as [|[q a] ws Hw _ IH]; [done|]. cbn [fst snd map] in *.
  destruct ws as [|word ws].
  - cbn [command_line]. rewrite <- (app_nil_r (written _)), tokens_written by done. done.
  - change (command_line ((q, a) :: word :: ws)) with (written (q, a) ++ Byte.x20 :: command_line (word :: ws)).
    rewrite tokens_written by done. cbn [tokens]. rewrite decide_False, IH by done. done.
Qed.

(** [viewer --title "a \"b\"" ""]. *)
Definition demo_words : list (bool * str) :=
  [(false, lit "viewer"); (false, lit "--title"); (true, lit "a " ++ [quote] ++ lit "b" ++ [quote]); (true, [])].

Lemma command_line_read_back_witness :
  Forall (fun word => word.1 = true \/ bare word.2 = true) demo_words /\
  tokenize_exec (command_line demo_words) = map snd demo_words.
Proof.
  assert (Hw : Forall (fun word => word.1 = true \/ bare word.2 = true) demo_words).
  { unfold demo_words. repeat constructor; cbn [fst snd]; first [by left | right; reflexivity]. }
  split; [exact Hw|]. apply (command_line_read_back demo_words Hw).
Defined.

(** *** A viewer in its own flatpak *)

Lemma after_run_suffix argv options : after_run argv = Some options -> exists before, argv = before ++ lit "run" :: options.
Proof.
  revert options. induction argv as [|a argv IH]; intros options; [done|]. cbn [after_run]. case_decide as Ha.
  - intros [= ->]. exists []. by subst.
  - intros (before & ->)%IH. by exists (a :: before).
Qed.

(** What the value of [--filesystem] says: a place, read-only; [xdg-run] is the user's
    runtime directory. *)
Definition read_only_place (w : Desktop) (spec path : str) : Prop :=
  spec = from_utf8_lossy path ++ lit ":ro" \/
  exists runtime rel, variable w (lit "XDG_RUNTIME_DIR") = Some runtime /\ runtime <> [] /\
    spec = lit "xdg-run/" ++ from_utf8_lossy rel ++ lit ":ro" /\ components path = components runtime ++ components rel.

Lemma filesystem_spec_place w path : read_only_place w (flatpak_filesystem_spec w path) path.
Proof.
  unfold flatpak_filesystem_spec. destruct (variable w _) as [runtime|] eqn:Hr; [|by left].
  case_bool_decide as Hne; [by left|]. destruct (path_strip_prefix runtime path) as [rel|] eqn:Hrel; [|by left].
  right. exists runtime, rel. split_and!; [done..|]. by apply path_strip_prefix_components.
Qed.

Lemma resolved_from w path argv :
  resolve_viewer_command w path = Ok argv ->
  exists mime id desktop exec,
    query_mime w path = Ok mime /\ run_trim w "xdg-mime" [lit "query"; lit "default"; mime] = Some id /\ id <> [] /\
    find_desktop_file w id = Some desktop /\ parse_exec w desktop = Some exec /\
    (if is_flatpak (hd [] (build_argv exec (from_utf8_lossy path)))
     then rewrite_flatpak_argv w (build_argv exec (from_utf8_lossy path)) path = Ok argv
     else argv = build_argv exec (from_utf8_lossy path)).
Proof.
  unfold resolve_viewer_command. destruct (query_mime w path) as [mime| |] eqn:Hm; [|done..]. cbn [obind].
  destruct (run_trim w _ _) as [id|] eqn:Hid; [|done]. case_bool_decide as Hne; [done|]. cbn [obind].
  destruct (find_desktop_file w id) as [desktop|] eqn:Hd; [|done]. cbn [ok_or obind].
  destruct (parse_exec w desktop) as [exec|] eqn:He; [|done]. cbn [ok_or obind].
  intros Hr. exists mime, id, desktop, exec. split_and!; [done..|].
  destruct (build_argv _ _) as [|cmd args]; [done|]. cbn [hd]. destruct (is_flatpak cmd); [done|]. by injection Hr.
Qed.

(** A viewer installed as a flatpak is started in a sandbox of its own, without
    network, that dies with the program and is given the staged file alone, to read,
    by its path: the options come first, none of the words that would route the file
    through the document portal is passed on, and the application's other arguments
    are those of its desktop file in their order.  From inside a flatpak none is
    started.  Any other viewer gets the arguments of its desktop file as they are. *)
Theorem flatpak_viewer_confined w path argv :
  resolve_viewer_command w path = Ok argv ->
  exists exec, let built := build_argv exec (from_utf8_lossy path) in
    if is_flatpak (hd [] built)
    then present w (lit "/.flatpak-info") = false /\
      exists spec before options passed,
        built = before ++ lit "run" :: options /\
        argv = hd [] built :: lit "run" :: lit "--unshare=network" :: lit "--die-with-parent"
                 :: (lit "--filesystem=" ++ spec) :: passed /\
        read_only_place w spec path /\
        sublist passed options /\ (forall tok, tok ∈ passed <-> tok ∈ options /\ tok ∉ forwarding)
    else argv = built.
Proof.
  intros (mime & id & desktop & exec & _ & _ & _ & _ & _ & Hr)%resolved_from. exists exec. cbv zeta.
  destruct (is_flatpak _); [|done]. unfold rewrite_flatpak_argv in Hr.
  destruct (present w _); [done|]. split; [done|].
  destruct (after_run _) as [options|] eqn:Ho; [|done]. apply after_run_suffix in Ho as (before & Hb).
  destruct (build_argv exec _) as [|cmd args]; [done|]. injection Hr as <-.
  exists (flatpak_filesystem_spec w path), before, options,
    (List.filter (fun tok => negb (bool_decide (tok ∈ forwarding))) options).
  split_and!; [done..|apply filesystem_spec_place| |].
  - clear. induction options as [|o l IH]; [constructor|]. cbn. destruct (negb _); by constructor.
  - intros tok. rewrite list_elem_of_In, filter_In, <- list_elem_of_In, negb_true_iff, bool_decide_eq_false. done.
Qed.

(** A desktop whose viewer of PDF files is a flatpak. *)
Definition papers : str :=
  lit "[Desktop Entry]" ++ [Byte.x0a] ++ lit "Name=Papers" ++ [Byte.x0a] ++
  lit "Exec=/usr/bin/flatpak run --branch=stable --command=papers --file-forwarding org.gnome.Papers @@u %U @@".
Definition office : Desktop := {|
  present := fun p => bool_decide (p = lit "/var/lib/flatpak/exports/share/applications/org.gnome.Papers.desktop");
  is_file := fun p => bool_decide (p = lit "/var/lib/flatpak/exports/share/applications/org.gnome.Papers.desktop");
  read_to_string := fun _ => Some papers;
  variable := fun k =>
    if bool_decide (k = lit "XDG_RUNTIME_DIR") then Some (lit "/run/user/1000")
    else if bool_decide (k = lit "XDG_DATA_DIRS") then Some (lit "/usr/share:/var/lib/flatpak/exports/share") else None;
  home_dir := Some (lit "/home/ada");
  run := fun _ args => match args with
    | [_; a; _] => Some (if bool_decide (a = lit "default") then lit "org.gnome.Papers.desktop" else lit "application/pdf")
    | _ => None
    end |}.
Definition staged_pdf : str := lit "/run/user/1000/atom_staging/deed_view_tmp.pdf".

Lemma office_command :
  resolve_viewer_command office staged_pdf = Ok (map lit
    ["/usr/bin/flatpak"; "run"; "--unshare=network"; "--die-with-parent";
     "--filesystem=xdg-run/atom_staging/deed_view_tmp.pdf:ro"; "--branch=stable"; "--command=papers";
     "org.gnome.Papers"; "/run/user/1000/atom_staging/deed_view_tmp.pdf"]).
Proof. vm_compute. reflexivity. Qed.

Lemma flatpak_viewer_confined_witness :
  exists argv exec, resolve_viewer_command office staged_pdf = Ok argv /\
    (if is_flatpak (hd [] (build_argv exec (from_utf8_lossy staged_pdf)))
     then present office (lit "/.flatpak-info") = false else argv = build_argv exec (from_utf8_lossy staged_pdf)).
Proof.
  pose proof (flatpak_viewer_confined office staged_pdf _ office_command) as (exec & Hv).
  eexists _, exec. split; [exact office_command|]. cbv zeta in Hv.
  destruct (is_flatpak (hd [] (build_argv exec (from_utf8_lossy staged_pdf)))); [exact (proj1 Hv)|exact Hv].
Defined.
