(* ===== verification/Staging.v ===== *)
(** * Staging a document for the viewer

    [atom/src/gui/broker.rs], the part that holds plaintext: [open_in_viewer], the file
    in the runtime directory, waiting for the viewer, and [shred_tmpfs_job]. *)

From Stdlib Require Import Strings.Byte.
From stdpp Require Import strings gmap.
From S2P Require Import Prelude Text StateM Disk VaultOps Paths View Launch.

(** ** The state

    Names lead to files; an open handle stays with its file when the name goes.  A slot
    of [jobs] holds a viewer's teardown until it is claimed; [freed] is the memory given
    back to the allocator, [told] the flags the interface has been told. *)
Record TmpfsShredJob := { job_path : str; viewer_pid : Z; write_handle : nat; locked_map : Z; done_flag : nat }.

Record Stage := {
  names : gmap str nat;
  contents : gmap nat bytes;
  next : nat;
  jobs : list (option TmpfsShredJob);
  running : list (Z * list str);
  freed : list bytes;
  told : list nat;
}.

(** How the system calls of one viewer turn out: [stops_at] is how far a failing
    [write_all] got, [zeroed] says which writes of the wipe succeed. *)
Record Calls := {
  mkdir : bool;
  opens : bool;
  stops_at : option Z;
  syncs : bool;
  memory : kernel;
  spawn : option Z;
  seeks : bool;
  zeroed : Z -> bool;
  unlinks : bool;
}.

Definition set_names (n : gmap str nat) (s : Stage) : Stage :=
  {| names := n; contents := contents s; next := next s; jobs := jobs s; running := running s;
     freed := freed s; told := told s |}.
Definition set_content (i : nat) (b : bytes) (s : Stage) : Stage :=
  {| names := names s; contents := <[i := b]> (contents s); next := next s; jobs := jobs s; running := running s;
     freed := freed s; told := told s |}.
Definition free (b : bytes) (s : Stage) : Stage :=
  {| names := names s; contents := contents s; next := next s; jobs := jobs s; running := running s;
     freed := freed s ++ [b]; told := told s |}.
Definition tell (f : nat) (s : Stage) : Stage :=
  {| names := names s; contents := contents s; next := next s; jobs := jobs s; running := running s;
     freed := freed s; told := told s ++ [f] |}.
Definition launch (pid : Z) (argv : list str) (s : Stage) : Stage :=
  {| names := names s; contents := contents s; next := next s; jobs := jobs s; running := running s ++ [(pid, argv)];
     freed := freed s; told := told s |}.
Definition set_jobs (l : list (option TmpfsShredJob)) (s : Stage) : Stage :=
  {| names := names s; contents := contents s; next := next s; jobs := l; running := running s;
     freed := freed s; told := told s |}.

(** Opening with [create] and [truncate]: the file of that name emptied, or a new one. *)
Definition open_truncate (p : str) (s : Stage) : nat * Stage :=
  match names s !! p with
  | Some i => (i, set_content i [] s)
  | None =>
      (next s, {| names := <[p := next s]> (names s); contents := <[next s := []]> (contents s); next := S (next s);
                  jobs := jobs s; running := running s; freed := freed s; told := told s |})
  end.

Section calls.
Variable c : Calls.

(** [shred_tmpfs_job]. *)
Definition shred_tmpfs_job (job : TmpfsShredJob) (s : Stage) : Stage :=
  let plain := default [] (contents s !! write_handle job) in
  let wiped := if seeks c then content (zero_fill (zeroed c) (File plain (zlen plain))) else plain in
  let s := set_content (write_handle job) wiped s in
  let s := if unlinks c then set_names (delete (job_path job) (names s)) s else s in
  tell (done_flag job) s.

(** ** [open_in_viewer] *)

Inductive not_opened := NoStaging | Unresolved (e : unresolved) | NoFile | NotWritten | NotSynced | NotPinned | NotSpawned.

Variable w : Desktop.

Definition staging : str :=
  join (match Launch.variable w (lit "XDG_RUNTIME_DIR") with
        | Some d => d
        | None => join (default (lit "/tmp") (Launch.home_dir w)) (lit ".atom_vault")
        end) (lit "atom_staging").

Definition tmp_path (filename : str) : str :=
  let stem := default filename (file_stem filename) in
  let ext := match extension filename with Some e => lit "." ++ e | None => [] end in
  join staging (stem ++ lit "_view_tmp" ++ ext).

Definition open_in_viewer (data : bytes) (filename : str) (done_flag : nat) : M not_opened Stage unit := fun s =>
  let dropped := free data in
  if negb (mkdir c) then (Err NoStaging, dropped s) else
  let tmp := tmp_path filename in
  match resolve_viewer_command w tmp with
  | Err e => (Err (Unresolved e), dropped s)
  | Panic => (Panic, dropped s)
  | Ok argv =>
      if negb (opens c) then (Err NoFile, dropped s) else
      let (handle, s) := open_truncate tmp s in
      match stops_at c with
      | Some n => (Err NotWritten, dropped (set_content handle (ztake n data) s))
      | None =>
          let s := set_content handle data s in
          if negb (syncs c) then (Err NotSynced, dropped s) else
          match MlockedMap_new (proc_swaps (memory c)) (backing_dev (memory c)) (zlen data)
                  (mmap_errno (memory c)) (mlock_errno (memory c)) with
          | Ok locked =>
              let s := free (zrep (zlen data) Byte.x00) s in
              match spawn c with
              | None =>
                  (Err NotSpawned,
                   shred_tmpfs_job {| job_path := tmp; viewer_pid := 0; write_handle := handle;
                                      locked_map := locked; done_flag := done_flag |} s)
              | Some pid =>
                  let job := {| job_path := tmp; viewer_pid := pid; write_handle := handle;
                                locked_map := locked; done_flag := done_flag |} in
                  (Ok tt, set_jobs (jobs s ++ [Some job]) (launch pid argv s))
              end
          | _ =>
              (Err NotPinned,
               dropped (if unlinks c then set_names (delete tmp (names s)) s else s))
          end
      end
  end.

(** ** Tearing down

    The worker thread, once the viewer is gone, takes the job out of its slot; the
    signal handler kills each viewer whose job it takes. *)
Definition worker_closes (slot : nat) (s : Stage) : Stage :=
  match jobs s !! slot with
  | Some (Some job) => shred_tmpfs_job job (set_jobs (<[slot := None]> (jobs s)) s)
  | _ => s
  end.

Definition kill (pid : Z) (s : Stage) : Stage :=
  {| names := names s; contents := contents s; next := next s; jobs := jobs s;
     running := List.filter (fun v => negb (v.1 =? pid)) (running s); freed := freed s; told := told s |}.

Definition shred_on_signal (slot : nat) (s : Stage) : Stage :=
  match jobs s !! slot with
  | Some (Some job) => shred_tmpfs_job job (kill (viewer_pid job) (set_jobs (<[slot := None]> (jobs s)) s))
  | _ => s
  end.
End calls.

(** ** Waiting for the viewer *)

(** [is_file_open]: the processes' descriptors, and where each leads; what cannot be
    read is passed over. *)
Definition is_file_open (proc : option (list (option (list (option str))))) (path : str) : bool :=
  match proc with
  | None => false
  | Some procs =>
      existsb (fun fds => match fds with
                          | None => false
                          | Some fds => existsb (fun target => match target with
                                                               | Some t => bool_decide (components t = components path)
                                                               | None => false
                                                               end) fds
                          end) procs
  end.

(** [wait_for_viewer_exit] after the child's exit: [seen n] is what the [n]-th look
    finds, [elapsed n] the milliseconds since the exit before it; the result is the
    number of looks taken. *)
Definition HANDOFF_SETTLE : Z := 3000.

Fixpoint settle (fuel : nat) (seen : nat -> bool) (elapsed : nat -> Z) (n : nat) : option (bool * nat) :=
  match fuel with
  | O => None
  | S fuel =>
      if elapsed n <? HANDOFF_SETTLE then
        if seen n then Some (true, S n) else settle fuel seen elapsed (S n)
      else Some (false, n)
  end.

Fixpoint released (fuel : nat) (seen : nat -> bool) (n : nat) : option nat :=
  match fuel with
  | O => None
  | S fuel => if negb (seen n) then Some (S n) else released fuel seen (S n)
  end.

Definition wait_for_viewer_exit (fuel : nat) (seen : nat -> bool) (elapsed : nat -> Z) : option nat :=
  '(handed_off, n) ← settle fuel seen elapsed 0;
  if handed_off : bool then released fuel seen n else Some n.

(** ** Lemmas *)

Lemma resolve_never_panics w path : resolve_viewer_command w path <> Panic.
Proof.
  unfold resolve_viewer_command. destruct (query_mime w path) as [mime| |] eqn:Hm; cbn [obind].
  - destruct (run_trim w _ _) as [id|]; [|done]. case_bool_decide; [done|]. cbn [obind].
    destruct (find_desktop_file w id) as [d|]; [|done]. cbn [ok_or obind].
    destruct (parse_exec w d); [|done]. cbn [ok_or obind]. destruct (build_argv _ _) as [|cmd args]; [done|].
    destruct (is_flatpak cmd); [|done]. unfold rewrite_flatpak_argv. destruct (present w _); [done|].
    by destruct (after_run _).
  - done.
  - revert Hm. unfold query_mime. destruct (run_trim w _ _); repeat case_match; done.
Qed.

Lemma locked_or_safe k n z :
  MlockedMap_new (proc_swaps k) (backing_dev k) n (mmap_errno k) (mlock_errno k) = Ok z ->
  z = n \/ disk_persistence_possible (proc_swaps k) (backing_dev k) = false.
Proof.
  unfold MlockedMap_new. destruct (n =? 0) eqn:Hn; [intros [= <-]; left; bools; done|].
  destruct (mmap_errno k); [done|]. destruct (mlock_errno k); [|intros [= <-]; by left].
  destruct (z0 =? ENOMEM); [|done]. destruct (disk_persistence_possible _ _); [done|]. by right.
Qed.

(** What opening and filling the staged file does to the state. *)
Lemma open_truncate_spec p s :
  let (i, s1) := open_truncate p s in
  names s1 = <[p := i]> (names s) /\ contents s1 = <[i := []]> (contents s) /\
  jobs s1 = jobs s /\ running s1 = running s /\ freed s1 = freed s /\ told s1 = told s.
Proof.
  unfold open_truncate. destruct (names s !! p) as [i|] eqn:Hp; [|done]. cbn. by rewrite insert_id.
Qed.

Lemma zero_loop_ext ok ok' pages written size mem :
  (forall n, ok n = ok' n) -> zero_loop ok pages written size mem = zero_loop ok' pages written size mem.
Proof.
  intros Hok. revert written mem. induction pages as [|pages IH]; intros written mem; [done|]. cbn [zero_loop].
  rewrite Hok. destruct (size <=? written); [done|]. destruct (ok' written); [apply IH|done].
Qed.

Lemma zero_fill_ok ok mem : (forall n, ok n = true) -> content (zero_fill ok mem) = zrep (f_len mem) Byte.x00.
Proof.
  intros Hok. rewrite <- zero_fill_all. unfold zero_fill. destruct (f_len mem =? 0); [done|].
  by rewrite (zero_loop_ext ok (fun _ => true)).
Qed.

Ltac stage := cbn [names contents next jobs running freed told free set_content set_names set_jobs launch tell kill] in *.

(** C19: What can come of opening a document, whatever the system does.  Without a
    staging folder, a viewer, or the file, nothing is written.  The viewer is started
    only on a file that holds exactly the document, pinned in memory or on a machine
    that cannot write memory to disk, its teardown registered, and the program's own
    copy zeroed before it is freed.  If the file cannot be pinned its name is gone; if
    the viewer cannot be started it has been wiped as well and the interface told.  A
    failing write or sync leaves what was written under its name.  No other name
    changes, and no failure leaves a viewer or a teardown behind. *)
Theorem staged_or_taken_back c w data filename flag s :
  let tmp := tmp_path w filename in
  let (r, s') := open_in_viewer c w data filename flag s in
  (forall p, p <> tmp -> names s' !! p = names s !! p) /\
  match r with
  | Ok _ => exists i argv pid locked,
      resolve_viewer_command w tmp = Ok argv /\ names s' !! tmp = Some i /\ contents s' !! i = Some data /\
      running s' = running s ++ [(pid, argv)] /\
      jobs s' = jobs s ++ [Some {| job_path := tmp; viewer_pid := pid; write_handle := i;
                                   locked_map := locked; done_flag := flag |}] /\
      freed s' = freed s ++ [zrep (zlen data) Byte.x00] /\ told s' = told s /\
      (locked = zlen data \/ disk_persistence_possible (proc_swaps (memory c)) (backing_dev (memory c)) = false)
  | Err e =>
      running s' = running s /\ jobs s' = jobs s /\
      match e with
      | NoStaging | Unresolved _ | NoFile =>
          names s' = names s /\ contents s' = contents s /\ freed s' = freed s ++ [data]
      | NotWritten => exists i n, stops_at c = Some n /\
          names s' !! tmp = Some i /\ contents s' !! i = Some (ztake n data) /\ freed s' = freed s ++ [data]
      | NotSynced => exists i,
          names s' !! tmp = Some i /\ contents s' !! i = Some data /\ freed s' = freed s ++ [data]
      | NotPinned => (unlinks c = true -> names s' !! tmp = None) /\ freed s' = freed s ++ [data]
      | NotSpawned =>
          (unlinks c = true -> names s' !! tmp = None) /\ told s' = told s ++ [flag] /\
          freed s' = freed s ++ [zrep (zlen data) Byte.x00] /\
          (seeks c = true -> (forall n, zeroed c n = true) ->
           exists i, contents s' = <[i := zrep (zlen data) Byte.x00]> (contents s))
      end
  | Panic => False
  end.
Proof.
  cbv zeta. unfold open_in_viewer. set (tmp := tmp_path w filename).
  destruct (mkdir c); [|by split_and!]. cbn [negb].
  destruct (resolve_viewer_command w tmp) as [argv|e|] eqn:Hr; [|by split_and!|by destruct (resolve_never_panics w tmp)].
  destruct (opens c); [|by split_and!]. cbn [negb].
  pose proof (open_truncate_spec tmp s) as Ho. destruct (open_truncate tmp s) as [i s1].
  destruct Ho as (Hn & Hc & Hj & Hru & Hf & Ht).
  assert (Hother : forall p, p <> tmp -> names s1 !! p = names s !! p) by (intros p Hp; by rewrite Hn, lookup_insert_ne).
  assert (Htmp : names s1 !! tmp = Some i) by by rewrite Hn, lookup_insert_eq.
  assert (Hkeep : forall b : bool, unlinks c = b ->
    let s2 := if b then set_names (delete tmp (names s1)) s1 else s1 in
    (forall p, p <> tmp -> names s2 !! p = names s !! p) /\ (b = true -> names s2 !! tmp = None)).
  { intros [] _; cbn [names set_names]; (split; [|done || intros _; by rewrite lookup_delete_eq]); [|done].
    intros p Hp. rewrite lookup_delete_ne; [by apply Hother|done]. }
  specialize (Hkeep _ eq_refl). cbv zeta in Hkeep. destruct Hkeep as [Hk1 Hk2].
  destruct (stops_at c) as [n|].
  { stage. split_and!; [done..|]. exists i, n. by rewrite lookup_insert_eq, Hf. }
  destruct (syncs c); cbn [negb]; [|stage; split_and!; [done..|]; exists i; by rewrite lookup_insert_eq, Hf].
  destruct (MlockedMap_new _ _ _ _ _) as [locked| |] eqn:Hl.
  - destruct (spawn c) as [pid|]; stage.
    + split; [done|]. exists i, argv, pid, locked. rewrite lookup_insert_eq. split_and!; try congruence.
      by eapply locked_or_safe.
    + unfold shred_tmpfs_job. stage. rewrite lookup_insert_eq. cbn [default from_option id job_path done_flag write_handle].
      destruct (unlinks c); stage; (split; [done|]); split_and!; try congruence; try done.
      all: intros Hseek Hz; rewrite Hseek, zero_fill_ok by done; exists i; rewrite Hc, !insert_insert_eq; done.
  - destruct (unlinks c); stage; (split; [done|]); split_and!; try done; congruence.
  - destruct (unlinks c); stage; (split; [done|]); split_and!; try done; congruence.
Qed.

(** C20: A viewer that is closed leaves nothing of the document, however it is closed.
    From the state in which it was opened, when the wipe can be done, the worker that
    takes the job after the viewer is gone, and the signal handler, both leave the
    staged name gone and its file zeros to its length, every other name and file as
    before, the job gone and the interface told; the handler has killed the viewer
    first.  Whoever comes second does nothing. *)
Theorem viewer_closed_leaves_nothing c w data filename flag s s1 :
  open_in_viewer c w data filename flag s = (Ok tt, s1) ->
  exists i pid argv, spawn c = Some pid /\ contents s1 !! i = Some data /\ running s1 = running s ++ [(pid, argv)] /\
    forall c' (by_signal : bool), seeks c' = true -> unlinks c' = true -> (forall n, zeroed c' n = true) ->
      let s2 := (if by_signal then shred_on_signal c' else worker_closes c') (length (jobs s)) s1 in
      names s2 = delete (tmp_path w filename) (names s) /\
      contents s2 = <[i := zrep (zlen data) Byte.x00]> (contents s) /\
      told s2 = told s ++ [flag] /\ jobs s2 = jobs s ++ [None] /\
      (by_signal = true -> forall v, v ∈ running s2 -> v.1 <> pid) /\
      worker_closes c' (length (jobs s)) s2 = s2 /\ shred_on_signal c' (length (jobs s)) s2 = s2.
Proof.
  unfold open_in_viewer. destruct (mkdir c); [|done]. cbn [negb].
  destruct (resolve_viewer_command w _) as [argv| |]; [|done..]. destruct (opens c); [|done]. cbn [negb].
  pose proof (open_truncate_spec (tmp_path w filename) s) as Ho. destruct (open_truncate _ s) as [i s0].
  destruct Ho as (Hn & Hc & Hj & Hru & Hf & Ht). destruct (stops_at c); [done|]. destruct (syncs c); [|done]. cbn [negb].
  destruct (MlockedMap_new _ _ _ _ _) as [locked| |]; [|done..]. destruct (spawn c) as [pid|]; [|done]. stage.
  intros [= <-]. exists i, pid, argv. stage. rewrite lookup_insert_eq, Hru. split_and!; [done..|].
  intros c' by_signal Hs Hu Hz. cbv zeta.
  assert (Hslot : forall x, (jobs s ++ [x]) !! length (jobs s) = Some x) by (intros x; by apply list_lookup_middle).
  assert (Hset : forall x y : option TmpfsShredJob, <[length (jobs s) := y]> (jobs s ++ [x]) = jobs s ++ [y]).
  { intros x y. rewrite <- (Nat.add_0_r (length (jobs s))), insert_app_r. done. }
  destruct by_signal; unfold worker_closes, shred_on_signal; stage; rewrite Hj, Hslot;
    unfold shred_tmpfs_job; stage; cbn [write_handle job_path done_flag viewer_pid];
    rewrite Hs, Hu, zero_fill_ok, lookup_insert_eq by done; stage; cbn [default from_option id];
    rewrite Hset, Hslot, Hn, Hc, Ht, delete_insert_eq, !insert_insert_eq.
  all: split_and!; try done.
  intros _ v. rewrite list_elem_of_In, filter_In, negb_true_iff, Z.eqb_neq. by intros [_ ?].
Qed.

(** *** A document opened, and closed *)

Definition calm : Calls := {|
  mkdir := true; opens := true; stops_at := None; syncs := true;
  memory := {| proc_swaps := None; backing_dev := fun _ => None; mmap_errno := None; mlock_errno := None |};
  spawn := Some 4242; seeks := true; zeroed := fun _ => true; unlinks := true |}.
Definition idle : Stage := {| names := ∅; contents := ∅; next := 0; jobs := []; running := []; freed := []; told := [] |}.
Definition deed : bytes := lit "%PDF-1.7 the deed".

Lemma deed_opens : (open_in_viewer calm office deed (lit "deed.pdf") 0 idle).1 = Ok tt.
Proof. vm_compute. reflexivity. Qed.

Lemma opened_pair {E S A} (m : M E S A) s a : (m s).1 = Ok a -> m s = (Ok a, (m s).2).
Proof. destruct (m s) as [r s']. by intros [= ->]. Qed.

Lemma viewer_closed_leaves_nothing_witness :
  let s1 := (open_in_viewer calm office deed (lit "deed.pdf") 0 idle).2 in
  exists i pid argv, contents s1 !! i = Some deed /\ running s1 = [(pid, argv)] /\
    names (worker_closes calm 0 s1) = delete (tmp_path office (lit "deed.pdf")) ∅ /\
    told (worker_closes calm 0 s1) = [0%nat].
Proof.
  cbv zeta.
  destruct (viewer_closed_leaves_nothing calm office deed (lit "deed.pdf") 0 idle _ (opened_pair _ _ _ deed_opens))
    as (i & pid & argv & _ & Hc & Hr & Hclose).
  exists i, pid, argv. destruct (Hclose calm false eq_refl eq_refl (fun _ => eq_refl)) as (Hn & _ & Ht & _).
  exact (conj Hc (conj Hr (conj Hn Ht))).
Defined.

(** Two documents of the same name share one staged file: closing the first viewer
    wipes and removes what the second is showing. *)
Example same_name_wiped :
  let s1 := (open_in_viewer calm office deed (lit "deed.pdf") 0 idle).2 in
  let s2 := (open_in_viewer calm office (lit "the second deed") (lit "deed.pdf") 1 s1).2 in
  exists i job, contents s1 !! i = Some deed /\ names s2 !! tmp_path office (lit "deed.pdf") = Some i /\ contents s2 !! i = Some (lit "the second deed") /\
    jobs s2 !! 1%nat = Some (Some job) /\ write_handle job = i /\
    let s3 := worker_closes calm 0 s2 in
    jobs s3 !! 1%nat = Some (Some job) /\ contents s3 !! i = Some (zrep 15 Byte.x00) /\ names s3 = ∅.
Proof.
  cbv zeta. exists 0%nat. eexists. split_and!; vm_compute; reflexivity.
Qed.

(** A folder's name in the vault is no part of the staged name, so that this includes
    documents of different folders. *)
Example folders_dropped w : tmp_path w (lit "home/deed.pdf") = tmp_path w (lit "work/deed.pdf").
Proof. reflexivity. Qed.

(** *** Waiting *)

Definition unused (seen : nat -> bool) (n : nat) : Prop := forall i, (i < n)%nat -> seen i = false.

Lemma settle_ends fuel seen elapsed n :
  (forall k, 250 * Z.of_nat k <= elapsed k) -> unused seen n -> (12 - n < fuel)%nat ->
  exists h m, settle fuel seen elapsed n = Some (h, m) /\ (m <= Nat.max n 12)%nat /\
    if h : bool then exists j, m = S j /\ seen j = true /\ elapsed j < HANDOFF_SETTLE else unused seen m.
Proof.
  intros Ht. revert n. induction fuel as [|fuel IH]; intros n Hu Hf; [lia|]. cbn [settle].
  pose proof (Ht n) as Hn. destruct (elapsed n <? HANDOFF_SETTLE) eqn:He; bools; unfold HANDOFF_SETTLE in *.
  - destruct (seen n) eqn:Hs; [exists true, (S n); split_and!; [done|lia|by exists n]|].
    destruct (IH (S n)) as (h & m & Hm & Hle & Hh); [|lia|].
    + intros i Hi. destruct (decide (i = n)) as [->|]; [done|]. apply Hu. lia.
    + exists h, m. split_and!; [done|lia|done].
  - exists false, n. split_and!; [done|lia|done].
Qed.

Lemma settle_more fuel fuel' seen elapsed n x :
  settle fuel seen elapsed n = Some x -> (fuel <= fuel')%nat -> settle fuel' seen elapsed n = Some x.
Proof.
  revert fuel' n. induction fuel as [|fuel IH]; intros fuel' n Hs Hf; [done|]. destruct fuel' as [|fuel']; [lia|].
  cbn [settle] in *. destruct (elapsed n <? _); [|done]. destruct (seen n); [done|]. apply IH; [done|lia].
Qed.

Lemma released_ends fuel seen n m :
  (n <= m)%nat -> seen m = false -> (m - n < fuel)%nat ->
  exists k, (forall f', (fuel <= f')%nat -> released f' seen n = Some (S k)) /\ seen k = false /\ (n <= k <= m)%nat /\
    forall i, (n <= i < k)%nat -> seen i = true.
Proof.
  intros Hn Hm. revert n Hn. induction fuel as [|fuel IH]; intros n Hn Hf; [lia|].
  destruct (seen n) eqn:Hs.
  - assert (n <> m) by congruence. destruct (IH (S n)) as (k & Hk & Hsk & Hle & Hi); [lia..|].
    exists k. split_and!; [|done|lia..|].
    + intros [|f'] Hf'; [lia|]. cbn [released]. rewrite Hs. apply Hk. lia.
    + intros i Hik. destruct (decide (i = n)) as [->|]; [done|]. apply Hi. lia.
  - exists n. split_and!; [|done|lia..]. intros [|f'] Hf'; [lia|]. cbn [released]. by rewrite Hs.
Qed.

(** Waiting for a viewer ends, and not while the file is seen in use.  The looks
    are a quarter of a second apart or more.  If no process has the file open at any
    look of the three seconds after the viewer's exit, at most twelve, the wait is
    over; if one has, it goes on until a look finds the file released, and it ends
    with the first such look, however long that takes. *)
Theorem wait_ends_when_released seen elapsed m :
  (forall n, 250 * Z.of_nat n <= elapsed n) -> (12 <= m)%nat -> seen m = false ->
  exists fuel n, (forall f', (fuel <= f')%nat -> wait_for_viewer_exit f' seen elapsed = Some n) /\
    ((n <= 12)%nat /\ unused seen n \/
     exists j k, n = S k /\ (j < k <= m)%nat /\ elapsed j < HANDOFF_SETTLE /\ seen k = false /\
       forall i, (j <= i < k)%nat -> seen i = true).
Proof.
  intros Ht Hm Hs. destruct (settle_ends 13 seen elapsed 0 Ht) as (h & n & Hn & Hle & Hh); [intros i; lia|lia|].
  assert (Hmore : forall f', (13 <= f')%nat -> settle f' seen elapsed 0 = Some (h, n)) by (intros f'; by apply settle_more).
  destruct h.
  - destruct Hh as (j & -> & Hj & Hej). destruct (released_ends (S m) seen (S j) m) as (k & Hk & Hsk & Hkm & Hbetween); [lia|done|lia|].
    exists (13 + S m)%nat, (S k). split.
    + intros f' Hf'. unfold wait_for_viewer_exit. rewrite Hmore by lia. cbn [mbind option_bind]. apply Hk. lia.
    + right. exists j, k. split_and!; [done|lia..|done|done|].
      intros i Hi. destruct (decide (i = j)) as [->|]; [done|]. apply Hbetween. lia.
  - exists 13%nat, n. split; [|left; split; [lia|done]].
    intros f' Hf'. unfold wait_for_viewer_exit. by rewrite Hmore.
Qed.

(** A viewer that hands the document to an instance already running, which shows it
    from the second look to the thirtieth. *)
Definition shown (n : nat) : bool := (1 <=? n)%nat && (n <? 30)%nat.

Lemma wait_ends_when_released_witness :
  exists fuel n, (forall f', (fuel <= f')%nat -> wait_for_viewer_exit f' shown (fun n => 250 * Z.of_nat n) = Some n) /\
    ((n <= 12)%nat /\ unused shown n \/
     exists j k, n = S k /\ (j < k <= 30)%nat /\ 250 * Z.of_nat j < HANDOFF_SETTLE /\ shown k = false /\
       forall i, (j <= i < k)%nat -> shown i = true).
Proof. apply (wait_ends_when_released shown (fun n => 250 * Z.of_nat n) 30); [lia|lia|reflexivity]. Defined.
