(* ===== verification/Shell.v ===== *)
(** * The interactive shell

    [atom/src/commands/shell.rs]: lines of input dispatched to the handlers, until
    [exit] or the end of the input. *)

From Stdlib Require Import Strings.Byte.
From stdpp Require Import strings gmap.
From S2P Require Import Prelude Text Primitives StateM Disk VaultCrypto Vfs Storage VaultOps VaultSpec.
From S2P Require Import ToyVault Vault Display View.
From S2P Require Sandbox.

(** What a line shows: a listing of the table, the screen of [cat], the outcome of a
    command, what the viewer reads, or one of the fixed messages. *)
Inductive shown :=
  | Listing (m : VaultMetadata)
  | Screen (s : str)
  | Outcome (r : reply)
  | Viewed (content : bytes)
  | Missing (name : str)
  | Usage
  | Cancelled
  | Preserved
  | Help
  | Unknown (name : str)
  | Goodbye.

(** [exit], or the end of the input, where [read_line] keeps giving an empty line and
    the loop prompts for ever. *)
Inductive ended := Left_shell | Prompting.

Definition yes (input : str) : bool := bool_decide (map ascii_lower (trim input) = lit "y").

(** A line that is not UTF-8 is an error of [read_line]; at the confirmation prompts
    it is as good as an empty one. *)
Definition answer (line : bytes) : str := default [] (from_utf8 line).

Definition is_already_exists (r : reply) : bool :=
  match r with Refused (VMsg m) => bool_decide (m = "ALREADY_EXISTS"%string) | _ => false end.

Section shell.
Context `{PasswordHash} `{Aead} `{Sha256} `{Bincode} `{FastCdc}.
Variable fault : nat -> option Z.
Variables (w : machine) (k : kernel) (u : UnlockedVault).

Definition showing (x : shown) (m : V (list shown * ended)) : V (list shown * ended) :=
  let! (xs, e) := m in mret (x :: xs, e).

Definition view (name : str) : V shown :=
  let! m := gets meta in
  match find_file name m with
  | None => mret (Missing name)
  | Some f =>
      let! _ := attempt (sync fault Vault) in
      fun s => match execute fault k u f s with
               | (Ok mem, s') => (Ok (Viewed (content mem)), s')
               | (Err e, s') => (Ok (Outcome (Refused e)), s')
               | (Panic, s') => (Panic, s')
               end
  end.

Definition cat (name : str) : V shown := fun s =>
  match handle_cat fault u name s with
  | (Ok t, s') => (Ok (Screen t), s')
  | (Err e, s') => (Ok (Outcome (Refused e)), s')
  | (Panic, s') => (Panic, s')
  end.

(** The loop over the lines of the input; an export takes its answers from the next
    ones. *)
Fixpoint shell_loop (lines : list bytes) : V (list shown * ended) :=
  match lines with
  | [] => mret ([], Prompting)
  | line :: lines =>
      match from_utf8 line with
      | None => fails (VIo "read_line")
      | Some input =>
      match split_whitespace (trim input) with
      | [] => shell_loop lines
      | cmd :: args =>
          if bool_decide (cmd = lit "ls") then
            let! m := gets meta in showing (Listing m) (shell_loop lines)
          else if bool_decide (cmd = lit "import") then
            match args with
            | from_disk :: name :: _ =>
                let! r := run_command fault w u (Import from_disk name) in
                showing (Outcome r) (shell_loop lines)
            | _ => showing Usage (shell_loop lines)
            end
          else if bool_decide (cmd = lit "rm") then
            match args with
            | name :: _ =>
                let! r := run_command fault w u (Rm name) in showing (Outcome r) (shell_loop lines)
            | _ => showing Usage (shell_loop lines)
            end
          else if bool_decide (cmd = lit "export") then
            match args with
            | name :: to_disk :: _ =>
                match lines with
                | [] => showing Cancelled (mret ([], Prompting))
                | confirm :: lines =>
                    if negb (yes (answer confirm)) then showing Cancelled (shell_loop lines) else
                    let! r := run_command fault w u (Export name to_disk false) in
                    if negb (is_already_exists r) then showing (Outcome r) (shell_loop lines) else
                    match lines with
                    | [] => showing Preserved (mret ([], Prompting))
                    | overwrite :: lines =>
                        if negb (yes (answer overwrite)) then showing Preserved (shell_loop lines) else
                        let! r := run_command fault w u (Export name to_disk true) in
                        showing (Outcome r) (shell_loop lines)
                    end
                end
            | _ => showing Usage (shell_loop lines)
            end
          else if bool_decide (cmd = lit "cat") then
            match args with
            | name :: _ => let! x := cat name in showing x (shell_loop lines)
            | _ => showing Usage (shell_loop lines)
            end
          else if bool_decide (cmd = lit "view") then
            match args with
            | name :: _ => let! x := view name in showing x (shell_loop lines)
            | _ => showing Usage (shell_loop lines)
            end
          else if bool_decide (cmd = lit "vacuum") then
            let! r := run_command fault w u Vacuum in showing (Outcome r) (shell_loop lines)
          else if bool_decide (cmd = lit "help") then showing Help (shell_loop lines)
          else if bool_decide (cmd = lit "exit") then mret ([Goodbye], Left_shell)
          else showing (Unknown (sanitized_name cmd)) (shell_loop lines)
      end end
  end.

Definition start_interactive_shell (lines : list bytes) : V (list shown * ended) := shell_loop lines.
End shell.

(** ** The abstract shell *)

(** What it shows, the commands it runs, the files it displays, how it ends, and the
    files it leaves. *)
Record trace := {
  events : list shown;
  ran : list command;
  displayed : list (str * bytes);
  how : ended;
  left_store : store;
}.

Definition shows (x : shown) (t : trace) : trace :=
  {| events := x :: events t; ran := ran t; displayed := displayed t; how := how t; left_store := left_store t |}.
Definition runs_cmd (c : command) (t : trace) : trace :=
  {| events := events t; ran := c :: ran t; displayed := displayed t; how := how t; left_store := left_store t |}.
Definition displays (d : str * bytes) (t : trace) : trace :=
  {| events := events t; ran := ran t; displayed := d :: displayed t; how := how t; left_store := left_store t |}.

Definition stops (e : ended) (a : store) : trace :=
  {| events := []; ran := []; displayed := []; how := e; left_store := a |}.

(** The table of a listing, by name only. *)
Definition names_only (names : list str) : VaultMetadata :=
  {| file_table := map (fun n => {| vfs_name := n; chunks := []; last_modified_unix := 0 |}) names;
     cdc_salt := [] |}.

Definition abstractly (x : shown) : shown :=
  match x with
  | Listing m => Listing (names_only (map vfs_name (file_table m)))
  | x => x
  end.

Section spec.
Variable w : machine.

Fixpoint shell_spec (a : store) (lines : list bytes) : trace :=
  match lines with
  | [] => stops Prompting a
  | line :: lines =>
      match from_utf8 line with
      | None => stops Prompting a
      | Some input =>
      match split_whitespace (trim input) with
      | [] => shell_spec a lines
      | cmd :: args =>
          if bool_decide (cmd = lit "ls") then
            shows (Listing (names_only (map fst (files a)))) (shell_spec a lines)
          else if bool_decide (cmd = lit "import") then
            match args with
            | from_disk :: name :: _ =>
                let (r, a) := step w a (Import from_disk name) in
                runs_cmd (Import from_disk name) (shows (Outcome r) (shell_spec a lines))
            | _ => shows Usage (shell_spec a lines)
            end
          else if bool_decide (cmd = lit "rm") then
            match args with
            | name :: _ =>
                let (r, a) := step w a (Rm name) in
                runs_cmd (Rm name) (shows (Outcome r) (shell_spec a lines))
            | _ => shows Usage (shell_spec a lines)
            end
          else if bool_decide (cmd = lit "export") then
            match args with
            | name :: to_disk :: _ =>
                match lines with
                | [] => shows Cancelled (stops Prompting a)
                | confirm :: lines =>
                    if negb (yes (answer confirm)) then shows Cancelled (shell_spec a lines) else
                    let (r, a) := step w a (Export name to_disk false) in
                    runs_cmd (Export name to_disk false)
                    (if negb (is_already_exists r) then shows (Outcome r) (shell_spec a lines) else
                     match lines with
                     | [] => shows Preserved (stops Prompting a)
                     | overwrite :: lines =>
                         if negb (yes (answer overwrite)) then shows Preserved (shell_spec a lines) else
                         let (r, a) := step w a (Export name to_disk true) in
                         runs_cmd (Export name to_disk true) (shows (Outcome r) (shell_spec a lines))
                     end)
                end
            | _ => shows Usage (shell_spec a lines)
            end
          else if bool_decide (cmd = lit "cat") then
            match args with
            | name :: _ =>
                match find_data name (files a) with
                | None => shows (Screen (lit "Error: File '" ++ name ++ lit "' not found in vault." ++ nl))
                                (shell_spec a lines)
                | Some data => displays (name, data) (shows (Screen (banner name (screen data))) (shell_spec a lines))
                end
            | _ => shows Usage (shell_spec a lines)
            end
          else if bool_decide (cmd = lit "view") then
            match args with
            | name :: _ =>
                match find_data name (files a) with
                | None => shows (Missing name) (shell_spec a lines)
                | Some data => displays (name, data) (shows (Viewed data) (shell_spec a lines))
                end
            | _ => shows Usage (shell_spec a lines)
            end
          else if bool_decide (cmd = lit "vacuum") then
            let (r, a) := step w a Vacuum in runs_cmd Vacuum (shows (Outcome r) (shell_spec a lines))
          else if bool_decide (cmd = lit "help") then shows Help (shell_spec a lines)
          else if bool_decide (cmd = lit "exit") then shows Goodbye (stops Left_shell a)
          else shows (Unknown (sanitized_name cmd)) (shell_spec a lines)
      end end
  end.
End spec.

(** ** Refinement *)

(** Names and contents the terminal and the memory file take. *)
Definition displayable (nd : str * bytes) : Prop :=
  (Byte.x00 ∉ fst nd) /\ zlen (fst nd) <= 249 - 17 /\ snd nd <> [].

Section refinement.
Context `{PasswordHash} `{Aead} `{Sha256} `{Bincode} `{FastCdc}.
Context `{!AeadLaws _} `{!Sha256Laws _} `{!BincodeLaws _} `{!FastCdcLaws _}.
Abbreviation none := (fun _ : nat => @None Z).
Variables (password : str) (u : UnlockedVault) (w : machine) (k : kernel) (now : Z).
Hypothesis Hw : unix_clock w = Some now.
Hypothesis Hnow : is_u64 now.
Hypothesis Hmmap : mmap_errno k = None.
Hypothesis Hmlock : mlock_errno k = None.

Definition ends_as (t : trace) (r : list shown * ended) (s' : vault) : Prop :=
  map abstractly (fst r) = events t /\ snd r = how t /\
  exists size off, holds password u (left_store t) size off s'.

Lemma showing_ends x y m s t :
  abstractly x = y -> runs m s (ends_as t) -> runs (showing x m) s (ends_as (shows y t)).
Proof.
  intros <- (r & s' & Hm & He & Hh & Ho). apply runs_bind. exists r, s'. split; [done|].
  destruct r as [xs e]. apply runs_ret. split_and!; [by cbn in *; rewrite He|done|done].
Qed.

Lemma displays_ends d t : ends_as (displays d t) = ends_as t.
Proof. done. Qed.

Lemma stops_ends e a size off s :
  holds password u a size off s -> runs (mret ([], e)) s (ends_as (stops e a)).
Proof. intros Ho. apply runs_ret. split_and!; [done|done|by exists size, off]. Qed.

(** A command, and the rest of the loop after its answer. *)
Lemma perform_ends c cs a size off s (m : reply -> V (list shown * ended)) t :
  holds password u a size off s -> room w size off a (c :: cs) ->
  (forall s' size' off', holds password u (snd (step w a c)) size' off' s' ->
     room w size' off' (snd (step w a c)) cs -> runs (m (fst (step w a c))) s' (ends_as t)) ->
  runs (let! r := run_command none w u c in m r) s (ends_as t).
Proof.
  intros Ho Hr HQ. apply runs_bind. eapply runs_conseq.
  - eapply (command_runs none); [done|exact Ho|exact Hw|exact Hnow|exact Hr].
  - intros r s' (-> & size' & off' & Ho' & Hr'). by eapply HQ.
Qed.

Lemma holds_frame a size off s s' :
  frame Vault s s' -> content (phys s') = content (phys s) ->
  holds password u a size off s -> holds password u a size off s'.
Proof.
  intros F Hc (Hv & Hd & Hsz & Hpay & Hmax). pose proof F as (Fh & _ & Fm & Fp & _).
  split_and!; [by eapply vault_ok_frame|..|by rewrite Fm|by rewrite Fp|done].
  rewrite <- Hd. f_equal. apply map_eq. intros p. by apply (Fh (Other p)).
Qed.

Lemma cat_ends name a size off s (Q : shown -> vault -> Prop) :
  holds password u a size off s ->
  match find_data name (files a) with
  | None => Q (Screen (lit "Error: File '" ++ name ++ lit "' not found in vault." ++ nl)) s
  | Some data => displayable (name, data) /\
      forall s', holds password u a size off s' -> Q (Screen (banner name (screen data))) s'
  end -> runs (cat none u name) s Q.
Proof.
  intros Ho. pose proof Ho as (Hv & _ & _ & Hpay & Hmax). destruct (find_data name (files a)) as [data|] eqn:Hf.
  - intros ((Hnul & Hlen & Hne) & HQ). cbn in *.
    destruct (cat_runs password u (files a) s name data (fun r s' => r = banner name (screen data) /\
      frame Vault s s' /\ content (phys s') = content (phys s))) as (r & s' & Hrun & -> & F & Hc);
      [done|by apply find_data_Some|done|done|lia|lia|done|].
    exists (Screen (banner name (screen data))), s'. unfold cat. rewrite Hrun. split; [done|]. apply HQ.
    by eapply holds_frame.
  - intros HQ. eexists _, s. split; [|exact HQ]. unfold cat, handle_cat, mbind, gets.
    by rewrite (find_file_absent _ _ _ _ _ Hv (find_data_None _ _ Hf)).
Qed.

Lemma execute_runs name data f a size off s (Q : file -> vault -> Prop) :
  holds password u a size off s -> find_file name (meta s) = Some f -> (name, data) ∈ files a ->
  displayable (name, data) ->
  (forall s', holds password u a size off s' -> Q (File data 0) s') -> runs (execute none k u f) s Q.
Proof.
  intros Ho Hf Hin (Hnul & Hlen & Hne) HQ. pose proof Ho as (Hv & _). unfold execute.
  apply runs_bind. eapply (prepare_runs password u (files a)); [exact Hv|exact Hf|exact Hin|exact Hnul|exact Hlen|].
  intros s1 F Hc.
  assert (Ho1 : holds password u a size off s1) by by eapply holds_frame.
  assert (Hb : forall s, holds password u a size off s -> holds password u a size off (bump s)).
  { intros s0 Hs0. by eapply holds_frame; [apply frame_bump|..]. }
  apply runs_bind. eexists tt, _. split; [done|].
  assert (Hl : MlockedMap_new (proc_swaps k) (backing_dev k) (f_len (File data 0)) (mmap_errno k) (mlock_errno k)
    = Ok (f_len (File data 0))).
  { unfold MlockedMap_new. rewrite Hmmap, Hmlock. destruct (_ =? 0) eqn:Hz; bools; [by rewrite Hz|done]. }
  rewrite Hl. apply runs_bind. eexists tt, _. split; [done|]. apply runs_bind. eexists tt, _. split; [done|].
  apply runs_ret. apply HQ. by apply Hb, Hb, Hb.
Qed.

Lemma view_ends name a size off s (Q : shown -> vault -> Prop) :
  holds password u a size off s ->
  match find_data name (files a) with
  | None => Q (Missing name) s
  | Some data => displayable (name, data) /\ forall s', holds password u a size off s' -> Q (Viewed data) s'
  end -> runs (view none k u name) s Q.
Proof.
  intros Ho. pose proof Ho as (Hv & _). unfold view. intros HQ. apply runs_bind. eexists _, _. split; [done|].
  destruct (find_data name (files a)) as [data|] eqn:Hf.
  - destruct HQ as [Hd HQ]. apply find_data_Some in Hf.
    pose proof Hv as (((_ & _ & _ & _ & Ht & Hnd & _) & _) & _).
    destruct (find_holds _ _ _ _ _ _ Ht Hnd Hf) as (f & Hfind & _). unfold find_file. rewrite Hfind.
    apply runs_bind, runs_attempt. eapply (runs_sync none ltac:(done) Vault); [done|]. intros s1 Hh1 F1.
    cbn in Hh1. injection Hh1 as Hp1.
    assert (Ho1 : holds password u a size off s1) by (eapply holds_frame; [exact F1|by rewrite Hp1|done]).
    destruct (execute_runs name data f a size off s1 (fun mem s' => mem = File data 0 /\
      holds password u a size off s')) as (mem & s' & Hrun & -> & Ho'); try done.
    { destruct F1 as (_ & _ & Fm & _). by rewrite Fm. }
    exists (Viewed data), s'. rewrite Hrun. split; [done|]. by apply HQ.
  - rewrite (find_file_absent _ _ _ _ _ Hv (find_data_None _ _ Hf)). by apply runs_ret.
Qed.

(** The loop after a prefix of the input: what is left simulates. *)
Definition simulated (lines : list bytes) : Prop :=
  forall a size off s,
    holds password u a size off s -> Forall (fun l => utf8_valid l = true) lines ->
    room w size off a (ran (shell_spec w a lines)) -> Forall displayable (displayed (shell_spec w a lines)) ->
    runs (shell_loop none w k u lines) s (ends_as (shell_spec w a lines)).

(** A command, its outcome, and the rest of the input. *)
Definition performed (a : store) (c : command) (lines : list bytes) : trace :=
  let (r, a) := step w a c in runs_cmd c (shows (Outcome r) (shell_spec w a lines)).

Lemma perform_simulated c lines a size off s :
  simulated lines -> holds password u a size off s -> Forall (fun l => utf8_valid l = true) lines ->
  room w size off a (ran (performed a c lines)) -> Forall displayable (displayed (performed a c lines)) ->
  runs (let! r := run_command none w u c in showing (Outcome r) (shell_loop none w k u lines)) s
    (ends_as (performed a c lines)).
Proof.
  unfold performed. intros Hsim Ho Hl. destruct (step w a c) as [r a'] eqn:Hs. cbn [ran runs_cmd shows displayed].
  intros Hr Hd. eapply perform_ends; [exact Ho|exact Hr|]. rewrite Hs. cbn [fst snd].
  intros s' size' off' Ho' Hr'. eapply showing_ends; [done|]. exact (Hsim _ _ _ _ Ho' Hl Hr' Hd).
Qed.

(** An export, with its confirmations. *)
Definition exported (a : store) (name to_disk : str) (lines : list bytes) : trace :=
  match lines with
  | [] => shows Cancelled (stops Prompting a)
  | confirm :: lines =>
      if negb (yes (answer confirm)) then shows Cancelled (shell_spec w a lines) else
      let (r, a) := step w a (Export name to_disk false) in
      runs_cmd (Export name to_disk false)
      (if negb (is_already_exists r) then shows (Outcome r) (shell_spec w a lines) else
       match lines with
       | [] => shows Preserved (stops Prompting a)
       | overwrite :: lines =>
           if negb (yes (answer overwrite)) then shows Preserved (shell_spec w a lines)
           else performed a (Export name to_disk true) lines
       end)
  end.

Definition export_lines (name to_disk : str) (lines : list bytes) : V (list shown * ended) :=
  match lines with
  | [] => showing Cancelled (mret ([], Prompting))
  | confirm :: lines =>
      if negb (yes (answer confirm)) then showing Cancelled (shell_loop none w k u lines) else
      let! r := run_command none w u (Export name to_disk false) in
      if negb (is_already_exists r) then showing (Outcome r) (shell_loop none w k u lines) else
      match lines with
      | [] => showing Preserved (mret ([], Prompting))
      | overwrite :: lines =>
          if negb (yes (answer overwrite)) then showing Preserved (shell_loop none w k u lines) else
          let! r := run_command none w u (Export name to_disk true) in
          showing (Outcome r) (shell_loop none w k u lines)
      end
  end.

Lemma export_simulated name to_disk lines a size off s :
  (forall lines', (length lines' <= length lines)%nat -> simulated lines') ->
  holds password u a size off s -> Forall (fun l => utf8_valid l = true) lines ->
  room w size off a (ran (exported a name to_disk lines)) ->
  Forall displayable (displayed (exported a name to_disk lines)) ->
  runs (export_lines name to_disk lines) s (ends_as (exported a name to_disk lines)).
Proof.
  intros Hsim Ho Hl. destruct lines as [|confirm lines]; cbn [exported export_lines].
  { intros _ _. apply showing_ends; [done|by eapply stops_ends]. }
  apply list.Forall_cons in Hl as [_ Hl]. destruct (negb (yes (answer confirm))).
  { intros Hr Hd. apply showing_ends; [done|]. apply (Hsim lines ltac:(cbn; lia) _ _ _ _ Ho Hl Hr Hd). }
  destruct (step w a _) as [r a'] eqn:Hs. cbn [ran runs_cmd displayed]. intros Hr Hd.
  eapply perform_ends; [exact Ho|exact Hr|]. rewrite Hs. cbn [fst snd]. intros s' size' off' Ho' Hr'.
  destruct (negb (is_already_exists r)).
  { apply showing_ends; [done|]. apply (Hsim lines ltac:(cbn; lia) _ _ _ _ Ho' Hl Hr' Hd). }
  destruct lines as [|overwrite lines]; [apply showing_ends; [done|by eapply stops_ends]|].
  apply list.Forall_cons in Hl as [_ Hl]. assert (Hs' : simulated lines) by (apply Hsim; cbn; lia).
  destruct (negb (yes (answer overwrite))).
  { apply showing_ends; [done|]. exact (Hs' _ _ _ _ Ho' Hl Hr' Hd). }
  exact (perform_simulated _ _ _ _ _ _ Hs' Ho' Hl Hr' Hd).
Qed.

Lemma shown_simulated (m : V shown) y t lines a size off s :
  simulated lines -> t = shows y (shell_spec w a lines) -> Forall (fun l => utf8_valid l = true) lines ->
  room w size off a (ran t) -> Forall displayable (displayed t) ->
  runs m s (fun x s' => abstractly x = y /\ holds password u a size off s') ->
  runs (let! x := m in showing x (shell_loop none w k u lines)) s (ends_as t).
Proof.
  intros Hsim -> Hl Hr Hd Hm. apply runs_bind. eapply runs_conseq; [exact Hm|].
  intros x s' [Hx Ho]. apply showing_ends; [exact Hx|]. exact (Hsim _ _ _ _ Ho Hl Hr Hd).
Qed.

Lemma loop_simulated n lines : (length lines <= n)%nat -> simulated lines.
Proof.
  revert lines. induction n as [|n IH]; intros [|line lines] Hn a size off s Ho Hl Hr Hd;
    cbn [length] in Hn; [by eapply stops_ends|lia|by eapply stops_ends|].
  apply list.Forall_cons in Hl as [Hv Hl]. cbn [shell_loop shell_spec] in *.
  unfold from_utf8 in *. rewrite Hv in *. assert (IH' : simulated lines) by (apply IH; lia).
  destruct (split_whitespace (trim line)) as [|cmd args]; [exact (IH' _ _ _ _ Ho Hl Hr Hd)|].
  assert (Husage : forall x : shown, abstractly x = x -> room w size off a (ran (shell_spec w a lines)) ->
    Forall displayable (displayed (shell_spec w a lines)) ->
    runs (showing x (shell_loop none w k u lines)) s (ends_as (shows x (shell_spec w a lines)))).
  { intros x Hx Hr' Hd'. apply showing_ends; [done|]. exact (IH' _ _ _ _ Ho Hl Hr' Hd'). }
  destruct (bool_decide (cmd = lit "ls")).
  { apply runs_bind. eexists _, _. split; [done|]. apply showing_ends; [|exact (IH' _ _ _ _ Ho Hl Hr Hd)].
    cbn. destruct Ho as ((((_ & _ & _ & _ & Ht & _) & _) & _) & _). by rewrite (table_names _ _ _ _ Ht). }
  destruct (bool_decide (cmd = lit "import")).
  { destruct args as [|from [|name ?]]; [by apply Husage..|].
    exact (perform_simulated _ _ _ _ _ _ IH' Ho Hl Hr Hd). }
  destruct (bool_decide (cmd = lit "rm")).
  { destruct args as [|name ?]; [by apply Husage|]. exact (perform_simulated _ _ _ _ _ _ IH' Ho Hl Hr Hd). }
  destruct (bool_decide (cmd = lit "export")).
  { destruct args as [|name [|to_disk ?]]; [by apply Husage..|].
    apply (export_simulated name to_disk lines a size off s); try done.
    intros lines' Hlen. apply IH. lia. }
  destruct (bool_decide (cmd = lit "cat")).
  { destruct args as [|name ?]; [by apply Husage|]. pose proof (cat_ends name a size off s) as Hcat.
    destruct (find_data name (files a)) as [data|].
    - apply list.Forall_cons in Hd as [Hdn Hd]. rewrite displays_ends. eapply shown_simulated; [exact IH'|done|done|exact Hr|exact Hd|].
      by apply Hcat.
    - eapply shown_simulated; [exact IH'|done|done|exact Hr|exact Hd|]. by apply Hcat. }
  destruct (bool_decide (cmd = lit "view")).
  { destruct args as [|name ?]; [by apply Husage|]. pose proof (view_ends name a size off s) as Hview.
    destruct (find_data name (files a)) as [data|].
    - apply list.Forall_cons in Hd as [Hdn Hd]. rewrite displays_ends. eapply shown_simulated; [exact IH'|done|done|exact Hr|exact Hd|].
      by apply Hview.
    - eapply shown_simulated; [exact IH'|done|done|exact Hr|exact Hd|]. by apply Hview. }
  destruct (bool_decide (cmd = lit "vacuum")); [exact (perform_simulated Vacuum _ _ _ _ _ IH' Ho Hl Hr Hd)|].
  destruct (bool_decide (cmd = lit "help")); [by apply Husage|].
  destruct (bool_decide (cmd = lit "exit")); [|by apply Husage].
  apply runs_ret. split_and!; [done|done|by exists size, off].
Qed.
End refinement.

(** The files a trace leaves are what its commands leave. *)
Definition accounted (w : machine) (a : store) (t : trace) : Prop :=
  left_store t = snd (steps w a (ran t)).

Lemma accounted_cmd w a c t :
  accounted w (snd (step w a c)) t -> accounted w a (runs_cmd c t).
Proof.
  unfold accounted. cbn [runs_cmd left_store ran steps]. intros ->. destruct (step w a c) as [r a']. cbn [snd].
  by destruct (steps w a' (ran t)).
Qed.

Lemma shell_spec_ran w n lines a :
  (length lines <= n)%nat -> accounted w a (shell_spec w a lines).
Proof.
  revert lines a. induction n as [|n IH]; intros [|line lines] a Hn; cbn [length] in Hn; [done|lia|done|].
  cbn [shell_spec]. destruct (from_utf8 line) as [input|]; [|done].
  assert (Hrest : forall a, accounted w a (shell_spec w a lines)) by (intros; apply IH; lia).
  assert (Hone : forall ls a c, (length ls <= n)%nat -> accounted w a (performed w a c ls)).
  { intros ls b c Hls. unfold performed. pose proof (accounted_cmd w b c (shell_spec w (snd (step w b c)) ls)) as Hc.
    destruct (step w b c) as [r a']. by apply Hc, IH. }
  destruct (split_whitespace (trim input)) as [|cmd args]; [apply Hrest|].
  destruct (bool_decide (cmd = lit "ls")); [apply Hrest|].
  destruct (bool_decide (cmd = lit "import"));
    [destruct args as [|from [|name ?]]; [apply Hrest..|]; apply (Hone lines a (Import from name)); lia|].
  destruct (bool_decide (cmd = lit "rm"));
    [destruct args as [|name ?]; [apply Hrest|]; apply (Hone lines a (Rm name)); lia|].
  destruct (bool_decide (cmd = lit "export")).
  { destruct args as [|name [|to_disk ?]]; [apply Hrest..|]. clear Hrest.
    destruct lines as [|confirm lines]; [done|]. cbn [length] in Hn.
    destruct (negb (yes (answer confirm))); [apply IH; lia|].
    destruct (step w a (Export name to_disk false)) as [r a'] eqn:Hs. apply accounted_cmd. rewrite Hs. cbn [snd].
    destruct (negb (is_already_exists r)); [apply IH; lia|].
    destruct lines as [|overwrite lines]; [done|]. cbn [length] in Hn.
    destruct (negb (yes (answer overwrite))); [apply IH; lia|].
    apply (Hone lines a' (Export name to_disk true)). lia. }
  destruct (bool_decide (cmd = lit "cat"));
    [destruct args as [|name ?]; [apply Hrest|]; destruct (find_data name (files a)); apply Hrest|].
  destruct (bool_decide (cmd = lit "view"));
    [destruct args as [|name ?]; [apply Hrest|]; destruct (find_data name (files a)); apply Hrest|].
  destruct (bool_decide (cmd = lit "vacuum")); [apply (Hone lines a Vacuum); lia|].
  destruct (bool_decide (cmd = lit "help")); [apply Hrest|].
  destruct (bool_decide (cmd = lit "exit")); [done|apply Hrest].
Qed.

(** The machine of a session: a file can be made beside the vault where the rules of
    [enter] let it. *)
Definition session_machine (h : Sandbox.Host) (vault : path) (w : machine) : machine := {|
  xdg_runtime_dir := xdg_runtime_dir w; VaultOps.home_dir := VaultOps.home_dir w; canonicalize := canonicalize w; follows := follows w;
  temp_allowed := match Sandbox.parent vault with
                  | Some dir => Sandbox.allowed (snd (Sandbox.enter_sandbox h vault [])) dir Sandbox.MakeReg
                  | None => false
                  end;
  unix_clock := unix_clock w |}.

(** For a vault outside the staging folder every [vacuum] of a session is an error. *)
Lemma vacuum_refused h vault dir w a t' :
  Sandbox.path_fd h vault = Some vault -> Sandbox.metadata h vault = Some Sandbox.Regular -> Sandbox.parent vault = Some dir ->
  (forall b, Sandbox.path_fd h (components (Sandbox.enter_staging h)) = Some b -> path_starts_with dir b = false) ->
  Sandbox.enter_sandbox h vault [] = (Ok tt, t') -> step (session_machine h vault w) a Vacuum = (Refused (VIo "create"), a).
Proof.
  intros Hfd Hk Hdir Hst Hin. pose proof (Sandbox.enter_denies_vacuum h vault vault dir t' Hfd Hk Hdir Hst Hin) as Hn.
  unfold session_machine. cbn [step temp_allowed]. rewrite Hdir, Hin. cbn [snd]. by rewrite Hn.
Qed.


(** *** Example *)

Import Toy ToyPw ToyVault.

Definition demo_lines : list bytes :=
  [lit "ls"; lit "  cat b "; lit "export a out"; lit "Y"; lit "frobnicate"; lit "rm a"; lit "vacuum";
   lit "export b out"; lit "y"; lit "no"; lit "rm"; lit "exit"; lit "ls"].

Definition demo_kernel : kernel :=
  {| proc_swaps := None; backing_dev := fun _ => None; mmap_errno := None; mlock_errno := None |}.

(** A session on a vault in the home folder. *)
Definition demo_session : machine := session_machine Sandbox.demo_host Sandbox.demo_vault demo_machine.

