(* ===== verification/Friends.v ===== *)
(** * Friends, vaults and consent

    [atom/src/commands/p2p_utils.rs] and [friend.rs] (the address book of the
    block-level synchronisation), [vault_registry.rs] (the list of known vaults),
    [id.rs], and in [daemon.rs] the identity and what a proposal from a friend may
    write. *)

From Stdlib Require Import Strings.Byte Sorting.Sorted.
From stdpp Require Import strings gmap.
From S2P Require Import Prelude Keyed Text Primitives StateM ConfigFile VaultOps Paths AtomLink.

(** ** Data *)

Record SharedVault := { original_name : str; label : str; local_path : str; last_modified : Z }.
Record FriendRecord := {
  nickname : str;
  url : str;
  shared_vaults : list SharedVault;
  last_seen : option Z;
}.
Record VaultEntry := { name : str; path : str; last_opened : Z }.

(** [serde_json] on a list: encoding gives UTF-8 text that decodes to the list. *)
Class Serde (A : Type) := {
  to_json : list A -> bytes;
  from_json : str -> option (list A);
}.
Class SerdeLaws {A} (S : Serde A) := {
  from_to_json : forall l, from_json (to_json l) = Some l;
  to_json_utf8 : forall l, from_utf8 (to_json l) = Some (to_json l);
}.

(** Errors; [Exit] is [std::process::exit(1)]. *)
Inductive error := Exit | Uri (e : AtomUriError) | Config (s : string) | Io | App (s : string).

(** ** The home directory

    The configuration key, the files of [~/.atom_vault], the user's other files, the
    paths the system refuses ([Some None]: cannot be opened; [Some (Some k)]: only [k]
    bytes can be written), the clock and the random generator. *)
Record Home := {
  config_key : option bytes;
  files : gmap str bytes;
  documents : gmap str bytes;
  refused : str -> option (option Z);
  clock : Z;
  entropy : rng;
}.

Definition set_files (f : gmap str bytes) (h : Home) : Home :=
  {| config_key := config_key h; files := f; documents := documents h; refused := refused h;
     clock := clock h; entropy := entropy h |}.
Definition set_documents (d : gmap str bytes) (h : Home) : Home :=
  {| config_key := config_key h; files := files h; documents := d; refused := refused h;
     clock := clock h; entropy := entropy h |}.
Definition set_entropy (g : rng) (h : Home) : Home :=
  {| config_key := config_key h; files := files h; documents := documents h; refused := refused h;
     clock := clock h; entropy := g |}.

Abbreviation H := (M error Home).

Definition FRIENDS : str := lit "friends.json".
Definition VAULTS : str := lit "vaults.json".
Definition ONION : str := lit "onion.txt".
Definition IDENTITY : str := lit "identity.key".

Section home.
Context `{UnicodeCase} `{Aead} `{Base32} `{Ed25519} `{Serde FriendRecord} `{Serde VaultEntry}.

(** Sealing, then truncating and writing the file; whether all of it was written. *)
Definition write_sealed (file : str) (data : bytes) : H bool := fun h =>
  match encrypt_config (config_key h) data (entropy h) with
  | Ok (sealed, g) =>
      let h := set_entropy g h in
      match refused h file with
      | None => (Ok true, set_files (<[file := sealed]> (files h)) h)
      | Some None => (Ok false, h)
      | Some (Some k) =>
          if zlen sealed <=? k then (Ok true, set_files (<[file := sealed]> (files h)) h)
          else (Ok false, set_files (<[file := ztake k sealed]> (files h)) h)
      end
  | Err e => (Err (Config e), h)
  | Panic => (Panic, h)
  end.

(** [load_friends] and [load_vault_registry] before its filter: a file that cannot be
    decrypted ends the program, and one that is not JSON counts as empty. *)
Definition load_list {A} `{Serde A} (file : str) : H (list A) := fun h =>
  match files h !! file with
  | None => (Ok [], h)
  | Some raw =>
      match decrypt_config (config_key h) raw with
      | Panic => (Panic, h)
      | Err _ => (Err Exit, h)
      | Ok b => (Ok (default [] (s ← from_utf8 b; from_json s)), h)
      end
  end.

Definition load_friends : H (list FriendRecord) := load_list FRIENDS.

(** [save_friends]: a failure to write is ignored. *)
Definition save_friends (l : list FriendRecord) : H unit :=
  let! _ := write_sealed FRIENDS (to_json l) in mret tt.

Definition with_last_seen (t : option Z) (f : FriendRecord) : FriendRecord :=
  {| nickname := nickname f; url := url f; shared_vaults := shared_vaults f; last_seen := t |}.
Definition with_url (u : str) (f : FriendRecord) : FriendRecord :=
  {| nickname := nickname f; url := u; shared_vaults := shared_vaults f; last_seen := last_seen f |}.
Definition with_vaults (l : list SharedVault) (f : FriendRecord) : FriendRecord :=
  {| nickname := nickname f; url := url f; shared_vaults := l; last_seen := last_seen f |}.

(** [update_friend_last_seen]. *)
Definition update_friend_last_seen (nick : str) : H unit :=
  let! now := gets clock in
  let! friends := load_friends in
  match find_key nickname nick friends with
  | Some _ => save_friends (update_first (is_key nickname nick) (with_last_seen (Some now)) friends)
  | None => mret tt
  end.

(** ** Adding a friend *)

(** [parse_atom_uri(…).map(|(_, k)| k == key).unwrap_or(false)] *)
Definition has_key (k : bytes) (u : str) : outcome error bool :=
  match parse_atom_uri u with
  | Ok (_, k') => Ok (bool_decide (k' = k))
  | Err _ => Ok false
  | Panic => Panic
  end.

Fixpoint find_by_key (k : bytes) (l : list FriendRecord) : outcome error (option FriendRecord) :=
  match l with
  | [] => Ok None
  | f :: l => let? same := has_key k (url f) in if same then Ok (Some f) else find_by_key k l
  end.

Inductive added := Updated | Added.

Definition uri {A} (m : outcome AtomUriError A) : outcome error A := map_err Uri m.

(** [add_friend_core]; the user's own link is read without decrypting it. *)
Definition add_friend_core (u nick : str) : H added :=
  let! (_, new_pubkey) := lift (uri (parse_atom_uri u)) in
  let! my_file := gets (fun h => files h !! ONION) in
  let! mine := lift (match my_file ≫= from_utf8 with
                     | Some my_url => has_key new_pubkey (trim my_url)
                     | None => Ok false
                     end) in
  if mine : bool then fails (App "You cannot add your own identity as a friend.") else
  let! friends := load_friends in
  let! existing_by_key := lift (find_by_key new_pubkey friends) in
  if from_option (fun f => negb (bool_decide (nickname f = nick))) false existing_by_key
  then fails (App "This identity is already saved under another nickname") else
  match find_key nickname nick friends with
  | Some existing =>
      let! (_, existing_pubkey) := lift (uri (parse_atom_uri (url existing))) in
      if decide (existing_pubkey <> new_pubkey)
      then fails (App "SECURITY ALERT: nickname associated with a DIFFERENT identity key") else
      let! _ := save_friends (update_first (is_key nickname nick) (with_url u) friends) in
      mret Updated
  | None =>
      let! _ := save_friends (friends ++ [{| nickname := nick; url := u; shared_vaults := []; last_seen := None |}]) in
      mret Added
  end.

(** ** The registry of vaults *)

(** [load_vault_registry]. *)
Definition load_vault_registry : H (list VaultEntry) :=
  let! l := load_list VAULTS in
  gets (fun h => filter (fun e => is_Some (documents h !! path e)) l).

Definition save_vault_registry (l : list VaultEntry) : H unit :=
  let! _ := write_sealed VAULTS (to_json l) in mret tt.

(** [sort_by] the most recently opened first; the sort is stable. *)
Fixpoint insert_entry (e : VaultEntry) (l : list VaultEntry) : list VaultEntry :=
  match l with
  | [] => [e]
  | x :: l => if last_opened x <=? last_opened e then e :: x :: l else x :: insert_entry e l
  end.
Fixpoint sort_entries (l : list VaultEntry) : list VaultEntry :=
  match l with [] => [] | e :: l => insert_entry e (sort_entries l) end.

(** [register_vault]. *)
Definition register_vault (path_str : str) : H unit :=
  let vault_name := default path_str (from_utf8_lossy <$> file_stem path_str) in
  let! now := gets clock in
  let! entries := load_vault_registry in
  let reopened e := {| name := vault_name; path := path e; last_opened := now |} in
  let entries :=
    match find_key path path_str entries with
    | Some _ => update_first (is_key path path_str) reopened entries
    | None => entries ++ [{| name := vault_name; path := path_str; last_opened := now |}]
    end in
  save_vault_registry (sort_entries entries).

(** [remove_vault_from_registry]. *)
Definition remove_vault_from_registry (path_str : str) : H unit :=
  let! entries := load_vault_registry in
  save_vault_registry (filter (fun e => path e <> path_str) entries).

(** ** The device's own identity *)

(** [get_id_string] (id.rs). *)
Definition get_id_string : H str :=
  let! raw := gets (fun h => files h !! ONION) in
  match raw with
  | None => fails (App "Identity not generated yet")
  | Some raw =>
      let! key := gets config_key in
      let! b := lift (map_err Config (decrypt_config key raw)) in
      let! s := lift (ok_or (from_utf8 b) Io) in
      mret (trim s)
  end.

(** [get_or_create_identity] (daemon.rs): the secret half of the signing key. *)
Definition get_or_create_identity : H bytes :=
  let! raw := gets (fun h => files h !! IDENTITY) in
  let! key := gets config_key in
  let! stored :=
    match raw with
    | None => mret None
    | Some raw =>
        let! b := lift (map_err Config (decrypt_config key raw)) in
        mret (if zlen b =? 32 then Some b else None)
    end in
  match stored with
  | Some k => mret k
  | None =>
      let! new_key := (fun h => match os_fill 32 (entropy h) with
                                | Ok (k, g) => (Ok k, set_entropy g h)
                                | Err e => (Err e, h)
                                | Panic => (Panic, h)
                                end) in
      let! written := write_sealed IDENTITY new_key in
      if written : bool then mret new_key else fails Io
  end.

(** The keys whose handshakes the daemon accepts, and the friend a key belongs to. *)
Fixpoint authorized_keys (l : list FriendRecord) : outcome error (list bytes) :=
  match l with
  | [] => Ok []
  | f :: l =>
      match parse_atom_uri (url f) with
      | Ok (_, k) => let? ks := authorized_keys l in Ok (k :: ks)
      | Err _ => authorized_keys l
      | Panic => Panic
      end
  end.

Definition connected_nick (k : bytes) (l : list FriendRecord) : outcome error str :=
  let? f := find_by_key k l in Ok (from_option nickname (lit "Unknown") f).

(** ** A proposal from a connected friend *)

Record SyncResponse := { accepted : bool; resp_label : option str; save_path : option str }.
Inductive reply := Accept | Reject.

(** What the vault's stream does: whether the reply can be sent, and what arrives
    before it ends or fails. *)
Record stream := { sends : bool; payload : bytes }.

(** [File::create] and [io::copy]. *)
Definition receive_into (p : str) (s : stream) : H unit := fun h =>
  match refused h p with
  | Some None => (Ok tt, h)
  | None => (Ok tt, set_documents (<[p := payload s]> (documents h)) h)
  | Some (Some k) => (Ok tt, set_documents (<[p := ztake k (payload s)]> (documents h)) h)
  end.

(** The daemon's task after a [Proposal]; [ask] is what the user would answer.  The
    new modification time of a vault already shared is set in memory only. *)
Definition handle_proposal (nick filename : str) (modified : Z) (ask : SyncResponse) (s : stream) : H reply :=
  let! friends_db := load_friends in
  let known :=
    f ← find_key nickname nick friends_db;
    find_key original_name filename (shared_vaults f) in
  let! decision :=
    match known with
    | Some v => mret (Some (local_path v))
    | None =>
        if accepted ask then
          let p := default [] (save_path ask) in
          let v := {| original_name := filename; label := default (lit "Synced Vault") (resp_label ask);
                      local_path := p; last_modified := modified |} in
          let add f := with_vaults (shared_vaults f ++ [v]) f in
          let! _ := save_friends (update_first (is_key nickname nick) add friends_db) in
          mret (Some p)
        else mret None
    end in
  match decision with
  | Some (b :: p) =>
      if sends s then let! _ := receive_into (b :: p) s in mret Accept else mret Accept
  | _ => mret Reject
  end.
End home.

(** ** Lemmas: the files *)

Section files.
Context `{UnicodeCase} `{Aead} `{!AeadLaws _} `{Base32} `{Ed25519}.

(** A device in working order: a key, a random generator, and [file] can be written. *)
Definition working (file : str) (h : Home) : Prop :=
  (exists key, config_key h = Some key /\ zlen key = 32) /\ rng_total (entropy h) /\ refused h file = None.

(** The file holds that list, or is not there yet. *)
Definition holds {A} `{Serde A} (file : str) (h : Home) (l : list A) : Prop :=
  match files h !! file with
  | None => l = []
  | Some raw => decrypt_config (config_key h) raw = Ok (to_json l)
  end.

Definition fits {A} `{Serde A} (l : list A) : Prop := zlen (to_json l) <= 2 ^ 37.

(** Everything but [file] and the random generator is as it was. *)
Definition only_file (file : str) (h h' : Home) : Prop :=
  config_key h' = config_key h /\ documents h' = documents h /\ refused h' = refused h /\ clock h' = clock h /\
  forall f, f <> file -> files h' !! f = files h !! f.

Lemma only_file_refl file h : only_file file h h.
Proof. by split_and!. Qed.
Lemma only_file_trans file h1 h2 h3 : only_file file h1 h2 -> only_file file h2 h3 -> only_file file h1 h3.
Proof.
  intros (K & D & R & C & F) (K' & D' & R' & C' & F'). split_and!; try congruence.
  intros f Hf. by rewrite F', F.
Qed.

Lemma load_list_holds {A} `{!Serde A} `{!SerdeLaws _} file h (l : list A) :
  holds file h l -> load_list file h = (Ok l, h).
Proof.
  unfold holds, load_list. destruct (files h !! file) as [raw|]; [|by intros ->]. intros ->.
  rewrite to_json_utf8. cbn. by rewrite from_to_json.
Qed.

(** Saving a list that fits makes the file hold it. *)
Lemma write_sealed_holds {A} `{!Serde A} file h (l : list A) :
  working file h -> fits l ->
  exists h', write_sealed file (to_json l) h = (Ok true, h') /\ holds file h' l /\ working file h' /\ only_file file h h'.
Proof.
  intros ((key & Hk & Hlen) & Hg & Hr) Hf. unfold write_sealed. rewrite Hk.
  destruct (encrypt_outcome key (to_json l) (entropy h) Hlen Hg) as [(sealed & -> & Hd)|[_ Hbig]]; [|unfold fits in Hf; lia].
  change (refused (set_entropy (rng_skip 24 (entropy h)) h) file) with (refused h file). rewrite Hr. eexists. split; [done|].
  split_and!.
  - unfold holds. cbn [files set_files config_key]. rewrite lookup_insert_eq. cbn [set_entropy config_key]. by rewrite Hk.
  - split; [by exists key|]. split; [by apply rng_total_skip|done].
  - split_and!; try done. intros f Hne. change (<[file := sealed]> (files h) !! f = files h !! f). by rewrite lookup_insert_ne.
Qed.
End files.

Section friends.
Context `{UnicodeCase} `{!UnicodeCaseLaws _} `{Aead} `{!AeadLaws _} `{Base32} `{!Base32Laws _} `{Ed25519}.
Context {SF : Serde FriendRecord} {SFL : SerdeLaws SF}.

(** ** What the friends' commands mean, on the list alone *)

Definition key_of (u : str) : option bytes :=
  match parse_atom_uri u with Ok (_, k) => Some k | _ => None end.
Definition friend_key (f : FriendRecord) : option bytes := key_of (url f).

Definition new_friend (u nick : str) : FriendRecord :=
  {| nickname := nick; url := u; shared_vaults := []; last_seen := None |}.

(** A link under a nickname: a new friend, or a new address of the same one. *)
Definition book_add (u nick : str) (l : list FriendRecord) : outcome error (list FriendRecord * added) :=
  let? (_, k) := uri (parse_atom_uri u) in
  match find_key friend_key (Some k) l with
  | Some f =>
      if decide (nickname f = nick) then Ok (update_first (is_key nickname nick) (with_url u) l, Updated)
      else Err (App "This identity is already saved under another nickname")
  | None =>
      match find_key nickname nick l with
      | Some _ => Err (App "SECURITY ALERT: nickname associated with a DIFFERENT identity key")
      | None => Ok (l ++ [new_friend u nick], Added)
      end
  end.

(** Nicknames and identities are unique, and every link was accepted. *)
Definition friends_ok (l : list FriendRecord) : Prop :=
  NoDup (map nickname l) /\ NoDup (map friend_key l) /\
  Forall (fun f => ascii (url f) /\ is_Some (friend_key f)) l.

(** The nickname stands for the identity. *)
Definition pinned (l : list FriendRecord) (nick : str) (k : bytes) : Prop :=
  exists f, find_key nickname nick l = Some f /\ friend_key f = Some k.

Lemma has_key_of k u : ascii u -> has_key k u = Ok (bool_decide (key_of u = Some k)).
Proof.
  intros Ha. unfold has_key, key_of. pose proof (parse_atom_uri_no_panic u Ha).
  destruct (parse_atom_uri u) as [[o k']|e|]; [|by rewrite bool_decide_eq_false_2|done].
  f_equal. apply bool_decide_ext. naive_solver.
Qed.

Lemma find_by_key_of k l :
  Forall (fun f => ascii (url f) /\ is_Some (friend_key f)) l -> find_by_key k l = Ok (find_key friend_key (Some k) l).
Proof.
  unfold find_key. induction 1 as [|f l [Ha _] _ IH]; [done|]. cbn [find_by_key List.find]. rewrite has_key_of by done.
  cbn [obind]. rewrite IH. unfold is_key, friend_key. by case_bool_decide.
Qed.

Lemma nick_of_key l f k nick :
  friends_ok l -> find_key friend_key (Some k) l = Some f -> nickname f = nick -> find_key nickname nick l = Some f.
Proof. intros (Hn & _ & _) Hf <-. apply find_key_Some in Hf as [_ Hin]. by apply find_key_elem. Qed.

Lemma ascii_key u : is_Some (key_of u) -> exists o k, parse_atom_uri u = Ok (o, k) /\ key_of u = Some k.
Proof. unfold key_of. destruct (parse_atom_uri u) as [[o k]| |]; [|by intros []..]. intros _. by exists o, k. Qed.

(** The book stays good, and no nickname changes hands. *)
Lemma book_add_ok u nick l l' a :
  friends_ok l -> ascii u -> book_add u nick l = Ok (l', a) ->
  friends_ok l' /\ (forall n k, pinned l n k -> pinned l' n k) /\ exists k, key_of u = Some k /\ pinned l' nick k.
Proof.
  intros Hl Hu Hb. pose proof Hl as (Hn & Hk & Hall). unfold book_add in Hb.
  apply obind_Ok in Hb as ([o k] & Hp%map_err_Ok & Hb).
  assert (Hku : key_of u = Some k) by (unfold key_of; by rewrite Hp).
  destruct (find_key friend_key (Some k) l) as [f|] eqn:Hf.
  - destruct (decide (nickname f = nick)) as [Hnick|]; [|done]. injection Hb as <- <-.
    pose proof (nick_of_key l f k nick Hl Hf Hnick) as Hfn. apply find_key_Some in Hf as [Hfk Hin].
    assert (Hpin : forall n k', pinned l n k' -> pinned (update_first (is_key nickname nick) (with_url u) l) n k').
    { intros n k' (g & Hg & Hgk). destruct (decide (n = nick)) as [->|Hne].
      - rewrite Hfn in Hg. injection Hg as <-. exists (with_url u f). split; [by apply find_update|].
        change (key_of u = Some k'). congruence.
      - exists g. by rewrite find_update_other. }
    split; [|split; [exact Hpin|]].
    + split_and!.
      * by rewrite update_keys.
      * replace (map friend_key _) with (map friend_key l); [done|].
        clear Hpin Hn Hk Hall Hl Hin. unfold find_key in Hfn. induction l as [|g l IH]; [done|]. cbn in *.
        destruct (is_key nickname nick g) eqn:Hg; cbn; [|by rewrite <- IH].
        injection Hfn as ->. f_equal. change (friend_key f = key_of u). congruence.
      * apply update_first_Forall; [done|]. intros g [_ _] _. split; [exact Hu|]. by exists k.
    + exists k. split; [done|]. apply Hpin. by exists f.
  - destruct (find_key nickname nick l) as [g|] eqn:Hg; [done|]. injection Hb as <- <-. split; [|split].
    + split_and!.
      * by apply (append_keys nickname l (new_friend u nick)).
      * apply (append_keys friend_key l (new_friend u nick)); [done|]. change (friend_key (new_friend u nick)) with (key_of u).
        by rewrite Hku.
      * apply Forall_app. split; [done|]. repeat constructor; [done|]. by exists k.
    + intros n k' (f & Hfn & Hfk). exists f. split; [|done]. rewrite find_append_other; [done|]. intros <-. cbn in Hfn. congruence.
    + exists k. split; [done|]. exists (new_friend u nick). split; [by apply find_append|done].
Qed.

(** ** Commands on the file *)

Inductive op := AddFriend (u nick : str) | SeenFriend (nick : str).

Definition run_op (o : op) : H (option added) :=
  match o with
  | AddFriend u nick => let! a := add_friend_core u nick in mret (Some a)
  | SeenFriend nick => let! _ := update_friend_last_seen nick in mret None
  end.

Definition book_after (now : Z) (o : op) (l : list FriendRecord) : outcome error (list FriendRecord * option added) :=
  match o with
  | AddFriend u nick => let? (l, a) := book_add u nick l in Ok (l, Some a)
  | SeenFriend nick => Ok (update_first (is_key nickname nick) (with_last_seen (Some now)) l, None)
  end.

Fixpoint run_ops (ops : list op) (h : Home) : list (outcome error (option added)) * Home :=
  match ops with
  | [] => ([], h)
  | o :: ops => let (r, h1) := run_op o h in let (rs, h2) := run_ops ops h1 in (r :: rs, h2)
  end.

Definition next (r : outcome error (list FriendRecord * option added)) (l : list FriendRecord) : list FriendRecord :=
  match r with Ok (l', _) => l' | _ => l end.

Fixpoint books (now : Z) (ops : list op) (l : list FriendRecord) : list (outcome error (option added)) * list FriendRecord :=
  match ops with
  | [] => ([], l)
  | o :: ops =>
      let r := book_after now o l in
      let (rs, l') := books now ops (next r l) in
      ((let? (_, a) := r in Ok a) :: rs, l')
  end.

Fixpoint books_fit (now : Z) (ops : list op) (l : list FriendRecord) : Prop :=
  match ops with
  | [] => True
  | o :: ops => fits (next (book_after now o l) l) /\ books_fit now ops (next (book_after now o l) l)
  end.

Definition op_ok (o : op) : Prop := match o with AddFriend u _ => ascii u | SeenFriend _ => True end.

(** The daemon has not run, or left the device's own link sealed. *)
Definition own_link_sealed (h : Home) : Prop :=
  forall raw, files h !! ONION = Some raw -> exists p, raw = MAGIC ++ p.

Definition book_home (h : Home) (l : list FriendRecord) : Prop :=
  working FRIENDS h /\ holds FRIENDS h l /\ own_link_sealed h.

Lemma book_home_saved h h' l l' :
  book_home h l -> working FRIENDS h' -> holds FRIENDS h' l' -> only_file FRIENDS h h' -> book_home h' l'.
Proof.
  intros (_ & _ & Ho) Hw Hl (_ & _ & _ & _ & Hf). split_and!; [done|done|]. intros raw Hraw. apply Ho.
  by rewrite <- (Hf ONION).
Qed.

(** A sealed file never looks like a link, so that the check against one's own link
    never refuses anything. *)
Lemma own_check_passes h k :
  own_link_sealed h ->
  match files h !! ONION ≫= from_utf8 with
  | Some my_url => has_key k (trim my_url)
  | None => Ok false
  end = Ok false.
Proof.
  intros Ho. destruct (files h !! ONION) as [raw|] eqn:Hraw; [|done]. cbn. destruct (Ho raw Hraw) as (p & ->).
  destruct (from_utf8 (MAGIC ++ p)) as [s|] eqn:Hs; [|done]. apply from_utf8_Some in Hs as [-> _].
  change (MAGIC ++ p) with (Byte.x41 :: (drop 1 MAGIC ++ p)).
  destruct (trim_head Byte.x41 (drop 1 MAGIC ++ p)) as (r & ->); [done|done|]. done.
Qed.

Lemma save_friends_runs h l l' :
  book_home h l -> fits l' ->
  exists h', save_friends l' h = (Ok tt, h') /\ book_home h' l' /\ only_file FRIENDS h h'.
Proof.
  intros Hh Hf. pose proof Hh as (Hw & _ & _).
  destruct (write_sealed_holds FRIENDS h l' Hw Hf) as (h' & Hr & Hl & Hw' & Ho). exists h'. split_and!; [|by eapply book_home_saved|done].
  unfold save_friends, mbind. by rewrite Hr.
Qed.

Lemma add_friend_meets h l u nick :
  book_home h l -> friends_ok l -> ascii u ->
  match book_add u nick l with
  | Ok (l', a) => fits l' -> exists h', add_friend_core u nick h = (Ok a, h') /\ book_home h' l' /\ only_file FRIENDS h h'
  | Err e => add_friend_core u nick h = (Err e, h)
  | Panic => False
  end.
Proof.
  intros Hh Hl Hu. pose proof Hh as (_ & Hlist & Hown). pose proof Hl as (_ & _ & Hall).
  unfold book_add, add_friend_core, mbind, lift, gets. pose proof (parse_atom_uri_no_panic u Hu) as Hp.
  destruct (parse_atom_uri u) as [[o k]|e|] eqn:Hpu; [|done|done]. cbn [uri map_err obind]. clear Hp.
  rewrite (own_check_passes h k Hown). unfold load_friends. rewrite (load_list_holds FRIENDS h l Hlist).
  rewrite find_by_key_of by done. destruct (find_key friend_key (Some k) l) as [f|] eqn:Hf; cbn [from_option].
  - destruct (decide (nickname f = nick)) as [Hn|Hn]; [rewrite bool_decide_eq_true_2 by done|by rewrite bool_decide_eq_false_2].
    cbn [negb]. rewrite (nick_of_key l f k nick Hl Hf Hn). apply find_key_Some in Hf as [Hfk Hin].
    destruct (ascii_key (url f)) as (o' & k' & Hpf & Hk'); [by eexists|]. rewrite Hpf. cbn [uri map_err].
    unfold friend_key in Hfk. rewrite Hk' in Hfk. injection Hfk as ->. rewrite decide_False by (intros Hx; by apply Hx).
    intros Hfit. destruct (save_friends_runs h l _ Hh Hfit) as (h' & Hr & Hh' & Ho). exists h'. by rewrite Hr.
  - destruct (find_key nickname nick l) as [g|] eqn:Hg.
    + apply find_key_Some in Hg as [_ Hin]. rewrite list.Forall_forall in Hall. destruct (Hall g Hin) as [_ Hgk].
      destruct (ascii_key (url g) Hgk) as (o' & k' & Hpf & Hk'). rewrite Hpf. cbn [uri map_err].
      rewrite decide_True; [done|]. intros ->. apply find_key_None in Hf. apply Hf. rewrite <- Hk'.
      by apply (list_elem_of_fmap_2 friend_key).
    + intros Hfit. destruct (save_friends_runs h l _ Hh Hfit) as (h' & Hr & Hh' & Ho). exists h'. unfold new_friend in Hr. by rewrite Hr.
Qed.

Lemma with_last_seen_ok nick t l :
  friends_ok l -> friends_ok (update_first (is_key nickname nick) (with_last_seen t) l) /\
  forall n k, pinned l n k -> pinned (update_first (is_key nickname nick) (with_last_seen t) l) n k.
Proof.
  intros (Hn & Hk & Hall). split.
  - split_and!; [by rewrite update_keys| |].
    + replace (map friend_key _) with (map friend_key l); [done|].
      clear. induction l as [|f l IH]; [done|]. cbn. destruct (is_key nickname nick f); cbn; [done|by rewrite <- IH].
    + by apply update_first_Forall.
  - intros n k (f & Hf & Hfk). destruct (decide (n = nick)) as [->|Hne].
    + exists (with_last_seen t f). split; [by apply find_update|done].
    + exists f. by rewrite find_update_other.
Qed.

Lemma seen_friend_meets h l nick :
  book_home h l -> fits (update_first (is_key nickname nick) (with_last_seen (Some (clock h))) l) ->
  exists h', update_friend_last_seen nick h = (Ok tt, h') /\ only_file FRIENDS h h' /\
    book_home h' (update_first (is_key nickname nick) (with_last_seen (Some (clock h))) l).
Proof.
  intros Hh Hf. pose proof Hh as (_ & Hlist & _). unfold update_friend_last_seen, mbind, gets, load_friends.
  rewrite (load_list_holds FRIENDS h l Hlist). destruct (find_key nickname nick l) eqn:Hn.
  - destruct (save_friends_runs h l _ Hh Hf) as (h' & Hr & Hh' & Ho). by exists h'.
  - apply find_key_None in Hn. rewrite update_absent by done. exists h. split_and!; [done|apply only_file_refl|done].
Qed.

(** C23: The friends' file pins identities.  From a file that holds a good list
    (nicknames unique, identities unique, every link accepted), any sequence of
    additions, with any ASCII links and nicknames, and of updates after a
    synchronisation, answers what the specification on the list answers and leaves
    the file holding that list, still good: a nickname never comes to stand for
    another identity, an identity is never saved under a second nickname, every
    refusal leaves the file untouched, and nothing else in the home directory
    changes. *)
Theorem friend_book_pins h l ops :
  book_home h l -> friends_ok l -> Forall op_ok ops -> books_fit (clock h) ops l ->
  let (rs, l') := books (clock h) ops l in
  exists h', run_ops ops h = (rs, h') /\ book_home h' l' /\ friends_ok l' /\ only_file FRIENDS h h' /\
    forall nick k, pinned l nick k -> pinned l' nick k.
Proof.
  intros Hh Hl Ho. revert h l Hh Hl. induction Ho as [|o ops Ho _ IH]; intros h l Hh Hl; cbn [books books_fit run_ops].
  - intros _. exists h. split_and!; [done|done|done|apply only_file_refl|done].
  - intros [Hf Hfs].
    assert (Hstep : exists h1, run_op o h = ((let? (_, a) := book_after (clock h) o l in Ok a), h1) /\
      book_home h1 (next (book_after (clock h) o l) l) /\ friends_ok (next (book_after (clock h) o l) l) /\
      only_file FRIENDS h h1 /\ forall nick k, pinned l nick k -> pinned (next (book_after (clock h) o l) l) nick k).
    { destruct o as [u nick|nick]; cbn [book_after run_op op_ok] in *.
      - pose proof (add_friend_meets h l u nick Hh Hl Ho) as Hm. unfold mbind.
        destruct (book_add u nick l) as [[l1 a]|e|] eqn:Hb; cbn [obind next] in *; [| |done].
        + destruct (Hm Hf) as (h1 & -> & Hh1 & Ho1). destruct (book_add_ok u nick l l1 a Hl Ho Hb) as (Hl1 & Hp & _).
          by exists h1.
        + rewrite Hm. exists h. split_and!; [done|done|done|apply only_file_refl|done].
      - cbn [obind next] in *. destruct (seen_friend_meets h l nick Hh Hf) as (h1 & Hr & Ho1 & Hh1). exists h1.
        unfold mbind. rewrite Hr. destruct (with_last_seen_ok nick (Some (clock h)) l Hl). by split_and!. }
    destruct Hstep as (h1 & -> & Hh1 & Hl1 & Ho1 & Hp). pose proof Ho1 as (_ & _ & _ & Hc & _).
    specialize (IH h1 _ Hh1 Hl1). rewrite Hc in IH. specialize (IH Hfs). destruct (books _ ops _) as [rs l'].
    destruct IH as (h' & -> & Hh' & Hl' & Ho' & Hp'). exists h'. split_and!; [done|done|done|by eapply only_file_trans|auto].
Qed.
End friends.

(** ** Theorem: consent *)

Section consent.
Context `{UnicodeCase} `{Aead} `{Base32} `{Ed25519} `{Serde FriendRecord}.

(** The vault of that name already shared with the friend, in the file. *)
Definition known_vault (h : Home) (nick filename : str) : option SharedVault :=
  match load_friends h with
  | (Ok l, _) => f ← find_key nickname nick l; find_key original_name filename (shared_vaults f)
  | _ => None
  end.

Lemma load_list_state {A} `{!Serde A} file h : snd (load_list (A := A) file h) = h.
Proof. unfold load_list. destruct (files h !! file); [|done]. by destruct (decrypt_config _ _). Qed.

Lemma write_sealed_only file data h :
  documents (snd (write_sealed file data h)) = documents h /\
  refused (snd (write_sealed file data h)) = refused h /\
  forall f, f <> file -> files (snd (write_sealed file data h)) !! f = files h !! f.
Proof.
  unfold write_sealed. destruct (encrypt_config _ _ _) as [[sealed g]|e|]; [|done..].
  assert (Hi : forall b f, f <> file -> (<[file := b]> (files h)) !! f = files h !! f) by (intros; by rewrite lookup_insert_ne).
  change (refused (set_entropy g h) file) with (refused h file).
  destruct (refused h file) as [[k|]|]; [destruct (zlen sealed <=? k)|..]; cbn [snd];
    (split; [done|]); (split; [done|]); intros f Hf; first [exact (Hi _ f Hf)|done].
Qed.

Lemma receive_into_only p s h :
  files (snd (receive_into p s h)) = files h /\ fst (receive_into p s h) = Ok tt /\
  forall q, q <> p -> documents (snd (receive_into p s h)) !! q = documents h !! q.
Proof.
  unfold receive_into. destruct (refused h p) as [[k|]|]; (split; [done|]); (split; [done|]); [| |];
    intros q Hq; cbn [snd]; first [done|exact (lookup_insert_ne _ _ _ _ (not_eq_sym Hq))].
Qed.

(** What is decided about a proposal, before anything arrives. *)
Lemma proposal_decision h nick filename modified ask s r h' :
  handle_proposal nick filename modified ask s h = (r, h') ->
  exists h1, documents h1 = documents h /\ (forall f, f <> FRIENDS -> files h1 !! f = files h !! f) /\
    ((r <> Ok Accept /\ h' = h1 /\ (accepted ask = false -> h1 = h)) \/
     (r = Ok Accept /\ exists p,
        ((exists v, known_vault h nick filename = Some v /\ local_path v = p /\ h1 = h) \/
         (known_vault h nick filename = None /\ accepted ask = true /\ save_path ask = Some p)) /\
        (h' = h1 \/ h' = snd (receive_into p s h1)))).
Proof.
  unfold handle_proposal, known_vault. unfold mbind at 1.
  pose proof (load_list_state (A := FriendRecord) FRIENDS h) as Hst. unfold load_friends in *.
  destruct (load_list FRIENDS h) as [[l|e|] h0]; cbn [snd] in Hst; subst h0.
  2: { intros [= <- <-]. exists h. split_and!; [done|done|]. left. by split_and!. }
  2: { intros [= <- <-]. exists h. split_and!; [done|done|]. left. by split_and!. }
  cbv zeta. set (known := f ← find_key nickname nick l; find_key original_name filename (shared_vaults f)).
  destruct known as [v|] eqn:Hk.
  - unfold mbind at 1, mret. intros Hr. exists h. split_and!; [done|done|].
    destruct (local_path v) as [|b p] eqn:Hp.
    + injection Hr as <- <-. left. by split_and!.
    + right. destruct (sends s).
      * unfold mbind in Hr. pose proof (receive_into_only (b :: p) s h) as (_ & Hok & _).
        destruct (receive_into (b :: p) s h) as [ro h1] eqn:Hrec. cbn in Hok. subst ro. injection Hr as <- <-.
        split; [done|]. exists (b :: p). split; [left; by exists v|right; by rewrite Hrec].
      * injection Hr as <- <-. split; [done|]. exists (b :: p). split; [left; by exists v|by left].
  - destruct (accepted ask) eqn:Ha.
    2: { intros [= <- <-]. exists h. split_and!; [done|done|]. left. by split_and!. }
    unfold save_friends. unfold mbind at 1 2 3.
    set (data := to_json _). pose proof (write_sealed_only FRIENDS data h) as (Hd & _ & Hf).
    destruct (write_sealed FRIENDS data h) as [[ok|e|] h1]; cbn [snd] in *.
    2: { intros [= <- <-]. exists h1. split_and!; [done|done|]. left. by split_and!. }
    2: { intros [= <- <-]. exists h1. split_and!; [done|done|]. left. by split_and!. }
    unfold mret. intros Hr. cbn [from_option] in Hr. exists h1. split_and!; [done|done|].
    destruct (save_path ask) as [[|b p]|] eqn:Hp; cbn [default from_option id] in Hr.
    1,3: injection Hr as <- <-; left; by split_and!.
    right. destruct (sends s).
    + unfold mbind in Hr. pose proof (receive_into_only (b :: p) s h1) as (_ & Hok & _).
      destruct (receive_into (b :: p) s h1) as [ro h2] eqn:Hrec. cbn in Hok. subst ro. injection Hr as <- <-.
      split; [done|]. exists (b :: p). split; [right; by split_and!|right; by rewrite Hrec].
    + injection Hr as <- <-. split; [done|]. exists (b :: p). split; [right; by split_and!|by left].
Qed.

(** Nothing a connected friend proposes is written without consent.  Whatever the
    proposal, the stream and the state of the disk: the only document that can change
    is the one the proposal was accepted for, which is the path already agreed for a
    vault of that name shared with that friend, or the path the user just gave; if the
    user does not agree and the vault is not one already shared, nothing changes at
    all and the proposal is not accepted; and of the program's own files only the
    friends' file can change, and not for a vault that was already shared. *)
Theorem proposals_need_consent h nick filename modified ask s :
  let (r, h') := handle_proposal nick filename modified ask s h in
  (forall p, documents h' !! p <> documents h !! p ->
     r = Ok Accept /\
     ((exists v, known_vault h nick filename = Some v /\ local_path v = p) \/
      (known_vault h nick filename = None /\ accepted ask = true /\ save_path ask = Some p))) /\
  (accepted ask = false -> known_vault h nick filename = None -> h' = h /\ r <> Ok Accept) /\
  (forall f, f <> FRIENDS -> files h' !! f = files h !! f) /\
  (is_Some (known_vault h nick filename) -> r = Ok Accept -> files h' = files h).
Proof.
  destruct (handle_proposal nick filename modified ask s h) as [r h'] eqn:Hr.
  destruct (proposal_decision _ _ _ _ _ _ _ _ Hr) as (h1 & Hd & Hf & [(Hne & -> & Hsame)|(-> & p & Hwhy & Hp)]).
  - split_and!; [|by intros Ha _; split; [apply Hsame|]|done|done]. intros q Hq. by rewrite Hd in Hq.
  - pose proof (receive_into_only p s h1) as (Hrf & _ & Hrd).
    assert (Hfiles : files h' = files h1) by (by destruct Hp as [->| ->]).
    split_and!.
    + intros q Hq. split; [done|]. destruct (decide (q = p)) as [->|Hqp].
      * destruct Hwhy as [(v & Hv & Hl & _)|Hw]; [left; by exists v|by right].
      * exfalso. apply Hq. rewrite <- Hd. destruct Hp as [->| ->]; [done|by apply Hrd].
    + intros Ha Hn. destruct Hwhy as [(v & Hv & _)|(_ & Ha' & _)]; congruence.
    + intros f Hne. by rewrite Hfiles, Hf.
    + intros [v Hv] _. destruct Hwhy as [(_ & _ & _ & ->)|(Hn & _)]; [done|congruence].
Qed.
End consent.

(** ** Theorem: the registry *)

Section registry.
Context `{UnicodeCase} `{Aead} `{!AeadLaws _} `{Base32} `{Ed25519}.
Context {SV : Serde VaultEntry} {SVL : SerdeLaws SV}.

Definition newer_first (a b : VaultEntry) : Prop := last_opened b <= last_opened a.

Lemma insert_entry_perm e l : insert_entry e l ≡ₚ e :: l.
Proof.
  induction l as [|x l IH]; [done|]. cbn. destruct (last_opened x <=? last_opened e); [done|]. by rewrite IH, perm_swap.
Qed.

Lemma sort_entries_perm l : sort_entries l ≡ₚ l.
Proof. induction l as [|e l IH]; [done|]. cbn. by rewrite insert_entry_perm, IH. Qed.

Lemma insert_entry_sorted e l : StronglySorted newer_first l -> StronglySorted newer_first (insert_entry e l).
Proof.
  induction 1 as [|x l Hl IH Hx]; cbn; [repeat constructor|]. destruct (Z.leb_spec (last_opened x) (last_opened e)) as [Hle|Hlt].
  - constructor; [by constructor|]. constructor; [done|]. eapply Forall_impl; [|exact Hx]. unfold newer_first. intros y; lia.
  - constructor; [done|]. apply list.Forall_forall. intros y Hy. rewrite insert_entry_perm, elem_of_cons in Hy.
    destruct Hy as [->|Hy]; [unfold newer_first; lia|]. rewrite list.Forall_forall in Hx. by apply Hx.
Qed.

Lemma sort_entries_sorted l : StronglySorted newer_first (sort_entries l).
Proof. induction l as [|e l IH]; cbn; [constructor|by apply insert_entry_sorted]. Qed.

(** Insertion keeps the order of what was opened at the same time. *)
Lemma insert_entry_front e l : Forall (newer_first e) l -> insert_entry e l = e :: l.
Proof.
  destruct l as [|x l]; [done|]. intros [Hx _]%list.Forall_cons. cbn. unfold newer_first in Hx. by zdec.
Qed.

(** The vaults of the list that are still there. *)
Definition present (h : Home) (l : list VaultEntry) : list VaultEntry :=
  filter (fun e => is_Some (documents h !! path e)) l.

Definition vault_name (p : str) : str := default p (from_utf8_lossy <$> file_stem p).

Definition registered (p : str) (h : Home) (l : list VaultEntry) : list VaultEntry :=
  let reopened e := {| name := vault_name p; path := path e; last_opened := clock h |} in
  sort_entries
    match find_key path p (present h l) with
    | Some _ => update_first (is_key path p) reopened (present h l)
    | None => present h l ++ [{| name := vault_name p; path := p; last_opened := clock h |}]
    end.

Lemma present_paths h l : NoDup (map path l) -> NoDup (map path (present h l)).
Proof.
  unfold present. induction l as [|e l IH]; [done|]. cbn [map]. intros [He Hl]%list.NoDup_cons. rewrite filter_cons.
  case_decide; [|by apply IH]. cbn [map]. constructor; [|by apply IH]. intros (x & Hx & Hin)%list_elem_of_fmap.
  apply list_elem_of_filter in Hin as [_ Hin]. apply He. rewrite Hx. by apply list_elem_of_fmap_2.
Qed.

Lemma load_registry h l : holds VAULTS h l -> load_vault_registry h = (Ok (present h l), h).
Proof. intros Hl. unfold load_vault_registry, mbind, gets. by rewrite (load_list_holds VAULTS h l Hl). Qed.

(** What an update does to the other entries. *)
Lemma update_first_others p f (l : list VaultEntry) e :
  (forall x, path (f x) = path x) -> path e <> p -> e ∈ update_first (is_key path p) f l <-> e ∈ l.
Proof.
  intros Hf He. induction l as [|x l IH]; [done|]. cbn. destruct (is_key path p x) eqn:Hx.
  - apply bool_decide_eq_true in Hx. rewrite !elem_of_cons. split; intros [->|?]; try (by right); exfalso; apply He; by rewrite ?Hf.
  - by rewrite !elem_of_cons, IH.
Qed.

(** What a registration makes of the list. *)
Lemma registered_facts p h l :
  NoDup (map path l) ->
  NoDup (map path (registered p h l)) /\ StronglySorted newer_first (registered p h l) /\
  find_key path p (registered p h l) = Some {| name := vault_name p; path := p; last_opened := clock h |} /\
  (forall e, path e <> p -> e ∈ registered p h l <-> e ∈ l /\ is_Some (documents h !! path e)).
Proof.
  intros Hnd. pose proof (present_paths h l Hnd) as Hnp. unfold registered.
  set (new := {| name := vault_name p; path := p; last_opened := clock h |}).
  set (base := match find_key path p (present h l) with Some _ => _ | None => _ end).
  assert (Hbase : NoDup (map path base) /\ new ∈ base /\
    forall e, path e <> p -> e ∈ base <-> e ∈ present h l).
  { unfold base. destruct (find_key path p (present h l)) as [e|] eqn:He.
    - split; [by rewrite update_keys|]. split; [|by intros e' He'; apply update_first_others].
      assert (Hu : find_key path p (update_first (is_key path p)
        (fun e => {| name := vault_name p; path := path e; last_opened := clock h |}) (present h l)) = Some new).
      { erewrite find_update; [|done|exact He]. apply find_key_Some in He as [He _]. by rewrite He. }
      by apply find_key_Some in Hu as [_ Hu].
    - split; [by apply (append_keys path (present h l) new)|]. split.
      + apply elem_of_app. right. by apply list_elem_of_singleton.
      + intros e' He'. rewrite elem_of_app, list_elem_of_singleton. split; [by intros [?| ->]|by left]. }
  destruct Hbase as (Hnb & Hnew & Hothers). pose proof (sort_entries_perm base) as Hperm.
  assert (Hns : NoDup (map path (sort_entries base))) by (by rewrite Hperm).
  split; [exact Hns|]. split; [apply sort_entries_sorted|]. split.
  - apply (find_key_elem path _ new); [exact Hns|by rewrite Hperm].
  - intros e He. rewrite Hperm, Hothers by done. unfold present. rewrite list_elem_of_filter. tauto.
Qed.

(** When no clock ran backwards, the vault just opened comes first. *)
Lemma registered_first p h l :
  NoDup (map path l) -> Forall (fun e => last_opened e < clock h) l -> path <$> head (registered p h l) = Some p.
Proof.
  intros Hnd Hold. destruct (registered_facts p h l Hnd) as (_ & Hsorted & [_ Hin]%find_key_Some & Hothers).
  destruct (registered p h l) as [|x xs]; [by apply elem_of_nil in Hin|]. cbn. f_equal.
  destruct (decide (path x = p)) as [|Hx]; [done|]. exfalso.
  destruct (proj1 (Hothers x Hx) ltac:(by left)) as [Hxl _]. rewrite list.Forall_forall in Hold. specialize (Hold x Hxl).
  apply elem_of_cons in Hin as [Hin|Hin]; [by subst x|]. apply StronglySorted_inv in Hsorted as [_ Hs].
  rewrite list.Forall_forall in Hs. specialize (Hs _ Hin). unfold newer_first in Hs. cbn in Hs. lia.
Qed.

Lemma register_runs h l p :
  working VAULTS h -> holds VAULTS h l -> fits (registered p h l) ->
  exists h', register_vault p h = (Ok tt, h') /\ holds VAULTS h' (registered p h l) /\ working VAULTS h' /\ only_file VAULTS h h'.
Proof.
  intros Hw Hl Hf. destruct (write_sealed_holds VAULTS h (registered p h l) Hw Hf) as (h' & Hr & Hh' & Hw' & Ho).
  exists h'. split; [|by split]. unfold register_vault, mbind, gets. rewrite (load_registry h l Hl).
  unfold save_vault_registry, mbind, mret. unfold registered, vault_name in Hr. by rewrite Hr.
Qed.

(** The registry lists the vaults that exist, the most recently opened first.
    Registering a vault in a registry without duplicates leaves one without
    duplicates, sorted by when each was last opened: the vault is in it once, with its
    file's stem as name and the present time; every other entry is there exactly if it
    was and its file still exists; and when no clock ran backwards the vault just
    opened comes first.  Removing a vault leaves exactly the other entries whose files
    exist, in their order.  Nothing but the registry's file changes. *)
Theorem registry_most_recent_first h l p :
  working VAULTS h -> holds VAULTS h l -> NoDup (map path l) ->
  (fits (registered p h l) ->
   exists h' l', register_vault p h = (Ok tt, h') /\ holds VAULTS h' l' /\ only_file VAULTS h h' /\
     NoDup (map path l') /\ StronglySorted newer_first l' /\
     find_key path p l' = Some {| name := vault_name p; path := p; last_opened := clock h |} /\
     (forall e, path e <> p -> e ∈ l' <-> e ∈ l /\ is_Some (documents h !! path e)) /\
     (Forall (fun e => last_opened e < clock h) l -> path <$> head l' = Some p)) /\
  (fits (filter (fun e => path e <> p) (present h l)) ->
   exists h', remove_vault_from_registry p h = (Ok tt, h') /\ only_file VAULTS h h' /\
     holds VAULTS h' (filter (fun e => path e <> p) (present h l))).
Proof.
  intros Hw Hl Hnd. split.
  - intros Hf. destruct (register_runs h l p Hw Hl Hf) as (h' & Hr & Hh' & _ & Ho).
    destruct (registered_facts p h l Hnd) as (Hn & Hs & Hk & He). exists h', (registered p h l). split_and!; try done.
    by apply registered_first.
  - intros Hf. destruct (write_sealed_holds VAULTS h _ Hw Hf) as (h' & Hr & Hh' & _ & Ho). exists h'.
    split; [|by split]. unfold remove_vault_from_registry, mbind. rewrite (load_registry h l Hl).
    unfold save_vault_registry, mbind, mret. by rewrite Hr.
Qed.
End registry.

(** ** Examples *)

Module ToySerde.
Abbreviation shared_tuple := (str * str * str * Z)%type.
Abbreviation friend_tuple := (str * str * list shared_tuple * option Z)%type.
Abbreviation vault_tuple := (str * str * Z)%type.

Definition of_friend (f : FriendRecord) : friend_tuple :=
  (nickname f, url f, map (fun v => (original_name v, label v, local_path v, last_modified v)) (shared_vaults f), last_seen f).
Definition to_friend (t : friend_tuple) : FriendRecord :=
  let '(n, u, vs, s) := t in
  {| nickname := n; url := u; last_seen := s;
     shared_vaults := map (fun v : shared_tuple => let '(o, l, p, m) := v in
       {| original_name := o; label := l; local_path := p; last_modified := m |}) vs |}.
Definition of_vault (v : VaultEntry) : vault_tuple := (name v, path v, last_opened v).
Definition to_vault (t : vault_tuple) : VaultEntry := let '(n, p, o) := t in {| name := n; path := p; last_opened := o |}.

Lemma to_of_friend f : to_friend (of_friend f) = f.
Proof.
  destruct f as [n u vs s]. unfold to_friend, of_friend. cbn. rewrite map_map. f_equal.
  rewrite <- (map_id vs) at 2. apply map_ext. by intros [].
Qed.

Lemma to_of_map {A B} (f : A -> B) (g : B -> A) l : (forall a, g (f a) = a) -> map g (map f l) = l.
Proof. intros Hg. rewrite map_map. rewrite <- (map_id l) at 2. by apply map_ext. Qed.

#[export] Instance friends_serde : Serde FriendRecord := {
  to_json l := ToyBits.to_bits (map of_friend l);
  from_json s := map to_friend <$> ToyBits.from_bits (A := list friend_tuple) s;
}.
#[export] Instance vaults_serde : Serde VaultEntry := {
  to_json l := ToyBits.to_bits (map of_vault l);
  from_json s := map to_vault <$> ToyBits.from_bits (A := list vault_tuple) s;
}.
#[export] Instance friends_laws : SerdeLaws friends_serde.
Proof.
  split; intros l; cbn [to_json from_json friends_serde].
  - rewrite ToyBits.from_to_bits. cbn. f_equal. apply to_of_map, to_of_friend.
  - apply from_utf8_ascii, ToyBits.bits_ascii.
Qed.
#[export] Instance vaults_laws : SerdeLaws vaults_serde.
Proof.
  split; intros l; cbn [to_json from_json vaults_serde].
  - rewrite ToyBits.from_to_bits. cbn. f_equal. apply to_of_map. by intros [].
  - apply from_utf8_ascii, ToyBits.bits_ascii.
Qed.
End ToySerde.

Import Toy ToyEd ToySerde.

(** A home directory from before encryption: the friends' file holds one friend. *)
Definition demo_link (b : byte) : str := atom_link (zrep 32 Byte.x05) (zrep 32 b).
Definition demo_friends : list FriendRecord := [new_friend (demo_link Byte.x01) (lit "ada")].
Definition demo_vaults : list VaultEntry := [{| name := lit "old"; path := lit "/v/old.atom"; last_opened := 5 |}].
Definition demo_home : Home :=
  {| config_key := Some (zrep 32 Byte.x33);
     files := <[FRIENDS := to_json demo_friends]> (<[VAULTS := to_json demo_vaults]> ∅);
     documents := <[lit "/v/old.atom" := lit "x"]> ∅; refused _ := None; clock := 9; entropy := rng_const Byte.x2a |}.

Lemma demo_link_ascii b : ascii (demo_link b).
Proof. exact (atom_link_ascii (zrep 32 Byte.x05) (zrep 32 b)). Qed.

Lemma demo_working f : working f demo_home.
Proof. split; [by exists (zrep 32 Byte.x33)|]. split; [apply rng_const_total|done]. Qed.

Lemma demo_holds_friends : holds FRIENDS demo_home demo_friends.
Proof. unfold holds. change (files demo_home !! FRIENDS) with (Some (to_json demo_friends)). cbv iota. unfold decrypt_config, to_json, friends_serde. by rewrite bits_unsealed. Qed.

Lemma demo_holds_vaults : holds VAULTS demo_home demo_vaults.
Proof.
  unfold holds. assert (Hv : files demo_home !! VAULTS = Some (to_json demo_vaults)) by (vm_compute; reflexivity).
  rewrite Hv. unfold decrypt_config, to_json, vaults_serde. by rewrite bits_unsealed.
Qed.

Definition demo_ops : list op :=
  [AddFriend (demo_link Byte.x02) (lit "bob"); AddFriend (demo_link Byte.x02) (lit "ada");
   AddFriend (demo_link Byte.x01) (lit "eve"); AddFriend (lit "nonsense") (lit "bob"); SeenFriend (lit "bob")].

Lemma friend_book_pins_witness :
  let (rs, l') := books 9 demo_ops demo_friends in
  exists h', run_ops demo_ops demo_home = (rs, h') /\ holds FRIENDS h' l' /\ friends_ok l'.
Proof.
  pose proof (friend_book_pins demo_home demo_friends demo_ops) as Hr.
  assert (Hh : book_home demo_home demo_friends).
  { split; [apply demo_working|]. split; [apply demo_holds_friends|]. intros raw Hraw. exfalso. revert Hraw. vm_compute. discriminate. }
  assert (Hl : friends_ok demo_friends).
  { split; [apply list.NoDup_singleton|]. split; [apply list.NoDup_singleton|].
    apply Forall_singleton. split; [exact (demo_link_ascii Byte.x01)|]. vm_compute. by eexists. }
  assert (Ho : Forall op_ok demo_ops).
  { constructor; [exact (demo_link_ascii Byte.x02)|]. constructor; [exact (demo_link_ascii Byte.x02)|].
    constructor; [exact (demo_link_ascii Byte.x01)|].
    constructor; [by repeat constructor|]. by repeat constructor. }
  assert (Hf : books_fit (clock demo_home) demo_ops demo_friends).
  { vm_compute. repeat split; discriminate. }
  specialize (Hr Hh Hl Ho Hf). change (clock demo_home) with 9 in Hr. destruct (books 9 demo_ops demo_friends) as [rs l'].
  destruct Hr as (h' & Hrun & (_ & Hl' & _) & Hok & _). exists h'. split; [exact Hrun|]. split; [exact Hl'|exact Hok].
Defined.

Lemma registry_most_recent_first_witness :
  exists h' l', register_vault (lit "/v/new.atom") demo_home = (Ok tt, h') /\ holds VAULTS h' l' /\
    path <$> head l' = Some (lit "/v/new.atom").
Proof.
  destruct (registry_most_recent_first demo_home demo_vaults (lit "/v/new.atom") (demo_working VAULTS) demo_holds_vaults)
    as [Hreg _]; [apply list.NoDup_singleton|].
  destruct Hreg as (h' & l' & Hr & Hl & _ & _ & _ & _ & _ & Hfirst); [vm_compute; discriminate|].
  exists h', l'. split; [exact Hr|]. split; [exact Hl|]. apply Hfirst. repeat constructor.
Defined.
