(* ===== verification/Noise.v ===== *)
(** * The Noise handshake

    [p2p-sync/src/handshake.rs]: the XX handshake of the synchronisation route, and the
    mutual authentication that follows it. *)

From Stdlib Require Import Strings.Byte.
From stdpp Require Import strings.
From S2P Require Import Prelude LiveError StateM Framing AtomLink.

(** ** The Noise library ([snow])

    A handshake from a private key and a role, its messages and its hash; the transport
    that comes out of it, whose two directions are independent.  A message longer than
    65535 bytes is an error, and a tag has 16 bytes. *)
Class Noise := {
  HandshakeState : Type;
  TransportState : Type;
  build : bool -> bytes -> option HandshakeState;
  hs_write : HandshakeState -> option (bytes * HandshakeState);
  hs_read : HandshakeState -> bytes -> option HandshakeState;
  get_handshake_hash : HandshakeState -> bytes;
  into_transport_mode : HandshakeState -> option TransportState;
  write_message : TransportState -> bytes -> option (bytes * TransportState);
  read_message : TransportState -> bytes -> option (bytes * TransportState);
  (** What the first sends, the second can read. *)
  linked : TransportState -> TransportState -> Prop;
}.

Definition MAX_MESSAGE : Z := 65535.
Definition TAG : Z := 16.

Class NoiseLaws (N : Noise) := {
  hs_write_length : forall h m h', hs_write h = Some (m, h') -> zlen m <= MAX_MESSAGE;
  hash_length : forall h, zlen (get_handshake_hash h) = 32;
  write_length : forall t p c t', write_message t p = Some (c, t') -> zlen c = zlen p + TAG /\ zlen c <= MAX_MESSAGE;
  write_fits : forall t p, zlen p + TAG <= MAX_MESSAGE -> is_Some (write_message t p);
  (** The pattern XX between two parties who follow it. *)
  xx : forall ka kb a0 b0, build true ka = Some a0 -> build false kb = Some b0 ->
    exists m1 a1 b1 m2 b2 a2 m3 a3 b3 ta tb,
      hs_write a0 = Some (m1, a1) /\ hs_read b0 m1 = Some b1 /\ hs_write b1 = Some (m2, b2) /\
      hs_read a1 m2 = Some a2 /\ hs_write a2 = Some (m3, a3) /\ hs_read b2 m3 = Some b3 /\
      get_handshake_hash a3 = get_handshake_hash b3 /\
      into_transport_mode a3 = Some ta /\ into_transport_mode b3 = Some tb /\ linked ta tb /\ linked tb ta;
  linked_delivers : forall a b p c a', linked a b -> write_message a p = Some (c, a') ->
    exists b', read_message b c = Some (p, b') /\ linked a' b';
  linked_write : forall a b p c b', linked a b -> write_message b p = Some (c, b') -> linked a b';
  linked_read : forall a b p c a', linked a b -> read_message a c = Some (p, a') -> linked a' b;
  directions : forall t c p t1 q d t2, read_message t c = Some (p, t1) -> write_message t q = Some (d, t2) ->
    exists t12, read_message t2 c = Some (p, t12) /\ write_message t1 q = Some (d, t12);
}.

(** ** The connection *)

Record Wire := { input : stream; output : sink }.

Inductive failed := NoiseError | IoError | PayloadLength | InvalidKey | NotAuthorized | InvalidSignature.

Definition on_input {A} (m : M Error.t stream A) : M failed Wire A := fun w =>
  let (r, i) := m (input w) in (map_err (fun _ => IoError) r, {| input := i; output := output w |}).
Definition on_output {A} (m : M Error.t sink A) : M failed Wire A := fun w =>
  let (r, o) := m (output w) in (map_err (fun _ => IoError) r, {| input := input w; output := o |}).

(** [write_u16] of [len as u16], [write_all] and [flush]. *)
Definition write_sized (b : bytes) : M failed Wire unit :=
  let! _ := on_output (write_all (Error.Session "write") (be_bytes 2 (zlen b mod 2 ^ 16))) in
  on_output (write_all (Error.Session "write") b).

(** [read_u16] and [read_exact]. *)
Definition read_sized : M failed Wire bytes :=
  let! len := on_input (read_exact 3 2 []) in
  on_input (read_exact (S (Z.to_nat (be_val len))) (be_val len) []).

Section handshake.
Context `{Noise} `{Ed25519}.

Definition send_message (noise : HandshakeState) : M failed Wire HandshakeState :=
  let! (m, noise) := lift (ok_or (hs_write noise) NoiseError) in
  let! _ := write_sized m in
  mret noise.

Definition recv_message (noise : HandshakeState) : M failed Wire HandshakeState :=
  let! m := read_sized in
  lift (ok_or (hs_read noise m) NoiseError).

Record VaultSession := {
  transport : TransportState;
  master_secret : bytes;
  remote_static_key : bytes;
}.

(** The three messages. *)
Definition exchange (is_initiator : bool) (noise : HandshakeState) : M failed Wire HandshakeState :=
  if is_initiator then
    let! noise := send_message noise in
    let! noise := recv_message noise in
    send_message noise
  else
    let! noise := recv_message noise in
    let! noise := send_message noise in
    recv_message noise.

(** [execute_handshake]; the ephemeral key pair is the random generator's. *)
Definition execute_handshake (temp_private : bytes) (is_initiator : bool) (local_identity_key : bytes)
    (authorized_peers : list bytes) : M failed Wire VaultSession :=
  let! noise := lift (ok_or (build is_initiator temp_private) NoiseError) in
  let! noise := exchange is_initiator noise in
  let handshake_hash := get_handshake_hash noise in
  let signature := ed_sign local_identity_key handshake_hash in
  if negb (zlen handshake_hash =? 32) then lift Panic else
  let my_auth_payload := verifying_key local_identity_key ++ signature in
  let! t := lift (ok_or (into_transport_mode noise) NoiseError) in
  let! (c, t) := lift (ok_or (write_message t my_auth_payload) NoiseError) in
  let! _ := write_sized c in
  let! c := read_sized in
  let! (plain_payload, t) := lift (ok_or (read_message t c) NoiseError) in
  if negb (zlen plain_payload =? 96) then fails PayloadLength else
  let remote_pubkey := ztake 32 plain_payload in
  let remote_sig := zdrop 32 plain_payload in
  if negb (key_valid remote_pubkey) then fails InvalidKey else
  if decide (remote_pubkey ∉ authorized_peers) then fails NotAuthorized else
  if negb (verify_strict remote_pubkey handshake_hash remote_sig) then fails InvalidSignature else
  mret {| transport := t; master_secret := handshake_hash; remote_static_key := remote_pubkey |}.
End handshake.

(** ** Lemmas: messages on the wire *)

Definition sized (b : bytes) : bytes := be_bytes 2 (zlen b) ++ b.

(** What is left to read is [rest], and the other direction has taken [sent]. *)
Definition at_wire (w : Wire) (rest sent : bytes) : Prop :=
  stream_wf (input w) /\ stream_bytes (input w) = rest /\ written (output w) = sent /\ room (output w) = None.

Lemma write_sized_at b w rest sent :
  zlen b <= MAX_MESSAGE -> at_wire w rest sent ->
  exists w', write_sized b w = (Ok tt, w') /\ at_wire w' rest (sent ++ sized b).
Proof.
  unfold MAX_MESSAGE. intros Hb (Hw & Hr & Hs & Hroom). pose proof (zlen_nonneg b).
  destruct w as [i [o rm]]. cbn [input output written room] in *. subst rm sent.
  unfold write_sized. rewrite Z.mod_small by lia. unfold on_output, mbind, write_all. cbn [input output written room map_err].
  eexists. split; [done|]. unfold sized. split_and!; cbn; [done|done|by rewrite <- app_assoc|done].
Qed.

Lemma read_bytes_at fuel n w b rest sent :
  zlen b = n -> n < Z.of_nat fuel -> at_wire w (b ++ rest) sent ->
  exists w', on_input (read_exact fuel n []) w = (Ok b, w') /\ at_wire w' rest sent.
Proof.
  intros Hb Hf (Hw & Hr & Hs & Hroom). pose proof (zlen_nonneg b). destruct w as [i o]. cbn [input output] in *.
  unfold on_input. cbn [input output].
  destruct (read_exact_spec fuel n [] i) as [(Hle & i' & -> & Hw' & _ & Hrest)|(Hlt & _)];
    rewrite ?zlen_nil, ?Z.sub_0_r in *; [done|lia|lia|lia| |].
  - rewrite Hr in *. eexists. rewrite ztake_app_l by done. split; [done|].
    split_and!; cbn [input output]; [done| |done|done]. rewrite Hrest. by rewrite zdrop_app_l.
  - rewrite Hr, zlen_app in Hlt. pose proof (zlen_nonneg rest). lia.
Qed.

Lemma read_sized_at b w rest sent :
  zlen b <= MAX_MESSAGE -> at_wire w (sized b ++ rest) sent ->
  exists w', read_sized w = (Ok b, w') /\ at_wire w' rest sent.
Proof.
  unfold MAX_MESSAGE, sized. intros Hb Hw. pose proof (zlen_nonneg b). rewrite <- app_assoc in Hw.
  destruct (read_bytes_at 3 2 w (be_bytes 2 (zlen b)) (b ++ rest) sent) as (w1 & Hr1 & Hw1); [by rewrite zlen_be_bytes|lia|done|].
  unfold read_sized. erewrite mbind_Ok by exact Hr1. rewrite be_val_small by (change (256 ^ Z.of_nat 2) with 65536; lia).
  destruct (read_bytes_at (S (Z.to_nat (zlen b))) (zlen b) w1 b rest sent) as (w2 & Hr2 & Hw2); [done|lia|done|].
  by exists w2.
Qed.

(** Reading ends, without a panic, whatever arrives. *)
Definition readable (w : Wire) : Prop := stream_wf (input w).

Lemma read_exact_total fuel n : 0 <= n -> n < Z.of_nat fuel ->
  triple readable (on_input (read_exact fuel n [])) (fun b w => zlen b = n /\ readable w) (fun _ _ => True).
Proof.
  intros Hn Hf w Hw. unfold on_input.
  destruct (read_exact_spec fuel n [] (input w) Hw) as [(Hle & i & -> & Hw' & _)|(_ & e & i & ->)];
    rewrite ?zlen_nil, ?Z.sub_0_r in *; try lia; [|exact I].
  cbn [map_err app]. split; [|done]. unfold readable in *. zl.
Qed.

Lemma read_sized_total : triple readable read_sized (fun b w => zlen b <= MAX_MESSAGE /\ readable w) (fun _ _ => True).
Proof.
  unfold read_sized. eapply triple_bind; [apply read_exact_total; lia|]. intros len. apply triple_pure. intros Hlen.
  pose proof (be_val_range len) as Hr. rewrite Hlen in Hr. change (256 ^ 2) with 65536 in Hr.
  eapply triple_conseq; [apply (read_exact_total (S (Z.to_nat (be_val len))) (be_val len)); lia| | |]; [done| |done].
  intros b w [Hb Hw]. unfold MAX_MESSAGE. split; [lia|done].
Qed.

Lemma write_sized_total b : triple readable (write_sized b) (fun _ w => readable w) (fun _ _ => True).
Proof.
  assert (Hw : forall c, triple readable (on_output (write_all (Error.Session "write") c)) (fun _ w => readable w) (fun _ _ => True)).
  { intros c w Hw. unfold on_output, write_all. destruct (room (output w)) as [k|]; [destruct (zlen c <=? k)|]; first [exact Hw|exact I]. }
  unfold write_sized. eapply triple_bind; [apply Hw|]. intros u. apply Hw.
Qed.

Section total.
Context `{Noise} `{!NoiseLaws _} `{Ed25519}.

Lemma lift_total {A} (o : option A) (P : Wire -> Prop) :
  triple P (lift (ok_or o NoiseError)) (fun a w => o = Some a /\ P w) (fun _ _ => True).
Proof. apply triple_lift; destruct o; try done. by intros x s [= ->]. Qed.

Lemma send_total n : triple readable (send_message n) (fun _ w => readable w) (fun _ _ => True).
Proof.
  unfold send_message. eapply triple_bind; [apply lift_total|]. intros [m n']. apply triple_pure. intros _.
  eapply triple_bind; [apply write_sized_total|]. intros u. by intros w Hw.
Qed.

Lemma recv_total n : triple readable (recv_message n) (fun _ w => readable w) (fun _ _ => True).
Proof.
  unfold recv_message. eapply triple_bind; [apply read_sized_total|]. intros m. apply triple_pure. intros _.
  eapply triple_conseq; [apply lift_total| | |]; [done|by intros a w [_ ?]|done].
Qed.

Lemma exchange_total b n : triple readable (exchange b n) (fun _ w => readable w) (fun _ _ => True).
Proof.
  unfold exchange. destruct b.
  - eapply triple_bind; [apply send_total|]. intros n1. eapply triple_bind; [apply recv_total|]. intros n2. apply send_total.
  - eapply triple_bind; [apply recv_total|]. intros n1. eapply triple_bind; [apply send_total|]. intros n2. apply recv_total.
Qed.

Lemma handshake_total k b local authorized :
  triple readable (execute_handshake k b local authorized) (fun _ _ => True) (fun _ _ => True).
Proof.
  unfold execute_handshake. eapply triple_bind; [apply lift_total|]. intros n. apply triple_pure. intros _.
  eapply triple_bind; [apply exchange_total|]. intros n'. cbv zeta. rewrite hash_length. cbn [Z.eqb negb Pos.eqb].
  eapply triple_bind; [apply lift_total|]. intros t. apply triple_pure. intros _.
  eapply triple_bind; [apply lift_total|]. intros [c t']. apply triple_pure. intros _.
  eapply triple_bind; [apply write_sized_total|]. intros u.
  eapply triple_bind; [apply read_sized_total|]. intros c'. apply triple_pure. intros _.
  eapply triple_bind; [apply lift_total|]. intros [p t'']. apply triple_pure. intros _.
  repeat (apply triple_if; intros _; [by intros w Hw|]). case_decide; [by intros w Hw|].
  apply triple_if; intros _; by intros w Hw.
Qed.
End total.

(** ** Theorem: whom a session is with *)

Section pins.
Context `{Noise} `{!NoiseLaws _} `{Ed25519}.
Lemma handshake_Ok temp is_initiator local authorized w s w' :
  execute_handshake temp is_initiator local authorized w = (Ok s, w') ->
  remote_static_key s ∈ authorized /\ (exists sig, verify_strict (remote_static_key s) (master_secret s) sig = true) /\
  exists n0 n w1, build is_initiator temp = Some n0 /\ exchange is_initiator n0 w = (Ok n, w1) /\
    master_secret s = get_handshake_hash n.
Proof.
  intros Hr. unfold execute_handshake in Hr.
  apply mbind_inv in Hr as (n0 & w0 & Hn0 & Hr). unfold lift in Hn0. injection Hn0 as Hn0 <-.
  apply mbind_inv in Hr as (n & w1 & Hn & Hr). cbv zeta in Hr. rewrite hash_length in Hr. cbn [Z.eqb negb Pos.eqb] in Hr.
  apply mbind_inv in Hr as (t & w2 & _ & Hr). apply mbind_inv in Hr as ([c t1] & w3 & _ & Hr).
  apply mbind_inv in Hr as ([] & w4 & _ & Hr). apply mbind_inv in Hr as (c' & w5 & _ & Hr).
  apply mbind_inv in Hr as ([p t2] & w6 & _ & Hr).
  destruct (negb (zlen p =? 96)); [done|]. destruct (negb (key_valid _)); [done|].
  case_decide as Hin; [done|]. destruct (verify_strict _ _ _) eqn:Hv; [|done]. injection Hr as <- _.
  cbn [remote_static_key master_secret]. split_and!; [done|by eexists|].
  exists n0, n, w1. split_and!; [|done|done]. destruct (build is_initiator temp); cbn in Hn0; [congruence|done].
Qed.

Lemma handshake_session temp is_initiator local authorized w :
  readable w ->
  let (r, w') := execute_handshake temp is_initiator local authorized w in
  r <> Panic /\
  forall s, r = Ok s ->
    remote_static_key s ∈ authorized /\ (exists sig, verify_strict (remote_static_key s) (master_secret s) sig = true) /\
    exists n0 n w1, build is_initiator temp = Some n0 /\ exchange is_initiator n0 w = (Ok n, w1) /\
      master_secret s = get_handshake_hash n.
Proof.
  intros Hw. pose proof (handshake_total temp is_initiator local authorized w Hw) as Ht.
  destruct (execute_handshake temp is_initiator local authorized w) as [r w'] eqn:Hr.
  split; [by destruct r|]. intros s ->. by eapply handshake_Ok.
Qed.

(** [signs k m]: the holder of the secret of [k] has signed [m].  Nobody else makes a
    signature that verifies, for the keys of friends. *)
Context (signs : bytes -> bytes -> Prop).

(** C29: Whoever is at the other end and whatever arrives, the handshake ends without a
    panic, and a session is only ever with a friend: its key is one of the authorised
    ones, and the holder of that key has signed the hash of this very exchange, which
    is the hash of the session.  Without friends nobody gets a session. *)
Theorem handshake_pins temp is_initiator local authorized w :
  readable w ->
  (forall k m sig, k ∈ authorized -> verify_strict k m sig = true -> signs k m) ->
  let (r, w') := execute_handshake temp is_initiator local authorized w in
  r <> Panic /\
  forall s, r = Ok s ->
    remote_static_key s ∈ authorized /\ signs (remote_static_key s) (master_secret s) /\
    exists n0 n w1, build is_initiator temp = Some n0 /\ exchange is_initiator n0 w = (Ok n, w1) /\
      master_secret s = get_handshake_hash n.
Proof.
  intros Hw Hforge. pose proof (handshake_session temp is_initiator local authorized w Hw) as Hs.
  destruct (execute_handshake temp is_initiator local authorized w) as [r w']. destruct Hs as [Hp Hs].
  split; [done|]. intros s Hr. destruct (Hs s Hr) as (Hin & [sig Hv] & He). split_and!; [done|by eapply Hforge|done].
Qed.
End pins.

(** ** Theorem: two friends get one session *)

Section honest.
Context `{Noise} `{!NoiseLaws _} `{Ed25519} `{!Ed25519Laws _}.

Lemma send_at n m n' w rest sent :
  hs_write n = Some (m, n') -> at_wire w rest sent ->
  exists w', send_message n w = (Ok n', w') /\ at_wire w' rest (sent ++ sized m).
Proof.
  intros Hn Hw. destruct (write_sized_at m w rest sent (hs_write_length _ _ _ Hn) Hw) as (w' & Hs & Hw').
  exists w'. split; [|done]. unfold send_message. rewrite Hn. erewrite mbind_Ok by done. cbv beta iota. by erewrite mbind_Ok by exact Hs.
Qed.

Lemma recv_at n m n' w rest sent :
  hs_read n m = Some n' -> zlen m <= MAX_MESSAGE -> at_wire w (sized m ++ rest) sent ->
  exists w', recv_message n w = (Ok n', w') /\ at_wire w' rest sent.
Proof.
  intros Hn Hm Hw. destruct (read_sized_at m w rest sent Hm Hw) as (w' & Hs & Hw').
  exists w'. split; [|done]. unfold recv_message. erewrite mbind_Ok by exact Hs. by rewrite Hn.
Qed.

(** The end of the handshake, for either party: the other's proof has arrived. *)
Lemma proof_accepted temp b me authorized other n0 n t c1 t1 c2 t2 w0 w rest sent :
  build b temp = Some n0 -> exchange b n0 w0 = (Ok n, w) -> into_transport_mode n = Some t ->
  write_message t (verifying_key me ++ ed_sign me (get_handshake_hash n)) = Some (c1, t1) ->
  read_message t1 c2 = Some (verifying_key other ++ ed_sign other (get_handshake_hash n), t2) -> zlen c2 <= MAX_MESSAGE ->
  zlen other = 32 -> verifying_key other ∈ authorized -> at_wire w (sized c2 ++ rest) sent ->
  exists w', execute_handshake temp b me authorized w0 =
      (Ok {| transport := t2; master_secret := get_handshake_hash n; remote_static_key := verifying_key other |}, w') /\
    at_wire w' rest (sent ++ sized c1).
Proof.
  intros Hb He Ht Hw1 Hr Hc2 Ho Hauth Hw. unfold execute_handshake. rewrite Hb. erewrite mbind_Ok by done.
  erewrite mbind_Ok by exact He. cbv zeta. rewrite hash_length. cbn [Z.eqb negb Pos.eqb].
  rewrite Ht. erewrite mbind_Ok by done. rewrite Hw1. erewrite mbind_Ok by done. cbv beta iota.
  destruct (write_sized_at c1 w _ sent (proj2 (write_length _ _ _ _ Hw1)) Hw) as (w1 & Hs1 & Hat1).
  erewrite mbind_Ok by exact Hs1. destruct (read_sized_at c2 w1 rest _ Hc2 Hat1) as (w2 & Hs2 & Hat2).
  erewrite mbind_Ok by exact Hs2. rewrite Hr. erewrite mbind_Ok by done. cbv beta iota.
  destruct (verifying_key_ok other Ho) as [Hlen Hvalid].
  rewrite zlen_app, Hlen, ed_sign_length. cbn [Z.add Z.eqb negb Pos.eqb Pos.add Pos.succ].
  rewrite ztake_app_l, zdrop_app_l by done. rewrite Hvalid. cbn [negb]. rewrite decide_False by (intros Hn; by apply Hn).
  rewrite verify_sign by done. exists w2. by split.
Qed.

(** C30: Two friends who know each other's keys get one session, however the network
    cuts up what they send: there are bytes from each to the other such that each end
    sends exactly those when it receives the other's, consumes no byte more, and ends
    with the same secret, the other's key, and transports that are linked both ways. *)
Theorem friends_get_one_session ka kb a0 b0 ia ib authorized_a authorized_b :
  build true ka = Some a0 -> build false kb = Some b0 -> zlen ia = 32 -> zlen ib = 32 ->
  verifying_key ib ∈ authorized_a -> verifying_key ia ∈ authorized_b ->
  exists from_a from_b sa sb,
    (forall w more, at_wire w (from_b ++ more) [] ->
       exists w', execute_handshake ka true ia authorized_a w = (Ok sa, w') /\ at_wire w' more from_a) /\
    (forall w more, at_wire w (from_a ++ more) [] ->
       exists w', execute_handshake kb false ib authorized_b w = (Ok sb, w') /\ at_wire w' more from_b) /\
    master_secret sa = master_secret sb /\
    remote_static_key sa = verifying_key ib /\ remote_static_key sb = verifying_key ia /\
    linked (transport sa) (transport sb) /\ linked (transport sb) (transport sa).
Proof.
  intros Ha Hb Hia Hib Hauth_a Hauth_b.
  destruct (xx ka kb a0 b0 Ha Hb) as (m1 & a1 & b1 & m2 & b2 & a2 & m3 & a3 & b3 & ta & tb &
    Hm1 & Hb1 & Hm2 & Ha2 & Hm3 & Hb3 & Hhash & Hta & Htb & Hab & Hba).
  pose proof (hs_write_length _ _ _ Hm1) as Hl1. pose proof (hs_write_length _ _ _ Hm2) as Hl2.
  pose proof (hs_write_length _ _ _ Hm3) as Hl3.
  assert (Hfit : forall s, zlen s = 32 -> forall h, zlen (verifying_key s ++ ed_sign s h) + TAG <= MAX_MESSAGE).
  { intros s Hs h. destruct (verifying_key_ok s Hs) as [Hl _]. rewrite zlen_app, Hl, ed_sign_length. done. }
  destruct (write_fits ta _ (Hfit ia Hia (get_handshake_hash a3))) as [[ca ta1] Hca].
  destruct (write_fits tb _ (Hfit ib Hib (get_handshake_hash a3))) as [[cb tb1] Hcb].
  pose proof (proj2 (write_length _ _ _ _ Hca)) as Hla. pose proof (proj2 (write_length _ _ _ _ Hcb)) as Hlb.
  destruct (linked_delivers _ _ _ _ _ Hab Hca) as (tbr & Hrb & Hlab).
  destruct (linked_delivers _ _ _ _ _ Hba Hcb) as (tar & Hra & Hlba).
  destruct (directions _ _ _ _ _ _ _ Hra Hca) as (ta2 & Hra' & Hta2).
  destruct (directions _ _ _ _ _ _ _ Hrb Hcb) as (tb2 & Hrb' & Htb2).
  exists (sized m1 ++ sized m3 ++ sized ca), (sized m2 ++ sized cb).
  eexists {| transport := ta2 |}, {| transport := tb2 |}. split_and!.
  - intros w more Hw. rewrite <- app_assoc in Hw.
    destruct (send_at _ _ _ _ _ _ Hm1 Hw) as (w1 & Hs1 & Hw1).
    destruct (recv_at _ _ _ _ _ _ Ha2 Hl2 Hw1) as (w2 & Hs2 & Hw2).
    destruct (send_at _ _ _ _ _ _ Hm3 Hw2) as (w3 & Hs3 & Hw3).
    assert (He : exchange true a0 w = (Ok a3, w3)).
    { unfold exchange. erewrite mbind_Ok by exact Hs1. by erewrite mbind_Ok by exact Hs2. }
    destruct (proof_accepted _ _ _ _ _ _ _ _ _ _ _ _ _ _ _ _ Ha He Hta Hca Hra' Hlb Hib Hauth_a Hw3) as (w4 & Hr & Hw4).
    exists w4. split; [exact Hr|]. by rewrite <- !app_assoc in Hw4.
  - intros w more Hw. rewrite <- !app_assoc in Hw.
    destruct (recv_at _ _ _ _ _ _ Hb1 Hl1 Hw) as (w1 & Hs1 & Hw1).
    destruct (send_at _ _ _ _ _ _ Hm2 Hw1) as (w2 & Hs2 & Hw2).
    destruct (recv_at _ _ _ _ _ _ Hb3 Hl3 Hw2) as (w3 & Hs3 & Hw3).
    assert (He : exchange false b0 w = (Ok b3, w3)).
    { unfold exchange. erewrite mbind_Ok by exact Hs1. by erewrite mbind_Ok by exact Hs2. }
    rewrite Hhash in Hcb, Hrb'.
    destruct (proof_accepted _ _ _ _ _ _ _ _ _ _ _ _ _ _ _ _ Hb He Htb Hcb Hrb' Hla Hia Hauth_b Hw3) as (w4 & Hr & Hw4).
    exists w4. split; [exact Hr|]. exact Hw4.
  - exact Hhash.
  - done.
  - done.
  - cbn [transport]. eapply linked_read; [|exact Hra']. by eapply linked_write; [|exact Htb2].
  - cbn [transport]. eapply linked_read; [|exact Hrb']. by eapply linked_write; [|exact Hta2].
Qed.
End honest.

(** ** An instance

    Messages with sixteen bytes of padding, and a counter for each direction. *)
Module ToyNoise.
Record Toy := { out_count : nat; in_count : nat }.

Definition toy_write (t : Toy) (p : bytes) : option (bytes * Toy) :=
  if zlen p + TAG <=? MAX_MESSAGE
  then Some (p ++ zrep TAG Byte.x00, {| out_count := S (out_count t); in_count := in_count t |}) else None.
Definition toy_read (t : Toy) (c : bytes) : option (bytes * Toy) :=
  if TAG <=? zlen c then Some (ztake (zlen c - TAG) c, {| out_count := out_count t; in_count := S (in_count t) |}) else None.

#[export] Instance toy_noise : Noise := {|
  HandshakeState := nat; TransportState := Toy;
  build _ _ := Some 0%nat;
  hs_write n := Some ([Byte.x01], S n);
  hs_read n _ := Some (S n);
  get_handshake_hash _ := zrep 32 Byte.x07;
  into_transport_mode _ := Some {| out_count := 0; in_count := 0 |};
  write_message := toy_write; read_message := toy_read;
  linked a b := out_count a = in_count b |}.

Lemma padded p : zlen (p ++ zrep TAG Byte.x00) = zlen p + TAG.
Proof. by rewrite zlen_app. Qed.

#[export] Instance toy_noise_laws : NoiseLaws toy_noise.
Proof.
  split; cbn.
  - by intros h m h' [= <- <-].
  - done.
  - intros t p c t'. unfold toy_write. destruct (_ <=? _) eqn:Hl; [|done]. intros [= <- <-]. bools.
    rewrite padded. split; [done|lia].
  - intros t p Hp. unfold toy_write. rewrite (proj2 (Z.leb_le _ _) Hp). by eexists.
  - intros ka kb a0 b0 _ _. by repeat (eexists || split).
  - intros a b p c a' Hl. unfold toy_write, toy_read. destruct (_ <=? _) eqn:Hp; [|done]. intros [= <- <-].
    rewrite padded. pose proof (zlen_nonneg p).
    replace (TAG <=? zlen p + TAG) with true by (symmetry; apply Z.leb_le; unfold TAG; lia).
    rewrite ztake_app_l by lia. eexists. split; [done|]. cbn. by rewrite Hl.
  - intros a b p c b' Hl. unfold toy_write. destruct (_ <=? _); [|done]. by intros [= _ <-].
  - intros a b p c a' Hl. unfold toy_read. destruct (_ <=? _); [|done]. by intros [= _ <-].
  - intros t c p t1 q d t2. unfold toy_read, toy_write. destruct (TAG <=? zlen c); [|done].
    destruct (zlen q + TAG <=? MAX_MESSAGE); [|done]. intros [= <- <-] [= <- <-]. by eexists.
Qed.
End ToyNoise.

(** ** Examples *)

Import ToyNoise ToyEd.

Definition ada : bytes := zrep 32 Byte.x01.
Definition bob : bytes := zrep 32 Byte.x02.

Lemma friends_get_one_session_witness :
  exists from_a from_b sa sb,
    (forall w more, at_wire w (from_b ++ more) [] ->
       exists w', execute_handshake [] true ada [bob] w = (Ok sa, w') /\ at_wire w' more from_a) /\
    (forall w more, at_wire w (from_a ++ more) [] ->
       exists w', execute_handshake [] false bob [ada] w = (Ok sb, w') /\ at_wire w' more from_b) /\
    master_secret sa = master_secret sb /\
    remote_static_key sa = verifying_key bob /\ remote_static_key sb = verifying_key ada /\
    linked (transport sa) (transport sb) /\ linked (transport sb) (transport sa).
Proof.
  eapply (friends_get_one_session [] [] _ _ ada bob [bob] [ada]);
    [reflexivity|reflexivity|reflexivity|reflexivity|by apply list_elem_of_singleton|by apply list_elem_of_singleton].
Defined.

(** Against an end that sends nothing. *)
Definition silent : Wire := {| input := {| segments := []; broken := false |}; output := {| written := []; room := None |} |}.

Lemma handshake_pins_witness :
  let (r, w') := execute_handshake [] true ada [bob] silent in
  r <> Panic /\
  forall s, r = Ok s ->
    remote_static_key s ∈ [bob] /\ (exists sig, verify_strict (remote_static_key s) (master_secret s) sig = true) /\
    exists n0 n w1, build true [] = Some n0 /\ exchange true n0 silent = (Ok n, w1) /\
      master_secret s = get_handshake_hash n.
Proof.
  apply (handshake_pins (fun k m => exists sig, verify_strict k m sig = true) [] true ada [bob] silent); [constructor|].
  intros k m sig _ Hv. by exists sig.
Defined.
