(* ===== verification/Pumps.v ===== *)
(** * The encrypted tunnel

    [start_multiplexer] in [p2p-sync/src/transport.rs]: the two tasks that carry the
    multiplexer's bytes over the Noise transport, which they share. *)

From Stdlib Require Import Strings.Byte.
From stdpp Require Import list relations.
From S2P Require Import Prelude LiveError StateM Framing Noise.

(** ** One end

    [pending] is what the multiplexer has written and the outbound task not yet read,
    [taken] what it has read, [wire] what is on the way to the other end, [delivered]
    what the inbound task has given to the multiplexer. *)
Section pumps.
Context `{Noise}.

Record side := {
  ts : TransportState;
  pending : bytes;
  taken : bytes;
  wire : bytes;
  delivered : bytes;
  outbound_up : bool;
  inbound_up : bool;
}.

Definition PLAIN_BUF : Z := 65000.

(** The multiplexer writes. *)
Definition write_pending (b : bytes) (s : side) : side :=
  {| ts := ts s; pending := pending s ++ b; taken := taken s; wire := wire s; delivered := delivered s;
     outbound_up := outbound_up s; inbound_up := inbound_up s |}.

(** One turn of the outbound task, when the read gives [n] bytes. *)
Definition outbound (n : Z) (s : side) : side :=
  let plain := ztake n (pending s) in
  match write_message (ts s) plain with
  | Some (c, t) =>
      {| ts := t; pending := zdrop n (pending s); taken := taken s ++ plain;
         wire := wire s ++ be_bytes 2 (zlen c mod 2 ^ 16) ++ c; delivered := delivered s;
         outbound_up := outbound_up s; inbound_up := inbound_up s |}
  | None =>
      {| ts := ts s; pending := zdrop n (pending s); taken := taken s ++ plain; wire := wire s;
         delivered := delivered s; outbound_up := false; inbound_up := inbound_up s |}
  end.

(** [read_u16] and [read_exact], once the bytes are there. *)
Definition next_message (w : bytes) : option (bytes * bytes) :=
  let len := be_val (ztake 2 w) in
  if (2 <=? zlen w) && (2 + len <=? zlen w) then Some (ztake len (zdrop 2 w), zdrop (2 + len) w) else None.

(** One turn of the inbound task, on a message that has arrived. *)
Definition inbound (c : bytes) (s : side) : side :=
  match read_message (ts s) c with
  | Some (p, t) =>
      {| ts := t; pending := pending s; taken := taken s; wire := wire s; delivered := delivered s ++ p;
         outbound_up := outbound_up s; inbound_up := inbound_up s |}
  | None =>
      {| ts := ts s; pending := pending s; taken := taken s; wire := wire s; delivered := delivered s;
         outbound_up := outbound_up s; inbound_up := false |}
  end.

Definition set_wire (w : bytes) (s : side) : side :=
  {| ts := ts s; pending := pending s; taken := taken s; wire := w; delivered := delivered s;
     outbound_up := outbound_up s; inbound_up := inbound_up s |}.

(** ** Both ends

    The tasks of the first end, in any order; the mutex around the transport makes
    each encryption and decryption one step. *)
Inductive pump : side * side -> side * side -> Prop :=
  | pump_out a b n :
      outbound_up a = true -> 0 < n <= PLAIN_BUF -> n <= zlen (pending a) ->
      pump (a, b) (outbound n a, b)
  | pump_in a b c rest :
      inbound_up a = true -> next_message (wire b) = Some (c, rest) ->
      pump (a, b) (inbound c a, set_wire rest b).

Definition flip (s : side * side) : side * side := (s.2, s.1).

(** The tasks of either end; and what the multiplexers may write. *)
Definition pumps (s s' : side * side) : Prop := pump s s' \/ pump (flip s) (flip s').
Inductive tunnel : side * side -> side * side -> Prop :=
  | tunnel_pump s s' : pumps s s' -> tunnel s s'
  | tunnel_first a b p : tunnel (a, b) (write_pending p a, b)
  | tunnel_second a b p : tunnel (a, b) (a, write_pending p b).

Definition fresh (t : TransportState) : side :=
  {| ts := t; pending := []; taken := []; wire := []; delivered := []; outbound_up := true; inbound_up := true |}.

(** What one multiplexer has written. *)
Definition given (s : side) : bytes := taken s ++ pending s.

(** ** Lemmas *)

Context `{!NoiseLaws _}.

Fixpoint reads (t : TransportState) (cs : list bytes) : option (list bytes * TransportState) :=
  match cs with
  | [] => Some ([], t)
  | c :: cs => '(p, t) ← read_message t c; '(ps, t) ← reads t cs; Some (p :: ps, t)
  end.

Lemma reads_snoc t cs ps t1 c p t2 :
  reads t cs = Some (ps, t1) -> read_message t1 c = Some (p, t2) -> reads t (cs ++ [c]) = Some (ps ++ [p], t2).
Proof.
  revert t ps. induction cs as [|d cs IH]; intros t ps; cbn.
  - intros [= <- <-]. by intros ->.
  - destruct (read_message t d) as [[q t']|]; [|done]. cbn. destruct (reads t' cs) as [[qs t'']|] eqn:Hr; [|done].
    cbn. intros [= <- ->] Hc. by rewrite (IH _ _ Hr Hc).
Qed.

Lemma reads_write t cs ps t1 q d t' :
  reads t cs = Some (ps, t1) -> write_message t q = Some (d, t') ->
  exists t1', reads t' cs = Some (ps, t1') /\ write_message t1 q = Some (d, t1').
Proof.
  revert t t' ps. induction cs as [|c cs IH]; intros t t' ps; cbn.
  - intros [= <- <-] Hw. by exists t'.
  - destruct (read_message t c) as [[p t2]|] eqn:Hc; [|done]. cbn.
    destruct (reads t2 cs) as [[qs t3]|] eqn:Hr; [|done]. cbn. intros [= <- ->] Hw.
    destruct (directions _ _ _ _ _ _ _ Hc Hw) as (t2' & Hc' & Hw2). destruct (IH _ _ _ Hr Hw2) as (t1' & Hr' & Hw1).
    exists t1'. rewrite Hc'. cbn. by rewrite Hr'.
Qed.

Lemma next_message_sized c rest : zlen c <= MAX_MESSAGE -> next_message (sized c ++ rest) = Some (c, rest).
Proof.
  unfold MAX_MESSAGE, next_message, sized. intros Hc. pose proof (zlen_nonneg c). pose proof (zlen_nonneg rest).
  rewrite <- app_assoc. rewrite (ztake_app_l 2) by (by rewrite zlen_be_bytes).
  rewrite be_val_small by (change (256 ^ Z.of_nat 2) with 65536; lia).
  rewrite !zlen_app, zlen_be_bytes. rewrite (proj2 (Z.leb_le _ _)), (proj2 (Z.leb_le _ _)) by lia. cbn [andb].
  rewrite (zdrop_app_l 2) by (by rewrite zlen_be_bytes). rewrite ztake_app_l by done.
  rewrite app_assoc, zdrop_app_l by (rewrite zlen_app, zlen_be_bytes; lia). done.
Qed.

(** One direction: what is on the wire can be read to the end, and is what was taken
    and not yet delivered. *)
Definition direction (a b : side) : Prop :=
  outbound_up a = true /\ inbound_up b = true /\
  exists cs ps t, wire a = concat (map sized cs) /\ Forall (fun c => zlen c <= MAX_MESSAGE) cs /\
    reads (ts b) cs = Some (ps, t) /\ linked (ts a) t /\ taken a = delivered b ++ concat ps.

Lemma outbound_runs n a :
  n <= PLAIN_BUF -> exists c t, write_message (ts a) (ztake n (pending a)) = Some (c, t) /\
    outbound n a = {| ts := t; pending := zdrop n (pending a); taken := taken a ++ ztake n (pending a);
      wire := wire a ++ sized c; delivered := delivered a; outbound_up := outbound_up a; inbound_up := inbound_up a |}.
Proof.
  intros Hn. pose proof (zlen_nonneg (pending a)).
  destruct (write_fits (ts a) (ztake n (pending a))) as [[c t] Hw].
  { unfold PLAIN_BUF, TAG, MAX_MESSAGE in *. zl. }
  exists c, t. split; [done|]. unfold outbound. cbv zeta. rewrite Hw. unfold sized.
  destruct (write_length _ _ _ _ Hw) as [_ Hc]. unfold MAX_MESSAGE in Hc. pose proof (zlen_nonneg c).
  by rewrite Z.mod_small by lia.
Qed.

Lemma out_forward n a b : n <= PLAIN_BUF -> direction a b -> direction (outbound n a) b.
Proof.
  intros Hn (Hu & Hi & cs & ps & t & Hw & Hall & Hr & Hl & Ht).
  destruct (outbound_runs n a Hn) as (c & ta & Hc & ->). destruct (linked_delivers _ _ _ _ _ Hl Hc) as (t' & Hread & Hl').
  split_and!; [done|done|]. exists (cs ++ [c]), (ps ++ [ztake n (pending a)]), t'. cbn [wire ts taken].
  rewrite map_app, !concat_app, Hw, Ht, Forall_app. cbn [map concat]. rewrite !app_nil_r, <- app_assoc.
  split_and!; [done|done| |by eapply reads_snoc|done|done].
  constructor; [|done]. by destruct (write_length _ _ _ _ Hc).
Qed.

Lemma out_backward n a b : n <= PLAIN_BUF -> direction b a -> direction b (outbound n a).
Proof.
  intros Hn (Hu & Hi & cs & ps & t & Hw & Hall & Hr & Hl & Ht).
  destruct (outbound_runs n a Hn) as (c & ta & Hc & ->).
  destruct (reads_write _ _ _ _ _ _ _ Hr Hc) as (t' & Hr' & Hw').
  split_and!; [done|done|]. exists cs, ps, t'. split_and!; [done|done|done| |done]. by eapply linked_write.
Qed.

(** The next message of a direction is the oldest that is on the wire. *)
Lemma in_runs a b c rest :
  direction b a -> next_message (wire b) = Some (c, rest) ->
  exists p t, read_message (ts a) c = Some (p, t) /\
    inbound c a = {| ts := t; pending := pending a; taken := taken a; wire := wire a; delivered := delivered a ++ p;
                     outbound_up := outbound_up a; inbound_up := inbound_up a |} /\
    direction (set_wire rest b) (inbound c a).
Proof.
  intros (Hu & Hi & cs & ps & t & Hw & Hall & Hr & Hl & Ht) Hn. destruct Hall as [|d cs Hd Hall].
  { rewrite Hw in Hn. done. }
  rewrite Hw in Hn. cbn [map concat] in Hn. rewrite next_message_sized in Hn by done. injection Hn as <- <-.
  cbn [reads] in Hr. destruct (read_message (ts a) d) as [[p t1]|] eqn:Hread; [|done]. cbn in Hr.
  destruct (reads t1 cs) as [[qs t2]|] eqn:Hrs; [|done]. cbn in Hr. injection Hr as <- ->.
  exists p, t1. split; [done|]. unfold inbound. rewrite Hread. split; [done|].
  split_and!; [done|done|]. exists cs, qs, t. cbn [wire set_wire ts taken delivered].
  split_and!; [done|done|done|done|]. by rewrite Ht, <- app_assoc.
Qed.

Lemma in_forward a b c rest :
  direction a b -> direction b a -> next_message (wire b) = Some (c, rest) -> direction (inbound c a) (set_wire rest b).
Proof.
  intros (Hu & Hi & cs & ps & t & Hw & Hall & Hr & Hl & Ht) Hba Hn.
  destruct (in_runs a b c rest Hba Hn) as (p & t1 & Hread & -> & _).
  split_and!; [done|done|]. exists cs, ps, t. cbn. split_and!; [done|done|done| |done]. by eapply linked_read.
Qed.

Definition connected (s : side * side) : Prop := direction s.1 s.2 /\ direction s.2 s.1.

Lemma pump_connected s s' : pump s s' -> connected s -> connected s'.
Proof.
  intros [a b n Hu Hn Hp|a b c rest Hu Hn] [Hab Hba]; cbn [fst snd] in *.
  - split; cbn; [apply out_forward|apply out_backward]; try lia; done.
  - split; cbn; [by apply in_forward|]. by destruct (in_runs a b c rest Hba Hn) as (p & t & _ & _ & Hd).
Qed.

Lemma pumps_connected s s' : pumps s s' -> connected s -> connected s'.
Proof.
  intros [Hp|Hp] Hc; [by eapply pump_connected|]. destruct Hc as [Hab Hba].
  assert (Hf : connected (flip s')) by (eapply pump_connected; [exact Hp|by split]). by destruct Hf.
Qed.

Lemma tunnel_connected s s' : tunnel s s' -> connected s -> connected s'.
Proof. intros [x x' Hp|a b p|a b p] Hc; [by eapply pumps_connected|exact Hc|exact Hc]. Qed.

Lemma start_connected ta tb : linked ta tb -> linked tb ta -> connected (fresh ta, fresh tb).
Proof. intros Ha Hb. split; (split_and!; [done|done|]); [exists [], [], tb|exists [], [], ta]; by split_and!. Qed.

Lemma tunnels_connected s s' : rtc tunnel s s' -> connected s -> connected s'.
Proof. induction 1 as [s|s1 s2 s3 Hs _ IH]; [done|]. intros Hc. by eapply IH, tunnel_connected. Qed.

(** *** Emptying the tunnel *)

Lemma flip_pumps s s' : pumps s s' -> pumps (flip s) (flip s').
Proof. destruct s, s'. intros [Hp|Hp]; [by right|by left]. Qed.

Lemma flip_pumps_rtc s s' : rtc pumps s s' -> rtc pumps (flip s) (flip s').
Proof.
  induction 1 as [s|s1 s2 s3 Hs _ IH]; [apply rtc_refl|]. eapply rtc_l; [by apply flip_pumps|done].
Qed.

(** The outbound task reads on until nothing is pending. *)
Lemma drain_pending k a b :
  (length (pending a) <= k)%nat -> connected (a, b) ->
  exists a', rtc pumps (a, b) (a', b) /\ pending a' = [] /\ given a' = given a /\ delivered a' = delivered a.
Proof.
  revert a. induction k as [|k IH]; intros a Hk Hc.
  { exists a. split; [apply rtc_refl|]. destruct (pending a); [by split_and!|cbn in Hk; lia]. }
  destruct (decide (pending a = [])) as [He|Hne]; [exists a; split; [apply rtc_refl|by split_and!]|].
  assert (Hpos : 0 < zlen (pending a)) by (destruct (pending a); [done|]; rewrite zlen_cons; pose_zlens; lia).
  set (n := Z.min PLAIN_BUF (zlen (pending a))).
  assert (Hn : 0 < n <= PLAIN_BUF /\ n <= zlen (pending a)) by (unfold n, PLAIN_BUF in *; lia).
  pose proof Hc as [(Hu & _) _]. cbn [fst] in Hu.
  assert (Hstep : pumps (a, b) (outbound n a, b)) by (left; destruct Hn; by apply pump_out).
  destruct (outbound_runs n a) as (c & t & _ & Ho); [lia|].
  destruct (IH (outbound n a)) as (a' & Hr & Hp & Hg & Hd).
  - rewrite Ho. cbn [pending]. unfold zdrop, zlen in *. rewrite length_drop. lia.
  - by eapply pumps_connected.
  - exists a'. split; [by eapply rtc_l|]. rewrite Hg, Hd, Ho. unfold given. cbn [taken pending delivered].
    by rewrite <- app_assoc, ztake_zdrop.
Qed.

(** The inbound task reads on until nothing is on the wire. *)
Lemma drain_wire k a b :
  (length (wire b) <= k)%nat -> connected (a, b) ->
  exists a' b', rtc pumps (a, b) (a', b') /\ wire b' = [] /\ given a' = given a /\ given b' = given b /\
    pending a' = pending a /\ pending b' = pending b /\ wire a' = wire a /\ delivered b' = delivered b.
Proof.
  revert a b. induction k as [|k IH]; intros a b Hk Hc.
  { exists a, b. split; [apply rtc_refl|]. destruct (wire b); [by split_and!|cbn in Hk; lia]. }
  pose proof Hc as [Hab Hba]. cbn [fst snd] in *. pose proof Hba as (_ & Hi & cs & ps & t & Hw & Hall & _).
  destruct Hall as [|c cs Hlen Hall]; [exists a, b; split; [apply rtc_refl|by split_and!]|].
  cbn [map concat] in Hw.
  assert (Hnext : next_message (wire b) = Some (c, concat (map sized cs))) by (rewrite Hw; by apply next_message_sized).
  assert (Hstep : pumps (a, b) (inbound c a, set_wire (concat (map sized cs)) b)) by (left; by apply pump_in).
  destruct (in_runs a b c _ Hba Hnext) as (p & t1 & _ & Hin & _).
  destruct (IH (inbound c a) (set_wire (concat (map sized cs)) b)) as (a' & b' & Hr & Hrest).
  - cbn [wire set_wire]. rewrite Hw, length_app in Hk. unfold sized at 1 in Hk. rewrite length_app, be_bytes_length in Hk. lia.
  - by eapply pumps_connected.
  - exists a', b'. split; [by eapply rtc_l|]. rewrite Hin in Hrest. exact Hrest.
Qed.

Lemma direction_empty a b : direction a b -> wire a = [] -> delivered b = taken a.
Proof.
  intros (_ & _ & cs & ps & t & Hw & _ & Hr & _ & Ht) He. destruct cs as [|c cs].
  - cbn in Hr. injection Hr as <- _. by rewrite Ht, app_nil_r.
  - rewrite Hw in He. unfold sized in He. cbn in He. apply app_eq_nil in He as [He _]. apply app_eq_nil in He as [He _].
    apply (f_equal length) in He. by rewrite be_bytes_length in He.
Qed.

(** C28: The tunnel between two linked transports is a pair of reliable streams.  In
    every interleaving of the tasks of both ends, whatever the multiplexers write and
    however much each read takes: no task ever stops; what one multiplexer has been
    given is a prefix of what the other has written, in both directions; and from any
    state the tasks can bring over everything that has been written. *)
Theorem tunnel_is_reliable ta tb a b :
  linked ta tb -> linked tb ta -> rtc tunnel (fresh ta, fresh tb) (a, b) ->
  outbound_up a = true /\ inbound_up a = true /\ outbound_up b = true /\ inbound_up b = true /\
  delivered b `prefix_of` given a /\ delivered a `prefix_of` given b /\
  exists a' b', rtc pumps (a, b) (a', b') /\ given a' = given a /\ given b' = given b /\
    delivered b' = given a /\ delivered a' = given b.
Proof.
  intros Hta Htb Hr. pose proof (tunnels_connected _ _ Hr (start_connected ta tb Hta Htb)) as Hc.
  assert (Hpre : forall x y, direction x y -> delivered y `prefix_of` given x).
  { intros x y (_ & _ & cs & ps & t & _ & _ & _ & _ & Ht). exists (concat ps ++ pending x).
    unfold given. by rewrite Ht, <- app_assoc. }
  pose proof Hc as [Hab Hba]. cbn [fst snd] in *. pose proof Hab as (? & ? & _). pose proof Hba as (? & ? & _).
  split_and!; [done..|by apply Hpre|by apply Hpre|].
  assert (Hgo : forall s s', rtc pumps s s' -> connected s -> connected s').
  { intros s s'. induction 1 as [s|s1 s2 s3 Hs _ IH]; [done|]. intros Hcs. by eapply IH, pumps_connected. }
  destruct (drain_pending (length (pending a)) a b) as (a1 & R1 & P1 & G1 & D1); [lia|done|].
  pose proof (Hgo _ _ R1 Hc) as C1.
  destruct (drain_pending (length (pending b)) b a1) as (b1 & R2 & P2 & G2 & D2); [lia|by destruct C1|].
  apply flip_pumps_rtc in R2. unfold flip in R2. cbn [fst snd] in R2. pose proof (Hgo _ _ R2 C1) as C2.
  destruct (drain_wire (length (wire b1)) a1 b1) as (a2 & b2 & R3 & W2 & G3 & G4 & P3 & P4 & W3 & D3); [lia|done|].
  pose proof (Hgo _ _ R3 C2) as C3.
  destruct (drain_wire (length (wire a2)) b2 a2) as (b3 & a3 & R4 & W4 & G5 & G6 & P5 & P6 & W5 & D4); [lia|by destruct C3|].
  apply flip_pumps_rtc in R4. unfold flip in R4. cbn [fst snd] in R4. pose proof (Hgo _ _ R4 C3) as [Hab3 Hba3].
  cbn [fst snd] in *. exists a3, b3.
  assert (Hga : given a3 = given a) by congruence. assert (Hgb : given b3 = given b) by congruence.
  assert (Hta3 : taken a3 = given a3) by (unfold given; rewrite P6, P3, P1; by rewrite app_nil_r).
  assert (Htb3 : taken b3 = given b3) by (unfold given; rewrite P5, P4, P2; by rewrite app_nil_r).
  split_and!; [|done|done| |].
  - etrans; [exact R1|]. etrans; [exact R2|]. by etrans; [exact R3|].
  - rewrite <- Hga, <- Hta3. by apply direction_empty.
  - rewrite <- Hgb, <- Htb3. apply direction_empty; [done|congruence].
Qed.
End pumps.

(** ** An example: one message each way *)

Import ToyNoise.

Definition toy_start : @TransportState toy_noise := {| out_count := 0; in_count := 0 |}.
Definition hello : side * side :=
  (write_pending (lit "hello") (fresh toy_start), write_pending (lit "hi") (fresh toy_start)).

Lemma tunnel_is_reliable_witness :
  exists a' b', rtc pumps hello (a', b') /\ delivered b' = lit "hello" /\ delivered a' = lit "hi".
Proof.
  assert (Hr : rtc tunnel (fresh toy_start, fresh toy_start) hello).
  { eapply rtc_l; [apply (tunnel_first _ _ (lit "hello"))|]. eapply rtc_l; [apply (tunnel_second _ _ (lit "hi"))|]. apply rtc_refl. }
  destruct (tunnel_is_reliable toy_start toy_start _ _ eq_refl eq_refl Hr) as (_ & _ & _ & _ & _ & _ & a' & b' & Hp & _ & _ & Ha & Hb).
  exists a', b'. exact (conj Hp (conj Ha Hb)).
Defined.
