(* ===== verification/Proposal.v ===== *)
(** * A vault handed to a friend

    The older route, end to end: [atom/src/commands/sync.rs] and the connection of
    [p2p-sync/src/lib.rs] on one side, the daemon's loop ([atom/src/commands/daemon.rs])
    on the other. *)

From Stdlib Require Import Strings.Byte.
From stdpp Require Import strings gmap.
From S2P Require Import Prelude Keyed Text Primitives StateM ConfigFile VaultOps Paths AtomLink Noise Friends.

(** ** Messages ([SyncMessage] of [p2p_utils.rs])

    One line of JSON each: the text has no line feed, and is read back with it. *)
Inductive SyncMessage :=
  | Proposal (filename : str) (last_modified : Z)
  | Accepted (action : str)
  | Rejected.

Definition LF : byte := Byte.x0a.

Class MessageJson := { msg_to_json : SyncMessage -> str; msg_from_json : str -> option SyncMessage }.
Class MessageJsonLaws (J : MessageJson) := {
  msg_read_back : forall m, msg_from_json (msg_to_json m ++ [LF]) = Some m;
  msg_one_line : forall m, LF ∉ msg_to_json m;
  msg_utf8 : forall m, from_utf8 (msg_to_json m ++ [LF]) = Some (msg_to_json m ++ [LF]);
}.

(** [AsyncBufReadExt::read_line]: the line with its end, and what is left. *)
Fixpoint read_line (b : bytes) : bytes * bytes :=
  match b with
  | [] => ([], [])
  | c :: b => if decide (c = LF) then ([c], b) else let (l, r) := read_line b in (c :: l, r)
  end.

Section proposal.
Context `{UnicodeCase} `{Aead} `{Base32} `{Ed25519} `{Serde FriendRecord} `{Noise} `{MessageJson}.

(** ** The daemon *)

(** One turn of its loop: a connection, and whose it is. *)
Definition on_connection (temp local : bytes) (w : Wire) : H (option (str * VaultSession)) :=
  let! friends := load_friends in
  let! authorized := lift (authorized_keys friends) in
  match fst (execute_handshake temp false local authorized w) with
  | Ok s =>
      let! nick := lift (connected_nick (remote_static_key s) friends) in
      mret (Some (nick, s))
  | Err _ => mret None
  | Panic => lift Panic
  end.

(** The task of a session, on its first stream: [incoming] is what arrives on it before
    it ends, [can_reply] whether the reply can be written. *)
Definition on_data_stream (nick : str) (incoming : bytes) (can_reply : bool) (ask : SyncResponse) : H (option reply) :=
  let (line, rest) := read_line incoming in
  match s ← from_utf8 line; msg_from_json s with
  | Some (Proposal filename modified) =>
      let! r := handle_proposal nick filename modified ask {| sends := can_reply; payload := rest |} in
      mret (Some r)
  | _ => mret None
  end.

(** A connection, up to the end of its first stream. *)
Definition daemon_serve (temp local : bytes) (w : Wire) (incoming : bytes) (can_reply : bool) (ask : SyncResponse)
    : H (option reply) :=
  let! c := on_connection temp local w in
  match c with
  | Some (nick, _) => on_data_stream nick incoming can_reply ask
  | None => mret None
  end.

(** ** The sender *)

(** What the system and the network do: the folders and the configuration of the Tor
    client, the time limits, the address dialled, the multiplexed stream, how much can
    be written to it, and what is read from it ([None]: an error). *)
Record Net := {
  state_dir : bool;
  state_dir_utf8 : bool;
  config : bool;
  bootstrapped : bool;
  dials : str -> option Wire;
  temp_key : bytes;
  in_time : bool;
  stream_opens : bool;
  room : option Z;
  replies : option bytes;
  modified : str -> option Z;
}.

Record Sender := { home : Home; sent : bytes }.

Definition on_home {A} (m : H A) : M error Sender A := fun s =>
  let (r, h) := m (home s) in (r, {| home := h; sent := sent s |}).

(** [AtomSyncManager::connect_to_friend]. *)
Definition connect_to_friend (n : Net) (onion_address : str) (friend_identity local_identity : bytes)
    : outcome error VaultSession :=
  if negb (state_dir_utf8 n) then Err (App "Client state directory path contains invalid UTF-8") else
  if negb (config n) then Err (App "Failed to build Tor config") else
  if negb (bootstrapped n) then Err (App "Tor bootstrap timed out after 60s") else
  if negb (bool_decide (is_Some (strip_suffix onion_suffix onion_address)))
  then Err (App "Security Violation: Attempted to dial a non-onion clearnet address") else
  match dials n onion_address with
  | None => Err (App "Circuit timeout")
  | Some w =>
      if negb (in_time n) then Err (App "Noise handshake timed out") else
      map_err (fun _ => App "Handshake")
        (fst (execute_handshake (temp_key n) true local_identity [friend_identity] w))
  end.

Definition write_out (n : Net) (b : bytes) : M error Sender unit := fun s =>
  match room n with
  | Some k =>
      if zlen (sent s ++ b) <=? k then (Ok tt, {| home := home s; sent := sent s ++ b |})
      else (Err Io, {| home := home s; sent := ztake k (sent s ++ b) |})
  | None => (Ok tt, {| home := home s; sent := sent s ++ b |})
  end.

Definition message_line (m : SyncMessage) : bytes := msg_to_json m ++ [LF].

Inductive sync_outcome := Pushed (bytes_sent : Z) | WasRejected | InvalidResponse | Dropped.

(** [sync_core], up to the tunnel: the proposal. *)
Definition sync_connect (n : Net) (vault_path friend_nickname : str) : M error Sender SyncMessage :=
  let! friends := on_home load_friends in
  match find_key nickname friend_nickname friends with
  | None => fails (App "not found in address book")
  | Some friend =>
      let! (onion_address, friend_pubkey) := lift (uri (parse_atom_uri (url friend))) in
      let! local_identity := on_home get_or_create_identity in
      if negb (state_dir n) then fails Io else
      let! last_modified := lift (ok_or (modified n vault_path) Io) in
      let! filename := lift (or_panic (file_name vault_path)) in
      let! _ := lift (map_err (fun _ => App "Network connection failed")
        (connect_to_friend n onion_address friend_pubkey local_identity)) in
      mret (Proposal (from_utf8_lossy filename) last_modified)
  end.

(** The rest of [sync_core]: the exchange on the stream. *)
Definition sync_exchange (n : Net) (vault_path : str) (proposal : SyncMessage) : M error Sender sync_outcome :=
  if negb (stream_opens n) then fails (App "Failed to open Yamux stream") else
  let! _ := write_out n (message_line proposal) in
  let! reply_line := lift (ok_or (b ← replies n; from_utf8 (fst (read_line b))) Io) in
  match msg_from_json reply_line with
  | Some (Accepted _) =>
      let! content := (fun s => (ok_or (documents (home s) !! vault_path) Io, s)) in
      let! _ := write_out n content in
      mret (Pushed (zlen content))
  | Some Rejected => mret WasRejected
  | Some (Proposal _ _) => mret InvalidResponse
  | None => mret Dropped
  end.

Definition sync_core (n : Net) (vault_path friend_nickname : str) : M error Sender sync_outcome :=
  let! proposal := sync_connect n vault_path friend_nickname in
  sync_exchange n vault_path proposal.
End proposal.

(** ** Lemmas *)

Lemma read_line_at x rest : LF ∉ x -> read_line (x ++ LF :: rest) = (x ++ [LF], rest).
Proof.
  induction x as [|c x IH]; intros Hx; [done|]. apply not_elem_of_cons in Hx as [Hc Hx].
  cbn [app read_line]. rewrite decide_False by done. by rewrite IH.
Qed.

Section lemmas.
Context `{UnicodeCase} `{Aead} `{Base32} `{Ed25519} `{Serde FriendRecord} `{Noise} `{MessageJson} `{!MessageJsonLaws _}.

Lemma message_line_read m rest : read_line (message_line m ++ rest) = (message_line m, rest).
Proof. unfold message_line. rewrite <- app_assoc. apply read_line_at, msg_one_line. Qed.

Lemma msg_back m : msg_from_json (message_line m) = Some m.
Proof. apply msg_read_back. Qed.

Lemma message_line_alone m : read_line (message_line m) = (message_line m, []).
Proof. pose proof (message_line_read m []) as Hm. by rewrite app_nil_r in Hm. Qed.

Lemma line_message m : (s ← from_utf8 (message_line m); msg_from_json s) = Some m.
Proof. unfold message_line. rewrite msg_utf8. apply msg_read_back. Qed.

(** ** What a proposal comes to, on the book alone *)

Definition shared_as (nick filename : str) (l : list FriendRecord) : option SharedVault :=
  f ← find_key nickname nick l; find_key original_name filename (shared_vaults f).

(** Where the vault goes: to the place agreed when it was first shared, else to the
    one the user names on accepting; an empty path is none. *)
Definition agreed_path (nick filename : str) (ask : SyncResponse) (l : list FriendRecord) : option str :=
  p ← match shared_as nick filename l with
      | Some v => Some (local_path v)
      | None => if accepted ask then save_path ask else None
      end;
  if decide (p = []) then None else Some p.

(** The book afterwards: a vault accepted for the first time is written under its
    friend. *)
Definition noted (nick filename : str) (mtime : Z) (ask : SyncResponse) (l : list FriendRecord) : list FriendRecord :=
  match shared_as nick filename l with
  | None =>
      if accepted ask then
        let v := {| original_name := filename; label := default (lit "Synced Vault") (resp_label ask);
                    local_path := default [] (save_path ask); last_modified := mtime |} in
        update_first (is_key nickname nick) (fun f => with_vaults (shared_vaults f ++ [v]) f) l
      else l
  | Some _ => l
  end.

(** [content] written to [path], as far as the system lets it. *)
Definition stored (path content : bytes) (h : Home) : gmap str bytes :=
  match refused h path with
  | None => <[path := content]> (documents h)
  | Some None => documents h
  | Some (Some k) => <[path := ztake k content]> (documents h)
  end.

Context `{!AeadLaws _} `{!SerdeLaws (A := FriendRecord) _}.

(** What is decided about a proposal does not depend on what follows it. *)
Lemma proposal_decided nick filename mtime ask h l :
  holds FRIENDS h l -> working FRIENDS h -> fits (noted nick filename mtime ask l) ->
  exists h1, documents h1 = documents h /\ refused h1 = refused h /\
    holds FRIENDS h1 (noted nick filename mtime ask l) /\
    forall s, sends s = true -> handle_proposal nick filename mtime ask s h =
      match agreed_path nick filename ask l with
      | Some p => (Ok Accept, snd (receive_into p s h1))
      | None => (Ok Reject, h1)
      end.
Proof.
  intros Hl Hw Hf.
  assert (Htail : forall (p : str) (h1 : Home) s, sends s = true ->
    (match p with b :: q => if sends s then let! _ := receive_into (b :: q) s in mret Accept else mret Accept
                | [] => mret Reject end) h1 =
    match (if decide (p = []) then None else Some p) with Some p => (Ok Accept, snd (receive_into p s h1)) | None => (Ok Reject, h1) end).
  { intros [|b p] h1 s Hs; [done|]. rewrite decide_False by done. rewrite Hs. unfold mbind, mret.
    destruct (receive_into_only (b :: p) s h1) as (_ & Hok & _). destruct (receive_into (b :: p) s h1) as [ro h2].
    cbn in Hok. by subst ro. }
  unfold handle_proposal, load_friends. unfold noted, agreed_path in *.
  destruct (shared_as nick filename l) as [v|] eqn:Hk; unfold shared_as in Hk.
  { exists h. split_and!; [done..|]. intros s Hs. erewrite mbind_Ok by (by apply load_list_holds). cbv zeta. rewrite Hk.
    exact (Htail (local_path v) h s Hs). }
  destruct (accepted ask) eqn:Ha.
  2: { exists h. split_and!; [done..|]. intros s Hs. erewrite mbind_Ok by (by apply load_list_holds). cbv zeta. by rewrite Hk. }
  destruct (write_sealed_holds FRIENDS h _ Hw Hf) as (h1 & Hr & Hh1 & _ & (_ & Hd & Href & _)).
  exists h1. split_and!; [done..|]. intros s Hs. erewrite mbind_Ok by (by apply load_list_holds). cbv zeta. rewrite Hk.
  unfold save_friends. unfold mbind at 1 2 3. rewrite Hr.
  destruct (save_path ask) as [p|]; [|done]. exact (Htail p h1 s Hs).
Qed.

Lemma received_stored p content h h1 :
  documents h1 = documents h -> refused h1 = refused h ->
  documents (snd (receive_into p {| sends := true; payload := content |} h1)) = stored p content h.
Proof. intros Hd Hr. unfold receive_into, stored. rewrite Hr, <- Hd. by destruct (refused h p) as [[k|]|]. Qed.

Lemma received_holds p s h (l : list FriendRecord) : holds FRIENDS h l -> holds FRIENDS (snd (receive_into p s h)) l.
Proof. unfold receive_into, holds. by destruct (refused h p) as [[k|]|]. Qed.

(** The proposal's line on the stream, and what follows it. *)
Lemma on_data_stream_proposal nick filename mtime ask h rest :
  on_data_stream nick (message_line (Proposal filename mtime) ++ rest) true ask h =
    let (r, h') := handle_proposal nick filename mtime ask {| sends := true; payload := rest |} h in
    (match r with Ok a => Ok (Some a) | Err e => Err e | Panic => Panic end, h').
Proof.
  unfold on_data_stream. rewrite message_line_read, line_message. unfold mbind.
  by destruct (handle_proposal _ _ _ _ _ _) as [[] ?].
Qed.

Lemma reply_line m : (b ← Some (message_line m); from_utf8 (fst (read_line b))) = Some (message_line m).
Proof. cbn. rewrite message_line_alone. cbn. unfold message_line. apply msg_utf8. Qed.

(** The sender, when nothing fails on its side. *)
Lemma exchange_sends n vault_path p content h answer :
  documents h !! vault_path = Some content -> stream_opens n = true -> room n = None ->
  replies n = Some (message_line answer) ->
  match answer with
  | Accepted _ => sync_exchange n vault_path p {| home := h; sent := [] |}
      = (Ok (Pushed (zlen content)), {| home := h; sent := message_line p ++ content |})
  | Rejected => sync_exchange n vault_path p {| home := h; sent := [] |}
      = (Ok WasRejected, {| home := h; sent := message_line p |})
  | Proposal _ _ => True
  end.
Proof.
  intros Hc Ho Hroom Hrep. destruct answer as [f m|action|]; [done|..]; unfold sync_exchange;
    rewrite Ho, Hrep, reply_line; cbn [negb]; unfold write_out, mbind, lift; rewrite Hroom; cbn [ok_or];
    rewrite msg_back; [|done]. cbn [home]. by rewrite Hc.
Qed.
End lemmas.

(** ** Theorem: end to end *)

Section theorems.
Context `{UnicodeCase} `{Aead} `{!AeadLaws _} `{Base32} `{Ed25519} `{!Serde FriendRecord} `{!SerdeLaws (A := FriendRecord) _}.
Context `{Noise} `{!NoiseLaws _} `{MessageJson} `{!MessageJsonLaws _}.

(** C27: What is agreed is what happens, at both ends.  Where a proposed vault goes is
    decided by the friend's book and the user's answer alone: to the place it was first
    shared to, else to the one the user names on accepting.  The friend decides on the
    proposal, before a byte of the vault.  If there is such a place and the answer
    arrives, the sender sends its whole vault, unchanged at home, and the friend, on
    just what was sent, stores exactly that at exactly that place (as far as the system
    lets it be written), touches no other document, and has a newly shared vault in the
    book.  If there is none, the proposal is all that is sent and no document of the
    friend changes. *)
Theorem vault_handed_over n vault_path filename mtime content ha hb l ask nick :
  documents ha !! vault_path = Some content -> stream_opens n = true -> room n = None ->
  holds FRIENDS hb l -> working FRIENDS hb -> fits (noted nick filename mtime ask l) ->
  let p := Proposal filename mtime in
  match agreed_path nick filename ask l with
  | Some path =>
      fst (on_data_stream nick (message_line p) true ask hb) = Ok (Some Accept) /\
      forall action, replies n = Some (message_line (Accepted action)) ->
      exists s' h', sync_exchange n vault_path p {| home := ha; sent := [] |} = (Ok (Pushed (zlen content)), s') /\
        home s' = ha /\ on_data_stream nick (sent s') true ask hb = (Ok (Some Accept), h') /\
        documents h' = stored path content hb /\ holds FRIENDS h' (noted nick filename mtime ask l)
  | None =>
      fst (on_data_stream nick (message_line p) true ask hb) = Ok (Some Reject) /\
      (replies n = Some (message_line Rejected) ->
      exists s' h', sync_exchange n vault_path p {| home := ha; sent := [] |} = (Ok WasRejected, s') /\
        home s' = ha /\ sent s' = message_line p /\
        on_data_stream nick (sent s') true ask hb = (Ok (Some Reject), h') /\
        documents h' = documents hb /\ holds FRIENDS h' (noted nick filename mtime ask l))
  end.
Proof.
  intros Hc Ho Hroom Hl Hw Hf. cbv zeta.
  destruct (proposal_decided nick filename mtime ask hb l Hl Hw Hf) as (h1 & Hd & Href & Hh1 & Hp).
  assert (Hds : forall rest, on_data_stream nick (message_line (Proposal filename mtime) ++ rest) true ask hb =
    match agreed_path nick filename ask l with
    | Some p => (Ok (Some Accept), snd (receive_into p {| sends := true; payload := rest |} h1))
    | None => (Ok (Some Reject), h1)
    end).
  { intros rest. rewrite on_data_stream_proposal, Hp by done. by destruct (agreed_path _ _ _ _). }
  pose proof (Hds []) as Hnil. rewrite app_nil_r in Hnil.
  destruct (agreed_path nick filename ask l) as [path|]; rewrite Hnil; (split; [done|]).
  - intros action Hrep. eexists _, _. split; [exact (exchange_sends n vault_path _ content ha _ Hc Ho Hroom Hrep)|].
    split; [done|]. cbn [sent]. rewrite Hds. split; [done|]. split; [by apply received_stored|by apply received_holds].
  - intros Hrep. eexists _, _. split; [exact (exchange_sends n vault_path _ content ha _ Hc Ho Hroom Hrep)|].
    split; [done|]. cbn [sent]. by rewrite Hnil.
Qed.

(** ** Theorem: what leaves the sender *)

(** The friend of that nickname is at the other end, by its pinned key, over Tor. *)
Definition reached (n : Net) (h : Home) (nick : str) : Prop :=
  exists l f onion key, load_friends h = (Ok l, h) /\ find_key nickname nick l = Some f /\
    parse_atom_uri (url f) = Ok (onion, key) /\ is_Some (strip_suffix onion_suffix onion) /\
    exists w local s, dials n onion = Some w /\ fst (execute_handshake (temp_key n) true local [key] w) = Ok s /\
      remote_static_key s = key.

Lemma identity_documents h :
  let (r, h') := get_or_create_identity h in documents h' = documents h.
Proof.
  unfold get_or_create_identity, gets. unfold mbind at 1 2 3.
  destruct (files h !! IDENTITY) as [raw|].
  - unfold mbind at 1, lift. destruct (map_err Config _) as [b|e|]; [|done..]. unfold mret at 1.
    destruct (zlen b =? 32); [done|]. unfold mbind. destruct (os_fill 32 (entropy h)) as [[k g]|e|]; [|done..].
    pose proof (write_sealed_only IDENTITY k (set_entropy g h)) as (Hd & _).
    destruct (write_sealed IDENTITY k (set_entropy g h)) as [[[]|e|] h']; done.
  - unfold mret at 1, mbind. destruct (os_fill 32 (entropy h)) as [[k g]|e|]; [|done..].
    pose proof (write_sealed_only IDENTITY k (set_entropy g h)) as (Hd & _).
    destruct (write_sealed IDENTITY k (set_entropy g h)) as [[[]|e|] h']; done.
Qed.

Lemma connect_reached n onion key local s :
  connect_to_friend n onion key local = Ok s ->
  is_Some (strip_suffix onion_suffix onion) /\
  exists w, dials n onion = Some w /\ fst (execute_handshake (temp_key n) true local [key] w) = Ok s /\ remote_static_key s = key.
Proof.
  unfold connect_to_friend. destruct (state_dir_utf8 n); [|done]. destruct (config n); [|done]. destruct (bootstrapped n); [|done]. cbn [negb].
  case_bool_decide as Hon; [|done]. cbn [negb]. destruct (dials n onion) as [w|]; [|done]. destruct (in_time n); [|done].
  cbn [negb]. intros Hs%map_err_Ok. split; [done|]. exists w. split_and!; [done|done|].
  destruct (execute_handshake _ _ _ _ w) as [r w'] eqn:Hr. cbn in Hs. subst r.
  destruct (handshake_Ok _ _ _ _ _ _ _ Hr) as (Hin & _). by apply list_elem_of_singleton in Hin.
Qed.

Lemma sync_connect_spec n vault_path nick h :
  let (r, s') := sync_connect n vault_path nick {| home := h; sent := [] |} in
  documents (home s') = documents h /\ sent s' = [] /\ (forall p, r = Ok p -> reached n h nick).
Proof.
  unfold sync_connect, on_home, mbind, lift. cbn [home sent].
  pose proof (load_list_state (A := FriendRecord) FRIENDS h) as Hst. destruct (load_friends h) as [[l|e|] h0] eqn:Hl;
    unfold load_friends in *; rewrite Hl in Hst; cbn [snd] in Hst; subst h0; [|by split_and!..].
  destruct (find_key nickname nick l) as [f|] eqn:Hf; [|by split_and!].
  destruct (uri (parse_atom_uri (url f))) as [[onion key]|e|] eqn:Hu; [|by split_and!..]. apply map_err_Ok in Hu.
  cbn [home sent]. pose proof (identity_documents h) as Hd. destruct (get_or_create_identity h) as [[local|e|] h1]; [|(split_and!; [exact Hd|done|done])..].
  destruct (state_dir n); [|split_and!; [exact Hd|done|done]]. cbn [negb]. destruct (modified n vault_path) as [m|]; [|split_and!; [exact Hd|done|done]]. cbn [ok_or].
  destruct (file_name vault_path) as [name|]; [|split_and!; [exact Hd|done|done]]. cbn [or_panic].
  destruct (connect_to_friend n onion key local) as [s|e|] eqn:Hc; cbn [map_err]; [|(split_and!; [exact Hd|done|done])..].
  split_and!; [exact Hd|done|]. intros p _. destruct (connect_reached _ _ _ _ _ Hc) as (Hon & w & Hw & Hs & Hk).
  exists l, f, onion, key. split_and!; [done..|]. by exists w, local, s.
Qed.

Lemma write_out_spec n b s :
  let (r, s') := write_out n b s in home s' = home s /\ r <> Panic /\
    sent s' `prefix_of` sent s ++ b /\ (r = Ok tt -> sent s' = sent s ++ b).
Proof.
  unfold write_out. destruct (room n) as [k|]; [destruct (_ <=? k)|]; split_and!; try done. apply prefix_take.
Qed.

(** C31: Nothing of a vault leaves without consent, and nothing at all to anyone but the
    friend named.  Whatever the network and the other end do: the sender's documents do
    not change; if anything is sent, the friend of that nickname has proved its pinned
    key over its onion address; what is sent is no more than the proposal, unless the
    reply is an acceptance, and then at most the proposal and the vault; and a
    successful push has sent both whole. *)
Theorem sync_sends_after_consent n vault_path nick h :
  let (r, s') := sync_core n vault_path nick {| home := h; sent := [] |} in
  documents (home s') = documents h /\
  (sent s' <> [] -> reached n h nick) /\
  (exists p x, sent s' `prefix_of` message_line p ++ x /\
     (x <> [] -> documents h !! vault_path = Some x /\
        exists reply action, replies n = Some reply /\ msg_from_json (fst (read_line reply)) = Some (Accepted action))) /\
  (forall k, r = Ok (Pushed k) -> exists p content, documents h !! vault_path = Some content /\ k = zlen content /\
     sent s' = message_line p ++ content).
Proof.
  unfold sync_core. unfold mbind at 1. pose proof (sync_connect_spec n vault_path nick h) as Hc.
  destruct (sync_connect n vault_path nick _) as [[p|e|] s1]; destruct Hc as (Hd & Hs & Hreach).
  2,3: split_and!; [done|by rewrite Hs| |done]; exists Rejected, []; rewrite Hs; split; [apply prefix_nil|done].
  specialize (Hreach p eq_refl). unfold sync_exchange.
  assert (Hnone : forall s : Sender, sent s `prefix_of` message_line p -> exists p x, sent s `prefix_of` message_line p ++ x /\
     (x <> [] -> documents h !! vault_path = Some x /\
        exists reply action, replies n = Some reply /\ msg_from_json (fst (read_line reply)) = Some (Accepted action))).
  { intros s Hp. exists p, []. by rewrite app_nil_r. }
  destruct (stream_opens n); cbn [negb].
  2: { split_and!; [done|done| |done]. apply Hnone. rewrite Hs. apply prefix_nil. }
  unfold mbind at 1. pose proof (write_out_spec n (message_line p) s1) as Hw.
  destruct (write_out n (message_line p) s1) as [[[]|e|] s2]; destruct Hw as (Hh & _ & Hpre & Hok); rewrite Hs in *.
  2,3: split_and!; [by rewrite Hh|done|by apply Hnone|done].
  specialize (Hok eq_refl). cbn [app] in *. unfold mbind at 1, lift at 1.
  destruct (replies n) as [reply|] eqn:Hrep; cbn [option_bind mbind].
  2: { split_and!; [by rewrite Hh|done|by apply Hnone|done]. }
  change (Some reply ≫= (fun b => from_utf8 (read_line b).1)) with (from_utf8 (fst (read_line reply))).
  destruct (from_utf8 (fst (read_line reply))) as [line|] eqn:Hl; cbn [ok_or].
  2: { split_and!; [by rewrite Hh|done|by apply Hnone|done]. }
  assert (line = fst (read_line reply)) as ->.
  { unfold from_utf8 in Hl. destruct (utf8_valid _); congruence. }
  destruct (msg_from_json (fst (read_line reply))) as [[f m|action|]|] eqn:Hm.
  1,3,4: split_and!; [by rewrite Hh|done|by apply Hnone|done].
  unfold mbind at 1. rewrite Hh, Hd. destruct (documents h !! vault_path) as [content|] eqn:Hcontent; cbn [ok_or].
  2: { split_and!; [by rewrite Hh|done|by apply Hnone|done]. }
  unfold mbind at 1. pose proof (write_out_spec n content s2) as Hw2.
  destruct (write_out n content s2) as [[[]|e|] s3]; destruct Hw2 as (Hh2 & _ & Hpre2 & Hok2); rewrite Hok in *.
  - unfold mret. split_and!; [by rewrite Hh2, Hh|done| |].
    + exists p, content. split; [done|]. intros _. split; [done|]. by exists reply, action.
    + intros k [= <-]. exists p, content. split_and!; [done|done|]. by apply Hok2.
  - split_and!; [by rewrite Hh2, Hh|done| |done].
    exists p, content. split; [done|]. intros _. split; [done|]. by exists reply, action.
  - split_and!; [by rewrite Hh2, Hh|done| |done].
    exists p, content. split; [done|]. intros _. split; [done|]. by exists reply, action.
Qed.
(** ** Theorem: whom the daemon serves *)

Lemma find_by_key_Some k l f : find_by_key k l = Ok (Some f) -> f ∈ l /\ key_of (url f) = Some k.
Proof.
  induction l as [|g l IH]; [done|]. cbn [find_by_key]. unfold has_key, key_of at 1.
  destruct (parse_atom_uri (url g)) as [[o k']|e|] eqn:Hp; cbn [obind]; [|intros Hf; destruct (IH Hf); by split; [right|]|done].
  case_bool_decide as Hk; [|intros Hf; destruct (IH Hf); by split; [right|]].
  intros [= ->]. split; [by left|]. unfold key_of. rewrite Hp. by subst.
Qed.

Lemma find_by_key_None k l ks : find_by_key k l = Ok None -> authorized_keys l = Ok ks -> k ∉ ks.
Proof.
  revert ks. induction l as [|g l IH]; intros ks; [intros _ [= <-]; apply not_elem_of_nil|].
  cbn [find_by_key authorized_keys]. unfold has_key.
  destruct (parse_atom_uri (url g)) as [[o k']|e|]; cbn [obind]; [|by apply IH|done].
  case_bool_decide as Hk; [done|]. intros Hf. destruct (authorized_keys l) as [ks'|e|]; cbn [obind]; [|done..].
  intros [= <-]. apply not_elem_of_cons. split; [congruence|by apply IH].
Qed.

Lemma on_connection_spec temp local w h :
  let (r, h') := on_connection temp local w h in
  h' = h /\ forall nick s, r = Ok (Some (nick, s)) ->
    exists l f, load_friends h = (Ok l, h) /\ f ∈ l /\ nickname f = nick /\
      key_of (url f) = Some (remote_static_key s) /\
      (exists sig, verify_strict (remote_static_key s) (master_secret s) sig = true) /\
      exists n0 n w1, build false temp = Some n0 /\ exchange false n0 w = (Ok n, w1) /\
        master_secret s = get_handshake_hash n.
Proof.
  unfold on_connection, mbind, lift. pose proof (load_list_state (A := FriendRecord) FRIENDS h) as Hst.
  destruct (load_friends h) as [[l|e|] h0] eqn:Hl; unfold load_friends in *; rewrite Hl in Hst; cbn [snd] in Hst; subst h0;
    [|by split..].
  destruct (authorized_keys l) as [ks|e|] eqn:Hks; [|by split..].
  destruct (execute_handshake temp false local ks w) as [r w'] eqn:Hr. cbn [fst].
  destruct r as [s|e|]; [|by split..]. unfold connected_nick.
  destruct (find_by_key (remote_static_key s) l) as [f|e|] eqn:Hf; cbn [obind]; [|by split..].
  split; [done|]. intros nick s' [= <- <-]. destruct (handshake_Ok _ _ _ _ _ _ _ Hr) as (Hin & Hsig & Hex).
  destruct f as [f|]; [|by destruct (find_by_key_None _ _ _ Hf Hks)]. apply find_by_key_Some in Hf as [Hfl Hkey].
  exists l, f. by split_and!.
Qed.

Context (signs : bytes -> bytes -> Prop).

(** C24: A stranger makes the daemon write nothing, and a friend only what was agreed.
    Whoever connects and whatever arrives: if a document changes, the connection is
    from a friend in the book, whose key has signed the hash that the daemon's own three
    messages with this connection came to, the first line of the stream is a proposal,
    and the document is the one agreed earlier for a vault of that name, or the one the
    user has just agreed to. *)
Theorem strangers_write_nothing temp local w incoming can_reply ask h :
  (forall k m sig, verify_strict k m sig = true -> signs k m) ->
  let (r, h') := daemon_serve temp local w incoming can_reply ask h in
  forall p, documents h' !! p <> documents h !! p ->
    exists l f key n0 n w1 filename mtime,
      load_friends h = (Ok l, h) /\ f ∈ l /\ key_of (url f) = Some key /\
      build false temp = Some n0 /\ exchange false n0 w = (Ok n, w1) /\ signs key (get_handshake_hash n) /\
      msg_from_json (fst (read_line incoming)) = Some (Proposal filename mtime) /\ r = Ok (Some Accept) /\
      ((exists v, known_vault h (nickname f) filename = Some v /\ local_path v = p) \/
       (known_vault h (nickname f) filename = None /\ accepted ask = true /\ save_path ask = Some p)).
Proof.
  intros Hsigns. unfold daemon_serve, mret. unfold mbind at 1. pose proof (on_connection_spec temp local w h) as Hc.
  destruct (on_connection temp local w h) as [[[[nick s]|]|e|] h0]; destruct Hc as [-> Hc]; [|by intros p []..].
  destruct (Hc nick s eq_refl) as (l & f & Hl & Hin & Hnick & Hkey & [sig Hsig] & n0 & n & w1 & Hb & He & Hsec). subst nick.
  unfold on_data_stream, mret. destruct (read_line incoming) as [line rest]. cbn [fst].
  destruct (from_utf8 line) as [line'|] eqn:Hu; [|by intros p []].
  assert (line' = line) as -> by (unfold from_utf8 in Hu; destruct (utf8_valid _); congruence).
  change (Some line ≫= (fun s0 => msg_from_json s0)) with (msg_from_json line).
  destruct (msg_from_json line) as [[filename mtime|a|]|] eqn:Hm; [|by intros p []..].
  unfold mbind. destruct (handle_proposal _ _ _ _ _ h) as [r h'] eqn:Hp.
  destruct (proposal_decision _ _ _ _ _ _ _ _ Hp) as (h1 & Hd & _ & [(_ & -> & _)|(-> & q & Hwhy & Hh)]).
  { destruct r as [a|e|]; intros p Hch; by rewrite Hd in Hch. }
  intros p Hch. assert (p = q) as ->.
  { destruct (decide (p = q)) as [|Hpq]; [done|]. exfalso. apply Hch. rewrite <- Hd.
    destruct Hh as [->| ->]; [done|by apply receive_into_only]. }
  rewrite Hsec in Hsig. exists l, f, (remote_static_key s), n0, n, w1, filename, mtime.
  split_and!; [done..|by eapply Hsigns|done|done|].
  destruct Hwhy as [(v & Hv & Hvp & _)|Hw]; [left; by exists v|by right].
Qed.
End theorems.

(** ** Examples *)

(** A message as the binary digits of its code; the line feed is taken off. *)
Module ToyJson.
Abbreviation code := (str * Z + (str + unit))%type.
Definition to_code (m : SyncMessage) : code :=
  match m with Proposal f t => inl (f, t) | Accepted a => inr (inl a) | Rejected => inr (inr tt) end.
Definition of_code (c : code) : SyncMessage :=
  match c with inl (f, t) => Proposal f t | inr (inl a) => Accepted a | inr (inr _) => Rejected end.

#[export] Instance toy_json : MessageJson := {|
  msg_to_json m := ToyBits.to_bits (to_code m);
  msg_from_json s := of_code <$> ToyBits.from_bits (A := code) (removelast s) |}.

Lemma bits_no_line p : LF ∉ ToyBits.bits_of p.
Proof. induction p; cbn; rewrite ?not_elem_of_cons; [by split|by split|apply not_elem_of_nil]. Qed.

#[export] Instance toy_json_laws : MessageJsonLaws toy_json.
Proof.
  split; cbn.
  - intros m. rewrite removelast_last, ToyBits.from_to_bits. cbn. by destruct m.
  - intros m. apply bits_no_line.
  - intros m. apply from_utf8_ascii. unfold ascii. apply Forall_app_2; [apply ToyBits.bits_ascii|by repeat constructor].
Qed.
End ToyJson.

Import Toy ToyEd ToySerde ToyNoise ToyJson.

(** Ada sends a vault; the other end does not have it yet, and its user agrees. *)
Definition ada_home : Home := set_documents (<[lit "/v/mine.atom" := lit "a vault"]> ∅) demo_home.
Definition agreed_network : Net :=
  {| state_dir := true; state_dir_utf8 := true; config := true; bootstrapped := true; dials _ := Some silent; temp_key := []; in_time := true;
     stream_opens := true; room := None; replies := Some (message_line (Accepted (lit "pull_from_you")));
     modified _ := Some 7 |}.
Definition consent : SyncResponse :=
  {| Friends.accepted := true; resp_label := None; save_path := Some (lit "/v/from-ada.atom") |}.

Lemma vault_handed_over_witness :
  exists s' h',
    sync_exchange agreed_network (lit "/v/mine.atom") (Proposal (lit "mine.atom") 7) {| home := ada_home; sent := [] |}
      = (Ok (Pushed 7), s') /\
    on_data_stream (lit "ada") (sent s') true consent demo_home = (Ok (Some Accept), h') /\
    documents h' = <[lit "/v/from-ada.atom" := lit "a vault"]> (documents demo_home) /\
    holds FRIENDS h' (noted (lit "ada") (lit "mine.atom") 7 consent demo_friends).
Proof.
  pose proof (vault_handed_over agreed_network (lit "/v/mine.atom") (lit "mine.atom") 7 (lit "a vault") ada_home demo_home
    demo_friends consent (lit "ada") eq_refl eq_refl eq_refl demo_holds_friends (demo_working _)) as Hr.
  assert (Hf : fits (noted (lit "ada") (lit "mine.atom") 7 consent demo_friends)) by (vm_compute; discriminate).
  specialize (Hr Hf). cbv zeta in Hr.
  assert (Hp : agreed_path (lit "ada") (lit "mine.atom") consent demo_friends = Some (lit "/v/from-ada.atom")) by (vm_compute; reflexivity).
  rewrite Hp in Hr. destruct Hr as (_ & Hr). destruct (Hr _ eq_refl) as (s' & h' & Hs & _ & Hb & Hd & Hh).
  exists s', h'. exact (conj Hs (conj Hb (conj Hd Hh))).
Defined.

(** The friend of [demo_home] answers, with the signature of the key in its link. *)
Definition answering : Wire :=
  let pk := zrep 32 Byte.x01 in
  {| Noise.input := {| Framing.segments := [sized [Byte.x01] ++ sized (pk ++ ed_sign pk (zrep 32 Byte.x07) ++ zrep TAG Byte.x00)]; Framing.broken := false |};
     Noise.output := {| Framing.written := []; Framing.room := None |} |}.
Definition reaching : Net :=
  {| state_dir := true; state_dir_utf8 := true; config := true; bootstrapped := true; dials _ := Some answering; temp_key := []; in_time := true;
     stream_opens := true; room := None; replies := Some (message_line (Accepted (lit "pull_from_you")));
     modified _ := Some 7 |}.

(** Consent arrives: the vault follows the proposal. *)
Example ada_pushes :
  let (r, s') := sync_core reaching (lit "/v/old.atom") (lit "ada") {| home := demo_home; sent := [] |} in
  r = Ok (Pushed 1) /\ sent s' = message_line (Proposal (lit "old.atom") 7) ++ lit "x".
Proof. vm_compute. split; reflexivity. Qed.

Lemma sync_sends_after_consent_witness :
  let (r, s') := sync_core reaching (lit "/v/old.atom") (lit "ada") {| home := demo_home; sent := [] |} in
  documents (home s') = documents demo_home /\ reached reaching demo_home (lit "ada").
Proof.
  pose proof (sync_sends_after_consent reaching (lit "/v/old.atom") (lit "ada") demo_home) as Hs. pose proof ada_pushes as Hp.
  destruct (sync_core reaching _ _ _) as [r s']. destruct Hs as (Hd & Hr & _). destruct Hp as [_ Hsent].
  split; [exact Hd|]. apply Hr. rewrite Hsent. vm_compute. discriminate.
Defined.

(** Ada calls the daemon: her two messages of the exchange, her signature of its hash,
    and on the stream a proposal and the vault. *)
Definition calling : Wire :=
  let pk := zrep 32 Byte.x01 in
  {| Noise.input := {| Framing.segments := [sized [Byte.x01]; sized [Byte.x01] ++ sized (pk ++ ed_sign pk (zrep 32 Byte.x07) ++ zrep TAG Byte.x00)];
                       Framing.broken := false |};
     Noise.output := {| Framing.written := []; Framing.room := None |} |}.
Definition ada_sends : bytes := message_line (Proposal (lit "mine.atom") 7) ++ lit "a vault".

Example ada_is_served :
  documents (daemon_serve [] (zrep 32 Byte.x07) calling ada_sends true consent demo_home).2 !! lit "/v/from-ada.atom"
    = Some (lit "a vault").
Proof. vm_compute. reflexivity. Qed.

(** A document appears: the key in the book has signed the exchange. *)
Lemma strangers_write_nothing_witness :
  let r := daemon_serve [] (zrep 32 Byte.x07) calling ada_sends true consent demo_home in
  documents r.2 !! lit "/v/from-ada.atom" <> documents demo_home !! lit "/v/from-ada.atom" /\
  exists l f key n0 n w1 filename mtime,
    load_friends demo_home = (Ok l, demo_home) /\ f ∈ l /\ key_of (url f) = Some key /\
    build false [] = Some n0 /\ exchange false n0 calling = (Ok n, w1) /\
    (exists sig, verify_strict key (get_handshake_hash n) sig = true) /\
    msg_from_json (fst (read_line ada_sends)) = Some (Proposal filename mtime) /\ r.1 = Ok (Some Accept) /\
    ((exists v, known_vault demo_home (nickname f) filename = Some v /\ local_path v = lit "/v/from-ada.atom") \/
     (known_vault demo_home (nickname f) filename = None /\ Friends.accepted consent = true /\
      save_path consent = Some (lit "/v/from-ada.atom"))).
Proof.
  pose proof (strangers_write_nothing (fun k m => exists sig, verify_strict k m sig = true) [] (zrep 32 Byte.x07) calling
    ada_sends true consent demo_home (fun k m sig Hv => ex_intro _ sig Hv)) as Hs.
  pose proof ada_is_served as Hd. cbv zeta.
  destruct (daemon_serve [] _ calling ada_sends true consent demo_home) as [r h']. cbn [fst snd] in *.
  assert (Hch : documents h' !! lit "/v/from-ada.atom" <> documents demo_home !! lit "/v/from-ada.atom").
  { rewrite Hd. vm_compute. discriminate. }
  split; [exact Hch|]. exact (Hs _ Hch).
Defined.

(** ** A vault already shared

    A friend who holds the vault under [/v/copy.atom]. *)
Definition sharing : list FriendRecord :=
  [with_vaults [{| original_name := lit "mine.atom"; label := lit "Synced Vault"; local_path := lit "/v/copy.atom";
                   last_modified := 100 |}] (new_friend (demo_link Byte.x01) (lit "ada"))].
Definition sharing_home : Home :=
  {| config_key := None; files := <[FRIENDS := to_json sharing]> ∅;
     documents := <[lit "/v/copy.atom" := lit "today's vault"]> ∅; refused _ := None; clock := 9;
     entropy := rng_const Byte.x2a |}.
Definition silence : SyncResponse := {| Friends.accepted := false; resp_label := None; save_path := None |}.

(** A proposal of an older vault replaces the copy, without a question; and if the
    connection ends after the proposal, nothing is left of it. *)
Example older_proposal_overwrites :
  let older := message_line (Proposal (lit "mine.atom") 1) in
  documents (on_data_stream (lit "ada") (older ++ lit "an old vault") true silence sharing_home).2 !! lit "/v/copy.atom"
    = Some (lit "an old vault") /\
  documents (on_data_stream (lit "ada") older true silence sharing_home).2 !! lit "/v/copy.atom" = Some [].
Proof. split; vm_compute; reflexivity. Qed.
