(* ===== verification/LivePanel.v ===== *)
(** * The live-transfer panel

    [atom/src/gui/live.rs], and the state it draws from [atom/src/gui/mod.rs]: pairing
    through the window, and the transfer it starts on a thread of its own. *)

From Stdlib Require Import Strings.Byte.
From stdpp Require Import strings.
From S2P Require Import Prelude Keyed Text Primitives LiveError StateM.
From S2P Require Import Bundle Net Ticket Slots AddressRecord Discovery Pairing.
From S2P Require Import Link Blind ConfigFile Session PqAuth Reach Transfer PeerBook Live.

(** ** The state *)

Inductive LiveStage := Code | Exchange | Paired.

Definition same_stage (a b : LiveStage) : bool :=
  match a, b with Code, Code | Exchange, Exchange | Paired, Paired => true | _, _ => false end.

(** The line at the foot of the panel: a text, an error shown after [Failed: ], or what
    a finished transfer says of itself. *)
Inductive status := Said (text : str) | Failed (e : error) | Connected (p : Path) | Finished (bytes cover : Z).
Definition nothing : status := Said [].
Definition is_empty (s : status) : bool := match s with Said [] => true | _ => false end.

(** [str::contains]. *)
Fixpoint contains (p s : str) : bool :=
  match strip_prefix p s, s with
  | Some _, _ => true
  | None, [] => false
  | None, _ :: s => contains p s
  end.

Section panel.
Context `{UnicodeCase} `{Aead} `{Blake3} `{Base32} `{Sha256} `{SignatureLib} `{Spake2}.
Context `{ServerNames} `{SocketText} `{Json} `{Generation}.

Record Panel := MkPanel {
  role : Direction;
  stage : LiveStage;
  code : str;
  our_code : str;
  nickname : str;
  our_blob : str;
  peer_blob : str;
  pairing : option PairingState;
  channel : option PairedChannel;
  our_fingerprint : str;
  peer_fingerprint : str;
  selected_peer : str;
  vault_path : str;
  save_path : str;
  live_status : status;
}.

Definition default_panel (home : str) : Panel :=
  MkPanel Sending Code [] [] [] [] [] None None [] [] [] []
    (home ++ lit "/.atom_vault/received/live.aegis") nothing.

Definition set_role r p := let 'MkPanel _ st c oc n ob pb pa ch f g sp vp sv s := p in MkPanel r st c oc n ob pb pa ch f g sp vp sv s.
Definition set_stage st p := let 'MkPanel r _ c oc n ob pb pa ch f g sp vp sv s := p in MkPanel r st c oc n ob pb pa ch f g sp vp sv s.
Definition set_code c p := let 'MkPanel r st _ oc n ob pb pa ch f g sp vp sv s := p in MkPanel r st c oc n ob pb pa ch f g sp vp sv s.
Definition set_our_code oc p := let 'MkPanel r st c _ n ob pb pa ch f g sp vp sv s := p in MkPanel r st c oc n ob pb pa ch f g sp vp sv s.
Definition set_nickname n p := let 'MkPanel r st c oc _ ob pb pa ch f g sp vp sv s := p in MkPanel r st c oc n ob pb pa ch f g sp vp sv s.
Definition set_our_blob ob p := let 'MkPanel r st c oc n _ pb pa ch f g sp vp sv s := p in MkPanel r st c oc n ob pb pa ch f g sp vp sv s.
Definition set_peer_blob pb p := let 'MkPanel r st c oc n ob _ pa ch f g sp vp sv s := p in MkPanel r st c oc n ob pb pa ch f g sp vp sv s.
Definition set_pairing pa p := let 'MkPanel r st c oc n ob pb _ ch f g sp vp sv s := p in MkPanel r st c oc n ob pb pa ch f g sp vp sv s.
Definition set_channel ch p := let 'MkPanel r st c oc n ob pb pa _ f g sp vp sv s := p in MkPanel r st c oc n ob pb pa ch f g sp vp sv s.
Definition set_fingerprints f g p := let 'MkPanel r st c oc n ob pb pa ch _ _ sp vp sv s := p in MkPanel r st c oc n ob pb pa ch f g sp vp sv s.
Definition set_selected sp p := let 'MkPanel r st c oc n ob pb pa ch f g _ vp sv s := p in MkPanel r st c oc n ob pb pa ch f g sp vp sv s.
Definition set_vault_path vp p := let 'MkPanel r st c oc n ob pb pa ch f g sp _ sv s := p in MkPanel r st c oc n ob pb pa ch f g sp vp sv s.
Definition set_save_path sv p := let 'MkPanel r st c oc n ob pb pa ch f g sp vp _ s := p in MkPanel r st c oc n ob pb pa ch f g sp vp sv s.
Definition set_status s p := let 'MkPanel r st c oc n ob pb pa ch f g sp vp sv _ := p in MkPanel r st c oc n ob pb pa ch f g sp vp sv s.

(** [LiveState::reset_pairing]. *)
Definition reset_pairing (p : Panel) : Panel :=
  let 'MkPanel r _ c oc n _ _ _ _ _ _ sp vp sv _ := p in
  MkPanel r Code c oc n [] [] None None [] [] sp vp sv nothing.

(** A transfer on its thread: its token, its side, its file and its peer. *)
Record Job := { token : nat; job_role : Direction; job_path : str; job_peer : str }.

(** What panel and threads share.  A token is a number; [cancelled] are those that have
    been cancelled, [fresh] the next new one. *)
Record Shared := {
  status_shared : status;
  done : bool;
  progress : Z * Z;
  cancel : nat;
  cancelled : list nat;
  fresh : nat;
  threads : list Job;
}.

Record Window := { panel : Panel; shared : Shared; device : Device }.

Definition initial (home : str) (d : Device) : Window :=
  {| panel := default_panel home;
     shared := {| status_shared := nothing; done := true; progress := (0, 0); cancel := 0; cancelled := []; fresh := 1; threads := [] |};
     device := d |}.

(** One frame's input: for a text field, the text it has been changed to; for a button,
    whether it was clicked. *)
Record input := {
  address_edit : option str;
  save_click : bool;
  nickname_edit : option str;
  code_edit : option str;
  generate_click : bool;
  start_click : bool;
  blob_edit : option str;
  continue_click : bool;
  another_click : bool;
  peer_pick : option str;
  role_pick : option Direction;
  path_edit : option str;
  browsed : option str;
  transfer_click : bool;
  stop_click : bool;
}.
Definition no_input : input :=
  {| address_edit := None; save_click := false; nickname_edit := None; code_edit := None; generate_click := false;
     start_click := false; blob_edit := None; continue_click := false; another_click := false; peer_pick := None;
     role_pick := None; path_edit := None; browsed := None; transfer_click := false; stop_click := false |}.

Definition on_panel {E} (f : Panel -> Panel) : M E Window unit := fun w =>
  (Ok tt, {| panel := f (panel w); shared := shared w; device := device w |}).
Definition on_shared {E} (f : Shared -> Shared) : M E Window unit := fun w =>
  (Ok tt, {| panel := panel w; shared := f (shared w); device := device w |}).
Definition of_panel {E A} (f : Panel -> A) : M E Window A := gets (fun w => f (panel w)).

(** A command on the device, its error in hand. *)
Definition trying {A} (m : D A) : M error Window (A + error) := fun w =>
  let (r, d) := m (device w) in
  (match r with Ok a => Ok (inl a) | Err e => Ok (inr e) | Panic => Panic end,
   {| panel := panel w; shared := shared w; device := d |}).

(** A command whose errors are dealt with already. *)
Definition lift_device {A} (m : D A) : M error Window A := fun w =>
  let (r, d) := m (device w) in (r, {| panel := panel w; shared := shared w; device := d |}).

(** A text field that can be edited. *)
Definition edit {E} (enabled : bool) (x : option str) (set : str -> Panel -> Panel) : M E Window bool :=
  match x with
  | Some text => if enabled then let! _ := on_panel (set text) in mret true else mret false
  | None => mret false
  end.

Definition blank (s : str) : bool := bool_decide (trim s = []).

(** ** Identity *)

(** [identity_summary] of [commands/live.rs]. *)
Record IdentitySummary := { id_text : str; id_print : str; hybrid : bool; endpoints : list str }.
Definition identity_summary : D IdentitySummary :=
  let! bundle := load_or_create_identity in
  let! state := load_state in
  mret {| id_text := id_to_base32 (bundle_id (local_bundle bundle));
          id_print := id_fingerprint (bundle_id (local_bundle bundle));
          hybrid := is_hybrid (local_bundle bundle);
          endpoints := my_endpoints state |}.

Definition clearnet_note : str := lit "Address saved. Note: both ISPs will see that you and your peer exchanged packets.".
Definition tor_note : str := lit "Address saved. Transfers to you will run over Tor.".

(** [live_identity_card]: the field shows the first address of the book, afresh in every
    frame. *)
Definition live_identity_card (i : input) : M error Window unit :=
  let! s := trying identity_summary in
  match s with
  | inr _ => mret tt
  | inl s =>
      let addr := default [] (head (endpoints s)) in
      let! addr := match address_edit i with
                   | Some text => let! _ := on_panel (set_status nothing) in mret text
                   | None => mret addr
                   end in
      if save_click i then
        let! r := trying (set_endpoints [addr]) in
        on_panel (set_status (match r with
          | inl _ => Said (if contains (lit ".onion") addr then tor_note else clearnet_note)
          | inr e => Failed e
          end))
      else mret tt
  end.

(** ** Pairing *)

(** [PairingCode::generate] with the random generator of the device. *)
Definition generate_code : D PairingCode := drawing (fun g => lib (Pairing.generate g)).

(** The button [Generate one instead]. *)
Definition generate_one : M error Window unit :=
  let! r := trying generate_code in
  on_panel (fun p => match r with
    | inl c => set_status (Said (lit "Read this code aloud to your peer, then start round 1."))
                 (set_code (Pairing.display c) (set_our_code (Pairing.display c) p))
    | inr e => set_status (Failed e) p
    end).

(** The code parsed, an address looked for, and the exchange begun. *)
Definition begin_round (text : str) : D (PairingState * str) :=
  let! c := lift (lib (Pairing.parse text)) in
  let! _ := my_ticket in
  pair_begin c.

Definition start_round_1 : M error Window unit :=
  let! text := of_panel code in
  let! r := trying (begin_round text) in
  on_panel (fun p => match r with
    | inl (state, blob) =>
        set_status (Said (lit "Send your round-1 blob, paste theirs below."))
          (set_stage Exchange (set_our_blob blob (set_pairing (Some state) p)))
    | inr e => set_status (Failed e) p
    end).

(** The fingerprint of the own ticket, or none. *)
Definition own_fingerprint : D str := fun d =>
  match my_ticket d with
  | (Ok x, d) => (Ok (Ticket.fingerprint x), d)
  | (Err _, d) => (Ok [], d)
  | (Panic, d) => (Panic, d)
  end.

(** The button [Continue]: the state of round one is taken out, whatever comes of it;
    without one, the channel completes the pairing. *)
Definition continue_pairing : M error Window unit :=
  let! blob := of_panel (fun p => trim (peer_blob p)) in
  let! st := of_panel pairing in
  let! _ := on_panel (set_pairing None) in
  match st with
  | Some st =>
      let! r := trying (pair_exchange st blob) in
      on_panel (fun p => match r with
        | inl (ch, sealed) =>
            set_status (Said (lit "Now exchange round 2: send yours, paste theirs."))
              (set_peer_blob [] (set_our_blob sealed (set_channel (Some ch) p)))
        | inr e => set_status (Failed e) p
        end)
  | None =>
      let! ch := of_panel channel in
      match ch with
      | None => mret tt
      | Some ch =>
          let! nick := of_panel (fun p => trim (nickname p)) in
          let! r := trying (pair_complete ch blob nick) in
          match r with
          | inr e => on_panel (set_status (Failed e))
          | inl peer =>
              let! ours := lift_device own_fingerprint in
              on_panel (fun p =>
                set_status (Said (lit "Paired with " ++ nick ++ lit "."))
                  (set_selected nick (set_stage Paired (set_fingerprints ours (Ticket.fingerprint peer) p))))
          end
      end
  end.

Definition pair_another (p : Panel) : Panel := set_nickname [] (set_our_code [] (set_code [] (reset_pairing p))).

(** [live_pairing_card]. *)
Definition live_pairing_card (busy : bool) (i : input) : M error Window unit :=
  let! editable := of_panel (fun p => same_stage (stage p) Code) in
  let! _ := edit editable (nickname_edit i) set_nickname in
  let! changed := edit editable (code_edit i) set_code in
  let! _ := if changed : bool then on_panel reset_pairing else mret tt in
  let! _ := if (editable : bool) && generate_click i then generate_one else mret tt in
  let! ready := of_panel (fun p => same_stage (stage p) Code && negb (blank (code p)) && negb (blank (nickname p))) in
  let! _ := if (ready : bool) && start_click i then start_round_1 else mret tt in
  let! exchanging := of_panel (fun p => same_stage (stage p) Exchange) in
  let! _ := if exchanging : bool then
      let! _ := edit true (blob_edit i) set_peer_blob in
      let! ready := of_panel (fun p => negb (blank (peer_blob p)) && negb busy) in
      if (ready : bool) && continue_click i then continue_pairing else mret tt
    else mret tt in
  let! paired := of_panel (fun p => same_stage (stage p) Paired) in
  if (paired : bool) && another_click i then on_panel pair_another else mret tt.

(** ** Transfer *)

(** [start_live_transfer], up to the thread it starts. *)
Definition launched (p : Panel) (s : Shared) : Shared :=
  let path := match role p with Sending => vault_path p | Receiving => save_path p end in
  {| status_shared := Said (lit "Waiting to meet " ++ selected_peer p ++ lit " — they must run their side now.");
     done := false; progress := (0, 0); cancel := fresh s; cancelled := cancelled s; fresh := S (fresh s);
     threads := threads s ++ [{| token := fresh s; job_role := role p; job_path := path; job_peer := selected_peer p |}] |}.
Definition start_live_transfer : M error Window unit := fun w =>
  (Ok tt, {| panel := panel w; shared := launched (panel w) (shared w); device := device w |}).

Definition cancel_current (s : Shared) : Shared :=
  {| status_shared := status_shared s; done := done s; progress := progress s; cancel := cancel s;
     cancelled := cancel s :: cancelled s; fresh := fresh s; threads := threads s |}.

(** The paired peers, none when the book cannot be read. *)
Definition peers_shown : D (list LivePeer) := fun d =>
  match load_state d with
  | (Ok s, d) => (Ok (peers s), d)
  | (Err _, d) => (Ok [], d)
  | (Panic, d) => (Panic, d)
  end.

(** Its two buttons. *)
Definition transfer_buttons (busy : bool) (i : input) : M error Window unit :=
  let! ready := of_panel (fun p => negb busy && negb (bool_decide (selected_peer p = []))) in
  let! _ := if (ready : bool) && transfer_click i then start_live_transfer else mret tt in
  if busy && stop_click i then
    let! _ := on_shared cancel_current in
    on_panel (set_status (Said (lit "Stopping…")))
  else mret tt.

(** [live_transfer_card]; one of the peers shown can be picked. *)
Definition live_transfer_card (busy : bool) (i : input) : M error Window unit :=
  let! shown := lift_device peers_shown in
  if bool_decide (shown = []) then mret tt else
  let! _ := match peer_pick i with
            | Some n => if bool_decide (n ∈ map PeerBook.nickname shown) then on_panel (set_selected n) else mret tt
            | None => mret tt
            end in
  let! _ := match role_pick i with Some r => on_panel (set_role r) | None => mret tt end in
  let! r := of_panel role in
  let! _ := match r with
            | Sending =>
                let! _ := edit true (path_edit i) set_vault_path in
                let! _ := edit true (browsed i) set_vault_path in mret tt
            | Receiving => let! _ := edit true (path_edit i) set_save_path in mret tt
            end in
  transfer_buttons busy i.

(** [live_status_line]. *)
Definition live_status_line : M error Window unit := fun w =>
  (Ok tt, {| panel := if is_empty (status_shared (shared w)) then panel w
                      else set_status (status_shared (shared w)) (panel w);
             shared := shared w; device := device w |}).

(** [show_live_panel]: one frame. *)
Definition show_live_panel (i : input) : M error Window unit :=
  let! busy := gets (fun w => negb (done (shared w))) in
  let! _ := live_identity_card i in
  let! _ := live_pairing_card busy i in
  let! _ := live_transfer_card busy i in
  live_status_line.

(** ** Frames and threads *)

(** What happens: a frame, or a step of the thread with that token: a report of
    progress, the path found, or its end ([Panic]: the thread dies). *)
Inductive event :=
  | Frame (i : input)
  | Progressed (t : nat) (transferred total : Z)
  | Found (t : nat) (p : Path)
  | Ended (t : nat) (r : outcome error Summary).

Definition running (t : nat) (s : Shared) : bool := existsb (fun j => bool_decide (token j = t)) (threads s).
Definition without (t : nat) (l : list Job) : list Job := filter (fun j => token j <> t) l.

Definition thread_step (e : event) (s : Shared) : Shared :=
  match e with
  | Frame _ => s
  | Progressed t a b =>
      {| status_shared := status_shared s; done := done s; progress := (a, b); cancel := cancel s;
         cancelled := cancelled s; fresh := fresh s; threads := threads s |}
  | Found t p =>
      {| status_shared := Connected p; done := done s; progress := progress s; cancel := cancel s;
         cancelled := cancelled s; fresh := fresh s; threads := threads s |}
  | Ended t r =>
      {| status_shared := match r with Ok x => Finished (total x) (cover_frames x) | Err e => Failed e | Panic => status_shared s end;
         done := match r with Panic => done s | _ => true end; progress := progress s; cancel := cancel s;
         cancelled := cancelled s; fresh := fresh s; threads := without t (threads s) |}
  end.

Definition event_token (e : event) : option nat :=
  match e with Frame _ => None | Progressed t _ _ | Found t _ | Ended t _ => Some t end.

Definition happens (e : event) : M error Window unit :=
  match e with
  | Frame i => show_live_panel i
  | _ => on_shared (fun s => match event_token e with
                             | Some t => if running t s then thread_step e s else s
                             | None => s
                             end)
  end.

Fixpoint events (l : list event) : M error Window unit :=
  match l with
  | [] => mret tt
  | e :: l => let! _ := happens e in events l
  end.

(** ** Theorem: one transfer at a time *)

(** The part the threads share stays as it is. *)
Definition same_shared (w w' : Window) : Prop := shared w' = shared w.
#[local] Instance same_shared_preorder : PreOrder same_shared.
Proof. split; [by intros w|]. unfold same_shared. intros w1 w2 w3. congruence. Qed.

Abbreviation private m := (keeps same_shared m).

Lemma private_if {A} (b : bool) (m k : M error Window A) : private m -> private k -> private (if b then m else k).
Proof. by destruct b. Qed.
Lemma private_on_panel f : private (@on_panel error f).
Proof. done. Qed.
Lemma private_trying {A} (m : D A) : private (trying m).
Proof. intros w. unfold same_shared, trying. by destruct (m (device w)). Qed.
Lemma private_lift {A} (m : D A) : private (lift_device m).
Proof. intros w. unfold same_shared, lift_device. by destruct (m (device w)). Qed.
Lemma private_edit b x set : private (edit (E := error) b x set).
Proof. intros w. by destruct x, b. Qed.

Ltac keep := repeat first
  [ apply keeps_ret; exact _ | apply keeps_gets; exact _ | apply private_on_panel | apply private_trying | apply private_lift | apply private_edit
  | apply keeps_bind; [exact _| |intros ?] | apply private_if
  | match goal with |- keeps _ (match ?x with _ => _ end) => destruct x end ].

Lemma identity_card_shared i : private (live_identity_card i).
Proof. unfold live_identity_card, of_panel. keep. Qed.

Lemma pairing_card_shared busy i : private (live_pairing_card busy i).
Proof.
  unfold live_pairing_card, generate_one, start_round_1, continue_pairing, of_panel. keep.
Qed.

(** What a frame does to the shared part. *)
Definition frame_effect (i : input) (s s' : Shared) : Prop :=
  s' = s \/
  (done s = true /\ exists p, selected_peer p <> [] /\ s' = launched p s) \/
  (done s = false /\ stop_click i = true /\ s' = cancel_current s).

Lemma buttons_effect busy i w :
  busy = negb (done (shared w)) -> frame_effect i (shared w) (shared (snd (transfer_buttons busy i w))).
Proof.
  intros ->. unfold transfer_buttons, mbind, of_panel, gets, frame_effect.
  destruct (done (shared w)) eqn:Hd; cbn [negb andb].
  - case_bool_decide as Hs; cbn [negb andb]; [by left|]. destruct (transfer_click i); [|by left].
    right; left. split; [done|]. by exists (panel w).
  - destruct (stop_click i); [|by left]. by right; right.
Qed.

(** Something that keeps the shared part, and then something with such an effect. *)
Lemma effect_after {A B} (m : M error Window A) (k : A -> M error Window B) i s w :
  private m -> shared w = s ->
  (forall a w', shared w' = s -> frame_effect i s (shared (snd (k a w')))) ->
  frame_effect i s (shared (snd (mbind m k w))).
Proof.
  intros Hm Hw Hk. specialize (Hm w). unfold mbind. destruct (m w) as [[a|e|] w']; cbn in *; [apply Hk; congruence|left; congruence..].
Qed.

Lemma transfer_card_effect busy i w :
  busy = negb (done (shared w)) -> frame_effect i (shared w) (shared (snd (live_transfer_card busy i w))).
Proof.
  intros Hb. unfold live_transfer_card. apply effect_after; [keep|done|]. intros l w1 G1.
  case_bool_decide; [by left; rewrite <- G1|].
  apply effect_after; [keep|done|]. intros _ w2 G2. apply effect_after; [keep|done|]. intros _ w3 G3.
  apply effect_after; [keep|done|]. intros r w4 G4. apply effect_after; [keep|done|]. intros _ w5 G5.
  rewrite <- G5. apply buttons_effect. by rewrite G5.
Qed.

Lemma frame_effects i w : frame_effect i (shared w) (shared (snd (show_live_panel i w))).
Proof.
  unfold show_live_panel. unfold mbind at 1, gets.
  apply effect_after; [apply identity_card_shared|done|]. intros _ w1 G1.
  apply effect_after; [apply pairing_card_shared|done|]. intros _ w2 G2.
  pose proof (transfer_card_effect (negb (done (shared w))) i w2) as Ht. rewrite G2 in Ht. specialize (Ht eq_refl).
  unfold mbind. destruct (live_transfer_card _ i w2) as [[[]|e|] w3]; exact Ht.
Qed.

(** At most one thread; it belongs to the current token and to a peer. *)
Definition one_thread (s : Shared) : Prop :=
  threads s = [] \/
  exists j, threads s = [j] /\ done s = false /\ token j = cancel s /\ job_peer j <> [].
Definition shared_ok (s : Shared) : Prop :=
  one_thread s /\ (cancel s < fresh s)%nat /\ Forall (fun t => (t < fresh s)%nat) (cancelled s).

Lemma without_current j : without (token j) [j] = [].
Proof. unfold without. by rewrite list.filter_cons_False by (intros Hx; by apply Hx). Qed.

Lemma frame_ok i s s' : frame_effect i s s' -> shared_ok s -> shared_ok s'.
Proof.
  intros [->|[(Hd & p & Hp & ->)|(Hd & _ & ->)]] (Hone & Hlt & Hall); [by split_and!|..].
  - destruct Hone as [Hn|(j & _ & Hf & _)]; [|congruence]. unfold shared_ok, one_thread, launched. cbn. rewrite Hn.
    split_and!; [right; by eexists|lia|]. eapply Forall_impl; [|exact Hall]. cbn. lia.
  - split_and!; [exact Hone|exact Hlt|]. cbn. by constructor.
Qed.

Lemma thread_ok e s : shared_ok s -> (forall t, event_token e = Some t -> running t s = true) -> shared_ok (thread_step e s).
Proof.
  intros (Hone & Hlt & Hall) He. destruct e as [i|t a b|t p|t r]; [by split_and!..|]. cbn. specialize (He t eq_refl).
  unfold running in He. split_and!; [|exact Hlt|exact Hall]. left. cbn.
  destruct Hone as [Hn|(j & Hj & _)]; [by rewrite Hn in He|]. rewrite Hj in *. cbn in He. rewrite orb_false_r in He.
  apply bool_decide_eq_true in He as <-. apply without_current.
Qed.

Lemma happens_ok e w : shared_ok (shared w) -> shared_ok (shared (snd (happens e w))).
Proof.
  intros Hw. destruct e as [i|t a b|t p|t r]; [by eapply frame_ok, Hw; apply frame_effects|..];
    unfold happens, on_shared; cbn [snd shared event_token]; destruct (running t (shared w)) eqn:Hr;
    try exact Hw; apply thread_ok; try exact Hw; by intros ? [= <-].
Qed.

Lemma events_ok es w : shared_ok (shared w) -> shared_ok (shared (snd (events es w))).
Proof.
  revert w. induction es as [|e es IH]; intros w Hw; [exact Hw|]. pose proof (happens_ok e w Hw) as He.
  cbn [events]. unfold mbind. destruct (happens e w) as [[[]|x|] w']; [by apply IH|exact He..].
Qed.

(** C9: One transfer at a time, each with a token of its own.  Whatever is typed and
    clicked, and whatever the threads report: there is never more than one transfer
    thread; while it runs, the panel counts as busy, the thread's token is the one the
    stop button cancels, and it works for a peer that was chosen; the token a new
    thread gets has never been cancelled; and a frame cancels no token but the running
    one's, and only for a click on stop. *)
Theorem one_transfer_at_a_time home d es i :
  let w := snd (events es (initial home d)) in
  let w' := snd (show_live_panel i w) in
  one_thread (shared w) /\
  (threads (shared w') = threads (shared w) \/
   exists j, threads (shared w) = [] /\ threads (shared w') = [j] /\ token j ∉ cancelled (shared w')) /\
  (cancelled (shared w') = cancelled (shared w) \/
   stop_click i = true /\ cancelled (shared w') = cancel (shared w) :: cancelled (shared w) /\
   forall j, j ∈ threads (shared w') -> token j = cancel (shared w)).
Proof.
  cbv zeta. assert (Hok : shared_ok (shared (snd (events es (initial home d))))).
  { apply events_ok. split_and!; cbn; [by left|lia|constructor]. }
  destruct (events es (initial home d)) as [r w]. cbn [snd] in *. destruct Hok as (Hone & Hlt & Hall). split; [exact Hone|].
  destruct (frame_effects i w) as [->|[(Hd & p & Hp & ->)|(Hd & Hs & ->)]]; cbn.
  - by split; left.
  - destruct Hone as [Hn|(j & _ & Hf & _)]; [|congruence]. rewrite Hn. split; [|by left]. right.
    eexists. split_and!; [done..|]. cbn. intros Hin. rewrite list.Forall_forall in Hall. apply Hall in Hin. lia.
  - split; [by left|]. right. split_and!; [done..|]. intros j Hj. destruct Hone as [Hn|(k & Hk & _ & Ht & _)].
    + by rewrite Hn, elem_of_nil in Hj.
    + rewrite Hk in Hj. by apply list_elem_of_singleton in Hj as ->.
Qed.
End panel.

(** ** Theorem: pairing through the panel *)

(** What a user does: type a nickname and a code, click; paste a message, click. *)
Definition on_card (nick c : option str) (start : bool) (blob : option str) (continue : bool) : input :=
  {| address_edit := None; save_click := false; nickname_edit := nick; code_edit := c; generate_click := false;
     start_click := start; blob_edit := blob; continue_click := continue; another_click := false; peer_pick := None;
     role_pick := None; path_edit := None; browsed := None; transfer_click := false; stop_click := false |}.
Definition typing_nickname (n : str) : input := on_card (Some n) None false None false.
Definition typing_code (c : str) : input := on_card None (Some c) false None false.
Definition clicking_start : input := on_card None None true None false.
Definition pasting (b : str) : input := on_card None None false (Some b) false.
Definition clicking_continue : input := on_card None None false None true.

Definition begin_with (nick code : str) : list event :=
  [Frame (typing_nickname nick); Frame (typing_code code); Frame clicking_start].
Definition answer_with (message : str) : list event := [Frame (pasting message); Frame clicking_continue].

(** Only the pairing card is used. *)
Definition pairing_only (i : input) : Prop :=
  address_edit i = None /\ save_click i = false /\ peer_pick i = None /\ role_pick i = None /\ path_edit i = None /\
  browsed i = None /\ transfer_click i = false /\ stop_click i = false.

Section scripts.
Context `{UnicodeCase} `{!UnicodeCaseLaws _} `{Aead} `{!AeadLaws _} `{Blake3} `{!Blake3Laws _} `{Base32} `{!Base32Laws _}.
Context `{Sha256} `{!Sha256Laws _} `{SignatureLib} `{Spake2} `{!Spake2Laws _} `{ServerNames} `{SocketText}.
Context `{!SocketTextLaws _} `{Json} `{!JsonLaws _} `{Generation}.

Definition window (p : Panel) (s : Shared) (d : Device) : Window := {| panel := p; shared := s; device := d |}.

Lemma identity_card_quiet i p sh d l s :
  pairing_only i -> stored d l s -> live_identity_card i (window p sh d) = (Ok tt, window p sh d).
Proof.
  intros (Ha & Hs & _) Hd. unfold live_identity_card, mbind at 1, trying, identity_summary. cbn [device window].
  rewrite (mbind_Ok _ _ _ _ _ (stored_identity d l s Hd)), (mbind_Ok _ _ _ _ _ (stored_load d l s Hd)).
  cbn. by rewrite Ha, Hs.
Qed.

Lemma transfer_card_quiet busy i p sh d l s :
  pairing_only i -> stored d l s -> live_transfer_card busy i (window p sh d) = (Ok tt, window p sh d).
Proof.
  intros (_ & _ & Hp & Hr & He & Hb & Ht & Hs) Hd. unfold live_transfer_card, mbind at 1, lift_device, peers_shown.
  cbn [device window]. rewrite (stored_load d l s Hd). case_bool_decide; [done|]. rewrite Hp, Hr.
  unfold mbind, of_panel, gets, mret, transfer_buttons, edit. cbn [panel window]. rewrite He, Hb, Ht.
  destruct (role p); cbn; unfold mbind, of_panel, gets, mret; cbn; by rewrite Hs, !andb_false_r.
Qed.

(** Such a frame is its pairing card; what the status line makes of it is [st]. *)
Lemma quiet_frame i p sh d p' d' l s s' :
  pairing_only i -> stored d l s -> stored d' l s' ->
  live_pairing_card (negb (done sh)) i (window p sh d) = (Ok tt, window p' sh d') ->
  exists st, show_live_panel i (window p sh d) = (Ok tt, window (set_status st p') sh d').
Proof.
  intros Hi Hd Hd' Hc. unfold show_live_panel. unfold mbind at 1, gets. cbn [shared window].
  rewrite (mbind_Ok _ _ _ _ _ (identity_card_quiet i p sh d l s Hi Hd)), (mbind_Ok _ _ _ _ _ Hc).
  rewrite (mbind_Ok _ _ _ _ _ (transfer_card_quiet _ i p' sh d' l s' Hi Hd')).
  unfold live_status_line. cbn [shared window panel device]. destruct (is_empty _); [|by eexists].
  exists (live_status p'). by destruct p'.
Qed.

Lemma on_card_pairing n c b x k : pairing_only (on_card n c b x k).
Proof. done. Qed.

(** Running the card on a frame of a script. *)
Ltac card := unfold live_pairing_card, edit, of_panel, on_panel, mbind, gets, mret; cbn [window panel shared device on_card
  nickname_edit code_edit generate_click start_click blob_edit continue_click another_click]; cbn; rewrite ?andb_false_r; cbn.

Lemma frame_nickname n p sh d l s :
  stored d l s -> stage p = Code ->
  exists st, show_live_panel (typing_nickname n) (window p sh d) = (Ok tt, window (set_status st (set_nickname n p)) sh d).
Proof.
  intros Hd Hs. eapply quiet_frame; [apply on_card_pairing|exact Hd|exact Hd|]. destruct p. cbn in Hs. subst.
  unfold typing_nickname. card. done.
Qed.

Lemma frame_code c p sh d l s :
  stored d l s -> stage p = Code ->
  exists st, show_live_panel (typing_code c) (window p sh d) = (Ok tt, window (set_status st (reset_pairing (set_code c p))) sh d).
Proof.
  intros Hd Hs. eapply quiet_frame; [apply on_card_pairing|exact Hd|exact Hd|]. destruct p. cbn in Hs. subst.
  unfold typing_code. card. done.
Qed.

Lemma frame_start p sh d l s st blob d' :
  stored d l s -> stored d' l s -> stage p = Code -> blank (code p) = false -> blank (nickname p) = false ->
  begin_round (code p) d = (Ok (st, blob), d') ->
  exists x, show_live_panel clicking_start (window p sh d)
    = (Ok tt, window (set_status x (set_stage Exchange (set_our_blob blob (set_pairing (Some st) p)))) sh d').
Proof.
  intros Hd Hd' Hs Hc Hn Hb. destruct (quiet_frame clicking_start p sh d
    (set_status (Said (lit "Send your round-1 blob, paste theirs below.")) (set_stage Exchange (set_our_blob blob (set_pairing (Some st) p)))) d' l s s)
    as (x & Hx); [apply on_card_pairing|done|done| |].
  - destruct p. cbn in *. subst. unfold clicking_start. card. rewrite Hc, Hn. cbn.
    unfold start_round_1, trying, of_panel, on_panel, mbind, gets. cbn. rewrite Hb. cbn. by rewrite ?andb_false_r.
  - exists x. rewrite Hx. by destruct p.
Qed.

Lemma frame_paste b p sh d l s :
  stored d l s -> stage p = Exchange ->
  exists x, show_live_panel (pasting b) (window p sh d) = (Ok tt, window (set_status x (set_peer_blob b p)) sh d).
Proof.
  intros Hd Hs. eapply quiet_frame; [apply on_card_pairing|exact Hd|exact Hd|]. destruct p. cbn in Hs. subst.
  unfold pasting. card. done.
Qed.

Lemma frame_exchange p sh d l s st ch sealed d' :
  stored d l s -> stored d' l s -> stage p = Exchange -> done sh = true -> blank (peer_blob p) = false -> pairing p = Some st ->
  pair_exchange st (trim (peer_blob p)) d = (Ok (ch, sealed), d') ->
  exists x, show_live_panel clicking_continue (window p sh d)
    = (Ok tt, window (set_status x (set_peer_blob [] (set_our_blob sealed (set_channel (Some ch) (set_pairing None p))))) sh d').
Proof.
  intros Hd Hd' Hs Hdone Hb Hp Hx. destruct (quiet_frame clicking_continue p sh d
    (set_status (Said (lit "Now exchange round 2: send yours, paste theirs."))
      (set_peer_blob [] (set_our_blob sealed (set_channel (Some ch) (set_pairing None p))))) d' l s s)
    as (x & Hf); [apply on_card_pairing|done|done| |].
  - destruct p. cbn in *. subst. unfold clicking_continue. card. rewrite Hb, Hdone. cbn.
    unfold continue_pairing, trying, of_panel, on_panel, mbind, gets. cbn. by rewrite Hx.
  - exists x. rewrite Hf. by destruct p.
Qed.

Lemma frame_complete p sh d l s s' ch y f d' :
  stored d l s -> stored d' l s' -> stage p = Exchange -> done sh = true -> blank (peer_blob p) = false ->
  pairing p = None -> channel p = Some ch ->
  pair_complete ch (trim (peer_blob p)) (trim (nickname p)) d = (Ok y, d') -> own_fingerprint d' = (Ok f, d') ->
  exists x, show_live_panel clicking_continue (window p sh d)
    = (Ok tt, window (set_status x (set_selected (trim (nickname p)) (set_stage Paired (set_fingerprints f (Ticket.fingerprint y) p)))) sh d').
Proof.
  intros Hd Hd' Hs Hdone Hb Hp Hch Hx Hown. destruct (quiet_frame clicking_continue p sh d
    (set_status (Said (lit "Paired with " ++ trim (nickname p) ++ lit "."))
      (set_selected (trim (nickname p)) (set_stage Paired (set_fingerprints f (Ticket.fingerprint y) p)))) d' l s s')
    as (x & Hf); [apply on_card_pairing|done|done| |].
  - destruct p. cbn in *. subst. unfold clicking_continue. card. rewrite Hb, Hdone. cbn.
    unfold continue_pairing, trying, lift_device, of_panel, on_panel, mbind, gets. cbn. rewrite Hx. cbn. by rewrite Hown.
  - exists x. rewrite Hf. by destruct p.
Qed.

(** *** Text that is not blank *)

Lemma drop_while_nil {A} (p : A -> bool) l : drop_while p l = [] -> Forall (fun x => p x = true) l.
Proof. induction l as [|x l IH]; [constructor|]. cbn. destruct (p x) eqn:Hx; [|done]. intros Hl. constructor; auto. Qed.

Lemma drop_while_head {A} (p : A -> bool) l x l' : drop_while p l = x :: l' -> p x = false.
Proof. induction l as [|y l IH]; [done|]. cbn. destruct (p y) eqn:Hy; [done|]. by intros [= <- _]. Qed.

Lemma trim_nil s : ascii s -> trim s = [] -> Forall (fun b => is_whitespace [b] = true) s.
Proof.
  intros Ha. unfold trim. rewrite chars_ascii' by done. set (l := drop_while is_whitespace (map _ s)). intros Ht.
  assert (Hl : l = []).
  { destruct l as [|x l'] eqn:Hl; [done|]. pose proof (drop_while_head _ _ _ _ Hl) as Hx.
    assert (Hin : Forall (fun c => c <> []) (drop_while is_whitespace (reverse (x :: l')))).
    { rewrite <- Hl. apply drop_while_Forall, Forall_reverse, drop_while_Forall, List.Forall_map, list.Forall_true. by intros b. }
    destruct (drop_while is_whitespace (reverse (x :: l'))) as [|c r] eqn:Hd.
    - apply drop_while_nil in Hd. apply Forall_reverse in Hd. rewrite reverse_involutive in Hd. apply list.Forall_cons in Hd as [Hd _]. congruence.
    - rewrite reverse_cons, concat_app in Ht. apply app_eq_nil in Ht as [_ Ht]. cbn in Ht. rewrite app_nil_r in Ht.
      by apply list.Forall_cons in Hin as [Hin _]. }
  apply drop_while_nil in Hl. by apply List.Forall_map in Hl.
Qed.

Lemma typed_not_blank c s : spoken c -> typed c s -> blank s = false.
Proof.
  intros [Hne _] [Ha Hk]. apply bool_decide_eq_false_2. intros Ht. apply Hne. rewrite <- Hk.
  apply trim_nil in Ht; [|done]. enough (keys s = []) as -> by done. clear Ha Hk. unfold keys. induction Ht as [|b l Hb _ IH]; [done|].
  rewrite filter_cons_False; [exact IH|]. unfold code_char. by rewrite Hb.
Qed.

Lemma pasted_bare text s : plain text -> pasted text s -> pasted text (trim s).
Proof.
  intros Hp Hs. destruct (pasted_trim text s Hp Hs) as (s' & -> & Ha & Hl). exists [], s', []. rewrite app_nil_r.
  by split_and!.
Qed.

Lemma pasted_not_blank text s : plain text -> text <> [] -> pasted text s -> blank s = false.
Proof.
  intros Hp Hne Hs. destruct (pasted_trim text s Hp Hs) as (s' & Ht & _ & Hl). apply bool_decide_eq_false_2. rewrite Ht.
  intros ->. by apply Hne.
Qed.

Lemma message_plain m : plain (encode_message m).
Proof. apply Forall_app. split; [by repeat constructor|apply base32_lower_plain]. Qed.

Lemma seal_plain ch x g text g' : seal_ticket ch x g = Ok (text, g') -> plain text /\ text <> [].
Proof.
  unfold seal_ticket. intros Hs. ok_inv Hs. injection Hs as <- _. split; [apply base32_lower_plain|].
  match goal with Hg : getrandom_fill _ _ _ = Ok _ |- _ => apply getrandom_fill_Ok in Hg as [Hn _]; [|done] end. intros He.
  match type of He with base32_lower (?n ++ ?c) = _ => pose proof (base32_lower_length (n ++ c)) as Hl; rewrite He, zlen_app in Hl; pose proof (zlen_nonneg c) end.
  change (zlen []) with 0 in Hl. unfold NONCE_LEN in *.
  assert (1 <= (8 * (zlen a + zlen x0) + 4) `div` 5) by (apply Z.div_le_lower_bound; lia). lia.
Qed.

Lemma sealed_plain st m d ch sealed d' : pair_exchange st m d = (Ok (ch, sealed), d') -> plain sealed /\ sealed <> [].
Proof.
  unfold pair_exchange. intros Hx. run_inv Hx.
  match goal with Hd : drawing _ ?s = (Ok _, _) |- _ => unfold drawing, lib in Hd; cbn beta in Hd;
    destruct (seal_ticket _ _ (entropy s)) as [[t g]|e|] eqn:Hs; cbn in Hd; [|done..]; injection Hd as <- <- end.
  by eapply seal_plain.
Qed.

(** *** The device after a pairing *)

Lemma stored_same d l s s' : stored d l s -> stored d l s' -> s = s'.
Proof. intros Ha Hb. apply stored_load in Ha, Hb. congruence. Qed.

Lemma pair_complete_keeps ch q nick x d d' l s s' :
  stored d l s -> pair_complete ch q nick d = (Ok x, d') -> stored d' l s' ->
  my_endpoints s' = my_endpoints s /\ clock d' = clock d.
Proof.
  intros Hd Hx Hd'. unfold pair_complete in Hx. run_inv Hx.
  rewrite (stored_identity _ _ _ Hd) in Hx1. injection Hx1 as <- <-. rewrite (stored_load _ _ _ Hd) in Hx2. injection Hx2 as <- <-.
  assert (s3 = s0) as ->.
  { destruct (find_peer nick s) as [p|]; [|by injection Hx3]. revert Hx3. unfold mbind, lift.
    destruct (lib (Ticket.from_text _)) as [old|e|]; [|done..]. cbv beta; destruct (decide _); [done|]. by intros [= _ ->]. }
  destruct (stored_save s0 l s {| my_endpoints := my_endpoints s; peers := x3; rendezvous_list := rendezvous_list s |} Hd) as [(d2 & Hsave & Hd2 & Hc)|[Hp _]]; [|by rewrite Hx4 in Hp].
  rewrite Hx4 in Hsave. injection Hsave as _ ->. by rewrite (stored_same _ _ _ _ Hd' Hd2).
Qed.

Lemma own_fingerprint_runs d l s hs now :
  presentable d l s hs now -> own_fingerprint d = (Ok (id_fingerprint (bundle_id (local_bundle l))), d).
Proof. intros Hd. unfold own_fingerprint. by rewrite (my_ticket_runs _ _ _ _ _ Hd). Qed.

Lemma presentable_after d l s hs now d' s' :
  presentable d l s hs now -> stored d' l s' -> book_ok s' -> my_endpoints s' = my_endpoints s -> clock d' = clock d ->
  presentable d' l s' hs now.
Proof. intros (_ & _ & Hb & Hn & Hne & Hp & Hh & Hc & Hnow) Hd Hs He Hk. unfold presentable. rewrite He, Hk. by split_and!. Qed.

Lemma presentable_paired ch q nick x d d' l s s' hs now :
  presentable d l s hs now -> pair_complete ch q nick d = (Ok x, d') -> stored d' l s' -> book_ok s' ->
  presentable d' l s' hs now.
Proof.
  intros Hp Hc Hd Hb. pose proof Hp as (Hs & _). destruct (pair_complete_keeps ch q nick x d d' l s s' Hs Hc Hd).
  by eapply presentable_after.
Qed.

Lemma begun_message c d st m d1 : pair_begin c d = (Ok (st, m), d1) -> plain m /\ m <> [].
Proof.
  unfold pair_begin. intros Hb. run_inv Hb. split; [|done]. apply message_plain.
Qed.

(** *** The scripts *)

(** A window waiting for a code, with no transfer running. *)
Definition waiting (w : Window) : Prop := stage (panel w) = Code /\ done (shared w) = true.

(** The window in the middle of an exchange, and after it. *)
Definition exchanging (w : Window) (nick : str) (st : option PairingState) (ch : option PairedChannel) (blob : str) : Prop :=
  done (shared w) = true /\ stage (panel w) = Exchange /\ pairing (panel w) = st /\ channel (panel w) = ch /\
  our_blob (panel w) = blob /\ nickname (panel w) = nick.

Lemma begin_with_runs w nick t c l s hs now st m d1 :
  waiting w -> presentable (device w) l s hs now -> spoken c -> typed c t -> blank nick = false ->
  pair_begin c (device w) = (Ok (st, m), d1) -> presentable d1 l s hs now ->
  exists w1, events (begin_with nick t) w = (Ok tt, w1) /\ device w1 = d1 /\ exchanging w1 nick (Some st) None m.
Proof.
  intros [Hst Hdone] Hp Hc Ht Hn Hb Hp1. destruct w as [p sh d]. cbn [panel shared device] in *. change {| panel := p; shared := sh; device := d |} with (window p sh d).
  pose proof Hp as (Hd & _). pose proof Hp1 as (Hd1 & _).
  destruct (frame_nickname nick p sh d l s Hd Hst) as (x1 & Hf1). destruct (frame_code t (set_status x1 (set_nickname nick p)) sh d l s Hd) as (x2 & Hf2); [by destruct p|].
  destruct (frame_start (set_status x2 (reset_pairing (set_code t (set_status x1 (set_nickname nick p))))) sh d l s st m d1) as (x3 & Hf3);
    [done|done|by destruct p|destruct p; by eapply typed_not_blank|by destruct p| |].
  { unfold begin_round. destruct p. cbn. unfold mbind, lift. rewrite (parse_typed c t) by done. cbn. by rewrite (my_ticket_runs _ _ _ _ _ Hp), Hb. }
  eexists. split.
  - unfold begin_with, events, happens. rewrite (mbind_Ok _ _ _ _ _ Hf1), (mbind_Ok _ _ _ _ _ Hf2), (mbind_Ok _ _ _ _ _ Hf3). done.
  - by destruct p.
Qed.


Lemma answer_exchange w nick st ch0 blob msg ch sealed d2 l s hs now :
  exchanging w nick (Some st) ch0 blob -> presentable (device w) l s hs now -> presentable d2 l s hs now -> blank msg = false ->
  pair_exchange st (trim msg) (device w) = (Ok (ch, sealed), d2) ->
  exists w2, events (answer_with msg) w = (Ok tt, w2) /\ device w2 = d2 /\ exchanging w2 nick None (Some ch) sealed.
Proof.
  intros (Hdone & Hst & Hp & Hch & Hb & Hn) Hpr Hpr2 Hm Hx. destruct w as [p sh d]. cbn [panel shared device] in *.
  pose proof Hpr as (Hd & _). pose proof Hpr2 as (Hd2 & _).
  destruct (frame_paste msg p sh d l s Hd Hst) as (x1 & Hf1).
  destruct (frame_exchange (set_status x1 (set_peer_blob msg p)) sh d l s st ch sealed d2) as (x2 & Hf2); [done|done|by destruct p..|].
  eexists. split.
  - unfold answer_with, events, happens. change {| panel := p; shared := sh; device := d |} with (window p sh d).
    rewrite (mbind_Ok _ _ _ _ _ Hf1), (mbind_Ok _ _ _ _ _ Hf2). done.
  - destruct p. cbn in *. subst. split; [done|]. by split_and!.
Qed.

Lemma answer_complete w nick ch blob msg y d3 l s s' hs now :
  exchanging w nick None (Some ch) blob -> presentable (device w) l s hs now -> presentable d3 l s' hs now -> blank msg = false ->
  pair_complete ch (trim msg) (trim nick) (device w) = (Ok y, d3) ->
  exists w3, events (answer_with msg) w = (Ok tt, w3) /\ device w3 = d3 /\ stage (panel w3) = Paired /\
    peer_fingerprint (panel w3) = Ticket.fingerprint y /\
    our_fingerprint (panel w3) = id_fingerprint (bundle_id (local_bundle l)) /\ selected_peer (panel w3) = trim nick.
Proof.
  intros (Hdone & Hst & Hp & Hch & Hb & Hn) Hpr Hpr3 Hm Hx. destruct w as [p sh d]. cbn [panel shared device] in *.
  pose proof Hpr as (Hd & _). pose proof Hpr3 as (Hd3 & _).
  destruct (frame_paste msg p sh d l s Hd Hst) as (x1 & Hf1).
  destruct (frame_complete (set_status x1 (set_peer_blob msg p)) sh d l s s' ch y (id_fingerprint (bundle_id (local_bundle l))) d3) as (x2 & Hf2);
    [done|done|by destruct p..| |by eapply own_fingerprint_runs|].
  { destruct p. cbn in *. by subst. }
  eexists. split.
  - unfold answer_with, events, happens. change {| panel := p; shared := sh; device := d |} with (window p sh d).
    rewrite (mbind_Ok _ _ _ _ _ Hf1), (mbind_Ok _ _ _ _ _ Hf2). done.
  - destruct p. cbn in *. subst. by split_and!.
Qed.

(** A book in which the nickname gives this identity, with this secret. *)
Definition knows (nick : str) (i : IdentityBundle) (secret : bytes) (s : LiveState) : Prop :=
  exists p ps, find_peer nick s = Some p /\ peer_state p = Ok ps /\ p_identity ps = i /\ p_rendezvous ps = secret /\
    zlen secret = 32.

(** The pairing of two devices, with the messages carried by hand. *)
Lemma pairing_by_hand c da la sa ha na db lb sb hb nb nick_a nick_b :
  spoken c -> presentable da la sa ha na -> presentable db lb sb hb nb ->
  bundle_id (local_bundle la) <> bundle_id (local_bundle lb) ->
  free_for nick_b (bundle_id (local_bundle lb)) sa -> free_for nick_a (bundle_id (local_bundle la)) sb ->
  exists sta ma da1 stb mb db1,
    pair_begin c da = (Ok (sta, ma), da1) /\ pair_begin c db = (Ok (stb, mb), db1) /\
    presentable da1 la sa ha na /\ presentable db1 lb sb hb nb /\
    forall pa pb, pasted ma pa -> pasted mb pb -> blank pa = false /\ blank pb = false /\
    exists ch sealed_a da2 sealed_b db2 sa' sb',
      pair_exchange sta (trim pb) da1 = (Ok (ch, sealed_a), da2) /\ pair_exchange stb (trim pa) db1 = (Ok (ch, sealed_b), db2) /\
      presentable da2 la sa ha na /\ presentable db2 lb sb hb nb /\
      knows nick_b (local_bundle lb) (rendezvous ch) sa' /\ knows nick_a (local_bundle la) (rendezvous ch) sb' /\
      forall qa qb, pasted sealed_a qa -> pasted sealed_b qb -> fits sa' -> fits sb' -> blank qa = false /\ blank qb = false /\
      exists da3 db3,
        pair_complete ch (trim qb) nick_b da2 = (Ok (ticket_of lb hb nb), da3) /\
        pair_complete ch (trim qa) nick_a db2 = (Ok (ticket_of la ha na), db3) /\
        presentable da3 la sa' ha na /\ presentable db3 lb sb' hb nb.
Proof.
  intros Hc Hda Hdb Hne Hfa Hfb. pose proof (display_typed c Hc) as Ht.
  destruct (pairing_stores_the_same_secret c (display c) (display c) da la sa ha na db lb sb hb nb nick_a nick_b)
    as (sta & ma & da1 & stb & mb & db1 & Hba & Eda1 & Hbb & Edb1 & Hda1 & Hdb1 & Hex); [done..|].
  rewrite (parse_typed c) in Hba, Hbb by done. cbn [lib map_err obind] in Hba, Hbb.
  assert (Hba' : pair_begin c da = (Ok (sta, ma), da1)) by (rewrite <- Hba, <- Eda1; by destruct (pair_begin c da)).
  assert (Hbb' : pair_begin c db = (Ok (stb, mb), db1)) by (rewrite <- Hbb, <- Edb1; by destruct (pair_begin c db)).
  exists sta, ma, da1, stb, mb, db1. do 4 (split; [done|]). intros pa pb Hpa Hpb.
  destruct (begun_message _ _ _ _ _ Hba') as [Hpla Hnma]. destruct (begun_message _ _ _ _ _ Hbb') as [Hplb Hnmb].
  split; [by apply (pasted_not_blank ma)|]. split; [by apply (pasted_not_blank mb)|].
  destruct (Hex (trim pa) (trim pb)) as (ch & sealed_a & da2 & sealed_b & db2 & Hxa & Hxb & Hda2 & Hdb2 & Hrest);
    [by apply pasted_bare..|]. clear Hex.
  destruct Hrest as (sa' & sb' & p & q & ps & qs & Hr & Hp & Hps & Hpi & Hpr & Hq & Hqs & Hqi & Hqr & _ & _ & Hfin_a & Hfin_b).
  exists ch, sealed_a, da2, sealed_b, db2, sa', sb'. do 4 (split; [done|]).
  split; [by exists p, ps|]. split; [by exists q, qs|]. intros qa qb Hqa Hqb Hfit_a Hfit_b.
  destruct (sealed_plain _ _ _ _ _ _ Hxa) as [Hplsa Hnsa]. destruct (sealed_plain _ _ _ _ _ _ Hxb) as [Hplsb Hnsb].
  split; [by apply (pasted_not_blank sealed_a)|]. split; [by apply (pasted_not_blank sealed_b)|].
  destruct (Hfin_a Hfit_a (trim qb)) as (da3 & Hca & Hsta & Hoka); [by apply pasted_bare|].
  destruct (Hfin_b Hfit_b (trim qa)) as (db3 & Hcb & Hstb & Hokb); [by apply pasted_bare|].
  exists da3, db3. split_and!; [done..| |]; by eapply presentable_paired.
Qed.

(** Two people pair through their windows.  Both panels wait for a code, both books
    have an address and the nicknames are free or the other's already.  Each types a
    nickname and the code they agreed on, in any grouping and case, and clicks; sends
    the text shown and pastes the other's, however the messenger mangled its case and
    its edges, and clicks; and once more.  Nothing fails and no window panics.  Both
    panels end at the comparison of fingerprints, where each shows as theirs what the
    other shows as its own; the other is selected as the peer to transfer with; and
    both books give, under the nickname without its spaces, the other's identity and
    one and the same secret. *)
Theorem two_windows_pair c ta tb wa la sa ha na wb lb sb hb nb nick_a nick_b :
  spoken c -> typed c ta -> typed c tb -> waiting wa -> waiting wb ->
  presentable (device wa) la sa ha na -> presentable (device wb) lb sb hb nb ->
  bundle_id (local_bundle la) <> bundle_id (local_bundle lb) ->
  blank nick_a = false -> blank nick_b = false ->
  free_for (trim nick_b) (bundle_id (local_bundle lb)) sa -> free_for (trim nick_a) (bundle_id (local_bundle la)) sb ->
  exists wa1 wb1, events (begin_with nick_b ta) wa = (Ok tt, wa1) /\ events (begin_with nick_a tb) wb = (Ok tt, wb1) /\
    forall pa pb, pasted (our_blob (panel wa1)) pa -> pasted (our_blob (panel wb1)) pb ->
    exists wa2 wb2 secret sa' sb', events (answer_with pb) wa1 = (Ok tt, wa2) /\ events (answer_with pa) wb1 = (Ok tt, wb2) /\
      knows (trim nick_b) (local_bundle lb) secret sa' /\ knows (trim nick_a) (local_bundle la) secret sb' /\
      forall qa qb, pasted (our_blob (panel wa2)) qa -> pasted (our_blob (panel wb2)) qb -> fits sa' -> fits sb' ->
      exists wa3 wb3, events (answer_with qb) wa2 = (Ok tt, wa3) /\ events (answer_with qa) wb2 = (Ok tt, wb3) /\
        stage (panel wa3) = Paired /\ stage (panel wb3) = Paired /\
        peer_fingerprint (panel wa3) = our_fingerprint (panel wb3) /\
        peer_fingerprint (panel wb3) = our_fingerprint (panel wa3) /\
        selected_peer (panel wa3) = trim nick_b /\ selected_peer (panel wb3) = trim nick_a /\
        stored (device wa3) la sa' /\ stored (device wb3) lb sb'.
Proof.
  intros Hc Hta Htb Hwa Hwb Hda Hdb Hne Hna Hnb Hfa Hfb.
  destruct (pairing_by_hand c (device wa) la sa ha na (device wb) lb sb hb nb (trim nick_a) (trim nick_b))
    as (sta & ma & da1 & stb & mb & db1 & Hba & Hbb & Hda1 & Hdb1 & Hex); [done..|].
  destruct (begin_with_runs wa nick_b ta c la sa ha na sta ma da1) as (wa1 & Hea1 & <- & Hxa1); [done..|].
  destruct (begin_with_runs wb nick_a tb c lb sb hb nb stb mb db1) as (wb1 & Heb1 & <- & Hxb1); [done..|].
  exists wa1, wb1. split; [exact Hea1|]. split; [exact Heb1|]. intros pa pb Hpa Hpb.
  pose proof Hxa1 as (_ & _ & _ & _ & Hma & _). pose proof Hxb1 as (_ & _ & _ & _ & Hmb & _). rewrite Hma in Hpa. rewrite Hmb in Hpb.
  destruct (Hex pa pb Hpa Hpb) as (Hna1 & Hnb1 & ch & sealed_a & da2 & sealed_b & db2 & sa' & sb' & Hxa & Hxb & Hda2 & Hdb2 & Hka & Hkb & Hfin).
  destruct (answer_exchange wa1 nick_b sta None ma pb ch sealed_a da2 la sa ha na) as (wa2 & Hea2 & <- & Hxa2); [done..|].
  destruct (answer_exchange wb1 nick_a stb None mb pa ch sealed_b db2 lb sb hb nb) as (wb2 & Heb2 & <- & Hxb2); [done..|].
  exists wa2, wb2, (rendezvous ch), sa', sb'. do 4 (split; [done|]). intros qa qb Hqa Hqb Hfit_a Hfit_b.
  pose proof Hxa2 as (_ & _ & _ & _ & Hsa2 & _). pose proof Hxb2 as (_ & _ & _ & _ & Hsb2 & _). rewrite Hsa2 in Hqa. rewrite Hsb2 in Hqb.
  destruct (Hfin qa qb Hqa Hqb Hfit_a Hfit_b) as (Hna2 & Hnb2 & da3 & db3 & Hca & Hcb & Hda3 & Hdb3).
  destruct (answer_complete wa2 nick_b ch sealed_a qb (ticket_of lb hb nb) da3 la sa sa' ha na) as (wa3 & Hea3 & <- & Hs3a & Hpfa & Hofa & Hsel_a); [done..|].
  destruct (answer_complete wb2 nick_a ch sealed_b qa (ticket_of la ha na) db3 lb sb sb' hb nb) as (wb3 & Heb3 & <- & Hs3b & Hpfb & Hofb & Hsel_b); [done..|].
  exists wa3, wb3. rewrite Hpfa, Hofb, Hpfb, Hofa. destruct Hda3, Hdb3. by split_and!.
Qed.
End scripts.

(** ** What the panel cannot do *)

Section limits.
Context `{UnicodeCase} `{Aead} `{!AeadLaws _} `{Blake3} `{Base32} `{Sha256} `{SignatureLib} `{Spake2}.
Context `{ServerNames} `{SocketText} `{Json} `{!JsonLaws _} `{Generation}.

(** The part of the panel a pairing is in. *)
Definition progress_of (p : Panel) : LiveStage * option PairingState * option PairedChannel := (stage p, pairing p, channel p).
Definition same_progress (w w' : Window) : Prop := progress_of (panel w') = progress_of (panel w).
#[local] Instance same_progress_preorder : PreOrder same_progress.
Proof. split; [by intros w|]. unfold same_progress. intros w1 w2 w3. congruence. Qed.

Lemma steady_panel (f : Panel -> Panel) : (forall p, progress_of (f p) = progress_of p) -> keeps same_progress (on_panel (E := error) f).
Proof. intros Hf w. apply Hf. Qed.
Lemma steady_trying {A} (m : D A) : keeps same_progress (trying m).
Proof. intros w. unfold same_progress, trying. by destruct (m (device w)). Qed.
Lemma steady_lift {A} (m : D A) : keeps same_progress (lift_device m).
Proof. intros w. unfold same_progress, lift_device. by destruct (m (device w)). Qed.
Lemma steady_edit b x set : (forall t p, progress_of (set t p) = progress_of p) -> keeps same_progress (edit (E := error) b x set).
Proof. intros Hs w. destruct x, b; try done. apply Hs. Qed.
Lemma steady_if {A} (b : bool) (m k : M error Window A) :
  keeps same_progress m -> keeps same_progress k -> keeps same_progress (if b then m else k).
Proof. by destruct b. Qed.

Ltac steady := repeat first
  [ apply keeps_ret; exact _ | apply keeps_gets; exact _ | apply steady_trying | apply steady_lift
  | apply steady_panel; by intros [] | apply steady_edit; by intros ? [] | apply keeps_bind; [exact _| |intros ?] | apply steady_if
  | match goal with |- keeps _ (match ?x with _ => _ end) => destruct x end | done ].

Lemma identity_card_steady i : keeps same_progress (live_identity_card i).
Proof. unfold live_identity_card, of_panel. steady. Qed.
Lemma transfer_card_steady busy i : keeps same_progress (live_transfer_card busy i).
Proof. unfold live_transfer_card, transfer_buttons, start_live_transfer, on_shared, of_panel. steady. Qed.
Lemma status_line_steady : keeps same_progress live_status_line.
Proof. intros w. unfold same_progress, live_status_line. cbn. destruct (is_empty _); [done|]. by destruct (panel w). Qed.

(** Round one has failed: its state is spent, and there is no channel. *)
Definition stranded (w : Window) : Prop := progress_of (panel w) = (Exchange, None, None).

Lemma pairing_card_stranded busy i w : stranded w -> stranded (snd (live_pairing_card busy i w)).
Proof.
  unfold stranded. destruct w as [[r st c oc n ob pb pa ch f g sp vp sv s] sh d]. cbn. intros [= -> -> ->].
  unfold live_pairing_card, edit, of_panel, on_panel, continue_pairing, mbind, gets, mret.
  destruct (nickname_edit i), (code_edit i), (blob_edit i); cbn; destruct (_ && continue_click i); done.
Qed.

(** What is left of a frame after the pairing card. *)
Lemma rest_stranded busy i w : stranded w -> stranded (snd ((let! _ := live_transfer_card busy i in live_status_line) w)).
Proof.
  intros Hw. assert (Hk : same_progress w (snd ((let! _ := live_transfer_card busy i in live_status_line) w))).
  { apply (keeps_bind same_progress); [apply transfer_card_steady|intros _; apply status_line_steady]. }
  unfold stranded, same_progress in *. congruence.
Qed.

Lemma failed_exchange_strands p sh d l s st e d' :
  stored d l s -> stage p = Exchange -> pairing p = Some st -> channel p = None -> done sh = true -> blank (peer_blob p) = false ->
  pair_exchange st (trim (peer_blob p)) d = (Err e, d') ->
  stranded (snd (show_live_panel clicking_continue (window p sh d))).
Proof.
  intros Hd Hst Hp Hch Hdone Hb Hx. unfold show_live_panel. unfold mbind at 1, gets. cbn [shared window].
  rewrite (mbind_Ok _ _ _ _ _ (identity_card_quiet clicking_continue p sh d l s (on_card_pairing _ _ _ _ _) Hd)).
  assert (Hc : live_pairing_card (negb (done sh)) clicking_continue (window p sh d)
    = (Ok tt, window (set_status (Failed e) (set_pairing None p)) sh d')).
  { destruct p. cbn in *. subst. unfold clicking_continue, live_pairing_card, edit, of_panel, on_panel, mbind, gets, mret. cbn.
    rewrite Hb, Hdone. cbn. unfold continue_pairing, trying, of_panel, on_panel, mbind, gets. cbn. by rewrite Hx. }
  rewrite (mbind_Ok _ _ _ _ _ Hc). apply rest_stranded. destruct p. cbn in *. by subst.
Qed.

(** A first message that does not work (a wrong blob pasted, a peer with another code)
    leaves the panel at the exchange for good: no button and no thread leads out. *)
Lemma stranded_for_good es w : stranded w -> stranded (snd (events es w)).
Proof.
  assert (Hk : forall w w', same_progress w w' -> stranded w -> stranded w') by (intros w1 w2; unfold stranded, same_progress; congruence).
  assert (Hframe : forall i w, stranded w -> stranded (snd (show_live_panel i w))).
  { intros i w1 Hw. unfold show_live_panel. unfold mbind at 1, gets. pose proof (identity_card_steady i w1) as Hi.
    unfold mbind at 1. destruct (live_identity_card i w1) as [[[]|e|] w2]; [|by apply (Hk w1)..]. apply (Hk w1) in Hi; [|done].
    pose proof (pairing_card_stranded (negb (done (shared w1))) i w2 Hi) as Hp.
    unfold mbind at 1. destruct (live_pairing_card _ i w2) as [[[]|e|] w3]; [|done..].
    by apply rest_stranded. }
  revert w. induction es as [|e es IH]; intros w Hw; [done|]. cbn [events]. unfold mbind.
  assert (He : stranded (snd (happens e w))).
  { destruct e as [i|t a b|t p|t r]; [by apply Hframe|done..]. }
  destruct (happens e w) as [[[]|x|] w']; [by apply IH|done..].
Qed.

(** Once a transfer has been started, the line at the foot shows the thread's words in
    every frame, over whatever the frame itself had to say. *)
Lemma threads_have_the_last_word i w w' :
  show_live_panel i w = (Ok tt, w') -> is_empty (status_shared (shared w')) = false ->
  live_status (panel w') = status_shared (shared w').
Proof.
  unfold show_live_panel. intros Hr. apply mbind_inv in Hr as (busy & w1 & _ & Hr). apply mbind_inv in Hr as (u1 & w2 & _ & Hr).
  apply mbind_inv in Hr as (u2 & w3 & _ & Hr). apply mbind_inv in Hr as (u3 & w4 & _ & Hr).
  unfold live_status_line in Hr. injection Hr as <-. cbn. intros ->. by destruct (panel w4).
Qed.

(** A frame that does not both change the field and see the click on save saves the
    address already stored; with none stored it saves nothing. *)
Lemma address_field_forgets i w l s :
  socket_parse [] = None -> stored (device w) l s -> my_endpoints s = [] ->
  address_edit i = None \/ save_click i = false -> device (snd (live_identity_card i w)) = device w.
Proof.
  intros Hparse Hd Hm Hi. unfold live_identity_card, mbind at 1, trying, identity_summary.
  rewrite (mbind_Ok _ _ _ _ _ (stored_identity _ l s Hd)), (mbind_Ok _ _ _ _ _ (stored_load _ l s Hd)). cbn.
  rewrite Hm. cbn. destruct Hi as [-> | Hs].
  - unfold mbind, mret. destruct (save_click i); [|done]. unfold trying, set_endpoints, mbind, lift. cbn.
    unfold parse_endpoint. cbn. by rewrite Hparse.
  - rewrite Hs. by destruct (address_edit i).
Qed.
End limits.

(** ** Examples *)

Import Toy ToySig ToySpake ToyNames ToyBook.

Definition demo_window (n : byte) : Window := initial (lit "/home/u") (demo_device n).
Definition demo_typed : str := lit " K7M2 P9QF-4tz".

Lemma two_windows_pair_witness :
  exists wa1 wb1,
    events (begin_with (lit " bob ") demo_typed) (demo_window Byte.x01) = (Ok tt, wa1) /\
    events (begin_with (lit "alice") (display demo_code)) (demo_window Byte.x02) = (Ok tt, wb1) /\
    forall pa pb, pasted (our_blob (panel wa1)) pa -> pasted (our_blob (panel wb1)) pb ->
    exists wa2 wb2, events (answer_with pb) wa1 = (Ok tt, wa2) /\ events (answer_with pa) wb1 = (Ok tt, wb2).
Proof.
  destruct demo_code_spoken as (Hc & Htb & Hta).
  destruct (two_windows_pair demo_code demo_typed (display demo_code)
    (demo_window Byte.x01) (example_local Byte.x01) (demo_book Byte.x01) [demo_endpoint Byte.x01] 1700000000
    (demo_window Byte.x02) (example_local Byte.x02) (demo_book Byte.x02) [demo_endpoint Byte.x02] 1700000000
    (lit "alice") (lit " bob ") Hc Hta Htb (conj eq_refl eq_refl) (conj eq_refl eq_refl) (demo_presentable _) (demo_presentable _))
    as (wa1 & wb1 & Ha & Hb & Hx).
  - vm_compute. discriminate.
  - reflexivity.
  - reflexivity.
  - intros p Hp. discriminate Hp.
  - intros p Hp. discriminate Hp.
  - exists wa1, wb1. split; [exact Ha|]. split; [exact Hb|]. intros pa pb Hpa Hpb.
    destruct (Hx pa pb Hpa Hpb) as (wa2 & wb2 & secret & sa' & sb' & H1 & H2 & _). exists wa2, wb2. split; [exact H1|exact H2].
Defined.
