(* ===== verification/Terminal.v ===== *)
(** * Live transfers at the terminal

    The commands of [atom live] ([atom/src/commands/live.rs]): what they ask, and what
    they print over the functions that the window uses too. *)

From Stdlib Require Import Strings.Byte.
From stdpp Require Import strings.
From S2P Require Import Prelude Keyed Text Primitives LiveError StateM Disk.
From S2P Require Import Framing Session Pacing Transfer Bundle Net Ticket Slots AddressRecord Discovery.
From S2P Require Import PqAuth Stun Reach Pairing Link Blind ConfigFile PeerBook Live LivePanel.

(** ** The terminal

    What is printed, line by line where a line says something of its own; sizes as
    numbers of bytes. *)
Inductive item :=
  | Note (s : string)
  | OwnId (id fingerprint : str) (hybrid : bool) | Addresses (l : list str) | NoAddress
  | RendezvousNames (names : list str) | NoRendezvous
  | AddressSet (a : str) | DirectWarning
  | PeerLine (nick fingerprint : str) (hybrid : bool) | FindableById | PairedBefore (expired : bool)
  | LastReached (h : str) | FromPairing (h : str) | BadTicket (nick : str) (e : Error.t) | NoPeers
  | CodeGiven | YourCode (code nick : str) | Round1 (nick msg : str) | Round2 (nick msg : str)
  | PairedWith (nick fingerprint : str) (hybrid : bool) (own_fingerprint : str)
  | Meeting (peer : str) | Resuming (n : Z) | Percent (pct transferred total : Z) | Verified (n : Z) | Cover (n : Z)
  | ReachedVia (p : Path) | EndpointSaw | SavedTo (p : str)
  | Announced (peer : str) (via : list string) (failed : list (string * Error.t))
  | EndpointStored (updated : bool) (name : str) | Pinned (pins : Z) | EndpointSees
  | ServerLinkIs (text : str) | OnionOnly
  | EndpointLine (name label : str) (pins : Z) (via : option str) | BadLink (name : str) (e : Error.t) | Removed (name : str)
  | StunWarning (server : str) | External (a : str).

(** The device and what it connects through; the lines that will be typed ([None]: the
    reading fails), and what has been printed. *)
Record Term (W : Type) := { machine : Machine W; typing : list (option str); printed : list item }.
Arguments machine {W} _.
Arguments typing {W} _.
Arguments printed {W} _.

(** [Endpoint]s of a [.onion] address, told by their text. *)
Definition onion_text (a : str) : bool := contains (lit ".onion") a.

Section terminal.
Context `{UnicodeCase} `{Aead} `{Blake3} `{Base32} `{Sha256} `{SignatureLib} `{Spake2}.
Context `{ServerNames} `{SocketText} `{Json} `{Generation}.
Context {W : Type} `{Transport W Chan} `{Exporter Chan}.

(** As in [Live]; and the socket of a STUN query: whether its port can be bound, whether
    the query can be sent, and what arrives. *)
Context (shown : str -> string) (wire : BlindEndpoint -> bytes -> M Error.t W stream).
Context (env : environment) (fuel : nat) (g : rng).
Context (can_bind : Z -> bool) (can_send : bool) (arriving : Stun.Wire).

Abbreviation T := (M error (Term W)).

Definition on_machine {A} (m : M error (Machine W) A) : T A := fun s =>
  let (r, x) := m (machine s) in (r, {| machine := x; typing := typing s; printed := printed s |}).
Definition at_device {A} (m : D A) : T A := on_machine (on_device m).
Definition put (l : list item) : T unit := fun s =>
  (Ok tt, {| machine := machine s; typing := typing s; printed := printed s ++ l |}).

(** [prompt]; at the end of the input the line is empty. *)
Definition prompt : T str := fun s =>
  match typing s with
  | [] => (Ok (trim []), s)
  | None :: rest => (Err (app "stdin"), {| machine := machine s; typing := rest; printed := printed s |})
  | Some line :: rest => (Ok (trim line), {| machine := machine s; typing := rest; printed := printed s |})
  end.

(** ** The identity and the book *)

(** [handle_id]. *)
Definition handle_id : T unit :=
  let! s := at_device identity_summary in
  let! _ := put (OwnId (id_text s) (id_print s) (hybrid s)
                 :: if bool_decide (endpoints s = []) then [NoAddress] else [Addresses (endpoints s)]) in
  let! state := at_device load_state in
  put [if bool_decide (rendezvous_list state = []) then NoRendezvous else RendezvousNames (map ep_name (rendezvous_list state))].

(** [handle_address]. *)
Definition handle_address (address : str) : T unit :=
  let! _ := at_device (set_endpoints [address]) in
  put (AddressSet address :: if onion_text address then [] else [DirectWarning]).

(** One peer of [handle_peers]. *)
Definition peer_lines (now : option Z) (p : LivePeer) : list item :=
  match Ticket.from_text (peer_text p) with
  | Ok t =>
      [PeerLine (PeerBook.nickname p) (Ticket.fingerprint t) (is_hybrid (identity t));
       if bool_decide (is_Some (rendezvous_text p)) then FindableById else PairedBefore (negb (is_ok (check_valid now t)))]
      ++ map LastReached (reached_at p)
      ++ (if bool_decide (reached_at p = []) then map (fun h => FromPairing (endpoint_to_string h)) (hints t) else [])
  | Err e => [BadTicket (PeerBook.nickname p) e]
  | Panic => []
  end.

(** [handle_peers]. *)
Definition handle_peers : T unit :=
  let! state := at_device load_state in
  if bool_decide (peers state = []) then put [NoPeers] else
  let! now := at_device (gets clock) in
  let! _ := lift (if forallb (fun p => match Ticket.from_text (peer_text p) with Panic => false | _ => true end) (peers state)
                  then Ok tt else Panic) in
  put (Note "Paired Peers" :: concat (map (peer_lines now) (peers state))).

(** ** Pairing *)

(** [handle_pair]. *)
Definition handle_pair (nick : str) (code : option str) : T unit :=
  let! ticket := at_device my_ticket in
  let! code :=
    match code with
    | Some c => let! _ := put [CodeGiven] in lift (lib (Pairing.parse c))
    | None => let! c := at_device generate_code in let! _ := put [YourCode (display c) nick] in mret c
    end in
  let! (state, our_msg) := at_device (pair_begin code) in
  let! _ := put [Round1 nick our_msg] in
  let! peer_msg := prompt in
  let! (channel, sealed) := at_device (pair_exchange state peer_msg) in
  let! _ := put [Round2 nick sealed] in
  let! peer_sealed := prompt in
  let! peer := at_device (pair_complete channel peer_sealed nick) in
  put [PairedWith nick (Ticket.fingerprint peer) (is_hybrid (identity peer)) (Ticket.fingerprint ticket)].

(** ** Transfers *)

(** The callback of [run_with_progress]: the percentage last printed, and whether the
    resumption has been noted. *)
Definition percent (p : Progress) : Z :=
  let n := transferred p * 100 in
  if (n <=? u64_max) && negb (p_total p =? 0) then n / p_total p else 100.

Fixpoint progress_lines (last_pct : Z) (resumed_noted : bool) (l : list Progress) : list item :=
  match l with
  | [] => []
  | p :: l =>
      let resumes := (0 <? p_resumed_from p) && negb resumed_noted in
      let pct := percent p in
      (if resumes then [Resuming (p_resumed_from p)] else []) ++
      (if pct =? last_pct then [] else [Percent pct (transferred p) (p_total p)]) ++
      progress_lines pct (resumed_noted || resumes) l
  end.

(** [report_path]. *)
Definition path_lines (p : Path) : list item :=
  ReachedVia p :: (if bool_decide (p = Discovered) then [EndpointSaw] else []).

(** The rung [run_transfer] reports, if it gets that far. *)
Definition rung (nick : str) (s : Machine W) : option Path :=
  let starts : M error (Machine W) (result (Chan * Path)) :=
    let! state := on_device load_state in
    let! p := on_device (stored_peer nick) in
    let! me := on_device load_or_create_identity in
    let! bind := on_device bind_address in
    let! discovery := lift (discovery_from (rendezvous_list state)) in
    let! ps := lift (peer_state p) in
    gets (fun s => fst (attempt shown wire fuel g me discovery ps bind (world s))) in
  match fst (starts s) with Ok (Ok (_, p)) => Some p | _ => None end.

(** [run_with_progress], for the transfer [run] with the peer [nick], which is begun if
    [ready]. *)
Definition run_with_progress (nick : str) (ready : bool) (run : M error (Machine W) Summary) : T unit :=
  let! _ := put [Meeting nick] in
  let! path := gets (fun s => if ready then rung nick (machine s) else None) in
  let! _ := put (from_option path_lines [] path) in
  let! before := gets (fun s => log (payload (machine s))) in
  let! summary := (fun s =>
    let (r, s) := on_machine run s in
    (r, {| machine := machine s; typing := typing s;
           printed := printed s ++ progress_lines u64_max false (drop (length before) (log (payload (machine s)))) |})) in
  put (Verified (total summary) :: if 0 <? cover_frames summary then [Cover (cover_frames summary)] else []).

(** [handle_send], [handle_receive]. *)
Definition handle_send (exists_ : bool) (peer : str) : T unit :=
  run_with_progress peer exists_ (send_core shown wire env fuel g exists_ peer).
Definition handle_receive (folder_made : bool) (save_path peer : str) : T unit :=
  let! _ := run_with_progress peer folder_made (receive_core shown wire env fuel g folder_made peer) in
  put [SavedTo save_path].

(** ** Rendezvous endpoints *)

(** [handle_announce]. *)
Definition handle_announce (peer : option str) (millis : option Z) : T unit :=
  let! outcomes := on_machine (announce_core shown wire g peer millis) in
  put (map (fun o => Announced (announced_to o) (reached o) (not_reached o)) outcomes).

(** [handle_rendezvous_add]: what was done is printed before it is saved. *)
Definition handle_rendezvous_add (link : str) (name via : option str) : T unit :=
  let! parsed := lift (lib (Link.from_text link)) in
  let! name := match name with Some n => mret n | None => lift (lib (Link.label parsed)) end in
  let cfg := {| ep_name := name; ep_link := Link.to_text parsed; ep_via_socks := via |} in
  let! _ := lift (ep_build cfg) in
  let! state := at_device load_state in
  let same := is_key ep_name name in
  let updated := existsb same (rendezvous_list state) in
  let! _ := put [EndpointStored updated name] in
  let! _ := at_device (save_state {| my_endpoints := my_endpoints state; peers := peers state;
    rendezvous_list := if updated then update_first same (fun _ => cfg) (rendezvous_list state)
                       else rendezvous_list state ++ [cfg] |}) in
  put (Pinned (zlen (l_pins parsed)) :: if bool_decide (via = None) then [EndpointSees] else []).

(** [handle_rendezvous_link]. *)
Fixpoint parse_pins (l : list str) : outcome error (list bytes) :=
  match l with
  | [] => Ok []
  | p :: l => let? b := lib (parse_pin p) in let? bs := parse_pins l in Ok (b :: bs)
  end.

Definition handle_rendezvous_link (host : str) (port : Z) (prefix : str) (pins : list str) (onion : option str) : T unit :=
  let! parsed_pins := lift (parse_pins pins) in
  let! onion :=
    match onion with
    | None => mret None
    | Some text =>
        let! e := lift (parse_endpoint text) in
        match e with Onion o => mret (Some o) | Direct _ => fails (app "--onion needs an .onion address with a port") end
    end in
  let! link := lift (lib (link_new Link.Rendezvous host port prefix parsed_pins onion)) in
  put (ServerLinkIs (Link.to_text link) :: if is_onion_only link then [OnionOnly] else []).

(** [handle_rendezvous_list]. *)
Definition endpoint_line (e : RendezvousEndpoint) : outcome error item :=
  match Link.from_text (ep_link e) with
  | Ok link => let? label := lib (Link.label link) in Ok (EndpointLine (ep_name e) label (zlen (l_pins link)) (ep_via_socks e))
  | Err err => Ok (BadLink (ep_name e) err)
  | Panic => Panic
  end.
Fixpoint endpoint_lines (l : list RendezvousEndpoint) : outcome error (list item) :=
  match l with
  | [] => Ok []
  | e :: l => let? i := endpoint_line e in let? is_ := endpoint_lines l in Ok (i :: is_)
  end.
Definition handle_rendezvous_list : T unit :=
  let! state := at_device load_state in
  if bool_decide (rendezvous_list state = []) then put [NoRendezvous] else
  let! l := lift (endpoint_lines (rendezvous_list state)) in
  put (Note "Rendezvous Endpoints" :: l).

(** [handle_rendezvous_remove], over [rendezvous_remove]. *)
Definition handle_rendezvous_remove (name : str) : T unit :=
  let! _ := at_device (rendezvous_remove name) in
  put [Removed name].

(** ** The address outside *)

(** [discover_address]. *)
Definition discover_address (server : str) (port : Z) : T str :=
  let! server := lift (ok_or (socket_parse server) (app "not a host:port")) in
  if negb (can_bind port) then fails (app "bind") else
  let! (found, _) := lift (lib (fst (Stun.discover can_send server (5 * second) g arriving))) in
  let! _ := at_device (set_endpoints [socket_to_string found]) in
  mret (socket_to_string found).

(** [handle_stun]. *)
Definition handle_stun (server : str) (port : Z) : T unit :=
  let! _ := put [StunWarning server] in
  let! found := discover_address server port in
  put [External found].
End terminal.

(** ** What a transfer prints *)

(** Percentages are between 0 and 100, and no two in a row are the same. *)
Lemma percent_range p : 0 <= transferred p <= p_total p -> 0 <= percent p <= 100.
Proof.
  intros Hp. unfold percent. destruct ((_ <=? u64_max) && _) eqn:E; [|lia]. apply andb_true_iff in E as [_ E%negb_true_iff%Z.eqb_neq].
  split; [apply Z.div_pos; lia|]. apply Z.div_le_upper_bound; lia.
Qed.

Definition percents (l : list item) : list Z := omap (fun i => match i with Percent n _ _ => Some n | _ => None end) l.

Lemma percents_move l last noted :
  match percents (progress_lines last noted l) with [] => True | n :: _ => n <> last end /\
  forall i n m, percents (progress_lines last noted l) !! i = Some n -> percents (progress_lines last noted l) !! S i = Some m -> n <> m.
Proof.
  revert last noted. induction l as [|p l IH]; intros last noted; [done|]. cbn [progress_lines]. cbv zeta.
  unfold percents in *. rewrite !omap_app. destruct (IH (percent p) (noted || ((0 <? p_resumed_from p) && negb noted))) as [Hh Hs].
  set (L := omap _ (progress_lines _ _ l)) in *. clearbody L.
  replace (omap _ (if (0 <? p_resumed_from p) && negb noted then [Resuming (p_resumed_from p)] else [])) with ([] : list Z) by (by destruct (_ && _)).
  destruct (percent p =? last) eqn:E; [apply Z.eqb_eq in E; rewrite E in *; done|]. apply Z.eqb_neq in E. cbn. split; [done|].
  intros [|i] n m; cbn; [|apply Hs]. intros [= <-]. destruct L; [done|]. intros [= <-]. congruence.
Qed.

(** ** The book *)

(** [at_device] leaves what was typed and printed alone, and does to the device what the
    function does. *)
Definition acts {A} `{W : Type} (m : M error (Term W) A) (k : D A) : Prop := forall t,
  let (r, t') := m t in let (q, d') := k (Live.device (machine t)) in r = q /\ Live.device (machine t') = d'.

Section book.
Context `{UnicodeCase} `{Aead} `{Blake3} `{Base32} `{Sha256} `{SignatureLib} `{ServerNames} `{SocketText} `{Json}.
Context {W : Type}.

Lemma acts_bind {A B} (m : M error (Term W) A) k (f : A -> M error (Term W) B) h :
  acts m k -> (forall a, acts (f a) (h a)) -> acts (let! x := m in f x) (let! x := k in h x).
Proof.
  intros Hm Hf t. specialize (Hm t). unfold mbind. destruct (m t) as [[a|e|] t1], (k _) as [q d1], Hm as [<- <-]; [apply Hf|done..].
Qed.
Lemma acts_device {A} (m : D A) : acts (W := W) (at_device m) m.
Proof. intros t. unfold at_device, on_machine, on_device. by destruct (m _). Qed.
Lemma acts_lift {A} (x : outcome error A) : acts (W := W) (lift x) (lift x).
Proof. done. Qed.
Lemma acts_after {A} (m : M error (Term W) A) k l : acts m k -> acts (let! _ := put l in m) k.
Proof. intros Hm t. apply (Hm {| machine := machine t; typing := typing t; printed := printed t ++ l |}). Qed.
Lemma acts_before (m : M error (Term W) unit) k l : acts m k -> acts (let! _ := m in put l) k.
Proof. intros Hm t. specialize (Hm t). unfold mbind. destruct (m t) as [[[]|e|] t1], (k _) as [q d1], Hm as [<- <-]; done. Qed.

(** The commands change the book as the operations of [PeerBook] do, and fail when they
    fail. *)
Lemma add_acts link name via : acts (W := W) (handle_rendezvous_add link name via) (rendezvous_add link name via).
Proof.
  apply acts_bind; [apply acts_lift|intros parsed]. apply acts_bind; [destruct name; [done|apply acts_lift]|intros label].
  apply acts_bind; [apply acts_lift|intros _]. apply acts_bind; [apply acts_device|intros state].
  apply acts_after, acts_before, acts_device.
Qed.
Lemma remove_acts name : acts (W := W) (handle_rendezvous_remove name) (rendezvous_remove name).
Proof. apply acts_before, acts_device. Qed.
Lemma address_acts a : acts (W := W) (handle_address a) (set_endpoints [a]).
Proof. apply acts_before, acts_device. Qed.
End book.

(** ** Theorem: a terminal and a window pair *)

Section pairing_terminal.
Context `{UnicodeCase} `{!UnicodeCaseLaws _} `{Aead} `{!AeadLaws _} `{Blake3} `{!Blake3Laws _} `{Base32} `{!Base32Laws _}.
Context `{Sha256} `{!Sha256Laws _} `{SignatureLib} `{Spake2} `{!Spake2Laws _} `{ServerNames} `{SocketText}.
Context `{!SocketTextLaws _} `{Json} `{!JsonLaws _} `{Generation}.
Context {W : Type}.

Abbreviation term m l out := (Build_Term W m l out).

(** The machine with another state of the device. *)
Definition with_device (m : Machine W) (d : Device) : Machine W := {| Live.device := d; world := world m; payload := payload m |}.

Lemma at_device_runs {A} (m : D A) x l out r d : m (Live.device x) = (r, d) -> at_device m (term x l out) = (r, term (with_device x d) l out).
Proof. unfold at_device, on_machine, on_device. cbn [machine typing printed]. by intros ->. Qed.

Lemma typed_line x s l out : prompt (term x (Some s :: l) out) = (Ok (trim s), term x l out).
Proof. done. Qed.

Lemma put_runs n x l out : put n (term x l out) = (Ok tt, term x l (out ++ n)).
Proof. done. Qed.

Lemma generate_fresh g c g' : rng_total g -> Pairing.generate g = Ok (c, g') -> rng_total g'.
Proof.
  intros Hg. unfold Pairing.generate. destruct (getrandom_fill_total ((CODE_BITS + 7) / 8) rng_unavailable g Hg ltac:(done)) as (raw & -> & _).
  cbn [obind]. destruct (str_slice _ _ _); [|done..]. cbn [obind]. intros [= _ <-]. by apply rng_total_skip.
Qed.

(** A code is drawn, and nothing else about the device changes. *)
Lemma code_drawn d l s hs now :
  presentable d l s hs now -> exists c d', generate_code d = (Ok c, d') /\ spoken c /\ presentable d' l s hs now.
Proof.
  intros Hp. pose proof Hp as (((_ & Hg & _) & _) & _). destruct (generate_spoken (entropy d) Hg) as (c & g & Hc & _ & Hs).
  exists c, (set_entropy g d). split; [|split; [done|apply presentable_entropy; [done|by eapply generate_fresh]]].
  unfold generate_code, drawing. by rewrite Hc.
Qed.

(** The whole command, from the runs of its rounds. *)
Lemma handle_pair_runs nick c pb qb rest x out d0 st ma d1 ch sealed d2 y d3 l s hs now :
  presentable (Live.device x) l s hs now -> generate_code (Live.device x) = (Ok c, d0) ->
  pair_begin c d0 = (Ok (st, ma), d1) -> pair_exchange st (trim pb) d1 = (Ok (ch, sealed), d2) ->
  pair_complete ch (trim qb) nick d2 = (Ok y, d3) ->
  handle_pair nick None (term x (Some pb :: Some qb :: rest) out) =
  (Ok tt, term (with_device x d3) rest
    (out ++ [YourCode (display c) nick; Round1 nick ma; Round2 nick sealed;
             PairedWith nick (Ticket.fingerprint y) (is_hybrid (identity y)) (id_fingerprint (bundle_id (local_bundle l)))])).
Proof.
  intros Hp Hc Hb Hx Hy. unfold handle_pair.
  rewrite (mbind_Ok _ _ _ _ _ (at_device_runs _ _ _ _ _ _ (my_ticket_runs _ _ _ _ _ Hp))).
  assert (Hshow : (let! c := at_device generate_code in let! _ := put [YourCode (display c) nick] in mret c)
      (term (with_device x (Live.device x)) (Some pb :: Some qb :: rest) out)
    = (Ok c, term (with_device x d0) (Some pb :: Some qb :: rest) (out ++ [YourCode (display c) nick]))).
  { rewrite (mbind_Ok _ _ _ _ _ (at_device_runs _ (with_device x (Live.device x)) _ _ _ _ Hc)). done. }
  rewrite (mbind_Ok _ _ _ _ _ Hshow).
  rewrite (mbind_Ok _ _ _ _ _ (at_device_runs _ (with_device x d0) _ _ _ _ Hb)). cbn beta iota.
  rewrite (mbind_Ok _ _ _ _ _ (put_runs _ _ _ _)), (mbind_Ok _ _ _ _ _ (typed_line _ _ _ _)).
  rewrite (mbind_Ok _ _ _ _ _ (at_device_runs _ (with_device _ d1) _ _ _ _ Hx)). cbn beta iota.
  rewrite (mbind_Ok _ _ _ _ _ (put_runs _ _ _ _)), (mbind_Ok _ _ _ _ _ (typed_line _ _ _ _)).
  rewrite (mbind_Ok _ _ _ _ _ (at_device_runs _ (with_device _ d2) _ _ _ _ Hy)). cbn beta iota.
  rewrite put_runs. by rewrite <- !app_assoc.
Qed.

(** C34: One person runs [atom live pair] at a terminal without a code, the other has a
    window that waits for one.  Both books have an address, and the nicknames are free
    or the other's already.  The command gives a code; whoever types it in any grouping
    and case in the window, and carries the two pairs of messages across however the
    messenger mangled their case and edges, ends with both sides paired.  The terminal
    has then printed, in this order, the code, its two messages, and as the peer's
    fingerprint the one the window shows as its own, as its own the one the window shows
    as the peer's; both books give under the nickname the other's identity and one and
    the same secret; and the lines typed after that are still there to be read. *)
Theorem terminal_pairs_with_window x rest out la sa ha na wb lb sb hb nb nick_a nick_b :
  presentable (Live.device x) la sa ha na -> waiting wb -> presentable (device wb) lb sb hb nb ->
  bundle_id (local_bundle la) <> bundle_id (local_bundle lb) -> blank nick_a = false ->
  free_for nick_b (bundle_id (local_bundle lb)) sa -> free_for (trim nick_a) (bundle_id (local_bundle la)) sb ->
  exists c ma, spoken c /\ forall tb, typed c tb ->
    exists wb1, events (begin_with nick_a tb) wb = (Ok tt, wb1) /\
    forall pa pb, pasted ma pa -> pasted (our_blob (panel wb1)) pb ->
    exists sealed wb2 secret sa' sb', events (answer_with pa) wb1 = (Ok tt, wb2) /\
      knows nick_b (local_bundle lb) secret sa' /\ knows (trim nick_a) (local_bundle la) secret sb' /\
      forall qa qb, pasted sealed qa -> pasted (our_blob (panel wb2)) qb -> fits sa' -> fits sb' ->
      exists d wb3, events (answer_with qa) wb2 = (Ok tt, wb3) /\
        handle_pair nick_b None (term x (Some pb :: Some qb :: rest) out) =
        (Ok tt, term (with_device x d) rest
          (out ++ [YourCode (display c) nick_b; Round1 nick_b ma; Round2 nick_b sealed;
                   PairedWith nick_b (our_fingerprint (panel wb3)) (is_hybrid (local_bundle lb)) (peer_fingerprint (panel wb3))])) /\
        stage (panel wb3) = Paired /\ selected_peer (panel wb3) = trim nick_a /\
        stored d la sa' /\ stored (device wb3) lb sb'.
Proof.
  intros Hda Hwb Hdb Hne Hna Hfa Hfb.
  destruct (code_drawn _ _ _ _ _ Hda) as (c & d0 & Hcode & Hc & Hd0).
  destruct (pairing_by_hand c d0 la sa ha na (device wb) lb sb hb nb (trim nick_a) nick_b)
    as (sta & ma & da1 & stb & mb & db1 & Hba & Hbb & Hda1 & Hdb1 & Hex); [done..|].
  exists c, ma. split; [done|]. intros tb Htb.
  destruct (begin_with_runs wb nick_a tb c lb sb hb nb stb mb db1) as (wb1 & Heb1 & <- & Hxb1); [done..|].
  exists wb1. split; [exact Heb1|]. intros pa pb Hpa Hpb. pose proof Hxb1 as (_ & _ & _ & _ & Hmb & _). rewrite Hmb in Hpb.
  destruct (Hex pa pb Hpa Hpb) as (Hn1 & _ & ch & sealed_a & da2 & sealed_b & db2 & sa' & sb' & Hxa & Hxb & Hda2 & Hdb2 & Hka & Hkb & Hfin).
  destruct (answer_exchange wb1 nick_a stb None mb pa ch sealed_b db2 lb sb hb nb) as (wb2 & Heb2 & <- & Hxb2); [done..|].
  exists sealed_a, wb2, (rendezvous ch), sa', sb'. do 3 (split; [done|]). intros qa qb Hqa Hqb Hfit_a Hfit_b.
  pose proof Hxb2 as (_ & _ & _ & _ & Hsb2 & _). rewrite Hsb2 in Hqb.
  destruct (Hfin qa qb Hqa Hqb Hfit_a Hfit_b) as (Hn2 & _ & da3 & db3 & Hca & Hcb & Hda3 & Hdb3).
  destruct (answer_complete wb2 nick_a ch sealed_b qa (ticket_of la ha na) db3 lb sb sb' hb nb) as (wb3 & Heb3 & <- & Hs3 & Hpf & Hof & Hsel); [done..|].
  exists da3, wb3. rewrite Hpf, Hof. split; [done|]. split.
  - by apply (handle_pair_runs nick_b c pb qb rest x out d0 sta ma da1 ch sealed_a da2 (ticket_of lb hb nb) da3 la sa ha na).
  - destruct Hda3, Hdb3. by split_and!.
Qed.
End pairing_terminal.

(** ** Examples *)

Import Toy ToySig ToySpake ToyNames ToyBook ToyLive.

Definition demo_machine (n : byte) : Machine ToyNet.World :=
  {| Live.device := demo_device n; world := {| ToyNet.clock := 0 |}; payload := idle None |}.

Lemma terminal_pairs_with_window_witness :
  exists c ma, spoken c /\ forall tb, typed c tb ->
    exists wb1, events (begin_with (lit " alice") tb) (demo_window Byte.x02) = (Ok tt, wb1) /\
    forall pa pb, pasted ma pa -> pasted (our_blob (panel wb1)) pb ->
    exists wb2, events (answer_with pa) wb1 = (Ok tt, wb2).
Proof.
  destruct (terminal_pairs_with_window (demo_machine Byte.x01) [] []
    (example_local Byte.x01) (demo_book Byte.x01) [demo_endpoint Byte.x01] 1700000000
    (demo_window Byte.x02) (example_local Byte.x02) (demo_book Byte.x02) [demo_endpoint Byte.x02] 1700000000
    (lit " alice") (lit "bob") (demo_presentable _) (conj eq_refl eq_refl) (demo_presentable _)) as (c & ma & Hc & Hx).
  - vm_compute. discriminate.
  - reflexivity.
  - intros p Hp. discriminate Hp.
  - intros p Hp. discriminate Hp.
  - exists c, ma. split; [exact Hc|]. intros tb Htb. destruct (Hx tb Htb) as (wb1 & Hb & Hy).
    exists wb1. split; [exact Hb|]. intros pa pb Hpa Hpb.
    destruct (Hy pa pb Hpa Hpb) as (sealed & wb2 & secret & sa' & sb' & He & _). exists wb2. exact He.
Defined.

(** The input ends before the peer's first message: the code and the first message have
    been printed, the command fails, and nobody has been written into the book. *)
Example silence_pairs_nobody :
  let (r, t) := handle_pair (lit "bob") None {| Terminal.machine := demo_machine Byte.x01; typing := []; printed := [] |} in
  (is_ok r, length (printed t), peers_file (Live.device (Terminal.machine t))) = (false, 2%nat, peers_file (demo_device Byte.x01)).
Proof. by vm_compute. Qed.

(** Without an address of one's own no code is shown. *)
Example no_address_no_code :
  let m := demo_machine Byte.x01 in
  let nowhere := {| my_endpoints := []; peers := []; rendezvous_list := [] |} in
  let (r, t) := handle_pair (lit "bob") None
    {| Terminal.machine := {| Live.device := put_file PeersFile (Some (to_json nowhere)) (Live.device m); world := world m; payload := payload m |};
       typing := []; printed := [] |} in
  (is_ok r, printed t) = (false, []).
Proof. by vm_compute. Qed.

(** A percentage is printed when it changes, the resumption once. *)
Definition at_ (n : Z) : Progress := {| transferred := n; p_total := 300; p_resumed_from := 100 |}.
Example progress_is_terse :
  progress_lines u64_max false (map at_ [100; 101; 102; 200; 300])
  = [Resuming 100; Percent 33 100 300; Percent 34 102 300; Percent 66 200 300; Percent 100 300 300].
Proof. done. Qed.
