(* ===== verification/Explorer.v ===== *)
(** * The vault explorer

    [atom/src/gui/explorer.rs], and the polling of [atom/src/gui/mod.rs] that feeds it:
    importing, exporting, opening, deleting and renaming the files of an open vault from
    the window, the slow parts on the broker's threads and in the file dialogs. *)

From Stdlib Require Import Strings.Byte.
From stdpp Require Import strings gmap.
From S2P Require Import Prelude Keyed Text Primitives StateM Disk VaultCrypto Vfs Storage VaultOps VaultSpec.
From S2P Require Import ToyVault Vault.

(** ** The state of the window *)

Inductive Screen := Home | Login | VaultExplorer | CreateVault | P2PDialog.

(** The line at the foot of the explorer: a text, or a text with the error after it, of
    a vault operation or of the broker. *)
Inductive status := Said (text : str) | Because (text : str) (e : vault_error) | Broker (text reason : str).

(** What is asked of the file broker; the answers arrive in a cell of their own, known
    here by the position of the request. *)
Inductive request := ReadFile (p : str) | WriteFile (p : str) (data : bytes) | OpenViewer (data : bytes) (name : str).

Record RenameState := { old_name : str; new_name : str }.

Record Ui := MkUi {
  screen : Screen;
  explorer_status : status;
  pending_import_bytes : option nat;
  pending_import_vfs_name : str;
  pending_export_vfs_name : option str;
  pending_export_write_result : option nat;
  pending_viewer_spawn : option nat;
  viewer_done : option (nat * str);
  rename_dialog : option RenameState;
  asked : list request;
}.

Definition set_screen x a := let 'MkUi _ st ib im en wr vs vd rd q := a in MkUi x st ib im en wr vs vd rd q.
Definition set_status x a := let 'MkUi sc _ ib im en wr vs vd rd q := a in MkUi sc x ib im en wr vs vd rd q.
Definition set_import_bytes x a := let 'MkUi sc st _ im en wr vs vd rd q := a in MkUi sc st x im en wr vs vd rd q.
Definition set_import_name x a := let 'MkUi sc st ib _ en wr vs vd rd q := a in MkUi sc st ib x en wr vs vd rd q.
Definition set_export_name x a := let 'MkUi sc st ib im _ wr vs vd rd q := a in MkUi sc st ib im x wr vs vd rd q.
Definition set_write_result x a := let 'MkUi sc st ib im en _ vs vd rd q := a in MkUi sc st ib im en x vs vd rd q.
Definition set_viewer_spawn x a := let 'MkUi sc st ib im en wr _ vd rd q := a in MkUi sc st ib im en wr x vd rd q.
Definition set_viewer_done x a := let 'MkUi sc st ib im en wr vs _ rd q := a in MkUi sc st ib im en wr vs x rd q.
Definition set_rename x a := let 'MkUi sc st ib im en wr vs vd _ q := a in MkUi sc st ib im en wr vs vd x q.
Definition ask r a := let 'MkUi sc st ib im en wr vs vd rd q := a in MkUi sc st ib im en wr vs vd rd (q ++ [r]).

(** The window, and the vault that is open in it. *)
Record App (S : Type) := { ui : Ui; session : option S }.
Arguments ui {S} _.
Arguments session {S} _.

(** What the explorer asks of an open vault. *)
Inductive renamed := Renamed | NameTaken | NoSuchFile.
Record FileVault (S : Type) := {
  listed : S -> list str;
  import_bytes : bytes -> str -> M vault_error S unit;
  decrypted : str -> M vault_error S bytes;
  removed : str -> M vault_error S unit;
  rename : str -> str -> M vault_error S renamed;
}.
Arguments listed {S} _.
Arguments import_bytes {S} _.
Arguments decrypted {S} _.
Arguments removed {S} _.
Arguments rename {S} _.

Inductive FileAction := Open (name : str) | Export (name : str) | Rename (name : str) | Delete (name : str).

(** One frame's input: the paths the dialogs have come back with, the cells of the
    broker, the viewers that have gone, and what was clicked and typed. *)
Record input := {
  import_path : option str;
  export_path : option str;
  read_result : nat -> option (bytes + str);
  write_result : nat -> option (unit + str);
  spawn_result : nat -> option (unit + str);
  viewer_gone : nat -> bool;
  home_click : bool;
  p2p_click : bool;
  file_click : option FileAction;
  rename_edit : option str;
  rename_save : bool;
  rename_cancel : bool;
}.

(** A frame in which nothing happens. *)
Definition idle : input := {|
  import_path := None; export_path := None; read_result _ := None; write_result _ := None; spawn_result _ := None;
  viewer_gone _ := false; home_click := false; p2p_click := false; file_click := None; rename_edit := None;
  rename_save := false; rename_cancel := false |}.

(** And one with the click on [Home]. *)
Definition leaving : input := {|
  import_path := None; export_path := None; read_result _ := None; write_result _ := None; spawn_result _ := None;
  viewer_gone _ := false; home_click := true; p2p_click := false; file_click := None; rename_edit := None;
  rename_save := false; rename_cancel := false |}.

(** [is_valid_vfs_filename]; [is_valid_vault_name] of [login.rs] is the same function. *)
Definition is_valid_vfs_filename (name : str) : bool :=
  negb (bool_decide (name = [])) && negb (bool_decide (Byte.x2f ∈ name)) &&
  negb (bool_decide (Byte.x5c ∈ name)) && negb (bool_decide (Byte.x00 ∈ name)).

Section explorer.
Context {S : Type} (v : FileVault S).

Abbreviation A := (M vault_error (App S)).

Definition on_ui (f : Ui -> Ui) : A unit := fun a => (Ok tt, {| ui := f (ui a); session := session a |}).
Definition of_ui {B} (f : Ui -> B) : A B := gets (fun a => f (ui a)).

(** An operation on the open vault, its error in hand; none without a vault. *)
Definition with_session {B} (m : M vault_error S B) : A (option (B + vault_error)) := fun a =>
  match session a with
  | None => (Ok None, a)
  | Some s =>
      let (r, s) := m s in
      (match r with Ok b => Ok (Some (inl b)) | Err e => Ok (Some (inr e)) | Panic => Panic end,
       {| ui := ui a; session := Some s |})
  end.

(** ** The operations *)

(** [do_import_bytes]. *)
Definition do_import_bytes (data : bytes) : A unit :=
  let! name := of_ui pending_import_vfs_name in
  let! _ := on_ui (set_import_name []) in
  let! r := with_session (import_bytes v data name) in
  match r with
  | None => mret tt
  | Some (inl _) => on_ui (set_status (Said (lit "Success: " ++ name ++ lit " imported.")))
  | Some (inr e) => on_ui (set_status (Because (lit "Import Error: ") e))
  end.

(** [do_open]. *)
Definition do_open (name : str) : A unit :=
  let! r := with_session (decrypted v name) in
  match r with
  | None => mret tt
  | Some (inr e) => on_ui (set_status (Because (lit "Open failed: ") e))
  | Some (inl data) => on_ui (fun a =>
      let n := length (asked a) in
      set_viewer_done (Some (n, name)) (set_viewer_spawn (Some n) (ask (OpenViewer data name)
        (set_status (Said (lit "Opening " ++ name ++ lit " securely...")) a))))
  end.

(** [do_export_file]. *)
Definition do_export_file (name : str) : A unit :=
  on_ui (fun a => set_status (Said (lit "Choose where to save the decrypted file...")) (set_export_name (Some name) a)).

(** [do_export_via_broker]. *)
Definition do_export_via_broker (path name : str) : A unit :=
  let! r := with_session (decrypted v name) in
  match r with
  | None => mret tt
  | Some (inl data) => on_ui (fun a =>
      set_write_result (Some (length (asked a))) (ask (WriteFile path data) (set_status (Said (lit "Writing file...")) a)))
  | Some (inr e) => on_ui (set_status (Because (lit "Export Error: ") e))
  end.

(** [do_delete]. *)
Definition do_delete (name : str) : A unit :=
  let! r := with_session (removed v name) in
  match r with
  | None => mret tt
  | Some (inl _) => on_ui (set_status (Said (lit "Permanently Shredded: " ++ name)))
  | Some (inr e) => on_ui (set_status (Because (lit "Delete failed: ") e))
  end.

(** The button [Save] of the rename dialog, the dialog taken down. *)
Definition do_rename (st : RenameState) : A unit :=
  if negb (is_valid_vfs_filename (new_name st)) then on_ui (set_status (Said (lit "Rename Error: Invalid characters."))) else
  let! r := with_session (rename v (old_name st) (new_name st)) in
  match r with
  | None | Some (inl NoSuchFile) => mret tt
  | Some (inl NameTaken) => on_ui (set_status (Said (lit "Rename Error: A file with that name already exists.")))
  | Some (inl Renamed) => on_ui (set_status (Said (lit "Renamed to: " ++ new_name st)))
  | Some (inr e) => on_ui (set_status (Because (lit "Rename Error: Failed to save: ") e))
  end.

(** [show_rename_dialog]. *)
Definition show_rename_dialog (i : input) : A unit :=
  let! dialog := of_ui rename_dialog in
  match dialog with
  | None => mret tt
  | Some st =>
      let st := {| old_name := old_name st; new_name := default (new_name st) (rename_edit i) |} in
      let! _ := on_ui (set_rename (Some st)) in
      if rename_save i then let! _ := on_ui (set_rename None) in do_rename st
      else if rename_cancel i then on_ui (set_rename None) else mret tt
  end.

(** ** Polling *)

(** [poll_file_dialog_results], the dialogs of the explorer. *)
Definition poll_import_dialog (i : input) : A unit :=
  match import_path i with
  | None => mret tt
  | Some path => on_ui (fun a =>
      set_status (Said (lit "Reading file...")) (ask (ReadFile path) (set_import_bytes (Some (length (asked a)))
        (set_import_name (from_utf8_lossy (default [] (file_name path))) a))))
  end.

Definition poll_export_dialog (i : input) : A unit :=
  match export_path i with
  | None => mret tt
  | Some path =>
      let! name := of_ui pending_export_vfs_name in
      let! _ := on_ui (set_export_name None) in
      match name with
      | Some name => do_export_via_broker path name
      | None => mret tt
      end
  end.

(** [poll_viewer_done]. *)
Definition poll_viewer_done (i : input) : A unit := on_ui (fun a =>
  match viewer_done a with
  | Some (flag, name) =>
      if viewer_gone i flag then set_status (Said (lit "Closed securely: " ++ name)) (set_viewer_done None a) else a
  | None => a
  end).

(** [poll_broker_results]: each cell that has been filled is emptied. *)
Definition arrived {B} (cells : nat -> option B) (pending : option nat) : option B := n ← pending; cells n.

Definition poll_import_bytes (i : input) : A unit :=
  let! pending := of_ui pending_import_bytes in
  match arrived (read_result i) pending with
  | None => mret tt
  | Some r =>
      let! _ := on_ui (set_import_bytes None) in
      match r with
      | inl data => do_import_bytes data
      | inr e => on_ui (set_status (Broker (lit "Import Error: ") e))
      end
  end.

Definition poll_export_result (i : input) : A unit := on_ui (fun a =>
  match arrived (write_result i) (pending_export_write_result a) with
  | None => a
  | Some r =>
      set_status (match r with inl _ => Said (lit "Success: File exported.") | inr e => Broker (lit "Export Error: ") e end)
        (set_write_result None a)
  end).

Definition poll_viewer_spawn (i : input) : A unit := on_ui (fun a =>
  match arrived (spawn_result i) (pending_viewer_spawn a) with
  | None => a
  | Some (inl _) => set_viewer_spawn None a
  | Some (inr e) => set_viewer_done None (set_status (Broker (lit "Open failed: ") e) (set_viewer_spawn None a))
  end).

Definition poll_broker_results (i : input) : A unit :=
  let! _ := poll_import_bytes i in
  let! _ := poll_export_result i in
  poll_viewer_spawn i.

(** ** A frame *)

Definition file_action (act : FileAction) : A unit :=
  match act with
  | Open name => do_open name
  | Export name => do_export_file name
  | Rename name => on_ui (set_rename (Some {| old_name := name; new_name := name |}))
  | Delete name => do_delete name
  end.

Definition action_name (act : FileAction) : str :=
  match act with Open name | Export name | Rename name | Delete name => name end.

(** [show_vault_explorer]: there is a card for each file of the table. *)
Definition show_vault_explorer (i : input) : A unit :=
  let! file_names := gets (fun a => match session a with Some s => listed v s | None => [] end) in
  let! _ := if home_click i
            then (fun a => (Ok tt, {| ui := set_screen Home (ui a); session := None |})) else mret tt in
  let! _ := if p2p_click i then on_ui (set_screen P2PDialog) else mret tt in
  let! _ := match file_click i with
            | Some act => if bool_decide (action_name act ∈ file_names) then file_action act else mret tt
            | None => mret tt
            end in
  show_rename_dialog i.

(** [update], as far as the explorer goes: what it polls, and what it shows. *)
Definition poll (i : input) : A unit :=
  let! _ := poll_import_dialog i in
  let! _ := poll_export_dialog i in
  let! _ := poll_viewer_done i in
  poll_broker_results i.

Definition show (i : input) : A unit :=
  let! sc := of_ui screen in
  match sc with VaultExplorer => show_vault_explorer i | _ => mret tt end.

Definition update (i : input) : A unit := let! _ := poll i in show i.

Fixpoint frames (l : list input) : A unit :=
  match l with
  | [] => mret tt
  | i :: l => let! _ := update i in frames l
  end.

(** *** The screen *)

(** Polling does not change the screen, and of what is shown only two buttons do. *)
Definition same_screen (a a' : App S) : Prop := screen (ui a') = screen (ui a).
#[local] Instance same_screen_preorder : PreOrder same_screen.
Proof. split; [done|]. intros x y z. unfold same_screen. congruence. Qed.

Lemma screen_ui f : (forall x, screen (f x) = screen x) -> keeps same_screen (on_ui f).
Proof. intros Hf a. apply Hf. Qed.
Lemma screen_session {B} (m : M vault_error S B) : keeps same_screen (with_session m).
Proof. intros a. unfold with_session. destruct (session a) as [s|]; [|done]. by destruct (m s). Qed.

Ltac on_screen := repeat first
  [ by intros ? | apply screen_session | apply keeps_bind; [exact _| |intros ?]
  | match goal with |- keeps same_screen (match ?x with _ => _ end) => destruct x end
  | apply screen_ui; intros []; cbn; repeat case_match; done ].

Lemma poll_screen i : keeps same_screen (poll i).
Proof.
  unfold poll, poll_import_dialog, poll_export_dialog, poll_viewer_done, poll_broker_results, poll_import_bytes,
    poll_export_result, poll_viewer_spawn, do_export_via_broker, do_import_bytes. on_screen.
Qed.

Lemma show_screen i : home_click i = false -> p2p_click i = false -> keeps same_screen (show i).
Proof.
  intros Hh Hp. unfold show, show_vault_explorer, show_rename_dialog, file_action, do_open, do_export_file, do_delete, do_rename.
  rewrite Hh, Hp. on_screen.
Qed.

(** An open vault stays open but for the button [Home], which leads to that screen. *)
Definition still_open (a a' : App S) : Prop := is_Some (session a) -> is_Some (session a').
#[local] Instance still_open_preorder : PreOrder still_open.
Proof. split; [intros x Hx; exact Hx|]. intros x y z Hxy Hyz Hx. by apply Hyz, Hxy. Qed.

Lemma open_ui f : keeps still_open (on_ui f).
Proof. intros a Ha. exact Ha. Qed.
Lemma open_session {B} (m : M vault_error S B) : keeps still_open (with_session m).
Proof. intros a Ha. unfold with_session. destruct (session a) as [s|]; [|done]. destruct (m s). by eexists. Qed.

Ltac stays_open := repeat first
  [ by intros ? | apply open_session | apply open_ui | apply keeps_bind; [exact _| |intros ?]
  | match goal with |- keeps still_open (match ?x with _ => _ end) => destruct x end ].

Lemma poll_open i : keeps still_open (poll i).
Proof.
  unfold poll, poll_import_dialog, poll_export_dialog, poll_viewer_done, poll_broker_results, poll_import_bytes,
    poll_export_result, poll_viewer_spawn, do_export_via_broker, do_import_bytes. stays_open.
Qed.

Lemma show_open i : home_click i = false -> keeps still_open (show i).
Proof.
  intros Hh. unfold show, show_vault_explorer, show_rename_dialog, file_action, do_open, do_export_file, do_delete, do_rename.
  rewrite Hh. stays_open.
Qed.

Lemma show_home i a : home_click i = true -> p2p_click i = false -> screen (ui a) = VaultExplorer ->
  screen (ui (snd (show i a))) = Home.
Proof.
  intros Hh Hp Ha. unfold show, of_ui, mbind at 1, gets. rewrite Ha. unfold show_vault_explorer. rewrite Hh, Hp.
  unfold mbind at 1 2, gets at 1. set (a1 := {| ui := set_screen Home (ui a); session := None |}).
  assert (Ha1 : screen (ui a1) = Home) by (unfold a1; by destruct (ui a)).
  match goal with |- screen (ui (snd (?m a1))) = _ => assert (Hk : keeps same_screen m); [|by rewrite (Hk a1)] end.
  unfold show_rename_dialog, file_action, do_open, do_export_file, do_delete, do_rename. on_screen.
Qed.

(** What is asked of the broker comes from the frame: a path that a dialog has come back
    with, or a file that was clicked; and to write only with a vault open. *)
Definition stems (i : input) (r : request) : Prop :=
  match r with
  | ReadFile p => import_path i = Some p
  | WriteFile p _ => export_path i = Some p
  | OpenViewer _ name => file_click i = Some (Open name)
  end.
Definition no_write (r : request) : Prop := match r with WriteFile _ _ => False | _ => True end.

Definition asks (i : input) (a a' : App S) : Prop :=
  exists rs, asked (ui a') = asked (ui a) ++ rs /\ Forall (stems i) rs /\
    (session a = None -> session a' = None /\ Forall no_write rs).
#[local] Instance asks_preorder i : PreOrder (asks i).
Proof.
  split; [intros x; exists []; rewrite app_nil_r; by split_and!|].
  intros x y z (rs & Hr & Hs & Hn) (rs' & Hr' & Hs' & Hn'). exists (rs ++ rs'). rewrite Hr', Hr, app_assoc.
  split; [done|]. split; [by apply Forall_app_2|]. intros Hx. destruct (Hn Hx) as [Hy Hw]. destruct (Hn' Hy) as [Hz Hw'].
  split; [done|by apply Forall_app_2].
Qed.

Lemma asks_none i a a' : asked (ui a') = asked (ui a) -> (session a = None -> session a' = None) -> asks i a a'.
Proof. intros Ha Hs. exists []. rewrite app_nil_r. split; [done|]. split; [constructor|]. intros Hn. split; [by apply Hs|constructor]. Qed.
Lemma asks_ui i f : (forall x, asked (f x) = asked x) -> keeps (asks i) (on_ui f).
Proof. intros Hf a. by apply asks_none; [apply Hf|]. Qed.
Lemma asks_session {B} i (m : M vault_error S B) : keeps (asks i) (with_session m).
Proof.
  intros a. unfold with_session. destruct (session a) as [s|] eqn:Hs; [|by apply asks_none].
  destruct (m s) as [r s']. apply asks_none; [done|]. by rewrite Hs.
Qed.
Lemma asks_one i r f : no_write r -> stems i r -> (forall x, asked (f x) = asked x ++ [r]) -> keeps (asks i) (on_ui f).
Proof.
  intros Hr Hi Hf a. exists [r]. split; [apply Hf|]. split; [by apply Forall_singleton|]. intros Hn. split; [done|]. by apply Forall_singleton.
Qed.

Ltac asking := repeat first
  [ by intros ?; apply asks_none | apply asks_session | apply keeps_bind; [exact _| |intros ?]
  | match goal with |- keeps (asks _) (match ?x with _ => _ end) => destruct x eqn:? end
  | apply asks_ui; intros []; cbn; repeat case_match; done ].

(** A file is handed out only if it was there to be decrypted. *)
Lemma export_asks i path name : export_path i = Some path -> keeps (asks i) (do_export_via_broker path name).
Proof.
  intros Hp a. unfold do_export_via_broker, mbind, with_session. destruct (session a) as [s|] eqn:Hs; [|by apply asks_none].
  destruct (decrypted v name s) as [[data|e|] s']; cbn.
  - exists [WriteFile path data]. cbn. split; [by destruct (ui a)|]. split; [by apply Forall_singleton|]. by rewrite Hs.
  - apply asks_none; cbn; [by destruct (ui a)|by rewrite Hs].
  - apply asks_none; cbn; [done|by rewrite Hs].
Qed.

Lemma poll_asks i : keeps (asks i) (poll i).
Proof.
  unfold poll, poll_import_dialog, poll_export_dialog, poll_viewer_done, poll_broker_results, poll_import_bytes,
    poll_export_result, poll_viewer_spawn, do_import_bytes.
  apply keeps_bind; [exact _| |intros _].
  { destruct (import_path i) as [p|] eqn:Hp; [|asking]. apply (asks_one i (ReadFile p)); [done..|]. by intros []. }
  apply keeps_bind; [exact _| |intros _].
  { destruct (export_path i) as [p|] eqn:Hp; [|asking].
    apply keeps_bind; [exact _|asking|intros name]. apply keeps_bind; [exact _|asking|intros _].
    destruct name as [name|]; [by apply export_asks|asking]. }
  asking.
Qed.

Lemma show_asks i : keeps (asks i) (show i).
Proof.
  unfold show, show_vault_explorer, show_rename_dialog, file_action, do_open, do_export_file, do_delete, do_rename.
  asking. all: try (by eapply asks_one; [| |by intros []]).
  intros e. apply asks_none; [by destruct (ui e)|done].
Qed.

Lemma poll_idle a : poll idle a = (Ok tt, a).
Proof.
  assert (Hnone : forall B (n : option nat), arrived (fun _ => @None B) n = None) by (by intros B []).
  unfold poll, poll_import_dialog, poll_export_dialog, poll_viewer_done, poll_broker_results, poll_import_bytes, poll_export_result,
    poll_viewer_spawn, on_ui, of_ui, mbind, gets, mret. cbn. repeat (rewrite !Hnone; cbn).
  destruct a as [x s]. cbn. by destruct (viewer_done x) as [[]|].
Qed.
End explorer.

(** ** The vault behind it *)

Definition with_name (new : str) (f : FileIndex) : FileIndex :=
  {| vfs_name := new; chunks := chunks f; last_modified_unix := last_modified_unix f |}.

Section opened.
Context `{PasswordHash} `{Aead} `{Sha256} `{Bincode} `{FastCdc}.
Variable fault : nat -> option Z.

(** The metadata is renamed in memory and then saved. *)
Definition rename_file (u : UnlockedVault) (old new : str) : V renamed :=
  let! m := gets meta in
  if has_name new m then mret NameTaken else
  if negb (has_name old m) then mret NoSuchFile else
  let! _ := modify (set_meta {| file_table := update_first (is_key vfs_name old) (with_name new) (file_table m);
                                cdc_salt := cdc_salt m |}) in
  let! m := gets meta in
  let! p := gets payload in
  let! _ := save_vault_metadata fault Vault m u p in
  mret Renamed.

(** An import, and the [sync_all] whose error is ignored. *)
Definition import_and_sync (w : machine) (u : UnlockedVault) (data : bytes) (name : str) : V unit :=
  let! _ := handle_import_from_bytes fault w u data name in
  let! _ := attempt (sync fault Vault) in
  mret tt.

Definition open_vault (w : machine) (u : UnlockedVault) : FileVault vault := {|
  listed s := map vfs_name (file_table (meta s));
  import_bytes := import_and_sync w u;
  decrypted := decrypt_to_bytes fault u;
  removed := handle_rm fault u;
  rename := rename_file u |}.
End opened.

(** ** The abstract vault behind it

    A list of files, with what it may take: how large the metadata and the payload can
    have become, and whether every name so far is text. *)
Record Ideal := { files : list (str * bytes); size : Z; off : Z; texts : bool }.

Definition rename_entry (old new : str) : list (str * bytes) -> list (str * bytes) :=
  update_first (is_key fst old) (fun nd => (new, snd nd)).

Section ideal.
Context `{FastCdc}.

Definition ideal_import (data : bytes) (name : str) : M vault_error Ideal unit := fun a =>
  if taken name (files a) then (Err already_exists, a) else
  (Ok tt, {| files := files a ++ [(name, data)]; size := size a + (24 + zlen name + 40 * zlen (cdc data));
             off := off a + zlen (cdc data) * BLOB_LEN; texts := texts a && utf8_valid name |}).

Definition ideal_decrypt (name : str) : M vault_error Ideal bytes := fun a =>
  (ok_or (find_data name (files a)) not_found, a).

Definition ideal_remove (name : str) : M vault_error Ideal unit := fun a =>
  if taken name (files a)
  then (Ok tt, {| files := remove_file name (files a); size := size a; off := off a; texts := texts a |})
  else (Err (VMsg "File not found in metadata"), a).

Definition ideal_rename (old new : str) : M vault_error Ideal renamed := fun a =>
  if taken new (files a) then (Ok NameTaken, a) else
  if negb (taken old (files a)) then (Ok NoSuchFile, a) else
  (Ok Renamed, {| files := rename_entry old new (files a); size := size a + zlen new; off := off a;
                  texts := texts a && utf8_valid new |}).

Definition ideal_vault : FileVault Ideal := {|
  listed a := map fst (files a);
  import_bytes := ideal_import;
  decrypted := ideal_decrypt;
  removed := ideal_remove;
  rename := ideal_rename |}.
End ideal.

(** Within what [load_vault_metadata] reads back and files can hold. *)
Definition within (a : Ideal) : Prop :=
  texts a = true /\ size a + CHUNK_OVERHEAD <= METADATA_LIMIT /\ off a < 2 ^ 63.

(** ** Renaming *)

Section renaming.
Context `{PasswordHash} `{Aead} `{Sha256} `{Bincode} `{FastCdc}.
Context `{!AeadLaws _} `{!Sha256Laws _} `{!BincodeLaws _} `{!FastCdcLaws _}.
Variable fault : nat -> option Z.
Hypothesis no_fault : forall n, fault n = None.

(** The table with one name changed. *)
Definition renamed_meta (old new : str) (m : VaultMetadata) : VaultMetadata :=
  {| file_table := update_first (is_key vfs_name old) (with_name new) (file_table m); cdc_salt := cdc_salt m |}.

Lemma table_renamed u c old new t L :
  table_holds u c t L ->
  table_holds u c (update_first (is_key vfs_name old) (with_name new) t) (rename_entry old new L).
Proof.
  intros Ht. unfold table_holds, rename_entry. induction Ht as [|f nd t L [Hn Hf] Ht IH]; [constructor|]. cbn.
  unfold is_key. rewrite Hn. case_bool_decide; constructor; done.
Qed.

Lemma chunks_renamed old new t : all_chunks (update_first (is_key vfs_name old) (with_name new) t) = all_chunks t.
Proof.
  unfold all_chunks. induction t as [|f t IH]; [done|]. cbn. destruct (is_key vfs_name old f); cbn; [done|by rewrite IH].
Qed.

Lemma length_renamed old new t : zlen (update_first (is_key vfs_name old) (with_name new) t) = zlen t.
Proof. induction t as [|f t IH]; [done|]. cbn. destruct (is_key vfs_name old f); rewrite !zlen_cons; [done|by rewrite IH]. Qed.

Lemma size_renamed old new t :
  foldr (fun f n => index_size f + n) 0 (update_first (is_key vfs_name old) (with_name new) t)
  <= foldr (fun f n => index_size f + n) 0 t + zlen new.
Proof.
  induction t as [|f t IH]; [cbn; apply zlen_nonneg|]. cbn [update_first]. destruct (is_key vfs_name old f); cbn [foldr]; [|lia].
  unfold index_size at 1 3. cbn [with_name vfs_name chunks]. pose proof (zlen_nonneg (vfs_name f)). lia.
Qed.

Lemma names_renamed old new L x : x ∈ map fst (rename_entry old new L) -> x = new \/ x ∈ map fst L.
Proof.
  unfold rename_entry. induction L as [|nd L IH]; [by intros ?%elem_of_nil|]. cbn. unfold is_key. case_bool_decide; cbn;
    rewrite !elem_of_cons; [intros [->|Hin]; auto|intros [->|Hin]; [auto|destruct (IH Hin); auto]].
Qed.

Lemma NoDup_renamed old new L : NoDup (map fst L) -> new ∉ map fst L -> NoDup (map fst (rename_entry old new L)).
Proof.
  unfold rename_entry. induction L as [|nd L IH]; [done|]. cbn [map update_first]. intros [Hx Hl]%list.NoDup_cons Hn.
  rewrite not_elem_of_cons in Hn. destruct Hn as [Hn Hn']. unfold is_key. case_bool_decide; cbn [map fst]; apply list.NoDup_cons; split; try done.
  - intros Hin. apply names_renamed in Hin as [Hin|Hin]; [congruence|done].
  - by apply IH.
Qed.

Lemma body_renamed password u L m o c old new :
  body_ok password u L m o c -> new ∉ map fst L -> utf8_valid new = true ->
  meta_size m + zlen new + CHUNK_OVERHEAD <= METADATA_LIMIT ->
  body_ok password u (rename_entry old new L) (renamed_meta old new m) o c.
Proof.
  intros (Ho & Hu & Hhd & Hord & Ht & Hnd & (Hft & Hall & Hsalt) & Hsz) Hn Hutf Hroom.
  assert (HO : 0 <= CHUNK_OVERHEAD) by by vm_compute. assert (HL : METADATA_LIMIT < 2 ^ 64) by by vm_compute.
  pose proof (sizes_nonneg (file_table m)). split_and!; cbn [file_table renamed_meta]; try done; try apply Ho.
  - by rewrite chunks_renamed.
  - by apply table_renamed.
  - by apply NoDup_renamed.
  - split; [split_and!|]; cbn [file_table cdc_salt renamed_meta].
    + by rewrite length_renamed.
    + apply update_first_Forall; [done|]. intros f (Hf1 & Hf2 & Hf3 & Hf4 & Hf5) _. unfold meta_size in Hroom.
      split_and!; cbn [with_name vfs_name chunks last_modified_unix]; try done. lia.
    + done.
    + unfold meta_size in *. cbn [file_table renamed_meta]. pose proof (size_renamed old new (file_table m)). lia.
Qed.

Lemma rename_runs password u L s old new (Q : renamed -> vault -> Prop) :
  vault_ok password u L s -> old ∈ map fst L -> new ∉ map fst L -> utf8_valid new = true ->
  meta_size (meta s) + zlen new + CHUNK_OVERHEAD <= METADATA_LIMIT ->
  (forall s', vault_ok password u (rename_entry old new L) s' -> fs s' = fs s -> grown s s' (zlen new) 0 -> Q Renamed s') ->
  runs (rename_file fault u old new) s Q.
Proof.
  intros Hv Hold Hnew Hutf Hroom HQ. pose proof Hv as ((Hb & _ & _) & Ht & Ha & Hg).
  unfold rename_file. apply runs_bind. eexists _, _. split; [done|].
  rewrite !(vault_ok_has_name _ _ _ _ _ Hv), bool_decide_false, bool_decide_true by done. cbn [negb].
  apply runs_bind. eexists tt, _. split; [done|]. apply runs_bind. eexists _, _. split; [done|].
  apply runs_bind. eexists _, _. split; [done|]. fold (renamed_meta old new (meta s)). cbn [meta payload set_meta].
  destruct (phys s) as [c p] eqn:Hp. cbn [content] in *.
  apply runs_bind. eapply (runs_save_ok fault no_fault Vault password u); [cbn; exact (f_equal Some Hp)|exact Hg|by apply body_renamed|].
  intros s1 c1 p1 Hh1 (Fh & Fa & Fm & Fp & Fg) Hok _. cbn [held meta payload set_meta at_path gen] in *. injection Hh1 as Hp1.
  apply runs_ret. apply HQ.
  - split_and!; [by rewrite Fm, Fp, Hp1|rewrite <- Ht; by apply (Fh Temp)|congruence|by apply Fg].
  - apply map_eq. intros q. by apply (Fh (Other q)).
  - split; rewrite ?Fm, ?Fp; [|lia]. unfold meta_size. cbn [file_table renamed_meta].
    pose proof (size_renamed old new (file_table (meta s))). lia.
Qed.
End renaming.

(** ** Refinement *)

Section refinement.
Context `{PasswordHash} `{Aead} `{Sha256} `{Bincode} `{FastCdc}.
Context `{!AeadLaws _} `{!Sha256Laws _} `{!BincodeLaws _} `{!FastCdcLaws _}.
Abbreviation none := (fun _ : nat => @None Z).
Variables (password : str) (u : UnlockedVault) (w : machine) (now : Z) (d : gmap path bytes).
Hypothesis Hw : unix_clock w = Some now.
Hypothesis Hnow : is_u64 now.

Definition store_of (a : Ideal) : store := {| Vault.files := files a; disk := d |}.
Definition backs (s : vault) (a : Ideal) : Prop := holds password u (store_of a) (size a) (off a) s.

(** An operation that does what the ideal one does, as long as there is room. *)
Definition op_sim {B} (mc : V B) (ma : M vault_error Ideal B) : Prop :=
  (forall a, within (snd (ma a)) -> within a) /\
  (forall s a, backs s a -> within (snd (ma a)) ->
     fst (ma a) <> Panic /\ exists s', mc s = (fst (ma a), s') /\ backs s' (snd (ma a))).

Lemma within_less a a' : size a <= size a' -> off a <= off a' -> (texts a' = true -> texts a = true) -> within a' -> within a.
Proof. intros Hs Ho Ht (H1' & H2' & H3'). split_and!; [auto|lia|lia]. Qed.

Lemma import_sim data name : op_sim (import_and_sync none w u data name) (ideal_import data name).
Proof.
  split.
  { intros a. unfold ideal_import. destruct (taken name (files a)); [done|]. pose proof (zlen_nonneg name). pose proof (zlen_nonneg (cdc data)).
    assert (BLOB_LEN = 8251) by done. apply within_less; cbn; [lia|lia|by intros [? _]%andb_true_iff]. }
  intros s a Ho. pose proof Ho as (Hv & Hd & Hsz & Hpay & Hmax). unfold ideal_import. destruct (taken name (files a)) eqn:Ht.
  { intros _. split; [done|]. exists s. split; [|exact Ho]. unfold import_and_sync.
    by rewrite (mbind_Err _ _ _ _ _ (import_bytes_taken none w u data name s ltac:(by rewrite (holds_names _ _ _ _ _ _ _ Ho)))). }
  intros (Htx & Hroom & Hoff). cbn [snd texts size off] in *. apply andb_true_iff in Htx as [_ Hutf]. split; [done|].
  assert (Hrun : runs (import_and_sync none w u data name) s (fun _ s' => holds password u
    {| Vault.files := files a ++ [(name, data)]; disk := d |} (size a + (24 + zlen name + 40 * zlen (cdc data)))
    (off a + zlen (cdc data) * BLOB_LEN) s')).
  { apply runs_bind. eapply (import_bytes_runs none ltac:(done)); [exact Hv|by apply taken_false| |exact Hw|exact Hnow|].
    { unfold room_for, u64_max. split_and!; [done|lia|lia]. }
    intros s1 Hv1 Hfs1 Hg. apply runs_bind, runs_attempt. eapply (runs_sync none ltac:(done) Vault); [done|]. intros s2 Hh2 F2.
    apply runs_ret. cbn in Hh2. injection Hh2 as Hp2. pose proof F2 as (Fh & _ & Fm & Fp & _).
    eapply holds_grown; [exact Ho|eapply vault_ok_frame; [exact F2|by rewrite Hp2|exact Hv1]| | |exact Hoff].
    - etrans; [|exact Hd]. rewrite <- Hfs1. f_equal. apply map_eq. intros q. by apply (Fh (Other q)).
    - unfold grown in *. by rewrite Fm, Fp. }
  destruct Hrun as ([] & s' & Hrun & Hh). by exists s'.
Qed.

Lemma decrypt_sim name : op_sim (decrypt_to_bytes none u name) (ideal_decrypt name).
Proof.
  split; [done|]. intros s a Ho _. pose proof Ho as (Hv & Hd & _). unfold ideal_decrypt. cbn [fst snd].
  destruct (find_data name (files a)) as [data|] eqn:Hf; cbn [ok_or]; split; try done.
  - destruct (decrypt_runs none ltac:(done) password u (files a) s name data (fun b s' => b = data /\ backs s' a))
      as (b & s' & Hrun & -> & Hb); [exact Hv|by apply find_data_Some| |by exists s'].
    intros s' Hv' F Hc. split; [done|]. pose proof F as (Fh & _ & Fm & Fp & _). eapply holds_grown_0; [exact Ho|exact Hv'| |].
    + etrans; [|exact Hd]. f_equal. apply map_eq. intros k. by apply (Fh (Other k)).
    + unfold grown. rewrite Fm, Fp. lia.
  - exists s. split; [|exact Ho]. eapply decrypt_absent, find_file_absent; [exact Hv|by apply find_data_None].
Qed.

Lemma remove_sim name : op_sim (handle_rm none u name) (ideal_remove name).
Proof.
  split; [intros a; unfold ideal_remove; by destruct (taken name (files a))|].
  intros s a Ho _. pose proof Ho as (Hv & Hd & _). unfold ideal_remove. destruct (taken name (files a)) eqn:Ht; cbn [fst snd]; split; try done.
  - destruct (rm_runs none ltac:(done) password u (files a) s name (fun _ s' => holds password u
      {| Vault.files := remove_file name (files a); disk := d |} (size a) (off a) s')) as ([] & s' & Hrun & Hb);
      [exact Hv|by apply taken_true| |by exists s'].
    intros s' Hv' Hfs _ Hg. eapply holds_grown_0; [exact Ho|exact Hv'|by rewrite Hfs|exact Hg].
  - exists s. split; [|exact Ho]. eapply rm_absent, position_absent; [exact Hv|by apply taken_false].
Qed.

Lemma rename_sim old new : op_sim (rename_file none u old new) (ideal_rename old new).
Proof.
  split.
  { intros a. unfold ideal_rename. destruct (taken new (files a)); [done|]. destruct (taken old (files a)); [|done]. cbn. pose proof (zlen_nonneg new).
    apply within_less; cbn; [lia|lia|by intros [? _]%andb_true_iff]. }
  intros s a Ho. pose proof Ho as (Hv & Hd & Hsz & Hpay & Hmax). unfold ideal_rename.
  pose proof (holds_names _ _ _ _ _ _ new Ho) as Hnew. pose proof (holds_names _ _ _ _ _ _ old Ho) as Hold. cbn [Vault.files store_of] in *.
  destruct (taken new (files a)) eqn:Hn.
  { intros _. split; [done|]. exists s. split; [|exact Ho]. unfold rename_file, mbind, gets. by rewrite Hnew. }
  destruct (taken old (files a)) eqn:Hol; cbn [negb fst snd].
  2: { intros _. split; [done|]. exists s. split; [|exact Ho]. unfold rename_file, mbind, gets. by rewrite Hnew, Hold. }
  intros (Htx & Hroom & Hoff). cbn [texts size off] in *. apply andb_true_iff in Htx as [_ Hutf]. split; [done|].
  destruct (rename_runs none ltac:(done) password u (files a) s old new (fun r s' => r = Renamed /\ holds password u
    {| Vault.files := rename_entry old new (files a); disk := d |} (size a + zlen new) (off a + 0) s'))
    as (r & s' & Hrun & -> & Hb); [exact Hv|by apply taken_true|by apply taken_false|exact Hutf|lia| |].
  - intros s' Hv' Hfs Hg. split; [done|]. eapply holds_grown; [exact Ho|exact Hv'|by rewrite Hfs|exact Hg|lia].
  - rewrite Z.add_0_r in Hb. by exists s'.
Qed.

(** *** The window *)

Definition within_app (a : App Ideal) : Prop := match session a with Some x => within x | None => True end.
Definition matched (c : App vault) (a : App Ideal) : Prop :=
  ui c = ui a /\ match session c, session a with Some s, Some x => backs s x | _, _ => False end.

(** A step of the window, which does not fail and does what the ideal one does. *)
Definition sim {B} (mc : M vault_error (App vault) B) (ma : M vault_error (App Ideal) B) : Prop :=
  (forall a, within_app (snd (ma a)) -> within_app a) /\
  (forall c a, matched c a -> within_app (snd (ma a)) ->
     exists b c', fst (ma a) = Ok b /\ mc c = (Ok b, c') /\ matched c' (snd (ma a))).

Lemma sim_ret {B} (b : B) : sim (mret b) (mret b).
Proof. split; [done|]. intros c a Hm _. by exists b, c. Qed.

Lemma sim_bind {B C} (mc : M vault_error (App vault) B) ma (kc : B -> M vault_error (App vault) C) ka :
  sim mc ma -> (forall b, sim (kc b) (ka b)) -> sim (mbind mc kc) (mbind ma ka).
Proof.
  intros [Hw1 Hm] Hk. split.
  - intros a. specialize (Hw1 a). unfold mbind. destruct (ma a) as [[b|e|] a1]; [|done..]. cbn in *. intros Hx. apply Hw1. by apply (Hk b).
  - intros c a Hma Hin. specialize (Hm c a Hma). unfold mbind in *. destruct (ma a) as [[b|e|] a1]; cbn [fst snd] in *;
      [|by destruct (Hm Hin) as (? & ? & ? & _)..].
    destruct (Hm (proj1 (Hk b) _ Hin)) as (b' & c1 & [= <-] & -> & Hm1). by apply (Hk b).
Qed.

Lemma sim_on_ui f : sim (on_ui f) (on_ui f).
Proof. split; [done|]. intros c a [Hu Hs] _. eexists _, _. split; [done|]. split; [done|]. split; [cbn; by rewrite Hu|done]. Qed.

Lemma sim_of_ui {B} (f : Ui -> B) : sim (of_ui f) (of_ui f).
Proof. split; [done|]. intros c a [Hu Hs] _. exists (f (ui a)), c. unfold of_ui, gets. by rewrite Hu. Qed.

Lemma sim_if {B} (b : bool) (mc kc : M vault_error (App vault) B) ma ka : sim mc ma -> sim kc ka -> sim (if b then mc else kc) (if b then ma else ka).
Proof. by destruct b. Qed.

Lemma sim_session {B} (mc : V B) ma : op_sim mc ma -> sim (with_session mc) (with_session ma).
Proof.
  intros [Hw1 Hm]. split.
  - intros [x [s|]]; [|done]. cbn. specialize (Hw1 s). unfold with_session, within_app. cbn. by destruct (ma s) as [r s1].
  - intros [xc sc] [xa sa] [Hu Hs]. cbn in Hu, Hs. subst xc. unfold with_session, within_app. cbn.
    destruct sc as [sc|], sa as [sa|]; try done. specialize (Hm sc sa Hs). destruct (ma sa) as [r a1]. cbn [fst snd session].
    intros Hin. destruct (Hm Hin) as (Hp & s1 & -> & Hb). destruct r as [b|e|]; [..|done]; eexists _, _; (split; [done|]); split; by try split.
Qed.

Abbreviation real := (open_vault none w u).

Lemma sim_listed :
  sim (gets (fun a => match session a with Some s => listed real s | None => [] end))
      (gets (fun a => match session a with Some s => listed ideal_vault s | None => [] end)).
Proof.
  split; [done|]. intros c a [Hu Hs] _. eexists _, c. split; [done|]. split; [|done]. unfold gets. f_equal. f_equal.
  destruct (session c) as [s|], (session a) as [x|]; try done. destruct Hs as ((((_ & _ & _ & _ & Ht & _) & _) & _) & _).
  by apply table_names in Ht.
Qed.

Ltac simulate := repeat first
  [ apply sim_ret | apply sim_on_ui | apply sim_of_ui | apply sim_listed
  | apply sim_session; first [apply import_sim|apply decrypt_sim|apply remove_sim|apply rename_sim]
  | apply sim_bind; [|intros ?] | apply sim_if
  | match goal with |- sim (match ?x with _ => _ end) _ => destruct x end ].

Lemma poll_sim i : sim (poll real i) (poll ideal_vault i).
Proof.
  unfold poll, poll_import_dialog, poll_export_dialog, poll_viewer_done, poll_broker_results, poll_import_bytes,
    poll_export_result, poll_viewer_spawn, do_export_via_broker, do_import_bytes. simulate.
Qed.

Lemma show_sim i : home_click i = false -> sim (show real i) (show ideal_vault i).
Proof.
  intros Hh. unfold show, show_vault_explorer, show_rename_dialog, file_action, do_open, do_export_file, do_delete, do_rename.
  rewrite Hh. simulate.
Qed.

Lemma frame_sim i : home_click i = false -> sim (update real i) (update ideal_vault i).
Proof. intros Hh. apply sim_bind; [apply poll_sim|]. intros _. by apply show_sim. Qed.

Lemma frames_sim l : Forall (fun i => home_click i = false) l -> sim (frames real l) (frames ideal_vault l).
Proof.
  induction 1 as [|i l Hi _ IH]; [apply sim_ret|]. cbn [frames]. apply sim_bind; [by apply frame_sim|]. by intros _.
Qed.

(** ** What a frame means, on a list of files

    The window as its user sees it: the files on the shelf, whether they are on the
    screen, the file being read in and what it will be called, the file to be written
    out, the name being changed, and what has been asked of the broker. *)
Record Desk := MkDesk {
  shelf : list (str * bytes);
  at_files : bool;
  awaited : option nat;
  called : str;
  outgoing : option str;
  retitling : option (str * str);
  orders : list request;
}.

Definition desk_of (x : Ui) (L : list (str * bytes)) : Desk :=
  MkDesk L (match screen x with VaultExplorer => true | _ => false end) (pending_import_bytes x) (pending_import_vfs_name x)
    (pending_export_vfs_name x) ((fun r => (old_name r, new_name r)) <$> rename_dialog x) (asked x).

Definition few {A} (o : option A) : list A := match o with Some a => [a] | None => [] end.

(** A file chosen to be read in is asked for, and will have its own name. *)
Definition picked (i : input) (k : Desk) : Desk :=
  let '(MkDesk L f n c o r q) := k in
  match import_path i with
  | Some p => MkDesk L f (Some (length q)) (from_utf8_lossy (default [] (file_name p))) o r (q ++ [ReadFile p])
  | None => k
  end.

(** A place chosen for the file on its way out gets its content as it is on the shelf. *)
Definition handed (i : input) (k : Desk) : Desk :=
  let '(MkDesk L f n c o r q) := k in
  match export_path i with
  | Some p => MkDesk L f n c None r (q ++ few (match o with Some m => WriteFile p <$> find_data m L | None => None end))
  | None => k
  end.

(** A file that has been read in joins the shelf, unless its name is taken. *)
Definition read_in (i : input) (k : Desk) : Desk :=
  let '(MkDesk L f n c o r q) := k in
  match match n with Some cell => read_result i cell | None => None end with
  | Some (inl data) => MkDesk (if decide (c ∈ map fst L) then L else L ++ [(c, data)]) f None [] o r q
  | Some (inr _) => MkDesk L f None c o r q
  | None => k
  end.

(** A button of a file that is on the shelf. *)
Definition pressed (i : input) (k : Desk) : Desk :=
  let '(MkDesk L f n c o r q) := k in
  match file_click i with
  | Some act =>
      if bool_decide (action_name act ∈ map fst L) then
        match act with
        | Open m => MkDesk L f n c o r (q ++ few ((fun data => OpenViewer data m) <$> find_data m L))
        | Export m => MkDesk L f n c (Some m) r q
        | Rename m => MkDesk L f n c o (Some (m, m)) q
        | Delete m => MkDesk (remove_file m L) f n c o r q
        end
      else k
  | None => k
  end.

(** The dialog of a new name: saved, it renames the file in its place, if the name is
    one, is free, and the file is still there. *)
Definition proper_name (name : str) : Prop := name <> [] /\ (Byte.x2f ∉ name) /\ (Byte.x5c ∉ name) /\ (Byte.x00 ∉ name).
#[local] Instance proper_name_dec name : Decision (proper_name name).
Proof. unfold proper_name. apply _. Defined.

Definition retitled (i : input) (k : Desk) : Desk :=
  let '(MkDesk L f n c o r q) := k in
  match r with
  | Some (old, new) =>
      let new := default new (rename_edit i) in
      if rename_save i then
        let L := if decide (proper_name new /\ (new ∉ map fst L) /\ old ∈ map fst L) then rename_entry old new L else L in
        MkDesk L f n c o None q
      else MkDesk L f n c o (if rename_cancel i then None else Some (old, new)) q
  | None => k
  end.

Definition desk_step (k : Desk) (i : input) : Desk :=
  let k := read_in i (handed i (picked i k)) in
  if at_files k then
    let '(MkDesk L _ n c o r q) := retitled i (pressed i k) in MkDesk L (negb (p2p_click i)) n c o r q
  else k.

Lemma proper_valid name : is_valid_vfs_filename name = bool_decide (proper_name name).
Proof.
  unfold is_valid_vfs_filename. rewrite <- !bool_decide_not, <- !bool_decide_and. apply bool_decide_ext. unfold proper_name. tauto.
Qed.

(** The code, on the list of files, does that. *)
Definition acts_as (m : M vault_error (App Ideal) unit) (f : Desk -> Desk) : Prop := forall x y,
  exists x' y', m {| ui := x; session := Some y |} = (Ok tt, {| ui := x'; session := Some y' |}) /\
    desk_of x' (files y') = f (desk_of x (files y)).

Lemma acts_then m k f g : acts_as m f -> acts_as k g -> acts_as (let! _ := m in k) (fun x => g (f x)).
Proof.
  intros Hm Hk x y. destruct (Hm x y) as (x1 & y1 & Hr & Hf). destruct (Hk x1 y1) as (x2 & y2 & Hr2 & Hg).
  exists x2, y2. unfold mbind. by rewrite Hr, Hr2, Hg, Hf.
Qed.

Lemma acts_ui f g : (forall x L, desk_of (f x) L = g (desk_of x L)) -> acts_as (on_ui f) g.
Proof. intros Hf x y. exists (f x), y. by rewrite Hf. Qed.
Lemma acts_skip : acts_as (mret tt) (fun k => k).
Proof. intros x y. by exists x, y. Qed.

Lemma picked_acts i : acts_as (poll_import_dialog i) (picked i).
Proof.
  unfold poll_import_dialog, picked. destruct (import_path i) as [p|].
  - apply acts_ui. by intros [] L.
  - intros x y. by exists x, y.
Qed.

Lemma handed_acts i : acts_as (poll_export_dialog ideal_vault i) (handed i).
Proof.
  unfold poll_export_dialog, handed. intros x y. destruct (export_path i) as [p|]; [|by exists x, y].
  unfold do_export_via_broker, mbind, mret, of_ui, on_ui, gets, with_session. destruct x as [sc st ib im en wr vs vd rd q]. cbn.
  destruct en as [m|]; cbn [decrypted ideal_vault]; [|eexists _, y; split; [done|]; cbn; by rewrite app_nil_r].
  unfold ideal_decrypt. cbn [session ui].
  destruct (find_data m (files y)) as [data|]; eexists _, y; (split; [done|]); cbn; by rewrite ?app_nil_r.
Qed.

Lemma read_in_acts i : acts_as (poll_import_bytes ideal_vault i) (read_in i).
Proof.
  unfold poll_import_bytes, read_in, arrived. intros [sc st ib im en wr vs vd rd q] y.
  unfold do_import_bytes, mbind, mret, of_ui, on_ui, gets, with_session. cbn.
  destruct ib as [n|]; cbn; [|by eexists _, y]. destruct (read_result i n) as [[data|e]|]; cbn; [|by eexists _, y..].
  unfold ideal_import, taken. case_bool_decide as Ht; [rewrite decide_True by done|rewrite decide_False by done]; eexists _, _; by split.
Qed.

Lemma poll_acts i : acts_as (poll ideal_vault i) (fun k => read_in i (handed i (picked i k))).
Proof.
  unfold poll, poll_broker_results.
  apply (acts_then _ _ _ (fun k => read_in i (handed i k)) (picked_acts i)).
  apply (acts_then _ _ _ (read_in i) (handed_acts i)).
  apply (acts_then _ _ (fun k => k)).
  { apply acts_ui. intros x L. destruct (viewer_done x) as [[flag name]|]; [|done]. destruct (viewer_gone i flag); [|done]. by destruct x. }
  apply (acts_then _ _ _ (fun k => k) (read_in_acts i)).
  apply (acts_then _ _ (fun k => k) (fun k => k)); apply acts_ui; intros x L; repeat case_match; by destruct x.
Qed.

Lemma pressed_acts i L0 :
  forall x y, files y = L0 -> exists x' y',
    (match file_click i with
     | Some act => if bool_decide (action_name act ∈ map fst L0) then file_action ideal_vault act else mret tt
     | None => mret tt
     end) {| ui := x; session := Some y |} = (Ok tt, {| ui := x'; session := Some y' |}) /\
    desk_of x' (files y') = pressed i (desk_of x (files y)).
Proof.
  intros [sc st ib im en wr vs vd rd q] [L sz o tx]. cbn [files]. intros <-. unfold pressed, desk_of.
  destruct (file_click i) as [act|]; [|by eexists _, _]. case_bool_decide as Hin; [|by eexists _, _].
  unfold file_action, do_open, do_export_file, do_delete, mbind, mret, of_ui, on_ui, gets, with_session.
  destruct act as [m|m|m|m]; cbn [action_name] in Hin; cbn -[find_data].
  - unfold ideal_vault, ideal_decrypt. cbn [session ui files decrypted].
    destruct (find_data m L) as [data|]; eexists _, _; (split; [done|]); cbn; by rewrite ?app_nil_r.
  - by eexists _, _.
  - by eexists _, _.
  - unfold ideal_remove, taken. cbn. rewrite bool_decide_eq_true_2 by done. by eexists _, _.
Qed.

Lemma retitled_acts i : acts_as (show_rename_dialog ideal_vault i) (retitled i).
Proof.
  intros [sc st ib im en wr vs vd rd q] [L sz o tx]. unfold show_rename_dialog, retitled, desk_of.
  unfold do_rename, mbind, mret, of_ui, on_ui, gets. cbn. destruct rd as [[old new]|]; cbn; [|by eexists _, _].
  destruct (rename_save i); [|destruct (rename_cancel i); by eexists _, _]. cbn. rewrite proper_valid.
  set (name := default new (rename_edit i)). case_bool_decide as Hp; cbn.
  2: { rewrite decide_False by tauto. by eexists _, _. }
  unfold with_session. cbn. unfold ideal_rename, taken. cbn. case_bool_decide as Hn.
  { rewrite decide_False by tauto. by eexists _, _. }
  case_bool_decide as Ho; cbn; [rewrite decide_True by done|rewrite decide_False by tauto]; by eexists _, _.
Qed.

(** Whether the files stay on the screen makes no difference to the rest. *)
Lemma off_screen i f L f0 n c o r q :
  retitled i (pressed i (MkDesk L f n c o r q)) =
  let '(MkDesk L _ n c o r q) := retitled i (pressed i (MkDesk L f0 n c o r q)) in MkDesk L f n c o r q.
Proof.
  assert (Hr : forall L n c o r q, retitled i (MkDesk L f n c o r q) =
    let '(MkDesk L _ n c o r q) := retitled i (MkDesk L f0 n c o r q) in MkDesk L f n c o r q).
  { intros. unfold retitled. destruct r0 as [[old new]|]; [|done]. by destruct (rename_save i). }
  unfold pressed. destruct (file_click i) as [act|]; [|apply Hr]. case_bool_decide; [|apply Hr]. destruct act; apply Hr.
Qed.

Lemma show_acts i : home_click i = false ->
  acts_as (show ideal_vault i) (fun k =>
    if at_files k then let '(MkDesk L _ n c o r q) := retitled i (pressed i k) in MkDesk L (negb (p2p_click i)) n c o r q else k).
Proof.
  intros Hh x y. unfold show, of_ui, mbind at 1, gets. cbn [ui]. destruct (screen x) eqn:Hs.
  1,2,4,5: exists x, y; split; [done|by unfold desk_of; rewrite Hs].
  unfold show_vault_explorer. rewrite Hh. unfold mbind at 1 2, gets at 1, mret at 1. cbn [session listed ideal_vault].
  set (x1 := if p2p_click i then set_screen P2PDialog x else x). set (L := files y).
  assert (Hx1 : desk_of x1 L = MkDesk L (negb (p2p_click i)) (pending_import_bytes x) (pending_import_vfs_name x)
    (pending_export_vfs_name x) ((fun r => (old_name r, new_name r)) <$> rename_dialog x) (asked x)).
  { unfold x1, desk_of. destruct (p2p_click i); [by destruct x|by rewrite Hs]. }
  destruct (pressed_acts i L x1 y eq_refl) as (x2 & y2 & Hp & Hf). destruct (retitled_acts i x2 y2) as (x3 & y3 & Hr & Hg).
  exists x3, y3. split.
  - unfold mbind at 1. replace ((if p2p_click i then on_ui (set_screen P2PDialog) else mret tt) {| ui := x; session := Some y |})
      with (@Ok vault_error unit tt, {| ui := x1; session := Some y |}) by (unfold x1; by destruct (p2p_click i)).
    unfold mbind at 1. rewrite Hp. exact Hr.
  - rewrite Hg, Hf. fold L. rewrite Hx1. unfold desk_of. rewrite Hs. cbn [at_files]. apply off_screen.
Qed.

Lemma frame_acts i : home_click i = false -> acts_as (update ideal_vault i) (fun k => desk_step k i).
Proof.
  intros Hh. exact (acts_then _ _ _ _ (poll_acts i) (show_acts i Hh)).
Qed.

Lemma frames_follow l : Forall (fun i => home_click i = false) l -> acts_as (frames ideal_vault l) (fun k => foldl desk_step k l).
Proof.
  induction 1 as [|i l Hi _ IH]; [apply acts_skip|].
  exact (acts_then _ _ _ (fun k => foldl desk_step k l) (frame_acts i Hi) IH).
Qed.

(** C7: The explorer over the encrypted vault is a shelf of files.  Whatever is clicked,
    typed and chosen in the dialogs, and whatever the broker answers and when, until the
    vault is left: no frame panics, and frame by frame the files, the dialogs and what
    is handed to the broker change as the steps of [desk_step] say, which know no
    encryption: a file that was chosen and read in joins the end under its own name if
    that is free; a file goes out, to be written or shown, with its whole content; one
    deleted is gone; one renamed keeps its place and its content, and gets only a free
    and proper name; nothing else changes a file.  And the file on the disk opens, under
    the password, to what is on the shelf, the other files of the disk being as they
    were.  This as long as the list stays within what the program reads back. *)
Theorem explorer_refines_files l x L size0 off0 s :
  holds password u {| Vault.files := L; disk := d |} size0 off0 s ->
  Forall (fun i => home_click i = false) l ->
  within_app (snd (frames ideal_vault l {| ui := x; session := Some {| files := L; size := size0; off := off0; texts := true |} |})) ->
  let k := foldl desk_step (desk_of x L) l in
  exists x' s',
    frames real l {| ui := x; session := Some s |} = (Ok tt, {| ui := x'; session := Some s' |}) /\
    desk_of x' (shelf k) = k /\
    file_ok password u (shelf k) (meta s') (payload s') (content (phys s')) /\ content <$> fs s' = d.
Proof.
  intros Hs Hl. destruct (frames_follow l Hl x {| files := L; size := size0; off := off0; texts := true |}) as (x' & y & Hrun & Hk).
  rewrite Hrun. intros Hin k. cbn [files] in Hk. fold k in Hk. destruct (frames_sim l Hl) as [_ Hsim].
  destruct (Hsim {| ui := x; session := Some s |} {| ui := x; session := Some {| files := L; size := size0; off := off0; texts := true |} |})
    as (b & c' & _ & Hc & Hu & Hm); [by split|by rewrite Hrun|].
  rewrite Hrun in Hu, Hm. destruct c' as [xc [s'|]]; cbn [ui session snd] in Hu, Hm; [|done]. subst xc.
  assert (shelf k = files y) as -> by (by rewrite <- Hk). destruct b. exists x', s'. destruct Hm as ((Hok & _) & Hd & _). by split_and!.
Qed.
End refinement.

(** ** Examples *)

Definition clicking (act : FileAction) : input := {|
  import_path := None; export_path := None; read_result _ := None; write_result _ := None; spawn_result _ := None;
  viewer_gone _ := false; home_click := false; p2p_click := false; file_click := Some act; rename_edit := None;
  rename_save := false; rename_cancel := false |}.
Definition saving_as (name : str) : input := {|
  import_path := None; export_path := None; read_result _ := None; write_result _ := None; spawn_result _ := None;
  viewer_gone _ := false; home_click := false; p2p_click := false; file_click := None; rename_edit := Some name;
  rename_save := true; rename_cancel := false |}.
Definition choosing (from to_disk : option str) : input := {|
  import_path := from; export_path := to_disk; read_result _ := None; write_result _ := None; spawn_result _ := None;
  viewer_gone _ := false; home_click := false; p2p_click := false; file_click := None; rename_edit := None;
  rename_save := false; rename_cancel := false |}.
Definition reading (data : bytes) : input := {|
  import_path := None; export_path := None; read_result n := match n with O => Some (inl data) | _ => None end;
  write_result _ := None; spawn_result _ := None; viewer_gone _ := false; home_click := false; p2p_click := false;
  file_click := None; rename_edit := None; rename_save := false; rename_cancel := false |}.
Definition explorer_ui : Ui := MkUi VaultExplorer (Said []) None [] None None None None None [].

Import Toy ToyPw ToyVault.

(** Two dialogs open at once: the path chosen for the first file gets the second. *)
Example exports_mixed_up :
  let a := {| ui := explorer_ui; session := Some {| files := toy_files; size := 0; off := 0; texts := true |} |} in
  asked (ui (snd (frames ideal_vault
    [clicking (Export (lit "a")); clicking (Export (lit "b")); choosing None (Some (lit "/home/u/a"))] a)))
  = [WriteFile (lit "/home/u/a") (lit "second")].
Proof. vm_compute. reflexivity. Qed.

(** The end of [try_unlock]: another vault takes the place; the rest stays. *)
Definition entered {S} (s : S) (a : App S) : App S := {| ui := set_screen VaultExplorer (ui a); session := Some s |}.

(** A file read for one vault, which is left meanwhile, lands in the next one. *)
Example import_changes_vaults :
  let vault L := {| files := L; size := 0; off := 0; texts := true |} in
  let a := snd (frames ideal_vault [choosing (Some (lit "/home/u/deed")) None; leaving]
    {| ui := explorer_ui; session := Some (vault toy_files) |}) in
  files <$> session (snd (frames ideal_vault [reading (lit "the deed")] (entered (vault []) a)))
  = Some [(lit "deed", lit "the deed")].
Proof. vm_compute. reflexivity. Qed.

Definition demo_frames : list input :=
  [choosing (Some (lit "/home/u/deed")) None; reading (lit "the deed"); clicking (Rename (lit "a")); saving_as (lit "c");
   clicking (Export (lit "c")); choosing None (Some (lit "/home/u/c")); clicking (Delete (lit "b")); clicking (Open (lit "deed"))].

Lemma explorer_refines_files_witness :
  exists x' s', frames (open_vault (fun _ => None) demo_machine toy_unlocked) demo_frames {| ui := explorer_ui; session := Some toy_vault |}
    = (Ok tt, {| ui := x'; session := Some s' |}) /\
    desk_of x' [(lit "c", lit "first"); (lit "deed", lit "the deed")]
    = MkDesk [(lit "c", lit "first"); (lit "deed", lit "the deed")] true None [] None None
        [ReadFile (lit "/home/u/deed"); WriteFile (lit "/home/u/c") (lit "first"); OpenViewer (lit "the deed") (lit "deed")] /\
    file_ok (lit "pw") toy_unlocked [(lit "c", lit "first"); (lit "deed", lit "the deed")] (meta s') (payload s') (content (phys s')).
Proof.
  destruct (explorer_refines_files (lit "pw") toy_unlocked demo_machine 1700000000 (content <$> demo_others) eq_refl
    ltac:(by vm_compute) demo_frames explorer_ui toy_files 1000 30000 toy_vault) as (x' & s' & Hrun & Hk & Hok & _).
  - split; [exact toy_vault_ok|]. split; [by rewrite toy_vault_fs|]. by vm_compute.
  - by repeat constructor.
  - vm_compute. by split_and!.
  - assert (Hd : foldl desk_step (desk_of explorer_ui toy_files) demo_frames
      = MkDesk [(lit "c", lit "first"); (lit "deed", lit "the deed")] true None [] None None
        [ReadFile (lit "/home/u/deed"); WriteFile (lit "/home/u/c") (lit "first"); OpenViewer (lit "the deed") (lit "deed")])
      by (vm_compute; reflexivity).
    cbv zeta in Hk, Hok. rewrite Hd in Hk, Hok. exists x', s'. split; [exact Hrun|]. split; [exact Hk|exact Hok].
Defined.
