(* ===== verification/Screens.v ===== *)
(** * Choosing, creating and unlocking a vault in the window

    [atom/src/gui/login.rs], the vaults of [atom/src/gui/home.rs], and the whole frame of
    [atom/src/gui/mod.rs] around the explorer: the registry, the sandbox and the vault's
    file meet here. *)

From Stdlib Require Import Strings.Byte.
From stdpp Require Import strings gmap.
From S2P Require Import Prelude Keyed Text Primitives StateM Disk VaultCrypto Vfs Storage VaultOps VaultSpec.
From S2P Require Import ToyVault Vault Paths ConfigFile Sandbox Explorer AtomLink Friends.

(** ** The state *)

(** What can be typed and chosen on the screen [CreateVault]. *)
Record Form := {
  create_name : str;
  create_password : str;
  create_confirm : str;
  create_kdf_argon : bool;
  create_dec_time : str;
  create_memory : str;
  create_rounds : str;
  create_threads : str;
}.
Definition empty_form : Form :=
  {| create_name := []; create_password := []; create_confirm := []; create_kdf_argon := true;
     create_dec_time := lit "1000"; create_memory := []; create_rounds := []; create_threads := [] |}.
Definition set_secrets (p c : str) (f : Form) : Form :=
  {| create_name := create_name f; create_password := p; create_confirm := c; create_kdf_argon := create_kdf_argon f;
     create_dec_time := create_dec_time f; create_memory := create_memory f; create_rounds := create_rounds f;
     create_threads := create_threads f |}.
Definition unnamed (f : Form) : Form :=
  {| create_name := []; create_password := create_password f; create_confirm := create_confirm f;
     create_kdf_argon := create_kdf_argon f; create_dec_time := create_dec_time f; create_memory := create_memory f;
     create_rounds := create_rounds f; create_threads := create_threads f |}.

Record Screens := MkScreens {
  vault_registry : list VaultEntry;
  home_status : status;
  selected_vault_path : option str;
  password : str;
  login_status : status;
  sandbox_applied : bool;
  current_vault_path : str;
  form : Form;
  create_status : status;
}.
Definition silent : status := Said [].

Definition set_registry x s := let 'MkScreens _ h p w l b c f t := s in MkScreens x h p w l b c f t.
Definition set_home_status x s := let 'MkScreens r _ p w l b c f t := s in MkScreens r x p w l b c f t.
Definition set_selected x s := let 'MkScreens r h _ w l b c f t := s in MkScreens r h x w l b c f t.
Definition set_password x s := let 'MkScreens r h p _ l b c f t := s in MkScreens r h p x l b c f t.
Definition set_login_status x s := let 'MkScreens r h p w _ b c f t := s in MkScreens r h p w x b c f t.
Definition set_applied x s := let 'MkScreens r h p w l _ c f t := s in MkScreens r h p w l x c f t.
Definition set_current x s := let 'MkScreens r h p w l b _ f t := s in MkScreens r h p w l b x f t.
Definition set_form x s := let 'MkScreens r h p w l b c _ t := s in MkScreens r h p w l b c x t.
Definition set_create_status x s := let 'MkScreens r h p w l b c f _ := s in MkScreens r h p w l b c f x.

(** An open vault: its file, its keys, and its state. *)
Record Opened := { vault_file : str; keys : UnlockedVault; contents : vault }.

(** The window: these screens, the explorer's part of it, the open vault with its keys,
    the home directory, and the sandboxes the process is in. *)
Record App := MkApp {
  screens : Screens;
  explorer : Ui;
  opened : option Opened;
  own : Friends.Home;
  confined : thread;
}.

(** One frame's input: what was clicked and typed on each screen, the path the file
    dialog of the vaults has come back with, a passphrase drawn from the word list, and
    the random generator of the vault that is created or opened. *)
Record input := {
  browsed : option str;
  within_explorer : Explorer.input;
  create_new_click : bool;
  open_click : option str;
  remove_click : option str;
  password_edit : option str;
  enter_key : bool;
  unlock_click : bool;
  back_click : bool;
  cancel_click : bool;
  form_edit : option Form;
  generated : option str;
  create_click : bool;
  back_to_vault_click : bool;
  draws : rng;
}.

(** [Path::parent] of a name that ends in a file's. *)
Definition folder (p : str) : option str :=
  match rsplit_once Byte.x2f p with
  | Some (before, _) => Some (if bool_decide (before = []) then lit "/" else before)
  | None => if bool_decide (p = []) then None else Some []
  end.

Section window.
Context `{PasswordHash} `{Aead} `{Sha256} `{Bincode} `{FastCdc} `{!Serde VaultEntry}.

(** The system: what its names stand for, given the documents there are; which of its
    operations on a vault fail; the clock; the home directory; the number of its
    processors, and how long a round of key derivation takes. *)
Variable host : gmap str bytes -> Host.
Variable fault : nat -> option Z.
Variable w : machine.
Variable home_dir : option str.
Variables total_threads elapsed : Z.

Abbreviation W := (M stop App).

Definition on_screens (f : Screens -> Screens) : W unit := fun a =>
  (Ok tt, MkApp (f (screens a)) (explorer a) (opened a) (own a) (confined a)).
Definition on_explorer (f : Ui -> Ui) : W unit := fun a =>
  (Ok tt, MkApp (screens a) (f (explorer a)) (opened a) (own a) (confined a)).
Definition of_screens {B} (f : Screens -> B) : W B := gets (fun a => f (screens a)).
Definition set_opened (o : option Opened) : W unit := fun a =>
  (Ok tt, MkApp (screens a) (explorer a) o (own a) (confined a)).

(** A command on the home directory; its only error ends the program. *)
Definition in_home {B} (m : M error Friends.Home B) : W B := fun a =>
  let (r, h) := m (own a) in
  (map_err (fun _ => Sandbox.Exit) r, MkApp (screens a) (explorer a) (opened a) h (confined a)).

Definition sandboxed (m : M stop thread unit) : W unit := fun a =>
  let (r, t) := m (confined a) in (r, MkApp (screens a) (explorer a) (opened a) (own a) t).

Definition apply_once (vault : str) : W unit :=
  let! applied := of_screens sandbox_applied in
  if applied : bool then mret tt else
  let! docs := gets (fun a => documents (own a)) in
  let! _ := sandboxed (apply_gui_vault_sandbox (host docs) (components vault)) in
  on_screens (set_applied true).

(** Opening a file to read and write, and making a new one, under the sandboxes. *)
Definition can_open (t : thread) (h : Friends.Home) (p : str) : bool :=
  match resolve (host (documents h)) (components p), refused h p with
  | Some c, None | Some c, Some (Some _) => allowed t c Sandbox.ReadFile && allowed t c Sandbox.WriteFile
  | _, _ => false
  end.
Definition open_file (t : thread) (h : Friends.Home) (p : str) : option bytes :=
  content ← documents h !! p; if can_open t h p then Some content else None.

Definition can_make (t : thread) (h : Friends.Home) (p : str) : bool :=
  negb (bool_decide (is_Some (documents h !! p))) &&
  match parent (components p) ≫= resolve (host (documents h)), list.last (components p), refused h p with
  | Some d, Some name, None | Some d, Some name, Some (Some _) =>
      allowed t d MakeReg && allowed t (d ++ [name]) Sandbox.ReadFile && allowed t (d ++ [name]) Sandbox.WriteFile
  | _, _, _ => false
  end.

(** A vault's file before anything of it has been read or written. *)
Definition unread (f : file) (g : rng) : vault :=
  {| phys := f; tmp := None; at_path := None; fs := ∅; meta := empty_meta []; Vfs.payload := 0; gen := g; ios := 0 |}.

(** ** Unlocking *)

(** [try_unlock]. *)
Definition try_unlock (g : rng) : W unit :=
  let! selected := of_screens selected_vault_path in
  match selected with
  | None => on_screens (set_login_status (Said (lit "Error: Please select a vault first!")))
  | Some path =>
      let! typed := of_screens password in
      if bool_decide (typed = []) then on_screens (set_login_status (Said (lit "Error: Password cannot be empty!"))) else
      let! _ := in_home (register_vault (from_utf8_lossy path)) in
      let! registry := in_home load_vault_registry in
      let! _ := on_screens (set_registry registry) in
      let! _ := apply_once path in
      let! _ := on_screens (fun s => set_login_status (Said (lit "Decrypting...")) (set_password [] s)) in
      let! file := gets (fun a => open_file (confined a) (own a) path) in
      match file with
      | None => on_screens (set_login_status (Said (lit "Error: Could not open file: ")))
      | Some content =>
          match load_vault_metadata fault typed (unread (File content 0) g) with
          | (Ok (metadata, unlocked_vault, current_offset), s) =>
              let! _ := on_screens (fun s => set_current (from_utf8_lossy path) (set_login_status silent (set_home_status silent s))) in
              let! _ := set_opened (Some {| vault_file := path; keys := unlocked_vault; contents := set_payload current_offset (set_meta metadata s) |}) in
              on_explorer (set_screen VaultExplorer)
          | (Err _, _) => on_screens (set_login_status (Said (lit "Error: Invalid password or corrupted vault.")))
          | (Panic, _) => lift Panic
          end
      end
  end.

(** [show_login]. *)
Definition show_login (i : input) : W unit :=
  let! _ := match password_edit i with Some p => on_screens (set_password p) | None => mret tt end in
  let! _ := if enter_key i then try_unlock (draws i) else mret tt in
  let! _ := if unlock_click i then try_unlock (draws i) else mret tt in
  if back_click i then
    let! _ := on_screens (fun s => set_login_status silent (set_password [] s)) in
    on_explorer (set_screen Explorer.Home)
  else mret tt.

(** ** Creating *)

(** The new file, if it has been made, with what was written to it: until then it is
    marked by a cursor of minus one. *)
Definition keep_new (p : str) (s : vault) : W unit := fun a =>
  (Ok tt, MkApp (screens a) (explorer a) (opened a)
     (if cursor (phys s) <? 0 then own a else set_documents (<[p := content (phys s)]> (documents (own a))) (own a))
     (confined a)).

Definition parse_u32 : str -> option Z := parse_uint u32_max.

(** [do_create_vault_at_path]. *)
Definition do_create_vault_at_path (g : rng) (full_path : str) : W unit :=
  let! f := of_screens form in
  let name := default (create_name f) (from_utf8_lossy <$> file_stem full_path) in
  match folder full_path with
  | None => on_screens (set_create_status (Said (lit "Error: Invalid save path.")))
  | Some dir =>
      let! _ := apply_once full_path in
      let kdf := if create_kdf_argon f then lit "argon2id" else lit "scrypt" in
      let! _ := on_screens (fun s => set_create_status (Said (lit "Deriving keys, please wait..."))
                                       (set_form (set_secrets [] [] f) s)) in
      let target := join dir (name ++ lit ".aegis") in
      let! makes := gets (fun a => can_make (confined a) (own a) target) in
      let (r, s) := handle_create fault (negb makes) kdf (parse_u32 (create_memory f)) (parse_u32 (create_rounds f))
                      (parse_u32 (create_threads f)) (default 1000 (parse_u32 (create_dec_time f))) total_threads elapsed
                      (create_password f) (unread (File [] (-1)) g) in
      let! _ := keep_new target s in
      match r with
      | Ok _ =>
          let! _ := in_home (register_vault (from_utf8_lossy full_path)) in
          let! registry := in_home load_vault_registry in
          let! _ := on_screens (fun s =>
            set_create_status silent (set_form (unnamed (form s))
              (set_home_status (Said (lit "Vault '" ++ name ++ lit "' created. Select it to unlock.")) (set_registry registry s)))) in
          on_explorer (set_screen Explorer.Home)
      | Err e => on_screens (set_create_status (Because (lit "Error: ") e))
      | Panic => lift Panic
      end
  end.

(** The button [Create Encrypted Vault]; the data directory is taken to be there. *)
Definition create_clicked (g : rng) : W unit :=
  let! f := of_screens form in
  if negb (is_valid_vfs_filename (create_name f)) then on_screens (set_create_status (Said (lit "Invalid or empty vault name."))) else
  if bool_decide (create_password f = []) then on_screens (set_create_status (Said (lit "Password cannot be empty."))) else
  if negb (bool_decide (create_password f = create_confirm f)) then on_screens (set_create_status (Said (lit "Passwords do not match."))) else
  match home_dir with
  | Some home => do_create_vault_at_path g (join (join home (lit ".atom_vault")) (create_name f ++ lit ".aegis"))
  | None => on_screens (set_create_status (Said (lit "Error: Cannot determine home directory.")))
  end.

(** [show_create_vault]. *)
Definition show_create_vault (i : input) : W unit :=
  let! _ := if cancel_click i then on_explorer (set_screen Explorer.Home) else mret tt in
  let! _ := match form_edit i with Some f => on_screens (set_form f) | None => mret tt end in
  let! _ := match generated i with
            | Some pass => on_screens (fun s =>
                set_create_status (Said (lit "Passphrase generated! Toggle Show to view and copy.")) (set_form (set_secrets pass pass (form s)) s))
            | None => mret tt
            end in
  if create_click i then create_clicked (draws i) else mret tt.

(** ** The list of vaults *)

Definition choose (path : str) (s : Screens) : Screens :=
  set_login_status (Said (lit "Vault selected. Enter master password.")) (set_selected (Some path) s).

(** [draw_vault_panel]: a vault that is listed can be removed, and opened if it is there. *)
Definition draw_vault_panel (i : input) : W unit :=
  let! _ := if create_new_click i
            then (let! _ := on_screens (set_home_status silent) in on_explorer (set_screen CreateVault)) else mret tt in
  let! listed := of_screens (fun s => map path (vault_registry s)) in
  let! docs := gets (fun a => documents (own a)) in
  let! _ := match open_click i with
            | Some p =>
                if bool_decide (p ∈ listed) && bool_decide (is_Some (docs !! p)) then
                  let! _ := on_screens (fun s => set_home_status silent (choose p s)) in
                  on_explorer (set_screen Login)
                else mret tt
            | None => mret tt
            end in
  match remove_click i with
  | Some p =>
      if bool_decide (p ∈ listed) then
        let! _ := in_home (remove_vault_from_registry p) in
        let! registry := in_home load_vault_registry in
        on_screens (set_registry registry)
      else mret tt
  | None => mret tt
  end.

(** ** The frame *)

(** The dialog of the vaults, in [poll_file_dialog_results]; nothing fills the place it
    has for the path of a new vault. *)
Definition poll_vault_dialog (i : input) : W unit :=
  match browsed i with
  | None => mret tt
  | Some p =>
      let! _ := on_screens (choose p) in
      on_explorer (fun x => match screen x with Explorer.Home => set_screen Login x | _ => x end)
  end.

(** A part of the explorer's frame on the open vault: what it writes goes to the file. *)
Definition no_keys : UnlockedVault := {| dek := [] |}.
Definition exploring (m : UnlockedVault -> M vault_error (Explorer.App vault) unit) : W unit := fun a =>
  let (r, e) := m (from_option keys no_keys (opened a)) {| ui := explorer a; session := contents <$> opened a |} in
  (map_err (fun _ => Sandbox.Exit) r,
   match opened a, session e with
   | Some o, Some s =>
       MkApp (screens a) (ui e) (Some {| vault_file := vault_file o; keys := keys o; contents := s |})
         (set_documents (<[vault_file o := content (phys s)]> (documents (own a))) (own a)) (confined a)
   | _, _ => MkApp (screens a) (ui e) None (own a) (confined a)
   end).

(** The rest of the click on [Home]. *)
Definition leave_vault : W unit :=
  let! registry := in_home load_vault_registry in
  on_screens (fun s => set_home_status silent (set_registry registry s)).

(** [update]: what it polls, and the screen it shows; the friends are left out. *)
Definition polls (i : input) : W unit :=
  let! _ := poll_vault_dialog i in
  exploring (fun u => poll (open_vault fault w u) (within_explorer i)).

Definition shows (i : input) : W unit :=
  let! sc := gets (fun a => screen (explorer a)) in
  match sc with
  | Explorer.Home => draw_vault_panel i
  | Login => show_login i
  | CreateVault => show_create_vault i
  | VaultExplorer =>
      let! _ := exploring (fun u => show (open_vault fault w u) (within_explorer i)) in
      if home_click (within_explorer i) then leave_vault else mret tt
  | P2PDialog => if back_to_vault_click i then on_explorer (set_screen VaultExplorer) else mret tt
  end.

Definition update (i : input) : W unit := let! _ := polls i in shows i.

(** [AtomVaultApp::new]. *)
Definition blank (h : Friends.Home) : App :=
  MkApp (MkScreens [] silent None [] silent false [] empty_form silent)
    (MkUi Explorer.Home (Said []) None [] None None None None None []) None h [].
Definition new : W unit :=
  let! registry := in_home load_vault_registry in on_screens (set_registry registry).

Fixpoint frames (l : list input) : W unit :=
  match l with
  | [] => mret tt
  | i :: l => let! _ := update i in frames l
  end.

(** ** The broker's writes

    [write_with_sandbox], in a thread of its own with a sandbox of its own: between two
    frames, the first [k] bytes of what was asked to be written are in the file, and
    nothing else is.  The file may be that of the open vault. *)
Definition rewritten (p : str) (d : bytes) (o : Opened) : Opened :=
  if decide (vault_file o = p) then
    {| vault_file := vault_file o; keys := keys o; contents := set_phys (File d (cursor (phys (contents o)))) (contents o) |}
  else o.

Definition broker_writes (n : nat) (k : Z) (a : App) : App :=
  match asked (explorer a) !! n with
  | Some (WriteFile p data) =>
      MkApp (screens a) (explorer a) (rewritten p (ztake k data) <$> opened a)
        (set_documents (<[p := ztake k data]> (documents (own a))) (own a)) (confined a)
  | _ => a
  end.

Inductive event := Frame (i : input) | Brokered (n : nat) (k : Z).
Definition handle (e : event) : W unit :=
  match e with Frame i => update i | Brokered n k => fun a => (Ok tt, broker_writes n k a) end.

Fixpoint events (l : list event) : W unit :=
  match l with
  | [] => mret tt
  | e :: l => let! _ := handle e in events l
  end.
End window.

(** ** Lemmas *)

(** How a step can end: with a result, or with the program. *)
Definition ends {E S B} (P : S -> Prop) (m : M E S B) (Q : B -> S -> Prop) (X : S -> Prop) : Prop :=
  forall s, P s -> match m s with (Ok b, s') => Q b s' | (_, s') => X s' end.

Lemma ends_then {E S B C} (P : S -> Prop) (m : M E S B) (k : B -> M E S C) Q R X :
  ends P m Q X -> (forall b, ends (Q b) (k b) R X) -> ends P (mbind m k) R X.
Proof. intros Hm Hk s Hs. specialize (Hm s Hs). unfold mbind. destruct (m s) as [[b|e|] s']; [by apply Hk|done..]. Qed.
Lemma ends_mret {E S B} (P : S -> Prop) (b : B) X : @ends E S B P (mret b) (fun _ => P) X.
Proof. by intros s Hs. Qed.
Lemma ends_read {E S B} (P : S -> Prop) (f : S -> B) X : @ends E S B P (gets f) (fun b s => b = f s /\ P s) X.
Proof. by intros s Hs. Qed.
Lemma ends_weaken {E S B} (P P' : S -> Prop) (m : M E S B) Q X : ends P m Q X -> (forall s, P' s -> P s) -> ends P' m Q X.
Proof. intros Hm HP s Hs. by apply Hm, HP. Qed.

Section sandboxed.
Context `{PasswordHash} `{Aead} `{Sha256} `{Bincode} `{FastCdc} `{!Serde VaultEntry}.
Variables (host : gmap str bytes -> Host) (fault : nat -> option Z) (w : machine) (home_dir : option str) (total_threads elapsed : Z).
Variable h0 : Friends.Home.

(** The registry's commands leave the documents alone. *)
Definition same_documents (h h' : Friends.Home) : Prop := documents h' = documents h.
#[local] Instance same_documents_preorder : PreOrder same_documents.
Proof. split; [done|]. intros x y z. unfold same_documents. congruence. Qed.

Lemma keeps_write_sealed file data : keeps same_documents (write_sealed file data).
Proof.
  intros h. unfold write_sealed. destruct (encrypt_config _ _ _) as [[x g]|e|]; [|reflexivity..].
  repeat case_match; reflexivity.
Qed.
Lemma keeps_load_registry : keeps same_documents load_vault_registry.
Proof.
  apply keeps_bind; [tc_solve|intros h|intros l; apply keeps_gets; tc_solve]. unfold load_list.
  destruct (files h !! VAULTS); [|done]. by destruct (decrypt_config _ _).
Qed.
Lemma keeps_save_registry l : keeps same_documents (save_vault_registry l).
Proof. apply keeps_bind; [tc_solve|apply keeps_write_sealed|]. intros _. apply keeps_ret. tc_solve. Qed.
Lemma keeps_register p : keeps same_documents (register_vault p).
Proof.
  apply keeps_bind; [tc_solve|apply keeps_gets; tc_solve|]. intros now.
  apply keeps_bind; [tc_solve|apply keeps_load_registry|]. intros l. apply keeps_save_registry.
Qed.
Lemma keeps_remove p : keeps same_documents (remove_vault_from_registry p).
Proof. apply keeps_bind; [tc_solve|apply keeps_load_registry|]. intros l. apply keeps_save_registry. Qed.

(** The process may do this to the file of that name, or could when the system stood
    for it as it did then. *)
Definition may (t : thread) (r : right) (p : str) : Prop :=
  exists docs c, allowed t c r = true /\
    (resolve (host docs) (components p) = Some c \/
     exists d name, parent (components p) ≫= resolve (host docs) = Some d /\ list.last (components p) = Some name /\ c = d ++ [name]).

(** What holds of the window and its process whatever happens, and what is needed to go on. *)
Variable chosen : request -> Prop.

Definition guarded (a : App) : Prop :=
  (sandbox_applied (screens a) = false -> opened a = None /\ documents (own a) = documents h0) /\
  (sandbox_applied (screens a) = true ->
     exists p, apply_gui_vault_sandbox (host (documents h0)) (components p) [] = (Ok tt, confined a)) /\
  (forall o, opened a = Some o -> documents (own a) !! vault_file o = Some (content (phys (contents o))) /\
     may (confined a) Sandbox.ReadFile (vault_file o) /\ may (confined a) Sandbox.WriteFile (vault_file o)) /\
  (forall p, documents (own a) !! p <> documents h0 !! p ->
     may (confined a) Sandbox.WriteFile p \/ exists data, WriteFile p data ∈ asked (explorer a)) /\
  Forall chosen (asked (explorer a)) /\
  (sandbox_applied (screens a) = false -> Forall no_write (asked (explorer a))).
Definition going (a : App) : Prop := guarded a /\ (sandbox_applied (screens a) = false -> confined a = []).

Abbreviation safe m := (ends going m (fun _ => going) guarded).

Lemma safe_screens f : (forall s, sandbox_applied (f s) = sandbox_applied s) -> safe (on_screens f).
Proof. intros Hf a [Ha Hc]. unfold going, guarded in *. cbn. by rewrite Hf. Qed.
Lemma safe_explorer f : (forall x, asked (f x) = asked x) -> safe (on_explorer f).
Proof. intros Hf a [Ha Hc]. unfold going, guarded in *. cbn. by rewrite Hf. Qed.
Lemma safe_if {B} (b : bool) (m k : M stop App B) : safe m -> safe k -> safe (if b then m else k).
Proof. by destruct b. Qed.
Lemma safe_gets {B C} (f : App -> B) (k : B -> M stop App C) :
  (forall b, ends (fun a => going a /\ f a = b) (k b) (fun _ => going) guarded) -> safe (let! b := gets f in k b).
Proof. intros Hk a Ha. by apply (Hk (f a)). Qed.
Lemma safe_of {B C} (f : App -> B) (k : B -> M stop App C) : (forall b, safe (k b)) -> safe (let! b := gets f in k b).
Proof. intros Hk a Ha. by apply (Hk (f a)). Qed.
Lemma safe_home {B} (m : M error Friends.Home B) : keeps same_documents m -> safe (in_home m).
Proof.
  intros Hm a [Ha Hc]. specialize (Hm (own a)). unfold in_home, same_documents in *. destruct (m (own a)) as [r h].
  cbn in Hm. unfold going, guarded in *. destruct r; cbn; by rewrite Hm.
Qed.

Lemma safe_apply p : ends going (apply_once host p) (fun _ a => going a /\ sandbox_applied (screens a) = true) guarded.
Proof.
  intros a [Ha Hc]. unfold apply_once, mbind, of_screens, gets. destruct (sandbox_applied (screens a)) eqn:Hs.
  { cbn. split; [|exact Hs]. split; [exact Ha|]. congruence. }
  destruct Ha as (Hfirst & _ & _ & _ & Hch & Hnw). specialize (Hnw Hs). destruct (Hfirst Hs) as [Ho Hd]. specialize (Hc eq_refl). unfold sandboxed. rewrite Hc, Hd.
  destruct (apply_gui_vault_sandbox _ _ []) as [r t] eqn:Hr.
  assert (Hg : forall b, (b = true -> r = Ok tt) -> guarded (MkApp (set_applied b (screens a)) (explorer a) (opened a) (own a) t)).
  { intros b Hb. destruct a as [[] x op h c]. cbn in *. subst op. unfold guarded. cbn. rewrite Hd. split; [by intros _|]. split; [|by split_and!].
    intros Hb'. exists p. rewrite Hr. f_equal. by apply Hb. }
  destruct r as [[]|e|]; [..|].
  - cbn. specialize (Hg true (fun _ => eq_refl)). split; [split; [exact Hg|]|]; by destruct a as [[] ? ? ? ?].
  - specialize (Hg false ltac:(done)). destruct a as [[] ? ? ? ?]. cbn in *. by subst.
  - specialize (Hg false ltac:(done)). destruct a as [[] ? ? ? ?]. cbn in *. by subst.
Qed.

(** A vault is not made over a file that exists. *)
Definition same_file (s s' : vault) : Prop := phys s' = phys s.
#[local] Instance same_file_preorder : PreOrder same_file.
Proof. split; [done|]. intros x y z. unfold same_file. congruence. Qed.

Lemma keeps_drawing {A} (f : rng -> vresult (A * rng)) : keeps same_file (drawing f).
Proof. intros s. unfold drawing. by destruct (f (gen s)) as [[x g]|e|]. Qed.
Lemma keeps_lift_vault {A} (r : vresult A) : keeps same_file (lift r).
Proof. by intros s. Qed.

Lemma create_refused p st : keeps same_file (create_vault fault true p st).
Proof.
  unfold create_vault. repeat (apply keeps_bind; [exact _|first [apply keeps_drawing|apply keeps_lift_vault]|intros ?]).
  destruct a2 as [x n]. apply keeps_bind; [exact _|apply keeps_lift_vault|intros u].
  intros s. unfold mbind, sys. by destruct (fault (ios s)).
Qed.

Lemma handle_create_refused kdf m r t dec p : keeps same_file (handle_create fault true kdf m r t dec total_threads elapsed p).
Proof. unfold handle_create. case_match; [by intros s|apply create_refused]. Qed.

Lemma allowed_target t h p : can_make host t h p = true -> documents h !! p = None /\ may t Sandbox.WriteFile p.
Proof.
  unfold can_make, may. intros [Hno Hc]%andb_true_iff. apply negb_true_iff, bool_decide_eq_false in Hno. split.
  { by destruct (documents h !! p); [destruct Hno|]. }
  destruct (parent (components p) ≫= resolve (host (documents h))) as [d|] eqn:Hd; [|done].
  destruct (list.last (components p)) as [name|] eqn:Hn; [|by destruct (refused h p)].
  exists (documents h), (d ++ [name]). split; [|right; by exists d, name].
  destruct (refused h p) as [[k|]|]; [|done|]; by apply andb_true_iff in Hc as [_ ?].
Qed.

Lemma safe_keep_new target s makes :
  (makes = false -> (cursor (phys s) <? 0) = true) ->
  ends (fun a => (going a /\ sandbox_applied (screens a) = true) /\ can_make host (confined a) (own a) target = makes)
    (keep_new target s) (fun _ => going) guarded.
Proof.
  intros Hno a [[[Ha Hc] Hs] Hm]. unfold keep_new. cbn. destruct (cursor (phys s) <? 0) eqn:Hn; [by destruct a|].
  destruct makes; [|by specialize (Hno eq_refl)]. apply allowed_target in Hm as [Habs Hmay]. destruct Ha as (_ & Happ & Hop & Hdocs & Hch & _).
  unfold going, guarded. cbn. rewrite Hs. split; [|done]. split; [done|]. split; [by intros _; apply Happ|]. split; [|split; [|by split]].
  - intros o Ho. destruct (Hop o Ho) as [Hf Hm]. split; [|exact Hm]. rewrite lookup_insert_ne; [done|]. intros ->. congruence.
  - intros p Hp. destruct (decide (p = target)) as [->|Hne]; [by left|]. apply Hdocs. by rewrite lookup_insert_ne in Hp.
Qed.

Lemma safe_lift_panic {B} : safe (lift (@Panic stop B)).
Proof. by intros a [Ha _]. Qed.

Ltac screens_step := first
  [ apply safe_screens; by intros [] | apply safe_explorer; intros []; cbn; by repeat case_match | apply safe_if | by intros ? ?; apply ends_mret
  | apply safe_home; first [apply keeps_load_registry|apply keeps_register|apply keeps_remove]
  | apply safe_lift_panic | progress (intros a Ha; exact Ha) ].
Ltac screens := repeat first [ screens_step | apply ends_then with (Q := fun _ => going); [|intros ?] ].

Lemma safe_create g p : safe (do_create_vault_at_path host fault total_threads elapsed g p).
Proof.
  apply safe_of. intros f. cbv zeta. destruct (folder p) as [dir|]; [|apply safe_screens; by intros []].
  eapply ends_then; [apply safe_apply|]. intros []. set (name := default _ _).
  eapply ends_then with (Q := fun _ a => going a /\ sandbox_applied (screens a) = true).
  { intros a [Ha Hs]. split; [|by destruct a as [[] ? ? ? ?]]. by apply (safe_screens (fun s =>
      set_create_status (Said (lit "Deriving keys, please wait...")) (set_form (set_secrets [] [] f) s)) ltac:(by intros []) a Ha). }
  intros []. set (target := join _ _). intros a Ha. unfold mbind at 1, gets. set (makes := can_make _ _ _ _).
  destruct (handle_create _ _ _ _ _ _ _ _ _ _ _) as [r s] eqn:Hrun.
  eapply (ends_then _ _ _ (fun _ => going)); [apply (safe_keep_new target s makes)| |by split].
  - intros Hno. rewrite Hno in Hrun. cbn [negb] in Hrun.
    pose proof (handle_create_refused (if create_kdf_argon f then lit "argon2id" else lit "scrypt") (parse_u32 (create_memory f))
      (parse_u32 (create_rounds f)) (parse_u32 (create_threads f)) (default 1000 (parse_u32 (create_dec_time f))) (create_password f)
      (unread (File [] (-1)) g)) as Hk. unfold same_file in Hk. rewrite Hrun in Hk. cbn in Hk. by rewrite Hk.
  - intros _. destruct r as [[]|e|]; screens.
Qed.

(** Reading the metadata leaves the file. *)
Definition same_content (s s' : vault) : Prop := content (phys s') = content (phys s).
#[local] Instance same_content_preorder : PreOrder same_content.
Proof. split; [done|]. intros x y z. unfold same_content. congruence. Qed.

Lemma keeps_reading {A} e (f : file -> vresult (A * file)) :
  (forall fl a fl', f fl = Ok (a, fl') -> content fl' = content fl) -> keeps same_content (sys fault e (on_file Vault f)).
Proof.
  intros Hf s. unfold sys, same_content. destruct (fault (ios s)); [done|]. unfold on_file. cbn.
  destruct (f (phys s)) as [[a fl]|x|] eqn:Hr; cbn; [|done..]. by eapply Hf.
Qed.

Lemma keeps_seek p : keeps same_content (seek fault Vault p).
Proof. apply keeps_reading. by intros fl x fl' [= _ <-]. Qed.
Lemma keeps_read_exact n : keeps same_content (read_exact fault Vault n).
Proof. apply keeps_reading. intros fl x fl'. unfold f_read_exact. destruct (slice _ _ _); [|done]. by intros [= _ <-]. Qed.
Lemma keeps_read_to_end n : keeps same_content (read_to_end fault Vault n).
Proof. apply keeps_reading. by intros fl x fl' [= _ <-]. Qed.

Lemma load_same_content p : keeps same_content (load_vault_metadata fault p).
Proof.
  unfold load_vault_metadata. cbv zeta.
  repeat (apply keeps_bind; [exact _|first [by intros s|apply keeps_seek|apply keeps_read_exact|apply keeps_read_to_end]|intros ?]).
  by intros s.
Qed.

Lemma safe_unlock g : safe (try_unlock host fault g).
Proof.
  apply safe_of. intros [p|]; [|screens]. apply safe_of. intros typed. apply safe_if; [screens|].
  eapply ends_then; [apply safe_home, keeps_register|]. intros [].
  eapply ends_then; [apply safe_home, keeps_load_registry|]. intros l.
  eapply ends_then; [apply safe_screens; by intros []|]. intros [].
  eapply ends_then; [apply safe_apply|]. intros [].
  eapply ends_then with (Q := fun _ a => going a /\ sandbox_applied (screens a) = true).
  { intros a [Ha Hs]. split; [|by destruct a as [[] ? ? ? ?]]. by apply (safe_screens (fun s =>
      set_login_status (Said (lit "Decrypting...")) (set_password [] s)) ltac:(by intros []) a Ha). }
  intros []. intros a [Ha Hs]. unfold mbind at 1, gets. destruct (open_file host (confined a) (own a) p) as [c|] eqn:Hopen.
  2: { by apply (safe_screens (set_login_status (Said (lit "Error: Could not open file: "))) ltac:(by intros []) a). }
  pose proof (load_same_content typed (unread (File c 0) g)) as Hc.
  destruct (load_vault_metadata fault typed (unread (File c 0) g)) as [[[[m u] off]|e|] s]; unfold same_content in Hc; cbn in Hc.
  - unfold open_file, can_open in Hopen. destruct (documents (own a) !! p) as [c'|] eqn:Hdoc; [|done]. cbn in Hopen.
    assert (Hmay : c' = c /\ may (confined a) Sandbox.ReadFile p /\ may (confined a) Sandbox.WriteFile p).
    { destruct (resolve _ _) as [q|] eqn:Hq; [|done].
      assert (Hall : allowed (confined a) q Sandbox.ReadFile && allowed (confined a) q Sandbox.WriteFile = true /\ c' = c)
        by (destruct (refused (own a) p) as [[k|]|]; try done; destruct (_ && _); by simplify_eq).
      destruct Hall as [[Hr Hw]%andb_true_iff ->]. split; [done|].
      split; exists (documents (own a)), q; (split; [done|by left]). }
    destruct Hmay as (-> & Hr & Hw). destruct Ha as [(Hf & Happ & _ & Hd & Hch & Hnw) _]. destruct a as [[] x op h t]. cbn in *. subst.
    unfold going, guarded. cbn. split; [|done]. split; [done|]. split; [by intros _; apply Happ|].
    split; [intros o [= <-]; cbn; by rewrite Hdoc|]. by destruct x.
  - by apply (safe_screens (set_login_status (Said (lit "Error: Invalid password or corrupted vault."))) ltac:(by intros []) a).
  - by destruct Ha.
Qed.

(** What the explorer asks of the broker is in [chosen], and there is a vault to write from. *)
Definition asking (e e' : Explorer.App vault) : Prop :=
  exists rs, asked (ui e') = asked (ui e) ++ rs /\ Forall chosen rs /\ (session e = None -> session e' = None /\ Forall no_write rs).

Lemma safe_exploring m : (forall u, keeps asking (m u)) -> safe (exploring m).
Proof.
  intros Hm a [Ha Hc]. specialize (Hm (from_option keys no_keys (opened a)) {| ui := explorer a; session := contents <$> opened a |}). unfold exploring. destruct (m _ _) as [r e]. set (a' := match opened a with Some _ => _ | None => _ end).
  assert (Hg : going a'); [|destruct r; cbn; [exact Hg|by destruct Hg..]]. unfold a'. clear a'.
  destruct Ha as (Hf & Happ & Hop & Hd & Hch & Hnw). destruct Hm as (rs & Hrs & Hrc & Hrn). cbn in Hrs, Hrn.
  assert (Hd' : forall p, documents (own a) !! p <> documents h0 !! p ->
    may (confined a) Sandbox.WriteFile p \/ exists data, WriteFile p data ∈ asked (ui e)).
  { intros p Hp. destruct (Hd p Hp) as [?|[data Hin]]; [by left|right]. exists data. rewrite Hrs. apply elem_of_app. by left. }
  assert (Hch' : Forall chosen (asked (ui e))) by (rewrite Hrs; by apply Forall_app_2).
  destruct (opened a) as [o|] eqn:Ho.
  2: { unfold going, guarded. cbn. split; [|done]. split_and!; [intros Hs; by destruct (Hf Hs)|done..|].
       intros Hs. rewrite Hrs. apply Forall_app_2; [by apply Hnw|by apply Hrn]. }
  destruct (Hop o eq_refl) as (Hdoc & Hr & Hw).
  destruct (sandbox_applied (screens a)) eqn:Hs; [|by destruct (Hf eq_refl)].
  destruct (session e) as [s|]; unfold going, guarded; cbn; rewrite Hs.
  - split; [|done]. split; [done|]. split; [exact Happ|]. split; [|split; [|by split]].
    + intros o' [= <-]. cbn. by rewrite lookup_insert_eq.
    + intros p Hp. destruct (decide (p = vault_file o)) as [->|Hne]; [by left|]. apply Hd'. by rewrite lookup_insert_ne in Hp.
  - split; [|done]. by split_and!.
Qed.

Definition chosen_in (i : input) : Prop := forall r, stems (within_explorer i) r -> chosen r.
Lemma asks_chosen i m : chosen_in i -> keeps (asks (within_explorer i)) m -> keeps asking (m : M vault_error (Explorer.App vault) unit).
Proof.
  intros Hi Hm e. destruct (Hm e) as (rs & Hr & Hs & Hn). exists rs. split_and!; [done| |done]. by eapply Forall_impl.
Qed.

Lemma safe_polls i : chosen_in i -> safe (polls fault w i).
Proof.
  intros Hi. unfold polls, poll_vault_dialog. eapply ends_then with (Q := fun _ => going). { destruct (browsed i); screens. }
  intros []. apply safe_exploring. intros u. apply (asks_chosen i); [done|]. apply poll_asks.
Qed.

Lemma safe_shows i : chosen_in i -> safe (shows host fault w home_dir total_threads elapsed i).
Proof.
  intros Hi. apply safe_of. intros [].
  - unfold draw_vault_panel. eapply ends_then with (Q := fun _ => going); [screens|]. intros [].
    apply safe_of. intros listed. apply safe_of. intros docs. eapply ends_then with (Q := fun _ => going).
    { destruct (open_click i); screens. } intros []. destruct (remove_click i); screens.
  - unfold show_login. destruct (password_edit i); repeat first [apply safe_unlock|screens_step|apply ends_then with (Q := fun _ => going); [|intros ?]].
  - eapply ends_then; [apply safe_exploring; intros u; apply (asks_chosen i); [done|]; apply show_asks|].
    intros []. unfold leave_vault. screens.
  - unfold show_create_vault, create_clicked. 
    eapply ends_then with (Q := fun _ => going); [screens|]. intros [].
    eapply ends_then with (Q := fun _ => going). { destruct (form_edit i); screens. } intros [].
    eapply ends_then with (Q := fun _ => going). { destruct (generated i); screens. } intros [].
    apply safe_if; [|screens]. apply safe_of. intros f. repeat (apply safe_if; [screens|]). destruct home_dir; [apply safe_create|screens].
  - screens.
Qed.

Lemma safe_update i : chosen_in i -> safe (update host fault w home_dir total_threads elapsed i).
Proof. intros Hi. eapply ends_then; [by apply safe_polls|]. intros []. by apply safe_shows. Qed.

(** The broker writes a file that was chosen, and an open vault's file is what was written. *)
Lemma safe_broker n k : safe (fun a => (@Ok stop unit tt, broker_writes n k a)).
Proof.
  intros a [(Hf & Happ & Hop & Hd & Hch & Hnw) Hc]. unfold broker_writes. destruct (asked (explorer a) !! n) as [[p|p data|]|] eqn:Hn.
  1,3,4: by split.
  assert (Hin : WriteFile p data ∈ asked (explorer a)) by by eapply list_elem_of_lookup_2.
  destruct (sandbox_applied (screens a)) eqn:Hs.
  2: { exfalso. specialize (Hnw eq_refl). rewrite list.Forall_forall in Hnw. by apply (Hnw _ Hin). }
  unfold going, guarded. cbn. rewrite Hs. split; [|done]. split; [done|]. split; [exact Happ|]. split; [|split; [|by split]].
  - intros o' Ho. destruct (opened a) as [o|]; [|done]. injection Ho as <-. destruct (Hop o eq_refl) as (Hdoc & Hr & Hw).
    unfold rewritten. case_decide as Hp.
    + subst p. cbn. by rewrite lookup_insert_eq.
    + by rewrite lookup_insert_ne.
  - intros q Hq. destruct (decide (q = p)) as [->|Hne]; [right; by exists data|]. apply Hd. by rewrite lookup_insert_ne in Hq.
Qed.

(** *** The password *)

(** A step that touches neither the screen shown nor the password typed. *)
Definition same_secret (a a' : App) : Prop :=
  screen (explorer a') = screen (explorer a) /\ password (screens a') = password (screens a).
#[local] Instance same_secret_preorder : PreOrder same_secret.
Proof. split; [done|]. intros x y z [? ?] [? ?]. split; congruence. Qed.

Definition wiped (a : App) : Prop := password (screens a) = [].
Definition discreet (a : App) : Prop := screen (explorer a) = Login \/ wiped a.

Abbreviation mute m := (ends discreet m (fun _ => discreet) discreet).
Abbreviation clean m := (ends wiped m (fun _ => wiped) wiped).

Lemma mute_keeps {B} (m : M stop App B) : keeps same_secret m -> mute m.
Proof.
  intros Hm a Ha. destruct (Hm a) as [Hs Hp]. unfold discreet, wiped in *.
  destruct (m a) as [[]]; cbn in *; by rewrite Hs, Hp.
Qed.
Lemma clean_keeps {B} (m : M stop App B) : keeps same_secret m -> clean m.
Proof. intros Hm a Ha. destruct (Hm a) as [_ Hp]. unfold wiped in *. destruct (m a) as [[]]; cbn in *; by rewrite Hp. Qed.
Lemma clean_explorer f : clean (on_explorer f).
Proof. by intros a Ha. Qed.
Lemma clean_exploring m : clean (exploring m).
Proof. intros a Ha. unfold exploring. destruct (m _ _) as [r e]. destruct r, (opened a), (session e); exact Ha. Qed.

Lemma secret_screens f : (forall s, password (f s) = password s) -> keeps same_secret (on_screens f).
Proof. intros Hf a. split; [done|apply Hf]. Qed.
Lemma secret_home {B} (m : M error Friends.Home B) : keeps same_secret (in_home m).
Proof. intros a. unfold in_home. by destruct (m (own a)). Qed.
Lemma secret_opened o : keeps same_secret (set_opened o).
Proof. by intros a. Qed.
Lemma secret_new p s : keeps same_secret (keep_new p s).
Proof. by intros a. Qed.
Lemma secret_lift {B} (r : outcome stop B) : keeps same_secret (lift r).
Proof. by intros a. Qed.
Lemma secret_apply p : keeps same_secret (apply_once host p).
Proof.
  unfold apply_once. apply keeps_bind; [exact _|by intros a|]. intros []; [by intros a|].
  apply keeps_bind; [exact _|by intros a|]. intros docs. apply keeps_bind; [exact _| |].
  - intros a. unfold sandboxed. by destruct (apply_gui_vault_sandbox _ _ _).
  - intros []. apply secret_screens. by intros [].
Qed.
Lemma secret_if {B} (b : bool) (m k : M stop App B) : keeps same_secret m -> keeps same_secret k -> keeps same_secret (if b then m else k).
Proof. by destruct b. Qed.

Ltac secret := repeat first
  [ apply secret_screens; by intros [] | apply secret_home | apply secret_opened | apply secret_new | apply secret_lift
  | apply secret_apply | apply secret_if | by intros ? | apply keeps_bind; [exact _| |intros ?]
  | match goal with |- keeps same_secret (match ?x with _ => _ end) => destruct x end ].

(** The explorer does not leave the login screen. *)
Definition stays (e e' : Explorer.App vault) : Prop := screen (ui e) = Login -> screen (ui e') = Login.
#[local] Instance stays_preorder : PreOrder stays.
Proof. split; [intros x Hx; exact Hx|]. intros x y z Hxy Hyz Hx. by apply Hyz, Hxy. Qed.

Lemma stays_poll v i : keeps stays (poll v i).
Proof. intros e. unfold stays. by rewrite (poll_screen v i e). Qed.

Lemma stays_show v i : keeps stays (show v i).
Proof. intros e He. unfold show, of_ui, mbind, gets. by rewrite He. Qed.

Lemma mute_exploring m : (forall u, keeps stays (m u)) -> mute (exploring m).
Proof.
  intros Hm a Ha. unfold exploring. specialize (Hm (from_option keys no_keys (opened a)) {| ui := explorer a; session := contents <$> opened a |}).
  destruct (m _ _) as [r e]. unfold stays in Hm. cbn in Hm.
  assert (Hd : forall o h t, discreet (MkApp (screens a) (ui e) o h t)) by (intros o h t; destruct Ha as [Ha|Ha]; [left; by apply Hm|by right]).
  destruct r, (opened a), (session e); apply Hd.
Qed.

Lemma mute_unlock g : mute (try_unlock host fault g).
Proof.
  unfold try_unlock, of_screens. eapply ends_then; [apply mute_keeps; by intros a|]. intros [p|]; [|apply mute_keeps; secret].
  eapply ends_then; [apply mute_keeps; by intros a|]. intros typed. case_match; [apply mute_keeps; secret|].
  do 4 (eapply ends_then; [apply mute_keeps; secret|]; intros ?).
  eapply ends_then with (Q := fun _ => wiped); [intros a _; by destruct a as [[] ? ? ? ?]|]. intros ?.
  eapply ends_weaken with (P := wiped); [|done]. intros a Ha.
  set (m := mbind _ _). assert (Hm : clean m); [|specialize (Hm a Ha); destruct (m a) as [[]]; by right]. unfold m. clear.
  eapply ends_then; [apply clean_keeps; by intros a|]. intros [c|]; [|apply clean_keeps; secret].
  destruct (load_vault_metadata _ _ _) as [[[[m u] off]|e|] s]; [|apply clean_keeps; secret..].
  do 2 (eapply ends_then; [apply clean_keeps; secret|]; intros ?). apply clean_explorer.
Qed.

Lemma mute_clean {B} (m : M stop App B) : clean m -> ends wiped m (fun _ => discreet) discreet.
Proof. intros Hm a Ha. specialize (Hm a Ha). destruct (m a) as [[]]; by right. Qed.

Ltac clean := repeat first
  [ apply clean_explorer | apply clean_exploring | solve [apply clean_keeps; secret]
  | apply ends_then with (Q := fun _ => wiped); [|intros ?]
  | match goal with |- ends wiped (match ?x with _ => _ end) _ _ => destruct x end
  | match goal with |- ends wiped (let _ := ?x in _) _ _ => destruct x end ].

Lemma clean_create g p : clean (do_create_vault_at_path host fault total_threads elapsed g p).
Proof.
  unfold do_create_vault_at_path. eapply ends_then with (Q := fun _ => wiped); [apply clean_keeps; by intros a|]. intros f. cbv zeta.
  destruct (folder p); [|clean]. do 2 (eapply ends_then with (Q := fun _ => wiped); [clean|]; intros ?).
  eapply ends_then with (Q := fun _ => wiped); [apply clean_keeps; by intros a|]. intros makes.
  destruct (handle_create _ _ _ _ _ _ _ _ _ _ _) as [r s]. eapply ends_then with (Q := fun _ => wiped); [clean|]. intros _.
  destruct r; clean.
Qed.

Lemma clean_clicked g : clean (create_clicked host fault home_dir total_threads elapsed g).
Proof.
  unfold create_clicked. eapply ends_then with (Q := fun _ => wiped); [apply clean_keeps; by intros a|]. intros f.
  do 3 (case_match; [clean|]). destruct home_dir; [apply clean_create|clean].
Qed.

Lemma mute_login i : ends (fun a => screen (explorer a) = Login) (show_login host fault i) (fun _ => discreet) discreet.
Proof.
  unfold show_login. eapply ends_then with (Q := fun _ => discreet).
  { intros a Ha. by destruct (password_edit i); left. }
  intros _. eapply ends_then with (Q := fun _ => discreet). { destruct (enter_key i); [apply mute_unlock|by intros a]. }
  intros _. eapply ends_then with (Q := fun _ => discreet). { destruct (unlock_click i); [apply mute_unlock|by intros a]. }
  intros _. destruct (back_click i); [|by intros a]. intros a _. right. by destruct a as [[] ? ? ? ?].
Qed.

Lemma mute_polls i : mute (polls fault w i).
Proof.
  unfold polls, poll_vault_dialog. eapply ends_then with (Q := fun _ => discreet).
  { destruct (browsed i); [|by intros a]. eapply ends_then; [apply mute_keeps; secret|]. intros _ a [Ha|Ha]; [left|by right].
    cbn. by rewrite Ha. }
  intros _. apply mute_exploring. intros u. apply stays_poll.
Qed.

Lemma mute_shows i : mute (shows host fault w home_dir total_threads elapsed i).
Proof.
  intros a Ha. unfold shows, mbind at 1, gets.
  destruct (screen (explorer a)) eqn:Hs; [| by apply mute_login |..].
  all: assert (Hw : wiped a) by (destruct Ha as [Ha|Ha]; [congruence|exact Ha]); revert a Ha Hs Hw; intros a _ _; revert a; apply mute_clean.
  - unfold draw_vault_panel. clean.
  - unfold leave_vault. clean.
  - unfold show_create_vault. do 3 (eapply ends_then with (Q := fun _ => wiped); [clean|]; intros ?).
    case_match; [apply clean_clicked|clean].
  - clean.
Qed.

Lemma mute_update i : mute (update host fault w home_dir total_threads elapsed i).
Proof. eapply ends_then; [apply mute_polls|]. intros []. apply mute_shows. Qed.

(** The window from the start of the program. *)
Definition run (l : list event) : outcome stop unit * App :=
  (let! _ := new in events host fault w home_dir total_threads elapsed l) (blank h0).

Lemma safe_events l : (forall i, Frame i ∈ l -> chosen_in i) -> safe (events host fault w home_dir total_threads elapsed l).
Proof.
  induction l as [|e l IH]; intros Hl; [by intros a|].
  eapply ends_then with (Q := fun _ => going); [|intros ?; apply IH; intros i Hi; apply Hl; by right].
  destruct e as [i|n k]; [|apply safe_broker]. apply safe_update, Hl. by left.
Qed.
Lemma mute_events l : mute (events host fault w home_dir total_threads elapsed l).
Proof.
  induction l as [|e l IH]; [by intros a|]. eapply ends_then with (Q := fun _ => discreet); [|intros ?; exact IH].
  destruct e as [i|n k]; [apply mute_update|]. intros a Ha. cbn. unfold broker_writes. by repeat case_match.
Qed.

Lemma safe_new : safe new.
Proof. unfold new. screens. Qed.
Lemma mute_new : mute new.
Proof. apply mute_keeps. unfold new. secret. Qed.

End sandboxed.

Section window_safe.
Context `{PasswordHash} `{Aead} `{Sha256} `{Bincode} `{FastCdc} `{!Serde VaultEntry}.
Variables (host : gmap str bytes -> Host) (fault : nat -> option Z) (w : machine) (home_dir : option str) (total_threads elapsed : Z).
Variable h0 : Friends.Home.

(** C6: The window works on a vault only inside the sandbox it entered for one.  From the
    start of the program, whatever is clicked, typed and chosen, whatever fails, and
    whenever the broker's threads write what they were asked to: before the process is
    sandboxed no vault is open and no document has changed; it enters one sandbox, for
    the file it was first asked to unlock or create, and keeps exactly that one; a vault
    that is open is one that this sandbox lets it read and write, and what the session
    holds is what is in the file; every document that is no longer what it was is one
    the sandbox lets the window write, or one the user chose in the dialog of an export,
    and all that the broker was ever asked comes from a dialog or a click of some frame;
    and what is typed into the login screen's field is in the window only while that
    screen is shown (the fields of the creation screen are not cleared when it is left:
    [Window.cancelled_password_kept]). *)
Theorem vaults_open_sandboxed l :
  let a := snd (run host fault w home_dir total_threads elapsed h0 l) in
  (sandbox_applied (screens a) = false -> opened a = None /\ documents (own a) = documents h0) /\
  (sandbox_applied (screens a) = true ->
     exists p, apply_gui_vault_sandbox (host (documents h0)) (components p) [] = (Ok tt, confined a)) /\
  (forall o, opened a = Some o -> documents (own a) !! vault_file o = Some (content (phys (contents o))) /\
     may host (confined a) Sandbox.ReadFile (vault_file o) /\ may host (confined a) Sandbox.WriteFile (vault_file o)) /\
  (forall p, documents (own a) !! p <> documents h0 !! p ->
     may host (confined a) Sandbox.WriteFile p \/ exists i, Frame i ∈ l /\ export_path (within_explorer i) = Some p) /\
  (forall r, r ∈ asked (explorer a) -> exists i, Frame i ∈ l /\ stems (within_explorer i) r) /\
  (screen (explorer a) = Login \/ password (screens a) = []).
Proof.
  cbv zeta. set (chosen := fun r => exists i, Frame i ∈ l /\ stems (within_explorer i) r).
  assert (Hl : forall i, Frame i ∈ l -> chosen_in chosen i) by (intros i Hi r Hr; by exists i).
  pose proof (ends_then _ _ _ _ _ _ (safe_new host h0 chosen)
    (fun _ => safe_events host fault w home_dir total_threads elapsed h0 chosen l Hl) (blank h0)) as Hs.
  pose proof (ends_then _ _ _ _ _ _ mute_new (fun _ => mute_events host fault w home_dir total_threads elapsed l) (blank h0) (or_intror eq_refl)) as Hm.
  assert (Hg : going host h0 chosen (blank h0)).
  { unfold going, guarded. cbn. split; [|done]. split; [done|]. split; [done|]. split; [done|]. split; [done|]. by split. }
  specialize (Hs Hg). change (mbind new _ (blank h0)) with (run host fault w home_dir total_threads elapsed h0 l) in Hs, Hm.
  assert (Hgd : guarded host h0 chosen (snd (run host fault w home_dir total_threads elapsed h0 l)) /\
    discreet (snd (run host fault w home_dir total_threads elapsed h0 l))).
  { destruct (run _ _ _ _ _ _ _ _) as [[]]; cbn; (split; [|exact Hm]); [by destruct Hs|exact Hs..]. }
  destruct Hgd as ((Hf & Ha & Ho & Hd & Hch & _) & Hdis). rewrite list.Forall_forall in Hch. split_and!; [done..| |done|done].
  intros p Hp. destruct (Hd p Hp) as [?|(data & Hin)]; [by left|right]. destruct (Hch _ Hin) as (i & Hi & Hx). by exists i.
Qed.
End window_safe.

(** ** Examples *)

Import Toy ToyPw ToyVault ToyEd ToySerde.

(** A system without symbolic links where every path of [dirs] is a directory. *)
Definition plain_host (dirs : list str) (docs : gmap str bytes) : Host :=
  {| resolve q := Some q;
     kind_of q := if bool_decide (q ∈ map components dirs) then Some Directory
                  else if existsb (fun d => bool_decide (components d.1 = q)) (map_to_list docs) then Some Regular else None;
     opens _ := true; handles := true; audit := false; takes_audit := true; takes_rule _ _ := true;
     restricts := Some FullyEnforced; Sandbox.home := Some (components (lit "/h")); variable _ := None |}.

(** A device with the vault of [ToyVault], listed and not yet opened. *)
Definition toy_home : Friends.Home :=
  {| config_key := Some (zrep 32 Byte.x33);
     Friends.files := <[VAULTS := to_json [{| name := lit "a"; path := lit "/v/a.aegis"; last_opened := 5 |}]]> ∅;
     documents := <[lit "/v/a.aegis" := content (phys toy_vault)]> ∅; refused _ := None; clock := 9; entropy := rng_const Byte.x2a |}.

Definition frame_of (x : Explorer.input) (opening typed : option str) : event := Frame
  {| browsed := None; within_explorer := x; create_new_click := false; open_click := opening; remove_click := None;
     password_edit := typed; enter_key := bool_decide (is_Some typed); unlock_click := false; back_click := false;
     cancel_click := false; form_edit := None; generated := None; create_click := false;
     back_to_vault_click := false; draws := rng_const Byte.x05 |}.

(** The vault is chosen and unlocked, a file of it is exported, and the broker writes. *)
Definition exporting : list event :=
  [frame_of idle (Some (lit "/v/a.aegis")) None; frame_of idle None (Some (lit "pw")); frame_of (clicking (Export (lit "a"))) None None;
   frame_of (choosing None (Some (lit "/out/a"))) None None; Brokered 0 100].
Definition exported : App :=
  snd (run (plain_host (map lit ["/v"; "/out"])) (fun _ => None) demo_machine (Some (lit "/h")) 4 0 toy_home exporting).

Example export_written :
  screen (explorer exported) = VaultExplorer /\ vault_file <$> opened exported = Some (lit "/v/a.aegis") /\
  sandbox_applied (screens exported) = true /\ documents (own exported) !! lit "/out/a" = Some (lit "first").
Proof. vm_compute. by split_and!. Qed.

Lemma vaults_open_sandboxed_witness :
  let host := plain_host (map lit ["/v"; "/out"]) in
  (exists p, apply_gui_vault_sandbox (host (documents toy_home)) (components p) [] = (Ok tt, confined exported)) /\
  (exists o, opened exported = Some o /\ documents (own exported) !! vault_file o = Some (content (phys (contents o))) /\
     may host (confined exported) Sandbox.WriteFile (vault_file o)) /\
  (documents (own exported) !! lit "/out/a" = Some (lit "first") /\
   (may host (confined exported) Sandbox.WriteFile (lit "/out/a") \/
    exists i, Frame i ∈ exporting /\ export_path (within_explorer i) = Some (lit "/out/a"))) /\
  password (screens exported) = [].
Proof.
  intros host. destruct export_written as (Hsc & Hv & Happ & Hout).
  destruct (vaults_open_sandboxed host (fun _ => None) demo_machine (Some (lit "/h")) 4 0 toy_home exporting)
    as (_ & Ha & Ho & Hd & _ & Hp).
  change (snd (run host _ _ _ _ _ _ _)) with exported in Ha, Ho, Hd, Hp. split; [exact (Ha Happ)|]. split.
  - destruct (opened exported) as [o|]; [|discriminate Hv]. exists o. split; [reflexivity|]. destruct (Ho o eq_refl) as (? & _ & ?). by split.
  - split.
    + split; [exact Hout|]. apply Hd. rewrite Hout. vm_compute. discriminate.
    + destruct Hp as [Hp|Hp]; [|exact Hp]. rewrite Hsc in Hp. discriminate Hp.
Defined.

(** Nothing keeps an export from the file of the vault that is open: the vault is then
    the exported document. *)
Example export_over_vault :
  let over := [frame_of idle (Some (lit "/v/a.aegis")) None; frame_of idle None (Some (lit "pw")); frame_of (clicking (Export (lit "a"))) None None;
               frame_of (choosing None (Some (lit "/v/a.aegis"))) None None; Brokered 0 100] in
  documents (own (snd (run (plain_host (map lit ["/v"; "/out"])) (fun _ => None) demo_machine (Some (lit "/h")) 4 0 toy_home over)))
    !! lit "/v/a.aegis" = Some (lit "first").
Proof. vm_compute. reflexivity. Qed.
