(* ===== verification/Window.v ===== *)
(** * What the window keeps

    The screens of [Screens] and the explorer of [Explorer] in one run: a vault is
    created, and then visited any number of times. *)

From Stdlib Require Import Strings.Byte.
From stdpp Require Import strings gmap.
From S2P Require Import Prelude Keyed Text Primitives StateM Disk VaultCrypto Vfs Storage VaultOps VaultSpec.
From S2P Require Import ToyVault Vault Paths ConfigFile Sandbox Explorer AtomLink Friends Screens.

(** ** The name of a new vault *)

Lemma rsplit_once_at c a b : Forall (fun x => x <> c) b -> rsplit_once c (a ++ c :: b) = Some (a, b).
Proof.
  intros Hb. unfold rsplit_once. rewrite reverse_app, reverse_cons, <- app_assoc. cbn [app].
  rewrite split_once_at by (by apply Forall_reverse). by rewrite !reverse_involutive.
Qed.

Definition aegis : str := lit ".aegis".

Lemma valid_name n : is_valid_vfs_filename n = true -> n <> [] /\ slash_free n.
Proof.
  unfold is_valid_vfs_filename. intros Hv. bools. split; [done|]. apply list.Forall_forall. by intros x Hx ->.
Qed.

Section names.
Variables home n : str.
Hypothesis Hhome : home <> [].
Hypothesis Hn : is_valid_vfs_filename n = true.

Definition vault_dir : str := join home (lit ".atom_vault").
Definition vault_at : str := join vault_dir (n ++ aegis).

Lemma file_part : slash_free (n ++ aegis) /\ vanishes (n ++ aegis) = false.
Proof.
  destruct (valid_name n Hn) as [Hne Hs]. split.
  - apply Forall_app. split; [exact Hs|]. by repeat constructor.
  - unfold vanishes. apply bool_decide_eq_false. destruct n as [|x r]; [done|]. intros [Hx|Hx]; [done|].
    injection Hx as _ Hx. by destruct r.
Qed.

Lemma dir_components : components vault_dir = components home ++ [lit ".atom_vault"].
Proof. apply components_join; [exact Hhome| |done]. by repeat constructor. Qed.

Lemma dir_text : exists b, vault_dir = b ++ lit ".atom_vault".
Proof.
  unfold vault_dir, join. destruct (starts_with _ _ || _); [by exists []|]. case_bool_decide; [by exists home|].
  exists (home ++ lit "/"). by rewrite <- app_assoc.
Qed.

Lemma vault_text : vault_at = vault_dir ++ Byte.x2f :: (n ++ aegis).
Proof.
  destruct file_part as [Hs _]. unfold vault_at, join.
  destruct dir_text as [b Hb]. rewrite not_absolute, (bool_decide_eq_false_2 (vault_dir = [])) by (done || (rewrite Hb; by destruct b)). cbn [orb].
  rewrite bool_decide_eq_false_2; [done|]. intros [r Hr%strip_suffix_Some]. rewrite Hb in Hr.
  change (lit ".atom_vault") with (lit ".atom_vaul" ++ [Byte.x74]) in Hr. change (lit "/") with [Byte.x2f] in Hr.
  rewrite app_assoc in Hr. by apply app_inj_tail in Hr as [_ ?].
Qed.

Lemma vault_components : components vault_at = components vault_dir ++ [n ++ aegis].
Proof. destruct file_part as [Hs Hv], dir_text as [b Hb]. apply components_join; [rewrite Hb; by destruct b|exact Hs|exact Hv]. Qed.

Lemma vault_folder : folder vault_at = Some vault_dir.
Proof.
  unfold folder. rewrite vault_text, rsplit_once_at by apply file_part.
  destruct dir_text as [b Hb]. rewrite bool_decide_eq_false_2; [done|]. rewrite Hb. by destruct b.
Qed.

Lemma vault_file_name : file_name vault_at = Some (n ++ aegis).
Proof.
  unfold file_name. rewrite vault_components, last_snoc. rewrite bool_decide_eq_false_2; [done|].
  destruct (valid_name n Hn) as [Hne _]. destruct n as [|x [|y [|z r]]]; [done|..]; by intros [|[|]].
Qed.

Lemma vault_stem : file_stem vault_at = Some n.
Proof.
  unfold file_stem. rewrite vault_file_name. cbn. f_equal. unfold rsplit_file_at_dot.
  change aegis with (dot :: lit "aegis"). rewrite rsplit_once_at by (by repeat constructor).
  destruct (valid_name n Hn) as [Hne _]. by rewrite bool_decide_eq_false_2.
Qed.
End names.

(** ** A new file *)

Section made.
Context `{PasswordHash} `{Aead} `{Sha256} `{Bincode} `{FastCdc}.
Variable fault : nat -> option Z.

(** The vault's file exists. *)
Definition made (s : vault) : Prop := 0 <= cursor (phys s).
Definition stays_made (s s' : vault) : Prop := made s -> made s'.
#[local] Instance stays_made_preorder : PreOrder stays_made.
Proof. split; [intros x Hx; exact Hx|]. intros x y z Hxy Hyz Hx. by apply Hyz, Hxy. Qed.

Lemma made_on_file {A} e (f : file -> vresult (A * file)) :
  (forall fl a fl', f fl = Ok (a, fl') -> 0 <= cursor fl -> 0 <= cursor fl') -> keeps stays_made (sys fault e (on_file Vault f)).
Proof.
  intros Hf s. unfold sys, stays_made, made. destruct (fault (ios s)); [done|]. unfold on_file. cbn.
  destruct (f (phys s)) as [[a fl]|x|] eqn:Hr; cbn; [|done..]. by eapply Hf.
Qed.

Lemma made_write b : keeps stays_made (write_all fault Vault b).
Proof.
  intros s. unfold write_all. destruct (fault (ios s)) as [k|] eqn:Hk.
  - unfold stays_made, made. cbn. pose proof (zlen_nonneg (ztake k b)). lia.
  - apply made_on_file. intros fl a fl' [= _ <-]. cbn. pose proof (zlen_nonneg b). lia.
Qed.
Lemma made_seek p : 0 <= p -> keeps stays_made (seek fault Vault p).
Proof. intros Hp. apply made_on_file. by intros ? ? ? [= _ <-]. Qed.
Lemma made_drawing {A} (f : rng -> vresult (A * rng)) : keeps stays_made (drawing f).
Proof. intros s. unfold drawing, stays_made. by destruct (f (gen s)) as [[x r]|e|]. Qed.

Lemma made_save m u off : 0 <= off -> keeps stays_made (save_vault_metadata fault Vault m u off).
Proof.
  intros Hoff. unfold save_vault_metadata, stream_position, set_len, sync. cbv zeta.
  repeat (apply keeps_bind; [exact _|first [apply made_drawing|apply made_write|apply made_seek; done
    |apply made_on_file; by intros ? ? ? [= _ <-]]|intros ?]).
  apply made_on_file. by intros ? ? ? [= _ <-].
Qed.

Lemma ends_keeps {E S B} (R : S -> S -> Prop) (P : S -> Prop) (m : M E S B) :
  keeps R m -> (forall s s', R s s' -> P s -> P s') -> ends P m (fun _ => P) (fun _ => True).
Proof. intros Hm HR s Hs. specialize (Hm s). destruct (m s) as [[]]; [by eapply HR|done..]. Qed.

(** A vault that has been created has a file. *)
Lemma create_made p st : ends (fun _ => True) (create_vault fault false p st) (fun _ => made) (fun _ => True).
Proof.
  assert (Hany : forall B (m : V B), ends (fun _ => True) m (fun _ _ => True) (fun _ => True)) by (by intros B m s _; destruct (m s) as [[]]).
  assert (Hk : forall B (m : V B), keeps stays_made m -> ends made m (fun _ => made) (fun _ => True)).
  { intros B m Hm. by apply (ends_keeps stays_made). }
  unfold create_vault. do 3 (eapply ends_then; [apply Hany|]; intros ?). eapply ends_then; [apply Hany|]. intros [x n].
  eapply ends_then; [apply Hany|]. intros u. eapply ends_then with (Q := fun _ => made).
  { intros s _. unfold sys. by destruct (fault (ios s)). }
  intros _. cbv zeta. do 5 (eapply ends_then; [apply Hk, made_write|]; intros ?).
  eapply ends_then; [apply Hk, made_drawing|]. intros cs. cbv zeta.
  eapply ends_then; [apply Hk, made_save; done|]. intros ?. apply Hk, made_on_file. by intros ? ? ? [= _ <-].
Qed.
End made.

(** ** What is clicked *)

Definition doing (g : rng) (x : Explorer.input) (new : bool) (opens typed : option str) (f : option Form) : input :=
  {| browsed := None; within_explorer := x; create_new_click := new; open_click := opens; remove_click := None;
     password_edit := typed; enter_key := false; unlock_click := bool_decide (is_Some typed); back_click := false;
     cancel_click := false; form_edit := f; generated := None; create_click := bool_decide (is_Some f);
     back_to_vault_click := false; draws := g |}.

Definition creating (g : rng) (f : Form) : list input :=
  [doing g idle true None None None; doing g idle false None None (Some f)].

(** A visit: the vault is chosen in the list, the password typed, files are worked on,
    and the vault is left. *)
Definition visit (g : rng) (p pw : str) (l : list Explorer.input) : list input :=
  [doing g idle false (Some p) None None; doing g idle false None (Some pw) None]
  ++ map (fun i => doing g i false None None None) l ++ [doing g leaving false None None None].

(** The same over a list of files. *)
Definition ideal_visit `{FastCdc} (l : list Explorer.input) (xy : Ui * Ideal) : Ui * Ideal :=
  let a := snd (Explorer.frames ideal_vault l {| ui := set_screen VaultExplorer (fst xy); session := Some (snd xy) |}) in
  (set_screen Explorer.Home (ui a), default (snd xy) (session a)).
Definition ideal_visits `{FastCdc} (vs : list (list Explorer.input)) (xy : Ui * Ideal) : Ui * Ideal :=
  foldl (fun xy l => ideal_visit l xy) xy vs.

(** Work that stays in the explorer. *)
Definition at_work (i : Explorer.input) : Prop := home_click i = false /\ p2p_click i = false.
Lemma stays_home_free l : Forall at_work l -> Forall (fun i => home_click i = false) l.
Proof. apply Forall_impl. by intros i [? _]. Qed.

Section keeping.
Context `{PasswordHash} `{!PasswordHashLaws _} `{Aead} `{!AeadLaws _} `{Sha256} `{!Sha256Laws _}.
Context `{Bincode} `{!BincodeLaws _} `{FastCdc} `{!FastCdcLaws _} {SV : Serde VaultEntry} {SVL : SerdeLaws SV}.
Variables (host : gmap str bytes -> Host) (w : machine) (home n pw : str) (total_threads elapsed now : Z) (g : rng).
Abbreviation none := (fun _ : nat => @None Z).
Abbreviation p := (vault_at home n).
Abbreviation update := (Screens.update host none w (Some home) total_threads elapsed).
Abbreviation frames := (Screens.frames host none w (Some home) total_threads elapsed).

Hypothesis Hw : unix_clock w = Some now.
Hypothesis Hnow : is_u64 now.
Hypothesis Hg : rng_total g.
Hypothesis Hhome : home <> [].
Hypothesis Hn : is_valid_vfs_filename n = true.
Hypothesis Hascii : ascii home /\ ascii n.
Hypothesis Hpw : pw <> [].

(** The system supports sandboxes; the data directory is there, as [d]; and the name of
    the vault stands for a file in it once there is one. *)
Record serves (d : Vfs.path) : Prop := {
  supports : forall docs, full_support (host docs);
  knows_home : forall docs, Sandbox.home (host docs) = Some (components home);
  dir_there : forall docs, metadata (host docs) (components (vault_dir home)) = Some Directory;
  dir_opens : forall docs, path_fd (host docs) (components (vault_dir home)) = Some d;
  file_there : forall docs, is_Some (docs !! p) -> resolve (host docs) (components p) = Some (d ++ [n ++ aegis]);
}.
Variable d : Vfs.path.
Hypothesis Hserves : serves d.

(** A sandbox that leaves the data directory open. *)
Definition opens_up (t : thread) : Prop :=
  forall r, r ∈ from_all -> allowed t d r = true /\ allowed t (d ++ [n ++ aegis]) r = true.

Lemma opens_rights t : opens_up t ->
  allowed t d MakeReg = true /\ allowed t (d ++ [n ++ aegis]) Sandbox.ReadFile = true /\
  allowed t (d ++ [n ++ aegis]) Sandbox.WriteFile = true.
Proof. intros Ht. split_and!; apply Ht, (bool_decide_unpack _); reflexivity. Qed.

Lemma apply_opens docs : exists t, apply_gui_vault_sandbox (host docs) (components p) [] = (Ok tt, t) /\ opens_up t.
Proof.
  unfold apply_gui_vault_sandbox, mmap_err.
  pose proof (apply_spec (host docs) gui_read_only (gui_read_write (host docs) (components p)) []) as Hs.
  destruct (apply_process_sandbox _ _ _ _) as [r t]. destruct Hs as (_ & _ & Hf & Hok).
  specialize (Hf (supports d Hserves docs)). subst r. destruct (Hok eq_refl) as [_ Hall]. exists t. split; [done|].
  assert (Hasked : forall q r, path_starts_with q d = true -> r ∈ from_all -> allowed t q r = true).
  { intros q r Hq Hr. apply Hall. split; [done|]. right. exists (atom_data_dir (host docs)), Directory, d.
    assert (Hdir : atom_data_dir (host docs) = components (vault_dir home)).
    { unfold atom_data_dir. rewrite (knows_home d Hserves). cbn. by rewrite dir_components. }
    rewrite Hdir. split_and!; [|apply (dir_there d Hserves)|apply (dir_opens d Hserves)|exact Hq|exact Hr].
    rewrite <- Hdir. unfold gui_read_write. rewrite !elem_of_cons. tauto. }
  intros r Hr. split; apply Hasked; try done; [apply starts_with_refl|apply starts_with_snoc].
Qed.

Lemma resolves_dir docs : parent (components p) ≫= resolve (host docs) = Some d.
Proof.
  unfold parent. rewrite vault_components, last_snoc by done.
  rewrite bool_decide_eq_false_2, removelast_last.
  - pose proof (dir_opens d Hserves docs) as Hd. unfold path_fd in Hd. cbn.
    destruct (resolve (host docs) (components (vault_dir home))) as [c|]; [|done]. cbn in Hd. by destruct (opens (host docs) c); simplify_eq.
  - destruct (valid_name n Hn) as [Hne _]. destruct n as [|x r]; [done|]. intros Hx. injection Hx as _ Hx. by destruct r.
Qed.

Lemma makes t h : opens_up t -> documents h !! p = None -> refused h p = None -> can_make host t h p = true.
Proof.
  intros Ht Hd Hr. unfold can_make. rewrite Hd, resolves_dir, vault_components, last_snoc, Hr by done.
  by destruct (opens_rights t Ht) as (-> & -> & ->).
Qed.

Lemma opens_file t h c : opens_up t -> documents h !! p = Some c -> refused h p = None -> open_file host t h p = Some c.
Proof.
  intros Ht Hd Hr. unfold open_file, can_open. rewrite Hd. cbn. rewrite (file_there d Hserves) by (by rewrite Hd). rewrite Hr.
  by destruct (opens_rights t Ht) as (_ & -> & ->).
Qed.

Lemma p_text : from_utf8_lossy p = p.
Proof.
  apply from_utf8_lossy_ascii. unfold vault_at, vault_dir. destruct Hascii as [Hh Hna].
  assert (Hj : forall a b, ascii a -> ascii b -> ascii (join a b)).
  { intros a b Ha Hb. unfold join. destruct (starts_with _ _ || _); [done|]. destruct (bool_decide _); apply ascii_app; (split; [done|]); [done|].
    apply ascii_app. split; [|done]. by repeat constructor. }
  apply Hj; [apply Hj; [done|by repeat constructor]|]. apply ascii_app. split; [done|]. by repeat constructor.
Qed.

(** *** The registry *)

Variables (l0 : list VaultEntry) (T : Z).
Definition entry : VaultEntry := {| name := vault_name p; path := p; last_opened := T |}.
Definition entries_ok (l : list VaultEntry) : Prop := NoDup (map path l) /\ Forall (fun e => e = entry \/ e ∈ l0) l.
Hypothesis Hfits : forall l, entries_ok l -> fits l.

(** The home directory with that registry in it. *)
Definition book (h : Friends.Home) (l : list VaultEntry) : Prop :=
  working VAULTS h /\ Friends.holds VAULTS h l /\ entries_ok l /\ refused h p = None /\ clock h = T.

Lemma registered_ok h l : clock h = T -> entries_ok l -> entries_ok (registered p h l) /\ p ∈ map path (registered p h l).
Proof.
  intros Hc [Hnd Hall]. destruct (registered_facts p h l Hnd) as (Hn' & _ & Hk & He). rewrite Hc in Hk.
  assert (Hp : p ∈ map path (registered p h l)).
  { apply find_key_Some in Hk as [_ Hin]. by apply (list_elem_of_fmap_2 path) in Hin. }
  split; [|exact Hp]. split; [exact Hn'|]. apply list.Forall_forall. intros e Hin.
  destruct (decide (path e = p)) as [Hep|Hep].
  - left. pose proof (find_key_elem path _ e Hn' Hin) as Hfe. rewrite Hep, Hk in Hfe. by injection Hfe as <-.
  - rewrite list.Forall_forall in Hall. by apply Hall, (He e Hep).
Qed.

Lemma present_listed h l : is_Some (documents h !! p) -> p ∈ map path l -> p ∈ map path (present h l).
Proof.
  intros Hd (e & He & Hin)%list_elem_of_fmap. rewrite He in *. apply (list_elem_of_fmap_2 path).
  unfold present. apply list_elem_of_filter. by split.
Qed.

Lemma book_registers h l : book h l -> is_Some (documents h !! p) ->
  exists h' l', register_vault p h = (Ok tt, h') /\ book h' l' /\ documents h' = documents h /\
    load_vault_registry h' = (Ok (present h' l'), h') /\ p ∈ map path l' /\ p ∈ map path (present h' l').
Proof.
  intros (Hwk & Hl & Hok & Hr & Hc) Hd. destruct (registered_ok h l Hc Hok) as [Hok' Hp].
  destruct (register_runs h l p Hwk Hl (Hfits _ Hok')) as (h' & Hrun & Hh' & Hw' & (_ & Hdoc & Href & Hclk & _)).
  exists h', (registered p h l). rewrite (load_registry h' _ Hh').
  split; [exact Hrun|]. split; [by split_and!; [..|rewrite Href|rewrite Hclk]|]. split; [exact Hdoc|]. split; [done|].
  split; [exact Hp|]. apply present_listed; [by rewrite Hdoc|exact Hp].
Qed.

Lemma book_documents h l c : book h l -> book (set_documents (<[p := c]> (documents h)) h) l.
Proof. by intros (? & ? & ? & ? & ?). Qed.

(** *** Frames *)

Lemma polls_only i a a' : browsed i = None ->
  exploring (fun u => poll (open_vault none w u) (within_explorer i)) a = (Ok tt, a') ->
  update i a = shows host none w (Some home) total_threads elapsed i a'.
Proof.
  intros Hb Hp. unfold Screens.update. rewrite (mbind_Ok _ _ _ tt a'); [done|]. unfold polls, poll_vault_dialog. rewrite Hb. exact Hp.
Qed.

Lemma idle_frame s x h t i :
  browsed i = None -> within_explorer i = idle ->
  update i (MkApp s x None h t) = match screen x with
    | Explorer.Home => draw_vault_panel i
    | Login => show_login host none i
    | CreateVault => show_create_vault host none (Some home) total_threads elapsed i
    | VaultExplorer =>
        let! _ := exploring (fun u => show (open_vault none w u) (within_explorer i)) in
        if home_click (within_explorer i) then leave_vault else mret tt
    | P2PDialog => if back_to_vault_click i then on_explorer (set_screen VaultExplorer) else mret tt
    end (MkApp s x None h t).
Proof.
  intros Hb Hi. rewrite (polls_only i _ (MkApp s x None h t) Hb); [done|]. rewrite Hi. unfold exploring. by rewrite poll_idle.
Qed.

Lemma new_clicked s x h t : screen x = Explorer.Home ->
  update (doing g idle true None None None) (MkApp s x None h t)
  = (Ok tt, MkApp (set_home_status silent s) (set_screen CreateVault x) None h t).
Proof. intros Hx. rewrite idle_frame by done. by rewrite Hx. Qed.

Lemma vault_opened s x h t : screen x = Explorer.Home -> p ∈ map path (vault_registry s) -> is_Some (documents h !! p) ->
  update (doing g idle false (Some p) None None) (MkApp s x None h t)
  = (Ok tt, MkApp (set_home_status silent (choose p s)) (set_screen Login x) None h t).
Proof.
  intros Hx Hp Hd. rewrite idle_frame by done. rewrite Hx. unfold draw_vault_panel.
  rewrite (mbind_Ok _ _ _ tt (MkApp s x None h t)) by done.
  rewrite (mbind_Ok _ _ _ (map path (vault_registry s)) (MkApp s x None h t)) by done.
  rewrite (mbind_Ok _ _ _ (documents h) (MkApp s x None h t)) by done.
  cbn [open_click doing]. by rewrite !bool_decide_eq_true_2.
Qed.

Lemma apply_runs s x o h : sandbox_applied s = false ->
  exists t, apply_once host p (MkApp s x o h []) = (Ok tt, MkApp (set_applied true s) x o h t) /\ opens_up t.
Proof.
  intros Hs. destruct (apply_opens (documents h)) as (t & Ht & Ho). exists t. split; [|exact Ho].
  unfold apply_once. rewrite (mbind_Ok _ _ _ false (MkApp s x o h [])) by (unfold of_screens, gets; cbn; by rewrite Hs).
  cbv iota. rewrite (mbind_Ok _ _ _ (documents h) (MkApp s x o h [])) by done.
  rewrite (mbind_Ok _ _ _ tt (MkApp s x o h t)); [done|]. unfold sandboxed. cbn [confined]. by rewrite Ht.
Qed.

Lemma apply_skips q s x o h t : sandbox_applied s = true -> apply_once host q (MkApp s x o h t) = (Ok tt, MkApp s x o h t).
Proof. intros Hs. unfold apply_once, mbind, of_screens, gets. cbn. by rewrite Hs. Qed.

Lemma in_home_runs {B} (m : M error Friends.Home B) s x o h t b h' :
  m h = (Ok b, h') -> in_home m (MkApp s x o h t) = (Ok b, MkApp s x o h' t).
Proof. intros Hm. unfold in_home. cbn. by rewrite Hm. Qed.

(** *** Creating *)

(** The settings the form asks for. *)
Definition chosen (f : Form) : KdfSettings :=
  let settings := choose_settings (if create_kdf_argon f then lit "argon2id" else lit "scrypt") (parse_u32 (create_memory f))
                    (parse_u32 (create_threads f)) total_threads in
  {| choice := choice settings; memory_kib := memory_kib settings;
     iterations := match parse_u32 (create_rounds f) with
                   | Some r => r
                   | None => calibrate_kdf (default 1000 (parse_u32 (create_dec_time f))) (choice settings) elapsed
                   end;
     parallelism := parallelism settings |}.

Variable f : Form.
Hypothesis Hname : create_name f = n.
Hypothesis Hpass : create_password f = pw /\ create_confirm f = pw.
Hypothesis Hsettings : settings_ok pw (chosen f).
Hypothesis Htrim : zlen (trim pw) <> 0.

Lemma vault_created :
  exists s u salt, handle_create none false (if create_kdf_argon f then lit "argon2id" else lit "scrypt") (parse_u32 (create_memory f))
      (parse_u32 (create_rounds f)) (parse_u32 (create_threads f)) (default 1000 (parse_u32 (create_dec_time f))) total_threads elapsed
      (create_password f) (unread (File [] (-1)) g) = (Ok tt, s) /\
    (cursor (phys s) <? 0) = false /\ file_ok pw u [] (empty_meta salt) VAULT_HEADER_SIZE (content (phys s)).
Proof.
  unfold handle_create. rewrite (proj1 Hpass). replace (zlen (trim pw) =? 0) with false by (symmetry; by apply Z.eqb_neq).
  change (create_vault none false pw _) with (create_vault none false pw (chosen f)).
  destruct (create_runs none ltac:(done) pw (chosen f) (unread (File [] (-1)) g) (fun _ s' => exists u salt,
    file_ok pw u [] (empty_meta salt) VAULT_HEADER_SIZE (content (phys s')))) as ([] & s & Hrun & u & salt & Hok); [done|done| |].
  { intros s' u salt Hok _ _ _ _. by exists u, salt. }
  exists s, u, salt. split; [exact Hrun|]. split; [|exact Hok]. apply Z.ltb_ge.
  pose proof (create_made none pw (chosen f) (unread (File [] (-1)) g) I) as Hm. by rewrite Hrun in Hm.
Qed.

(** What is on the shelf: the vault's file, closed, with those files; and the window at
    the list of vaults, with the vault in it. *)
Definition shelf (docs : gmap str bytes) (x : Ui) (y : Ideal) (a : Screens.App) : Prop :=
  exists s h t l c u m o, a = MkApp s x None h t /\ screen x = Explorer.Home /\ sandbox_applied s = true /\ opens_up t /\
    book h l /\ p ∈ map path l /\ p ∈ map path (vault_registry s) /\ documents h = <[p := c]> docs /\
    file_ok pw u (Explorer.files y) m o c /\ meta_size m <= size y /\ o <= off y /\ off y < 2 ^ 63.

Definition fresh_ideal : Ideal :=
  {| Explorer.files := []; size := meta_size (empty_meta []); off := VAULT_HEADER_SIZE; texts := true |}.

Lemma creates s x h l :
  sandbox_applied s = false -> book h l -> documents h !! p = None -> form s = f ->
  exists a', do_create_vault_at_path host none total_threads elapsed g p (MkApp s x None h []) = (Ok tt, a') /\
    shelf (documents h) (set_screen Explorer.Home x) fresh_ideal a'.
Proof.
  intros Hs Hb Hd Hf. destruct (apply_runs s x None h Hs) as (t & Happ & Ht). destruct vault_created as (v & u & salt & Hrun & Hc & Hok).
  unfold do_create_vault_at_path. rewrite (mbind_Ok _ _ _ f (MkApp s x None h [])) by (by rewrite <- Hf).
  cbv zeta. rewrite vault_folder, vault_stem by done. cbn [fmap option_fmap option_map default].
  rewrite (mbind_Ok _ _ _ _ _ Happ).
  set (s1 := set_create_status (Said (lit "Deriving keys, please wait...")) (set_form (set_secrets [] [] f) (set_applied true s))).
  rewrite (mbind_Ok _ _ _ tt (MkApp s1 x None h t)) by done.
  rewrite (from_utf8_lossy_ascii n) by apply Hascii. change (join (vault_dir home) (n ++ lit ".aegis")) with p.
  pose proof Hb as (_ & _ & _ & Href & _).
  rewrite (mbind_Ok _ _ _ true (MkApp s1 x None h t)) by (unfold gets; cbn; by rewrite makes).
  cbn [negb]. rewrite Hrun. set (c := content (phys v)) in *. set (h1 := set_documents (<[p := c]> (documents h)) h).
  rewrite (mbind_Ok _ _ _ tt (MkApp s1 x None h1 t)) by (unfold keep_new; by rewrite Hc).
  destruct (book_registers h1 l (book_documents h l c Hb)) as (h2 & l2 & Hreg & Hb2 & Hd2 & Hload & Hp & Hpr).
  { exists c. apply lookup_insert_eq. }
  rewrite p_text, (mbind_Ok _ _ _ tt (MkApp s1 x None h2 t)) by (by apply in_home_runs).
  rewrite (mbind_Ok _ _ _ (present h2 l2) (MkApp s1 x None h2 t)) by (by apply in_home_runs).
  eexists. split; [done|]. eexists _, h2, t, l2, c, u, (empty_meta salt), VAULT_HEADER_SIZE.
  split; [done|]. split; [by destruct x|]. split; [by destruct s|]. split; [exact Ht|]. split; [exact Hb2|]. split; [exact Hp|].
  split; [by destruct s|]. split; [exact Hd2|]. split; [exact Hok|]. by split_and!.
Qed.

Lemma creating_runs s x h l :
  screen x = Explorer.Home -> sandbox_applied s = false -> book h l -> documents h !! p = None ->
  exists a', frames (creating g f) (MkApp s x None h []) = (Ok tt, a') /\
    shelf (documents h) (set_screen Explorer.Home x) fresh_ideal a'.
Proof.
  intros Hx Hs Hb Hd. unfold creating. cbn [Screens.frames]. rewrite (mbind_Ok _ _ _ _ _ (new_clicked s x h [] Hx)).
  destruct (creates (set_form f (set_home_status silent s)) (set_screen CreateVault x) h l) as (a' & Hrun & Hsh); try done; [by destruct s..|].
  exists a'. split; [|by destruct x]. rewrite (mbind_Ok _ _ _ tt a'); [done|]. rewrite idle_frame by done.
  assert (Hsc : screen (set_screen CreateVault x) = CreateVault) by (by destruct x). rewrite Hsc. unfold show_create_vault.
  rewrite (mbind_Ok _ _ _ tt (MkApp (set_home_status silent s) (set_screen CreateVault x) None h [])) by done.
  rewrite (mbind_Ok _ _ _ tt (MkApp (set_form f (set_home_status silent s)) (set_screen CreateVault x) None h [])) by done.
  rewrite (mbind_Ok _ _ _ tt (MkApp (set_form f (set_home_status silent s)) (set_screen CreateVault x) None h [])) by done.
  change (create_click _) with true. cbv iota. unfold create_clicked.
  rewrite (mbind_Ok _ _ _ f (MkApp (set_form f (set_home_status silent s)) (set_screen CreateVault x) None h [])) by (by destruct s).
  destruct Hpass as [Hp1 Hp2]. rewrite Hname, Hn, Hp1, Hp2. cbn [negb]. rewrite bool_decide_eq_false_2, bool_decide_eq_true_2 by done.
  exact Hrun.
Qed.

(** *** Unlocking *)

Lemma opened_backs L m o c u y v :
  file_ok pw u L m o c -> L = Explorer.files y -> meta_size m <= size y -> o <= off y -> off y < 2 ^ 63 ->
  content (phys v) = c -> frame Vault (unread (File c 0) g) v -> backs pw u ∅ (set_payload o (set_meta m v)) y.
Proof.
  intros Hok -> Hsz Ho Hoff Hc (Fh & Fa & _ & _ & Fg). split_and!; try done.
  - unfold vault_ok. cbn. rewrite Hc. split; [exact Hok|]. split; [by apply (Fh Temp)|]. split; [exact Fa|]. by apply Fg.
  - cbn. apply map_eq. intros k. rewrite lookup_fmap, lookup_empty. pose proof (Fh (Other k) ltac:(done)) as Hk. cbn in Hk. by rewrite Hk.
Qed.

Lemma try_unlock_runs s x h t l c u m o y :
  selected_vault_path s = Some p -> password s = pw -> sandbox_applied s = true -> opens_up t ->
  book h l -> documents h !! p = Some c -> file_ok pw u (Explorer.files y) m o c -> meta_size m <= size y -> o <= off y -> off y < 2 ^ 63 ->
  exists s' h' v, try_unlock host none g (MkApp s x None h t)
      = (Ok tt, MkApp s' (set_screen VaultExplorer x) (Some {| vault_file := p; keys := u; contents := v |}) h' t) /\
    sandbox_applied s' = true /\ (exists l, book h' l /\ p ∈ map path l) /\ documents h' = documents h /\
    content (phys v) = c /\ backs pw u ∅ v y.
Proof.
  intros Hsel Htyped Hs Ht Hb Hdoc Hok Hsz Ho Hoff.
  destruct (book_registers h l Hb ltac:(by rewrite Hdoc)) as (h' & l' & Hreg & Hb' & Hd' & Hload & Hp' & _).
  destruct (open_runs none ltac:(done) pw u (Explorer.files y) m o (unread (File c 0) g) (fun r v => r = (m, u, o) /\
    content (phys v) = c /\ frame Vault (unread (File c 0) g) v)) as (r & v & Hrun & -> & Hc & Fr); [done|done|].
  unfold try_unlock. rewrite (mbind_Ok _ _ _ (Some p) (MkApp s x None h t)) by (unfold of_screens, gets; by rewrite <- Hsel).
  rewrite (mbind_Ok _ _ _ pw (MkApp s x None h t)) by (unfold of_screens, gets; by rewrite <- Htyped).
  rewrite (bool_decide_eq_false_2 (pw = [])), p_text by done.
  rewrite (mbind_Ok _ _ _ tt (MkApp s x None h' t)) by (by apply in_home_runs).
  rewrite (mbind_Ok _ _ _ (present h' l') (MkApp s x None h' t)) by (by apply in_home_runs).
  set (s1 := set_registry (present h' l') s). rewrite (mbind_Ok _ _ _ tt (MkApp s1 x None h' t)) by done.
  rewrite (mbind_Ok _ _ _ tt (MkApp s1 x None h' t)) by (apply apply_skips; by destruct s).
  set (s2 := set_login_status (Said (lit "Decrypting...")) (set_password [] s1)).
  rewrite (mbind_Ok _ _ _ tt (MkApp s2 x None h' t)) by done. pose proof Hb' as (_ & _ & _ & Href & _).
  rewrite (mbind_Ok _ _ _ (Some c) (MkApp s2 x None h' t)) by (unfold gets; cbn; by rewrite (opens_file t h' c) by (by rewrite ?Hd')).
  cbv beta iota. rewrite Hrun. eexists _, h', _. split; [reflexivity|].
  split; [by destruct s|]. split; [by exists l'|]. split; [exact Hd'|]. split; [exact Hc|]. by eapply opened_backs.
Qed.

Lemma unlocks docs x y a : shelf docs x y a ->
  exists s h t u v, frames [doing g idle false (Some p) None None; doing g idle false None (Some pw) None] a
      = (Ok tt, MkApp s (set_screen VaultExplorer x) (Some {| vault_file := p; keys := u; contents := v |}) h t) /\
    sandbox_applied s = true /\ opens_up t /\ (exists l, book h l /\ p ∈ map path l) /\
    documents h = <[p := content (phys v)]> docs /\ backs pw u ∅ v y.
Proof.
  intros (s & h & t & l & c & u & m & o & -> & Hx & Hs & Ht & Hb & Hp & Hlist & Hd & Hok & Hsz & Ho & Hoff).
  assert (Hdoc : documents h !! p = Some c) by (rewrite Hd; apply lookup_insert_eq).
  cbn [Screens.frames]. rewrite (mbind_Ok _ _ _ _ _ (vault_opened s x h t Hx Hlist ltac:(by rewrite Hdoc))).
  set (s1 := set_password pw (set_home_status silent (choose p s))).
  destruct (try_unlock_runs s1 (set_screen Login x) h t l c u m o y) as (s' & h' & v & Hrun & Hs' & Hl' & Hd' & Hc & Hback);
    try done; [by destruct s..|].
  exists s', h', t, u, v. split; [|by rewrite Hd', Hd, Hc].
  assert (Hxx : set_screen VaultExplorer (set_screen Login x) = set_screen VaultExplorer x) by (by destruct x). rewrite Hxx in Hrun.
  rewrite (mbind_Ok _ _ _ tt (MkApp s' (set_screen VaultExplorer x) (Some {| vault_file := p; keys := u; contents := v |}) h' t)); [done|].
  rewrite idle_frame by done. assert (Hsc : screen (set_screen Login x) = Login) by (by destruct x).
  rewrite Hsc. unfold show_login. rewrite (mbind_Ok _ _ _ tt (MkApp s1 (set_screen Login x) None h t)) by done.
  rewrite (mbind_Ok _ _ _ tt (MkApp s1 (set_screen Login x) None h t)) by done.
  change (unlock_click _) with true. cbv iota. by rewrite (mbind_Ok _ _ _ _ _ Hrun).
Qed.

(** *** Working and leaving *)

Lemma frames_app l1 l2 a a1 : frames l1 a = (Ok tt, a1) -> frames (l1 ++ l2) a = frames l2 a1.
Proof.
  revert a. induction l1 as [|i l1 IH]; intros a Ha; cbn [app Screens.frames] in *; [by injection Ha as <-|].
  apply mbind_inv in Ha as ([] & a2 & H5 & H6). rewrite (mbind_Ok _ _ _ _ _ H5). by apply IH.
Qed.

(** The explorer's part of a frame that the abstract one matches. *)
Lemma exploring_runs u s x v h t (m : UnlockedVault -> M vault_error (Explorer.App vault) unit) ma (A : Explorer.App Ideal) :
  sim pw u ∅ (m u) ma -> matched pw u ∅ {| ui := x; session := Some v |} A -> within_app (snd (ma A)) ->
  exists x' v', exploring m (MkApp s x (Some {| vault_file := p; keys := u; contents := v |}) h t)
      = (Ok tt, MkApp s x' (Some {| vault_file := p; keys := u; contents := v' |})
                  (set_documents (<[p := content (phys v')]> (documents h)) h) t) /\
    m u {| ui := x; session := Some v |} = (Ok tt, {| ui := x'; session := Some v' |}) /\
    matched pw u ∅ {| ui := x'; session := Some v' |} (snd (ma A)).
Proof.
  intros [_ Hsim] Hm Hin. destruct (Hsim _ _ Hm Hin) as ([] & [x' sv] & _ & Hrun & Hm').
  pose proof Hm' as [_ Hses]. cbn in Hses. destruct sv as [v'|]; [|done]. exists x', v'. split; [|done].
  unfold exploring. cbn. by rewrite Hrun.
Qed.

Abbreviation real u := (open_vault none w u).

Lemma documents_again v v' h :
  set_documents (<[p := content (phys v')]> (documents (set_documents (<[p := content (phys v)]> (documents h)) h)))
    (set_documents (<[p := content (phys v)]> (documents h)) h)
  = set_documents (<[p := content (phys v')]> (documents h)) h.
Proof. unfold set_documents. cbn. by rewrite insert_insert_eq. Qed.

Lemma work_frame u s x v h t i A :
  at_work i -> screen x = VaultExplorer -> matched pw u ∅ {| ui := x; session := Some v |} A ->
  within_app (snd (Explorer.update ideal_vault i A)) ->
  exists x' v', update (doing g i false None None None) (MkApp s x (Some {| vault_file := p; keys := u; contents := v |}) h t)
      = (Ok tt, MkApp s x' (Some {| vault_file := p; keys := u; contents := v' |})
                  (set_documents (<[p := content (phys v')]> (documents h)) h) t) /\
    screen x' = VaultExplorer /\ matched pw u ∅ {| ui := x'; session := Some v' |} (snd (Explorer.update ideal_vault i A)).
Proof.
  intros [Hh Hp] Hx Hm Hin.
  pose proof (poll_sim pw u w now ∅ Hw Hnow i) as Hpoll. pose proof (show_sim pw u w ∅ i Hh) as Hshow.
  assert (Hrest : within_app (snd (poll ideal_vault i A)) /\ snd (Explorer.update ideal_vault i A) = snd (show ideal_vault i (snd (poll ideal_vault i A)))).
  { unfold Explorer.update in *. pose proof (proj1 Hpoll A) as Hback.
    assert (Hok : forall A', within_app (snd (show ideal_vault i A')) -> within_app A') by apply Hshow.
    unfold mbind in Hin |- *. destruct (poll ideal_vault i A) as [[b|e|] A1] eqn:Hrun; cbn [snd] in *; [by split; [apply Hok|]|..].
    all: destruct (proj2 Hpoll _ A Hm) as (b & c & Hb & _); [by rewrite Hrun|]; by rewrite Hrun in Hb. }
  destruct Hrest as [Hin1 Heq]. rewrite Heq in Hin |- *.
  destruct (exploring_runs u s x v h t (fun u => poll (real u) i) _ A Hpoll Hm Hin1) as (x1 & v1 & Hex1 & Hrun1 & Hm1).
  set (h1 := set_documents (<[p := content (phys v1)]> (documents h)) h) in *.
  destruct (exploring_runs u s x1 v1 h1 t (fun u => show (real u) i) _ _ Hshow Hm1 Hin) as (x2 & v2 & Hex2 & Hrun2 & Hm2).
  assert (Hx1 : screen x1 = VaultExplorer).
  { pose proof (poll_screen (real u) i {| ui := x; session := Some v |}) as Hs. rewrite Hrun1 in Hs. unfold same_screen in Hs. cbn in Hs. congruence. }
  assert (Hx2 : screen x2 = VaultExplorer).
  { pose proof (show_screen (real u) i Hh Hp {| ui := x1; session := Some v1 |}) as Hs. rewrite Hrun2 in Hs. unfold same_screen in Hs. cbn in Hs. congruence. }
  exists x2, v2. split; [|by split]. unfold h1 in Hex2. rewrite documents_again in Hex2.
  etrans; [exact (polls_only (doing g i false None None None) _ _ eq_refl Hex1)|]. unfold shows. change (within_explorer _) with i.
  rewrite (mbind_Ok _ _ _ VaultExplorer (MkApp s x1 (Some {| vault_file := p; keys := u; contents := v1 |}) h1 t)) by (unfold gets; cbn; by rewrite Hx1).
  cbv iota. rewrite (mbind_Ok _ _ _ _ _ Hex2). by rewrite Hh.
Qed.

Lemma work_frames u s l : forall x v h t A,
  Forall at_work l -> screen x = VaultExplorer -> matched pw u ∅ {| ui := x; session := Some v |} A ->
  within_app (snd (Explorer.frames ideal_vault l A)) -> documents h !! p = Some (content (phys v)) ->
  exists x' v', frames (map (fun i => doing g i false None None None) l) (MkApp s x (Some {| vault_file := p; keys := u; contents := v |}) h t)
      = (Ok tt, MkApp s x' (Some {| vault_file := p; keys := u; contents := v' |})
                  (set_documents (<[p := content (phys v')]> (documents h)) h) t) /\
    screen x' = VaultExplorer /\ matched pw u ∅ {| ui := x'; session := Some v' |} (snd (Explorer.frames ideal_vault l A)).
Proof.
  induction l as [|i l IH]; intros x v h t A Hl Hx Hm Hin Hd.
  { exists x, v. split; [|by split]. cbn. f_equal. f_equal. destruct h. unfold set_documents. cbn in *. by rewrite insert_id. }
  apply list.Forall_cons in Hl as [Hi Hl]. cbn [Explorer.frames] in *.
  assert (Hsteps : within_app (snd (Explorer.update ideal_vault i A)) /\
    snd ((let! _ := Explorer.update ideal_vault i in Explorer.frames ideal_vault l) A)
    = snd (Explorer.frames ideal_vault l (snd (Explorer.update ideal_vault i A)))).
  { pose proof (frame_sim pw u w now ∅ Hw Hnow i (proj1 Hi)) as Hone.
    pose proof (frames_sim pw u w now ∅ Hw Hnow l (stays_home_free l Hl)) as Hrest.
    unfold mbind in Hin |- *. destruct (Explorer.update ideal_vault i A) as [[b|e|] A1] eqn:Hrun; cbn [snd] in *; [by split; [apply Hrest|]|..].
    all: destruct (proj2 Hone _ A Hm) as (b & c & Hb & _); [by rewrite Hrun|]; by rewrite Hrun in Hb. }
  destruct Hsteps as [Hin1 Heq]. rewrite Heq in *.
  destruct (work_frame u s x v h t i A Hi Hx Hm Hin1) as (x1 & v1 & Hrun1 & Hx1 & Hm1).
  destruct (IH x1 v1 (set_documents (<[p := content (phys v1)]> (documents h)) h) t _ Hl Hx1 Hm1 Hin) as (x2 & v2 & Hrun2 & Hx2 & Hm2).
  { cbn. apply lookup_insert_eq. }
  exists x2, v2. split; [|by split]. rewrite documents_again in Hrun2. cbn [map Screens.frames]. by rewrite (mbind_Ok _ _ _ _ _ Hrun1).
Qed.

Lemma show_leaving {S} (v : FileVault S) e : screen (ui e) = VaultExplorer ->
  show v leaving e = (Ok tt, {| ui := set_screen Explorer.Home (ui e); session := None |}).
Proof.
  destruct e as [x y]. cbn. intros Hx. unfold show, of_ui. rewrite (mbind_Ok _ _ _ VaultExplorer {| ui := x; session := y |}) by (unfold gets; cbn; by rewrite Hx).
  unfold show_vault_explorer, show_rename_dialog, on_ui, of_ui, mbind, gets, mret. cbn. destruct x as [? ? ? ? ? ? ? ? [[? ?]|] ?]; reflexivity.
Qed.

Lemma leaving_runs u s x v h t l docs y :
  sandbox_applied s = true -> opens_up t -> book h l -> p ∈ map path l ->
  documents h = <[p := content (phys v)]> docs -> backs pw u ∅ v y -> off y < 2 ^ 63 -> screen x = VaultExplorer ->
  exists a', update (doing g leaving false None None None) (MkApp s x (Some {| vault_file := p; keys := u; contents := v |}) h t)
      = (Ok tt, a') /\ shelf docs (set_screen Explorer.Home x) y a'.
Proof.
  intros Hs Ht Hb Hp Hd Hback Hoff Hx. set (a := MkApp s x _ h t).
  assert (Hsame : set_documents (<[p := content (phys v)]> (documents h)) h = h).
  { destruct h. unfold set_documents. cbn in *. rewrite insert_id; [done|]. rewrite Hd. apply lookup_insert_eq. }
  rewrite (polls_only (doing g leaving false None None None) a a eq_refl); unfold shows; change (within_explorer _) with leaving.
  2: { unfold exploring. change (poll ?v leaving) with (poll v idle). rewrite poll_idle. cbn. by rewrite Hsame. }
  rewrite (mbind_Ok _ _ _ VaultExplorer a) by (unfold gets; cbn; by rewrite Hx). cbv iota.
  rewrite (mbind_Ok _ _ _ tt (MkApp s (set_screen Explorer.Home x) None h t)) by (unfold exploring; by rewrite show_leaving).
  change (home_click leaving) with true. cbv iota. unfold leave_vault. pose proof Hb as (_ & Hl & _).
  rewrite (mbind_Ok _ _ _ (present h l) (MkApp s (set_screen Explorer.Home x) None h t)) by (apply in_home_runs; by rewrite (load_registry h l Hl)).
  eexists. split; [reflexivity|]. destruct Hback as ((Hok & _) & _ & Hm & Hpay & _).
  eexists _, h, t, l, (content (phys v)), u, (meta v), (Vfs.payload v). split; [done|]. split; [by destruct x|].
  split; [by destruct s|]. split; [exact Ht|]. split; [exact Hb|]. split; [exact Hp|].
  split; [|by split_and!]. assert (Hin : p ∈ map path (present h l)); [|by destruct s].
  apply present_listed; [rewrite Hd, lookup_insert_eq|]; done.
Qed.

Lemma visit_runs docs x y a l :
  shelf docs x y a -> Forall at_work l -> within (snd (ideal_visit l (x, y))) ->
  exists a', frames (visit g p pw l) a = (Ok tt, a') /\ shelf docs (fst (ideal_visit l (x, y))) (snd (ideal_visit l (x, y))) a'.
Proof.
  intros Hsh Hl Hin. destruct (unlocks docs x y a Hsh) as (s & h & t & u & v & Hopen & Hs & Ht & (lr & Hb & Hp) & Hd & Hback).
  set (x1 := set_screen VaultExplorer x) in *. set (A := {| ui := x1; session := Some y |}).
  assert (Hm : matched pw u ∅ {| ui := x1; session := Some v |} A) by done.
  pose proof (frames_sim pw u w now ∅ Hw Hnow l (stays_home_free l Hl)) as [_ Hsim].
  unfold ideal_visit in *. cbn [fst snd] in *. fold x1 A in Hin |- *. set (A' := snd (Explorer.frames ideal_vault l A)) in *.
  assert (Hin' : within_app A').
  { unfold within_app. destruct (session A') as [z|]; [exact Hin|done]. }
  destruct (work_frames u s l x1 v h t A Hl ltac:(by destruct x) Hm Hin') as (x2 & v2 & Hwork & Hx2 & Hm2); [by rewrite Hd, lookup_insert_eq|].
  fold A' in Hm2. destruct Hm2 as [Hui Hses]. cbn in Hui, Hses. destruct (session A') as [y2|]; [|done]. cbn in Hin |- *. subst x2.
  destruct (leaving_runs u s (ui A') v2 (set_documents (<[p := content (phys v2)]> (documents h)) h) t lr docs y2)
    as (a' & Hleave & Hsh'); try done; [by rewrite Hd; cbn; rewrite insert_insert_eq|by destruct Hin as (_ & _ & ?)|].
  exists a'. split; [|exact Hsh']. etrans; [apply (frames_app _ _ _ _ Hopen)|]. etrans; [apply (frames_app _ _ _ _ Hwork)|].
  cbn [Screens.frames]. by rewrite (mbind_Ok _ _ _ _ _ Hleave).
Qed.

(** Room at the end of a visit is room at its start. *)
Lemma visit_back l xy : Forall at_work l -> within (snd (ideal_visit l xy)) -> within (snd xy).
Proof.
  intros Hl Hin. pose proof (frames_sim pw {| dek := [] |} w now ∅ Hw Hnow l (stays_home_free l Hl)) as [Hback _].
  unfold ideal_visit in Hin. cbn [snd] in Hin. specialize (Hback {| ui := set_screen VaultExplorer (fst xy); session := Some (snd xy) |}).
  apply Hback. unfold within_app. by destruct (session _).
Qed.

Lemma visits_back vs : forall xy, Forall (Forall at_work) vs -> within (snd (ideal_visits vs xy)) -> within (snd xy).
Proof.
  induction vs as [|l vs IH]; intros xy Hvs Hin; [done|]. apply list.Forall_cons in Hvs as [Hl Hvs].
  eapply visit_back, IH; done.
Qed.

Lemma visits_run docs vs : forall xy a,
  shelf docs (fst xy) (snd xy) a -> Forall (Forall at_work) vs -> within (snd (ideal_visits vs xy)) ->
  exists a', frames (concat (map (visit g p pw) vs)) a = (Ok tt, a') /\
    shelf docs (fst (ideal_visits vs xy)) (snd (ideal_visits vs xy)) a'.
Proof.
  induction vs as [|l vs IH]; intros [x y] a Hsh Hvs Hin; [by exists a|]. apply list.Forall_cons in Hvs as [Hl Hvs].
  change (ideal_visits (l :: vs) (x, y)) with (ideal_visits vs (ideal_visit l (x, y))) in *.
  destruct (visit_runs docs x y a l Hsh Hl) as (a1 & Hrun & Hsh1); [by eapply visits_back|].
  destruct (IH _ a1 Hsh1 Hvs Hin) as (a2 & Hrun2 & Hsh2). exists a2. split; [|exact Hsh2].
  change (concat (map (visit g p pw) (l :: vs))) with (visit g p pw l ++ concat (map (visit g p pw) vs)).
  etrans; [by apply frames_app|exact Hrun2].
Qed.

End keeping.

(** ** Examples *)

Import Toy ToyPw ToyVault ToyEd ToySerde.

Definition demo_docs_host (docs : gmap str bytes) : Host :=
  let dir := components (vault_dir (lit "/h")) in
  {| resolve q := if bool_decide (q = dir \/ q = dir ++ [lit "deeds.aegis"] /\ is_Some (docs !! vault_at (lit "/h") (lit "deeds")))
                  then Some q else None;
     kind_of q := Some (if bool_decide (q = dir) then Directory else Regular);
     opens _ := true; handles := true; audit := false; takes_audit := true; takes_rule _ _ := true;
     restricts := Some FullyEnforced; Sandbox.home := Some (components (lit "/h")); variable _ := None |}.

Lemma demo_resolves docs q :
  q = components (vault_dir (lit "/h")) -> resolve (demo_docs_host docs) q = Some q.
Proof. intros Hq. cbn. rewrite bool_decide_eq_true_2 by (by left). done. Qed.

Lemma demo_serves : serves demo_docs_host (lit "/h") (lit "deeds") (components (vault_dir (lit "/h"))).
Proof.
  split; intros docs; [by split_and!|done|..].
  - unfold metadata. rewrite demo_resolves by done. cbn. by rewrite bool_decide_eq_true_2.
  - unfold path_fd. by rewrite demo_resolves.
  - intros Hd. cbn [resolve demo_docs_host]. rewrite bool_decide_eq_true_2; [by vm_compute|]. right. split; [by vm_compute|exact Hd].
Qed.

Definition demo_form : Form :=
  {| create_name := lit "deeds"; create_password := lit "pw"; create_confirm := lit "pw"; create_kdf_argon := true;
     create_dec_time := lit "1000"; create_memory := []; create_rounds := lit "3"; create_threads := [] |}.

Lemma demo_chosen : settings_ok (lit "pw") (chosen 4 0 demo_form).
Proof. split; [by vm_compute|]. intros salt _. reflexivity. Qed.

Definition demo_old : VaultEntry := {| name := lit "old"; path := lit "/v/old.atom"; last_opened := 5 |}.

Lemma demo_fits l : entries_ok (lit "/h") (lit "deeds") demo_vaults 9 l -> fits l.
Proof.
  intros [Hnd Hall]. change (Forall (fun x => x = entry (lit "/h") (lit "deeds") 9 \/ x ∈ [demo_old]) l) in Hall.
  destruct l as [|x [|y [|z l]]]; rewrite ?list.Forall_cons, ?list_elem_of_singleton in Hall; destruct_and? Hall; [by vm_compute|..].
  - destruct_or!; subst; by vm_compute.
  - destruct_or!; subst; by vm_compute.
  - exfalso. cbn [map] in Hnd. apply list.NoDup_cons in Hnd as [Hx Hnd]. apply list.NoDup_cons in Hnd as [Hy _].
    assert (path x <> path y /\ path x <> path z /\ path y <> path z) as (? & ? & ?).
    { split_and!; intros He; [apply Hx|apply Hx|apply Hy]; rewrite He, ?elem_of_cons; tauto. }
    destruct_or!; subst; congruence.
Qed.

Definition demo_visits : list (list Explorer.input) :=
  [[choosing (Some (lit "/home/u/deed")) None; reading (lit "the deed")]; [clicking (Rename (lit "deed")); saving_as (lit "will")]].

Definition demo_window : list input :=
  let visits := map (visit (rng_const Byte.x05) (vault_at (lit "/h") (lit "deeds")) (lit "pw")) demo_visits in
  creating (rng_const Byte.x05) demo_form ++ concat visits.


Definition two_vaults : Friends.Home :=
  {| config_key := Some (zrep 32 Byte.x33); Friends.files := <[VAULTS := to_json [{| name := lit "b"; path := lit "/w/b.aegis"; last_opened := 5 |};
       {| name := lit "a"; path := lit "/v/a.aegis"; last_opened := 5 |}]]> ∅;
     documents := <[lit "/v/a.aegis" := lit "x"]> (<[lit "/w/b.aegis" := lit "y"]> ∅); refused _ := None; clock := 9; entropy := rng_const Byte.x2a |}.

Abbreviation demo_run fault l h := ((let! _ := new in Screens.frames (plain_host (map lit ["/h/.atom_vault"; "/v"; "/w"])) fault demo_machine
  (Some (lit "/h")) 4 0 l) (blank h)).
Abbreviation click := (doing (rng_const Byte.x05) idle).
Definition clicking_back : input :=
  {| browsed := None; within_explorer := idle; create_new_click := false; open_click := None; remove_click := None;
     password_edit := None; enter_key := false; unlock_click := false; back_click := true;
     cancel_click := false; form_edit := None; generated := None; create_click := false;
     back_to_vault_click := false; draws := rng_const Byte.x05 |}.

(** The sandbox is entered for the first vault a password is typed for: after a wrong
    one, a vault of another directory on the list cannot be opened any more. *)
Example second_vault_denied :
  let login a := login_status (screens (snd a)) in
  let first := [click false (Some (lit "/v/a.aegis")) None None; click false None (Some (lit "wrong")) None] in
  let second := [click false (Some (lit "/w/b.aegis")) None None; click false None (Some (lit "right")) None] in
  login (demo_run (fun _ => None) second two_vaults) = Said (lit "Error: Invalid password or corrupted vault.") /\
  login (demo_run (fun _ => None) (first ++ [clicking_back] ++ second) two_vaults) = Said (lit "Error: Could not open file: ").
Proof. vm_compute. split; reflexivity. Qed.

(** A creation that fails when the disk is full leaves its file, which is in the way of
    the next one. *)
Example failed_creation_blocks :
  let a := snd (demo_run (fun n => if bool_decide (n = 3%nat) then Some 0 else None)
                  [click true None None None; click false None None (Some demo_form)] demo_home) in
  let again := demo_run (fun _ => None) [click true None None None; click false None None (Some demo_form)] (own a) in
  is_Some (documents (own a) !! vault_at (lit "/h") (lit "deeds")) /\
  create_status (screens (snd again)) = Because (lit "Error: ") (VMsg "Failed to create vault file (it might already exist)").
Proof. vm_compute. split; [by eexists|reflexivity]. Qed.

Definition cancelling (f : Form) : input :=
  {| browsed := None; within_explorer := idle; create_new_click := false; open_click := None; remove_click := None;
     password_edit := None; enter_key := false; unlock_click := false; back_click := false;
     cancel_click := true; form_edit := Some f; generated := None; create_click := false;
     back_to_vault_click := false; draws := rng_const Byte.x05 |}.

(** Leaving the creation screen keeps the password in the window; leaving the login
    screen does not. *)
Example cancelled_password_kept :
  let a := snd (demo_run (fun _ => None) [click true None None None; cancelling demo_form] demo_home) in
  screen (explorer a) = Explorer.Home /\ create_password (form (screens a)) = lit "pw".
Proof. vm_compute. by split. Qed.
