(* ===== verification/SyncPanel.v ===== *)
(** * Friends in the window

    The screen of the older synchronisation ([atom/src/gui/p2p.rs], with the thread it
    starts), the friends of [atom/src/gui/home.rs], and what [atom/src/gui/mod.rs] and
    [explorer.rs] do about them: the whole window of [Screens] with these in it. *)

From Stdlib Require Import Strings.Byte.
From stdpp Require Import strings gmap.
From S2P Require Import Prelude Keyed Text Primitives StateM VaultCrypto Vfs Storage VaultOps ToyVault.
From S2P Require Import Vault Sandbox Explorer Window AtomLink Noise Friends Proposal Screens.

(** ** The friends of the home screen *)

(** [relative_time]. *)
Definition relative_time (now ts : Z) : str :=
  let diff := Z.max 0 (now - ts) in
  if diff <? 60 then lit "just now" else
  if diff <? 3600 then decimal (diff / 60) ++ lit "m ago" else
  if diff <? 86400 then decimal (diff / 3600) ++ lit "h ago" else
  decimal (diff / 86400) ++ lit "d ago".

Inductive presence := OnlineNow | LastSeen (ago : str) | NeverSynced.

Definition is_online (now : Z) (f : FriendRecord) : bool :=
  match last_seen f with Some t => Z.max 0 (now - t) <? 300 | None => false end.

Definition presence_of (now : Z) (f : FriendRecord) : presence :=
  if is_online now f then OnlineNow else
  match last_seen f with Some t => LastSeen (relative_time now t) | None => NeverSynced end.

(** [draw_friends_panel]: how many are online and offline, and for each its name, its
    presence and its vaults. *)
Definition draw_friends_panel (now : Z) (l : list FriendRecord) : option (Z * Z * list (str * presence * list str)) :=
  match l with
  | [] => None
  | _ =>
      let online := zlen (filter (fun f => is_online now f = true) l) in
      let shown v := if bool_decide (label v = []) then original_name v else label v in
      Some (online, zlen l - online, map (fun f => (nickname f, presence_of now f, map shown (shared_vaults f))) l)
  end.

(** ** The state *)

Inductive tab := TorTab | LiveTab.

(** The lines a synchronisation reports. *)
Inductive line :=
  | Initiating (vault_path friend : str) | Established | Waiting (friend : str) | AcceptedBy (friend : str)
  | PushedBytes (n : Z) | RejectedBy (friend : str) | InvalidFrom (friend : str) | ConnectionDropped | Finalizing.
Inductive note :=
  | Text (s : str) | Line (l : line) | SyncComplete (friend : str) | Booked (a : added) (nick : str) | Failed (e : Friends.error).

Record Panel := MkPanel {
  friends_full : list FriendRecord;
  friends_cache : list str;
  friend_nick : str;
  friend_url : str;
  add_friend_status : note;
  selected_friend_idx : nat;
  prev_sync_done : bool;
  transport_tab : tab;
}.
Definition set_full x p := let 'MkPanel _ c n u a i d t := p in MkPanel x c n u a i d t.
Definition set_cache x p := let 'MkPanel f _ n u a i d t := p in MkPanel f x n u a i d t.
Definition set_nick x p := let 'MkPanel f c _ u a i d t := p in MkPanel f c x u a i d t.
Definition set_url x p := let 'MkPanel f c n _ a i d t := p in MkPanel f c n x a i d t.
Definition set_added x p := let 'MkPanel f c n u _ i d t := p in MkPanel f c n u x i d t.
Definition set_idx x p := let 'MkPanel f c n u a _ d t := p in MkPanel f c n u a x d t.
Definition set_prev x p := let 'MkPanel f c n u a i _ t := p in MkPanel f c n u a i x t.
Definition set_tab x p := let 'MkPanel f c n u a i d _ := p in MkPanel f c n u a i d x.

(** A synchronisation on its thread: what it is about, where it sends its lines, what it
    has sent to the friend, and how far it is. *)
Inductive stage :=
  | Connecting
  | Exchanging (proposal : SyncMessage)
  | Synced
  | Seen (now : Z) (friends : list FriendRecord)
  | Ended (result : note)
  | Told.
Record Job := { vault_path : str; friend_name : str; lines_to : nat; sent_out : bytes; stage_of : stage }.
Definition at_stage (b : bytes) (x : stage) (j : Job) : Job :=
  {| vault_path := vault_path j; friend_name := friend_name j; lines_to := lines_to j; sent_out := b; stage_of := x |}.

(** What the window and the threads share: the status, the flag, the running
    synchronisations, and the lines under way, a queue for each that was started. *)
Record Shared := { sync_status : note; sync_done : bool; jobs : list Job; lines : list (list line) }.

Record World := { window : App; panel : Panel; shared : Shared }.

(** One frame's input. *)
Record input := {
  on_window : Screens.input;
  tab_click : option tab;
  nick_edit : option str;
  url_edit : option str;
  add_click : bool;
  friend_pick : option nat;
  sync_click : bool;
}.

(** [trim_start_matches]; a match takes at least one byte, so the length is fuel enough. *)
Fixpoint trim_start_matches (fuel : nat) (p s : str) : str :=
  match fuel, strip_prefix p s with
  | S fuel, Some rest => trim_start_matches fuel p rest
  | _, _ => s
  end.

Section world.
Context `{UnicodeCase} `{PasswordHash} `{Aead} `{Sha256} `{Bincode} `{FastCdc} `{Base32} `{Ed25519} `{Noise} `{MessageJson}.
Context `{!Serde FriendRecord} `{!Serde VaultEntry}.

(** As in [Screens]. *)
Variable host : gmap str bytes -> Host.
Variable fault : nat -> option Z.
Variable w : machine.
Variable home_dir : option str.
Variables total_threads elapsed : Z.

Abbreviation N := (M stop World).

Definition in_window {B} (m : M stop App B) : N B := fun s =>
  let (r, a) := m (window s) in (r, {| window := a; panel := panel s; shared := shared s |}).
Definition on_panel (f : Panel -> Panel) : N unit := fun s =>
  (Ok tt, {| window := window s; panel := f (panel s); shared := shared s |}).
Definition on_shared (f : Shared -> Shared) : N unit := fun s =>
  (Ok tt, {| window := window s; panel := panel s; shared := f (shared s) |}).
Definition of_panel {B} (f : Panel -> B) : N B := gets (fun s => f (panel s)).
Definition of_shared {B} (f : Shared -> B) : N B := gets (fun s => f (shared s)).

(** A command on the home directory with its error in hand, unless it is the end of the
    program. *)
Definition tried {B} (m : Friends.H B) : N (B + Friends.error) := fun s =>
  let (r, h) := m (own (window s)) in
  (match r with
   | Ok b => Ok (inl b) | Err Friends.Exit => Err Sandbox.Exit | Err e => Ok (inr e) | Panic => Panic
   end,
   {| window := MkApp (screens (window s)) (explorer (window s)) (opened (window s)) h (confined (window s));
      panel := panel s; shared := shared s |}).

Definition friends_now : N (list FriendRecord) := in_window (in_home load_friends).

(** ** The thread of a synchronisation *)

(** [start_sync], up to the thread it starts. *)
Definition first_job (vault friend : str) (s : Shared) : Job :=
  {| vault_path := vault; friend_name := friend; lines_to := length (lines s); sent_out := []; stage_of := Connecting |}.
Definition launched (vault friend : str) (s : Shared) : Shared :=
  {| sync_status := Text (lit "Initiating background sync..."); sync_done := false;
     jobs := jobs s ++ [first_job vault friend s]; lines := lines s ++ [[]] |}.
Definition start_sync (friend : str) : N unit :=
  let! vault := gets (fun s => current_vault_path (screens (window s))) in
  on_shared (launched vault friend).

(** The lines [sync_core] reports up to the tunnel, and after it. *)
Definition connect_lines (h : Home) (vault nick : str) (r : outcome Friends.error SyncMessage) : list line :=
  match fst (load_friends h) with
  | Ok friends =>
      if bool_decide (is_Some (find_key nickname nick friends))
      then Initiating vault nick :: (if is_ok r then [Established] else []) else []
  | _ => []
  end.

Definition exchange_lines (n : Net) (nick : str) (proposal : SyncMessage) (s : Sender) (r : outcome Friends.error sync_outcome) : list line :=
  if stream_opens n && is_ok (fst (write_out n (message_line proposal) s)) then
    Waiting nick ::
    match b ← replies n; from_utf8 (fst (read_line b)) with
    | None => []
    | Some reply_line =>
        match msg_from_json reply_line with
        | Some (Accepted _) => AcceptedBy nick :: match r with Ok (Pushed k) => [PushedBytes k; Finalizing] | _ => [] end
        | Some Rejected => [RejectedBy nick; Finalizing]
        | Some (Proposal _ _) => [InvalidFrom nick; Finalizing]
        | None => [ConnectionDropped; Finalizing]
        end
    end
  else [].

Definition put_home (h : Home) (a : App) : App := MkApp (screens a) (explorer a) (opened a) h (confined a).
Definition set_job (k : nat) (j : Job) (s : Shared) : Shared :=
  {| sync_status := sync_status s; sync_done := sync_done s; jobs := <[k := j]> (jobs s); lines := lines s |}.
Definition report (q : nat) (l : list line) (s : Shared) : Shared :=
  {| sync_status := sync_status s; sync_done := sync_done s; jobs := jobs s; lines := alter (fun x => x ++ l) q (lines s) |}.
Definition remove_job (k : nat) (s : Shared) : Shared :=
  {| sync_status := sync_status s; sync_done := sync_done s; jobs := delete k (jobs s); lines := lines s |}.

(** A step of the thread [k] ends: with the next stage, with its failure, with the
    program, or with the thread alone. *)
Definition after {B} (k : nat) (j : Job) (r : outcome Friends.error B) (next : B -> stage) (h : Home) (sent : bytes) (l : list line) : N unit := fun s =>
  let s' sh := {| window := put_home h (window s); panel := panel s; shared := sh |} in
  let sh := report (lines_to j) l (shared s) in
  match r with
  | Ok b => (Ok tt, s' (set_job k (at_stage sent (next b) j) sh))
  | Err Friends.Exit => (Err Sandbox.Exit, s' sh)
  | Err e => (Ok tt, s' (set_job k (at_stage sent (Ended (Failed e)) j) sh))
  | Panic => (Ok tt, s' (remove_job k sh))
  end.

(** The next step of the thread [k]: the two halves of [sync_core], the two of
    [update_friend_last_seen], the result, and the flag.  Each reads or writes what it
    shares with the window once. *)
Definition advance (k : nat) (n : Net) : N unit := fun s =>
  match jobs (shared s) !! k with
  | None => (Ok tt, s)
  | Some j =>
      let h := own (window s) in
      match stage_of j with
      | Connecting =>
          let (r, x) := sync_connect n (vault_path j) (friend_name j) {| home := h; sent := sent_out j |} in
          after k j r Exchanging (home x) (sent x) (connect_lines h (vault_path j) (friend_name j) r) s
      | Exchanging p =>
          let (r, x) := sync_exchange n (vault_path j) p {| home := h; sent := sent_out j |} in
          after k j r (fun _ => Synced) (home x) (sent x)
            (exchange_lines n (friend_name j) p {| home := h; sent := sent_out j |} r) s
      | Synced =>
          let (r, h') := load_friends h in
          after k j r (Seen (clock h)) h' (sent_out j) [] s
      | Seen now friends =>
          let (r, h') := match find_key nickname (friend_name j) friends with
                         | Some _ => save_friends (update_first (is_key nickname (friend_name j)) (with_last_seen (Some now)) friends) h
                         | None => (Ok tt, h)
                         end in
          after k j r (fun _ => Ended (SyncComplete (friend_name j))) h' (sent_out j) [] s
      | Ended result =>
          on_shared (fun sh => set_job k (at_stage (sent_out j) Told j)
            {| sync_status := result; sync_done := sync_done sh; jobs := jobs sh; lines := lines sh |}) s
      | Told =>
          on_shared (fun sh => remove_job k
            {| sync_status := sync_status sh; sync_done := true; jobs := jobs sh; lines := lines sh |}) s
      end
  end.

(** The thread that passes the lines of the queue [q] on to the status. *)
Definition forward (q : nat) : N unit := on_shared (fun s =>
  match lines s !! q with
  | Some (l :: rest) => {| sync_status := Line l; sync_done := sync_done s; jobs := jobs s; lines := <[q := rest]> (lines s) |}
  | _ => s
  end).

(** ** The screen *)

(** The button [Add to Address Book]. *)
Definition add_clicked : N unit :=
  let! nick := of_panel friend_nick in
  let! url := of_panel friend_url in
  if bool_decide (nick = []) || bool_decide (url = [])
  then on_panel (set_added (Text (lit "Error: Nickname and URL are required."))) else
  let! r := tried (add_friend_core url nick) in
  match r with
  | inl a =>
      let! _ := on_panel (fun p => set_url [] (set_nick [] (set_added (Booked a nick) p))) in
      let! all := friends_now in
      on_panel (fun p => set_full all (set_cache (map nickname all) p))
  | inr e => on_panel (set_added (Failed e))
  end.

(** The card [SYNC VAULT WITH FRIEND]; the list offers the names of the cache. *)
Definition sync_card (sync_running : bool) (i : input) : N unit :=
  let! cache := of_panel friends_cache in
  if bool_decide (cache = []) then mret tt else
  let! _ := match friend_pick i with
            | Some k => if bool_decide (k < length cache)%nat then on_panel (set_idx k) else mret tt
            | None => mret tt
            end in
  if sync_click i && negb sync_running then
    let! k := of_panel selected_friend_idx in
    match cache !! k with Some friend_name => start_sync friend_name | None => mret tt end
  else mret tt.

(** The link the screen shows. *)
Definition identity_shown : N str :=
  let! r := tried get_id_string in
  mret match r with
       | inl s => lit "atom://" ++ trim_start_matches (length s) (lit "atom://") s
       | inr _ => lit "Identity not generated yet. Run daemon."
       end.

(** [show_p2p_dialog], but for the button [Back to Vault]; the other tab is [LivePanel]. *)
Definition p2p_content (sync_running : bool) (i : input) : N unit :=
  let! _ := identity_shown in
  let! _ := match tab_click i with Some t => on_panel (set_tab t) | None => mret tt end in
  let! t := of_panel transport_tab in
  match t with
  | LiveTab => mret tt
  | TorTab =>
      let! _ := match nick_edit i with Some x => on_panel (set_nick x) | None => mret tt end in
      let! _ := match url_edit i with Some x => on_panel (set_url x) | None => mret tt end in
      let! _ := if add_click i then add_clicked else mret tt in
      sync_card sync_running i
  end.
Definition show_p2p_dialog (i : input) : N unit :=
  let! sync_running := of_shared (fun s => negb (sync_done s)) in
  p2p_content sync_running i.

(** ** The frame *)

(** The friends read again after a synchronisation, in [update]. *)
Definition refresh_friends : N unit :=
  let! sync_now_done := of_shared sync_done in
  let! prev := of_panel prev_sync_done in
  let! _ := if negb prev && sync_now_done
            then (let! l := friends_now in on_panel (set_full l)) else mret tt in
  on_panel (set_prev sync_now_done).

(** What leaving the vault and the button [P2P Network] do about the friends. *)
Definition explorer_clicks (i : Explorer.input) : N unit :=
  let! _ := if home_click i then (let! l := friends_now in on_panel (set_full l)) else mret tt in
  if p2p_click i then (let! l := friends_now in on_panel (set_cache (map nickname l))) else mret tt.

(** [update], the whole of it but for the dialog of [Consent]. *)
Definition update (i : input) : N unit :=
  let! _ := in_window (polls fault w (on_window i)) in
  let! _ := refresh_friends in
  let! sc := gets (fun s => screen (explorer (window s))) in
  let! _ := in_window (shows host fault w home_dir total_threads elapsed (on_window i)) in
  match sc with
  | VaultExplorer => explorer_clicks (within_explorer (on_window i))
  | P2PDialog => show_p2p_dialog i
  | _ => mret tt
  end.

(** [AtomVaultApp::new]. *)
Definition start (h : Home) : World :=
  {| window := blank h;
     panel := MkPanel [] [] [] [] (Text []) 0 true TorTab;
     shared := {| sync_status := Text []; sync_done := true; jobs := []; lines := [] |} |}.
Definition new : N unit :=
  let! _ := in_window Screens.new in
  let! l := friends_now in
  on_panel (set_full l).

(** What happens, in any order: a frame of the window, the next step of a
    synchronisation, a line that arrives. *)
Inductive event := Frame (i : input) | Thread (k : nat) (n : Net) | Arrives (q : nat).

Definition happens (e : event) : N unit :=
  match e with Frame i => update i | Thread k n => advance k n | Arrives q => forward q end.

Fixpoint events (l : list event) : N unit :=
  match l with [] => mret tt | e :: l => let! _ := happens e in events l end.

Definition run (h : Home) (l : list event) : outcome stop unit * World := (let! _ := new in events l) (start h).
End world.

(** ** Lemmas: the vault on the screen *)

Section shown.
Context `{PasswordHash} `{Aead} `{Sha256} `{Bincode} `{FastCdc} `{!Serde VaultEntry}.
Variables (host : gmap str bytes -> Host) (fault : nat -> option Z) (w : machine) (home_dir : option str) (total_threads elapsed : Z).

(** The vault the screen is about. *)
Definition current (a : App) : Prop :=
  exists o, opened a = Some o /\ current_vault_path (screens a) = from_utf8_lossy (vault_file o).
Definition named (a : App) : Prop :=
  screen (explorer a) = VaultExplorer \/ screen (explorer a) = P2PDialog -> current a.

Definition same_place (a a' : App) : Prop :=
  explorer a' = explorer a /\ opened a' = opened a /\ current_vault_path (screens a') = current_vault_path (screens a).
#[export] Instance same_place_preorder : PreOrder same_place.
Proof. split; [done|]. intros x y z (? & ? & ?) (? & ? & ?). split_and!; congruence. Qed.

Lemma named_same a a' : same_place a a' -> named a -> named a'.
Proof. intros (He & Ho & Hc). unfold named, current. by rewrite He, Ho, Hc. Qed.

Lemma place_screens f : (forall s, current_vault_path (f s) = current_vault_path s) -> keeps same_place (on_screens f).
Proof. intros Hf a. split_and!; [done..|apply Hf]. Qed.
Lemma place_home {B} (m : M Friends.error Friends.Home B) : keeps same_place (in_home m).
Proof. intros a. unfold in_home. by destruct (m (own a)). Qed.
Lemma place_apply p : keeps same_place (apply_once host p).
Proof.
  unfold apply_once. apply keeps_bind; [exact _|by intros a|]. intros []; [by intros a|].
  apply keeps_bind; [exact _|by intros a|]. intros docs. apply keeps_bind; [exact _| |].
  - intros a. unfold sandboxed. by destruct (apply_gui_vault_sandbox _ _ _).
  - intros []. apply place_screens. by intros [].
Qed.
Lemma place_new p s : keeps same_place (keep_new p s).
Proof. by intros a. Qed.
Lemma place_lift {B} (r : outcome stop B) : keeps same_place (lift r).
Proof. by intros a. Qed.

Abbreviation points m := (ends named m (fun _ => named) (fun _ => True)).

Lemma points_place {B} (m : M stop App B) : keeps same_place m -> points m.
Proof. intros Hm a Ha. pose proof (named_same _ _ (Hm a) Ha). by destruct (m a) as [[]]. Qed.
Lemma points_leave sc : sc <> VaultExplorer -> sc <> P2PDialog -> points (on_explorer (set_screen sc)).
Proof. intros H1' H2' a _ Hs. destruct a as [? [] ? ? ?]. cbn in Hs. by destruct Hs. Qed.
Lemma points_if {B} (b : bool) (m k : M stop App B) : points m -> points k -> points (if b then m else k).
Proof. by destruct b. Qed.
Lemma points_read {B C} (f : App -> B) (k : B -> M stop App C) : (forall b, points (k b)) -> points (let! b := gets f in k b).
Proof. intros Hk a Ha. by apply (Hk (f a)). Qed.

Ltac place := repeat first
  [ apply place_screens; by intros [] | apply place_home | apply place_apply | apply place_new | apply place_lift
  | by intros ? | apply keeps_bind; [exact _| |intros ?]
  | match goal with |- keeps same_place (match ?x with _ => _ end) => destruct x end ].
Ltac points := repeat match goal with
  | |- ends _ (mbind _ _) _ _ => eapply ends_then with (Q := fun _ => named); [|intros ?]
  | |- ends _ (if _ then _ else _) _ _ => apply points_if
  | |- ends _ (match ?x with _ => _ end) _ _ => destruct x
  | |- ends _ (on_explorer (set_screen ?s)) _ _ => apply (points_leave s); done
  | |- _ => apply points_place; solve [place]
  end.

Lemma points_unlock g : points (try_unlock host fault g).
Proof.
  apply points_read. intros [p|]; [|points]. apply points_read. intros typed. apply points_if; [points|].
  do 5 (eapply ends_then with (Q := fun _ => named); [points|]; intros ?). apply points_read. intros [c|]; [|points].
  destruct (load_vault_metadata _ _ _) as [[[[m u] off]|e|] s]; [|points..].
  intros a Ha. destruct a as [[] [] ? ? ?]. cbn. intros _. by eexists.
Qed.

Lemma points_create g p : points (do_create_vault_at_path host fault total_threads elapsed g p).
Proof.
  unfold do_create_vault_at_path. apply points_read. intros f. cbv zeta. destruct (folder p); [|points].
  do 2 (eapply ends_then with (Q := fun _ => named); [points|]; intros ?). apply points_read. intros makes.
  destruct (handle_create _ _ _ _ _ _ _ _ _ _ _) as [r s]. points.
Qed.

Lemma points_polls i : points (polls fault w i).
Proof.
  unfold polls, poll_vault_dialog. eapply ends_then with (Q := fun _ => named).
  { destruct (browsed i); [|points]. eapply ends_then with (Q := fun _ => named); [points|]. intros _ [? [[]] ? ? ?]; done || by intros _ [|]. }
  intros _ a Ha. unfold exploring. set (e := {| ui := explorer a; session := contents <$> opened a |}).
  set (v := open_vault fault w _). pose proof (poll_screen v (within_explorer i) e) as Hs. pose proof (poll_open v (within_explorer i) e) as Ho.
  destruct (poll v (within_explorer i) e) as [r e']. unfold same_screen, still_open in *. cbn in Hs, Ho.
  destruct r as [[]|x|]; cbn; [|done..]. unfold named in *.
  assert (Hc : screen (ui e') = VaultExplorer \/ screen (ui e') = P2PDialog -> current a) by (by rewrite Hs).
  destruct (opened a) as [o|] eqn:Hop; [destruct Ho as [c ->]; [by eexists|]|]; cbn; intros Hscr; destruct (Hc Hscr) as (o' & Ho' & Hn).
  - rewrite Hop in Ho'. injection Ho' as <-. by eexists.
  - congruence.
Qed.

Ltac points_with := repeat match goal with
  | |- ends _ (try_unlock _ _ _) _ _ => apply points_unlock
  | |- ends _ (do_create_vault_at_path _ _ _ _ _ _) _ _ => apply points_create
  | |- ends _ (mbind _ _) _ _ => eapply ends_then with (Q := fun _ => named); [|intros ?]
  | |- ends _ (if _ then _ else _) _ _ => apply points_if
  | |- ends _ (match ?x with _ => _ end) _ _ => destruct x
  | |- _ => points
  end.

(** One click of the two that leave the explorer. *)
Definition one_click (i : Explorer.input) : Prop := home_click i && p2p_click i = false.

Lemma points_explorer i : one_click i ->
  ends (fun a => named a /\ screen (explorer a) = VaultExplorer) (exploring (fun u => show (open_vault fault w u) i)) (fun _ => named) (fun _ => True).
Proof.
  intros Hi a [Ha Hsc]. destruct (Ha (or_introl Hsc)) as (o & Ho & Hn). unfold exploring. rewrite Ho. cbn [fmap option_fmap option_map from_option].
  set (v := open_vault fault w _). set (e := {| ui := explorer a; session := Some (contents o) |}).
  destruct (home_click i) eqn:Hh.
  - unfold one_click in Hi. rewrite Hh in Hi. cbn in Hi. pose proof (show_home v i e Hh Hi Hsc) as Hhome.
    destruct (show v i e) as [[[]|x|] e']; cbn in *; [|done..]. unfold named. destruct (session e'); cbn; rewrite Hhome; by intros [|].
  - pose proof (show_open v i Hh e) as Hopen. unfold still_open in Hopen.
    destruct (show v i e) as [[[]|x|] e']; cbn in *; [|done..]. destruct Hopen as [c ->]; [by eexists|]. cbn. intros _. by eexists.
Qed.

Lemma points_home i : points (draw_vault_panel i).
Proof. unfold draw_vault_panel. points. Qed.
Lemma points_login i : points (show_login host fault i).
Proof. unfold show_login. points_with. Qed.
Lemma points_creation i : points (show_create_vault host fault home_dir total_threads elapsed i).
Proof. unfold show_create_vault, create_clicked. points_with. Qed.

Lemma points_shows i : one_click (within_explorer i) -> points (shows host fault w home_dir total_threads elapsed i).
Proof.
  intros Hi a Ha. unfold shows, mbind at 1, gets. destruct (screen (explorer a)) eqn:Hs.
  - by apply points_home.
  - by apply points_login.
  - eapply (ends_then (fun a => named a /\ screen (explorer a) = VaultExplorer) _ _ (fun _ => named)); [apply points_explorer, Hi| |done].
    intros []. unfold leave_vault. points.
  - by apply points_creation.
  - destruct (back_to_vault_click i); [|exact Ha]. intros _. destruct (Ha (or_intror Hs)) as (o & Ho & Hn). by exists o.
Qed.
End shown.

(** ** Lemmas: one synchronisation *)

Section syncing.
Context `{UnicodeCase} `{PasswordHash} `{Aead} `{Sha256} `{Bincode} `{FastCdc} `{Base32} `{Ed25519} `{Noise} `{MessageJson}.
Context `{!Serde FriendRecord} `{!Serde VaultEntry}.
Variables (host : gmap str bytes -> Host) (fault : nat -> option Z) (w : machine) (home_dir : option str) (total_threads elapsed : Z).

(** With that shared state, and the vault of the screen known; [X] where it is needed. *)
Definition calm (X : App -> Prop) (sh : Shared) (s : World) : Prop := shared s = sh /\ X (window s).
Abbreviation untouched sh := (fun s : World => shared s = sh).
Abbreviation calmly X sh m := (ends (calm X sh) m (fun _ => calm X sh) (untouched sh)).

Lemma calm_place {B} X sh (m : M stop World B) :
  (forall a a', same_place a a' -> X a -> X a') -> keeps (fun s s' => shared s' = shared s /\ same_place (window s) (window s')) m -> calmly X sh m.
Proof.
  intros HX Hm s [Hs Hw]. destruct (Hm s) as [Hs' Hp]. destruct (m s) as [[]]; cbn in *; [|congruence..].
  split; [congruence|by eapply HX].
Qed.

Definition same_sync (s s' : World) : Prop := shared s' = shared s /\ same_place (window s) (window s').
#[local] Instance same_sync_preorder : PreOrder same_sync.
Proof. split; [by intros s|]. intros x y z [Hs Hw] [Hs' Hw']. split; [congruence|by etrans]. Qed.

Lemma sync_tried {B} (m : M Friends.error Home B) : keeps same_sync (tried m).
Proof. intros s. unfold tried. by destruct (m (own (window s))). Qed.
Lemma sync_friends : keeps same_sync friends_now.
Proof. intros s. unfold friends_now, in_window, in_home. by destruct (load_friends (own (window s))). Qed.
Lemma sync_panel f : keeps same_sync (on_panel f).
Proof. by intros s. Qed.

Ltac syncs := repeat first
  [ apply sync_tried | apply sync_friends | apply sync_panel | by intros ? | apply keeps_bind; [exact _| |intros ?]
  | match goal with |- keeps same_sync (match ?x with _ => _ end) => destruct x end ].

Lemma current_same a a' : same_place a a' -> current a -> current a'.
Proof. intros (_ & Ho & Hc). unfold current. by rewrite Ho, Hc. Qed.

Lemma sync_refresh : keeps same_sync refresh_friends.
Proof. unfold refresh_friends, of_panel, of_shared. syncs. Qed.
Lemma sync_clicks i : keeps same_sync (explorer_clicks i).
Proof. unfold explorer_clicks. syncs. Qed.
Lemma sync_add : keeps same_sync add_clicked.
Proof. unfold add_clicked, of_panel. syncs. Qed.

Lemma window_calm {B} sh (m : M stop App B) :
  ends named m (fun _ => named) (fun _ => True) -> calmly named sh (in_window m).
Proof.
  intros Hm s [Hs Hw]. specialize (Hm _ Hw). unfold in_window. by destruct (m (window s)) as [[]].
Qed.

(** What a frame does to the shared state. *)
Definition started (i : input) (sh : Shared) (s : World) : Prop :=
  sync_done sh = true /\ sync_click i = true /\
  exists o friend, opened (window s) = Some o /\ friend ∈ friends_cache (panel s) /\
    shared s = launched (from_utf8_lossy (vault_file o)) friend sh.

Lemma card_effect sh i :
  ends (calm current sh) (sync_card (negb (sync_done sh)) i)
    (fun _ s => current (window s) /\ (shared s = sh \/ started i sh s)) (untouched sh).
Proof.
  unfold sync_card. eapply ends_then with (Q := fun cache s => calm current sh s /\ friends_cache (panel s) = cache); [by intros s|].
  intros cache. case_bool_decide; [intros s [[Hs Hc] _]; by split; [|left]|].
  eapply ends_then with (Q := fun _ s => calm current sh s /\ friends_cache (panel s) = cache).
  { destruct (friend_pick i); [case_bool_decide|]; [|by intros s..]. intros s [[Hs Hc] Hf]. by destruct s as [? [] ?]. }
  intros _. destruct (sync_click i && negb (negb (sync_done sh))) eqn:Hb; [|intros s [[Hs Hc] _]; by split; [|left]].
  apply andb_true_iff in Hb as [Hclick Hd]. rewrite negb_involutive in Hd.
  intros s [[Hs Hc] Hf]. unfold mbind at 1, of_panel, gets. destruct (cache !! selected_friend_idx (panel s)) as [friend|] eqn:Hk;
    [|by split; [|left]]. destruct Hc as (o & Ho & Hn). cbn. split; [by exists o|]. right. split; [exact Hd|]. split; [exact Hclick|].
  exists o, friend. cbn. split; [exact Ho|]. rewrite Hn, Hf, Hs. split; [by eapply list_elem_of_lookup_2|done].
Qed.

Lemma content_effect sh i :
  ends (calm current sh) (p2p_content (negb (sync_done sh)) i)
    (fun _ s => current (window s) /\ (shared s = sh \/ started i sh s)) (untouched sh).
Proof.
  assert (Hk : forall B (m : M stop World B), keeps same_sync m -> calmly current sh m) by (intros B m; apply calm_place, current_same).
  unfold p2p_content, identity_shown.
  eapply ends_then; [apply Hk; syncs|intros ?].
  eapply ends_then; [apply Hk; destruct (tab_click i); syncs|intros ?].
  eapply ends_then; [apply Hk; unfold of_panel; syncs|intros []; [|intros s [Hs Hc]; by split; [|left]]].
  eapply ends_then; [apply Hk; destruct (nick_edit i); syncs|intros ?].
  eapply ends_then; [apply Hk; destruct (url_edit i); syncs|intros ?].
  eapply ends_then; [apply Hk; destruct (add_click i); [apply sync_add|syncs]|intros ?]. apply card_effect.
Qed.

Lemma dialog_effect sh i :
  ends (calm current sh) (show_p2p_dialog i) (fun _ s => current (window s) /\ (shared s = sh \/ started i sh s)) (untouched sh).
Proof. intros s Hs. pose proof (content_effect sh i s Hs) as Hc. destruct Hs as [<- _]. exact Hc. Qed.

Lemma update_effect sh i : one_click (within_explorer (on_window i)) ->
  ends (calm named sh) (update host fault w home_dir total_threads elapsed i)
    (fun _ s => named (window s) /\ (shared s = sh \/ started i sh s)) (untouched sh).
Proof.
  intros Hi. unfold update. eapply ends_then; [apply window_calm, points_polls|intros ?].
  eapply ends_then; [apply calm_place; [apply named_same|apply sync_refresh]|intros ?].
  eapply ends_then with (Q := fun sc s => calm named sh s /\ screen (explorer (window s)) = sc); [by intros s|]. intros sc.
  assert (Hshow : calmly named sh (in_window (shows host fault w home_dir total_threads elapsed (on_window i))))
    by (apply window_calm, points_shows, Hi).
  assert (Hstay : forall s, calm named sh s -> named (window s) /\ (shared s = sh \/ started i sh s)) by (intros s [Hs Hw]; by split; [|left]).
  destruct sc.
  1,2,4: eapply ends_then with (Q := fun _ => calm named sh); [intros s [Hs _]; by apply Hshow|intros _ s Hs; by apply Hstay].
  - eapply ends_then with (Q := fun _ => calm named sh); [intros s [Hs _]; by apply Hshow|intros ?].
    intros s Hs. pose proof (calm_place named sh _ named_same (sync_clicks (within_explorer (on_window i))) s Hs) as Hc.
    destruct (explorer_clicks _ s) as [[[]|e|] s']; [by apply Hstay|exact Hc..].
  - eapply ends_then with (Q := fun _ => calm current sh).
    + intros s [[Hs Hw] Hsc]. unfold in_window, shows, mbind, gets. rewrite Hsc. specialize (Hw (or_intror Hsc)).
      by destruct (back_to_vault_click _).
    + intros _ s Hs. pose proof (dialog_effect sh i s Hs) as Hd. destruct (show_p2p_dialog i s) as [[[]|e|] s']; [|exact Hd..].
      destruct Hd as [Hc Hsh]. split; [by intros _|exact Hsh].
Qed.

(** *** The threads *)

(** At most one synchronisation, and none while the flag is set. *)
Definition at_most_one (sh : Shared) : Prop := jobs sh = [] \/ exists j, jobs sh = [j] /\ sync_done sh = false.

Definition same_job (j j' : Job) : Prop := vault_path j' = vault_path j /\ friend_name j' = friend_name j.
Definition goes_on (sh sh' : Shared) : Prop :=
  jobs sh' = [] \/ exists j j', jobs sh = [j] /\ jobs sh' = [j'] /\ same_job j j' /\ sync_done sh' = sync_done sh.

Lemma after_goes_on {B} k j (r : outcome Friends.error B) next h sent l s :
  at_most_one (shared s) -> jobs (shared s) !! k = Some j ->
  window (snd (after k j r next h sent l s)) = put_home h (window s) /\ goes_on (shared s) (shared (snd (after k j r next h sent l s))).
Proof.
  intros Hone Hj. destruct Hone as [Hn|(j0 & Hjobs & Hd)]; [by rewrite Hn in Hj|].
  assert (k = 0%nat /\ j0 = j) as [-> ->] by (rewrite Hjobs in Hj; destruct k; cbn in Hj; by simplify_eq).
  unfold after. split; [by destruct r as [b|[]|]|]. unfold goes_on.
  destruct r as [b|[]|]; cbn; rewrite Hjobs; cbn; try (by left); right; by eexists _, _.
Qed.

Lemma advance_effect k n s : at_most_one (shared s) -> named (window s) ->
  named (window (snd (advance k n s))) /\ goes_on (shared s) (shared (snd (advance k n s))).
Proof.
  intros Hone Hw. assert (Hput : forall h, named (put_home h (window s))) by (intros h; by eapply named_same; [|exact Hw]).
  assert (Hsame : goes_on (shared s) (shared s)) by (destruct Hone as [Hn|(j & Hj & Hd)]; [by left|right; by eexists _, _]).
  unfold advance. destruct (jobs (shared s) !! k) as [j|] eqn:Hj; [|by split].
  destruct (stage_of j).
  1: destruct (sync_connect _ _ _ _) as [r x].
  2: destruct (sync_exchange _ _ _ _) as [r x].
  3: destruct (load_friends _) as [r x].
  4: destruct (match find_key _ _ _ with Some _ => _ | None => _ end) as [r x].
  1-4: match goal with |- context [after _ _ ?r ?f ?h ?b ?l _] => pose proof (after_goes_on k j r f h b l s Hone Hj) as [-> Hg] end; by split.
  all: destruct Hone as [Hn|(j0 & Hjobs & Hd)]; [by rewrite Hn in Hj|].
  all: assert (k = 0%nat /\ j0 = j) as [-> ->] by (rewrite Hjobs in Hj; destruct k; cbn in Hj; by simplify_eq).
  all: cbn; split; [exact Hw|]; unfold goes_on; cbn; rewrite Hjobs; first [by left|right; by eexists _, _].
Qed.

(** *** Any order of events *)

Abbreviation step := (happens host fault w home_dir total_threads elapsed).

Definition event_ok (e : event) : Prop := match e with Frame i => one_click (within_explorer (on_window i)) | _ => True end.
Definition sound (s : World) : Prop := named (window s) /\ at_most_one (shared s).

Lemma started_one i sh s : at_most_one sh -> started i sh s -> jobs sh = [] /\ at_most_one (shared s).
Proof.
  intros Hone (Hd & _ & o & friend & _ & _ & ->). destruct Hone as [Hn|(j & _ & Hf)]; [|congruence].
  split; [exact Hn|]. right. cbn. rewrite Hn. by eexists.
Qed.

Lemma goes_on_one sh sh' : at_most_one sh -> goes_on sh sh' -> at_most_one sh'.
Proof.
  intros Hone [Hn|(j & j' & Hj & Hj' & _ & Hd)]; [by left|]. destruct Hone as [Hn|(j0 & _ & Hf)]; [congruence|].
  right. exists j'. split; [exact Hj'|congruence].
Qed.

Lemma goes_on_job sh sh' j' : goes_on sh sh' -> j' ∈ jobs sh' -> exists j, j ∈ jobs sh /\ same_job j j'.
Proof.
  intros [Hn|(j & j1 & Hj & Hj1 & Hsame & _)]; [by rewrite Hn, elem_of_nil|]. rewrite Hj1, list_elem_of_singleton. intros ->.
  exists j. by rewrite Hj, list_elem_of_singleton.
Qed.

Lemma forward_effect q s : window (snd (forward q s)) = window s /\ jobs (shared (snd (forward q s))) = jobs (shared s) /\
  sync_done (shared (snd (forward q s))) = sync_done (shared s).
Proof. unfold forward, on_shared. cbn. by destruct (lines (shared s) !! q) as [[|]|]. Qed.

Lemma happens_sound e : event_ok e -> ends sound (step e) (fun _ => sound) (fun s => at_most_one (shared s)).
Proof.
  intros He s [Hw Hone]. destruct e as [i|k n|q].
  - pose proof (update_effect (shared s) i He s (conj eq_refl Hw)) as Hu. cbn [happens].
    destruct (update _ _ _ _ _ _ i s) as [[[]|x|] s']; [|by rewrite Hu..]. destruct Hu as [Hw' [Hs|Hst]].
    + split; [exact Hw'|]. by rewrite Hs.
    + split; [exact Hw'|]. by apply (started_one i (shared s)).
  - destruct (advance_effect k n s Hone Hw) as [Hw' Hg]. cbn [happens]. apply (goes_on_one _ _ Hone) in Hg.
    by destruct (advance k n s) as [[[]|x|] s'].
  - destruct (forward_effect q s) as (Hw' & Hj & Hd). cbn [happens].
    assert (Hs : sound (snd (forward q s))) by (split; [by rewrite Hw'|unfold at_most_one; by rewrite Hj, Hd]).
    destruct (forward q s) as [[[]|x|] s']; [exact Hs|by destruct Hs..].
Qed.

Lemma events_sound l : Forall event_ok l ->
  ends sound (events host fault w home_dir total_threads elapsed l) (fun _ => sound) (fun s => at_most_one (shared s)).
Proof.
  induction 1 as [|e l He Hl IH]; [by intros s|]. eapply ends_then; [apply happens_sound, He|]. intros []. exact IH.
Qed.

Lemma new_sound : ends sound new (fun _ => sound) (fun s => at_most_one (shared s)).
Proof.
  assert (Hk : keeps same_sync new).
  { unfold new. apply keeps_bind; [exact _| |intros []; syncs]. intros s. unfold in_window.
    assert (Hp : keeps same_place Screens.new) by (apply keeps_bind; [exact _|apply place_home|intros l; apply place_screens; by intros []]).
    specialize (Hp (window s)). by destruct (Screens.new (window s)). }
  intros s [Hw Hone]. destruct (Hk s) as [Hs Hp]. apply (named_same _ _ Hp) in Hw. rewrite <- Hs in Hone.
  by destruct (new s) as [[[]|x|] s'].
Qed.

(** A thread that runs without the window: [sync_core], then [update_friend_last_seen]. *)
Definition over (s : World) (h : Home) (result : note) : Prop :=
  own (window s) = h /\ sync_status (shared s) = result /\ sync_done (shared s) = true /\ jobs (shared s) = [].

Lemma thread_alone n s j :
  jobs (shared s) = [j] -> stage_of j = Connecting -> sent_out j = [] ->
  let s' := snd (events host fault w home_dir total_threads elapsed (replicate 6 (Thread 0 n)) s) in
  match sync_core n (vault_path j) (friend_name j) {| home := own (window s); sent := [] |} with
  | (Ok _, x) =>
      match update_friend_last_seen (friend_name j) (home x) with
      | (Ok _, h) => over s' h (SyncComplete (friend_name j))
      | _ => True
      end
  | (Err Friends.Exit, _) => True
  | (Err e, x) => over s' (home x) (Failed e)
  | (Panic, _) => jobs (shared s') = [] /\ sync_done (shared s') = sync_done (shared s)
  end.
Proof.
  destruct s as [a p [st d js ls]], j as [v f q b x]. cbn. intros -> -> ->. unfold sync_core, mbind at 1. cbn [replicate events happens].
  unfold mbind, advance. cbn.
  destruct (sync_connect n v f _) as [[prop|e|] [h1 b1]]; cbn; [|destruct e; cbn; done|done].
  destruct (sync_exchange n v prop _) as [[o|e|] [h2 b2]]; cbn; [|destruct e; cbn; done|done].
  unfold update_friend_last_seen, mbind, gets. destruct (load_friends h2) as [[l|e|] h3]; cbn; [|done|done].
  destruct (find_key nickname f l); cbn; [|done].
  destruct (save_friends _ h3) as [[[]|e|] h4]; cbn; done.
Qed.

(** C25: One synchronisation at a time, of the open vault, with a friend of the book.
    From the start of the program, in every interleaving of frames of the window, steps
    of the threads and arriving lines, whatever is clicked and typed and whatever the
    network does: there is at most one synchronisation, and while it runs the flag that
    enables the button is down; and every synchronisation there is after an event ran
    before it, for the same vault and the same friend, or was started by it: by a click,
    with nothing running, for the vault that is open in the window and a friend whose
    name was loaded from the address book. *)
Theorem one_sync_of_the_open_vault h l e :
  Forall event_ok l -> event_ok e ->
  let (r, s) := run host fault w home_dir total_threads elapsed h l in
  at_most_one (shared s) /\
  (r = Ok tt ->
   let s' := snd (step e s) in
   forall j', j' ∈ jobs (shared s') ->
     (exists j, j ∈ jobs (shared s) /\ same_job j j') \/
     (exists i o, e = Frame i /\ sync_click i = true /\ jobs (shared s) = [] /\ opened (window s') = Some o /\
        vault_path j' = from_utf8_lossy (vault_file o) /\ friend_name j' ∈ friends_cache (panel s'))).
Proof.
  intros Hl He. pose proof (ends_then _ _ _ _ _ _ new_sound (fun _ => events_sound l Hl) (start h)) as Hr.
  change (mbind new _ (start h)) with (run host fault w home_dir total_threads elapsed h l) in Hr.
  specialize (Hr ltac:(split; [by intros [|]|by left])). destruct (run _ _ _ _ _ _ h l) as [[[]|x|] s]; [|by split..].
  destruct Hr as [Hw Hone]. split; [exact Hone|]. intros _ s' j' Hj. unfold s' in *. clear s'.
  assert (Hkept : jobs (shared (snd (step e s))) = jobs (shared s) -> exists j, j ∈ jobs (shared s) /\ same_job j j')
    by (intros Heq; exists j'; split; [by rewrite <- Heq|done]).
  destruct e as [i|k n|q].
  - pose proof (update_effect (shared s) i He s (conj eq_refl Hw)) as Hu. cbn [happens] in *.
    destruct (update _ _ _ _ _ _ i s) as [[[]|x|] s'] eqn:Hrun; cbn [snd] in *; [|left; apply Hkept; by rewrite Hu..].
    destruct Hu as [_ [Hs|Hst]]; [left; apply Hkept; by rewrite Hs|]. destruct (started_one i _ _ Hone Hst) as [Hn _].
    right. destruct Hst as (_ & Hclick & o & friend & Ho & Hf & Hsh). exists i, o. rewrite Hsh in Hj. cbn [launched jobs] in Hj.
    rewrite Hn in Hj. apply list_elem_of_singleton in Hj. by subst j'.
  - left. destruct (advance_effect k n s Hone Hw) as [_ Hg]. by eapply goes_on_job.
  - left. apply Hkept. apply forward_effect.
Qed.
End syncing.

(** ** Examples *)

Import Toy ToyPw ToyVault ToyEd ToySerde ToyNoise ToyJson.

Definition plainly (x : Screens.input) : input :=
  {| on_window := x; tab_click := None; nick_edit := None; url_edit := None; add_click := false; friend_pick := None; sync_click := false |}.
Definition demo_input (x : Explorer.input) (opens typed : option str) : input := plainly (doing (rng_const Byte.x05) x false opens typed None).
Definition networking : Explorer.input := {|
  import_path := None; export_path := None; read_result _ := None; write_result _ := None; spawn_result _ := None;
  viewer_gone _ := false; home_click := false; p2p_click := true; file_click := None; rename_edit := None;
  rename_save := false; rename_cancel := false |}.
Definition syncing_click : input :=
  {| on_window := doing (rng_const Byte.x05) idle false None None None; tab_click := None; nick_edit := None; url_edit := None;
     add_click := false; friend_pick := None; sync_click := true |}.
Definition adding (nick url : str) : input :=
  {| on_window := doing (rng_const Byte.x05) idle false None None None; tab_click := None; nick_edit := Some nick; url_edit := Some url;
     add_click := true; friend_pick := None; sync_click := false |}.

(** A vault is created and opened, and the screen of the friends is entered. *)
Definition demo_setup : list event :=
  map (fun x => Frame (plainly x)) (creating (rng_const Byte.x05) demo_form) ++
  map Frame [demo_input idle (Some (lit "/h/.atom_vault/deeds.aegis")) None; demo_input idle None (Some (lit "pw")); demo_input networking None None].

Abbreviation sync_run l := (run (plain_host (map lit ["/h/.atom_vault"])) (fun _ => None) demo_machine (Some (lit "/h")) 4 0 demo_home l).
Abbreviation sync_step e := (happens (plain_host (map lit ["/h/.atom_vault"])) (fun _ => None) demo_machine (Some (lit "/h")) 4 0 e).

Definition demo_job : Job :=
  {| vault_path := lit "/h/.atom_vault/deeds.aegis"; friend_name := lit "ada"; lines_to := 0; sent_out := []; stage_of := Connecting |}.

Lemma one_sync_of_the_open_vault_witness :
  let (r, s) := sync_run demo_setup in
  let s' := snd (sync_step (Frame syncing_click) s) in
  r = Ok tt /\ at_most_one (shared s) /\
  exists j o, jobs (shared s') = [j] /\ friend_name j = lit "ada" /\ vault_path j = lit "/h/.atom_vault/deeds.aegis" /\
    opened (window s') = Some o /\ vault_path j = from_utf8_lossy (vault_file o).
Proof.
  assert (Hl : Forall event_ok demo_setup) by (by repeat constructor).
  pose proof (one_sync_of_the_open_vault (plain_host (map lit ["/h/.atom_vault"])) (fun _ => None) demo_machine (Some (lit "/h")) 4 0
    demo_home demo_setup (Frame syncing_click) Hl eq_refl) as Ht.
  assert (Hc : let (r, s) := sync_run demo_setup in
    r = Ok tt /\ jobs (shared s) = [] /\ jobs (shared (snd (sync_step (Frame syncing_click) s))) = [demo_job])
    by (vm_compute; split_and!; reflexivity).
  destruct (sync_run demo_setup) as [r s]. destruct Hc as (-> & Hnone & Hj). destruct Ht as [Hone Ht]. split; [done|]. split; [exact Hone|].
  specialize (Ht eq_refl demo_job ltac:(rewrite Hj; by left)). destruct Ht as [(j0 & Hin & _)|(i & o & _ & _ & _ & Ho & Hv & _)].
  { rewrite Hnone in Hin. by apply elem_of_nil in Hin. }
  exists demo_job, o. by split_and!.
Defined.

(** The screen of the friends over an open vault. *)
Definition demo_world : World :=
  {| window := MkApp (set_current (lit "/v/old.atom") (screens (blank demo_home))) (set_screen P2PDialog (explorer (blank demo_home)))
                 (Some {| vault_file := lit "/v/old.atom"; keys := toy_unlocked; contents := toy_vault |}) demo_home [];
     panel := MkPanel demo_friends [lit "ada"] [] [] (Text []) 0 true TorTab;
     shared := {| sync_status := Text []; sync_done := true; jobs := []; lines := [] |} |}.
Abbreviation from_there l := (events (plain_host (map lit ["/v"])) (fun _ => None) demo_machine (Some (lit "/h")) 4 0 l demo_world).

Definition refusing : Net :=
  {| state_dir := true; state_dir_utf8 := true; config := true; bootstrapped := true; dials _ := Some answering; temp_key := []; in_time := true;
     stream_opens := true; room := None; replies := Some (message_line Rejected); modified _ := Some 7 |}.
Definition thread_runs (n : Net) : list event := replicate 6 (Thread 0 n).
Definition seen_in (l : list FriendRecord) : list (str * option Z) := map (fun f => (nickname f, last_seen f)) l.
Definition book_of (s : World) : list (str * option Z) :=
  match fst (load_friends (own (window s))) with Ok l => seen_in l | _ => [] end.

(** A friend who refuses the vault: the window says the synchronisation is complete, and
    the friend has been seen; what the friend said may still arrive over it. *)
Example refusal_reads_complete :
  let (r, s) := from_there (Frame syncing_click :: thread_runs refusing) in
  r = Ok tt /\ sync_status (shared s) = SyncComplete (lit "ada") /\ sync_done (shared s) = true /\ book_of s = [(lit "ada", Some 9)] /\
  lines (shared s) = [[Initiating (lit "/v/old.atom") (lit "ada"); Established; Waiting (lit "ada"); RejectedBy (lit "ada"); Finalizing]] /\
  sync_status (shared (snd (forward 0 s))) = Line (Initiating (lit "/v/old.atom") (lit "ada")).
Proof. vm_compute. by split_and!. Qed.

(** The same over in one frame: the list of the home screen is not read again. *)
Example quick_sync_unnoticed :
  let (r, s) := from_there ([Frame syncing_click] ++ thread_runs reaching ++ [Frame (demo_input idle None None)]) in
  r = Ok tt /\ book_of s = [(lit "ada", Some 9)] /\ seen_in (friends_full (panel s)) = [(lit "ada", None)].
Proof. vm_compute. by split_and!. Qed.

(** A friend added while the thread notes when it has seen another is lost. *)
Example friend_lost_to_sync :
  let (r, s) := from_there ([Frame syncing_click] ++ replicate 3 (Thread 0 reaching) ++
                  [Frame (adding (lit "bob") (demo_link Byte.x02)); Thread 0 reaching]) in
  r = Ok tt /\ add_friend_status (panel s) = Booked Added (lit "bob") /\ friends_cache (panel s) = [lit "ada"; lit "bob"] /\
  book_of s = [(lit "ada", Some 9)].
Proof. vm_compute. by split_and!. Qed.
