(* ===== verification/Consent.v ===== *)
(** * Asking the user

    [ask_user_interactive] of [atom/src/commands/daemon.rs], and the dialog that answers
    it in the window: [poll_daemon_events] of [atom/src/gui/mod.rs] and
    [show_incoming_sync_dialog] of [atom/src/gui/p2p.rs]. *)

From Stdlib Require Import Strings.Byte.
From stdpp Require Import strings gmap.
From S2P Require Import Prelude Text VaultOps Paths Friends.

Definition refusal : SyncResponse := {| accepted := false; resp_label := None; save_path := None |}.

(** ** On the terminal *)

(** [read_line] into a fresh string, its error ignored: the next line with its end, and
    nothing at the end of the input or if the line is not text. *)
Definition read_answer (lines : list bytes) : str * list bytes :=
  match lines with
  | [] => ([], [])
  | line :: lines => (default [] (from_utf8 line), lines)
  end.

Definition downloads (home sender_nick filename : str) : str :=
  join home (lit "Downloads/" ++ sender_nick ++ lit "/" ++ filename).

Section terminal.
Context `{UnicodeCase}.

(** [ask_user_interactive] without a window; [lines] is what can be read. *)
Definition ask_terminal (home sender_nick filename : str) (lines : list bytes) : SyncResponse :=
  let (ans, lines) := read_answer lines in
  if bool_decide (to_lowercase (trim ans) = lit "y") || bool_decide (trim ans = []) then
    let (label, lines) := read_answer lines in
    let default_path := downloads home sender_nick filename in
    let (path_ans, _) := read_answer lines in
    let final_path := if bool_decide (trim path_ans = []) then from_utf8_lossy default_path else trim path_ans in
    {| accepted := true; resp_label := Some (trim label); save_path := Some final_path |}
  else refusal.
End terminal.

(** ** In the window *)

(** The dialog; the channel of the request is known by a number. *)
Record IncomingSyncState := {
  sender_nick : str;
  filename : str;
  vault_label : str;
  destination : str;
  response_channel : nat;
}.

(** The dialog shown, the answers sent on channels, and the channels given up. *)
Record Window := { incoming_sync : option IncomingSyncState; answers : list (nat * SyncResponse); dropped : list nat }.
Definition no_dialog : Window := {| incoming_sync := None; answers := []; dropped := [] |}.

Record SyncRequest := { from : str; about : str; channel : nat }.

(** One frame: the requests queued since the last, what was typed and clicked. *)
Record frame := { requests : list SyncRequest; label_edit : option str; path_edit : option str; accept : bool; reject : bool }.

Section window.
Variable home : str.

(** One event of [poll_daemon_events]: the dialog of another request gives way. *)
Definition show_request (w : Window) (r : SyncRequest) : Window :=
  let default_path := from_utf8_lossy (join home (lit ".atom_vault/received/" ++ from r ++ lit "/" ++ about r)) in
  {| incoming_sync := Some {| sender_nick := from r; filename := about r; vault_label := []; destination := default_path;
                              response_channel := channel r |};
     answers := answers w;
     dropped := match incoming_sync w with Some d => dropped w ++ [response_channel d] | None => dropped w end |}.

Definition poll_daemon_events (rs : list SyncRequest) (w : Window) : Window := foldl show_request w rs.

(** [resolve_save_path]. *)
Definition resolve_save_path (save_path sender_nick filename : str) : str :=
  if bool_decide (save_path = []) then from_utf8_lossy (downloads home sender_nick filename) else save_path.

Definition respond (d : IncomingSyncState) : SyncResponse :=
  {| accepted := true;
     resp_label := Some (if bool_decide (vault_label d = []) then lit "Synced Vault" else vault_label d);
     save_path := Some (resolve_save_path (destination d) (sender_nick d) (filename d)) |}.

Definition edited (i : frame) (d : IncomingSyncState) : IncomingSyncState :=
  {| sender_nick := sender_nick d; filename := filename d; vault_label := default (vault_label d) (label_edit i);
     destination := default (destination d) (path_edit i); response_channel := response_channel d |}.

(** [show_incoming_sync_dialog]. *)
Definition show_incoming_sync_dialog (i : frame) (w : Window) : Window :=
  match incoming_sync w with
  | None => w
  | Some d =>
      let d := edited i d in
      let send r := {| incoming_sync := None; answers := answers w ++ [(response_channel d, r)]; dropped := dropped w |} in
      if accept i then send (respond d) else if reject i then send refusal
      else {| incoming_sync := Some d; answers := answers w; dropped := dropped w |}
  end.

(** [update], as far as the dialog goes. *)
Definition update (w : Window) (i : frame) : Window := show_incoming_sync_dialog i (poll_daemon_events (requests i) w).

Definition frames (l : list frame) (w : Window) : Window := foldl update w l.

(** What [ask_user_interactive] gets back on a channel, once it gets anything: an answer,
    or the refusal that stands for a channel given up. *)
Definition heard (ch : nat) (w : Window) : option SyncResponse :=
  match List.find (fun a => bool_decide (fst a = ch)) (answers w) with
  | Some (_, r) => Some r
  | None => if bool_decide (ch ∈ dropped w) then Some refusal else None
  end.

(** ** Lemmas *)

Definition all_requests (l : list frame) : list nat := concat (map (fun i => map channel (requests i)) l).
Definition on_screen (w : Window) : list nat := match incoming_sync w with Some d => [response_channel d] | None => [] end.

(** Every channel ever shown, in order: answered, given up, or on the screen. *)
Definition settled (w : Window) (chs : list nat) : Prop := map fst (answers w) ++ dropped w ++ on_screen w ≡ₚ chs.

Lemma poll_settled rs w chs : settled w chs -> settled (poll_daemon_events rs w) (chs ++ map channel rs).
Proof.
  unfold poll_daemon_events. revert w chs. induction rs as [|r rs IH]; intros w chs Hw; cbn [foldl map]; [by rewrite app_nil_r|].
  change (channel r :: map channel rs) with ([channel r] ++ map channel rs). rewrite app_assoc. apply IH.
  unfold settled, on_screen, show_request in *. cbn. rewrite <- Hw.
  destruct (incoming_sync w); cbn; rewrite <- !app_assoc, ?app_nil_r; done.
Qed.

Lemma dialog_settled i w chs : settled w chs -> settled (show_incoming_sync_dialog i w) chs.
Proof.
  unfold settled, on_screen, show_incoming_sync_dialog. intros <-. destruct (incoming_sync w) as [d|] eqn:Hd; [|by rewrite Hd].
  destruct (accept i), (reject i); cbn; rewrite ?map_app; cbn; rewrite ?app_nil_r; try done; rewrite <- app_assoc;
    apply Permutation_app_head, Permutation_app_comm.
Qed.

Lemma frames_settled l w chs : settled w chs -> settled (frames l w) (chs ++ all_requests l).
Proof.
  revert w chs. unfold frames, all_requests. induction l as [|i l IH]; intros w chs Hw; cbn [foldl map concat]; [by rewrite app_nil_r|].
  rewrite app_assoc. apply IH. by apply dialog_settled, poll_settled.
Qed.

Lemma heard_answer ch r w : NoDup (map fst (answers w)) -> (ch, r) ∈ answers w -> heard ch w = Some r.
Proof.
  unfold heard. induction (answers w) as [|[c x] l IH]; intros Hnd Hin; [by apply elem_of_nil in Hin|].
  cbn in *. apply list.NoDup_cons in Hnd as [Hc Hnd]. apply elem_of_cons in Hin as [[= -> ->]|Hin]; [by rewrite bool_decide_eq_true_2|].
  rewrite bool_decide_eq_false_2; [by apply IH|]. intros ->. apply Hc. apply list_elem_of_In, in_map_iff.
  exists (ch, r). split; [done|]. by apply list_elem_of_In.
Qed.

Lemma heard_dropped ch w : ch ∉ map fst (answers w) -> ch ∈ dropped w -> heard ch w = Some refusal.
Proof.
  intros Hn Hd. unfold heard. destruct (List.find _ _) as [[c x]|] eqn:Hf; [|by rewrite bool_decide_eq_true_2].
  exfalso. apply Hn. apply List.find_some in Hf as [Hin Hc]. apply bool_decide_eq_true in Hc. cbn in Hc. subst c.
  apply list_elem_of_In. exact (in_map fst _ _ Hin).
Qed.

(** ** What a click means, on the frames alone

    The frames since the request [q] arrived: it is the last one of the first of them,
    and no other has come. *)
Definition brings (q : SyncRequest) (s : list frame) : Prop :=
  exists j later, s = j :: later /\ list.last (requests j) = Some q /\ Forall (fun k => requests k = []) later.

(** What was typed last into a field. *)
Definition typed (field : frame -> option str) (s : list frame) : option str := list.last (omap field s).

(** The dialog of [q] after the frames [s]. *)
Definition dialog_of (q : SyncRequest) (s : list frame) : IncomingSyncState :=
  {| sender_nick := from q; filename := about q; vault_label := default [] (typed label_edit s);
     destination := default (from_utf8_lossy (join home (lit ".atom_vault/received/" ++ from q ++ lit "/" ++ about q)))
                            (typed path_edit s);
     response_channel := channel q |}.

(** The answer it then gives: an empty label or path stands for a default. *)
Definition answer_of (q : SyncRequest) (s : list frame) : SyncResponse :=
  let label := default [] (typed label_edit s) in
  let path := default (from_utf8_lossy (join home (lit ".atom_vault/received/" ++ from q ++ lit "/" ++ about q))) (typed path_edit s) in
  {| accepted := true;
     resp_label := Some (if bool_decide (label = []) then lit "Synced Vault" else label);
     save_path := Some (if bool_decide (path = []) then from_utf8_lossy (downloads home (from q) (about q)) else path) |}.

(** The button of the dialog of request [ch] was clicked, in the frame [i]: nothing was
    clicked in the frames before it in which the dialog was shown, that dialog was the
    one on the screen when the frame began, if the request had come before it, and the
    answer is made of what was typed in these frames. *)
Definition clicked (l : list frame) (ch : nat) (r : SyncResponse) : Prop :=
  exists earlier shown i after q, l = earlier ++ shown ++ i :: after /\
    brings q (shown ++ [i]) /\ channel q = ch /\ accept i = true /\
    Forall (fun k => accept k = false /\ reject k = false) shown /\
    (shown <> [] -> incoming_sync (frames (earlier ++ shown) no_dialog) = Some (dialog_of q shown)) /\
    r = answer_of q (shown ++ [i]).

Lemma typed_snoc field s i : typed field (s ++ [i]) = match field i with Some x => Some x | None => typed field s end.
Proof.
  unfold typed. rewrite omap_app. cbn. destruct (field i); cbn; [by rewrite list.last_snoc|by rewrite app_nil_r].
Qed.

Lemma edited_snoc i q s : edited i (dialog_of q s) = dialog_of q (s ++ [i]).
Proof. unfold edited, dialog_of. rewrite !typed_snoc. cbn. by destruct (label_edit i), (path_edit i). Qed.

Lemma brings_one q i : list.last (requests i) = Some q -> brings q [i].
Proof. intros Hq. by exists i, []. Qed.
Lemma brings_snoc q s i : brings q s -> requests i = [] -> brings q (s ++ [i]).
Proof. intros (j & later & -> & Hq & Hl) Hi. exists j, (later ++ [i]). split_and!; [done..|]. by apply Forall_app_2; [|constructor]. Qed.

(** The last request of a frame is the one whose dialog is shown. *)
Lemma poll_last rs w :
  incoming_sync (poll_daemon_events rs w) =
    match list.last rs with Some r => Some (dialog_of r []) | None => incoming_sync w end.
Proof.
  induction rs as [|r rs _] using rev_ind; [done|]. unfold poll_daemon_events. by rewrite foldl_app, list.last_snoc.
Qed.

Lemma answers_poll rs w : answers (poll_daemon_events rs w) = answers w.
Proof. unfold poll_daemon_events. revert w. induction rs as [|r rs IH]; intros w; [done|]. cbn [foldl]. by rewrite IH. Qed.

Lemma frames_snoc l i w : frames (l ++ [i]) w = update (frames l w) i.
Proof. unfold frames. by rewrite foldl_app. Qed.

(** The dialog a frame shows: a request of the frame itself, or the one before. *)
Lemma update_dialog w i d :
  incoming_sync (poll_daemon_events (requests i) w) = Some d ->
  incoming_sync (update w i) = (if accept i || reject i then None else Some (edited i d)) /\
  answers (update w i) = answers w ++
    (if accept i then [(response_channel d, respond (edited i d))] else if reject i then [(response_channel d, refusal)] else []).
Proof.
  intros Hd. unfold update, show_incoming_sync_dialog. rewrite Hd, answers_poll.
  destruct (accept i), (reject i); cbn; rewrite ?answers_poll, ?app_nil_r; done.
Qed.

Lemma update_nothing w i :
  incoming_sync (poll_daemon_events (requests i) w) = None -> incoming_sync (update w i) = None /\ answers (update w i) = answers w.
Proof. intros Hd. unfold update, show_incoming_sync_dialog. by rewrite Hd, answers_poll. Qed.

(** What is on the screen, and what has been accepted, after the frames [l]. *)
Lemma frames_history l :
  (forall d, incoming_sync (frames l no_dialog) = Some d ->
     exists earlier shown q, l = earlier ++ shown /\ brings q shown /\
       Forall (fun k => accept k = false /\ reject k = false) shown /\ d = dialog_of q shown) /\
  (forall ch r, (ch, r) ∈ answers (frames l no_dialog) -> accepted r = true -> clicked l ch r).
Proof.
  induction l as [|i l [IHd IHa]] using rev_ind; [split; [done|]; by intros ch r ?%elem_of_nil|].
  rewrite frames_snoc. set (w := frames l no_dialog) in *.
  assert (Hmore : forall ch r, clicked l ch r -> clicked (l ++ [i]) ch r).
  { intros ch r (e & s & j & a & q & -> & Hrest). exists e, s, j, (a ++ [i]), q. split; [|done]. by rewrite <- !app_assoc. }
  destruct (incoming_sync (poll_daemon_events (requests i) w)) as [d|] eqn:Hd.
  2: { destruct (update_nothing w i Hd) as [-> ->]. split; [done|]. intros ch r Hin Hr. by apply Hmore, IHa. }
  assert (exists earlier shown q, l = earlier ++ shown /\ brings q (shown ++ [i]) /\ d = dialog_of q shown /\
    Forall (fun k => accept k = false /\ reject k = false) shown /\ (shown <> [] -> incoming_sync w = Some d))
    as (e & s & q & Hl & Hq & -> & Hs & Hw).
  { rewrite poll_last in Hd. destruct (list.last (requests i)) as [q|] eqn:Hlast.
    - exists l, [], q. injection Hd as <-. split_and!; [by rewrite app_nil_r|by apply brings_one|done|constructor|done].
    - apply list.last_None in Hlast. destruct (IHd d Hd) as (e & s & q & Hl & Hq & Hs & ->). exists e, s, q.
      split_and!; [done|by apply brings_snoc|done..]. }
  destruct (update_dialog w i _ Hd) as [-> ->]. rewrite edited_snoc. split.
  - intros d. destruct (accept i) eqn:Ha, (reject i) eqn:Hr; cbn; [done..|]. intros [= <-]. exists e, (s ++ [i]), q.
    split_and!; [by rewrite Hl, app_assoc|done| |done]. by apply Forall_app_2; [|constructor].
  - intros ch r [Hin|Hin]%elem_of_app Hr; [by apply Hmore, IHa|]. destruct (accept i) eqn:Ha.
    + apply list_elem_of_singleton in Hin as [= -> ->]. exists e, s, i, [], q.
      split_and!; [by rewrite Hl, app_assoc|done..| |done]. intros Hne. rewrite <- Hl. by apply Hw.
    + destruct (reject i); [|by apply elem_of_nil in Hin]. apply list_elem_of_singleton in Hin as [= -> ->]. done.
Qed.

Lemma answers_grow l w a : a ∈ answers w -> a ∈ answers (frames l w).
Proof.
  revert w. unfold frames. induction l as [|i l IH]; intros w Ha; [done|]. cbn [foldl]. apply IH.
  destruct (incoming_sync (poll_daemon_events (requests i) w)) as [d|] eqn:Hd.
  - destruct (update_dialog w i d Hd) as [_ ->]. apply elem_of_app. by left.
  - by destruct (update_nothing w i Hd) as [_ ->].
Qed.

(** A click is an answer on the channel of its request. *)
Lemma clicked_answers l ch r : clicked l ch r -> (ch, r) ∈ answers (frames l no_dialog).
Proof.
  intros (e & s & i & a & q & -> & Hq & <- & Ha & Hs & Hw & ->).
  replace (e ++ s ++ i :: a) with ((e ++ s ++ [i]) ++ a) by (by rewrite <- !app_assoc).
  unfold frames. rewrite foldl_app. apply answers_grow. change (foldl update no_dialog (e ++ s ++ [i])) with (frames (e ++ s ++ [i]) no_dialog).
  rewrite app_assoc, frames_snoc.
  enough (incoming_sync (poll_daemon_events (requests i) (frames (e ++ s) no_dialog)) = Some (dialog_of q s)) as Hd.
  { destruct (update_dialog _ _ _ Hd) as [_ ->]. rewrite Ha, edited_snoc. apply elem_of_app. right. by apply list_elem_of_singleton. }
  rewrite poll_last. destruct Hq as (j & later & Hj & Hq & Hl). destruct s as [|k s]; cbn in Hj; injection Hj as -> Hj.
  - by rewrite Hq.
  - rewrite <- Hj in Hl. apply Forall_app in Hl as [_ Hi]. rewrite Forall_singleton in Hi. rewrite Hi. cbn [list.last]. by apply Hw.
Qed.

(** C26: A vault new to this device is accepted in the window by a click, and by nothing
    else.  Requests come, one over another, and the user types and clicks, in any order
    and number.  No request is answered twice, and none is lost: each is answered, given
    up for a later one, or on the screen.  What the daemon hears on a request's channel
    is an acceptance exactly if the button was clicked in a frame whose dialog was that
    request's, the latest to arrive, and then with the label and the path last typed
    into that dialog, or their defaults; a request given up is heard as a refusal.  The
    dialog was on the screen before the click unless the request came in the very frame
    of the click: it then takes the click meant for the one before
    ([click_for_another]). *)
Theorem consent_is_a_click l :
  NoDup (all_requests l) ->
  let w := frames l no_dialog in
  NoDup (map fst (answers w)) /\
  (forall ch, ch ∈ all_requests l <-> ch ∈ map fst (answers w) \/ ch ∈ dropped w \/ ch ∈ on_screen w) /\
  (forall ch r, heard ch w = Some r /\ accepted r = true <-> clicked l ch r) /\
  (forall ch, ch ∈ dropped w -> heard ch w = Some refusal).
Proof.
  intros Hnd w. pose proof (frames_settled l no_dialog [] ltac:(by unfold settled)) as Hs. fold w in Hs. cbn [app] in Hs.
  destruct (frames_history l) as [_ Ha]. fold w in Ha. unfold settled in Hs.
  assert (Hnd' := Hnd). rewrite <- Hs in Hnd'. apply list.NoDup_app in Hnd' as (Hn & Hdisj & _).
  assert (Hfind : forall ch r, (ch, r) ∈ answers w -> heard ch w = Some r) by (intros; by apply heard_answer).
  split_and!.
  - done.
  - intros ch. by rewrite <- Hs, !elem_of_app.
  - intros ch r. split.
    + intros [Hh Hr]. apply Ha; [|done]. unfold heard in Hh. destruct (List.find _ _) as [[c x]|] eqn:Hf.
      * injection Hh as ->. apply List.find_some in Hf as [Hin Hc]. apply bool_decide_eq_true in Hc. cbn in Hc. subst c.
        by apply list_elem_of_In.
      * destruct (bool_decide _); [|done]. by injection Hh as <-.
    + intros Hc. split; [by apply Hfind, clicked_answers|]. by destruct Hc as (e & s & i & a & q & _ & _ & _ & _ & _ & _ & ->).
  - intros ch Hch. apply heard_dropped; [|done]. intros Hin. apply (Hdisj ch Hin). apply elem_of_app. by left.
Qed.
End window.

(** ** Examples *)

(** A daemon without a terminal: nothing can be read, and that is a yes, to be stored
    where the request says. *)
Lemma silent_terminal_accepts `{UnicodeCase} home nick file :
  ask_terminal home nick file [] =
    {| accepted := true; resp_label := Some []; save_path := Some (from_utf8_lossy (downloads home nick file)) |}.
Proof. unfold ask_terminal, read_answer. cbn. by rewrite orb_true_r. Qed.

(** The name of the vault is the friend's: it can lead out of the folder. *)
Example name_leads_out :
  downloads (lit "/home/u") (lit "ada") (lit "../../.bashrc") = lit "/home/u/Downloads/ada/../../.bashrc".
Proof. vm_compute. reflexivity. Qed.

Definition quiet (rs : list SyncRequest) : frame :=
  {| requests := rs; label_edit := None; path_edit := None; accept := false; reject := false |}.
Definition click (rs : list SyncRequest) : frame :=
  {| requests := rs; label_edit := None; path_edit := None; accept := true; reject := false |}.
Definition of_ada : SyncRequest := {| from := lit "ada"; about := lit "notes.aegis"; channel := 0 |}.
Definition of_eve : SyncRequest := {| from := lit "eve"; about := lit "evil.aegis"; channel := 1 |}.

(** A request that arrives with the click gets the click meant for the one before. *)
Example click_for_another :
  fst <$> answers (frames (lit "/home/u") [quiet [of_ada]; click [of_eve]] no_dialog) = [1%nat].
Proof. vm_compute. reflexivity. Qed.

(** Ada's request comes, a label is typed, the button is clicked, and then Eve's comes. *)
Lemma consent_is_a_click_witness :
  let typing := {| requests := []; label_edit := Some (lit "ours"); path_edit := None; accept := false; reject := false |} in
  let l := [quiet [of_ada]; typing; click []; quiet [of_eve]] in
  let w := frames (lit "/home/u") l no_dialog in
  let r := {| accepted := true; resp_label := Some (lit "ours");
              save_path := Some (lit "/home/u/.atom_vault/received/ada/notes.aegis") |} in
  heard 0 w = Some r /\ heard 1 w = None /\ clicked (lit "/home/u") l 0 r.
Proof.
  intros typing l w r. assert (Hh : heard 0 w = Some r) by (vm_compute; reflexivity). split; [exact Hh|].
  split; [vm_compute; reflexivity|].
  assert (Hnd : NoDup (all_requests l)).
  { apply list.NoDup_cons. split; [|apply list.NoDup_singleton]. intros Hx. apply list_elem_of_singleton in Hx. discriminate Hx. }
  destruct (consent_is_a_click (lit "/home/u") l Hnd) as (_ & _ & Hc & _). apply (Hc 0%nat r). split; [exact Hh|reflexivity].
Defined.
