(* ===== verification/Prompt.v ===== *)
(** * Passwords typed at the terminal

    [read_password_pinentry] ([secure_input.rs]): a line read from the terminal itself,
    without echo, into a locked buffer that is wiped; and the two commands that ask for
    it ([create.rs], [enter.rs]), over [VaultOps]. *)

From Stdlib Require Import Strings.Byte.
From stdpp Require Import gmap strings.
From S2P Require Import Prelude Text Primitives StateM Disk VaultCrypto Vfs Storage VaultOps Paths VaultSpec Vault.

(** ** The terminal

    What the system will answer: whether the terminal opens and tells its attributes,
    whether the [n]-th change of them is accepted, whether memory can be locked, and how
    many bytes the [n]-th write gets out before it fails, if it does. *)
Record Answers := { binds : bool; attributes : bool; accepts : nat -> bool; locks : bool; breaks : nat -> option Z }.

(** The local flags of the terminal; what will be typed until it hangs up; what has been
    written; and the buffer with its lock. *)
Record Tty := {
  local_flags : Z; changes : nat; writes : nat; typed : bytes; shown : bytes;
  buffer : bytes; locked : bool; undumped : bool }.

(** [libc::ECHO]. *)
Definition ECHO : Z := 8.
Definition echoes (t : Tty) : bool := negb (Z.land (local_flags t) ECHO =? 0).

Definition set_flags (n : Z) (t : Tty) : Tty :=
  {| local_flags := n; changes := S (changes t); writes := writes t; typed := typed t; shown := shown t;
     buffer := buffer t; locked := locked t; undumped := undumped t |}.
Definition count_change (t : Tty) : Tty := set_flags (local_flags t) t.
Definition show_bytes (b : bytes) (t : Tty) : Tty :=
  {| local_flags := local_flags t; changes := changes t; writes := S (writes t); typed := typed t; shown := shown t ++ b;
     buffer := buffer t; locked := locked t; undumped := undumped t |}.
Definition set_buffer (b : bytes) (l d : bool) (t : Tty) : Tty :=
  {| local_flags := local_flags t; changes := changes t; writes := writes t; typed := typed t; shown := shown t;
     buffer := b; locked := l; undumped := d |}.
Definition set_typed (x : bytes) (t : Tty) : Tty :=
  {| local_flags := local_flags t; changes := changes t; writes := writes t; typed := x; shown := shown t;
     buffer := buffer t; locked := locked t; undumped := undumped t |}.

Definition no_password : vault_error := VMsg "Password cannot be empty or contain only spaces.".

Section prompt.
Variable term : Answers.
Abbreviation T := (M vault_error Tty).

(** [tcsetattr], [write_all]. *)
Definition tcsetattr (flags : Z) : T unit := fun t =>
  if accepts term (changes t) then (Ok tt, set_flags flags t) else (Err (VIo "tcsetattr"), count_change t).
Definition tty_write (b : bytes) : T unit := fun t =>
  match breaks term (writes t) with
  | None => (Ok tt, show_bytes b t)
  | Some n => (Err (VIo "write"), show_bytes (ztake n b) t)
  end.

(** The loop: one byte at a time, into the buffer while there is room, until the end of
    the line.  The bytes left to read get fewer, so it ends. *)
Definition ends_line (b : byte) : bool := bool_decide (b = Byte.x0a) || bool_decide (b = Byte.x0d).
Fixpoint read_keys (arriving buf : bytes) (idx : nat) : outcome vault_error nat * (bytes * bytes) :=
  match arriving with
  | [] => (Err (VIo "failed to fill whole buffer"), ([], buf))
  | b :: rest =>
      if ends_line b then (Ok idx, (rest, buf)) else
      if (idx <? length buf)%nat then read_keys rest (<[idx := b]> buf) (S idx) else read_keys rest buf idx
  end.
Definition read_line : T nat := fun t =>
  let '(r, (rest, buf)) := read_keys (typed t) (buffer t) 0 in
  (r, set_typed rest (set_buffer buf (locked t) (undumped t) t)).

Definition prompt_text : bytes := Byte.x0a :: lit "[SECURE INPUT] Enter Master Password: ".

(** [read_password_pinentry]. *)
Definition read_password_pinentry : T str :=
  let! _ := lift (if binds term then Ok tt else Err (VMsg "Security Error: Could not bind to secure TTY")) in
  let! original_termios := lift (if attributes term then Ok tt else Err (VIo "tcgetattr")) in
  let! original := gets local_flags in
  let! _ := tcsetattr (Z.ldiff original ECHO) in
  let! _ := modify (set_buffer (zrep 128 Byte.x00) false false) in
  let! _ := if locks term then mret tt
            else fun t => let (_, t) := tcsetattr original t in (Err (VMsg "Fatal: Failed to lock memory page via mlock"), t) in
  let! _ := modify (set_buffer (zrep 128 Byte.x00) true true) in
  let! _ := tty_write prompt_text in
  let! idx := read_line in
  let! _ := tty_write [Byte.x0a] in
  let! _ := tcsetattr original in
  let! buf := gets buffer in
  let! password := lift (ok_or (from_utf8 (take idx buf)) (VMsg "Invalid UTF-8 sequence in password")) in
  let! _ := modify (fun t => set_buffer (zrep 128 Byte.x00) false (undumped t) t) in
  mret password.

(** ** Its commands *)

(** In [handle_create]: typed and confirmed. *)
Definition ask_new_password : T str :=
  let! pass := read_password_pinentry in
  if zlen (trim pass) =? 0 then fails no_password else
  let! confirm_pass := read_password_pinentry in
  if bool_decide (pass = confirm_pass) then mret pass
  else fails (VMsg "Security Error: Passwords do not match. Aborting creation.").
End prompt.

(** The terminal and the vault that is made or entered. *)
Record Console := { tty : Tty; held_vault : vault }.
Definition on_tty {A} (m : M vault_error Tty A) : M vault_error Console A := fun c =>
  let (r, t) := m (tty c) in (r, {| tty := t; held_vault := held_vault c |}).
Definition on_vault {A} (m : V A) : M vault_error Console A := fun c =>
  let (r, v) := m (held_vault c) in (r, {| tty := tty c; held_vault := v |}).

Section commands.
Context `{PasswordHash} `{Aead} `{Sha256} `{Bincode} `{FastCdc}.
Variable term : Answers.
Variable fault : nat -> option Z.

(** [handle_create], where its password comes from: a generated passphrase, a field of
    the window, or the terminal. *)
Definition create_command (folder_made exists_already : bool) (generated gui_password : option str) (kdf_choice : str)
    (memory_arg rounds_arg parallelism_arg : option Z) (decryption_time total_threads elapsed : Z) : M vault_error Console unit :=
  let! _ := lift (if folder_made then Ok tt else Err (VIo "create_dir_all")) in
  let! password :=
    match generated, gui_password with
    | Some pass, _ => mret pass
    | None, Some pw => mret pw
    | None, None => on_tty (ask_new_password term)
    end in
  on_vault (handle_create fault exists_already kdf_choice memory_arg rounds_arg parallelism_arg decryption_time total_threads
    elapsed password).

(** [handle_enter], with its password asked for once the file is open. *)
Definition enter_command {A} (shell : UnlockedVault -> V A) : M vault_error Console A :=
  let! _ := on_vault (sys fault "open" (fun s =>
    Ok (tt, set_at_path None (set_phys (File (default (content (phys s)) (at_path s)) 0) s)))) in
  let! password := on_tty (read_password_pinentry term) in
  if zlen (trim password) =? 0 then fails no_password else
  on_vault (
    let! (metadata, u, current_payload_offset) := load_vault_metadata fault password in
    let! _ := modify (fun s => set_payload current_payload_offset (set_meta metadata s)) in
    let! _ := sys fault "sandbox" (fun s => Ok (tt, s)) in
    let! r := shell u in
    let! _ := sync fault Vault in
    mret r).
End commands.

(** ** Lemmas *)

(** The first line of what is typed, and what follows its end. *)
Fixpoint first_line (l : bytes) : option (bytes * bytes) :=
  match l with
  | [] => None
  | b :: l => if ends_line b then Some ([], l) else match first_line l with Some (x, rest) => Some (b :: x, rest) | None => None end
  end.

(** The keys that fit are kept; the rest of the line is dropped. *)
Lemma read_keys_spec l buf idx : (idx <= length buf)%nat ->
  match first_line l, read_keys l buf idx with
  | Some (x, rest), (r, (over, buf')) =>
      exists n, r = Ok n /\ over = rest /\ length buf' = length buf /\ (idx <= n <= length buf)%nat /\
        take n buf' = take idx buf ++ take (length buf - idx) x
  | None, (r, (over, buf')) => (exists e, r = Err e) /\ over = [] /\ length buf' = length buf
  end.
Proof.
  revert buf idx. induction l as [|b l IH]; intros buf idx Hi; [cbn; split; [by eexists|done]|]. cbn [first_line read_keys].
  destruct (ends_line b).
  { exists idx. rewrite take_nil, app_nil_r. split_and!; [done..|lia|lia|done]. }
  destruct (Nat.ltb_spec idx (length buf)) as [Hlt|Hge].
  - specialize (IH (<[idx:=b]> buf) (S idx)). rewrite length_insert in IH. specialize (IH ltac:(lia)).
    destruct (first_line l) as [[x rest]|]; destruct (read_keys l _ _) as [r [over buf']]; [|exact IH].
    destruct IH as (n & -> & -> & Hl & Hn & Ht). exists n. split_and!; [done..|lia|lia|]. rewrite Ht.
    rewrite (take_S_r _ _ b) by (by apply list_lookup_insert_eq). rewrite take_insert_ge by lia. rewrite <- app_assoc.
    f_equal. replace (length buf - idx)%nat with (S (length buf - S idx)) by lia. done.
  - specialize (IH buf idx Hi). destruct (first_line l) as [[x rest]|]; destruct (read_keys l buf idx) as [r [over buf']]; [|exact IH].
    destruct IH as (n & -> & -> & Hl & Hn & Ht). exists n. split_and!; [done..|lia|lia|]. rewrite Ht.
    by replace (length buf - idx)%nat with 0%nat by lia.
Qed.

Definition wiped (t : Tty) : Prop := buffer t = zrep 128 Byte.x00 /\ locked t = false.

Section facts.
Variable term : Answers.

(** A terminal that does what it is asked. *)
Definition obliging : Prop :=
  binds term = true /\ attributes term = true /\ locks term = true /\ (forall n, accepts term n = true) /\ (forall n, breaks term n = None).

(** The password of a line: its first 128 bytes. *)
Definition kept (line : bytes) : bytes := take 128 line.

(** What the prompt does to the terminal when nothing fails. *)
Definition asked (rest : bytes) (t t' : Tty) : Prop :=
  local_flags t' = local_flags t /\ wiped t' /\ typed t' = rest /\ shown t' = shown t ++ prompt_text ++ [Byte.x0a].

Lemma password_is_read t line rest : obliging -> first_line (typed t) = Some (line, rest) -> utf8_valid (kept line) = true ->
  exists t', read_password_pinentry term t = (Ok (kept line), t') /\ asked rest t t'.
Proof.
  intros (Hb & Ha & Hl & Hacc & Hcut) Ht Hu. unfold read_password_pinentry, mbind, gets, modify, lift, tcsetattr, tty_write, read_line, mret.
  rewrite Hb, Ha, Hl. cbn. rewrite !Hacc. cbn. rewrite !Hcut. cbn.
  pose proof (read_keys_spec (typed t) (zrep 128 Byte.x00) 0 ltac:(lia)) as Hk. rewrite Ht in Hk.
  destruct (read_keys (typed t) (zrep 128 Byte.x00) 0) as [r [over buf']]. destruct Hk as (n & -> & -> & Hlen & Hn & Htake). cbn.
  rewrite !Hcut, !Hacc. cbn. change (take n buf' = kept line) in Htake. rewrite Htake. unfold from_utf8. rewrite Hu. cbn. eexists. split; [done|]. split_and!; [done|done|done|]. exact (eq_sym (app_assoc _ _ _)).
Qed.

(** Whatever fails.  A password that is returned is the kept part of the first line, the
    terminal echoes as before, and the buffer is wiped and unlocked.  Without one the
    terminal is as before or has been left silent, which takes a refused write, the end
    of the input, or a refused change of its attributes. *)
Lemma prompt_leaves t :
  let (r, t') := read_password_pinentry term t in
  match r with
  | Ok p => local_flags t' = local_flags t /\ wiped t' /\
      exists line rest, first_line (typed t) = Some (line, rest) /\ p = kept line /\ utf8_valid p = true /\ typed t' = rest
  | Err e => local_flags t' = local_flags t \/
      local_flags t' = Z.ldiff (local_flags t) ECHO /\
      ((exists n, is_Some (breaks term n)) \/ first_line (typed t) = None \/ exists n, accepts term n = false)
  | Panic => False
  end.
Proof.
  unfold read_password_pinentry, mbind, gets, modify, lift, tcsetattr, tty_write, read_line, mret.
  destruct (binds term); cbn; [|by left]. destruct (attributes term); cbn; [|by left].
  destruct (accepts term (changes t)) eqn:E1; cbn; [|by left].
  destruct (locks term); cbn.
  2:{ destruct (accepts term (S (changes t))) eqn:E2; cbn; [by left|right]. split; [done|]. right; right. by exists (S (changes t)). }
  destruct (breaks term (writes t)) eqn:E3; cbn.
  { right. split; [done|]. left. exists (writes t). by rewrite E3. }
  pose proof (read_keys_spec (typed t) (zrep 128 Byte.x00) 0 ltac:(lia)) as Hk.
  destruct (first_line (typed t)) as [[line rest]|]; destruct (read_keys (typed t) _ 0) as [r [over buf']].
  2:{ destruct Hk as ((e & ->) & _). cbn. right. split; [done|by right; left]. }
  destruct Hk as (n & -> & -> & Hlen & Hn & Htake). cbn. change (take n buf' = kept line) in Htake.
  destruct (breaks term (S (writes t))) eqn:E4; cbn.
  { right. split; [done|]. left. eexists. by rewrite E4. }
  destruct (accepts term (S (changes t))) eqn:E5; cbn.
  2:{ right. split; [done|]. right; right. by eexists. }
  rewrite Htake. unfold from_utf8. destruct (utf8_valid (kept line)) eqn:Hu; cbn; [|by left].
  split; [done|]. split; [done|]. by exists line, rest.
Qed.
End facts.

(** ** Theorem: the line that made the vault opens it *)

Section typed_vaults.
Context `{PasswordHash} `{!PasswordHashLaws _} `{Aead} `{!AeadLaws _} `{Sha256} `{!Sha256Laws _} `{Bincode} `{!BincodeLaws _}.
Context `{FastCdc} `{!FastCdcLaws _}.
Variable term : Answers.
Variable fault : nat -> option Z.
Hypothesis no_fault : forall n, fault n = None.
Hypothesis obliged : obliging term.

(** The terminal has been asked some times more, and [rest] is left to be read. *)
Definition as_it_was (rest : bytes) (t t' : Tty) : Prop :=
  local_flags t' = local_flags t /\ wiped t' /\ typed t' = rest.

(** Lines that are typed one after the other, each ended by the enter key. *)
Definition lines_typed (lines : list bytes) (rest : bytes) : bytes := concat (map (fun l => l ++ [Byte.x0a]) lines) ++ rest.
Definition one_line (l : bytes) : Prop := Forall (fun b => ends_line b = false) l.

Lemma first_line_typed l ls rest : one_line l -> first_line (lines_typed (l :: ls) rest) = Some (l, lines_typed ls rest).
Proof.
  intros Hl. unfold lines_typed. cbn [map concat]. rewrite <- !app_assoc. cbn [app].
  induction Hl as [|b l Hb _ IH]; [done|]. cbn [app first_line]. by rewrite Hb, IH.
Qed.

(** The prompt, in the command, for a line that keeps [p]. *)
Lemma line_is_read t p l ls rest : utf8_valid p = true -> typed t = lines_typed (l :: ls) rest -> one_line l -> kept l = p ->
  exists t', read_password_pinentry term t = (Ok p, t') /\ as_it_was (lines_typed ls rest) t t'.
Proof.
  intros Hu Ht Hl <-. destruct (password_is_read term t l (lines_typed ls rest) obliged) as (t' & Hr & Hf & Hw & Hty & _);
    [rewrite Ht; by apply first_line_typed|done|]. by exists t'.
Qed.

Lemma new_password_is_asked t p l1 l2 ls rest : utf8_valid p = true -> zlen (trim p) <> 0 ->
  typed t = lines_typed (l1 :: l2 :: ls) rest -> one_line l1 -> one_line l2 -> kept l1 = p -> kept l2 = p ->
  exists t', ask_new_password term t = (Ok p, t') /\ as_it_was (lines_typed ls rest) t t'.
Proof.
  intros Hu Hp Ht Hl1 Hl2 Hk1 Hk2. destruct (line_is_read t p l1 (l2 :: ls) rest) as (t1 & Hr1 & Hf1 & _ & Ht1); [done..|].
  destruct (line_is_read t1 p l2 ls rest) as (t2 & Hr2 & Hf2 & Hw2 & Ht2); [done..|].
  exists t2. split; [|by split_and!; [congruence|..]]. unfold ask_new_password. rewrite (mbind_Ok _ _ _ _ _ Hr1). zdec.
  rewrite (mbind_Ok _ _ _ _ _ Hr2). by rewrite bool_decide_eq_true_2.
Qed.

(** With a password read, entering is [handle_enter] of it. *)
Lemma enter_reads {A} (shell : UnlockedVault -> V A) c p t' : read_password_pinentry term (tty c) = (Ok p, t') -> zlen (trim p) <> 0 ->
  enter_command term fault shell c =
  (let (r, v) := handle_enter fault p shell (held_vault c) in (r, {| tty := t'; held_vault := v |})).
Proof.
  intros Hr Hp. unfold enter_command, handle_enter, mbind, sys, on_vault, on_tty. rewrite no_fault. cbn. rewrite Hr. by zdec.
Qed.

(** [atom enter] again and again, each time with commands for the shell. *)
Fixpoint enter_and_use (w : machine) (ss : list (list command)) : M vault_error Console (list (list reply)) :=
  match ss with
  | [] => mret []
  | cs :: ss =>
      let! r := enter_command term fault (fun u => run_commands fault w u cs) in
      let! rs := enter_and_use w ss in
      mret (r :: rs)
  end.

Lemma enter_and_use_runs w p ss qs c rest rs v : utf8_valid p = true -> zlen (trim p) <> 0 ->
  wiped (tty c) -> typed (tty c) = lines_typed qs rest -> Forall2 (fun q (_ : list command) => one_line q /\ kept q = p) qs ss ->
  run_sessions fault w p ss (held_vault c) = (Ok rs, v) ->
  exists t', enter_and_use w ss c = (Ok rs, {| tty := t'; held_vault := v |}) /\ as_it_was rest (tty c) t'.
Proof.
  intros Hu Hp Hw Ht Hq. revert c rs v Hw Ht. induction Hq as [|q cs qs ss [Hl Hk] _ IH]; intros c rs v Hw Ht Hrun.
  { destruct c as [t v0]. injection Hrun as <- <-. by exists t. }
  cbn [run_sessions enter_and_use] in *. apply mbind_inv in Hrun as (r & v1 & Hr & Hrun).
  apply mbind_inv in Hrun as (rs' & v2 & Hrs & Hret). injection Hret as <- <-.
  destruct (line_is_read (tty c) p q qs rest) as (t1 & Hr1 & Hf1 & Hw1 & Ht1); [done..|].
  assert (He := enter_reads (fun u => run_commands fault w u cs) c p t1 Hr1 Hp). rewrite Hr in He.
  destruct (IH {| tty := t1; held_vault := v1 |} rs' v2) as (t2 & Hr2 & Hf2 & Hw2 & Ht2); [done..|].
  exists t2. split; [by rewrite (mbind_Ok _ _ _ _ _ He), (mbind_Ok _ _ _ _ _ Hr2)|]. split_and!; [|done..]. cbn in Hf2. congruence.
Qed.

(** What [atom create] settles on. *)
Definition settled (kdf_choice : str) (memory_arg rounds_arg parallelism_arg : option Z) (decryption_time total_threads elapsed : Z) : KdfSettings :=
  let st := choose_settings kdf_choice memory_arg parallelism_arg total_threads in
  {| choice := choice st; memory_kib := memory_kib st;
     iterations := default (calibrate_kdf decryption_time (choice st) elapsed) rounds_arg; parallelism := parallelism st |}.

Lemma settles exists_ kdf mem rounds par dec threads elapsed p : zlen (trim p) <> 0 ->
  handle_create fault exists_ kdf mem rounds par dec threads elapsed p
  = create_vault fault exists_ p (settled kdf mem rounds par dec threads elapsed).
Proof. intros Hp. unfold handle_create, settled. zdec. by destruct rounds. Qed.

End typed_vaults.

(** ** Examples *)

From S2P Require Import ToyVault.
Import Toy ToyPw ToyVault.

Abbreviation none := (fun _ : nat => @None Z).

Definition willing : Answers :=
  {| binds := true; attributes := true; accepts := fun _ => true; locks := true; breaks := fun _ => None |}.
Definition at_prompt (typed_ : bytes) : Tty :=
  {| local_flags := 35387; changes := 0; writes := 0; typed := typed_; shown := []; buffer := []; locked := false; undumped := false |}.

Lemma willing_obliges : obliging willing.
Proof. done. Qed.

Definition demo_lines : list bytes := [lit "correct horse"; lit "correct horse"; lit "correct horse"; lit "correct horse"].


(** Of a long line the first 128 bytes count: two different lines confirm each other. *)
Definition long (b : byte) : bytes := zrep 128 (Byte.x61) ++ [b].
Example long_lines_agree :
  let (r, t) := ask_new_password willing (at_prompt (lines_typed [long Byte.x62; long Byte.x63] [])) in
  r = Ok (zrep 128 Byte.x61).
Proof. by vm_compute. Qed.

(** A password of the window that is longer cannot be typed here. *)
Lemma long_password_untypable term t p t' : read_password_pinentry term t = (Ok p, t') -> zlen p <= 128.
Proof.
  intros Hr. pose proof (prompt_leaves term t) as Hl. rewrite Hr in Hl. destruct Hl as (_ & _ & line & rest & _ & -> & _).
  unfold kept, zlen. rewrite length_take. lia.
Qed.

(** The cut can fall inside a character, which refuses the password and leaves what was
    typed in the locked buffer. *)
Example cut_in_a_character :
  let (r, t) := read_password_pinentry willing (at_prompt (lines_typed [zrep 127 Byte.x61 ++ [Byte.xc3; Byte.xa9]] [])) in
  is_ok r = false /\ locked t = true /\ take 127 (buffer t) = zrep 127 Byte.x61.
Proof. by vm_compute. Qed.

(** When the input ends in the middle of the line, the terminal stays silent and the
    buffer is left as it is. *)
Example hung_up :
  let (r, t) := read_password_pinentry willing (at_prompt (lit "hunter")) in
  is_ok r = false /\ echoes (at_prompt []) = true /\ echoes t = false /\ locked t = true /\ take 6 (buffer t) = lit "hunter".
Proof. by vm_compute. Qed.
