(* ===== verification/Program.v ===== *)
(** * The program

    [main] ([main.rs]) and what it accepts on the command line ([cli.rs]): the key of the
    configuration files, the restart in the container, the staging folder, and the
    command, whose handlers are an interface here. *)

From Stdlib Require Import Strings.Byte.
From stdpp Require Import gmap strings.
From S2P Require Import Prelude Text StateM VaultOps Paths ConfigFile Container.

(** ** The command line

    Options that [clap] has filled in; its own parsing is not modelled. *)
Inductive RendezvousCommands :=
  | RAdd (link : str) (name via_socks : option str)
  | RLink (host : str) (port : Z) (prefix : str) (pins : list str) (onion : option str)
  | RList
  | RRemove (name : str).

Inductive LiveCommands :=
  | LId
  | LAddress (address : str)
  | LPair (nickname : str) (code : option str)
  | LPeers
  | LSend (vault_path peer : str)
  | LReceive (save_path peer : str)
  | LStun (server : str) (port : Z)
  | LAnnounce (peer : option str)
  | LRendezvous (command : RendezvousCommands).

Inductive FriendCommands := FAdd (url nickname : str) | FList.

Inductive Commands :=
  | Create (vault_path vault_name kdf : str) (memory transform_rounds : option Z) (decryption_time : Z)
      (parallelism : option Z) (generate_passphrase : bool)
  | Enter (vault_path : str)
  | Id
  | Daemon
  | Friend (command : FriendCommands)
  | Sync (vault_path friend_nickname : str)
  | Live (command : LiveCommands).

(** *** Validators *)

(** [char::is_alphanumeric] of an ASCII character. *)
Definition alphanumeric (b : byte) : bool := in_range 48 57 b || in_range 65 90 b || in_range 97 122 b.

Definition parse_vault_name (s : str) : outcome string str :=
  if bool_decide (trim s = []) then Err "Vault name cannot be empty or whitespace only"%string else
  if 32 <? zlen s then Err "Vault name cannot exceed 32 characters"%string else
  if negb (forallb is_ascii s) then Err "Vault name must contain only ASCII"%string else
  if existsb (fun c => negb (alphanumeric c) && negb (bool_decide (c = Byte.x5f)) && negb (bool_decide (c = Byte.x2d))) s
  then Err "Vault name can only contain alphanumeric characters, _, or -"%string else Ok s.

Definition parse_vault_path (s : str) : outcome string str :=
  if bool_decide (s = []) then Err "Vault path cannot be empty"%string else
  if 4096 <? zlen s then Err "Vault path is too long"%string else Ok s.

Definition parse_atom_url (s : str) : outcome string str :=
  if starts_with (lit "atom://") s then Ok s else Err "Friend links must start with 'atom://'"%string.

(** ** What a command does

    What the process starts with and changes: the key of the configuration files, the
    folders with their modes, and a state [S] the commands work on. *)
Record World (S : Type) := { config_key : option bytes; folders : gmap str Z; rest : S }.
Arguments config_key {S} _.
Arguments folders {S} _.
Arguments rest {S} _.

(** A folder that is there is left as it is, its mode too; one that cannot be made is
    gone without. *)
Definition make_dir {S} (refuses : str -> bool) (umask mode : Z) (name : str) (w : World S) : World S :=
  {| config_key := config_key w;
     folders := match folders w !! name with
                | Some _ => folders w
                | None => if refuses name then folders w else <[name := Z.ldiff mode umask]> (folders w)
                end;
     rest := rest w |}.
Definition set_config_key {S} (key : bytes) (w : World S) : World S :=
  {| config_key := Some key; folders := folders w; rest := rest w |}.

(** The handlers of the other components. *)
Class Handlers (S : Type) := {
  create : str -> str -> str -> option Z -> option Z -> option Z -> Z -> bool -> M string (World S) unit;
  enter : str -> M string (World S) unit;
  daemon : M string (World S) unit;
  id : M string (World S) unit;
  friend : FriendCommands -> M string (World S) unit;
  synchronise : str -> str -> M string (World S) unit;
  live_id : M string (World S) unit;
  live_address : str -> M string (World S) unit;
  live_pair : str -> option str -> M string (World S) unit;
  live_peers : M string (World S) unit;
  live_send : str -> str -> M string (World S) unit;
  live_receive : str -> str -> M string (World S) unit;
  live_stun : str -> Z -> M string (World S) unit;
  live_announce : option str -> M string (World S) unit;
  rendezvous_add : str -> option str -> option str -> M string (World S) unit;
  rendezvous_link : str -> Z -> str -> list str -> option str -> M string (World S) unit;
  rendezvous_list : M string (World S) unit;
  rendezvous_remove : str -> M string (World S) unit;
  run_gui : M string (World S) unit;
}.

Section program.
Context {S : Type} `{Handlers S}.

Definition dispatch_rendezvous (c : RendezvousCommands) : M string (World S) unit :=
  match c with
  | RAdd link name via_socks => rendezvous_add link name via_socks
  | RLink host port prefix pins onion => rendezvous_link host port prefix pins onion
  | RList => rendezvous_list
  | RRemove name => rendezvous_remove name
  end.

Definition dispatch_live (c : LiveCommands) : M string (World S) unit :=
  match c with
  | LId => live_id
  | LAddress address => live_address address
  | LPair nickname code => live_pair nickname code
  | LPeers => live_peers
  | LSend vault_path peer => live_send vault_path peer
  | LReceive save_path peer => live_receive save_path peer
  | LStun server port => live_stun server port
  | LAnnounce peer => live_announce peer
  | LRendezvous command => dispatch_rendezvous command
  end.

(** Without a command, the window. *)
Definition dispatch (c : option Commands) : M string (World S) unit :=
  match c with
  | Some (Create vault_path vault_name kdf memory rounds decryption_time parallelism generate) =>
      create vault_path vault_name kdf memory rounds parallelism decryption_time generate
  | Some (Enter vault_path) => enter vault_path
  | Some Daemon => daemon
  | Some Id => id
  | Some (Friend command) => friend command
  | Some (Sync vault_path friend_nickname) => synchronise vault_path friend_nickname
  | Some (Live command) => dispatch_live command
  | None => run_gui
  end.

(** ** [main] *)

(** The staging folder's name. *)
Definition staging_dir (variable : str -> option str) : option str :=
  match variable (lit "XDG_RUNTIME_DIR") with
  | Some r => Some (r ++ lit "/atom_staging")
  | None => match variable (lit "HOME") with Some h => Some (h ++ lit "/.atom_vault/staging") | None => None end
  end.

(** What [clap] makes of the arguments: an end with a status (help, an error), or a
    command. *)
Inductive Parsed := Stops (status : Z) | Runs (c : option Commands).

(** The process ends with a status, or becomes [bwrap] with these arguments. *)
Inductive ending := Exits (status : Z) | Becomes (args : list str).

(** [exec_works]: executing [bwrap] does not return.  The folder is made with mode 0777 by
    the restart, with 0700 by [main]. *)
Definition main (parse : list bytes -> Parsed) (exec_works : bool) (refuses : str -> bool) (umask : Z) (p : Process) (k : Keyring) (g : rng) (s : World S) :
    ending * (Keyring * rng * World S) :=
  match fetch_or_create_key k g with
  | Err _ | Panic => (Exits 1, (k, g, s))
  | Ok (key, k, g) =>
      let s := set_config_key key s in
      let caged := try_bwrap_self_sandbox p in
      let s := match caged with Some (made, _) => make_dir refuses umask 511 made s | None => s end in
      match caged, exec_works with
      | Some (_, args), true => (Becomes args, (k, g, s))
      | _, _ =>
          match parse (arguments p) with
          | Stops status => (Exits status, (k, g, s))
          | Runs c =>
              match staging_dir (variable p) with
              | None => (Exits 1, (k, g, s))
              | Some dir =>
                  match dispatch c (make_dir refuses umask 448 dir s) with
                  | (Ok _, s) => (Exits 0, (k, g, s))
                  | (Err _, s) | (Panic, s) => (Exits 1, (k, g, s))
                  end
              end
          end
      end
  end.
End program.

(** ** Lemmas *)

(** *** Names *)

Definition name_byte (b : byte) : bool := alphanumeric b || bool_decide (b = Byte.x5f) || bool_decide (b = Byte.x2d).

Lemma name_byte_facts b : name_byte b = true -> is_ascii b = true /\ plain_byte b = true /\ b <> Byte.x2f /\ b <> Byte.x2e.
Proof. intros Hb. destruct b; try discriminate Hb; by split_and!. Qed.

Lemma forbidden_byte b : negb (alphanumeric b) && negb (bool_decide (b = Byte.x5f)) && negb (bool_decide (b = Byte.x2d)) = negb (name_byte b).
Proof. unfold name_byte. by destruct (alphanumeric b), (bool_decide (b = Byte.x5f)), (bool_decide (b = Byte.x2d)). Qed.

(** Exactly the names of 1 to 32 letters, digits, dashes and underscores are taken. *)
Lemma vault_name_accepted s r :
  parse_vault_name s = Ok r <-> r = s /\ 1 <= zlen s <= 32 /\ Forall (fun b => name_byte b = true) s.
Proof.
  assert (He : existsb (fun c => negb (alphanumeric c) && negb (bool_decide (c = Byte.x5f)) && negb (bool_decide (c = Byte.x2d))) s = false
    <-> Forall (fun b => name_byte b = true) s).
  { induction s as [|b s IH]; cbn; [by split|]. rewrite forbidden_byte, orb_false_iff, IH, negb_false_iff, list.Forall_cons. done. }
  unfold parse_vault_name. split.
  - case_bool_decide as Ht; [done|]. destruct (Z.ltb_spec 32 (zlen s)); [done|]. destruct (negb _); [done|].
    destruct (existsb _ _) eqn:Hx; [done|]. intros [= <-]. split; [done|]. split; [|by apply He].
    destruct s; [done|]. rewrite zlen_cons in *. pose proof (zlen_nonneg s). lia.
  - intros (-> & Hl & Hs). rewrite bool_decide_eq_false_2.
    2:{ destruct s as [|b s]; [rewrite zlen_nil in Hl; lia|]. apply list.Forall_cons in Hs as [Hb%name_byte_facts _].
        destruct (trim_head b s) as [r ->]; [apply Hb..|done]. }
    destruct (Z.ltb_spec 32 (zlen s)); [lia|].
    replace (forallb is_ascii s) with true by (symmetry; apply forallb_forall; rewrite list.Forall_forall in Hs; intros x Hx%list_elem_of_In; by apply name_byte_facts, Hs).
    cbn [negb]. by rewrite (proj2 He Hs).
Qed.

(** Such a name makes the file a member of the folder given. *)
Lemma created_in_its_folder path name r : path <> [] -> parse_vault_name name = Ok r ->
  components (join path (r ++ lit ".aegis")) = components path ++ [r ++ lit ".aegis"].
Proof.
  intros Hp (-> & Hl & Hs)%vault_name_accepted. apply components_join; [done| |].
  - apply Forall_app_2; [|by repeat constructor]. eapply Forall_impl; [|exact Hs]. intros b Hb%name_byte_facts. apply Hb.
  - unfold vanishes. apply bool_decide_eq_false. destruct name as [|b [|c name]]; by intros [?|?].
Qed.

(** ** Theorem: the restart *)

Section restart.
Context {S : Type} `{Handlers S}.

Lemma make_dir_others refuses umask mode name d (w : World S) :
  d <> name -> folders (make_dir refuses umask mode name w) !! d = folders w !! d.
Proof.
  intros Hd. unfold make_dir. cbn [folders]. destruct (folders w !! name); [done|]. destruct (refuses name); [done|].
  by rewrite lookup_insert_ne.
Qed.

Lemma make_dir_there refuses umask mode name (w : World S) :
  refuses name = false -> is_Some (folders (make_dir refuses umask mode name w) !! name).
Proof.
  intros Hr. unfold make_dir. cbn [folders]. destruct (folders w !! name) eqn:E; [by rewrite E|]. rewrite Hr.
  by rewrite lookup_insert_eq.
Qed.

(** Arguments that are text are passed on as they are. *)
Lemma texts_kept l : Forall (fun a => from_utf8_lossy a = a) l -> map from_utf8_lossy l = l.
Proof. induction 1 as [|a l Ha _ IH]; [done|]. cbn [map]. by rewrite Ha, IH. Qed.

(** What a run that reaches its command ends with. *)
Definition finished (k : Keyring) (g : rng) (r : outcome string unit * World S) : ending * (Keyring * rng * World S) :=
  (Exits (if is_ok (fst r) then 0 else 1), (k, g, snd r)).

(** C36: The restart in the container runs the command that was given, once.  The first
    process has stored the key of the configuration files, made the staging folder in
    the runtime directory (which the container has; its [/tmp] is its own) and replaced
    itself, touching nothing else; the arguments of [bwrap] read back as its options,
    the program's own name and the arguments given.  Whatever process runs those in the
    environment the options make, on whatever files, folders and key ring it finds there
    (the container's mounts differ from the host's, and the bus of the key ring may be
    out of reach), does not restart again: without a key it ends with 1 and runs nothing;
    with one, and it is the first one's where the key ring is, the arguments mean what
    they meant, the staging folder is the one the first process made, and it ends as the
    command does on what it found, with status 0 only if the command succeeds. *)
Theorem restart_runs_the_command (parse : list bytes -> Parsed) refuses umask p k g (w : World S) args k1 g1 w1 :
  (forall a b, tail a = tail b -> parse a = parse b) -> Forall (fun a => from_utf8_lossy a = a) (tail (arguments p)) ->
  main parse true refuses umask p k g w = (Becomes args, (k1, g1, w1)) ->
  exists os exe xdg key, read_options args = Some (os, exe :: tail (arguments p)) /\
    rest w1 = rest w /\ config_key w1 = Some key /\ (forall g2, fetch_or_create_key k1 g2 = Ok (key, k1, g2)) /\
    (Mount Bind xdg xdg ∈ os /\ Tmpfs (lit "/tmp") ∈ os) /\
    (forall d, d <> xdg ++ lit "/atom_staging" -> folders w1 !! d = folders w !! d) /\
    (refuses (xdg ++ lit "/atom_staging") = false -> is_Some (folders w1 !! (xdg ++ lit "/atom_staging"))) /\
    forall q exec_works refuses' umask' k2 g2 (w2 : World S),
      (forall x, variable q x = environment os (variable p) x) -> arguments q = exe :: tail (arguments p) ->
      main parse exec_works refuses' umask' q k2 g2 w2 =
      match fetch_or_create_key k2 g2 with
      | Ok (key, k3, g3) =>
          match parse (arguments p) with
          | Stops status => (Exits status, (k3, g3, set_config_key key w2))
          | Runs c =>
              finished k3 g3 (dispatch c (make_dir refuses' umask' 448 (xdg ++ lit "/atom_staging") (set_config_key key w2)))
          end
      | _ => (Exits 1, (k2, g2, w2))
      end.
Proof.
  intros Hparse Htext. unfold main at 1. destruct (fetch_or_create_key k g) as [[[key k'] g']|e|] eqn:Hf; [|done..].
  destruct (try_bwrap_self_sandbox p) as [[made bargs]|] eqn:Hp; [|destruct (parse _) as [|c]; [done|]; destruct (staging_dir _); [|done]; by destruct (dispatch c _) as [[]]].
  intros [= -> -> -> <-].
  destruct (self_sandbox_once p made args Hp) as (os & exe & xdg & home & _ & _ & _ & -> & Hread & _ & _ & _ & _ & _ & Henv & Hview & Honce).
  rewrite (texts_kept _ Htext) in Hread. exists os, (from_utf8_lossy exe), xdg, key.
  split_and!; [done|done|done|intros g2; by eapply fetched_again|apply Hview|apply Hview| | |].
  - intros d Hd. exact (make_dir_others _ _ _ _ _ (set_config_key key w) Hd).
  - intros Hr. by apply make_dir_there.
  - intros q exec_works refuses' umask' k2 g2 w2 Hq Hqa. unfold main. rewrite (Honce q Hq).
    rewrite (Hparse (arguments q) (arguments p)) by (by rewrite Hqa).
    destruct (fetch_or_create_key k2 g2) as [[[key2 k3] g3]|e|]; [|done..].
    destruct (parse (arguments p)) as [status|c]; [done|].
    assert (staging_dir (variable q) = Some (xdg ++ lit "/atom_staging")) as -> by (unfold staging_dir; by rewrite Hq, Henv).
    unfold finished. by destruct (dispatch c _) as [[[]|e|] w3].
Qed.
End restart.

(** Without the key of the configuration files nothing is run and nothing is changed. *)
Lemma no_key_no_command {S} `{Handlers S} parse ex refuses umask p k g (w : World S) :
  is_ok (fetch_or_create_key k g) = false -> main parse ex refuses umask p k g w = (Exits 1, (k, g, w)).
Proof. unfold main. by destruct (fetch_or_create_key k g) as [[[key k'] g']|e|]. Qed.

(** A name with a separator, or a path to elsewhere, is no name. *)
Lemma no_separators s : Byte.x2f ∈ s \/ Byte.x2e ∈ s -> is_ok (parse_vault_name s) = false.
Proof.
  intros Hs. destruct (parse_vault_name s) as [r|e|] eqn:Hr; [|done..]. apply vault_name_accepted in Hr as (_ & _ & Hf).
  rewrite list.Forall_forall in Hf. by destruct Hs as [Hb%Hf%name_byte_facts|Hb%Hf%name_byte_facts]; destruct Hb as (_ & _ & ? & ?).
Qed.

(** ** Examples *)

(** Handlers that note their names. *)
Definition noting (n : string) : M string (World (list string)) unit := fun w =>
  (Ok tt, {| config_key := config_key w; folders := folders w; rest := rest w ++ [n] |}).
Instance notes : Handlers (list string) := {
  create _ _ _ _ _ _ _ _ := noting "create"; enter _ := noting "enter"; daemon := noting "daemon"; id := noting "id";
  friend _ := noting "friend"; synchronise _ _ := noting "sync"; live_id := noting "live id"; live_address _ := noting "live address";
  live_pair _ _ := noting "live pair"; live_peers := noting "live peers"; live_send _ _ := noting "live send";
  live_receive _ _ := noting "live receive"; live_stun _ _ := noting "live stun"; live_announce _ := noting "live announce";
  rendezvous_add _ _ _ := noting "rendezvous add"; rendezvous_link _ _ _ _ _ := noting "rendezvous link";
  rendezvous_list := noting "rendezvous list"; rendezvous_remove _ := noting "rendezvous remove"; run_gui := noting "gui" }.

Definition demo_parse (args : list bytes) : Parsed :=
  match tail args with
  | [] => Runs None
  | [a] => if bool_decide (a = lit "daemon") then Runs (Some Daemon) else Stops 2
  | [a; b] => if bool_decide (a = lit "live" /\ b = lit "id") then Runs (Some (Live LId)) else Stops 2
  | _ => Stops 2
  end.

Definition demo_process : Process := {|
  Container.files := Container.files started; variable := variable started; namespaces := true; current_exe := Some (lit "/usr/bin/atom");
  home_dir := Some (lit "/home/ada"); arguments := [lit "atom"; lit "live"; lit "id"] |}.
Definition demo_keyring : Keyring := {| reachable := true; items := []; storable := true |}.
Definition demo_world : World (list string) := {| config_key := None; folders := ∅; rest := [] |}.

Definition willing (d : str) : bool := false.
Definition first_process := main demo_parse true willing 18 demo_process demo_keyring (rng_const Byte.x07) demo_world.

(** The arguments of the container, and what the first process leaves. *)
Definition demo_args : list str := match fst first_process with Becomes args => args | _ => [] end.
Definition demo_left : World (list string) := snd (snd first_process).

(** The container's process finds other files; with the key ring it runs the command,
    and without the bus it does not. *)
Definition container_world : World (list string) := {| config_key := None; folders := ∅; rest := ["of the container"%string] |}.
Definition no_bus : Keyring := {| reachable := false; items := []; storable := false |}.

Lemma restart_runs_the_command_witness :
  exists os exe, read_options demo_args = Some (os, exe :: [lit "live"; lit "id"]) /\
    forall q g2, (forall x, variable q x = environment os (variable demo_process) x) -> arguments q = exe :: [lit "live"; lit "id"] ->
      let served := main demo_parse true willing 18 q (fst (fst (snd first_process))) g2 container_world in
      fst served = Exits 0 /\ rest (snd (snd served)) = ["of the container"%string; "live id"%string] /\
      main demo_parse true willing 18 q no_bus g2 container_world = (Exits 1, (no_bus, g2, container_world)).
Proof.
  destruct (restart_runs_the_command demo_parse willing 18 demo_process demo_keyring (rng_const Byte.x07) demo_world demo_args
    (fst (fst (snd first_process))) (snd (fst (snd first_process))) demo_left)
    as (os & exe & xdg & key & Hread & _ & _ & Hkey & _ & _ & _ & Hrun).
  - intros a b Hab. unfold demo_parse. rewrite Hab. reflexivity.
  - repeat constructor.
  - vm_compute. reflexivity.
  - exists os, exe. split; [exact Hread|]. intros q g2 Hq Ha.
    rewrite (Hrun q true willing 18 _ g2 container_world Hq Ha), Hkey. rewrite (Hrun q true willing 18 no_bus g2 container_world Hq Ha).
    split; [reflexivity|]. split; reflexivity.
Defined.

(** The restart makes the staging folder first, with the mode every folder gets; [main]
    would have made it private, and leaves it as it is. *)
Example staging_is_not_private :
  folders demo_left !! lit "/run/user/1000/atom_staging" = Some 493 /\
  folders (snd (snd (main demo_parse false willing 18 demo_process demo_keyring (rng_const Byte.x07) demo_world))) !! lit "/run/user/1000/atom_staging" = Some 493 /\
  folders (make_dir willing 18 448 (lit "/run/user/1000/atom_staging") demo_world) !! lit "/run/user/1000/atom_staging" = Some 448.
Proof. by vm_compute. Qed.
